(* ===== verification/_CoqProject ===== *)
-Q . S2P
Prelude.v
Threads.v
GoStrings.v
Checksum.v
Replay.v
RateLimiter.v
Tai64n.v
NoiseTypes.v
AllowedIPs.v
PrefixTree.v
AllowedIPsRep.v
AllowedIPsStep.v
AllowedIPsInsert.v
AllowedIPsTable.v
AllowedIPsRemove.v
AllowedIPsThm.v
Crypto.v
Obf.v
DeviceTypes.v
Messages.v
Noise.v
NoiseRun.v
NoiseInv.v
NoiseKeys.v
Timers.v
Cookie.v
Packet.v
PacketThm.v
Send.v
SendThm.v
Receive.v
Lifecycle.v
Stable.v
TimersThm.v
KeysInv.v
NonceInv.v
NetIP.v
GoNet.v
GoNetThm.v
PingBatch.v
PingBatchThm.v
ConnBatch.v
ConnBatchThm.v
ConnBind.v
ConnBindThm.v
ConnIOThm.v
PrConfig.v
PrConfigThm.v
PrI1.v
PrSocks.v
PrSocksThm.v
UsqueSocks.v
UrBridge.v
PsiphonBridge.v
UsqueSocksThm.v
UsqueConfig.v
UsqueSession.v
UsqueTyping.v
UsqueSessionThm.v
UsqueRelay.v
UsqueTunnel.v
PrHop.v
PrPing.v
Uapi.v
PrUapiThm.v
UapiGet.v
UapiGetThm.v
GoUrl.v
Share.v
ShareThm.v
ShareRound.v
PrEngine.v
UapiThm.v
Events.v
NoiseThm.v
StampInv.v
StateInv.v
PrEngineThm.v
Sample.v
PrSample.v
