(* ===== verification/Prelude.v ===== *)
(** * PersianRay core: a verification library for the Go engines under [src/]

    PersianRay's iOS core is a Go library that carries a phone's traffic through
    one of several engines. [src/awg-ios] is a WireGuard device with the
    obfuscation of AmneziaWG ([device/]), its sockets ([conn/]), and the live
    tunnel built on it ([cmd/persianray/]), with an optional second device nested
    in the first and a SOCKS5 server in front. [src/usque-ios/mobile] runs MASQUE
    sessions side by side, each with a SOCKS5 server. [src/libxray] turns share
    links into outbounds of Xray and back and measures outbounds, and the files
    [src/*_bridge.go] start and stop the engines of URnetwork and Psiphon. This
    library models these programs and proves what makes them correct.

    ** The parts and how they interact

    - A [Device] owns peers, an index table, a routing trie, a socket
      ([conn.Bind]) and a TUN device.  Plain packets read from the TUN device are
      routed by the trie to a peer, staged, given a nonce of the peer's current
      keypair, encrypted by a worker and sent in order.  Datagrams received are
      classified by their obfuscated header, decrypted by a worker, checked
      against the keypair's replay filter, and written to the TUN device when
      the trie routes their source to the peer.
    - Keypairs come from the Noise IKpsk2 handshake, driven by timers, protected
      by MAC fields, cookies and a rate limiter, and identified by random
      indices of the index table.
    - The configuration protocol writes all of this from lines of text; the live
      tunnel composes such a text from its JSON configuration.
    - The process holds at most one live tunnel: an outer device, maybe an inner
      device whose socket is a connection of the outer device's network stack,
      and a SOCKS5 server that dials through the inner-most stack, or directly
      for hosts its policy bypasses.  Pings open short-lived tunnels of their own.
    - The MASQUE client keeps a registry of sessions; a session owns a context, a
      device, a SOCKS server and at times a relay for the hop.  Its exported calls
      and those of the bridges come from the application's threads in any order,
      and meet in the shared state only.

    ** How the model is built

    Go code is translated function by function.  A stateful method becomes a
    function from the state to the state ([Device -> Device], with a result when
    it has one); an error is a value of [result] or [option]; a panic is [None],
    or [Panicked] where a call has errors too.
    Pointers to objects that are shared are keys of stores held in the state.
    A machine integer is a [Z] with its reduction written out ([u8], [u16],
    [u32], [u64]); Go's [int] is unbounded except where the code's arithmetic can
    reach its width.  Bytes and strings are [list Z].  In the device goroutines are
    the steps of [Events.step], in any order.  A step is one run of a worker, of a
    timer's function, or of a method, except for the handshake workers, of which
    there are several: the check of a message, the update of the handshake, and
    the answer with the session it derives are steps of their own
    ([Receive.continueHandshake]), so that two may take the same message.
    The calls of the MASQUE client and of the bridges hold no lock from end to
    end, so they are programs ([Threads.prog]): trees of atomic actions, run by
    threads that take turns after every action.

    Code outside [src/] is a parameter, as a class with the laws that are relied
    on: [Crypto.Crypto] and [Crypto.CryptoLaws] (golang.org/x/crypto; [Toy] is an
    instance), [Prelude.Entropy] (crypto/rand as a stream of bytes read from a
    position), [Send.Bind] (what a send on the socket does), [PrSocks.Resolver] and
    [UapiGet.EndpointText] (names and endpoints as text), [PrSocks.SocksNet] (dialling,
    listening, writing), [PrHop.HopNet] (the outer network stack),
    [PrEngine.EngineEnv] (the stacks, listeners and the look-up of the exit),
    [Checksum.NativeEndian], [ConnBatch.Platform] and [ConnBind.Kernel] (the byte
    order, the offload features and the system calls of the sockets, with the
    laws [KernelPorts] and [KernelProgress]), [UsqueSocks.UsqueStack] with
    [UsqueStackLaws] (the network stack of a MASQUE session),
    [UsqueConfig.UsqueEnv] and [UsqueConfig.RegisterEnv] (credentials, TLS, the
    resolver, the registration service and the file system), [PingBatch.PingEnv]
    (files and the Xray server), [UrBridge.UrIds] (identities of the SDK),
    [PsiphonBridge.NoticeEnv] (decoding a notice), [Share.ShareJson] (JSON as text, the
    Clash reader, the environment, what Xray's builders accept).
    Functions of Go's standard library that the code computes with are written
    out ([GoStrings], [NetIP], [GoNet], [GoUrl], HMAC in [Crypto]).

    ** The files

    General:
    - [Prelude]: machine integers, [result], record updates, the tactics and hint
      databases, lemmas on lists, options, bits and association lists.
    - [Threads]: concurrent programs.  The class [Actions] says what an action does,
      [Signature] which tokens (duties to release something) it takes and leaves,
      [Accounting] that the tokens account for the shared state; then the tokens
      of all typed programs together do so in every reachable state.
    - [GoStrings], [NetIP], [GoNet], [GoNetThm], [GoUrl]: strings, strconv, hex;
      net/netip; net and base64; net/url; with their round trips.
    - [Checksum] ([tun/checksum.go]): the Internet checksum.

    The device, [src/awg-ios/]:
    - [Replay] ([replay/replay.go]), [RateLimiter] ([ratelimiter/ratelimiter.go]),
      [Tai64n] ([tai64n/tai64n.go]): one file each, code, specification and
      refinement together.
    - [NoiseTypes] ([device/noise-types.go], [device/noise-helpers.go]): keys and
      [UintRange].
    - [AllowedIPs] ([device/allowedips.go]) is the trie as a store of mutable
      nodes.  [PrefixTree] is the specification side; [AllowedIPsRep] relates the
      two; [AllowedIPsStep], [AllowedIPsInsert],
      [AllowedIPsRemove] refine each method; [AllowedIPsTable] states the
      invariant; [AllowedIPsThm] has the theorems for whole runs.
    - [Crypto], [Messages], [Noise], [NoiseRun] ([device/noise-helpers.go],
      [device/noise-protocol.go], [device/keypair.go], [device/indextable.go]): the
      primitives, the wire format, the handshake's handlers, and their results in
      closed form; [NoiseThm] puts two devices together.
    - [Obf] ([device/obf.go], [device/obf_*.go]): obfuscation chains.
    - [DeviceTypes] ([device/device.go], [device/peer.go], …): the records and
      [NewDevice].
    - [Timers] ([device/timers.go]), [Cookie] ([device/cookie.go]), [Packet] (the
      format of a datagram), [Send] ([device/send.go]), [Receive]
      ([device/receive.go]), [Lifecycle] (peers, the device's states, expiry
      handlers, TUN events), [Uapi] ([device/uapi.go], "set") and [UapiGet]
      ("get").
    - [Events]: the device as a transition system over these handlers.
    - [Stable] is the interface between handlers and invariants: a relation that
      the few primitive operations preserve is preserved by every handler
      ([Stable], [UapiThm]).  [NoiseInv] with [NoiseKeys] and [KeysInv] (index
      table), [NonceInv] (nonces), [StampInv] (timestamps), [StateInv] (life and
      TUN output) are such relations.
    - [PacketThm], [SendThm], [TimersThm], [UapiGetThm]: theorems about one
      component each.

    The live tunnel, [src/awg-ios/cmd/persianray/]:
    - [PrConfig], [PrConfigThm] ([config.go], [policy.go]); [PrI1], [PrUapiThm]
      ([i1.go], [uapiPeer]); [PrSocks], [PrSocksThm] ([socks.go]); [PrHop]
      ([hopbind.go]); [PrPing] ([ping.go]); [PrEngine], [PrEngineThm] ([engine.go],
      [hop.go], [export.go]).

    The sockets of a device, [src/awg-ios/conn/]:
    - [ConnBatch], [ConnBatchThm] ([gso_linux.go] and the coalescing and splitting of
      [bind_std.go]); [ConnBind], [ConnBindThm], [ConnIOThm] ([bind_std.go]: opening,
      closing, sending and receiving, with [sticky_linux.go], [mark_unix.go],
      [errors_linux.go]).

    The MASQUE client, [src/usque-ios/mobile/mobile.go]:
    - [UsqueConfig] (defaults and checks of a request, the registration and its
      file), [UsqueSession] (the exported calls as
      programs over the registry), [UsqueTyping] and [UsqueSessionThm] (their
      ownership types and what these give), [UsqueSocks] and [UsqueSocksThm] (the
      SOCKS server and its UDP flows), [UsqueRelay] (the relay of the hop);
      [UsqueTunnel] ([src/usque-ios/api]: [MaintainTunnel] and its pumps,
      [ConnectTunnel]).

    Share links, [src/libxray/share/]:
    - [Share] ([generate_share.go], [parse_share.go], [stream.go],
      [transport_build.go], [hysteria_mask.go], [vmess.go], [xray_json.go],
      [validate_outbound.go]): the settings as records, writing and reading;
      [ShareThm] (texts, addresses, queries, and what a link carries of an
      outbound); [ShareRound] (reading back, protocol by protocol).

    Measurements and bridges:
    - [PingBatch], [PingBatchThm] ([src/libxray/xray/ping_batch.go]);
      [UrBridge] ([src/urnetwork_bridge.go]); [PsiphonBridge]
      ([src/psiphon_bridge.go], [psi.go], the notice writer of [notice.go]).
    [Sample] and [PrSample] run two devices and a process on concrete inputs;
    the theorems about reachable states are applied there.

    ** What the theorems show

    - Routing: the trie never panics and is a finite map with longest-prefix
      match; the per-peer lists are exact; removal of a peer unroutes it and
      nothing else ([AllowedIPsThm]).
    - Keys and nonces: in every state that any order of handlers reaches, the
      index table and the keypair slots agree (index 0 apart, which stands for no
      index but may be drawn), no nonce is used twice with one keypair or reaches
      the limit, and settings are consistent ([Events]); once the handshake of an
      initiation was taken over, no check lets it pass again ([StampInv]).
    - Protocol: two configured devices complete the handshake and hold fitting
      keys ([NoiseThm]); a transport datagram decrypts to what was sent
      ([PacketThm]); cookies are accepted by the other side ([Cookie]); a counter
      is accepted once ([Replay]); the rate limiter is an ideal token bucket
      ([RateLimiter]); only routed sources reach the TUN device ([StateInv]).
    - Progress: sending staged packets terminates ([SendThm]); handshake
      retransmission ends ([TimersThm]); a closed device stays closed
      ([StateInv]).
    - Configuration: the text of the live tunnel configures exactly what was
      asked ([PrUapiThm]); what "get" prints "set" reads ([UapiGetThm]); a "set" that
      fails keeps the settings unless a line was too long ([UapiThm]).
    - The process: no device outlives its owner, a start that succeeds leaves the
      tunnel up, one that fails leaves nothing, pings that run side by side
      own what they open ([PrEngineThm]); the SOCKS server
      and the UDP association stay within the policy ([PrSocksThm],
      [PrConfigThm]); the hop's socket is single ([PrHop]); a ping talks to its
      own tunnel ([PrPing]).
    - The sockets: the fast checksum is that of RFC 1071 ([Checksum]); the sockets
      open are those the bind holds, but for those whose own address did not resolve
      ([ConnBindThm]); what is sent leaves as it was
      given, and what the kernel joined is received apart ([ConnIOThm]).
    - The MASQUE client: every exported call releases what it opened on every
      path ([UsqueTyping]), so that nothing leaks and nothing is closed twice,
      whatever the interleaving ([UsqueSessionThm]); over TCP only an authenticated
      client is served, UDP flows are private ([UsqueSocksThm]); a registration
      never loses the file ([UsqueConfig]); a maintained tunnel holds the handles of
      one connection at a time and closes them ([UsqueTunnel]).
    - Measurements: the search for the outbounds an item needs ends, is exact and
      reports what is wrong, the merged outbounds are copies under names of their
      own, results do not depend on the workers' order ([PingBatchThm]).
    - Share links: the links written for outbounds read back as the outbounds they
      stand for; reading panics exactly on links without user information
      ([ShareRound]).
    - Bridges: nothing but the session that is set stays open ([UrBridge]); the
      engine's controller, its notices and its data store live and die together,
      and the queue of notices is a bounded first-in-first-out queue
      ([PsiphonBridge]).

    ** Fuel and bounds

    A loop that is not structural has fuel, and the fuel is enough:
    - [Replay.clearFuel] is the number of blocks plus one; the loop clears at most
      one ring.
    - [AllowedIPs.walkFuel] (131) exceeds the longest prefix (128) and every turn
      of a walk moves to a longer prefix ([AllowedIPsStep]).
    - [Noise.indexFuel] (64 draws) bounds the search for a free index, which in
      Go only ends when the entropy gives one; running out sets
      [spinning], and the theorems about the index table are about the states in
      which it is not set.
    - [Send.sendFuel] (staged containers plus two) bounds the loop of
      [SendStagedPackets]; that it is enough is [send_staged_terminates].
    - Loops over text ([Obf.parseTags], the scanners) have the length of the text.
    - [ConnBind.openAgain] tries again at most 100 times, as the code does.
    - [PingBatch.visit] has the number of outbounds plus one: a path of outbounds
      that are being visited has no repetition ([dependencies_collected]).
    - The loops of [UsqueTunnel] are endless in the code; a thread whose fuel is used
      up stops, so that every finite run is a run of the model for some fuel, and
      the theorems are about all fuels.
    - A wait of the MASQUE client ends at the deadline, which comes after any finite
      number of ticks.

    ** What is not modelled

    - Wait groups, object pools and channel capacities that only delay
      ([device/pools.go], [device/channels.go]); buffers are fresh.  Log lines.
    - Interleavings inside the device's other handlers (senders, decryption, timers,
      configuration), which the code runs in sections of several locks.
    - Operating system code: TUN devices, netlink ([device/sticky_linux.go]), UAPI
      sockets ([ipc/]), Windows sockets; builds other than the iOS one where files
      differ by platform.
    - The gVisor network stack, the QUIC, HTTP/3 and CONNECT-IP libraries, the TLS
      configuration and hooks of [src/usque-ios/api], the settings a URnetwork device
      gets before it connects, the copying of C strings.
    - Share links: Clash YAML ([share/clash_meta.go]) and the builders of Xray are
      parameters; the raw JSON that Xray keeps for the settings of a protocol is
      kept decoded, which for text that is valid UTF-8 loses nothing; fields of
      the configuration structs that no link carries; IPv6 zones in URLs.
    - Engines that are copies of other projects: Xray ([src/xray-core]), Psiphon
      ([src/psiphon-ios]) beyond what its bridge calls, and the libraries they
      vendor. *)

From stdpp Require Import base numbers list gmap strings.
From Stdlib Require Import ZArith Lia.

#[global] Open Scope Z_scope.

(** ** Machine integers

    Go's fixed-width integers are values of [Z]; every operation that can wrap
    is followed by the reduction written here. *)

Definition u8 (x : Z) : Z := x mod 2 ^ 8.
Definition u16 (x : Z) : Z := x mod 2 ^ 16.
Definition u32 (x : Z) : Z := x mod 2 ^ 32.
Definition u64 (x : Z) : Z := x mod 2 ^ 64.
Definition s64 (x : Z) : Z := (x + 2 ^ 63) mod 2 ^ 64 - 2 ^ 63.

Definition is_u8 (x : Z) : Prop := 0 <= x < 2 ^ 8.
Definition is_u32 (x : Z) : Prop := 0 <= x < 2 ^ 32.
Definition is_u64 (x : Z) : Prop := 0 <= x < 2 ^ 64.

(** ** Results of fallible Go code *)

Inductive result (E A : Type) : Type :=
  | Ok (a : A)
  | Err (e : E).
Arguments Ok {E A} a.
Arguments Err {E A} e.

Definition rbind {E A B} (m : result E A) (k : A -> result E B) : result E B :=
  match m with Ok a => k a | Err e => Err e end.

Definition is_ok {E A} (m : result E A) : bool :=
  match m with Ok _ => true | Err _ => false end.

(** A Go call: a value, an error, or a panic. *)
Inductive outcome (A : Type) := Done (a : A) | Failed | Panicked.
Arguments Done {A} a.
Arguments Failed {A}.
Arguments Panicked {A}.
#[global] Instance outcome_bind : MBind outcome := fun A B k m =>
  match m with Done a => k a | Failed => Failed | Panicked => Panicked end.
#[global] Instance outcome_fmap : FMap outcome := fun A B f m =>
  match m with Done a => Done (f a) | Failed => Failed | Panicked => Panicked end.
Definition orFail {A} (o : option A) : outcome A := match o with Some a => Done a | None => Failed end.

Declare Scope go_scope.
Delimit Scope go_scope with go.
Notation "'try' x '<-' m ';;' k" := (rbind m (fun x => k))
  (at level 100, m at next level, x pattern, right associativity) : go_scope.
#[global] Open Scope go_scope.

(** Stateful fallible code: a Go method mutates the shared state and may then
    return an error; the mutations made before the error stay. *)

Definition ste (S E A : Type) : Type := S -> result E A * S.

Definition sret {S E A} (a : A) : ste S E A := fun s => (Ok a, s).
Definition sfail {S E A} (e : E) : ste S E A := fun s => (Err e, s).
Definition sbind {S E A B} (m : ste S E A) (k : A -> ste S E B) : ste S E B :=
  fun s => match m s with
           | (Ok a, s') => k a s'
           | (Err e, s') => (Err e, s')
           end.
Definition sget {S E} : ste S E S := fun s => (Ok s, s).
Definition sput {S E} (s' : S) : ste S E unit := fun _ => (Ok tt, s').
Definition smod {S E} (f : S -> S) : ste S E unit := fun s => (Ok tt, f s).
Definition slift {S E A} (m : result E A) : ste S E A := fun s => (m, s).

Notation "'do' x '<-' m ';;' k" := (sbind m (fun x => k))
  (at level 100, m at next level, x pattern, right associativity) : go_scope.
Notation "m '>>>' k" := (sbind m (fun _ => k))
  (at level 99, right associativity) : go_scope.

(** A computation moves the state along a preorder, whether it fails or not. *)
Definition keeps {S E A} (R : S -> S -> Prop) (m : ste S E A) : Prop := forall s, R s (snd (m s)).

(** ** Record update

    [r <| f := v |>] and [r <| f ::= h |>] rebuild the record [r] with the field
    [f] changed: Go's assignment to one field of a struct.  A record type
    declares how it is rebuilt from its fields. *)

Class Rebuild (R : Type) := rebuild : R -> R.
Class FieldUpdate {R T : Type} (f : R -> T) := update : (T -> T) -> R -> R.

Ltac solve_update :=
  match goal with
  | |- @FieldUpdate ?R ?T ?f =>
      let r := constr:(_ : Rebuild R) in
      let r := eval cbv delta [rebuild] in r in
      let r := (match r with ?i => eval unfold i in i end) in
      let r := eval pattern f in r in
      match r with ?g _ => exact (fun h x => g (fun y => h (f y)) x) end
  end.
#[export] Hint Extern 1 (FieldUpdate _) => solve_update : typeclass_instances.

#[warnings="-postfix-notation-not-level-1"]
Notation "x '<|' f '::=' h '|>'" := (update (f:=f) h x)
  (at level 12, f at next level, left associativity) : go_scope.
#[warnings="-postfix-notation-not-level-1"]
Notation "x '<|' f ':=' v '|>'" := (update (f:=f) (fun _ => v) x)
  (at level 12, f at next level, left associativity) : go_scope.

(** ** Randomness

    The bytes the system's generator delivers, in order.  A reader keeps the
    position of the next byte. *)

Class Entropy := entropy : nat -> Z.

Definition randRead `{Entropy} (n pos : nat) : list Z :=
  (fun i => u8 (entropy (pos + i))) <$> seq 0 n.

(** ** Bytes and byte order *)

Definition bytes_ok (l : list Z) : Prop := Forall is_u8 l.

Fixpoint le_bytes (n : nat) (z : Z) : list Z :=
  match n with
  | O => []
  | S n' => z mod 256 :: le_bytes n' (z / 256)
  end.

Definition be_bytes (n : nat) (z : Z) : list Z := reverse (le_bytes n z).

Fixpoint le_val (l : list Z) : Z :=
  match l with
  | [] => 0
  | b :: l' => b + 256 * le_val l'
  end.

Definition be_val (l : list Z) : Z := le_val (reverse l).

(** [l[a:b]] of a Go slice expression (bounds are checked by the callers). *)
Definition slice {A} (l : list A) (a b : nat) : list A := take (b - a) (drop a l).

(** [copy(dst, src)]: as many elements as fit. *)
Definition copy_into {A} (dst src : list A) : list A :=
  take (length dst) src ++ drop (length src) dst.

Definition zeros (n : nat) : list Z := replicate n 0.

(** ** Lemmas on machine integers *)

Create HintDb go discriminated.
Create Rewrite HintDb go_rw.

Ltac unfold_words := unfold u8, u16, u32, u64, is_u8, is_u32, is_u64 in *.
Ltac zmod := unfold_words; Z.div_mod_to_equations; lia.
Ltac destruct_ifs :=
  repeat match goal with
         | |- context [if ?b then _ else _] => destruct b eqn:?
         | H : context [if ?b then _ else _] |- _ => destruct b eqn:?
         end.

Lemma u32_range x : is_u32 (u32 x).
Proof. unfold is_u32, u32. apply Z.mod_pos_bound. lia. Qed.

Lemma u64_range x : is_u64 (u64 x).
Proof. unfold is_u64, u64. apply Z.mod_pos_bound. lia. Qed.

Lemma u32_id x : is_u32 x -> u32 x = x.
Proof. intros H. apply Z.mod_small. exact H. Qed.

Lemma u64_id x : is_u64 x -> u64 x = x.
Proof. intros H. apply Z.mod_small. exact H. Qed.

Lemma s64_id x : - 2 ^ 63 <= x < 2 ^ 63 -> s64 x = x.
Proof. intros H. unfold s64. rewrite Z.mod_small; lia. Qed.

#[export] Hint Resolve u32_range u64_range : go.
#[export] Hint Rewrite u32_id u64_id s64_id using (unfold is_u32, is_u64; lia) : go_rw.

(** ** Lemmas on bits *)

Lemma testbit_above_pow2 x n i :
  0 <= x < 2 ^ n -> 0 <= n <= i -> Z.testbit x i = false.
Proof.
  intros Hx Hn. destruct (decide (x = 0)) as [->|Hne].
  { apply Z.testbit_0_l. }
  apply Z.bits_above_log2; [lia|].
  assert (Z.log2 x < n) by (apply Z.log2_lt_pow2; lia). lia.
Qed.

Lemma lt_pow2_of_bits x n :
  0 <= x -> 0 <= n -> (forall i, n <= i -> Z.testbit x i = false) -> x < 2 ^ n.
Proof.
  intros Hx Hn Hb.
  rewrite <- (Z.mod_small x (2 ^ (Z.log2 x + 1 + n))).
  2: { split; [lia|]. pose proof (Z.log2_nonneg x).
       apply Z.lt_le_trans with (2 ^ (Z.log2 x + 1)).
       - destruct (decide (x = 0)) as [->|?]; [simpl; lia|].
         apply Z.log2_lt_pow2; lia.
       - apply Z.pow_le_mono_r; lia. }
  assert (Heq : x mod 2 ^ (Z.log2 x + 1 + n) = x mod 2 ^ n).
  { pose proof (Z.log2_nonneg x).
    apply Z.bits_inj'; intros i Hi.
    destruct (decide (i < n)).
    - rewrite !Z.mod_pow2_bits_low by lia. reflexivity.
    - rewrite (Z.mod_pow2_bits_high x n i) by lia.
      destruct (decide (i < Z.log2 x + 1 + n)).
      + rewrite Z.mod_pow2_bits_low by lia. apply Hb. lia.
      + apply Z.mod_pow2_bits_high. lia. }
  rewrite Heq. apply Z.mod_pos_bound. lia.
Qed.

Lemma land_ones_mod x n : 0 <= n -> Z.land x (2 ^ n - 1) = x mod 2 ^ n.
Proof.
  intros Hn. rewrite <- Z.land_ones by lia. f_equal.
  rewrite Z.ones_equiv. lia.
Qed.

(** ** Lemmas on byte encodings *)

Lemma length_le_bytes n z : length (le_bytes n z) = n.
Proof. revert z. induction n; intros; simpl; auto. Qed.

Lemma length_be_bytes n z : length (be_bytes n z) = n.
Proof. unfold be_bytes. by rewrite length_reverse, length_le_bytes. Qed.

Lemma le_bytes_ok n z : bytes_ok (le_bytes n z).
Proof.
  revert z. induction n; intros; simpl; constructor; auto.
  - unfold is_u8. change (2 ^ 8) with 256. apply Z.mod_pos_bound. lia.
  - apply IHn.
Qed.

Lemma be_bytes_ok n z : bytes_ok (be_bytes n z).
Proof. unfold be_bytes, bytes_ok. rewrite Forall_reverse. apply le_bytes_ok. Qed.

Lemma pow256_pos n : 0 < 256 ^ Z.of_nat n.
Proof. apply Z.pow_pos_nonneg; lia. Qed.

Lemma pow256_succ n : 256 ^ Z.of_nat (S n) = 256 * 256 ^ Z.of_nat n.
Proof. rewrite Nat2Z.inj_succ, Z.pow_succ_r by lia. reflexivity. Qed.

Lemma le_val_le_bytes n z : le_val (le_bytes n z) = z mod 256 ^ Z.of_nat n.
Proof.
  revert z. induction n as [|n IH]; intros z; cbn [le_val le_bytes].
  - by rewrite Z.mod_1_r.
  - rewrite IH, pow256_succ. pose proof (pow256_pos n).
    rewrite Z.rem_mul_r by lia. reflexivity.
Qed.

Lemma le_val_bound l : bytes_ok l -> 0 <= le_val l < 256 ^ Z.of_nat (length l).
Proof.
  induction 1 as [|b l Hb Hl IH]; cbn [le_val length].
  - simpl. lia.
  - unfold is_u8 in Hb. rewrite pow256_succ. nia.
Qed.

Lemma le_bytes_le_val l : bytes_ok l -> le_bytes (length l) (le_val l) = l.
Proof.
  induction 1 as [|b l Hb Hl IH]; cbn [le_val le_bytes length]; [done|].
  unfold is_u8 in Hb. f_equal.
  - rewrite (Z.mul_comm 256), Z.mod_add by lia. apply Z.mod_small. lia.
  - rewrite (Z.mul_comm 256), Z.div_add by lia.
    rewrite (Z.div_small b 256) by lia. rewrite Z.add_0_l. exact IH.
Qed.

Lemma be_val_be_bytes n z : be_val (be_bytes n z) = z mod 256 ^ Z.of_nat n.
Proof. unfold be_val, be_bytes. rewrite reverse_involutive. apply le_val_le_bytes. Qed.

Lemma bytes_ok_reverse l : bytes_ok (reverse l) <-> bytes_ok l.
Proof. unfold bytes_ok. by rewrite Forall_reverse. Qed.

Lemma be_val_bound l : bytes_ok l -> 0 <= be_val l < 256 ^ Z.of_nat (length l).
Proof.
  intros H. unfold be_val. rewrite <- (length_reverse l).
  apply le_val_bound. by apply bytes_ok_reverse.
Qed.

Lemma be_bytes_be_val l : bytes_ok l -> be_bytes (length l) (be_val l) = l.
Proof.
  intros H. unfold be_bytes, be_val. rewrite <- (length_reverse l).
  rewrite le_bytes_le_val by (by apply bytes_ok_reverse). apply reverse_involutive.
Qed.

Lemma le_val_app l1 l2 :
  le_val (l1 ++ l2) = le_val l1 + 256 ^ Z.of_nat (length l1) * le_val l2.
Proof.
  induction l1 as [|b l1 IH]; cbn [app le_val length].
  - change (256 ^ Z.of_nat 0) with 1. lia.
  - rewrite IH, pow256_succ. lia.
Qed.

Lemma be_val_cons b l : be_val (b :: l) = b * 256 ^ Z.of_nat (length l) + be_val l.
Proof.
  unfold be_val. rewrite reverse_cons, le_val_app, length_reverse. simpl. lia.
Qed.

Lemma be_val_app l1 l2 :
  be_val (l1 ++ l2) = be_val l1 * 256 ^ Z.of_nat (length l2) + be_val l2.
Proof.
  unfold be_val. rewrite reverse_app, le_val_app, length_reverse. lia.
Qed.

#[export] Hint Resolve le_bytes_ok be_bytes_ok : go.
#[export] Hint Rewrite length_le_bytes length_be_bytes : go_rw.

(** ** Lemmas on slices *)

Lemma length_slice {A} (l : list A) a b :
  (b <= length l)%nat -> (a <= b)%nat -> length (slice l a b) = (b - a)%nat.
Proof. intros. unfold slice. rewrite length_take, length_drop. lia. Qed.

Lemma slice_full {A} (l : list A) : slice l 0 (length l) = l.
Proof. unfold slice. rewrite drop_0, Nat.sub_0_r. apply take_ge. lia. Qed.

Lemma slice_app_l {A} (l1 l2 : list A) a b :
  (b <= length l1)%nat -> slice (l1 ++ l2) a b = slice l1 a b.
Proof.
  intros. unfold slice.
  destruct (decide (a <= length l1)%nat).
  - rewrite drop_app_le by lia. rewrite take_app_le; [done|]. rewrite length_drop. lia.
  - replace (b - a)%nat with O by lia. by rewrite !take_0.
Qed.

Lemma slice_app_r {A} (l1 l2 : list A) a b :
  (length l1 <= a)%nat -> slice (l1 ++ l2) a b = slice l2 (a - length l1) (b - length l1).
Proof.
  intros. unfold slice. rewrite drop_app_ge by lia. f_equal. lia.
Qed.

Lemma copy_into_same {A} (dst src : list A) :
  length dst = length src -> copy_into dst src = src.
Proof.
  intros H. unfold copy_into. rewrite H, take_ge by lia.
  rewrite drop_ge by lia. apply app_nil_r.
Qed.

Lemma length_copy_into {A} (dst src : list A) : length (copy_into dst src) = length dst.
Proof. unfold copy_into. rewrite length_app, length_take, length_drop. lia. Qed.

(** ** Lemmas on computations *)

Section Keeps.
Context {S E : Type} (R : S -> S -> Prop) `{!PreOrder R}.

Lemma keeps_ret {A} (a : A) : keeps R (sret (E := E) a).
Proof. intros s. reflexivity. Qed.

Lemma keeps_fail {A} (e : E) : keeps R (sfail (A := A) e).
Proof. intros s. reflexivity. Qed.

Lemma keeps_mod (f : S -> S) : (forall s, R s (f s)) -> keeps R (smod (E := E) f).
Proof. intros H s. apply H. Qed.

Lemma keeps_bind {A B} (m : ste S E A) (k : A -> ste S E B) :
  keeps R m -> (forall a, keeps R (k a)) -> keeps R (sbind m k).
Proof.
  intros Hm Hk s. unfold sbind. specialize (Hm s). destruct (m s) as [[a|e] s']; cbn [snd] in *; [|done].
  etransitivity; [exact Hm|apply Hk].
Qed.

Lemma foldl_keeps {A} (f : S -> A -> S) (l : list A) s : (forall a s, R s (f s a)) -> R s (foldl f s l).
Proof.
  intros H. revert s. induction l as [|a l IH]; intros s; cbn [foldl]; [reflexivity|].
  etransitivity; [apply H|apply IH].
Qed.
End Keeps.
