(* ===== verification/Threads.v ===== *)
(** * Concurrent programs

    A call of a bridge runs concurrently with others on shared state.  It is a
    program: a tree of atomic actions, each a section under a mutex, an atomic
    load or store, or a call that opens or closes something.  What an action does
    to the shared state is the class [Actions].

    Ownership: a token stands for the duty to release something.  The class
    [Signature] gives, for every action, the tokens it needs and the tokens it
    leaves for each of its answers.  A program is typed when it can pay for each
    of its actions and ends with the tokens of its type.  [Accounting] says that
    the tokens account for what is open in the shared state; then the tokens of
    all programs together do so in every state the calls reach. *)

From stdpp Require Import base numbers list.
From Stdlib Require Import ZArith Lia.
From S2P Require Import Prelude.

(** ** Programs *)
Inductive prog (act : Set -> Type) (A : Type) : Type :=
  | Ret (a : A)
  | Act {X : Set} (a : act X) (k : X -> prog act A).
Arguments Ret {act A} a.
Arguments Act {act A X} a k.

Fixpoint pbind {act A B} (p : prog act A) (f : A -> prog act B) : prog act B :=
  match p with Ret a => f a | Act a k => Act a (fun x => pbind (k x) f) end.

Definition act {acts : Set -> Type} {X : Set} (a : acts X) : prog acts X := Act a Ret.

Declare Scope prog_scope.
Delimit Scope prog_scope with prog.
Notation "'run' x '<-' m ';;' k" := (pbind m (fun x => k))
  (at level 100, x name, m at next level, right associativity) : prog_scope.
Notation "m ';>' k" := (pbind m (fun _ => k)) (at level 100, k at level 200, right associativity) : prog_scope.

Fixpoint forEach {acts A} (f : A -> prog acts unit) (l : list A) : prog acts unit :=
  match l with [] => Ret tt | x :: l => pbind (f x) (fun _ => forEach f l) end.

Definition finished {acts A} (p : prog acts A) : bool := match p with Ret _ => true | Act _ _ => false end.

(** ** Threads

    [perform]: the action with the environment's answer; [None] when it has to
    wait. *)
Class Actions (acts : Set -> Type) (W Ans : Type) := {
  perform : forall X : Set, Ans -> W -> acts X -> option (W * X)
}.
Arguments perform {acts W Ans _ X} ans w a.

Record threads (W : Type) (acts : Set -> Type) (R : Type) := mkThreads { shared : W; pool : list (prog acts R) }.
Arguments mkThreads {W acts R} _ _.
Arguments shared {W acts R} _.
Arguments pool {W acts R} _.

Section Running.
Context {acts : Set -> Type} {W Ans R : Type} `{AC : Actions acts W Ans}.

(** The thread [i] does its next action, unless it has to wait. *)
Definition runThread (i : nat) (ans : Ans) (st : threads W acts R) : threads W acts R :=
  match pool st !! i with
  | Some (Act a k) =>
      match perform ans (shared st) a with
      | Some (w, x) => mkThreads w (<[i := k x]> (pool st))
      | None => st
      end
  | _ => st
  end.

Definition spawn (p : prog acts R) (st : threads W acts R) : threads W acts R := mkThreads (shared st) (pool st ++ [p]).

Lemma runThread_other i j ans st p : i <> j -> pool st !! i = Some p -> pool (runThread j ans st) !! i = Some p.
Proof.
  intros Hne Hi. unfold runThread. destruct (pool st !! j) as [[r|X a k]|] eqn:e; [done| |done].
  destruct (perform ans (shared st) a) as [[w x]|]; [|done]. cbn. by rewrite list_lookup_insert_ne.
Qed.

Lemma runThread_self i ans st X (a : acts X) k w x :
  pool st !! i = Some (Act a k) -> perform ans (shared st) a = Some (w, x) -> pool (runThread i ans st) !! i = Some (k x).
Proof.
  intros Hi He. unfold runThread. rewrite Hi, He. cbn. apply list_lookup_insert_eq. by eapply lookup_lt_Some.
Qed.
End Running.

(** ** Typing *)
Class Signature (acts : Set -> Type) (tok : Type) := {
  consumes : forall X : Set, acts X -> list tok;
  produces : forall X : Set, acts X -> X -> list tok;
  allowed : forall X : Set, acts X -> Prop
}.
Arguments consumes {acts tok _ X} a.
Arguments produces {acts tok _ X} a x.
Arguments allowed {acts tok _ X} a.

Definition optToken {A tok} (f : A -> tok) (o : option A) : list tok := match o with Some x => [f x] | None => [] end.

Fixpoint typed {acts tok} `{SG : Signature acts tok} {A} (R : list tok) (p : prog acts A) (Q : A -> list tok) : Prop :=
  match p with
  | Ret a => R ≡ₚ Q a
  | Act a k => allowed a /\ exists F, R ≡ₚ consumes a ++ F /\ forall x, typed (produces a x ++ F) (k x) Q
  end.

Section Typing.
Context {acts : Set -> Type} {tok : Type} `{SG : Signature acts tok}.

Lemma typed_perm {A} R R' (p : prog acts A) Q : R ≡ₚ R' -> typed R p Q -> typed R' p Q.
Proof.
  destruct p as [a|X a k]; cbn [typed]; intros HR; [by rewrite HR|].
  intros (Ha & F & Hc & Hk). split; [done|]. exists F. split; [by rewrite <- HR|done].
Qed.

Lemma typed_frame {A} F R (p : prog acts A) Q : typed R p Q -> typed (R ++ F) p (fun a => Q a ++ F).
Proof.
  revert R. induction p as [a|X a k IH]; cbn [typed]; intros R; [by intros ->|].
  intros (Ha & F' & Hc & Hk). split; [done|]. exists (F' ++ F). split; [by rewrite Hc, app_assoc|].
  intros x. rewrite app_assoc. apply IH, Hk.
Qed.

Lemma typed_bind {A B} R (p : prog acts A) Q (f : A -> prog acts B) Q' :
  typed R p Q -> (forall a, typed (Q a) (f a) Q') -> typed R (pbind p f) Q'.
Proof.
  revert R. induction p as [a|X a k IH]; cbn [typed pbind]; intros R.
  - intros HR Hf. eapply typed_perm; [symmetry; exact HR|apply Hf].
  - intros (Ha & F & Hc & Hk) Hf. split; [done|]. exists F. split; [done|]. intros x. by apply IH.
Qed.

Lemma typed_ret {A} R (a : A) (Q : A -> list tok) : R ≡ₚ Q a -> typed R (Ret a) Q.
Proof. done. Qed.

(** The rule for one action in front of the rest. *)
Lemma typed_act {X : Set} (a : acts X) {B} R F (f : X -> prog acts B) Q :
  allowed a -> R ≡ₚ consumes a ++ F -> (forall x, typed (produces a x ++ F) (f x) Q) -> typed R (pbind (act a) f) Q.
Proof. intros Ha Hc Hf. split; [done|]. exists F. by split. Qed.

Lemma typed_last {X : Set} (a : acts X) R Q :
  allowed a -> R ≡ₚ consumes a -> (forall x, produces a x ≡ₚ Q x) -> typed R (act a) Q.
Proof.
  intros Ha Hc Hf. split; [done|]. exists []. rewrite !app_nil_r. split; [done|]. intros x.
  rewrite app_nil_r. exact (Hf x).
Qed.

(** A call that starts with no token, in front of the rest. *)
Lemma typed_bind_nil {A B} R (p : prog acts A) (f : A -> prog acts B) Q :
  typed [] p (fun _ => []) -> (forall a, typed R (f a) Q) -> typed R (pbind p f) Q.
Proof.
  intros Hp Hf. apply (typed_bind R p (fun _ => R)); [|done].
  exact (typed_frame R [] p (fun _ => []) Hp).
Qed.

Lemma typed_forEach {A} (f : A -> prog acts unit) (t : A -> tok) l :
  (forall x, typed [t x] (f x) (fun _ => [])) -> typed (map t l) (forEach f l) (fun _ => []).
Proof.
  intros Hf. induction l as [|x l IH]; cbn [forEach map]; [by apply typed_ret|].
  apply (typed_bind _ _ (fun _ => map t l)); [|intros []; exact IH].
  exact (typed_frame (map t l) [t x] (f x) (fun _ => []) (Hf x)).
Qed.
End Typing.

(** One step of a program that needs nothing, or exactly what is there. *)
Ltac tanswer := let x := fresh "x" in intros x; lazymatch type of x with unit => destruct x | _ => idtac end.
Ltac tstep :=
  lazymatch goal with
  | |- typed ?R (pbind (act ?a) ?f) ?Q =>
      apply (typed_act a R []); [done|cbn [consumes]; by rewrite ?app_nil_r|tanswer; cbn [produces]; rewrite ?app_nil_r]
  end.
Ltac tfree :=
  lazymatch goal with
  | |- typed ?R (pbind (act ?a) ?f) ?Q => apply (typed_act a R R); [done|done|tanswer; cbn [produces app]]
  end.
(** An action that pays with some of the tokens and leaves the tokens [F]. *)
Ltac tpay F :=
  lazymatch goal with
  | |- typed ?R (pbind (act ?a) ?f) ?Q => apply (typed_act a R F); [done|done|tanswer; cbn [produces app]]
  end.
#[export] Hint Extern 0 (typed _ (Ret _) _) => apply typed_ret; reflexivity : core.

(** ** Soundness *)
Class Accounting {acts : Set -> Type} {W Ans tok : Type} `{AC : Actions acts W Ans} `{SG : Signature acts tok}
    (Acc : list tok -> W -> Prop) : Prop := {
  acc_perm : forall T T' w, T ≡ₚ T' -> Acc T w -> Acc T' w;
  acc_perform : forall (X : Set) (a : acts X) F ans w w' x,
    allowed a -> Acc (consumes a ++ F) w -> perform ans w a = Some (w', x) -> Acc (produces a x ++ F) w'
}.

Lemma concat_middle {A} (l : list (list A)) i x : l !! i = Some x ->
  exists l1 l2, l = l1 ++ x :: l2 /\ concat l ≡ₚ x ++ concat (l1 ++ l2) /\
    forall y, <[i := y]> l = l1 ++ y :: l2 /\ concat (<[i := y]> l) ≡ₚ y ++ concat (l1 ++ l2).
Proof.
  intros Hi. assert (Hlt := lookup_lt_Some _ _ _ Hi). exists (take i l), (drop (S i) l).
  assert (Hp : forall y, concat (take i l ++ y :: drop (S i) l) ≡ₚ y ++ concat (take i l ++ drop (S i) l)).
  { intros y. rewrite !concat_app. cbn [concat]. rewrite !app_assoc. by rewrite (Permutation_app_comm y). }
  rewrite (take_drop_middle _ _ _ Hi). split; [done|split].
  - rewrite <- (take_drop_middle _ _ _ Hi) at 1. apply Hp.
  - intros y. rewrite insert_take_drop by done. split; [done|apply Hp].
Qed.

Section Soundness.
Context {acts : Set -> Type} {W Ans tok R : Type} `{AC : Actions acts W Ans} `{SG : Signature acts tok}.
Context (Acc : list tok -> W -> Prop) `{AL : !Accounting Acc}.

(** Each program is typed with its own tokens; together they account. *)
Definition PoolOk (st : threads W acts R) : Prop :=
  exists Rs, Forall2 (fun R p => typed R p (fun _ => [])) Rs (pool st) /\ Acc (concat Rs) (shared st).

Lemma PoolOk_run i ans st : PoolOk st -> PoolOk (runThread i ans st).
Proof.
  intros (Rs & HT & HA). unfold runThread. destruct (pool st !! i) as [[r|X a k]|] eqn:Hi; [by exists Rs| |by exists Rs].
  destruct (perform ans (shared st) a) as [[w' x]|] eqn:e; [|by exists Rs].
  destruct (Forall2_lookup_r _ _ _ _ _ HT Hi) as (T & HR & Hal & F & Hc & Hk).
  destruct (concat_middle _ _ _ HR) as (R1 & R2 & -> & Hcat & Hins).
  exists (<[i := produces a x ++ F]> (R1 ++ T :: R2)). split; [apply Forall2_insert; [done|apply Hk]|].
  cbn [shared]. apply (acc_perm (produces a x ++ (F ++ concat (R1 ++ R2)))).
  { rewrite (proj2 (Hins _)). by rewrite app_assoc. }
  eapply acc_perform; [done| |exact e]. eapply acc_perm; [|exact HA]. rewrite Hcat, Hc. by rewrite app_assoc.
Qed.

Lemma PoolOk_spawn p st : typed [] p (fun _ => []) -> PoolOk st -> PoolOk (spawn p st).
Proof.
  intros Hp (Rs & HT & HA). exists (Rs ++ [[]]). split; [|cbn; by rewrite concat_app, !app_nil_r].
  apply Forall2_app; [done|]. constructor; [done|constructor].
Qed.

Lemma PoolOk_shared w st : (forall T, Acc T (shared st) -> Acc T w) -> PoolOk st -> PoolOk (mkThreads w (pool st)).
Proof. intros Hw (Rs & HT & HA). exists Rs. split; [done|by apply Hw]. Qed.

(** The tokens of a thread about to act are there. *)
Lemma PoolOk_head st i (X : Set) (a : acts X) k :
  PoolOk st -> pool st !! i = Some (Act a k) -> exists F, Acc (consumes a ++ F) (shared st).
Proof.
  intros (Rs & HT & HA) Hi. destruct (Forall2_lookup_r _ _ _ _ _ HT Hi) as (T & HR & _ & F & Hc & _).
  destruct (concat_middle _ _ _ HR) as (R1 & R2 & _ & Hcat & _). exists (F ++ concat (R1 ++ R2)).
  eapply acc_perm; [|exact HA]. by rewrite Hcat, Hc, app_assoc.
Qed.

(** When every program has ended no token is left. *)
Lemma PoolOk_done st : PoolOk st -> forallb finished (pool st) = true -> Acc [] (shared st).
Proof.
  intros (Rs & HT & HA) Hfin. assert (Hnil : concat Rs = []); [|by rewrite Hnil in HA].
  clear HA. induction HT as [|T p Rs ps HR _ IH]; [done|]. apply andb_prop in Hfin as [Hp Hps].
  destruct p; [|done]. cbn [typed] in HR. apply Permutation_nil_r in HR as ->. by apply IH.
Qed.
End Soundness.
