(* ===== verification/GoStrings.v ===== *)
(** * The Go string functions the engines use

    A Go string is its list of bytes.  The functions below are those of the
    packages [strings], [strconv], [encoding/hex] and [fmt] (verb [%d]) that the
    modelled code calls, on ASCII text. *)

From stdpp Require Import base numbers list strings.
From Stdlib Require Import ZArith Lia Ascii.
From S2P Require Import Prelude.

Fixpoint str (s : string) : list Z :=
  match s with
  | EmptyString => []
  | String c s' => Z.of_N (N_of_ascii c) :: str s'
  end.

(** ** [strings] *)

(** [strings.IndexByte]. *)
Fixpoint indexByte (s : list Z) (c : Z) : option nat :=
  match s with
  | [] => None
  | x :: s' => if x =? c then Some O else S <$> indexByte s' c
  end.

(** [strings.Split] with a one-byte separator. *)
Fixpoint splitByte (c : Z) (s : list Z) : list (list Z) :=
  match s with
  | [] => [[]]
  | x :: s' =>
      if x =? c then [] :: splitByte c s'
      else match splitByte c s' with
           | h :: t => (x :: h) :: t
           | [] => [[x]]
           end
  end.

(** [strings.Cut] with a one-byte separator: before, after, found. *)
Definition cutByte (c : Z) (s : list Z) : list Z * list Z * bool :=
  match indexByte s c with
  | Some i => (take i s, drop (S i) s, true)
  | None => (s, [], false)
  end.

Definition isSpace (c : Z) : bool :=
  (c =? 32) || ((9 <=? c) && (c <=? 13)).

Fixpoint trimLeftSpace (s : list Z) : list Z :=
  match s with
  | x :: s' => if isSpace x then trimLeftSpace s' else s
  | [] => []
  end.

(** [strings.TrimSpace]. *)
Definition trimSpace (s : list Z) : list Z :=
  reverse (trimLeftSpace (reverse (trimLeftSpace s))).

(** [strings.Fields]: the maximal runs of non-space bytes. *)
Fixpoint fieldsAux (s cur : list Z) : list (list Z) :=
  match s with
  | [] => if decide (cur = []) then [] else [reverse cur]
  | x :: s' =>
      if isSpace x
      then (if decide (cur = []) then [] else [reverse cur]) ++ fieldsAux s' []
      else fieldsAux s' (x :: cur)
  end.
Definition fields (s : list Z) : list (list Z) := fieldsAux s [].

Definition hasPrefix (s p : list Z) : bool := bool_decide (take (length p) s = p).
Definition hasSuffix (s p : list Z) : bool :=
  (length p <=? length s)%nat && bool_decide (drop (length s - length p) s = p).
Definition trimPrefix (s p : list Z) : list Z :=
  if hasPrefix s p then drop (length p) s else s.
Definition trimSuffix (s p : list Z) : list Z :=
  if hasSuffix s p then take (length s - length p) s else s.

(** [strings.ToLower] / [strings.ToUpper]. *)
Definition toLower (s : list Z) : list Z :=
  (fun c => if (65 <=? c) && (c <=? 90) then c + 32 else c) <$> s.
Definition toUpper (s : list Z) : list Z :=
  (fun c => if (97 <=? c) && (c <=? 122) then c - 32 else c) <$> s.

(** ** [strconv] *)

Inductive numError := ErrSyntax | ErrRange.

Definition isDigit (c : Z) : bool := (48 <=? c) && (c <=? 57).

Fixpoint parseDigits (maxVal n : Z) (s : list Z) : result numError Z :=
  match s with
  | [] => Ok n
  | c :: s' =>
      if isDigit c then
        let n1 := 10 * n + (c - 48) in
        if maxVal <? n1 then Err ErrRange else parseDigits maxVal n1 s'
      else Err ErrSyntax
  end.

(** [strconv.ParseUint(s, 10, bits)]. *)
Definition parseUint (s : list Z) (bits : Z) : result numError Z :=
  match s with
  | [] => Err ErrSyntax
  | _ => parseDigits (2 ^ bits - 1) 0 s
  end.

(** [strconv.Atoi], [int] being 64 bits wide. *)
Definition atoi (s : list Z) : result numError Z :=
  match s with
  | 45 :: s' => try n <- match s' with [] => Err ErrSyntax | _ => parseDigits (2 ^ 63) 0 s' end ;; Ok (- n)
  | 43 :: s' => match s' with [] => Err ErrSyntax | _ => parseDigits (2 ^ 63 - 1) 0 s' end
  | [] => Err ErrSyntax
  | _ => parseDigits (2 ^ 63 - 1) 0 s
  end.

(** [strconv.ParseBool]. *)
Definition parseBool (s : list Z) : result numError bool :=
  if decide (s ∈ [str "1"; str "t"; str "T"; str "TRUE"; str "true"; str "True"]) then Ok true
  else if decide (s ∈ [str "0"; str "f"; str "F"; str "FALSE"; str "false"; str "False"]) then Ok false
  else Err ErrSyntax.

(** The verb [%d] of [fmt] on a non-negative integer. *)
Fixpoint decAux (fuel : nat) (n : Z) (acc : list Z) : list Z :=
  match fuel with
  | O => acc
  | S fuel' =>
      if n <? 10 then (48 + n) :: acc
      else decAux fuel' (n / 10) ((48 + n mod 10) :: acc)
  end.
Definition dec (n : Z) : list Z := decAux (S (Z.to_nat (Z.log2 n))) n [].

(** ** [encoding/hex] *)

Definition hexDigit (n : Z) : Z := if n <? 10 then 48 + n else 87 + n.

Definition hexVal (c : Z) : option Z :=
  if (48 <=? c) && (c <=? 57) then Some (c - 48)
  else if (97 <=? c) && (c <=? 102) then Some (c - 87)
  else if (65 <=? c) && (c <=? 70) then Some (c - 55)
  else None.

(** [hex.EncodeToString]. *)
Definition hexEncode (bs : list Z) : list Z :=
  b ← bs; [hexDigit (Z.shiftr b 4); hexDigit (Z.land b 15)].

(** [hex.DecodeString]; an odd length or a byte that is no hexadecimal digit is an error. *)
Fixpoint hexDecode (s : list Z) : result numError (list Z) :=
  match s with
  | [] => Ok []
  | [_] => Err ErrSyntax
  | a :: b :: s' =>
      match hexVal a, hexVal b with
      | Some x, Some y => try r <- hexDecode s' ;; Ok (Z.lor (Z.shiftl x 4) y :: r)
      | _, _ => Err ErrSyntax
      end
  end.

(** ** Lemmas *)

Lemma decAux_parse fuel n acc maxVal :
  0 <= n -> (Z.to_nat (Z.log2 n) < fuel)%nat -> n <= maxVal ->
  parseDigits maxVal 0 (decAux fuel n acc) = parseDigits maxVal n acc.
Proof.
  revert n acc. induction fuel as [|fuel IH]; intros n acc Hn Hf Hm; [lia|].
  cbn [decAux]. destruct (Z.ltb_spec n 10).
  - cbn [parseDigits]. unfold isDigit.
    rewrite (proj2 (Z.leb_le 48 _)), (proj2 (Z.leb_le _ 57)) by lia. cbn [andb].
    replace (10 * 0 + (48 + n - 48)) with n by lia.
    by rewrite (proj2 (Z.ltb_ge maxVal n)) by lia.
  - assert (Hd : 0 <= n / 10 /\ n = 10 * (n / 10) + n mod 10 /\ 0 <= n mod 10 < 10)
      by (Z.div_mod_to_equations; lia).
    rewrite IH; [|lia| |lia].
    + cbn [parseDigits]. unfold isDigit.
      rewrite (proj2 (Z.leb_le 48 _)), (proj2 (Z.leb_le _ 57)) by lia. cbn [andb].
      replace (10 * (n / 10) + (48 + n mod 10 - 48)) with n by lia.
      by rewrite (proj2 (Z.ltb_ge maxVal n)) by lia.
    + assert (Z.log2 (n / 10) < Z.log2 n); [|pose proof (Z.log2_nonneg (n/10)); lia].
      assert (Z.log2 (n / 10) <= Z.log2 (n / 2)) by (apply Z.log2_le_mono; Z.div_mod_to_equations; lia).
      assert (Z.log2 n = Z.succ (Z.log2 (n / 2))); [|lia].
      rewrite <- (Z.log2_double (n / 2)) by (Z.div_mod_to_equations; lia).
      assert (n = 2 * (n / 2) \/ n = 2 * (n / 2) + 1) as [E|E] by (Z.div_mod_to_equations; lia).
      * by rewrite <- E.
      * rewrite E at 1. rewrite Z.log2_succ_double by (Z.div_mod_to_equations; lia).
        rewrite Z.log2_double by (Z.div_mod_to_equations; lia). done.
Qed.

Lemma decAux_nonnil fuel n acc : fuel <> O -> decAux fuel n acc <> [].
Proof.
  revert n acc. induction fuel as [|fuel IH]; intros n acc Hf; [done|].
  cbn [decAux]. destruct (n <? 10); [done|].
  destruct fuel; [cbn; done|]. by apply IH.
Qed.

Lemma parseUint_dec n bits : 0 <= n < 2 ^ bits -> parseUint (dec n) bits = Ok n.
Proof.
  intros Hn. unfold parseUint.
  assert (E : parseDigits (2 ^ bits - 1) 0 (dec n) = Ok n).
  { unfold dec. rewrite decAux_parse by lia. done. }
  destruct (dec n) eqn:Ed; [|done]. exfalso. revert Ed. by apply decAux_nonnil.
Qed.

Lemma decAux_digits fuel n acc :
  0 <= n -> Forall (fun c => isDigit c = true) acc ->
  Forall (fun c => isDigit c = true) (decAux fuel n acc).
Proof.
  revert n acc. induction fuel as [|fuel IH]; intros n acc Hn Ha; cbn [decAux]; [done|].
  destruct (Z.ltb_spec n 10).
  - constructor; [unfold isDigit; lia|done].
  - apply IH; [Z.div_mod_to_equations; lia|]. constructor; [|done].
    unfold isDigit. pose proof (Z.mod_pos_bound n 10). lia.
Qed.

Lemma dec_digits n : 0 <= n -> Forall (fun c => isDigit c = true) (dec n).
Proof. intros. by apply decAux_digits. Qed.

Lemma splitByte_none c s : Forall (fun x => x <> c) s -> splitByte c s = [s].
Proof.
  induction 1 as [|x s Hx Hs IH]; [done|]. cbn [splitByte].
  rewrite (proj2 (Z.eqb_neq x c)) by done. by rewrite IH.
Qed.

Lemma splitByte_app c s1 s2 :
  Forall (fun x => x <> c) s1 -> splitByte c (s1 ++ c :: s2) = s1 :: splitByte c s2.
Proof.
  induction 1 as [|x s Hx Hs IH]; cbn [splitByte app].
  - by rewrite Z.eqb_refl.
  - rewrite (proj2 (Z.eqb_neq x c)) by done. by rewrite IH.
Qed.

Lemma splitByte_nonnil c s : splitByte c s <> [].
Proof. destruct s; cbn; [done|]. repeat case_match; done. Qed.

Lemma indexByte_app c s1 s2 :
  Forall (fun x => x <> c) s1 -> indexByte (s1 ++ c :: s2) c = Some (length s1).
Proof.
  induction 1 as [|x s Hx Hs IH]; cbn [indexByte app length].
  - by rewrite Z.eqb_refl.
  - rewrite (proj2 (Z.eqb_neq x c)) by done. by rewrite IH.
Qed.

Lemma indexByte_none c s : Forall (fun x => x <> c) s -> indexByte s c = None.
Proof.
  induction 1 as [|x s Hx Hs IH]; cbn [indexByte]; [done|].
  rewrite (proj2 (Z.eqb_neq x c)) by done. by rewrite IH.
Qed.

Lemma indexByte_Some s c i : indexByte s c = Some i -> s !! i = Some c /\ (i < length s)%nat.
Proof.
  revert i. induction s as [|x s IH]; intros i H; [done|]. cbn [indexByte] in H.
  destruct (Z.eqb_spec x c) as [->|].
  - injection H as <-. cbn. split; [done|lia].
  - destruct (indexByte s c) as [j|] eqn:E; [|done]. injection H as <-.
    destruct (IH j eq_refl). cbn. split; [done|lia].
Qed.

Lemma cutByte_app c s1 s2 :
  Forall (fun x => x <> c) s1 -> cutByte c (s1 ++ c :: s2) = (s1, s2, true).
Proof.
  intros H. unfold cutByte. rewrite indexByte_app by done.
  rewrite take_app_length.
  replace (S (length s1)) with (length s1 + 1)%nat by lia.
  by rewrite <- drop_drop, drop_app_length.
Qed.

Lemma hexVal_hexDigit n : 0 <= n < 16 -> hexVal (hexDigit n) = Some n.
Proof.
  intros Hn. unfold hexDigit, hexVal. destruct (Z.ltb_spec n 10).
  - rewrite (proj2 (Z.leb_le 48 _)), (proj2 (Z.leb_le _ 57)) by lia. cbn. f_equal. lia.
  - rewrite (proj2 (Z.leb_gt _ 57)) by lia. rewrite andb_false_r.
    rewrite (proj2 (Z.leb_le 97 _)), (proj2 (Z.leb_le _ 102)) by lia. cbn. f_equal. lia.
Qed.

Lemma nibbles b : is_u8 b ->
  0 <= Z.shiftr b 4 < 16 /\ 0 <= Z.land b 15 < 16 /\
  Z.lor (Z.shiftl (Z.shiftr b 4) 4) (Z.land b 15) = b.
Proof.
  intros Hb. unfold is_u8 in Hb.
  change 15 with (2 ^ 4 - 1). rewrite land_ones_mod by lia.
  rewrite Z.shiftr_div_pow2 by lia. change (2 ^ 4) with 16.
  split; [Z.div_mod_to_equations; lia|]. split; [apply Z.mod_pos_bound; lia|].
  apply Z.bits_inj'; intros i Hi. rewrite Z.lor_spec, Z.shiftl_spec by lia.
  change 16 with (2 ^ 4). rewrite <- Z.shiftr_div_pow2 by lia.
  destruct (decide (i < 4)).
  - rewrite Z.testbit_neg_r by lia. by rewrite Z.mod_pow2_bits_low by lia.
  - rewrite Z.shiftr_spec, Z.mod_pow2_bits_high by lia. rewrite orb_false_r. f_equal. lia.
Qed.

Lemma hexDecode_hexEncode bs : bytes_ok bs -> hexDecode (hexEncode bs) = Ok bs.
Proof.
  induction 1 as [|b bs Hb Hbs IH]; [done|].
  destruct (nibbles b Hb) as (H1 & H2 & H3).
  change (hexEncode (b :: bs)) with
    (hexDigit (Z.shiftr b 4) :: hexDigit (Z.land b 15) :: hexEncode bs).
  cbn [hexDecode]. rewrite !hexVal_hexDigit by done. rewrite IH. cbn [rbind]. by rewrite H3.
Qed.

Lemma length_hexEncode bs : length (hexEncode bs) = (2 * length bs)%nat.
Proof.
  induction bs as [|b bs IH]; [done|].
  change (hexEncode (b :: bs)) with
    (hexDigit (Z.shiftr b 4) :: hexDigit (Z.land b 15) :: hexEncode bs).
  cbn [length]. rewrite IH. lia.
Qed.

Lemma hexDigit_lower n : 0 <= n < 16 ->
  (48 <= hexDigit n <= 57) \/ (97 <= hexDigit n <= 102).
Proof. unfold hexDigit. intros. destruct (Z.ltb_spec n 10); lia. Qed.

Lemma hexEncode_chars bs : bytes_ok bs ->
  Forall (fun c => (48 <= c <= 57) \/ (97 <= c <= 102)) (hexEncode bs).
Proof.
  induction 1 as [|b bs Hb Hbs IH]; [constructor|].
  destruct (nibbles b Hb) as (H1 & H2 & H3).
  change (hexEncode (b :: bs)) with
    (hexDigit (Z.shiftr b 4) :: hexDigit (Z.land b 15) :: hexEncode bs).
  constructor; [by apply hexDigit_lower|]. constructor; [by apply hexDigit_lower|done].
Qed.
