(* ===== verification/Checksum.v ===== *)
(** * Internet checksums ([src/awg-ios/tun/checksum.go])

    The sum is computed over native 64-bit words with an end-around carry, in
    blocks of 128 bytes down to a single byte, and folded at the end; the byte
    order of the machine is the class [NativeEndian].  The specification side is
    the ones'-complement sum of big-endian 16-bit words (RFC 1071). *)

From stdpp Require Import base numbers list.
From Stdlib Require Import ZArith Lia.
From S2P Require Import Prelude.

(** ** The code *)

(** Whether the machine is little-endian: [binary.NativeEndian]. *)
Class NativeEndian := nativeLE : bool.

Section Code.
Context `{NativeEndian}.

Definition nativeVal (l : list Z) : Z := if nativeLE then le_val l else be_val l.
Definition nativeBytes (n : nat) (z : Z) : list Z := if nativeLE then le_bytes n z else be_bytes n z.

(** [bits.Add64]. *)
Definition Add64 (x y carry : Z) : Z * Z := (u64 (x + y + carry), (x + y + carry) / 2 ^ 64).

(** [n] consecutive words added with their carries. *)
Fixpoint addWords (n : nat) (ac carry : Z) (b : list Z) : Z * Z :=
  match n with
  | O => (ac, carry)
  | S n' =>
      let '(ac, carry) := Add64 ac (nativeVal (take 8 b)) carry in
      addWords n' ac carry (drop 8 b)
  end.

(** One block: the words and then [ac += carry]. *)
Definition addBlock (n : nat) (ac : Z) (b : list Z) : Z :=
  let '(ac, carry) := addWords n ac 0 b in u64 (ac + carry).

(** [for len(b) >= 128]; [length b] turns are more than enough. *)
Fixpoint blocks128 (fuel : nat) (ac : Z) (b : list Z) : Z * list Z :=
  match fuel with
  | O => (ac, b)
  | S f =>
      if decide (128 <= length b)%nat then blocks128 f (addBlock 16 ac b) (drop 128 b)
      else (ac, b)
  end.

(** [if len(b) >= 8 * n]: one block of [n] words. *)
Definition step64 (n : nat) (s : Z * list Z) : Z * list Z :=
  if decide (8 * n <= length s.2)%nat then (addBlock n s.1 s.2, drop (8 * n) s.2) else s.

(** [if len(b) >= n] for a single word of [n] bytes. *)
Definition stepSmall (n : nat) (s : Z * list Z) : Z * list Z :=
  if decide (n <= length s.2)%nat then
    let '(ac, carry) := Add64 s.1 (nativeVal (take n s.2)) 0 in (u64 (ac + carry), drop n s.2)
  else s.

Definition stepLast (s : Z * list Z) : Z :=
  match s.2 with
  | [x] => let '(ac, carry) := Add64 s.1 (nativeVal [x; 0]) 0 in u64 (ac + carry)
  | _ => s.1
  end.

Definition checksumNoFold (b : list Z) (initial : Z) : Z :=
  let ac := be_val (nativeBytes 8 initial) in
  let s := blocks128 (length b) ac b in
  let s := step64 1 (step64 2 (step64 4 (step64 8 s))) in
  let ac := stepLast (stepSmall 2 (stepSmall 4 s)) in
  be_val (nativeBytes 8 ac).

Definition fold16 (ac : Z) : Z := u64 (Z.shiftr ac 16 + Z.land ac 65535).

Definition checksum (b : list Z) (initial : Z) : Z :=
  u16 (fold16 (fold16 (fold16 (fold16 (checksumNoFold b initial))))).

Definition pseudoHeaderChecksumNoFold (protocol : Z) (srcAddr dstAddr : list Z) (totalLen : Z) : Z :=
  let sum := checksumNoFold srcAddr 0 in
  let sum := checksumNoFold dstAddr sum in
  let sum := checksumNoFold [0; protocol] sum in
  checksumNoFold (be_bytes 2 totalLen) sum.
End Code.

(** ** The specification: RFC 1071 *)

(** Big-endian 16-bit words; a last odd byte is padded with zero. *)
Fixpoint words16 (b : list Z) : list Z :=
  match b with
  | [] => []
  | [x] => [x * 256]
  | x :: y :: b' => x * 256 + y :: words16 b'
  end.

(** Ones'-complement addition of 16-bit words. *)
Definition onesAdd (x y : Z) : Z := let s := x + y in if 65535 <? s then s - 65535 else s.

Definition onesSum (ws : list Z) : Z := foldl onesAdd 0 ws.

(** ** Sums modulo [2^16 - 1] *)

Definition sum16 (b : list Z) : Z := foldr Z.add 0 (words16 b).

(** [z] stands for the sum [s], up to the factor [k] (1, or 256 for swapped
    bytes): they agree modulo 65535, and one is zero only when the other is. *)
Definition standsFor (k z s : Z) : Prop :=
  0 <= z /\ 0 <= s /\ (z = 0 <-> s = 0) /\ exists q, z = k * s + 65535 * q.

Lemma standsFor_add k z1 s1 z2 s2 :
  standsFor k z1 s1 -> standsFor k z2 s2 -> standsFor k (z1 + z2) (s1 + s2).
Proof.
  intros (? & ? & ? & q1 & ?) (? & ? & ? & q2 & ?). repeat split; try lia.
  exists (q1 + q2). lia.
Qed.

(** Carrying out of a power of 65536 around to the low end. *)
Lemma standsFor_wrap k z s m :
  0 < m -> (exists e, 65535 * e = m - 1) -> standsFor k z s -> standsFor k (z mod m + z / m) s.
Proof.
  intros Hm [e He] (Hz & Hs & H0 & q & Hq).
  pose proof (Z.div_mod z m). pose proof (Z.mod_pos_bound z m Hm). pose proof (Z.div_pos z m Hz Hm).
  repeat split; [lia|lia|nia|nia|]. exists (q - e * (z / m)). nia.
Qed.

(** The representatives below 65536 are unique. *)
Lemma standsFor_unique z1 z2 s :
  z1 <= 65535 -> z2 <= 65535 -> standsFor 1 z1 s -> standsFor 1 z2 s -> z1 = z2.
Proof. intros H1 H2 (? & ? & ? & q1 & ?) (? & ? & ? & q2 & ?). lia. Qed.

Lemma standsFor_swap k z s : (exists e, 65535 * e = k * k - 1) -> forall w, standsFor k w z -> standsFor k z s -> standsFor 1 w s.
Proof.
  intros [e He] w (? & ? & ? & q1 & ->) (? & ? & ? & q2 & ->). repeat split; try lia.
  exists (e * s + k * q2 + q1). nia.
Qed.

Lemma pair_ind (P : list Z -> Prop) :
  P [] -> (forall x, P [x]) -> (forall x y l, P l -> P (x :: y :: l)) -> forall l, P l.
Proof.
  intros H0 H1 H2 l. assert (H : P l /\ forall x, P (x :: l)); [|exact (proj1 H)].
  induction l as [|y l [IH1 IH2]]; [by split|]. split; [apply IH2|]. intros x. by apply H2.
Qed.

Lemma sum16_nonneg b : bytes_ok b -> 0 <= sum16 b.
Proof.
  induction b as [|x|x y b IH] using pair_ind; intros Hb; unfold sum16 in *; cbn [words16 foldr]; [lia|..].
  - apply Forall_cons in Hb as [? _]. unfold is_u8 in *. lia.
  - apply Forall_cons in Hb as [? [? Hb]%Forall_cons]. specialize (IH Hb). unfold is_u8 in *. lia.
Qed.

Lemma sum16_app b1 b2 : Nat.Even (length b1) -> sum16 (b1 ++ b2) = sum16 b1 + sum16 b2.
Proof.
  induction b1 as [|x|x y b IH] using pair_ind; intros He; unfold sum16 in *; cbn [words16 foldr app]; [lia|..].
  - destruct He as [k Hk]. cbn in Hk. lia.
  - rewrite IH; [lia|]. destruct He as [k Hk]. cbn in Hk. exists (k - 1)%nat. lia.
Qed.

(** An even number of bytes, read in either order, stands for its sum. *)
Lemma le_val_standsFor b : Nat.Even (length b) -> bytes_ok b -> standsFor 256 (le_val b) (sum16 b).
Proof.
  induction b as [|x|x y b IH] using pair_ind; intros He Hb.
  - repeat split; cbn; try lia. by exists 0.
  - destruct He as [k Hk]. cbn in Hk. lia.
  - apply Forall_cons in Hb as [Hx [Hy Hb]%Forall_cons]. unfold is_u8 in *.
    destruct IH as (? & ? & ? & q & Hq); [|done|].
    { destruct He as [k Hk]. cbn in Hk. exists (k - 1)%nat. lia. }
    unfold sum16 in *. cbn [words16 foldr le_val]. repeat split; try lia.
    exists (q - x + 65536 * 0 + 256 * 0 + (le_val b)). nia.
Qed.

Lemma pow256_even n : Nat.Even n -> exists e, 65535 * e = 256 ^ Z.of_nat n - 1.
Proof.
  intros [k ->]. induction k as [|k [e IH]]; [by exists 0|].
  exists (65536 * e + 1). replace (2 * S k)%nat with (S (S (2 * k)))%nat by lia.
  rewrite !pow256_succ. lia.
Qed.

Lemma be_val_standsFor b : Nat.Even (length b) -> bytes_ok b -> standsFor 1 (be_val b) (sum16 b).
Proof.
  induction b as [|x|x y b IH] using pair_ind; intros He Hb.
  - repeat split; cbn; try lia. by exists 0.
  - destruct He as [k Hk]. cbn in Hk. lia.
  - apply Forall_cons in Hb as [Hx [Hy Hb]%Forall_cons]. unfold is_u8 in *.
    assert (He' : Nat.Even (length b)). { destruct He as [k Hk]. cbn in Hk. exists (k - 1)%nat. lia. }
    destruct (IH He' Hb) as (? & ? & ? & q & Hq). destruct (pow256_even _ He') as [e Hp].
    rewrite !be_val_cons. cbn [length]. rewrite pow256_succ. pose proof (pow256_pos (length b)).
    unfold sum16 in *. cbn [words16 foldr]. repeat split; [nia|nia|nia|nia|].
    exists (q + (x * 256 + y) * e). nia.
Qed.

(** ** The code computes such representatives *)

Section Sum.
Context `{NE : NativeEndian}.

Definition factor : Z := if nativeLE then 256 else 1.

Lemma factor_square : exists e, 65535 * e = factor * factor - 1.
Proof. unfold factor. destruct nativeLE; [by exists 1|by exists 0]. Qed.

Lemma nativeVal_standsFor b : Nat.Even (length b) -> bytes_ok b -> standsFor factor (nativeVal b) (sum16 b).
Proof.
  intros He Hb. unfold factor, nativeVal.
  destruct nativeLE; [by apply le_val_standsFor|by apply be_val_standsFor].
Qed.

(** The swap at both ends of the sum. *)
Lemma swap_standsFor z : is_u64 z -> standsFor factor (be_val (nativeBytes 8 z)) z /\ is_u64 (be_val (nativeBytes 8 z)).
Proof.
  intros Hz. assert (He : Nat.Even 8) by (exists 4%nat; lia).
  assert (Hok : bytes_ok (nativeBytes 8 z)) by (unfold nativeBytes; destruct nativeLE; auto with go).
  assert (Hlen : length (nativeBytes 8 z) = 8%nat) by (unfold nativeBytes; destruct nativeLE; by autorewrite with go_rw).
  assert (Hval : nativeVal (nativeBytes 8 z) = z).
  { unfold nativeVal, nativeBytes. unfold is_u64 in Hz.
    destruct nativeLE; rewrite ?le_val_le_bytes, ?be_val_be_bytes; apply Z.mod_small; exact Hz. }
  split; [|pose proof (be_val_bound _ Hok) as Hb; rewrite Hlen in Hb; exact Hb].
  assert (H1 := be_val_standsFor _ ltac:(by rewrite Hlen) Hok).
  assert (H2 := nativeVal_standsFor _ ltac:(by rewrite Hlen) Hok). rewrite Hval in H2.
  destruct factor_square as [e He2]. destruct H1 as (? & ? & ? & q1 & Hq1), H2 as (? & ? & ? & q2 & Hq2).
  repeat split; try lia. exists (q1 - e * sum16 (nativeBytes 8 z) - factor * q2). nia.
Qed.

(** The state inside a block: an accumulator and a carry that still fits. *)
Definition acc (ac carry s : Z) : Prop :=
  0 <= ac /\ 0 <= carry /\ ac + carry < 2 ^ 64 /\ standsFor factor (ac + carry) s.

Lemma Add64_acc ac carry s y t ac' carry' :
  acc ac carry s -> 0 <= y < 2 ^ 64 -> standsFor factor y t -> Add64 ac y carry = (ac', carry') -> acc ac' carry' (s + t).
Proof.
  intros (Ha & Hc & Hb & Hs) Hy Ht [= <- <-]. unfold u64.
  pose proof (standsFor_add _ _ _ _ _ Hs Ht) as Hst.
  replace (ac + y + carry) with (ac + carry + y) by lia.
  set (z := ac + carry + y) in *.
  pose proof (Z.div_mod z (2 ^ 64)). pose proof (Z.mod_pos_bound z (2 ^ 64)). pose proof (Z.div_pos z (2 ^ 64)).
  split_and!; [lia|lia|lia|]. apply standsFor_wrap; [lia| |exact Hst].
  exists 281479271743489. lia.
Qed.

Lemma acc_close ac carry s : acc ac carry s -> acc (u64 (ac + carry)) 0 s.
Proof.
  intros (? & ? & ? & Hs). rewrite u64_id by (split; lia). split_and!; rewrite ?Z.add_0_r; try lia. exact Hs.
Qed.

Lemma word_bound b : bytes_ok b -> (length b <= 8)%nat -> 0 <= nativeVal b < 2 ^ 64.
Proof.
  intros Hb Hl. assert (256 ^ Z.of_nat (length b) <= 2 ^ 64).
  { change (2 ^ 64) with (256 ^ Z.of_nat 8). apply Z.pow_le_mono_r; lia. }
  pose proof (le_val_bound _ Hb). pose proof (be_val_bound _ Hb). unfold nativeVal. destruct nativeLE; lia.
Qed.

Lemma take_drop_sum n b : Nat.Even n -> (n <= length b)%nat -> sum16 b = sum16 (take n b) + sum16 (drop n b).
Proof. intros He Hn. rewrite <- (take_drop n b) at 1. apply sum16_app. by rewrite length_take_le. Qed.

(** A word taken from the front of the bytes. *)
Lemma Add64_front n ac carry s b ac' carry' :
  Nat.Even n -> (n <= 8)%nat -> (n <= length b)%nat -> bytes_ok b ->
  acc ac carry s -> Add64 ac (nativeVal (take n b)) carry = (ac', carry') -> acc ac' carry' (s + sum16 (take n b)).
Proof.
  intros He Hn Hl Hb Ha Heq. assert (Ht : bytes_ok (take n b)) by by apply Forall_take.
  eapply Add64_acc; [exact Ha| | |exact Heq].
  - apply word_bound; [done|]. rewrite length_take. lia.
  - apply nativeVal_standsFor; [|done]. by rewrite length_take_le.
Qed.

Lemma addWords_acc n ac carry s b ac' carry' :
  (8 * n <= length b)%nat -> bytes_ok b -> acc ac carry s -> addWords n ac carry b = (ac', carry') ->
  acc ac' carry' (s + sum16 (take (8 * n) b)).
Proof.
  revert ac carry s b. induction n as [|n IH]; intros ac carry s b Hl Hb Ha Heq.
  - injection Heq as <- <-. rewrite Nat.mul_0_r, take_0. replace (s + sum16 []) with s by (cbn; lia). exact Ha.
  - cbn [addWords] in Heq. destruct (Add64 ac (nativeVal (take 8 b)) carry) as [a1 c1] eqn:E1.
    eapply Add64_front in E1; [| |lia| |done|exact Ha]; [|by exists 4%nat|lia].
    eapply IH in Heq; [| |by apply Forall_drop|exact E1]; [|rewrite length_drop; lia].
    rewrite (take_drop_sum 8 (take (8 * S n) b)) by (rewrite ?length_take; try lia; by exists 4%nat).
    rewrite take_take. replace (8 * S n)%nat with (8 + 8 * n)%nat by lia. rewrite <- take_drop_commute.
    replace (8 `min` (8 + 8 * n))%nat with 8%nat by lia. by rewrite Z.add_assoc.
Qed.

Lemma addBlock_acc n ac s b :
  (8 * n <= length b)%nat -> bytes_ok b -> acc ac 0 s -> acc (addBlock n ac b) 0 (s + sum16 (take (8 * n) b)).
Proof.
  intros Hl Hb Ha. unfold addBlock. destruct (addWords n ac 0 b) as [a c] eqn:E.
  eapply addWords_acc in E; [|done..]. by apply acc_close.
Qed.

(** [sums t s]: what is summed and what is left make up [t]. *)
Definition sums (t : Z) (st : Z * list Z) : Prop :=
  bytes_ok st.2 /\ exists s, acc st.1 0 s /\ s + sum16 st.2 = t.

Lemma blocks128_sums t fuel ac b :
  (length b <= 128 * fuel + 127)%nat -> sums t (ac, b) ->
  sums t (blocks128 fuel ac b) /\ (length (blocks128 fuel ac b).2 < 128)%nat.
Proof.
  revert ac b. induction fuel as [|f IH]; intros ac b Hl Hs; cbn [blocks128].
  - split; [done|cbn; lia].
  - destruct (decide (128 <= length b)%nat) as [Hge|]; [|split; [done|cbn; lia]].
    apply IH; [rewrite length_drop; lia|]. destruct Hs as (Hb & s & Ha & Hsum); cbn [fst snd] in *.
    split; [by apply Forall_drop|]. exists (s + sum16 (take 128 b)). split.
    + by apply (addBlock_acc 16).
    + cbn [snd]. rewrite <- Hsum, (take_drop_sum 128 b) by (try done; by exists 64%nat). lia.
Qed.

Lemma step64_sums t n st : sums t st -> sums t (step64 n st).
Proof.
  intros (Hb & s & Ha & Hsum). unfold step64. destruct decide as [Hl|_]; [|split; [done|by exists s]].
  split; cbn [fst snd]; [by apply Forall_drop|]. exists (s + sum16 (take (8 * n) st.2)). split; [by apply addBlock_acc|].
  rewrite <- Hsum, (take_drop_sum (8 * n) st.2) by (try done; exists (4 * n)%nat; lia). lia.
Qed.

Lemma step64_short n st : (length st.2 < 16 * n)%nat -> (length (step64 n st).2 < 8 * n)%nat.
Proof. intros H. unfold step64. destruct decide; cbn [snd]; rewrite ?length_drop; lia. Qed.

Lemma stepSmall_sums t n st : Nat.Even n -> (n <= 8)%nat -> sums t st -> sums t (stepSmall n st).
Proof.
  intros He Hn (Hb & s & Ha & Hsum). unfold stepSmall. destruct decide as [Hl|_]; [|split; [done|by exists s]].
  destruct (Add64 st.1 (nativeVal (take n st.2)) 0) as [a c] eqn:E.
  eapply Add64_front in E; [|done..]. split; cbn [fst snd]; [by apply Forall_drop|].
  exists (s + sum16 (take n st.2)). split; [by apply acc_close|].
  rewrite <- Hsum, (take_drop_sum n st.2) by done. lia.
Qed.

Lemma stepSmall_short n st : (length st.2 < 2 * n)%nat -> (length (stepSmall n st).2 < n)%nat.
Proof.
  intros H. unfold stepSmall. destruct decide; [|lia].
  destruct (Add64 st.1 (nativeVal (take n st.2)) 0). cbn [snd]. rewrite length_drop. lia.
Qed.

Lemma stepLast_sums t st : (length st.2 < 2)%nat -> sums t st -> acc (stepLast st) 0 t.
Proof.
  intros Hl (Hb & s & Ha & Hsum). unfold stepLast. destruct st as [ac [|x [|y l]]]; cbn [fst snd length] in *; [| |lia].
  - replace t with s; [done|]. cbn in Hsum. lia.
  - destruct (Add64 ac (nativeVal [x; 0]) 0) as [a c] eqn:E.
    assert (Hok : bytes_ok [x; 0]) by (apply Forall_cons in Hb as [? _]; repeat (apply Forall_cons; split); try done; unfold is_u8; lia).
    eapply Add64_acc in E; [|exact Ha|by apply word_bound; [|cbn; lia]|by apply nativeVal_standsFor; [exists 1%nat|]].
    replace t with (s + sum16 [x; 0]); [by apply acc_close|]. rewrite <- Hsum. unfold sum16. cbn. lia.
Qed.

Lemma checksumNoFold_standsFor b initial s :
  bytes_ok b -> is_u64 initial -> standsFor 1 initial s ->
  standsFor 1 (checksumNoFold b initial) (s + sum16 b) /\ is_u64 (checksumNoFold b initial).
Proof.
  intros Hb Hi Hs. unfold checksumNoFold. destruct (swap_standsFor initial Hi) as [Hsw Hr].
  set (ac := be_val (nativeBytes 8 initial)) in *. unfold is_u64 in Hr, Hi.
  assert (Hst : sums (s + sum16 b) (ac, b)).
  { split; [done|]. exists s. split; [|done]. split_and!; cbn [fst]; rewrite ?Z.add_0_r; try lia.
    destruct Hsw as (? & ? & ? & q & ->), Hs as (? & ? & ? & q' & ->). repeat split; try lia. exists (q + factor * q'). lia. }
  apply (blocks128_sums _ (length b)) in Hst as [Hst Hl]; [|lia].
  set (s0 := blocks128 (length b) ac b) in *.
  assert (H8 : (length (step64 1 (step64 2 (step64 4 (step64 8 s0)))).2 < 8)%nat)
    by (apply (step64_short 1), (step64_short 2), (step64_short 4), (step64_short 8); exact Hl).
  assert (H1 : acc (stepLast (stepSmall 2 (stepSmall 4 (step64 1 (step64 2 (step64 4 (step64 8 s0))))))) 0 (s + sum16 b)).
  { apply stepLast_sums; [apply (stepSmall_short 2), (stepSmall_short 4); exact H8|].
    apply stepSmall_sums; [by exists 1%nat|lia|]. apply stepSmall_sums; [by exists 2%nat|lia|]. by repeat apply step64_sums. }
  destruct H1 as (? & _ & Hlt & Hst1). rewrite Z.add_0_r in *.
  destruct (swap_standsFor (stepLast (stepSmall 2 (stepSmall 4 (step64 1 (step64 2 (step64 4 (step64 8 s0)))))))) as [Hsw2 Hr2];
    [split; lia|]. split; [|done]. by eapply standsFor_swap; [exact factor_square| |].
Qed.

(** Four folds bring any 64-bit sum below 65536. *)
Lemma fold16_eq z : is_u64 z -> fold16 z = z mod 65536 + z / 65536 /\ is_u64 (fold16 z).
Proof.
  intros Hz. unfold fold16. rewrite Z.shiftr_div_pow2 by lia. change 65535 with (2 ^ 16 - 1). rewrite land_ones_mod by lia.
  change (2 ^ 16) with 65536. split; [|apply u64_range]. rewrite u64_id; [lia|]. zmod.
Qed.

Lemma fold16_standsFor z s : is_u64 z -> standsFor 1 z s -> standsFor 1 (fold16 z) s.
Proof.
  intros Hz Hs. destruct (fold16_eq z Hz) as [-> _]. apply standsFor_wrap; [lia|by exists 1|done].
Qed.

Lemma folds_bound z : is_u64 z -> 0 <= fold16 (fold16 (fold16 (fold16 z))) <= 65535.
Proof.
  intros Hz. destruct (fold16_eq z Hz) as [E1 H1]. destruct (fold16_eq _ H1) as [E2 H2].
  destruct (fold16_eq _ H2) as [E3 H3]. destruct (fold16_eq _ H3) as [E4 H4]. rewrite E4.
  unfold is_u64 in *. set (z1 := fold16 z) in *. set (z2 := fold16 z1) in *. set (z3 := fold16 z2) in *.
  clearbody z1 z2 z3. clear H1 H2 H3 H4 E4. Z.div_mod_to_equations. lia.
Qed.

Lemma onesSum_standsFor ws a s :
  Forall (fun w => 0 <= w <= 65535) ws -> 0 <= a <= 65535 -> standsFor 1 a s ->
  standsFor 1 (foldl onesAdd a ws) (s + foldr Z.add 0 ws) /\ foldl onesAdd a ws <= 65535.
Proof.
  intros H. revert a s. induction H as [|w ws Hw _ IH]; intros a s Ha Hs; cbn [foldl foldr].
  - rewrite Z.add_0_r. split; [done|lia].
  - rewrite Z.add_assoc. apply IH; unfold onesAdd; destruct (65535 <? a + w) eqn:E; try lia.
    + destruct Hs as (? & ? & ? & q & ->). repeat split; try lia. exists (q - 1). lia.
    + destruct Hs as (? & ? & ? & q & ->). repeat split; try lia. exists q. lia.
Qed.

Lemma words16_ok b : bytes_ok b -> Forall (fun w => 0 <= w <= 65535) (words16 b).
Proof.
  induction b as [|x|x y b IH] using pair_ind; intros Hb; cbn [words16]; [constructor|..].
  - apply Forall_cons in Hb as [? _]. apply Forall_singleton. unfold is_u8 in *. lia.
  - apply Forall_cons in Hb as [? [? Hb]%Forall_cons]. apply Forall_cons. split; [unfold is_u8 in *; lia|by apply IH].
Qed.

Lemma checksum_unique b initial c :
  bytes_ok b -> bytes_ok c -> is_u64 initial -> standsFor 1 initial (sum16 c) ->
  checksum b initial = foldl onesAdd (onesSum (words16 c)) (words16 b).
Proof.
  intros Hb Hc Hi Hs. destruct (checksumNoFold_standsFor b initial _ Hb Hi Hs) as [Hn Hr].
  destruct (onesSum_standsFor (words16 c) 0 0) as [H1 H1b]; [by apply words16_ok|lia|repeat split; try lia; by exists 0|].
  change (foldr Z.add 0 (words16 c)) with (sum16 c) in H1. rewrite Z.add_0_l in H1.
  destruct (onesSum_standsFor (words16 b) (onesSum (words16 c)) (sum16 c)) as [H2 H2b];
    [by apply words16_ok|split; [apply H1|exact H1b]|exact H1|]. fold (sum16 b) in H2.
  unfold checksum. pose proof (folds_bound _ Hr) as Hf. set (f := fold16 (fold16 (fold16 (fold16 (checksumNoFold b initial))))) in *.
  unfold u16. rewrite Z.mod_small by lia.
  apply (standsFor_unique _ _ (sum16 c + sum16 b)); [lia|done| |exact H2].
  unfold f. destruct (fold16_eq _ Hr) as [_ R1]. destruct (fold16_eq _ R1) as [_ R2]. destruct (fold16_eq _ R2) as [_ R3].
  by repeat apply fold16_standsFor.
Qed.

Lemma words16_app b1 b2 : Nat.Even (length b1) -> words16 (b1 ++ b2) = words16 b1 ++ words16 b2.
Proof.
  induction b1 as [|x|x y b IH] using pair_ind; intros [k Hk]; cbn [words16 app]; [done| |].
  - cbn in Hk. lia.
  - rewrite IH; [done|]. cbn in Hk. exists (k - 1)%nat. lia.
Qed.

Lemma be_bytes_standsFor n z :
  Nat.Even n -> 0 <= z < 256 ^ Z.of_nat n -> standsFor 1 z (sum16 (be_bytes n z)).
Proof.
  intros He Hz. pose proof (be_val_standsFor (be_bytes n z)) as H.
  rewrite be_val_be_bytes, Z.mod_small in H by done. apply H; [by autorewrite with go_rw|auto with go].
Qed.

(** Any sum of even parts, then the packet. *)
Lemma checksum_parts b initial c :
  bytes_ok b -> bytes_ok c -> is_u64 initial -> Nat.Even (length c) -> standsFor 1 initial (sum16 c) ->
  checksum b initial = onesSum (words16 (c ++ b)).
Proof.
  intros. rewrite words16_app by done. unfold onesSum. rewrite foldl_app. by apply checksum_unique.
Qed.

(** C13: the checksum of a packet is the ones'-complement sum of its big-endian
    16-bit words and those of the initial value, on machines of either byte order. *)
Theorem checksum_rfc1071 b initial :
  bytes_ok b -> is_u64 initial -> checksum b initial = onesSum (words16 (be_bytes 8 initial ++ b)).
Proof.
  intros Hb Hi. apply checksum_parts; auto with go.
  - autorewrite with go_rw. by exists 4%nat.
  - apply be_bytes_standsFor; [by exists 4%nat|exact Hi].
Qed.

(** The bytes the pseudo-header stands for. *)
Definition pseudoHeader (protocol : Z) (srcAddr dstAddr : list Z) (totalLen : Z) : list Z :=
  srcAddr ++ dstAddr ++ [0; protocol] ++ be_bytes 2 totalLen.

Lemma pseudoHeader_standsFor protocol src dst n :
  is_u8 protocol -> bytes_ok src -> bytes_ok dst -> Nat.Even (length src) -> Nat.Even (length dst) -> 0 <= n < 65536 ->
  let r := pseudoHeaderChecksumNoFold protocol src dst n in
  standsFor 1 r (sum16 (pseudoHeader protocol src dst n)) /\ is_u64 r.
Proof.
  intros Hp Hs Hd Es Ed Hn. cbn zeta. unfold pseudoHeaderChecksumNoFold, pseudoHeader.
  assert (Hz : bytes_ok [0; protocol]) by (repeat (apply Forall_cons; split; [unfold is_u8 in *; lia|]); constructor).
  rewrite !sum16_app by (try done; by exists 1%nat).
  destruct (checksumNoFold_standsFor src 0 0 Hs) as [H1 R1]; [split; lia|repeat split; try lia; by exists 0|].
  destruct (checksumNoFold_standsFor dst _ _ Hd R1 H1) as [H2 R2].
  destruct (checksumNoFold_standsFor [0; protocol] _ _ Hz R2 H2) as [H3 R3].
  destruct (checksumNoFold_standsFor (be_bytes 2 n) _ _ ltac:(auto with go) R3 H3) as [H4 R4].
  split; [|exact R4]. by replace (sum16 src + (sum16 dst + (sum16 [0; protocol] + sum16 (be_bytes 2 n))))
    with (0 + sum16 src + sum16 dst + sum16 [0; protocol] + sum16 (be_bytes 2 n)) by lia.
Qed.

(** A transport packet that carries the complement of its checksum, taken
    over the pseudo-header and the packet with a zero checksum field, sums to
    [0xffff]: the receiver's check, [^checksum == 0], accepts it. *)
Theorem checksum_verifies protocol src dst n pre post :
  is_u8 protocol -> bytes_ok src -> bytes_ok dst -> Nat.Even (length src) -> Nat.Even (length dst) -> 0 <= n < 65536 ->
  bytes_ok pre -> bytes_ok post -> Nat.Even (length pre) ->
  let psum := pseudoHeaderChecksumNoFold protocol src dst n in
  let c := checksum (pre ++ [0; 0] ++ post) psum in
  checksum (pre ++ be_bytes 2 (65535 - c) ++ post) psum = 65535.
Proof.
  intros Hp Hs Hd Es Ed Hn Hpre Hpost Epre. cbn zeta.
  destruct (pseudoHeader_standsFor _ _ _ _ Hp Hs Hd Es Ed Hn) as [Hph Hr].
  set (psum := pseudoHeaderChecksumNoFold protocol src dst n) in *.
  set (ph := pseudoHeader protocol src dst n) in *.
  assert (Hok : forall m, bytes_ok m -> bytes_ok (pre ++ m ++ post)) by (intros; by repeat apply Forall_app_2).
  assert (Hc : forall m, bytes_ok m -> Nat.Even (length m) ->
    standsFor 1 (checksum (pre ++ m ++ post) psum) (sum16 ph + (sum16 pre + (sum16 m + sum16 post))) /\
    checksum (pre ++ m ++ post) psum <= 65535).
  { intros m Hm Em. destruct (checksumNoFold_standsFor _ _ _ (Hok m Hm) Hr Hph) as [H1 R1].
    rewrite !sum16_app in H1 by done. unfold checksum. pose proof (folds_bound _ R1).
    unfold u16. rewrite Z.mod_small by lia. split; [|lia].
    destruct (fold16_eq _ R1) as [_ S1]. destruct (fold16_eq _ S1) as [_ S2]. destruct (fold16_eq _ S2) as [_ S3].
    by repeat apply fold16_standsFor. }
  assert (H00 : bytes_ok [0; 0]) by (repeat (apply Forall_cons; split; [unfold is_u8; lia|]); constructor).
  destruct (Hc [0; 0] H00) as [Hc0 Hb0]; [by exists 1%nat|].
  set (c := checksum (pre ++ [0; 0] ++ post) psum) in *.
  destruct (Hc (be_bytes 2 (65535 - c))) as [Hc1 Hb1]; [auto with go|autorewrite with go_rw; by exists 1%nat|].
  destruct (be_bytes_standsFor 2 (65535 - c)) as (_ & _ & Hz & q & Hq); [by exists 1%nat|destruct Hc0; cbn; lia|].
  set (c' := checksum (pre ++ be_bytes 2 (65535 - c) ++ post) psum) in *.
  destruct Hc0 as (? & ? & Hz0 & q0 & Hq0), Hc1 as (? & ? & Hz1 & q1 & Hq1).
  change (sum16 [0; 0]) with 0 in *. clearbody c c'. pose proof (sum16_nonneg (be_bytes 2 (65535 - c)) ltac:(auto with go)).
  pose proof (sum16_nonneg _ Hpre). pose proof (sum16_nonneg _ Hpost).
  assert (0 <= sum16 ph) by (destruct Hph; lia). clear Hok Hc Hph Hr. lia.
Qed.
End Sum.

(** The bytes of the example in RFC 1071. *)
Definition exampleBytes : list Z := [0; 1; 242; 3; 244; 245; 246; 247].

Example checksum_example : @checksum true exampleBytes 0 = 56818 /\ @checksum false exampleBytes 0 = 56818.
Proof. by vm_compute. Qed.

Lemma exampleBytes_ok : bytes_ok exampleBytes.
Proof. repeat (apply Forall_cons; split; [unfold is_u8; lia|]). constructor. Qed.

Lemma checksum_rfc1071_witness :
  @checksum true exampleBytes 5 = onesSum (words16 (be_bytes 8 5 ++ exampleBytes)).
Proof. apply checksum_rfc1071; [exact exampleBytes_ok|split; lia]. Defined.

Lemma checksum_verifies_witness :
  let psum := @pseudoHeaderChecksumNoFold true 17 exampleBytes exampleBytes 13 in
  let c := @checksum true (exampleBytes ++ [0; 0] ++ [7; 8; 9]) psum in
  @checksum true (exampleBytes ++ be_bytes 2 (65535 - c) ++ [7; 8; 9]) psum = 65535.
Proof.
  apply checksum_verifies; try exact exampleBytes_ok; try (by exists 4%nat); try (split; lia).
  repeat (apply Forall_cons; split; [unfold is_u8; lia|]). constructor.
Defined.
