(* ===== verification/Replay.v ===== *)
(** * The sliding anti-replay window ([src/awg-ios/replay/replay.go])

    [Filter] is the ring of 128 64-bit blocks of RFC 6479; [ValidateCounter]
    is the whole method, with the loop that clears the blocks the window moves
    over.  The specification side is a set of accepted counters and the highest
    of them; [validate_refines] relates the two. *)

From stdpp Require Import base numbers list gmap.
From Stdlib Require Import ZArith Lia.
From S2P Require Import Prelude.

Definition blockBitLog : Z := 6.
Definition blockBits : Z := Z.shiftl 1 blockBitLog.
Definition ringBlocks : Z := Z.shiftl 1 7.
Definition windowSize : Z := (ringBlocks - 1) * blockBits.
Definition blockMask : Z := ringBlocks - 1.
Definition bitMask : Z := blockBits - 1.

Record Filter := mkFilter { last : Z; ring : list Z }.

(** The zero value of the Go struct. *)
Definition zeroFilter : Filter := mkFilter 0 (replicate 128 0).

Definition filterReset (f : Filter) : Filter :=
  mkFilter 0 (<[0%nat := 0]> (ring f)).

(** [for i := current + 1; i <= current+diff; i++ { f.ring[i&blockMask] = 0 }];
    the fuel bounds the number of iterations. *)
Fixpoint clearBlocks (fuel : nat) (i hi : Z) (r : list Z) : list Z :=
  match fuel with
  | O => r
  | S fuel' =>
      if i <=? hi
      then clearBlocks fuel' (u64 (i + 1)) hi (<[Z.to_nat (Z.land i blockMask) := 0]> r)
      else r
  end.

(** [diff] is capped at [ringBlocks], so one iteration more than that is fuel enough. *)
Definition clearFuel : nat := Z.to_nat (ringBlocks + 1).

Definition moveWindow (f : Filter) (counter : Z) : Filter :=
  let indexBlock := Z.shiftr counter blockBitLog in
  let current := Z.shiftr (last f) blockBitLog in
  let diff := u64 (indexBlock - current) in
  let diff := if ringBlocks <? diff then ringBlocks else diff in
  mkFilter counter
    (clearBlocks clearFuel (u64 (current + 1)) (u64 (current + diff)) (ring f)).

(** "check and set bit" *)
Definition checkAndSet (f : Filter) (counter : Z) : bool * Filter :=
  let indexBlock := Z.to_nat (Z.land (Z.shiftr counter blockBitLog) blockMask) in
  let indexBit := Z.land counter bitMask in
  let old := default 0 (ring f !! indexBlock) in
  let new := Z.lor old (u64 (Z.shiftl 1 indexBit)) in
  (negb (old =? new), mkFilter (last f) (<[indexBlock := new]> (ring f))).

Definition ValidateCounter (f : Filter) (counter limit : Z) : bool * Filter :=
  if limit <=? counter then (false, f)
  else if last f <? counter then checkAndSet (moveWindow f counter) counter
  else if windowSize <? u64 (last f - counter) then (false, f)
  else checkAndSet f counter.

(** A receiver validates the counters of the packets in order. *)
Fixpoint validateAll (f : Filter) (cs : list Z) (limit : Z) : list Z * Filter :=
  match cs with
  | [] => ([], f)
  | c :: cs' =>
      let '(ok, f') := ValidateCounter f c limit in
      let '(acc, f'') := validateAll f' cs' limit in
      (if ok then c :: acc else acc, f'')
  end.

(** ** Abstract specification: the set of accepted counters *)

Record Window := mkWindow { highest : Z; seen : gset Z }.

Definition emptyWindow : Window := mkWindow 0 ∅.

Definition fresh (w : Window) (c : Z) : bool :=
  (highest w <? c) || ((highest w - windowSize <=? c) && bool_decide (c ∉ seen w)).

Definition specValidate (w : Window) (c limit : Z) : bool * Window :=
  if (c <? limit) && fresh w c
  then (true, mkWindow (Z.max (highest w) c) ({[c]} ∪ seen w))
  else (false, w).

(** The block of a counter and its bit in the ring. *)
Definition block (c : Z) : Z := c / 64.
Definition ringBit (r : list Z) (c : Z) : bool :=
  Z.testbit (default 0 (r !! Z.to_nat (block c mod 128))) (c mod 64).

(** The window a filter represents: every counter of the 128 newest blocks has
    its bit set exactly when it was accepted. *)
Record filter_rel (f : Filter) (w : Window) : Prop := {
  fr_last : last f = highest w;
  fr_u64 : is_u64 (last f);
  fr_ring : length (ring f) = 128%nat;
  fr_words : Forall is_u64 (ring f);
  fr_seen : forall c, c ∈ seen w -> 0 <= c <= highest w;
  fr_bits : forall c, 0 <= c -> block (highest w) - 127 <= block c <= block (highest w) ->
              ringBit (ring f) c = bool_decide (c ∈ seen w)
}.

(** ** Index arithmetic *)

Lemma shiftr6 c : Z.shiftr c blockBitLog = block c.
Proof. unfold blockBitLog, block. by rewrite Z.shiftr_div_pow2. Qed.

Lemma land_blockMask i : Z.land i blockMask = i mod 128.
Proof. exact (land_ones_mod i 7 ltac:(lia)). Qed.

Lemma land_bitMask c : Z.land c bitMask = c mod 64.
Proof. exact (land_ones_mod c 6 ltac:(lia)). Qed.

Lemma ringIndex_lt i : (Z.to_nat (i mod 128) < 128)%nat.
Proof. pose proof (Z.mod_pos_bound i 128). lia. Qed.

Lemma ringIndex_inj i j : Z.to_nat (i mod 128) = Z.to_nat (j mod 128) -> i mod 128 = j mod 128.
Proof.
  pose proof (Z.mod_pos_bound i 128). pose proof (Z.mod_pos_bound j 128). lia.
Qed.

Lemma block_range c : is_u64 c -> 0 <= block c < 2 ^ 58.
Proof. unfold is_u64, block. intros. split; [apply Z.div_pos; lia|]. apply Z.div_lt_upper_bound; lia. Qed.

(** ** The clearing loop *)

Lemma length_clearBlocks fuel i hi r : length (clearBlocks fuel i hi r) = length r.
Proof.
  revert i r. induction fuel as [|fuel IH]; intros i r; cbn [clearBlocks]; [done|].
  case_match; [|done]. by rewrite IH, length_insert.
Qed.

Lemma clearBlocks_step fuel i hi r :
  0 <= i <= hi -> hi < 2 ^ 58 ->
  clearBlocks (S fuel) i hi r
  = clearBlocks fuel (i + 1) hi (<[Z.to_nat (i mod 128) := 0]> r).
Proof.
  intros Hi Hhi. cbn [clearBlocks].
  rewrite (proj2 (Z.leb_le i hi)) by lia.
  rewrite land_blockMask, u64_id by (unfold is_u64; lia). done.
Qed.

(** The loop ends within its fuel: the blocks [i..hi] are zero in the result
    and the others are what they were. *)
Lemma clearBlocks_keep fuel i hi r j :
  0 <= i -> hi < 2 ^ 58 ->
  (forall b, i <= b <= hi -> Z.to_nat (b mod 128) <> j) ->
  clearBlocks fuel i hi r !! j = r !! j.
Proof.
  revert i r. induction fuel as [|fuel IH]; intros i r Hi Hhi Hj; [done|].
  destruct (decide (i <= hi)).
  - rewrite clearBlocks_step by lia. rewrite IH; [|lia..|].
    + apply list_lookup_insert_ne. apply Hj. lia.
    + intros b Hb. apply Hj. lia.
  - cbn [clearBlocks]. by rewrite (proj2 (Z.leb_gt i hi)) by lia.
Qed.

Lemma clearBlocks_zero_stays fuel i hi r j :
  0 <= i -> hi < 2 ^ 58 -> r !! j = Some 0 -> clearBlocks fuel i hi r !! j = Some 0.
Proof.
  revert i r. induction fuel as [|fuel IH]; intros i r Hi Hhi Hj; [done|].
  destruct (decide (i <= hi)).
  - rewrite clearBlocks_step by lia. apply IH; [lia..|].
    rewrite list_lookup_insert. case_decide; [done|]. exact Hj.
  - cbn [clearBlocks]. by rewrite (proj2 (Z.leb_gt i hi)) by lia.
Qed.

Lemma clearBlocks_zero fuel i hi r b :
  (Z.to_nat (hi - i + 1) <= fuel)%nat -> 0 <= i -> hi < 2 ^ 58 -> length r = 128%nat ->
  i <= b <= hi ->
  clearBlocks fuel i hi r !! Z.to_nat (b mod 128) = Some 0.
Proof.
  revert i r. induction fuel as [|fuel IH]; intros i r Hf Hi Hhi Hlen Hb; [lia|].
  rewrite clearBlocks_step by lia. destruct (decide (b = i)) as [->|].
  - apply clearBlocks_zero_stays; [lia..|].
    apply list_lookup_insert_eq. rewrite Hlen. apply ringIndex_lt.
  - apply IH; [lia..| |lia]. by rewrite length_insert.
Qed.

Lemma Forall_clearBlocks (P : Z -> Prop) fuel i hi r :
  P 0 -> Forall P r -> Forall P (clearBlocks fuel i hi r).
Proof.
  revert i r. induction fuel as [|fuel IH]; intros i r H0 Hr; cbn [clearBlocks]; [done|].
  case_match; [|done]. apply IH; [done|]. by apply Forall_insert.
Qed.

(** ** Bits of the ring *)

Lemma ringBit_set r c c' :
  length r = 128%nat -> 0 <= c -> 0 <= c' ->
  let w := Z.lor (default 0 (r !! Z.to_nat (block c mod 128))) (u64 (Z.shiftl 1 (c mod 64))) in
  ringBit (<[Z.to_nat (block c mod 128) := w]> r) c' =
    ringBit r c' || bool_decide (block c mod 128 = block c' mod 128 /\ c mod 64 = c' mod 64).
Proof.
  intros Hlen Hc Hc' w. unfold ringBit.
  pose proof (Z.mod_pos_bound c 64 ltac:(lia)). pose proof (Z.mod_pos_bound c' 64 ltac:(lia)).
  destruct (decide (block c mod 128 = block c' mod 128)) as [E|E].
  - rewrite <- E, list_lookup_insert_eq by (rewrite Hlen; apply ringIndex_lt).
    cbn [from_option]; unfold id. unfold w. rewrite Z.lor_spec. f_equal.
    rewrite u64_id by (unfold is_u64; rewrite Z.shiftl_1_l;
      split; [lia|apply Z.pow_lt_mono_r; lia]).
    rewrite Z.shiftl_1_l, Z.pow2_bits_eqb by lia.
    case_bool_decide; lia.
  - rewrite list_lookup_insert_ne by (intros H'; apply E, ringIndex_inj, H').
    rewrite bool_decide_eq_false_2 by tauto. by rewrite orb_false_r.
Qed.

Lemma block_mod_inj c c' :
  block c mod 128 = block c' mod 128 -> - 128 < block c - block c' < 128 ->
  c mod 64 = c' mod 64 -> c = c'.
Proof. unfold block. intros. Z.div_mod_to_equations. lia. Qed.

Lemma setBit_fresh (old b : Z) :
  0 <= b < 64 -> is_u64 old ->
  negb (old =? Z.lor old (u64 (Z.shiftl 1 b))) = negb (Z.testbit old b).
Proof.
  intros Hb Hold. f_equal.
  rewrite u64_id by (unfold is_u64; rewrite Z.shiftl_1_l;
      split; [lia|apply Z.pow_lt_mono_r; lia]).
  rewrite Z.shiftl_1_l. destruct (Z.testbit old b) eqn:E.
  - apply Z.eqb_eq. apply Z.bits_inj'; intros i Hi.
    rewrite Z.lor_spec, Z.pow2_bits_eqb by lia. destruct (Z.eqb_spec b i); subst; [|].
    + by rewrite E.
    + by rewrite orb_false_r.
  - apply Z.eqb_neq. intros H. rewrite H, Z.lor_spec, Z.pow2_bits_true in E by lia.
    by rewrite orb_true_r in E.
Qed.

Lemma setBit_u64 old b :
  0 <= b < 64 -> is_u64 old -> is_u64 (Z.lor old (u64 (Z.shiftl 1 b))).
Proof.
  intros Hb Hold. pose proof (u64_range (Z.shiftl 1 b)) as Hn. unfold is_u64 in *.
  assert (0 <= Z.lor old (u64 (Z.shiftl 1 b))) by (apply Z.lor_nonneg; lia).
  split; [done|]. apply lt_pow2_of_bits; [lia..|].
  intros i Hi. rewrite Z.lor_spec, !(testbit_above_pow2 _ 64) by lia. done.
Qed.

(** ** One validation step *)

Lemma checkAndSet_refines f w c :
  filter_rel f w -> is_u64 c -> highest w - windowSize <= c <= highest w ->
  let '(ok, f') := checkAndSet f c in
  ok = bool_decide (c ∉ seen w) /\ filter_rel f' (mkWindow (highest w) ({[c]} ∪ seen w)).
Proof.
  intros [Hlast Hu Hlen Hwords Hseen Hbits] Hc Hwin.
  change windowSize with 8128 in Hwin.
  assert (Hblk : block (highest w) - 127 <= block c <= block (highest w)).
  { unfold block, is_u64 in *. Z.div_mod_to_equations. lia. }
  unfold checkAndSet. rewrite shiftr6, land_blockMask, land_bitMask.
  set (old := default 0 (ring f !! Z.to_nat (block c mod 128))).
  assert (Hm : 0 <= c mod 64 < 64) by (apply Z.mod_pos_bound; lia).
  assert (Hold : is_u64 old).
  { destruct (lookup_lt_is_Some_2 (ring f) (Z.to_nat (block c mod 128))) as [x Hx].
    { rewrite Hlen. apply ringIndex_lt. }
    unfold old. rewrite Hx. eapply Forall_lookup_1; eauto. }
  split.
  - rewrite setBit_fresh by done. change (Z.testbit old (c mod 64)) with (ringBit (ring f) c).
    rewrite Hbits by (unfold is_u64 in *; lia). by rewrite bool_decide_not.
  - constructor; cbn; [done|done|by rewrite length_insert| | |].
    + apply Forall_insert; [done|]. by apply setBit_u64.
    + intros c' [->%elem_of_singleton|Hc']%elem_of_union; [unfold is_u64 in *; lia|auto].
    + intros c' Hc' Hb'. unfold old.
      rewrite ringBit_set by (unfold is_u64 in *; lia). rewrite Hbits by done.
      destruct (decide (c' = c)) as [->|Hne].
      * rewrite (bool_decide_eq_true_2 (_ /\ _)) by done.
        rewrite (bool_decide_eq_true_2 (c ∈ {[c]} ∪ seen w)) by set_solver. apply orb_true_r.
      * rewrite (bool_decide_eq_false_2 (_ /\ _)).
        2: { intros [E1 E2]. apply Hne. symmetry. eapply block_mod_inj; eauto. lia. }
        rewrite orb_false_r. apply bool_decide_ext. set_solver.
Qed.

(** Moving the window forward forgets nothing that is still inside it. *)
Lemma moveWindow_refines f w c :
  filter_rel f w -> is_u64 c -> highest w < c ->
  filter_rel (moveWindow f c) (mkWindow c (seen w)).
Proof.
  intros [Hlast Hu Hlen Hwords Hseen Hbits] Hc Hgt.
  pose proof (block_range _ Hc) as Hbc. pose proof (block_range _ Hu) as Hbl.
  rewrite Hlast in *.
  assert (Hle : block (highest w) <= block c) by (unfold block; apply Z.div_le_mono; lia).
  unfold moveWindow. rewrite !shiftr6, Hlast.
  rewrite (u64_id (block c - _)) by (unfold is_u64; lia).
  set (cur := block (highest w)) in *.
  set (diff := if ringBlocks <? block c - cur then ringBlocks else block c - cur).
  assert (Hdiff : diff = Z.min 128 (block c - cur)).
  { unfold diff. change ringBlocks with 128. destruct (Z.ltb_spec 128 (block c - cur)); lia. }
  clearbody diff. rewrite !u64_id by (unfold is_u64; lia).
  constructor; cbn [last ring highest seen]; [done|done|by rewrite length_clearBlocks| | |].
  - apply Forall_clearBlocks; [unfold is_u64; lia|done].
  - intros c' Hc'. apply Hseen in Hc'. lia.
  - intros c' Hc' Hb'. unfold ringBit.
    destruct (decide (cur < block c')) as [Hnew|Hkeep].
    + (* a block the window moved over: cleared, and no such counter was seen *)
      assert (exists b, cur + 1 <= b <= cur + diff /\ b mod 128 = block c' mod 128) as (b & Hb & Eb).
      { destruct (decide (block c - cur <= 128)).
        - exists (block c'). lia.
        - exists (cur + 1 + (block c' - (cur + 1)) mod 128).
          pose proof (Z.mod_pos_bound (block c' - (cur + 1)) 128 ltac:(lia)).
          split; [lia|]. Z.div_mod_to_equations. lia. }
      rewrite <- Eb, clearBlocks_zero by (try done; change clearFuel with 129%nat; lia).
      cbn [from_option]; unfold id. rewrite Z.testbit_0_l. symmetry. apply bool_decide_eq_false_2.
      intros Hin%Hseen. assert (block c' <= cur); [|lia].
      unfold cur, block. apply Z.div_le_mono; lia.
    + rewrite clearBlocks_keep by (try lia; intros b Hb E%ringIndex_inj;
        Z.div_mod_to_equations; lia).
      apply Hbits; [done|]. lia.
Qed.

Lemma zeroFilter_rel : filter_rel zeroFilter emptyWindow.
Proof.
  constructor; cbn [last ring highest seen zeroFilter emptyWindow]; [done..| | |].
  - apply Forall_replicate. done.
  - set_solver.
  - intros c Hc Hb. unfold ringBit.
    destruct (replicate 128 0 !! Z.to_nat (block c mod 128)) eqn:E.
    + apply lookup_replicate in E as [-> _]. cbn [from_option]. unfold id.
      by rewrite Z.testbit_0_l.
    + cbn [from_option]. by rewrite Z.testbit_0_l.
Qed.

(** [Reset] empties the filter although it clears one block only: the stale
    blocks are behind the window, and are cleared when the window reaches them. *)
Lemma filterReset_rel f w : filter_rel f w -> filter_rel (filterReset f) emptyWindow.
Proof.
  intros [Hlast Hu Hlen Hwords Hseen Hbits].
  constructor; cbn [last ring highest seen filterReset emptyWindow]; [done|done| | | |].
  - by rewrite length_insert.
  - by apply Forall_insert.
  - set_solver.
  - intros c Hc Hb. change (block 0) with 0 in Hb.
    assert (Hb0 : block c = 0) by (unfold block in *; Z.div_mod_to_equations; lia).
    unfold ringBit. rewrite Hb0. change (Z.to_nat (0 mod 128)) with 0%nat.
    rewrite list_lookup_insert_eq by (rewrite Hlen; lia). cbn [from_option]. unfold id.
    by rewrite Z.testbit_0_l.
Qed.

(** ** Properties *)

(** C35: [ValidateCounter] implements the specification window: it accepts a
    counter exactly when it is below the limit and either above every counter
    accepted so far or inside the 8128-counter window and not accepted before,
    and it leaves a filter that represents the window with that counter added. *)
Theorem validate_refines f w c limit :
  filter_rel f w -> is_u64 c ->
  let '(ok, f') := ValidateCounter f c limit in
  let '(ok', w') := specValidate w c limit in
  ok = ok' /\ filter_rel f' w'.
Proof.
  intros HR Hc. pose proof HR as [Hlast Hu _ _ Hseen _].
  unfold ValidateCounter, specValidate, fresh. rewrite Hlast in *.
  destruct (Z.leb_spec limit c); [by rewrite (proj2 (Z.ltb_ge c limit)) by lia|].
  rewrite (proj2 (Z.ltb_lt c limit)) by lia. cbn [andb].
  destruct (Z.ltb_spec (highest w) c) as [Hgt|Hle]; cbn [orb].
  - pose proof (checkAndSet_refines _ _ c (moveWindow_refines _ _ c HR Hc Hgt) Hc) as H'.
    destruct (checkAndSet _ _) as [ok f']. cbn [highest seen] in H'.
    destruct H' as [-> H']; [change windowSize with 8128; lia|].
    rewrite Z.max_r by lia. split; [|done]. apply bool_decide_eq_true_2.
    intros Hin%Hseen. lia.
  - rewrite u64_id by (unfold is_u64 in *; lia).
    destruct (Z.ltb_spec windowSize (highest w - c)).
    + by rewrite (proj2 (Z.leb_gt _ c)) by lia.
    + rewrite (proj2 (Z.leb_le _ c)) by lia. cbn [andb].
      pose proof (checkAndSet_refines _ _ c HR Hc ltac:(lia)) as H'.
      destruct (checkAndSet f c) as [ok f']. destruct H' as [-> H'].
      rewrite Z.max_l by lia. case_bool_decide as Hin; [done|]. split; [done|].
      assert (Hs : c ∈ seen w) by (destruct (decide (c ∈ seen w)); tauto).
      replace w with (mkWindow (highest w) ({[c]} ∪ seen w)); [done|].
      destruct w; cbn in *. f_equal. set_solver.
Qed.

Lemma validateAll_sound f w cs limit :
  filter_rel f w -> Forall is_u64 cs ->
  let '(acc, f') := validateAll f cs limit in
  NoDup acc /\ (forall c, c ∈ acc -> c ∉ seen w /\ c < limit /\ c ∈ cs).
Proof.
  intros HR Hcs. revert f w HR. induction Hcs as [|c cs Hc Hcs IH]; intros f w HR; cbn [validateAll].
  { split; [constructor|set_solver]. }
  pose proof (validate_refines f w c limit HR Hc) as Hstep.
  destruct (ValidateCounter f c limit) as [ok f1]. unfold specValidate in Hstep.
  destruct ((c <? limit) && fresh w c) eqn:Hok; destruct Hstep as [-> HR'];
    pose proof (IH _ _ HR') as HI; destruct (validateAll f1 cs limit) as [acc f2];
    destruct HI as [Hnd Hin]; cbn [seen] in Hin.
  - apply andb_true_iff in Hok as [Hlt Hfresh]. split.
    + constructor; [|done]. intros Hc'. apply Hin in Hc'. set_solver.
    + intros x [->|Hx]%elem_of_cons.
      * split; [|split; [lia|set_solver]]. intros Hs. destruct HR as [_ _ _ _ Hseen _].
        unfold fresh in Hfresh. apply Hseen in Hs as Hs'.
        rewrite bool_decide_eq_false_2 in Hfresh by tauto. rewrite andb_false_r in Hfresh. lia.
      * apply Hin in Hx. set_solver.
  - split; [done|]. intros x Hx. apply Hin in Hx. set_solver.
Qed.

(** C10: over any sequence of received counters, starting from the empty filter,
    no counter is accepted twice, and none at or above the limit is accepted. *)
Theorem no_counter_accepted_twice cs limit :
  Forall is_u64 cs ->
  NoDup (validateAll zeroFilter cs limit).1 /\
  Forall (fun c => c < limit) (validateAll zeroFilter cs limit).1.
Proof.
  intros Hcs. pose proof (validateAll_sound _ _ cs limit zeroFilter_rel Hcs) as H.
  destruct (validateAll zeroFilter cs limit) as [acc f']. destruct H as [Hnd Hin].
  split; [done|]. apply Forall_forall. intros c Hc. apply Hin, Hc.
Qed.

Lemma validate_refines_witness :
  filter_rel zeroFilter emptyWindow /\ is_u64 9000 /\
  (let '(ok, f') := ValidateCounter zeroFilter 9000 (2 ^ 63) in
   let '(ok', w') := specValidate emptyWindow 9000 (2 ^ 63) in ok = ok' /\ filter_rel f' w').
Proof.
  split; [exact zeroFilter_rel|]. split; [unfold is_u64; lia|].
  apply (validate_refines zeroFilter emptyWindow 9000 (2 ^ 63));
    [exact zeroFilter_rel|unfold is_u64; lia].
Defined.

Lemma no_counter_accepted_twice_witness :
  Forall is_u64 [5; 5; 9000; 3; 8999; 8999] /\
  (validateAll zeroFilter [5; 5; 9000; 3; 8999; 8999] (2 ^ 63)).1 = [5; 9000; 8999] /\
  NoDup (validateAll zeroFilter [5; 5; 9000; 3; 8999; 8999] (2 ^ 63)).1.
Proof.
  split; [repeat (constructor; [unfold is_u64; lia|]); constructor|].
  split; [vm_compute; reflexivity|].
  apply (no_counter_accepted_twice [5; 5; 9000; 3; 8999; 8999] (2 ^ 63)).
  repeat (constructor; [unfold is_u64; lia|]); constructor.
Defined.
