(* ===== verification/RateLimiter.v ===== *)
(** * The handshake rate limiter ([src/awg-ios/ratelimiter/ratelimiter.go])

    A token bucket per source address, with a garbage collector that forgets
    idle buckets.  The specification side is an ideal limiter that keeps the
    bucket of every address for ever; the limiter is proved to take the same
    decisions, garbage collection included. *)

From stdpp Require Import base numbers list gmap.
From Stdlib Require Import ZArith Lia.
From S2P Require Import Prelude.

Definition packetsPerSecond : Z := 20.
Definition packetsBurstable : Z := 5.
Definition garbageCollectTime : Z := 1000000000.
Definition packetCost : Z := 1000000000 / packetsPerSecond.
Definition maxTokens : Z := packetCost * packetsBurstable.

Record RatelimiterEntry := mkEntry { lastTime : Z; tokens : Z }.

(** [timeNow] is an argument of the operations that call it; [ticking] says
    whether the ticker of the garbage collection goroutine runs. *)
Record Ratelimiter := mkLimiter {
  table : gmap (list Z) RatelimiterEntry;
  ticking : bool
}.

(** [t.Sub(u)] saturates at the ends of the [int64] range. *)
Definition timeSub (t u : Z) : Z := Z.max (- 2 ^ 63) (Z.min (2 ^ 63 - 1) (t - u)).

Definition limiterInit : Ratelimiter := mkLimiter ∅ false.

Definition cleanup (rate : Ratelimiter) (now : Z) : bool * Ratelimiter :=
  let t := filter (fun '(_, entry) =>
                     ~ (garbageCollectTime < timeSub now (lastTime entry))) (table rate) in
  (bool_decide (t = ∅), mkLimiter t (ticking rate)).

Definition Allow (rate : Ratelimiter) (ip : list Z) (now : Z) : bool * Ratelimiter :=
  match table rate !! ip with
  | None =>
      let t := <[ip := mkEntry now (maxTokens - packetCost)]> (table rate) in
      (* [rate.stopReset <- struct{}{}]: the goroutine restarts its ticker *)
      (true, mkLimiter t (if (size t =? 1)%nat then true else ticking rate))
  | Some entry =>
      let tk := s64 (tokens entry + timeSub now (lastTime entry)) in
      let tk := if maxTokens <? tk then maxTokens else tk in
      if packetCost <? tk
      then (true, mkLimiter (<[ip := mkEntry now (tk - packetCost)]> (table rate)) (ticking rate))
      else (false, mkLimiter (<[ip := mkEntry now tk]> (table rate)) (ticking rate))
  end.

(** One wake-up of the garbage collection goroutine: it runs only while the
    ticker does, and stops the ticker when the table is empty. *)
Definition gcTick (rate : Ratelimiter) (now : Z) : Ratelimiter :=
  if ticking rate then
    let '(empty, rate') := cleanup rate now in
    mkLimiter (table rate') (negb empty)
  else rate.

(** What the device's handshake workers and the goroutine do to a limiter. *)
Inductive event := EvAllow (ip : list Z) | EvTick.

Definition step (rate : Ratelimiter) (now : Z) (e : event) : option (list Z * bool) * Ratelimiter :=
  match e with
  | EvAllow ip => let '(b, rate') := Allow rate ip now in (Some (ip, b), rate')
  | EvTick => (None, gcTick rate now)
  end.

Fixpoint run (rate : Ratelimiter) (tr : list (Z * event)) : list (Z * (list Z * bool)) * Ratelimiter :=
  match tr with
  | [] => ([], rate)
  | (now, e) :: tr' =>
      let '(d, rate') := step rate now e in
      let '(ds, rate'') := run rate' tr' in
      (match d with Some x => (now, x) :: ds | None => ds end, rate'')
  end.

(** ** The ideal limiter *)

(** The level of the bucket of each address and the time it was computed. *)
Definition Ideal : Type := list Z -> Z * Z.

Definition levelAt (b : Ideal) (ip : list Z) (now : Z) : Z :=
  Z.min maxTokens ((b ip).1 + (now - (b ip).2)).

Definition idealInit (t0 : Z) : Ideal := fun _ => (maxTokens, t0).

Definition idealSet (b : Ideal) (ip : list Z) (l now : Z) : Ideal :=
  fun ip' => if decide (ip' = ip) then (l, now) else b ip'.

Definition idealAllow (b : Ideal) (ip : list Z) (now : Z) : bool * Ideal :=
  let l := levelAt b ip now in
  if packetCost <? l then (true, idealSet b ip (l - packetCost) now)
  else (false, idealSet b ip l now).

Fixpoint idealRun (b : Ideal) (tr : list (Z * event)) : list (Z * (list Z * bool)) * Ideal :=
  match tr with
  | [] => ([], b)
  | (now, EvAllow ip) :: tr' =>
      let '(d, b') := idealAllow b ip now in
      let '(ds, b'') := idealRun b' tr' in ((now, (ip, d)) :: ds, b'')
  | (_, EvTick) :: tr' => idealRun b tr'
  end.

(** The level an entry of the table stands for; an absent entry is a full bucket. *)
Definition tableLevel (rate : Ratelimiter) (ip : list Z) (now : Z) : Z :=
  match table rate !! ip with
  | None => maxTokens
  | Some e => Z.min maxTokens (tokens e + (now - lastTime e))
  end.

(** Times are nanoseconds since the start, below 2^62 (146 years). *)
Record limiter_rel (rate : Ratelimiter) (b : Ideal) (now : Z) : Prop := {
  lr_entries : forall ip e, table rate !! ip = Some e ->
                 0 <= tokens e <= maxTokens /\ 0 <= lastTime e <= now;
  lr_ideal : forall ip, (b ip).2 <= now;
  lr_level : forall ip, levelAt b ip now = tableLevel rate ip now;
  lr_gc : table rate <> ∅ -> ticking rate = true
}.

Fixpoint times_ok (t : Z) (tr : list (Z * event)) : Prop :=
  match tr with
  | [] => True
  | (now, _) :: tr' => t <= now < 2 ^ 62 /\ times_ok now tr'
  end.

(** Decisions that let a packet of [ip] through. *)
Definition allowedFor (ip : list Z) (ds : list (Z * (list Z * bool))) : list Z :=
  (filter (fun '(_, (ip', d)) => ip' = ip /\ d = true) ds).*1.

Definition allowedCount (ip : list Z) (ds : list (Z * (list Z * bool))) : Z :=
  Z.of_nat (length (allowedFor ip ds)).

Fixpoint endTime (t : Z) (tr : list (Z * event)) : Z :=
  match tr with [] => t | (now, _) :: tr' => endTime now tr' end.

(** ** Lemmas *)

Lemma packetCost_eq : packetCost = 50000000.
Proof. reflexivity. Qed.
Lemma maxTokens_eq : maxTokens = 250000000.
Proof. reflexivity. Qed.
Ltac consts := change garbageCollectTime with 1000000000 in *;
  rewrite ?packetCost_eq, ?maxTokens_eq in *.

Lemma timeSub_small t u : - 2 ^ 63 <= t - u < 2 ^ 63 -> timeSub t u = t - u.
Proof. unfold timeSub. lia. Qed.

Lemma tableLevel_advance rate b now now' :
  limiter_rel rate b now -> now <= now' -> limiter_rel rate b now'.
Proof.
  intros [He Hi Hl Hg] Hle. constructor; [| | |done].
  - intros ip e Hip. apply He in Hip. lia.
  - intros ip. specialize (Hi ip). lia.
  - intros ip. specialize (Hl ip). unfold levelAt, tableLevel in *.
    destruct (table rate !! ip) as [e|] eqn:E; [|lia]. apply He in E. lia.
Qed.

Lemma cleanup_rel rate b now :
  limiter_rel rate b now -> 0 <= now < 2 ^ 62 -> limiter_rel (gcTick rate now) b now.
Proof.
  intros HR Hnow. pose proof HR as [He Hi Hl Hg]. unfold gcTick.
  destruct (ticking rate) eqn:Ht; [|done]. cbn [cleanup].
  constructor; cbn [table ticking].
  - intros ip e [Hip _]%map_lookup_filter_Some. eauto.
  - done.
  - intros ip. rewrite Hl. unfold tableLevel. cbn [table].
    destruct (table rate !! ip) as [e|] eqn:E.
    + destruct (He _ _ E) as [Htk Hlt].
      destruct (decide (garbageCollectTime < timeSub now (lastTime e))) as [Hold|Hnew].
      * rewrite (proj2 (map_lookup_filter_None _ _ _)).
        2: { right. intros x Hx. replace x with e by congruence. tauto. }
        rewrite timeSub_small in Hold by lia. consts. lia.
      * rewrite (proj2 (map_lookup_filter_Some _ _ _ e)) by done. done.
    + rewrite (proj2 (map_lookup_filter_None _ _ _)) by (left; done). done.
  - intros Hne. by rewrite bool_decide_eq_false_2.
Qed.

Lemma idealSet_level b ip l now ip' :
  levelAt (idealSet b ip l now) ip' now = if decide (ip' = ip) then Z.min maxTokens l else levelAt b ip' now.
Proof. unfold levelAt, idealSet. case_decide; cbn; [|done]. f_equal. lia. Qed.

Lemma limiter_rel_set rate b now ip tk t' :
  limiter_rel rate b now -> 0 <= now -> 0 <= tk <= maxTokens -> t' = true ->
  limiter_rel (mkLimiter (<[ip := mkEntry now tk]> (table rate)) t') (idealSet b ip tk now) now.
Proof.
  intros [He Hi Hl Hg] Hnow Htk ->. constructor; cbn [table ticking]; [| | |done].
  - intros ip' e. rewrite lookup_insert. case_decide.
    + intros [= <-]. cbn. lia.
    + apply He.
  - intros ip'. unfold idealSet. case_decide; cbn; [lia|apply Hi].
  - intros ip'. rewrite idealSet_level. unfold tableLevel; cbn [table].
    rewrite lookup_insert. case_decide as H1; case_decide as H2; subst; try done.
    cbn. lia.
Qed.

Lemma allow_rel rate b now ip :
  limiter_rel rate b now -> 0 <= now < 2 ^ 62 ->
  (Allow rate ip now).1 = (idealAllow b ip now).1 /\
  limiter_rel (Allow rate ip now).2 (idealAllow b ip now).2 now.
Proof.
  intros HR Hnow. pose proof HR as [He Hi Hl Hg]. unfold Allow, idealAllow.
  rewrite Hl. unfold tableLevel. destruct (table rate !! ip) as [e|] eqn:E.
  - destruct (He _ _ E) as [Htk Hlt]. rewrite timeSub_small by lia.
    rewrite s64_id by (consts; lia).
    replace (if maxTokens <? _ then maxTokens else _)
      with (Z.min maxTokens (tokens e + (now - lastTime e)))
      by (destruct (Z.ltb_spec maxTokens (tokens e + (now - lastTime e))); lia).
    assert (Htrue : ticking rate = true).
    { apply Hg. intros H0. rewrite H0, lookup_empty in E. done. }
    destruct (Z.ltb_spec packetCost (Z.min maxTokens (tokens e + (now - lastTime e))));
      cbn [fst snd]; (split; [done|]); apply limiter_rel_set; auto; consts; lia.
  - change (packetCost <? maxTokens) with true. cbn [fst snd]. split; [done|].
    apply limiter_rel_set; auto; [lia|consts; lia|].
    destruct (Nat.eqb_spec (size (<[ip:=mkEntry now (maxTokens - packetCost)]> (table rate))) 1);
      [done|]. apply Hg. intros H0. rewrite H0, insert_empty, map_size_singleton in n. done.
Qed.

Lemma limiterInit_rel t0 : limiter_rel limiterInit (idealInit t0) t0.
Proof.
  constructor; cbn [table ticking limiterInit].
  - intros ip e. by rewrite lookup_empty.
  - intros ip. cbn. lia.
  - intros ip. unfold levelAt, tableLevel. cbn. rewrite lookup_empty. lia.
  - done.
Qed.

Lemma run_rel rate b t tr :
  limiter_rel rate b t -> 0 <= t -> times_ok t tr -> (run rate tr).1 = (idealRun b tr).1.
Proof.
  revert rate b t. induction tr as [|[now e] tr IH]; intros rate b t HR Ht Hok; [done|].
  destruct Hok as [Hnow Hok]. apply (tableLevel_advance _ _ _ now) in HR; [|lia].
  destruct e as [ip|]; cbn [run idealRun step].
  - destruct (allow_rel rate b now ip HR ltac:(lia)) as [E HR'].
    destruct (Allow rate ip now) as [d rate'], (idealAllow b ip now) as [d' b'].
    cbn [fst snd] in *. subst d'. pose proof (IH _ _ _ HR' ltac:(lia) Hok) as HI.
    destruct (run rate' tr), (idealRun b' tr). cbn [fst] in *. congruence.
  - apply cleanup_rel in HR; [|lia]. pose proof (IH _ _ _ HR ltac:(lia) Hok) as HI.
    destruct (run _ tr), (idealRun b tr). exact HI.
Qed.

Lemma limiter_decisions t0 tr :
  0 <= t0 -> times_ok t0 tr -> (run limiterInit tr).1 = (idealRun (idealInit t0) tr).1.
Proof. intros H0 Hok. by apply (run_rel _ _ t0); [apply limiterInit_rel|..]. Qed.

(** Whatever was let through is paid for: [n] packets cost at most the level the
    bucket started from and the time that went by, and the level stays positive. *)
Lemma ideal_budget b t tr ip ds b' :
  times_ok t tr -> (forall ip', (b ip').2 <= t) -> idealRun b tr = (ds, b') ->
  0 < levelAt b ip t ->
  0 < levelAt b' ip (endTime t tr) /\
  allowedCount ip ds * packetCost + levelAt b' ip (endTime t tr)
    <= levelAt b ip t + (endTime t tr - t).
Proof.
  revert b t ds. induction tr as [|[now e] tr IH]; intros b t ds Hok Hb Hrun Hlev.
  { injection Hrun as <- <-. change (endTime t []) with t. split; [done|]. unfold allowedCount. cbn. lia. }
  destruct Hok as [Hnow Hok].
  assert (Hend : endTime t ((now, e) :: tr) = endTime now tr) by done.
  rewrite Hend. pose proof (Hb ip) as Hbip.
  assert (Hb' : forall x, (b x).2 <= now) by (intros x; specialize (Hb x); lia).
  assert (Hmono : levelAt b ip now <= levelAt b ip t + (now - t)) by (unfold levelAt; lia).
  assert (Hmono' : 0 < levelAt b ip now) by (unfold levelAt in *; lia).
  destruct e as [ip'|]; cbn [idealRun] in Hrun.
  2: { destruct (IH b now ds) as [H1 H2]; auto. lia. }
  unfold idealAllow in Hrun.
  set (ok := packetCost <? levelAt b ip' now) in *.
  set (l' := levelAt b ip' now - (if ok then packetCost else 0)).
  assert (Hstep : exists ds', idealRun (idealSet b ip' l' now) tr = (ds', b') /\
                              ds = (now, (ip', ok)) :: ds').
  { subst l'. destruct ok; rewrite ?Z.sub_0_r; destruct (idealRun _ tr) as [ds' b''];
      injection Hrun as <- <-; eauto. }
  destruct Hstep as (ds' & Hrun' & ->).
  assert (Hl' : ip' = ip -> 0 < l' <= maxTokens).
  { intros ->. assert (levelAt b ip now <= maxTokens) by (unfold levelAt; lia).
    unfold l'. destruct ok eqn:E; [unfold ok in E|]; consts; lia. }
  destruct (IH (idealSet b ip' l' now) now ds' Hok) as [H1 H2]; [|exact Hrun'| |].
  { intros x. unfold idealSet. case_decide; cbn; [lia|auto]. }
  { rewrite idealSet_level. case_decide as Hip; [|done].
    specialize (Hl' (eq_sym Hip)). consts. lia. }
  split; [done|]. rewrite idealSet_level in H2. unfold allowedCount, allowedFor in *.
  rewrite filter_cons. destruct (decide (ip' = ip /\ ok = true)) as [[-> Hok']|Hno].
  - cbn [fmap list_fmap length fst]. rewrite Nat2Z.inj_succ.
    rewrite decide_True in H2 by done. unfold l' in *. rewrite Hok' in *. consts. lia.
  - destruct (decide (ip = ip')) as [Hip|Hip] in H2; [|lia]. subst ip'.
    destruct ok; [tauto|]. unfold l' in *. lia.
Qed.

(** ** Properties *)

(** C38: the limiter takes exactly the decisions of an ideal token bucket per
    address (capacity [maxTokens], one token per nanosecond, [packetCost] per
    packet) that never forgets anything: garbage collection is unobservable. *)
Theorem limiter_refines_bucket t0 tr :
  0 <= t0 -> times_ok t0 tr -> (run limiterInit tr).1 = (idealRun (idealInit t0) tr).1.
Proof. apply limiter_decisions. Qed.

(** Whatever else happens in between (packets of other addresses, garbage
    collection), the packets let through for one address cost less than the
    burst allowance plus the time that went by: at most 5 + 20 per second, and
    (the comparison in [Allow] being strict) at most 4 within one instant. *)
Theorem limiter_bound t0 tr ip :
  0 <= t0 -> times_ok t0 tr ->
  allowedCount ip (run limiterInit tr).1 * packetCost
    < packetsBurstable * packetCost + (endTime t0 tr - t0).
Proof.
  intros H0 Hok. rewrite (limiter_decisions t0) by done.
  destruct (idealRun (idealInit t0) tr) as [ds b'] eqn:E. cbn [fst].
  assert (Hl : levelAt (idealInit t0) ip t0 = maxTokens) by (unfold levelAt; cbn; lia).
  destruct (ideal_budget (idealInit t0) t0 tr ip ds b') as [H1 H2]; [done|done|done| |].
  { rewrite Hl. done. }
  rewrite Hl in H2. consts. change packetsBurstable with 5. lia.
Qed.

Definition sampleTrace : list (Z * event) :=
  [(10, EvAllow [127; 0; 0; 1]); (10, EvAllow [127; 0; 0; 1]); (10, EvAllow [127; 0; 0; 1]);
   (10, EvAllow [127; 0; 0; 1]); (10, EvAllow [127; 0; 0; 1]); (10, EvAllow [10; 0; 0; 1]);
   (2000000000, EvTick); (2000000000, EvAllow [127; 0; 0; 1])].

Lemma limiter_refines_bucket_witness :
  times_ok 10 sampleTrace /\
  (run limiterInit sampleTrace).1 = (idealRun (idealInit 10) sampleTrace).1.
Proof.
  split; [cbn; lia|]. apply (limiter_refines_bucket 10 sampleTrace); [lia|cbn; lia].
Defined.

Lemma limiter_bound_witness :
  times_ok 10 sampleTrace /\
  allowedFor [127; 0; 0; 1] (run limiterInit sampleTrace).1 = [10; 10; 10; 10; 2000000000] /\
  allowedCount [127; 0; 0; 1] (run limiterInit sampleTrace).1 * packetCost
    < packetsBurstable * packetCost + (endTime 10 sampleTrace - 10).
Proof.
  split; [cbn; lia|]. split; [vm_compute; reflexivity|].
  apply (limiter_bound 10 sampleTrace); [lia|cbn; lia].
Defined.
