(* ===== verification/Tai64n.v ===== *)
(** * TAI64N timestamps ([src/awg-ios/tai64n/tai64n.go])

    The handshake's replay protection compares these 12-byte labels. *)

From stdpp Require Import base numbers list.
From Stdlib Require Import ZArith Lia.
From S2P Require Import Prelude.

Definition taiBase : Z := 0x400000000000000a.
Definition whitenerMask : Z := 0x1000000 - 1.

(** [stamp(t)] of the instant [secs] seconds (Unix time) and [nanos] nanoseconds. *)
Definition stamp (secs nanos : Z) : list Z :=
  let s := u64 (taiBase + u64 secs) in
  let nano := Z.ldiff (u32 nanos) whitenerMask in
  be_bytes 8 s ++ be_bytes 4 nano.

(** [bytes.Compare]. *)
Fixpoint bytesCompare (a b : list Z) : comparison :=
  match a, b with
  | [], [] => Eq
  | [], _ => Lt
  | _, [] => Gt
  | x :: a', y :: b' => match x ?= y with Eq => bytesCompare a' b' | c => c end
  end.

(** [t1.After(t2)]. *)
Definition tai64nAfter (t1 t2 : list Z) : bool :=
  match bytesCompare t1 t2 with Gt => true | _ => false end.

(** [(secs, nanos)] of a stamp, as [String] reads them back. *)
Definition unstamp (t : list Z) : Z * Z :=
  (s64 (u64 (be_val (take 8 t) - taiBase)), be_val (slice t 8 12)).

Definition timestampSize : nat := 12.
Definition zeroTimestamp : list Z := zeros timestampSize.

(** ** Lemmas *)

Lemma bytesCompare_be_val a b :
  bytes_ok a -> bytes_ok b -> length a = length b ->
  bytesCompare a b = (be_val a ?= be_val b).
Proof.
  intros Ha. revert b. induction Ha as [|x a Hx Ha IH]; intros [|y b] Hb Hlen; try done.
  inversion Hb as [|? ? Hy Hb']; subst. injection Hlen as Hlen.
  cbn [bytesCompare]. rewrite !be_val_cons, <- Hlen.
  pose proof (be_val_bound a Ha) as Ba. pose proof (be_val_bound b Hb') as Bb.
  rewrite <- Hlen in Bb. unfold is_u8 in *. rewrite (IH b) by done.
  set (K := 256 ^ Z.of_nat (length a)) in *.
  destruct (Z.compare_spec x y) as [->|H|H].
  - destruct (Z.compare_spec (be_val a) (be_val b)); symmetry;
      [apply Z.compare_eq_iff|apply Z.compare_lt_iff|apply Z.compare_gt_iff]; lia.
  - symmetry. apply Z.compare_lt_iff. nia.
  - symmetry. apply Z.compare_gt_iff. nia.
Qed.

Lemma bytesCompare_refl a : bytesCompare a a = Eq.
Proof. induction a as [|x a IH]; [done|]. cbn. by rewrite Z.compare_refl. Qed.

Lemma tai64nAfter_be_val a b :
  bytes_ok a -> bytes_ok b -> length a = length b ->
  tai64nAfter a b = (be_val b <? be_val a).
Proof.
  intros. unfold tai64nAfter. rewrite bytesCompare_be_val by done.
  destruct (Z.compare_spec (be_val a) (be_val b)), (Z.ltb_spec (be_val b) (be_val a)); try done; lia.
Qed.

Lemma stamp_length secs nanos : length (stamp secs nanos) = 12%nat.
Proof. unfold stamp. by rewrite length_app, !length_be_bytes. Qed.

Lemma stamp_ok secs nanos : bytes_ok (stamp secs nanos).
Proof. unfold stamp, bytes_ok. apply Forall_app. split; apply be_bytes_ok. Qed.

Lemma ldiff_whitener n : 0 <= n < 2 ^ 32 -> Z.ldiff n whitenerMask = 2 ^ 24 * (n / 2 ^ 24).
Proof.
  intros Hn. change whitenerMask with (Z.ones 24).
  rewrite Z.ldiff_ones_r by lia. rewrite Z.shiftr_div_pow2, Z.shiftl_mul_pow2 by lia. lia.
Qed.

(** Seconds for which the label does not wrap: the whole range of times before
    and after 1970 the format has room for. *)
Definition taiSecs (s : Z) : Prop := - taiBase <= s < 2 ^ 64 - taiBase /\ - 2 ^ 63 <= s < 2 ^ 63.

Lemma stamp_be_val secs nanos :
  taiSecs secs -> 0 <= nanos < 1000000000 ->
  be_val (stamp secs nanos) = (taiBase + secs) * 2 ^ 32 + 2 ^ 24 * (nanos / 2 ^ 24).
Proof.
  intros [Hs _] Hn. unfold stamp. rewrite be_val_app, length_be_bytes, !be_val_be_bytes.
  rewrite u32_id by (unfold is_u32; lia). rewrite ldiff_whitener by lia.
  change (256 ^ Z.of_nat 4) with (2 ^ 32). change (256 ^ Z.of_nat 8) with (2 ^ 64).
  assert (E : u64 (taiBase + u64 secs) = taiBase + secs).
  { unfold u64. rewrite Z.add_mod_idemp_r by lia. apply Z.mod_small. lia. }
  rewrite E. rewrite (Z.mod_small (taiBase + secs)) by lia. rewrite Z.mod_small; [lia|].
  Z.div_mod_to_equations. lia.
Qed.

(** ** Property *)

(** A later instant gets a strictly later label exactly when it falls in a
    later second or a later 2^24-nanosecond slot of the same second: labels never
    go back, and the 24 low bits of the clock are never disclosed. *)
Theorem stamp_order s1 n1 s2 n2 :
  taiSecs s1 -> taiSecs s2 -> 0 <= n1 < 1000000000 -> 0 <= n2 < 1000000000 ->
  tai64nAfter (stamp s1 n1) (stamp s2 n2) = true <->
  s2 < s1 \/ (s1 = s2 /\ n2 / 2 ^ 24 < n1 / 2 ^ 24).
Proof.
  intros Hs1 Hs2 Hn1 Hn2.
  rewrite tai64nAfter_be_val by (rewrite ?stamp_length; auto using stamp_ok).
  rewrite !stamp_be_val by done. rewrite Z.ltb_lt.
  assert (0 <= n1 / 2 ^ 24 < 60) by (Z.div_mod_to_equations; lia).
  assert (0 <= n2 / 2 ^ 24 < 60) by (Z.div_mod_to_equations; lia).
  lia.
Qed.

Lemma stamp_order_witness :
  tai64nAfter (stamp 1700000000 50000000) (stamp 1700000000 10000000) = true /\
  (1700000000 < 1700000000 \/ (1700000000 = 1700000000 /\ 10000000 / 2 ^ 24 < 50000000 / 2 ^ 24)).
Proof.
  split; [vm_compute; reflexivity|].
  apply (stamp_order 1700000000 50000000 1700000000 10000000);
    [unfold taiSecs, taiBase; lia..|vm_compute; reflexivity].
Defined.
