(* ===== verification/NoiseTypes.v ===== *)
(** * Keys and configuration ranges ([src/awg-ios/device/noise-types.go], [noise-helpers.go])

    The 32-byte key types with their hexadecimal readers, and [UintRange], the
    packed pair of 32-bit bounds behind the magic headers H1-H4, the timing
    ranges and the persistent keepalive interval. *)

From stdpp Require Import base numbers list strings.
From Stdlib Require Import ZArith Lia.
From S2P Require Import Prelude GoStrings.

Definition NoisePublicKeySize : nat := 32.
Definition HeaderCipherNonceSize : nat := 12.
Definition zeroKey : list Z := zeros 32.

(** ** Key readers *)

(** [loadExactHex(dst, src)]: the decoded bytes, or an error and [dst] untouched. *)
Definition loadExactHex (dst : list Z) (src : list Z) : result unit (list Z) :=
  match hexDecode src with
  | Err _ => Err tt
  | Ok slice => if (length slice =? length dst)%nat then Ok slice else Err tt
  end.

(** [isZero] of noise-helpers.go and the [IsZero] of the key types. *)
Definition isZero (val : list Z) : bool := forallb (fun b => b =? 0) val.
Definition keyIsZero (key : list Z) : bool := bool_decide (key = zeroKey).

Definition clamp (sk : list Z) : list Z :=
  let sk := <[0%nat := Z.land (default 0 (sk !! 0%nat)) 248]> sk in
  <[31%nat := Z.lor (Z.land (default 0 (sk !! 31%nat)) 127) 64]> sk.

(** The key readers return the value of the receiver as well: Go leaves the
    receiver unchanged (and [FromHex] of a private key clamped) on an error. *)
Definition privateKeyFromMaybeZeroHex (src : list Z) : result unit (list Z) :=
  try k <- loadExactHex zeroKey src ;;
  Ok (if keyIsZero k then k else clamp k).

Definition privateKeyFromHex (src : list Z) : result unit (list Z) :=
  try k <- loadExactHex zeroKey src ;; Ok (clamp k).

Definition keyFromHex (src : list Z) : result unit (list Z) := loadExactHex zeroKey src.

(** ** Ranges *)

(** [runtime.fastrandn(n)] for the 32-bit random draw [rnd]. *)
Definition fastrandn (n rnd : Z) : Z := Z.shiftr (u32 rnd * n) 32.

Definition rangeFromUint32 (lo hi : Z) : Z := Z.lor (u64 (Z.shiftl hi 32)) lo.

Definition rangeLo (r : Z) : Z := u32 r.
Definition rangeHi (r : Z) : Z := u32 (Z.shiftr r 32).

Definition rangeContains (r num : Z) : bool :=
  (rangeLo r <=? num) && (num <=? rangeHi r).

Definition rangeIsZero (r : Z) : bool := r =? 0.

Definition rangePickOne (r rnd : Z) : Z :=
  u32 (rangeLo r + fastrandn (u32 (rangeHi r - rangeLo r + 1)) rnd).

Definition rangeToString (r : Z) : list Z :=
  if rangeLo r =? rangeHi r then dec (rangeLo r)
  else dec (rangeLo r) ++ str "-" ++ dec (rangeHi r).

Definition rangeOverlap (r right : Z) : bool :=
  (rangeLo r <=? rangeHi right) && (rangeLo right <=? rangeHi r).

Inductive rangeError := ErrFormat | ErrNumber (e : numError) | ErrWrongRange.

Definition parseRangeNum (s : list Z) : result rangeError Z :=
  match parseUint s 32 with Ok n => Ok n | Err e => Err (ErrNumber e) end.

Definition rangeFromString (s : list Z) : result rangeError Z :=
  match splitByte 45 s with
  | [p] => try lo <- parseRangeNum p ;; Ok (rangeFromUint32 (u32 lo) (u32 lo))
  | [p; q] =>
      try lo <- parseRangeNum p ;;
      try hi <- parseRangeNum q ;;
      if hi <? lo then Err ErrWrongRange
      else Ok (rangeFromUint32 (u32 lo) (u32 hi))
  | _ => Err ErrFormat
  end.

(** A range as every reader of the configuration produces it. *)
Definition range_wf (r : Z) : Prop := is_u64 r /\ rangeLo r <= rangeHi r.

(** ** Lemmas *)

Lemma rangeFromUint32_eq lo hi :
  is_u32 lo -> is_u32 hi -> rangeFromUint32 lo hi = hi * 2 ^ 32 + lo.
Proof.
  intros Hlo Hhi. unfold rangeFromUint32, is_u32 in *.
  rewrite Z.shiftl_mul_pow2 by lia. rewrite u64_id by (unfold is_u64; nia).
  apply Z.bits_inj'; intros i Hi. rewrite Z.lor_spec.
  rewrite (Z.add_comm (hi * 2 ^ 32) lo).
  destruct (decide (i < 32)).
  - rewrite Z.mul_pow2_bits_low by lia. cbn [orb].
    rewrite <- (Z.mod_pow2_bits_low (lo + hi * 2 ^ 32) 32) by lia.
    rewrite Z.mod_add by lia. by rewrite Z.mod_pow2_bits_low by lia.
  - rewrite (testbit_above_pow2 lo 32) by lia. rewrite orb_false_r.
    rewrite Z.mul_pow2_bits by lia.
    replace i with ((i - 32) + 32) at 2 by lia.
    rewrite <- Z.shiftr_spec by lia. rewrite Z.shiftr_div_pow2 by lia.
    rewrite Z.div_add by lia. by rewrite (Z.div_small lo) by lia.
Qed.

Lemma rangeLo_from lo hi : is_u32 lo -> is_u32 hi -> rangeLo (rangeFromUint32 lo hi) = lo.
Proof.
  intros Hlo Hhi. rewrite rangeFromUint32_eq by done. unfold rangeLo, u32.
  rewrite Z.add_comm, Z.mod_add by lia. by apply Z.mod_small.
Qed.

Lemma rangeHi_from lo hi : is_u32 lo -> is_u32 hi -> rangeHi (rangeFromUint32 lo hi) = hi.
Proof.
  intros Hlo Hhi. rewrite rangeFromUint32_eq by done. unfold rangeHi.
  rewrite Z.shiftr_div_pow2 by lia. rewrite Z.div_add_l by lia.
  unfold is_u32 in *. rewrite (Z.div_small lo) by lia. rewrite Z.add_0_r. by apply u32_id.
Qed.

Lemma rangeFromUint32_u64 lo hi : is_u32 lo -> is_u32 hi -> is_u64 (rangeFromUint32 lo hi).
Proof. intros Hlo Hhi. rewrite rangeFromUint32_eq by done. unfold is_u32, is_u64 in *. lia. Qed.

Lemma range_eta r : is_u64 r -> rangeFromUint32 (rangeLo r) (rangeHi r) = r.
Proof.
  intros Hr. rewrite rangeFromUint32_eq by (unfold rangeLo, rangeHi; auto with go).
  unfold rangeLo, rangeHi, u32. rewrite Z.shiftr_div_pow2 by lia.
  unfold is_u64 in Hr. rewrite (Z.mod_small (r / 2 ^ 32)) by (Z.div_mod_to_equations; lia).
  pose proof (Z.div_mod r (2 ^ 32)). lia.
Qed.

Lemma rangeLo_u32 r : is_u32 (rangeLo r).
Proof. apply u32_range. Qed.
Lemma rangeHi_u32 r : is_u32 (rangeHi r).
Proof. apply u32_range. Qed.
#[export] Hint Resolve rangeLo_u32 rangeHi_u32 rangeFromUint32_u64 : go.

Lemma range_wf_from lo hi : is_u32 lo -> is_u32 hi -> lo <= hi -> range_wf (rangeFromUint32 lo hi).
Proof.
  intros. split; [auto with go|]. by rewrite rangeLo_from, rangeHi_from.
Qed.

Lemma fastrandn_lt n rnd : 0 < n -> 0 <= fastrandn n rnd < n.
Proof.
  intros Hn. unfold fastrandn. rewrite Z.shiftr_div_pow2 by lia.
  pose proof (u32_range rnd) as Hr. unfold is_u32 in Hr. split.
  - apply Z.div_pos; nia.
  - apply Z.div_lt_upper_bound; nia.
Qed.

Lemma fastrandn_0 rnd : fastrandn 0 rnd = 0.
Proof. unfold fastrandn. by rewrite Z.mul_0_r. Qed.

Lemma parseDigits_bound maxVal n s v :
  0 <= n <= maxVal -> parseDigits maxVal n s = Ok v -> 0 <= v <= maxVal.
Proof.
  revert n. induction s as [|c s IH]; intros n Hn H; cbn [parseDigits] in H.
  - injection H as <-. done.
  - destruct (isDigit c) eqn:Hd; [|done]. unfold isDigit in Hd.
    destruct (Z.ltb_spec maxVal (10 * n + (c - 48))); [done|].
    apply (IH (10 * n + (c - 48))); [lia|done].
Qed.

Lemma parseUint_bound s bits v : 0 <= bits -> parseUint s bits = Ok v -> 0 <= v < 2 ^ bits.
Proof.
  intros Hb H. unfold parseUint in H. destruct s; [done|].
  apply parseDigits_bound in H; [lia|]. pose proof (Z.pow_pos_nonneg 2 bits). lia.
Qed.

Lemma rangeFromString_wf s r : rangeFromString s = Ok r -> range_wf r.
Proof.
  unfold rangeFromString, parseRangeNum. intros H.
  destruct (splitByte 45 s) as [|p [|q [|]]]; try done.
  - destruct (parseUint p 32) as [lo|] eqn:E; [|done]. cbn in H. injection H as <-.
    apply parseUint_bound in E; [|lia]. rewrite !u32_id by done.
    apply range_wf_from; [done..|lia].
  - destruct (parseUint p 32) as [lo|] eqn:E; [|done].
    destruct (parseUint q 32) as [hi|] eqn:E'; [|done]. cbn in H.
    apply parseUint_bound in E; [|lia]. apply parseUint_bound in E'; [|lia].
    destruct (Z.ltb_spec hi lo); [done|]. injection H as <-.
    rewrite !u32_id by done. apply range_wf_from; done.
Qed.

Lemma dec_no_dash n : 0 <= n -> Forall (fun x => x <> 45) (dec n).
Proof.
  intros H. eapply Forall_impl; [by apply dec_digits|]. intros x Hx. cbn in Hx. unfold isDigit in Hx. lia.
Qed.

Lemma parseRangeNum_dec n : is_u32 n -> parseRangeNum (dec n) = Ok n.
Proof. intros H. unfold parseRangeNum. by rewrite parseUint_dec. Qed.

Lemma rangeFromString_toString r : range_wf r -> rangeFromString (rangeToString r) = Ok r.
Proof.
  intros [Hr Hle]. unfold rangeToString.
  assert (Hlo := rangeLo_u32 r). assert (Hhi := rangeHi_u32 r).
  pose proof (range_eta r Hr) as Heta.
  assert (Dlo := dec_no_dash (rangeLo r) ltac:(unfold is_u32 in *; lia)).
  assert (Dhi := dec_no_dash (rangeHi r) ltac:(unfold is_u32 in *; lia)).
  unfold rangeFromString.
  destruct (Z.eqb_spec (rangeLo r) (rangeHi r)) as [E|E].
  - rewrite splitByte_none by done. rewrite parseRangeNum_dec by done. cbn [rbind].
    rewrite u32_id by done. rewrite <- E in Heta. by rewrite Heta.
  - change (str "-" ++ dec (rangeHi r)) with (45 :: dec (rangeHi r)).
    rewrite splitByte_app by done. rewrite splitByte_none by done.
    rewrite !parseRangeNum_dec by done. cbn [rbind].
    rewrite (proj2 (Z.ltb_ge _ _)) by lia.
    rewrite (u32_id (rangeLo r)), (u32_id (rangeHi r)) by done. by rewrite Heta.
Qed.

(** ** Properties *)

(** Reading back the text the device prints for a range gives the range. *)
Theorem range_roundtrip r : range_wf r -> rangeFromString (rangeToString r) = Ok r.
Proof. apply rangeFromString_toString. Qed.

Lemma rangePickOne_contains r rnd :
  range_wf r -> rangeContains r (rangePickOne r rnd) = true.
Proof.
  intros [Hr Hle]. assert (Hlo := rangeLo_u32 r). assert (Hhi := rangeHi_u32 r).
  unfold rangeContains, rangePickOne.
  set (lo := rangeLo r) in *. set (hi := rangeHi r) in *. clearbody lo hi.
  unfold is_u32 in *.
  assert (Hn : fastrandn (u32 (hi - lo + 1)) rnd <= hi - lo /\ 0 <= fastrandn (u32 (hi - lo + 1)) rnd).
  { destruct (decide (hi - lo + 1 = 2 ^ 32)) as [E|E].
    - rewrite E. change (u32 (2 ^ 32)) with 0. rewrite fastrandn_0. lia.
    - rewrite u32_id by (unfold is_u32; lia).
      pose proof (fastrandn_lt (hi - lo + 1) rnd). lia. }
  rewrite u32_id by (unfold is_u32; lia). apply andb_true_iff. split; apply Z.leb_le; lia.
Qed.

(** A number picked from a range is one the range contains, for every random
    draw, the full 32-bit range included (where the size of the range wraps to 0). *)
Theorem range_pick_contained r rnd :
  range_wf r -> rangeContains r (rangePickOne r rnd) = true.
Proof. apply rangePickOne_contains. Qed.

(** Two ranges are told to overlap exactly when some header value is in both. *)
Theorem range_overlap_iff a b :
  range_wf a -> range_wf b ->
  rangeOverlap a b = true <->
  exists x, is_u32 x /\ rangeContains a x = true /\ rangeContains b x = true.
Proof.
  intros [Ha Hla] [Hb Hlb]. unfold rangeOverlap, rangeContains.
  pose proof (rangeLo_u32 a). pose proof (rangeLo_u32 b).
  rewrite andb_true_iff, !Z.leb_le. split.
  - intros [H1 H2]. exists (Z.max (rangeLo a) (rangeLo b)).
    rewrite !andb_true_iff, !Z.leb_le. unfold is_u32 in *. lia.
  - intros (x & Hx & H1 & H2). rewrite andb_true_iff, !Z.leb_le in *. lia.
Qed.

Lemma range_roundtrip_witness :
  range_wf (rangeFromUint32 1020 3040) /\
  rangeToString (rangeFromUint32 1020 3040) = str "1020-3040" /\
  rangeFromString (rangeToString (rangeFromUint32 1020 3040)) = Ok (rangeFromUint32 1020 3040).
Proof.
  assert (H : range_wf (rangeFromUint32 1020 3040)) by (vm_compute; intuition discriminate).
  split; [exact H|]. split; [vm_compute; reflexivity|].
  apply (range_roundtrip (rangeFromUint32 1020 3040)). exact H.
Defined.

Lemma range_pick_contained_witness :
  range_wf (rangeFromUint32 0 (2 ^ 32 - 1)) /\
  rangeContains (rangeFromUint32 0 (2 ^ 32 - 1))
    (rangePickOne (rangeFromUint32 0 (2 ^ 32 - 1)) 123456) = true.
Proof.
  assert (H : range_wf (rangeFromUint32 0 (2 ^ 32 - 1))) by (vm_compute; intuition discriminate).
  split; [exact H|]. apply (range_pick_contained (rangeFromUint32 0 (2 ^ 32 - 1))). exact H.
Defined.

Lemma range_overlap_iff_witness :
  rangeOverlap (rangeFromUint32 5 10) (rangeFromUint32 10 12) = true /\
  exists x, is_u32 x /\ rangeContains (rangeFromUint32 5 10) x = true
         /\ rangeContains (rangeFromUint32 10 12) x = true.
Proof.
  split; [vm_compute; reflexivity|].
  apply (range_overlap_iff (rangeFromUint32 5 10) (rangeFromUint32 10 12));
    [vm_compute; intuition discriminate..|vm_compute; reflexivity].
Defined.
