(* ===== verification/AllowedIPs.v ===== *)
(** * The routing trie, as the code has it ([src/awg-ios/device/allowedips.go])

    Nodes are mutable and reference each other: children, the slot of the parent
    that points at them ([parentIndirection]), the peer's list of entries.  They
    live in a store here, [heap], indexed by node identities; a [**trieEntry] is
    a [slotRef]; a [nil] dereference or a [panic] is [None].  An address is its
    length in bytes and its big-endian value. *)

From stdpp Require Import base numbers list gmap.
From Stdlib Require Import ZArith Lia.
From S2P Require Import Prelude.

Record ipAddr := mkIP { ipLen : Z; ipVal : Z }.

(** [ip[i]]; [None] is the out-of-range panic. *)
Definition ipByte (ip : ipAddr) (i : Z) : option Z :=
  if (0 <=? i) && (i <? ipLen ip)
  then Some (Z.land (Z.shiftr (ipVal ip) (8 * (ipLen ip - 1 - i))) 255)
  else None.

(** What a [**trieEntry] points at: a root of the table or a child of a node. *)
Inductive slotRef := RootSlot (v6 : bool) | ChildSlot (n : nat) (bit : Z).

Record parentIndirection := mkParent { parentBit : option slotRef; parentBitType : Z }.

Record trieEntry := mkTrieEntry {
  tpeer : option nat;
  child0 : option nat;
  child1 : option nat;
  tparent : parentIndirection;
  cidr : Z;
  bitAtByte : Z;
  bitAtShift : Z;
  tbits : ipAddr;
  (* the list element of this node: the peer whose list holds it *)
  perPeerElem : option nat
}.

Record AllowedIPs := mkAllowedIPs {
  heap : gmap nat trieEntry;
  IPv4 : option nat;
  IPv6 : option nat;
  (* [peer.trieEntries] of every peer *)
  trieEntries : gmap nat (list nat)
}.

Definition emptyTable : AllowedIPs := mkAllowedIPs ∅ None None ∅.

(** ** Stores and loads *)

Definition setHeap (st : AllowedIPs) (h : gmap nat trieEntry) : AllowedIPs :=
  mkAllowedIPs h (IPv4 st) (IPv6 st) (trieEntries st).

Definition setNode (st : AllowedIPs) (n : nat) (e : trieEntry) : AllowedIPs :=
  setHeap st (<[n := e]> (heap st)).

Definition child (e : trieEntry) (bit : Z) : option nat :=
  if bit =? 0 then child0 e else child1 e.

Definition withPeer (e : trieEntry) (p : option nat) : trieEntry :=
  mkTrieEntry p (child0 e) (child1 e) (tparent e) (cidr e) (bitAtByte e) (bitAtShift e) (tbits e) (perPeerElem e).
Definition withChild (e : trieEntry) (bit : Z) (c : option nat) : trieEntry :=
  mkTrieEntry (tpeer e) (if bit =? 0 then c else child0 e) (if bit =? 0 then child1 e else c)
    (tparent e) (cidr e) (bitAtByte e) (bitAtShift e) (tbits e) (perPeerElem e).
Definition withParent (e : trieEntry) (p : parentIndirection) : trieEntry :=
  mkTrieEntry (tpeer e) (child0 e) (child1 e) p (cidr e) (bitAtByte e) (bitAtShift e) (tbits e) (perPeerElem e).
Definition withBits (e : trieEntry) (b : ipAddr) : trieEntry :=
  mkTrieEntry (tpeer e) (child0 e) (child1 e) (tparent e) (cidr e) (bitAtByte e) (bitAtShift e) b (perPeerElem e).
Definition withElem (e : trieEntry) (o : option nat) : trieEntry :=
  mkTrieEntry (tpeer e) (child0 e) (child1 e) (tparent e) (cidr e) (bitAtByte e) (bitAtShift e) (tbits e) o.

(** Assignment to a field of the node [n]: a [nil] node panics. *)
Definition modNode (st : AllowedIPs) (n : nat) (f : trieEntry -> trieEntry) : option AllowedIPs :=
  e ← heap st !! n; Some (setNode st n (f e)).

(** [*s] *)
Definition readSlot (st : AllowedIPs) (s : slotRef) : option (option nat) :=
  match s with
  | RootSlot false => Some (IPv4 st)
  | RootSlot true => Some (IPv6 st)
  | ChildSlot n bit => e ← heap st !! n; Some (child e bit)
  end.

(** [*s = v] *)
Definition writeSlot (st : AllowedIPs) (s : slotRef) (v : option nat) : option AllowedIPs :=
  match s with
  | RootSlot false => Some (mkAllowedIPs (heap st) v (IPv6 st) (trieEntries st))
  | RootSlot true => Some (mkAllowedIPs (heap st) (IPv4 st) v (trieEntries st))
  | ChildSlot n bit => modNode st n (fun e => withChild e bit v)
  end.

(** ** Node methods *)

(** [bits.LeadingZeros32], [bits.LeadingZeros64]. *)
Definition leadingZeros (w x : Z) : Z := if x =? 0 then w else w - 1 - Z.log2 x.

Definition commonBits (ip1 ip2 : ipAddr) : option Z :=
  if ipLen ip1 =? 4 then
    Some (leadingZeros 32 (Z.lxor (ipVal ip1) (ipVal ip2)))
  else if ipLen ip1 =? 16 then
    let x := Z.lxor (Z.shiftr (ipVal ip1) 64) (Z.shiftr (ipVal ip2) 64) in
    if x =? 0
    then Some (64 + leadingZeros 64 (Z.lxor (u64 (ipVal ip1)) (u64 (ipVal ip2))))
    else Some (leadingZeros 64 x)
  else None.

Definition entriesOf (st : AllowedIPs) (p : nat) : list nat := default [] (trieEntries st !! p).

Definition setEntries (st : AllowedIPs) (p : nat) (l : list nat) : AllowedIPs :=
  mkAllowedIPs (heap st) (IPv4 st) (IPv6 st) (<[p := l]> (trieEntries st)).

(** [node.perPeerElem = node.peer.trieEntries.PushBack(node)] *)
Definition addToPeerEntries (st : AllowedIPs) (n : nat) : option AllowedIPs :=
  e ← heap st !! n;
  p ← tpeer e;
  Some (setNode (setEntries st p (entriesOf st p ++ [n])) n (withElem e (Some p))).

(** [list.Remove] acts only on an element of that list. *)
Definition removeFromPeerEntries (st : AllowedIPs) (n : nat) : option AllowedIPs :=
  e ← heap st !! n;
  match perPeerElem e with
  | None => Some st
  | Some owner =>
      p ← tpeer e;
      let st' := if (owner =? p)%nat
                 then setEntries st p (filter (fun m => m <> n) (entriesOf st p)) else st in
      Some (setNode st' n (withElem e None))
  end.

Definition choose (e : trieEntry) (ip : ipAddr) : option Z :=
  b ← ipByte ip (bitAtByte e);
  Some (Z.land (Z.shiftr b (bitAtShift e)) 1).

(** [net.CIDRMask(ones, bits)] as a big-endian value. *)
Definition CIDRMask (ones nbits : Z) : Z := Z.shiftl (Z.ones ones) (nbits - ones).

Definition maskSelf (st : AllowedIPs) (n : nat) : option AllowedIPs :=
  modNode st n (fun e =>
    withBits e (mkIP (ipLen (tbits e))
      (Z.land (ipVal (tbits e)) (CIDRMask (cidr e) (ipLen (tbits e) * 8))))).

Definition zeroizePointers (st : AllowedIPs) (n : nat) : option AllowedIPs :=
  modNode st n (fun e =>
    mkTrieEntry None None None (mkParent None (parentBitType (tparent e)))
      (cidr e) (bitAtByte e) (bitAtShift e) (tbits e) (perPeerElem e)).

(** The walk of [nodePlacement]: the loop moves to a node of larger [cidr] at
    every turn, so 129 levels and the final [nil] bound it. *)
Definition walkFuel : nat := 131.

Fixpoint nodePlacementLoop (fuel : nat) (st : AllowedIPs) (node : option nat)
    (ip : ipAddr) (c : Z) (par : option nat) : option (option nat * bool) :=
  match fuel with
  | O => None
  | S fuel' =>
      match node with
      | None => Some (par, false)
      | Some n =>
          e ← heap st !! n;
          if cidr e <=? c then
            common ← commonBits (tbits e) ip;
            if cidr e <=? common then
              if cidr e =? c then Some (Some n, true)
              else
                bit ← choose e ip;
                nodePlacementLoop fuel' st (child e bit) ip c (Some n)
            else Some (par, false)
          else Some (par, false)
      end
  end.

Definition nodePlacement (st : AllowedIPs) (node : option nat) (ip : ipAddr) (c : Z)
    : option (option nat * bool) :=
  nodePlacementLoop walkFuel st node ip c None.

Fixpoint lookupLoop (fuel : nat) (st : AllowedIPs) (node : option nat) (ip : ipAddr)
    (found : option nat) : option (option nat) :=
  match fuel with
  | O => None
  | S fuel' =>
      match node with
      | None => Some found
      | Some n =>
          e ← heap st !! n;
          common ← commonBits (tbits e) ip;
          if cidr e <=? common then
            let found := match tpeer e with Some p => Some p | None => found end in
            if bitAtByte e =? ipLen ip then Some found
            else
              bit ← choose e ip;
              lookupLoop fuel' st (child e bit) ip found
          else Some found
      end
  end.

Definition lookupNode (st : AllowedIPs) (node : option nat) (ip : ipAddr) : option (option nat) :=
  lookupLoop walkFuel st node ip None.

(** ** [insert] *)

Definition newEntry (peer : option nat) (par : parentIndirection) (ip : ipAddr) (c : Z) : trieEntry :=
  mkTrieEntry peer None None par c (c / 8) (7 - c mod 8) ip None.

Definition noParent : parentIndirection := mkParent None 0.

(** [node := &trieEntry{...}; node.maskSelf(); node.addToPeerEntries()] *)
Definition allocEntry (st : AllowedIPs) (peer : nat) (par : parentIndirection) (ip : ipAddr) (c : Z)
    : option (nat * AllowedIPs) :=
  let n := fresh (dom (heap st)) in
  st1 ← maskSelf (setNode st n (newEntry (Some peer) par ip c)) n;
  st2 ← addToPeerEntries st1 n;
  Some (n, st2).

(** Hook [n] where [parent] leads for its bits, or at the root of [trie]. *)
Definition attach (st : AllowedIPs) (trie : parentIndirection) (parent : option nat) (n : nat)
    : option AllowedIPs :=
  match parent with
  | None =>
      st1 ← modNode st n (fun e => withParent e trie);
      rs ← parentBit trie;
      writeSlot st1 rs (Some n)
  | Some p =>
      e ← heap st !! n;
      ep ← heap st !! p;
      bit ← choose ep (tbits e);
      st1 ← modNode st n (fun e => withParent e (mkParent (Some (ChildSlot p bit)) bit));
      modNode st1 p (fun e => withChild e bit (Some n))
  end.

(** [bit := node.choose(kid.bits); kid.parent = parentIndirection{&node.child[bit], bit};
    node.child[bit] = kid] *)
Definition adopt (st : AllowedIPs) (node kid : nat) : option AllowedIPs :=
  en ← heap st !! node;
  ek ← heap st !! kid;
  bit ← choose en (tbits ek);
  st1 ← modNode st kid (fun e => withParent e (mkParent (Some (ChildSlot node bit)) bit));
  modNode st1 node (fun e => withChild e bit (Some kid)).

(** The end of [insert]: [down] is the subtree the new node has to share its
    place with; the new node goes above it or both go under a new branch node. *)
Definition insertOver (st : AllowedIPs) (trie : parentIndirection) (parent : option nat)
    (newNode down : nat) (ip : ipAddr) (c : Z) : option AllowedIPs :=
  ed ← heap st !! down;
  common ← commonBits (tbits ed) ip;
  let c := if common <? c then common else c in
  en ← heap st !! newNode;
  if cidr en =? c then
    st1 ← adopt st newNode down;
    attach st1 trie parent newNode
  else
    let n := fresh (dom (heap st)) in
    st1 ← maskSelf (setNode st n (newEntry None noParent (tbits en) c)) n;
    st2 ← adopt st1 n down;
    st3 ← adopt st2 n newNode;
    attach st3 trie parent n.

Definition insert (st : AllowedIPs) (trie : parentIndirection) (ip : ipAddr) (c : Z) (peer : nat)
    : option AllowedIPs :=
  rs ← parentBit trie;
  root ← readSlot st rs;
  match root with
  | None =>
      '(n, st1) ← allocEntry st peer trie ip c;
      writeSlot st1 rs (Some n)
  | Some _ =>
      '(node, exact) ← nodePlacement st root ip c;
      if exact : bool then
        n ← node;
        st1 ← removeFromPeerEntries st n;
        st2 ← modNode st1 n (fun e => withPeer e (Some peer));
        addToPeerEntries st2 n
      else
        '(newNode, st1) ← allocEntry st peer noParent ip c;
        (* [newNode.bits] is the array of [ip], which [maskSelf] has masked *)
        en ← heap st1 !! newNode;
        let ip := tbits en in
        match node with
        | None => down ← root; insertOver st1 trie node newNode down ip c
        | Some p =>
            e ← heap st1 !! p;
            bit ← choose e ip;
            match child e bit with
            | None =>
                st2 ← modNode st1 newNode
                        (fun e => withParent e (mkParent (Some (ChildSlot p bit)) bit));
                modNode st2 p (fun e => withChild e bit (Some newNode))
            | Some down => insertOver st1 trie node newNode down ip c
            end
        end
  end.

(** ** [remove] *)

(** [if child != nil { child.parent = par }] *)
Definition reparent (st : AllowedIPs) (kid : option nat) (par : parentIndirection) : option AllowedIPs :=
  match kid with
  | None => Some st
  | Some k => modNode st k (fun e => withParent e par)
  end.

(** The node that contains a child slot: the code's pointer arithmetic on
    [node.parent.parentBit]. *)
Definition slotOwner (s : slotRef) : option nat :=
  match s with ChildSlot n _ => Some n | RootSlot _ => None end.

Definition remove (st : AllowedIPs) (n : nat) : option AllowedIPs :=
  st1 ← removeFromPeerEntries st n;
  st2 ← modNode st1 n (fun e => withPeer e None);
  e ← heap st2 !! n;
  match child0 e, child1 e with
  | Some _, Some _ => Some st2
  | _, _ =>
      let kid := match child0 e with None => child1 e | _ => child0 e end in
      st3 ← reparent st2 kid (tparent e);
      rs ← parentBit (tparent e);
      st4 ← writeSlot st3 rs kid;
      let pt := parentBitType (tparent e) in
      if bool_decide (kid <> None) || (1 <? pt) then zeroizePointers st4 n
      else
        p ← slotOwner rs;
        ep ← heap st4 !! p;
        match tpeer ep with
        | Some _ => zeroizePointers st4 n
        | None =>
            let sib := child ep (Z.lxor pt 1) in
            st5 ← reparent st4 sib (tparent ep);
            prs ← parentBit (tparent ep);
            st6 ← writeSlot st5 prs sib;
            st7 ← zeroizePointers st6 n;
            zeroizePointers st7 p
        end
  end.

(** ** The methods of the table *)

(** [netip.Prefix]: an address of 4 or 16 bytes and a length. *)
Record Prefix := mkPrefix { pAddr : ipAddr; pBits : Z }.

Definition Insert (st : AllowedIPs) (prefix : Prefix) (peer : nat) : option AllowedIPs :=
  if ipLen (pAddr prefix) =? 16 then
    insert st (mkParent (Some (RootSlot true)) 2) (pAddr prefix) (u8 (pBits prefix)) peer
  else if ipLen (pAddr prefix) =? 4 then
    insert st (mkParent (Some (RootSlot false)) 2) (pAddr prefix) (u8 (pBits prefix)) peer
  else None.

Definition Remove (st : AllowedIPs) (prefix : Prefix) (peer : nat) : option AllowedIPs :=
  root ← (if ipLen (pAddr prefix) =? 16 then Some (IPv6 st)
          else if ipLen (pAddr prefix) =? 4 then Some (IPv4 st) else None);
  '(node, exact) ← nodePlacement st root (pAddr prefix) (u8 (pBits prefix));
  match node with
  | None => Some st
  | Some n =>
      e ← heap st !! n;
      if negb exact || negb (bool_decide (tpeer e = Some peer)) then Some st
      else remove st n
  end.

(** [elem.Next()] in the list of the peer. *)
Fixpoint nextElem (l : list nat) (n : nat) : option nat :=
  match l with
  | [] => None
  | m :: l' => if (m =? n)%nat then head l' else nextElem l' n
  end.

Fixpoint removeByPeerLoop (fuel : nat) (st : AllowedIPs) (peer : nat) (elem : option nat)
    : option AllowedIPs :=
  match fuel, elem with
  | _, None => Some st
  | O, Some _ => None
  | S fuel', Some n =>
      let next := nextElem (entriesOf st peer) n in
      st' ← remove st n;
      removeByPeerLoop fuel' st' peer next
  end.

Definition RemoveByPeer (st : AllowedIPs) (peer : nat) : option AllowedIPs :=
  removeByPeerLoop (length (entriesOf st peer)) st peer (head (entriesOf st peer)).

Definition Lookup (st : AllowedIPs) (ip : ipAddr) : option (option nat) :=
  if ipLen ip =? 16 then lookupNode st (IPv6 st) ip
  else if ipLen ip =? 4 then lookupNode st (IPv4 st) ip
  else None.

(** The prefixes [EntriesForPeer] hands to a callback that never stops the walk. *)
Definition EntriesForPeer (st : AllowedIPs) (peer : nat) : option (list Prefix) :=
  mapM (fun n => e ← heap st !! n; Some (mkPrefix (tbits e) (cidr e))) (entriesOf st peer).
