(* ===== verification/PrefixTree.v ===== *)
(** * Prefix trees: the specification side of the routing trie

    The shape the nodes of [AllowedIPs] form, as an inductive tree whose nodes
    keep the identity of the trie entry they stand for.  A node of prefix length
    [c] holds the [c] leading bits of its addresses, [x].  The map a tree
    represents and longest-prefix match on it are defined here, and walking the
    tree is proved to be longest-prefix match. *)

From stdpp Require Import base numbers list gmap.
From Stdlib Require Import ZArith Lia.
From S2P Require Import Prelude.

Inductive tree :=
  | Leaf
  | TNode (id : nat) (peer : option nat) (c x : Z) (l r : tree).

(** The [c] leading bits of the [W]-bit address [a]. *)
Definition top (W c a : Z) : Z := Z.shiftr a (W - c).

(** The bit of [a] that follows a prefix of length [c]. *)
Definition nextBit (W c a : Z) : bool := Z.testbit a (W - 1 - c).

Fixpoint ids (t : tree) : list nat :=
  match t with Leaf => [] | TNode n _ _ _ l r => n :: ids l ++ ids r end.

(** The node [n] of the tree, with its peer and its prefix. *)
Fixpoint tnode (t : tree) (n : nat) (peer : option nat) (c x : Z) : Prop :=
  match t with
  | Leaf => False
  | TNode n' peer' c' x' l r =>
      (n = n' /\ peer = peer' /\ c = c' /\ x = x') \/ tnode l n peer c x \/ tnode r n peer c x
  end.

(** The tree maps the prefix [(c, x)] to the peer [p]. *)
Definition has (t : tree) (c x : Z) (p : nat) : Prop := exists n, tnode t n (Some p) c x.

(** Every node of the tree lies in the region of the prefix [(c0, x0)], its
    children in the two halves of its own region, and a node without a peer is a
    branch with two children. *)
Fixpoint wf (W c0 x0 : Z) (t : tree) : Prop :=
  match t with
  | Leaf => True
  | TNode _ peer c x l r =>
      c0 <= c <= W /\ 0 <= x < 2 ^ c /\ Z.shiftr x (c - c0) = x0 /\
      (peer = None -> l <> Leaf /\ r <> Leaf) /\
      wf W (c + 1) (2 * x) l /\ wf W (c + 1) (2 * x + 1) r
  end.

(** The walk of [lookup]. *)
Fixpoint tlookup (W : Z) (t : tree) (a : Z) (found : option nat) : option nat :=
  match t with
  | Leaf => found
  | TNode _ peer c x l r =>
      if decide (top W c a = x)
      then tlookup W (if nextBit W c a then r else l) a
             (match peer with Some p => Some p | None => found end)
      else found
  end.

(** ** The map of a tree, and longest-prefix match *)

Definition map_of (t : tree) (M : Z * Z -> option nat) : Prop :=
  forall c x p, M (c, x) = Some p <-> has t c x p.

(** The entry of the longest prefix of [a], from length [n] down. *)
Fixpoint lpmFrom (M : Z * Z -> option nat) (W : Z) (a : Z) (n : nat) : option nat :=
  match M (Z.of_nat n, top W (Z.of_nat n) a) with
  | Some p => Some p
  | None => match n with O => None | S n' => lpmFrom M W a n' end
  end.

Definition lpm (M : Z * Z -> option nat) (W a : Z) : option nat := lpmFrom M W a (Z.to_nat W).

(** ** Arithmetic of prefixes *)

Lemma top_0 W a : 0 <= a < 2 ^ W -> 0 <= W -> top W 0 a = 0.
Proof.
  intros Ha HW. unfold top. rewrite Z.sub_0_r, Z.shiftr_div_pow2 by lia.
  apply Z.div_small. lia.
Qed.

Lemma top_W W a : top W W a = a.
Proof. unfold top. by rewrite Z.sub_diag, Z.shiftr_0_r. Qed.

Lemma top_top W c c' a : c <= c' <= W -> top W c a = Z.shiftr (top W c' a) (c' - c).
Proof. intros H. unfold top. rewrite Z.shiftr_shiftr by lia. f_equal. lia. Qed.

Lemma top_range W c a : 0 <= a < 2 ^ W -> 0 <= c <= W -> 0 <= top W c a < 2 ^ c.
Proof.
  intros Ha Hc. unfold top. rewrite Z.shiftr_div_pow2 by lia. split.
  - apply Z.div_pos; lia.
  - apply Z.div_lt_upper_bound; [lia|]. rewrite <- Z.pow_add_r by lia.
    replace (W - c + c) with W by lia. lia.
Qed.

Lemma shiftr_1 x : Z.shiftr x 1 = x / 2.
Proof. by rewrite Z.shiftr_div_pow2 by lia. Qed.

Lemma testbit_0 x : Z.b2z (Z.testbit x 0) = x mod 2.
Proof. rewrite Z.bit0_mod. done. Qed.

Lemma top_succ W c a : 0 <= c < W -> top W (c + 1) a = 2 * top W c a + Z.b2z (nextBit W c a).
Proof.
  intros Hc. unfold nextBit. rewrite (top_top W c (c + 1)) by lia.
  replace (c + 1 - c) with 1 by lia. rewrite shiftr_1.
  assert (E : Z.testbit a (W - 1 - c) = Z.testbit (top W (c + 1) a) 0).
  { unfold top. rewrite Z.shiftr_spec by lia. f_equal. lia. }
  rewrite E, testbit_0. Z.div_mod_to_equations. lia.
Qed.

Lemma nextBit_top W c a c' x :
  0 <= c < c' -> c' <= W -> top W c' a = x ->
  Z.b2z (nextBit W c a) = Z.shiftr x (c' - (c + 1)) mod 2.
Proof.
  intros Hc Hc' <-. unfold nextBit.
  rewrite <- testbit_0, Z.shiftr_spec by lia. unfold top.
  rewrite Z.shiftr_spec by lia. do 2 f_equal. lia.
Qed.

Lemma shiftr_half x k : 0 <= k -> Z.shiftr x (k + 1) = Z.shiftr x k / 2.
Proof. intros. rewrite <- Z.shiftr_shiftr by lia. apply shiftr_1. Qed.

(** ** Lemmas on well-formed trees *)

Lemma tnode_in_ids t n peer c x : tnode t n peer c x -> n ∈ ids t.
Proof.
  induction t as [|n' peer' c' x' l IHl r IHr]; cbn; [done|].
  intros [[-> _]|[H|H]]; set_solver.
Qed.

Lemma in_ids_tnode t n : n ∈ ids t -> exists peer c x, tnode t n peer c x.
Proof.
  induction t as [|n' peer' c' x' l IHl r IHr]; cbn; [set_solver|].
  intros [->|[H|H]%elem_of_app]%elem_of_cons; [eauto 10| |].
  - destruct (IHl H) as (?&?&?&?). eauto 10.
  - destruct (IHr H) as (?&?&?&?). eauto 10.
Qed.

Lemma tnode_unique t n peer c x peer' c' x' :
  NoDup (ids t) -> tnode t n peer c x -> tnode t n peer' c' x' ->
  peer = peer' /\ c = c' /\ x = x'.
Proof.
  induction t as [|m q d y l IHl r IHr]; cbn; [done|].
  intros [Hm (Hl & Hlr & Hr)%NoDup_app]%NoDup_cons H1 H2.
  assert (Hnm : forall peer c x, tnode l m peer c x \/ tnode r m peer c x -> False).
  { intros ??? [H|H]%or_comm; apply tnode_in_ids in H; set_solver. }
  assert (Hno : forall peer c x peer' c' x', tnode l n peer c x -> tnode r n peer' c' x' -> False).
  { intros ?????? H%tnode_in_ids H'%tnode_in_ids. set_solver. }
  destruct H1 as [(->&->&->&->)|[H1|H1]], H2 as [(?&?&?&?)|[H2|H2]]; subst; try done;
    solve [exfalso; eauto | eauto].
Qed.

Lemma wf_region W c0 x0 t n peer c x :
  0 <= c0 -> wf W c0 x0 t -> tnode t n peer c x ->
  c0 <= c <= W /\ 0 <= x < 2 ^ c /\ Z.shiftr x (c - c0) = x0.
Proof.
  intros Hc0. revert c0 x0 Hc0.
  induction t as [|m q d y l IHl r IHr]; intros c0 x0 Hc0; cbn; [done|].
  intros (Hd & Hy & Hx0 & _ & Hl & Hr) [(->&->&->&->)|[H|H]]; [done| |].
  - destruct (IHl (d + 1) (2 * y) ltac:(lia) Hl H) as (H1 & H2 & H3). split; [lia|]. split; [done|].
    replace (c - c0) with ((c - (d + 1)) + (1 + (d - c0))) by lia.
    rewrite <- !Z.shiftr_shiftr, H3, shiftr_1 by lia. rewrite Z.mul_comm, Z.div_mul by lia. done.
  - destruct (IHr (d + 1) (2 * y + 1) ltac:(lia) Hr H) as (H1 & H2 & H3). split; [lia|]. split; [done|].
    replace (c - c0) with ((c - (d + 1)) + (1 + (d - c0))) by lia.
    rewrite <- !Z.shiftr_shiftr, H3, shiftr_1 by lia.
    replace ((2 * y + 1) / 2) with y by (Z.div_mod_to_equations; lia). done.
Qed.

(** A prefix is held by one node only. *)
Lemma prefix_unique W c0 x0 t n n' peer peer' c x :
  0 <= c0 -> wf W c0 x0 t -> tnode t n peer c x -> tnode t n' peer' c x -> n = n' /\ peer = peer'.
Proof.
  intros Hc0. revert c0 x0 Hc0.
  induction t as [|m q d y l IHl r IHr]; intros c0 x0 Hc0; cbn; [done|].
  intros (Hd & Hy & Hx0 & _ & Hl & Hr) H1 H2.
  assert (Hsub : forall z s m' o, wf W (d + 1) z s -> tnode s m' o c x -> d < c).
  { intros z s m' o Hs H. destruct (wf_region W (d + 1) z s m' o c x ltac:(lia) Hs H). lia. }
  assert (Hlr : forall n n' peer peer', tnode l n peer c x -> tnode r n' peer' c x -> False).
  { intros ???? HL HR.
    destruct (wf_region W (d + 1) (2 * y) l _ _ _ _ ltac:(lia) Hl HL) as (_&_&E1).
    destruct (wf_region W (d + 1) (2 * y + 1) r _ _ _ _ ltac:(lia) Hr HR) as (_&_&E2). lia. }
  destruct H1 as [(->&->&->&->)|[H1|H1]], H2 as [(?&?&?&?)|[H2|H2]]; subst; try done;
    try solve [exfalso; eauto];
    try solve [exfalso; eapply Z.lt_irrefl; eauto].
  - eapply IHl; [|exact Hl|eauto..]. lia.
  - eapply IHr; [|exact Hr|eauto..]. lia.
Qed.

(** ** The walk finds the longest prefix *)

Lemma region_match W c c' x a :
  0 <= c <= c' -> c' <= W -> top W c' a = x -> top W c a = Z.shiftr x (c' - c).
Proof. intros H1 H2 <-. apply top_top. lia. Qed.

Lemma half_match W c x b c' x' a :
  0 <= c < c' -> c' <= W -> 0 <= b <= 1 ->
  Z.shiftr x' (c' - (c + 1)) = 2 * x + b -> top W c' a = x' ->
  top W c a = x /\ Z.b2z (nextBit W c a) = b.
Proof.
  intros Hc Hc' Hb Hx Ha.
  assert (E : top W (c + 1) a = 2 * x + b) by (rewrite (region_match W (c+1) c' x') by (done || lia); done).
  rewrite top_succ in E by lia. destruct (nextBit W c a); cbn in *; lia.
Qed.

(** What a walk that starts with [found] returns: the peer of the longest prefix
    of [a] in the tree, [found] when there is none. *)
Lemma tlookup_spec W c0 x0 t a found :
  0 <= c0 -> wf W c0 x0 t -> 0 <= a < 2 ^ W ->
  (exists c p, has t c (top W c a) p /\ tlookup W t a found = Some p /\
     forall c' p', has t c' (top W c' a) p' -> c' <= c) \/
  (tlookup W t a found = found /\ forall c' p', ~ has t c' (top W c' a) p').
Proof.
  intros Hc0 Hwf Ha. revert c0 x0 found Hc0 Hwf.
  induction t as [|m q d y l IHl r IHr]; intros c0 x0 found Hc0 Hwf; cbn [tlookup].
  { right. split; [done|]. intros c' p' [n []]. }
  destruct Hwf as (Hd & Hy & Hx0 & _ & Hl & Hr).
  assert (Hin : forall c' p', has (TNode m q d y l r) c' (top W c' a) p' ->
     (c' = d /\ top W d a = y /\ q = Some p') \/
     (d < c' /\ top W d a = y /\ has (if nextBit W d a then r else l) c' (top W c' a) p')).
  { intros c' p' [n [(->&->&->&?)|[H|H]]]; [by left| |]; right.
    - destruct (wf_region W (d + 1) (2 * y) l _ _ _ _ ltac:(lia) Hl H) as (H1&H2&H3).
      destruct (half_match W d y 0 c' _ a ltac:(lia) ltac:(lia) ltac:(lia) ltac:(rewrite H3; lia) eq_refl)
        as [E1 E2].
      destruct (nextBit W d a); [done|]. split; [lia|]. split; [done|]. by exists n.
    - destruct (wf_region W (d + 1) (2 * y + 1) r _ _ _ _ ltac:(lia) Hr H) as (H1&H2&H3).
      destruct (half_match W d y 1 c' _ a ltac:(lia) ltac:(lia) ltac:(lia) ltac:(rewrite H3; lia) eq_refl)
        as [E1 E2].
      destruct (nextBit W d a); [|done]. split; [lia|]. split; [done|]. by exists n. }
  destruct (decide (top W d a = y)) as [Hm|Hno].
  2: { right. split; [done|]. intros c' p' [(_&H&_)|(_&H&_)]%Hin; done. }
  set (sub := if nextBit W d a then r else l) in *.
  set (found' := match q with Some p => Some p | None => found end).
  assert (Hsub : forall c' p', has sub c' (top W c' a) p' -> has (TNode m q d y l r) c' (top W c' a) p').
  { intros c' p' [n H]. exists n. cbn. unfold sub in H. destruct (nextBit W d a); auto. }
  assert (IH : (exists c p, has sub c (top W c a) p /\ tlookup W sub a found' = Some p /\
     forall c' p', has sub c' (top W c' a) p' -> c' <= c) \/
    (tlookup W sub a found' = found' /\ forall c' p', ~ has sub c' (top W c' a) p')).
  { unfold sub. destruct (nextBit W d a);
      [apply (IHr (d + 1) (2 * y + 1))|apply (IHl (d + 1) (2 * y))]; done || lia. }
  destruct IH as [(c & p & H1 & H2 & H3)|[H1 H2]].
  - left. exists c, p. split; [by apply Hsub|]. split; [done|].
    intros c' p' [(->&_&->)|(_&_&H)]%Hin; [|by eapply H3].
    assert (Hc : has (TNode m (Some p') d y l r) c (top W c a) p) by (by apply Hsub).
    apply Hin in Hc as [(->&_)|(?&_)]; lia.
  - rewrite H1. unfold found'. destruct q as [p|].
    + left. exists d, p. split; [exists m; cbn; subst; auto|]. split; [done|].
      intros c' p' [(->&_)|(_&_&H)]%Hin; [lia|]. by apply H2 in H.
    + right. split; [done|]. intros c' p' [(_&_&?)|(_&_&H)]%Hin; [done|]. by apply H2 in H.
Qed.

Lemma lpmFrom_spec M W a n :
  (exists c p, 0 <= c <= Z.of_nat n /\ M (c, top W c a) = Some p /\ lpmFrom M W a n = Some p /\
     forall c', c < c' <= Z.of_nat n -> M (c', top W c' a) = None) \/
  (lpmFrom M W a n = None /\ forall c', 0 <= c' <= Z.of_nat n -> M (c', top W c' a) = None).
Proof.
  induction n as [|n IH]; cbn [lpmFrom].
  - change (Z.of_nat 0) with 0. destruct (M (0, top W 0 a)) as [p|] eqn:E.
    + left. exists 0, p. split; [lia|]. split; [done|]. split; [done|]. lia.
    + right. split; [done|]. intros c' Hc'. by replace c' with 0 by lia.
  - destruct (M (Z.of_nat (S n), top W (Z.of_nat (S n)) a)) as [p|] eqn:E.
    + left. exists (Z.of_nat (S n)), p. split; [lia|]. split; [done|]. split; [done|]. lia.
    + destruct IH as [(c & p & H1 & H2 & H3 & H4)|[H1 H2]].
      * left. exists c, p. split; [lia|]. split; [done|]. split; [done|].
        intros c' Hc'. destruct (decide (c' = Z.of_nat (S n))) as [->|]; [done|]. apply H4. lia.
      * right. split; [done|]. intros c' Hc'.
        destruct (decide (c' = Z.of_nat (S n))) as [->|]; [done|]. apply H2. lia.
Qed.

(** Walking a well-formed tree is longest-prefix match on its map. *)
Lemma tlookup_lpm W t M a :
  wf W 0 0 t -> map_of t M -> 0 <= W -> 0 <= a < 2 ^ W -> tlookup W t a None = lpm M W a.
Proof.
  intros Hwf HM HW Ha. unfold lpm.
  assert (Hrange : forall c x p, has t c x p -> 0 <= c <= W).
  { intros c x p [n H]. apply (wf_region W 0 0) in H; [|lia|done]. lia. }
  destruct (tlookup_spec W 0 0 t a None ltac:(lia) Hwf Ha) as [(c & p & H1 & -> & H3)|[-> H2]];
    destruct (lpmFrom_spec M W a (Z.to_nat W)) as [(c' & p' & L1 & L2 & -> & L4)|[-> L2]]; try done.
  - pose proof (Hrange _ _ _ H1). apply HM in L2 as Hc'. apply H3 in Hc'.
    apply HM in H1. destruct (decide (c = c')) as [->|]; [congruence|].
    rewrite L4 in H1 by lia. done.
  - pose proof (Hrange _ _ _ H1). apply HM in H1. rewrite L2 in H1 by lia. done.
  - apply HM in L2. by apply H2 in L2.
Qed.

(** ** Paths: a tree with a hole *)

(** A node on the path to the hole; [fbit] is the child the hole is in. *)
Record frame := mkFrame {
  fid : nat; fpeer : option nat; fc : Z; fx : Z; fbit : bool; fsib : tree
}.

Definition fill (f : frame) (t : tree) : tree :=
  TNode (fid f) (fpeer f) (fc f) (fx f)
    (if fbit f then fsib f else t) (if fbit f then t else fsib f).

(** The innermost frame comes first. *)
Fixpoint plug (k : list frame) (t : tree) : tree :=
  match k with [] => t | f :: k' => plug k' (fill f t) end.

Definition holeC (k : list frame) : Z := match k with [] => 0 | f :: _ => fc f + 1 end.
Definition holeX (k : list frame) : Z :=
  match k with [] => 0 | f :: _ => 2 * fx f + Z.b2z (fbit f) end.

Definition hole_ok (k : list frame) (t : tree) : Prop :=
  match k with [] => True | f :: _ => fpeer f = None -> t <> Leaf end.

Fixpoint wf_ctx (W : Z) (k : list frame) : Prop :=
  match k with
  | [] => True
  | f :: k' =>
      (holeC k' <= fc f <= W /\ 0 <= fx f < 2 ^ fc f /\
       Z.shiftr (fx f) (fc f - holeC k') = holeX k' /\
       (fpeer f = None -> fsib f <> Leaf) /\
       wf W (fc f + 1) (2 * fx f + Z.b2z (negb (fbit f))) (fsib f)) /\ wf_ctx W k'
  end.

Fixpoint cnode (k : list frame) (n : nat) (peer : option nat) (c x : Z) : Prop :=
  match k with
  | [] => False
  | f :: k' =>
      (n = fid f /\ peer = fpeer f /\ c = fc f /\ x = fx f) \/
      tnode (fsib f) n peer c x \/ cnode k' n peer c x
  end.

Fixpoint cids (k : list frame) : list nat :=
  match k with [] => [] | f :: k' => fid f :: ids (fsib f) ++ cids k' end.

Lemma wf_plug W k t :
  wf W 0 0 (plug k t) <-> wf_ctx W k /\ wf W (holeC k) (holeX k) t /\ hole_ok k t.
Proof.
  revert t. induction k as [|f k IH]; intros t; cbn [plug].
  { cbn. tauto. }
  rewrite IH. unfold fill. cbn [wf_ctx holeC holeX hole_ok wf].
  assert (Hk : forall n q c x l r, hole_ok k (TNode n q c x l r)) by (destruct k; done).
  destruct (fbit f); cbn [Z.b2z negb]; rewrite ?Z.add_0_r; split; intros H; repeat split; try apply Hk; tauto.
Qed.

Lemma tnode_plug k t n peer c x :
  tnode (plug k t) n peer c x <-> tnode t n peer c x \/ cnode k n peer c x.
Proof.
  revert t. induction k as [|f k IH]; intros t; cbn [plug cnode]; [tauto|].
  rewrite IH. unfold fill. cbn [tnode]. destruct (fbit f); tauto.
Qed.

Lemma cnode_in_cids k n peer c x : cnode k n peer c x -> n ∈ cids k.
Proof.
  induction k as [|f k IH]; cbn; [done|].
  intros [(->&_)|[H%tnode_in_ids|H%IH]]; set_solver.
Qed.

Lemma ids_plug k t : ids (plug k t) ≡ₚ ids t ++ cids k.
Proof.
  revert t. induction k as [|f k IH]; intros t; cbn [plug cids]; [by rewrite app_nil_r|].
  rewrite IH. unfold fill. cbn [ids]. destruct (fbit f); solve_Permutation.
Qed.

Lemma plug_nodup k t : NoDup (ids (plug k t)) <-> NoDup (ids t ++ cids k).
Proof. by rewrite ids_plug. Qed.

Lemma wf_weaken W c0 x0 c1 x1 t :
  c0 <= c1 -> Z.shiftr x1 (c1 - c0) = x0 -> wf W c1 x1 t -> wf W c0 x0 t.
Proof.
  intros Hc Hx. destruct t as [|n q c x l r]; cbn [wf]; [done|].
  intros (H1 & H2 & H3 & H4). split; [lia|]. split; [done|]. split; [|done].
  rewrite <- Hx, <- H3, Z.shiftr_shiftr by lia. f_equal. lia.
Qed.

(** ** The walk of [nodePlacement] *)

Fixpoint tplace (W : Z) (t : tree) (a c : Z) (k : list frame) : list frame * tree * bool :=
  match t with
  | Leaf => (k, Leaf, false)
  | TNode n q d y l r =>
      if decide (d <= c /\ top W d a = y) then
        if decide (d = c) then (k, t, true)
        else if nextBit W d a then tplace W r a c (mkFrame n q d y true l :: k)
        else tplace W l a c (mkFrame n q d y false r :: k)
      else (k, t, false)
  end.

(** Every node on the path is a prefix of [a] shorter than [c], on the side of
    the next bit of [a]. *)
Definition on_path (W a c : Z) (k : list frame) : Prop :=
  Forall (fun f => fc f < c /\ top W (fc f) a = fx f /\ fbit f = nextBit W (fc f) a) k.

Definition stops (W a c : Z) (t : tree) : Prop :=
  match t with Leaf => True | TNode _ _ d y _ _ => ~ (d <= c /\ top W d a = y) end.

Definition placed (W a c : Z) (t : tree) : Prop :=
  match t with Leaf => False | TNode _ _ d y _ _ => d = c /\ top W c a = y end.

Lemma tplace_spec W t a c k k' sub exact :
  on_path W a c k -> tplace W t a c k = (k', sub, exact) ->
  plug k' sub = plug k t /\ on_path W a c k' /\
  if exact then placed W a c sub else stops W a c sub.
Proof.
  revert k. induction t as [|n q d y l IHl r IHr]; intros k Hk H; cbn [tplace] in H.
  { injection H as <- <- <-. done. }
  destruct (decide (d <= c /\ top W d a = y)) as [[Hd Hy]|Hno].
  2: { injection H as <- <- <-. done. }
  destruct (decide (d = c)) as [->|Hne].
  { injection H as <- <- <-. done. }
  destruct (nextBit W d a) eqn:Hb; [apply IHr in H|apply IHl in H];
    try (destruct H as (H1 & H2 & H3); split; [by rewrite H1|done]);
    constructor; cbn; auto; repeat split; auto; lia.
Qed.

Lemma on_path_hole W a c k :
  on_path W a c k -> wf_ctx W k -> 0 <= c <= W -> 0 <= a < 2 ^ W ->
  0 <= holeC k <= c /\ top W (holeC k) a = holeX k.
Proof.
  intros Hk Hwf Hc Ha. destruct k as [|f k]; cbn [holeC holeX].
  - split; [lia|]. apply top_0; lia.
  - inversion Hk as [|? ? (H1 & H2 & H3) Hk']; subst.
    destruct Hwf as [(H4 & H5 & _) _].
    assert (0 <= fc f).
    { destruct (decide (0 <= fc f)); [done|]. rewrite Z.pow_neg_r in H5 by lia. lia. }
    split; [lia|]. rewrite top_succ by lia. rewrite H2, H3. done.
Qed.

(** ** Insertion *)

(** [K] is the number of leading bits [a] shares with the address of [down]. *)
Definition common_prefix (W a K : Z) (t : tree) : Prop :=
  match t with
  | Leaf => True
  | TNode _ _ d y _ _ =>
      0 <= K <= W /\ forall j, 0 <= j <= W -> (j <= K <-> top W j (Z.shiftl y (W - d)) = top W j a)
  end.

Definition branch (n : nat) (q : option nat) (c x : Z) (side : bool) (sub other : tree) : tree :=
  TNode n q c x (if side then other else sub) (if side then sub else other).

(** What takes the place of the subtree [sub] where the walk stopped: [n1] is
    the new node, [n2] the branch node. *)
Definition insertSub (W a c K : Z) (n1 n2 peer : nat) (sub : tree) (exact : bool) : tree :=
  match sub with
  | Leaf => TNode n1 (Some peer) c (top W c a) Leaf Leaf
  | TNode m q d y l r =>
      if exact then TNode m (Some peer) d y l r
      else
        let side k := nextBit W k (Z.shiftl y (W - d)) in
        if decide (c <= K) then branch n1 (Some peer) c (top W c a) (side c) sub Leaf
        else branch n2 None K (top W K a) (side K) sub
               (TNode n1 (Some peer) c (top W c a) Leaf Leaf)
  end.

Lemma top_shiftl W d y j : 0 <= j <= d -> d <= W -> top W j (Z.shiftl y (W - d)) = Z.shiftr y (d - j).
Proof.
  intros Hj Hd. unfold top. rewrite Z.shiftr_shiftl_r by lia. f_equal. lia.
Qed.

(** Where the walk stops and the new prefix is not a node of the tree, the
    common prefix is shorter than the prefix of the subtree. *)
Lemma stops_common W a c K m q d y l r :
  stops W a c (TNode m q d y l r) -> common_prefix W a K (TNode m q d y l r) ->
  0 <= d <= W -> 0 <= c <= W -> Z.min c K < d.
Proof.
  intros Hs [HK Hc] Hd Hcr. destruct (decide (Z.min c K < d)); [done|]. exfalso. apply Hs.
  split; [lia|]. destruct (Hc d ltac:(lia)) as [H _]. rewrite <- H by lia.
  rewrite top_shiftl by lia. by rewrite Z.sub_diag, Z.shiftr_0_r.
Qed.

(** The numeric side conditions of [wf]. *)
Ltac wf_side := repeat split; solve [done | lia | tauto | auto].

Lemma insertSub_wf W a c K n1 n2 peer sub (exact : bool) hc hx :
  0 <= hc <= c -> c <= W -> 0 <= a < 2 ^ W -> top W hc a = hx -> wf W hc hx sub ->
  (if exact then placed W a c sub else stops W a c sub) -> common_prefix W a K sub ->
  wf W hc hx (insertSub W a c K n1 n2 peer sub exact) /\
  insertSub W a c K n1 n2 peer sub exact <> Leaf.
Proof.
  intros Hhc HcW Ha Hhx Hwf Hplace Hcom.
  assert (Hrange := top_range W c a Ha ltac:(lia)).
  assert (Htop : forall j, hc <= j <= W -> Z.shiftr (top W j a) (j - hc) = hx).
  { intros j Hj. rewrite <- Hhx. symmetry. apply top_top. lia. }
  destruct sub as [|m q d y l r]; cbn [insertSub].
  { split; [|done]. cbn [wf]. rewrite Htop by lia. wf_side. }
  pose proof Hwf as (Hd & Hy & Hyx & Hq & Hl & Hr).
  destruct exact.
  { split; [|done]. cbn [wf]. wf_side. }
  pose proof (stops_common W a c K m q d y l r Hplace Hcom ltac:(lia) ltac:(lia)) as Hlt.
  destruct Hcom as [HK Hcom].
  assert (Hhalf : forall j, 0 <= j < d -> j <= K ->
    wf W (j + 1) (2 * top W j a + Z.b2z (nextBit W j (Z.shiftl y (W - d)))) (TNode m q d y l r)).
  { intros j Hj HjK. apply (wf_weaken W (j + 1) _ d y); [lia| |].
    - rewrite <- (top_shiftl W d y (j + 1)) by lia. rewrite top_succ by lia.
      rewrite (proj1 (Hcom j ltac:(lia))) by lia. done.
    - cbn [wf]. rewrite Z.sub_diag, Z.shiftr_0_r. wf_side. }
  destruct (decide (c <= K)) as [HcK|HcK].
  - split; [|done]. specialize (Hhalf c ltac:(lia) HcK). unfold branch. cbn [wf].
    rewrite Htop by lia. destruct (nextBit W c _); cbn [Z.b2z wf] in Hhalf; rewrite ?Z.add_0_r in Hhalf;
      wf_side.
  - split; [|done]. specialize (Hhalf K ltac:(lia) ltac:(lia)).
    assert (HKr := top_range W K a Ha ltac:(lia)).
    assert (Hne : nextBit W K (Z.shiftl y (W - d)) <> nextBit W K a).
    { intros E. assert (H : K + 1 <= K); [|lia]. apply Hcom; [lia|].
      rewrite !top_succ by lia. rewrite E. rewrite (proj1 (Hcom K ltac:(lia))) by lia. done. }
    assert (HhK : hc <= K).
    { apply Hcom; [lia|]. rewrite top_shiftl by lia. by rewrite Hyx. }
    assert (Hnew : wf W (K + 1) (2 * top W K a + Z.b2z (nextBit W K a))
                     (TNode n1 (Some peer) c (top W c a) Leaf Leaf)).
    { cbn [wf]. rewrite <- top_succ by lia. rewrite <- top_top by lia. wf_side. }
    unfold branch. cbn [wf]. rewrite Htop by lia.
    destruct (nextBit W K (Z.shiftl y (W - d))), (nextBit W K a); try done;
      cbn [Z.b2z wf] in *; rewrite ?Z.add_0_r in *; wf_side.
Qed.

(** The prefixes of the new subtree. *)
Lemma insertSub_tnode W a c K n1 n2 peer sub exact m p' c' x' :
  (c', x') <> (c, top W c a) -> placed W a c sub \/ exact = false ->
  tnode (insertSub W a c K n1 n2 peer sub exact) m (Some p') c' x' <-> tnode sub m (Some p') c' x'.
Proof.
  intros Hne Hex. destruct sub as [|m0 q d y l r]; cbn [insertSub].
  { cbn [tnode]. split; [|done]. intros [(_&_&->&->)|[[]|[]]]. done. }
  destruct exact.
  - destruct Hex as [[-> <-]|]; [|done]. cbn [tnode].
    split; (intros [(_&_&->&->)|H]; [done|tauto]).
  - unfold branch. destruct (decide (c <= K)); cbn [tnode];
      destruct (nextBit W _ _); cbn [tnode]; split; try tauto; naive_solver.
Qed.

Lemma insertSub_new W a c K n1 n2 peer sub (exact : bool) :
  (if exact then placed W a c sub else stops W a c sub) ->
  exists m, tnode (insertSub W a c K n1 n2 peer sub exact) m (Some peer) c (top W c a).
Proof.
  intros Hpl. destruct sub as [|m0 q d y l r]; cbn [insertSub]; [exists n1; cbn; auto|].
  destruct exact.
  - destruct Hpl as [-> <-]. exists m0. cbn. auto.
  - exists n1. unfold branch. destruct (decide (c <= K)); [cbn; tauto|].
    destruct (nextBit W _ _); cbn; tauto.
Qed.

Lemma map_of_insert W k sub a c K n1 n2 peer (exact : bool) (M M' : Z * Z -> option nat) :
  wf W 0 0 (plug k (insertSub W a c K n1 n2 peer sub exact)) ->
  (if exact then placed W a c sub else stops W a c sub) ->
  map_of (plug k sub) M ->
  (forall key, M' key = if decide (key = (c, top W c a)) then Some peer else M key) ->
  map_of (plug k (insertSub W a c K n1 n2 peer sub exact)) M'.
Proof.
  intros Hwf Hpl HM HM' c' x' p'. rewrite HM'.
  destruct (insertSub_new W a c K n1 n2 peer sub exact Hpl) as [m Hm].
  destruct (decide ((c', x') = (c, top W c a))) as [E|E].
  - injection E as -> ->. split.
    + intros [= <-]. exists m. apply tnode_plug. by left.
    + intros [m' Hm']. f_equal.
      assert (Hmm : tnode (plug k (insertSub W a c K n1 n2 peer sub exact)) m (Some peer) c (top W c a))
        by (apply tnode_plug; by left).
      destruct (prefix_unique W 0 0 _ _ _ _ _ _ _ ltac:(lia) Hwf Hm' Hmm). congruence.
  - rewrite (HM c' x' p').
    assert (Hex : placed W a c sub \/ exact = false) by (destruct exact; auto).
    split; intros [m' Hm']; exists m'; apply tnode_plug; apply tnode_plug in Hm' as [H|H]; auto; left;
      [apply insertSub_tnode|apply insertSub_tnode in H]; auto.
Qed.

(** The entries of the new tree: what the code's per-peer lists have to hold. *)
Lemma insertSub_entries W a c K n1 n2 peer k sub m p' c' x' :
  tnode (plug k (insertSub W a c K n1 n2 peer sub false)) m (Some p') c' x' <->
  tnode (plug k sub) m (Some p') c' x' \/ (m = n1 /\ p' = peer /\ c' = c /\ x' = top W c a).
Proof.
  rewrite !tnode_plug.
  assert (E : tnode (insertSub W a c K n1 n2 peer sub false) m (Some p') c' x' <->
    tnode sub m (Some p') c' x' \/ (m = n1 /\ p' = peer /\ c' = c /\ x' = top W c a)); [|tauto].
  destruct sub as [|m0 q d y l r]; cbn [insertSub]; [cbn; naive_solver|].
  unfold branch. destruct (decide (c <= K)); destruct (nextBit W _ _); cbn [tnode]; naive_solver.
Qed.

Lemma insertSub_exact_entries W a c K n1 n2 peer k m0 q d y l r m p' c' x' :
  NoDup (ids (plug k (TNode m0 q d y l r))) ->
  tnode (plug k (insertSub W a c K n1 n2 peer (TNode m0 q d y l r) true)) m (Some p') c' x' <->
  (tnode (plug k (TNode m0 q d y l r)) m (Some p') c' x' /\ m <> m0) \/
  (m = m0 /\ p' = peer /\ c' = d /\ x' = y).
Proof.
  rewrite plug_nodup. intros Hnd. cbn [ids] in Hnd.
  assert (Hno : ~ (tnode l m0 (Some p') c' x' \/ tnode r m0 (Some p') c' x' \/ cnode k m0 (Some p') c' x')).
  { apply NoDup_app in Hnd as (H1 & H2 & _). apply NoDup_cons in H1 as [H1 _].
    intros [H%tnode_in_ids|[H%tnode_in_ids|H%cnode_in_cids]]; [set_solver..|].
    apply (H2 m0); [set_solver|done]. }
  rewrite !tnode_plug. cbn [insertSub tnode]. destruct (decide (m = m0)) as [->|]; naive_solver.
Qed.

Lemma insertSub_ids W a c K n1 n2 peer sub exact :
  ids (insertSub W a c K n1 n2 peer sub exact) ≡ₚ ids sub \/
  ids (insertSub W a c K n1 n2 peer sub exact) ≡ₚ n1 :: ids sub \/
  ids (insertSub W a c K n1 n2 peer sub exact) ≡ₚ n2 :: n1 :: ids sub.
Proof.
  destruct sub as [|m0 q d y l r]; cbn [insertSub]; [by right; left|].
  destruct exact; [by left|]. right. unfold branch.
  destruct (decide (c <= K)); [left|right]; destruct (nextBit W _ _); cbn [ids]; solve_Permutation.
Qed.

(** ** Removal *)

(** The tree without the peer of the node in the hole, whose children are [l] and [r]. *)
Definition removeAt (k : list frame) (n : nat) (c x : Z) (l r : tree) : tree :=
  match l, r with
  | TNode _ _ _ _ _ _, TNode _ _ _ _ _ _ => plug k (TNode n None c x l r)
  | TNode _ _ _ _ _ _, Leaf => plug k l
  | Leaf, TNode _ _ _ _ _ _ => plug k r
  | Leaf, Leaf =>
      match k with
      | f :: k' => match fpeer f with Some _ => plug k Leaf | None => plug k' (fsib f) end
      | [] => Leaf
      end
  end.

Lemma removeAt_wf W k n p c x l r :
  wf W 0 0 (plug k (TNode n (Some p) c x l r)) -> wf W 0 0 (removeAt k n c x l r).
Proof.
  rewrite !wf_plug. intros (Hk & (Hc & Hx & Hhx & _ & Hl & Hr) & _).
  assert (Hw : forall b t, 0 <= b <= 1 -> wf W (c + 1) (2 * x + b) t -> wf W (holeC k) (holeX k) t).
  { intros b t Hb. apply wf_weaken; [lia|].
    replace (c + 1 - holeC k) with (1 + (c - holeC k)) by lia.
    rewrite <- Z.shiftr_shiftr, shiftr_1 by lia.
    replace ((2 * x + b) / 2) with x by (Z.div_mod_to_equations; lia). done. }
  destruct l as [|n1 q1 c1 x1 l1 r1], r as [|n2 q2 c2 x2 l2 r2]; cbn [removeAt].
  - destruct k as [|f k]; [done|]. destruct (fpeer f) eqn:Ef.
    + apply wf_plug. split; [done|]. split; [done|]. cbn. rewrite Ef. done.
    + apply wf_plug. destruct Hk as [(H1 & H2 & H3 & H4 & H5) Hk]. split; [done|]. split.
      * revert H5. apply wf_weaken; [lia|].
        replace (fc f + 1 - holeC k) with (1 + (fc f - holeC k)) by lia.
        rewrite <- Z.shiftr_shiftr, shiftr_1 by lia.
        replace ((2 * fx f + Z.b2z (negb (fbit f))) / 2) with (fx f)
          by (destruct (fbit f); cbn; Z.div_mod_to_equations; lia). done.
      * destruct k; cbn; auto.
  - apply wf_plug. split; [done|]. split; [by apply (Hw 1); [lia|]|]. destruct k; done.
  - apply wf_plug. split; [done|]. split; [apply (Hw 0); [lia|]; by rewrite Z.add_0_r|]. destruct k; done.
  - apply wf_plug. split; [done|]. split; [|destruct k; done].
    cbn [wf] in *. wf_side.
Qed.

(** Only the node of the hole (and a branch node left with one child) is gone. *)
Lemma removeAt_tnode k n p c x l r m p' c' x' :
  NoDup (ids (plug k (TNode n (Some p) c x l r))) ->
  tnode (removeAt k n c x l r) m (Some p') c' x' <->
  tnode (plug k (TNode n (Some p) c x l r)) m (Some p') c' x' /\ m <> n.
Proof.
  rewrite plug_nodup. intros Hnd. cbn [ids] in Hnd.
  assert (Hl : tnode l n (Some p') c' x' -> False).
  { intros H%tnode_in_ids. inversion Hnd; set_solver. }
  assert (Hr : tnode r n (Some p') c' x' -> False).
  { intros H%tnode_in_ids. inversion Hnd; set_solver. }
  assert (Hk : cnode k n (Some p') c' x' -> False).
  { intros H%cnode_in_cids. inversion Hnd; set_solver. }
  rewrite tnode_plug. cbn [tnode].
  assert (Hno : m = n -> ~ (tnode l m (Some p') c' x' \/ tnode r m (Some p') c' x' \/ cnode k m (Some p') c' x'))
    by (intros ->; tauto).
  destruct l as [|n1 q1 c1 x1 l1 r1], r as [|n2 q2 c2 x2 l2 r2]; cbn [removeAt].
  - destruct k as [|f k]; [cbn in *; naive_solver|]. destruct (fpeer f) eqn:Ef.
    + rewrite tnode_plug. cbn [tnode] in *. naive_solver.
    + rewrite tnode_plug. cbn [tnode cnode] in *. rewrite Ef in *. naive_solver.
  - rewrite tnode_plug. cbn [tnode] in *. naive_solver.
  - rewrite tnode_plug. cbn [tnode] in *. naive_solver.
  - rewrite tnode_plug. cbn [tnode] in *. naive_solver.
Qed.

(** A node of a tree is the root of a subtree in a hole. *)
Lemma tnode_split t k0 n q c x :
  tnode t n q c x -> exists k l r, plug k0 t = plug k (TNode n q c x l r).
Proof.
  revert k0. induction t as [|m q' d y l IHl r IHr]; intros k0; cbn [tnode]; [done|].
  intros [(->&->&->&->)|[H|H]].
  - by exists k0, l, r.
  - apply (IHl (mkFrame m q' d y false r :: k0) H).
  - apply (IHr (mkFrame m q' d y true l :: k0) H).
Qed.

Lemma removeAt_ids k n q c x l r :
  exists rest, ids (plug k (TNode n q c x l r)) ≡ₚ ids (removeAt k n c x l r) ++ rest.
Proof.
  destruct l as [|n1 q1 c1 x1 l1 r1], r as [|n2 q2 c2 x2 l2 r2]; cbn [removeAt].
  - destruct k as [|f k]; [by exists [n]|]. destruct (fpeer f) eqn:Ef.
    + exists [n]. rewrite !ids_plug. cbn. solve_Permutation.
    + exists [n; fid f]. rewrite !ids_plug. cbn. solve_Permutation.
  - exists [n]. rewrite !ids_plug. cbn [ids app]. solve_Permutation.
  - exists [n]. rewrite !ids_plug. cbn [ids app]. solve_Permutation.
  - exists []. rewrite !ids_plug. cbn [ids app]. solve_Permutation.
Qed.
