(* ===== verification/AllowedIPsRep.v ===== *)
(** * The trie entries of the store form prefix trees

    The relation between the mutable nodes of [AllowedIPs] and the trees of
    [PrefixTree]: which store represents which tree, with every parent slot and
    every per-peer list element where the code expects it, and what the small
    steps of the code do to it. *)

From stdpp Require Import base numbers list gmap.
From Stdlib Require Import ZArith Lia.
From S2P Require Import Prelude AllowedIPs PrefixTree.

(** The two address families: the length of an address in bytes and in bits. *)
Definition famLen (v6 : bool) : Z := if v6 then 16 else 4.
Definition famBits (v6 : bool) : Z := 8 * famLen v6.

Definition rootOf (st : AllowedIPs) (v6 : bool) : option nat := if v6 then IPv6 st else IPv4 st.

(** ** Arithmetic of the node methods *)

Lemma leadingZeros_le w x j :
  0 <= x < 2 ^ w -> 0 <= j <= w -> j <= leadingZeros w x <-> Z.shiftr x (w - j) = 0.
Proof.
  intros Hx Hj. unfold leadingZeros. rewrite Z.shiftr_div_pow2 by lia.
  destruct (Z.eqb_spec x 0) as [->|Hne].
  { split; [intros _; apply Z.div_0_l; lia|lia]. }
  pose proof (Z.log2_spec x ltac:(lia)) as [H1 H2]. pose proof (Z.log2_nonneg x).
  rewrite Z.div_small_iff by lia. split.
  - intros Hle. left. split; [lia|]. apply Z.lt_le_trans with (1 := H2). apply Z.pow_le_mono_r; lia.
  - intros [Hlt|Hlt]; [|lia]. assert (Z.log2 x < w - j); [|lia]. apply Z.log2_lt_pow2; lia.
Qed.

Lemma leadingZeros_range w x : 0 <= x < 2 ^ w -> 0 <= w -> 0 <= leadingZeros w x <= w.
Proof.
  intros Hx Hw. unfold leadingZeros. destruct (Z.eqb_spec x 0); [lia|].
  pose proof (Z.log2_nonneg x). assert (Z.log2 x < w) by (apply Z.log2_lt_pow2; lia). lia.
Qed.

Lemma lxor_pow2_range a b n : 0 <= n -> 0 <= a < 2 ^ n -> 0 <= b < 2 ^ n -> 0 <= Z.lxor a b < 2 ^ n.
Proof.
  intros Hn Ha Hb. assert (0 <= Z.lxor a b) by (apply Z.lxor_nonneg; lia). split; [done|].
  apply lt_pow2_of_bits; [done|done|]. intros i Hi.
  rewrite Z.lxor_spec, !(testbit_above_pow2 _ n) by lia. done.
Qed.

Lemma mod_pow2_lxor a b n : 0 <= n -> Z.lxor (a mod 2 ^ n) (b mod 2 ^ n) = Z.lxor a b mod 2 ^ n.
Proof.
  intros Hn. apply Z.bits_inj'; intros i Hi. rewrite Z.lxor_spec.
  destruct (decide (i < n)).
  - by rewrite !Z.mod_pow2_bits_low, Z.lxor_spec by lia.
  - by rewrite !Z.mod_pow2_bits_high by lia.
Qed.

Lemma commonBits_lz v6 a b :
  0 <= a < 2 ^ famBits v6 -> 0 <= b < 2 ^ famBits v6 ->
  commonBits (mkIP (famLen v6) a) (mkIP (famLen v6) b) =
    Some (leadingZeros (famBits v6) (Z.lxor a b)).
Proof.
  intros Ha Hb. destruct v6; [|done].
  change (famLen true) with 16 in *. change (famBits true) with 128 in *.
  unfold commonBits. cbn [ipLen ipVal].
  change (16 =? 4) with false. change (16 =? 16) with true. cbv iota.
  rewrite <- Z.shiftr_lxor. unfold u64. rewrite mod_pow2_lxor by lia.
  pose proof (lxor_pow2_range a b 128 ltac:(lia) Ha Hb) as Hx.
  set (x := Z.lxor a b) in *. clearbody x.
  pose proof (Z.shiftr_div_pow2 x 64 ltac:(lia)) as E.
  destruct (Z.eqb_spec (Z.shiftr x 64) 0) as [H0|H0].
  - rewrite E in H0. assert (Hs : 0 <= x < 2 ^ 64) by (clear E; Z.div_mod_to_equations; lia).
    rewrite Z.mod_small by exact Hs.
    unfold leadingZeros. destruct (x =? 0); f_equal; lia.
  - unfold leadingZeros. rewrite (proj2 (Z.eqb_neq _ 0)) by done.
    assert (Hx0 : x <> 0) by (intros ->; by rewrite Z.shiftr_0_l in H0).
    rewrite (proj2 (Z.eqb_neq x 0)) by done.
    rewrite Z.log2_shiftr by lia.
    assert (64 <= Z.log2 x); [|f_equal; lia].
    apply Z.log2_le_pow2; [lia|]. rewrite E in H0.
    destruct (decide (2 ^ 64 <= x)); [done|]. rewrite Z.div_small in H0 by lia. done.
Qed.

(** [commonBits] counts the leading bits two addresses share. *)
Lemma commonBits_spec v6 a b :
  0 <= a < 2 ^ famBits v6 -> 0 <= b < 2 ^ famBits v6 ->
  exists K, commonBits (mkIP (famLen v6) a) (mkIP (famLen v6) b) = Some K /\ 0 <= K <= famBits v6 /\
    forall j, 0 <= j <= famBits v6 -> (j <= K <-> top (famBits v6) j a = top (famBits v6) j b).
Proof.
  intros Ha Hb. rewrite commonBits_lz by done.
  assert (HW : 0 <= famBits v6) by (by destruct v6).
  pose proof (lxor_pow2_range a b _ HW Ha Hb) as Hx.
  eexists. split; [done|]. split; [by apply leadingZeros_range|].
  intros j Hj. rewrite leadingZeros_le by done. unfold top.
  rewrite Z.shiftr_lxor, Z.lxor_eq_0_iff. done.
Qed.

Lemma famLen_cases v6 : famLen v6 = 4 \/ famLen v6 = 16.
Proof. destruct v6; auto. Qed.

Lemma choose_spec v6 e a :
  bitAtByte e = cidr e / 8 -> bitAtShift e = 7 - cidr e mod 8 -> 0 <= cidr e < famBits v6 ->
  choose e (mkIP (famLen v6) a) = Some (Z.b2z (nextBit (famBits v6) (cidr e) a)).
Proof.
  intros Hb Hs Hc. unfold choose, ipByte. cbn [ipLen ipVal]. rewrite Hb, Hs.
  unfold famBits in *. pose proof (famLen_cases v6) as HL.
  assert (Hd : 0 <= cidr e / 8 < famLen v6 /\ 0 <= cidr e mod 8 < 8 /\
               cidr e = 8 * (cidr e / 8) + cidr e mod 8) by (Z.div_mod_to_equations; lia).
  rewrite (proj2 (Z.leb_le 0 _)), (proj2 (Z.ltb_lt _ (famLen v6))) by lia. cbn [andb mbind option_bind].
  f_equal. change 1 with (2 ^ 1 - 1) at 2. rewrite land_ones_mod by lia. change (2 ^ 1) with 2.
  rewrite <- Z.bit0_mod. f_equal. unfold nextBit.
  rewrite Z.shiftr_spec, Z.land_spec by lia. change 255 with (Z.ones 8).
  rewrite Z.ones_spec_low by lia. rewrite andb_true_r, Z.shiftr_spec by lia. f_equal. lia.
Qed.

Lemma mask_spec W c a : 0 <= c <= W ->
  Z.land a (CIDRMask c W) = Z.shiftl (top W c a) (W - c) \/ 2 ^ W <= a \/ a < 0.
Proof.
  intros Hc. destruct (decide (0 <= a < 2 ^ W)); [|lia]. left. unfold CIDRMask, top.
  apply Z.bits_inj'; intros i Hi. rewrite Z.land_spec.
  destruct (decide (i < W - c)).
  - rewrite !Z.shiftl_spec_low by lia. by rewrite andb_false_r.
  - rewrite !Z.shiftl_spec_high, Z.shiftr_spec by lia.
    replace (i - (W - c) + (W - c)) with i by lia.
    destruct (decide (i < W)).
    + rewrite Z.ones_spec_low by lia. by rewrite andb_true_r.
    + rewrite (testbit_above_pow2 a W) by lia. done.
Qed.

Lemma shiftl_range W c x : 0 <= c <= W -> 0 <= x < 2 ^ c -> 0 <= Z.shiftl x (W - c) < 2 ^ W.
Proof.
  intros Hc Hx. rewrite Z.shiftl_mul_pow2 by lia. split; [nia|].
  replace W with (c + (W - c)) at 2 by lia. rewrite Z.pow_add_r by lia.
  apply Z.mul_lt_mono_pos_r; lia.
Qed.

(** ** The store represents a tree *)

Definition slotType (s : slotRef) : Z := match s with RootSlot _ => 2 | ChildSlot _ b => b end.

Definition slotParent (s : slotRef) : parentIndirection := mkParent (Some s) (slotType s).

(** The entry of a node of prefix [(c, x)] hooked at the slot [s]. *)
Definition entryOf (v6 : bool) (s : slotRef) (peer p0 p1 : option nat) (c x : Z) : trieEntry :=
  mkTrieEntry peer p0 p1 (slotParent s) c (c / 8) (7 - c mod 8)
    (mkIP (famLen v6) (Z.shiftl x (famBits v6 - c))) peer.

Fixpoint rep (v6 : bool) (h : gmap nat trieEntry) (s : slotRef) (p : option nat) (t : tree) : Prop :=
  match t with
  | Leaf => p = None
  | TNode n peer c x l r =>
      p = Some n /\ exists p0 p1, h !! n = Some (entryOf v6 s peer p0 p1 c x) /\
        rep v6 h (ChildSlot n 0) p0 l /\ rep v6 h (ChildSlot n 1) p1 r
  end.

(** The path [k] from the root pointer [rp] in slot [rs] to the slot [s], which
    holds [p]. *)
Fixpoint rep_ctx (v6 : bool) (h : gmap nat trieEntry) (rs : slotRef) (rp : option nat)
    (k : list frame) (s : slotRef) (p : option nat) : Prop :=
  match k with
  | [] => s = rs /\ p = rp
  | f :: k' =>
      s = ChildSlot (fid f) (Z.b2z (fbit f)) /\
      exists s' p0 p1, h !! fid f = Some (entryOf v6 s' (fpeer f) p0 p1 (fc f) (fx f)) /\
        p = (if fbit f then p1 else p0) /\
        rep v6 h (ChildSlot (fid f) (Z.b2z (negb (fbit f)))) (if fbit f then p0 else p1) (fsib f) /\
        rep_ctx v6 h rs rp k' s' (Some (fid f))
  end.

Definition headId (k : list frame) : option nat := fid <$> head k.

Lemma rep_frame v6 h h' s p t :
  (forall n, n ∈ ids t -> h' !! n = h !! n) -> rep v6 h s p t -> rep v6 h' s p t.
Proof.
  revert s p. induction t as [|n q c x l IHl r IHr]; intros s p Hf; cbn [rep]; [done|].
  intros (-> & p0 & p1 & H & Hl & Hr). split; [done|]. exists p0, p1.
  split; [rewrite Hf; [done|set_solver]|]. split; [apply IHl|apply IHr]; auto;
    intros m Hm; apply Hf; set_solver.
Qed.

Lemma rep_ctx_frame v6 h h' rs rp k s p :
  (forall n, n ∈ cids k -> h' !! n = h !! n) ->
  rep_ctx v6 h rs rp k s p -> rep_ctx v6 h' rs rp k s p.
Proof.
  revert s p. induction k as [|f k IH]; intros s p Hf; cbn [rep_ctx]; [done|].
  intros (-> & s' & p0 & p1 & H & -> & Hs & Hk). split; [done|]. exists s', p0, p1.
  split; [rewrite Hf; [done|set_solver]|]. split; [done|].
  split; [eapply rep_frame; [|done]|apply IH; [|done]]; intros m Hm; apply Hf; set_solver.
Qed.

Lemma rep_plug v6 h rs rp k t :
  rep v6 h rs rp (plug k t) <-> exists s p, rep_ctx v6 h rs rp k s p /\ rep v6 h s p t.
Proof.
  revert t. induction k as [|f k IH]; intros t; cbn [plug].
  { split; [intros H; by exists rs, rp|]. by intros (s & p & (-> & ->) & H). }
  rewrite IH. unfold fill. split.
  - intros (s & p & Hk & -> & p0 & p1 & H & Hl & Hr).
    exists (ChildSlot (fid f) (Z.b2z (fbit f))), (if fbit f then p1 else p0).
    split; [cbn; split; [done|]; exists s, p0, p1|]; destruct (fbit f); cbn; auto.
  - intros (s & p & (-> & s' & p0 & p1 & H & -> & Hs & Hk) & Ht).
    exists s', (Some (fid f)). split; [done|]. split; [done|]. exists p0, p1. split; [done|].
    destruct (fbit f); cbn in *; auto.
Qed.

Lemma rep_ids v6 h s p t n : rep v6 h s p t -> n ∈ ids t -> is_Some (h !! n).
Proof.
  revert s p. induction t as [|m q c x l IHl r IHr]; intros s p; cbn [rep]; [set_solver|].
  intros (-> & p0 & p1 & H & Hl & Hr) [->|[Hn|Hn]%elem_of_app]%elem_of_cons; eauto.
Qed.

(** A subtree whose root was hooked to another slot. *)
Lemma rep_move v6 h h' s s' p m q d y l r :
  rep v6 h s p (TNode m q d y l r) ->
  (exists e, h !! m = Some e /\ h' !! m = Some (withParent e (slotParent s'))) ->
  (forall n, n ∈ ids l ++ ids r -> h' !! n = h !! n) ->
  rep v6 h' s' p (TNode m q d y l r).
Proof.
  intros (-> & p0 & p1 & H & Hl & Hr) (e & He & He') Hf. rewrite H in He. injection He as <-.
  split; [done|]. exists p0, p1. split; [by rewrite He'|].
  split; (eapply rep_frame; [|done]); intros n Hn; apply Hf; set_solver.
Qed.

Lemma rep_tnode v6 h s p t n q c x :
  rep v6 h s p t -> tnode t n q c x -> exists s' p0 p1, h !! n = Some (entryOf v6 s' q p0 p1 c x).
Proof.
  revert s p. induction t as [|m q' c' x' l IHl r IHr]; intros s p; cbn [rep tnode]; [done|].
  intros (-> & p0 & p1 & H & Hl & Hr) [(->&->&->&->)|[Hn|Hn]]; eauto.
Qed.

(** ** Loads and stores *)

Lemma modNode_eq st n f e : heap st !! n = Some e -> modNode st n f = Some (setNode st n (f e)).
Proof. intros H. unfold modNode. by rewrite H. Qed.

Lemma root_setNode st n e v6 : rootOf (setNode st n e) v6 = rootOf st v6.
Proof. by destruct v6. Qed.

(** What a store to the slot a path ends in changes. *)
Lemma writeSlot_ctx v6 st k s p q :
  rep_ctx v6 (heap st) (RootSlot v6) (rootOf st v6) k s p -> NoDup (cids k) ->
  exists st', writeSlot st s q = Some st' /\
    rep_ctx v6 (heap st') (RootSlot v6) (rootOf st' v6) k s q /\
    (forall m, headId k <> Some m -> heap st' !! m = heap st !! m) /\
    rootOf st' (negb v6) = rootOf st (negb v6) /\
    trieEntries st' = trieEntries st.
Proof.
  destruct k as [|f k]; cbn [rep_ctx].
  - intros [-> ->] _. destruct v6; eexists; (split; [reflexivity|]); cbn; auto.
  - intros (-> & s' & p0 & p1 & H & -> & Hs & Hk) Hnd. cbn [writeSlot].
    rewrite (modNode_eq _ _ _ _ H). eexists. split; [reflexivity|].
    cbn [cids] in Hnd. apply NoDup_cons in Hnd as [Hf Hnd].
    assert (Hfr : forall m, m <> fid f ->
      (<[fid f := withChild (entryOf v6 s' (fpeer f) p0 p1 (fc f) (fx f)) (Z.b2z (fbit f)) q]> (heap st)) !! m
      = heap st !! m) by (intros m Hm; by rewrite lookup_insert_ne).
    split; [|split; [|split; [|done]]].
    + split; [done|]. exists s', (if fbit f then p0 else q), (if fbit f then q else p1).
      cbn [heap setNode setHeap]. rewrite lookup_insert_eq.
      split; [by destruct (fbit f)|]. split; [by destruct (fbit f)|].
      split.
      * eapply rep_frame; [|destruct (fbit f); exact Hs]. intros m Hm. apply Hfr. set_solver.
      * rewrite root_setNode. eapply rep_ctx_frame; [|exact Hk]. intros m Hm. apply Hfr. set_solver.
    + intros m Hm. apply Hfr. unfold headId in Hm. cbn in Hm. congruence.
    + apply root_setNode.
Qed.

Lemma readSlot_ctx v6 st k s p :
  rep_ctx v6 (heap st) (RootSlot v6) (rootOf st v6) k s p -> readSlot st s = Some p.
Proof.
  destruct k as [|f k]; cbn [rep_ctx].
  - intros [-> ->]. by destruct v6.
  - intros (-> & s' & p0 & p1 & H & -> & _). cbn [readSlot]. rewrite H. cbn. by destruct (fbit f).
Qed.
