(* ===== verification/AllowedIPsStep.v ===== *)
(** * The walks of the routing trie

    [nodePlacement] and [lookup] on a store that represents a prefix tree are
    the walks [tplace] and [tlookup] of that tree; their fuel is enough because
    every turn moves to a longer prefix. *)

From stdpp Require Import base numbers list gmap.
From Stdlib Require Import ZArith Lia.
From S2P Require Import Prelude AllowedIPs PrefixTree AllowedIPsRep.

Lemma famBits_pos v6 : 0 < famBits v6 <= 128.
Proof. by destruct v6. Qed.

(** What the guards of both walks compute at a node. *)
Lemma commonBits_node v6 x c a :
  0 <= c <= famBits v6 -> 0 <= x < 2 ^ c -> 0 <= a < 2 ^ famBits v6 ->
  exists K, commonBits (mkIP (famLen v6) (Z.shiftl x (famBits v6 - c))) (mkIP (famLen v6) a) = Some K /\
    (c <=? K) = bool_decide (top (famBits v6) c a = x).
Proof.
  intros Hc Hx Ha.
  destruct (commonBits_spec v6 (Z.shiftl x (famBits v6 - c)) a) as (K & HK & _ & Hj);
    [by apply shiftl_range|done|].
  exists K. split; [done|]. specialize (Hj c Hc). rewrite top_shiftl in Hj by lia.
  rewrite Z.sub_diag, Z.shiftr_0_r in Hj.
  destruct (Z.leb_spec c K); symmetry; [apply bool_decide_eq_true|apply bool_decide_eq_false].
  - symmetry. apply Hj. lia.
  - intros E. symmetry in E. apply Hj in E. lia.
Qed.

Lemma choose_entry v6 s q p0 p1 c x a :
  0 <= c < famBits v6 ->
  choose (entryOf v6 s q p0 p1 c x) (mkIP (famLen v6) a) = Some (Z.b2z (nextBit (famBits v6) c a)).
Proof. intros. by rewrite (choose_spec v6). Qed.

Lemma child_b2z e (b : bool) : child e (Z.b2z b) = if b then child1 e else child0 e.
Proof. by destruct b. Qed.

(** The node and the verdict [nodePlacement] returns for a place of the tree. *)
Definition placeResult (res : list frame * tree * bool) : option nat * bool :=
  let '(k, sub, exact) := res in
  (match exact, sub with true, TNode n _ _ _ _ _ => Some n | _, _ => headId k end, exact).

Lemma nodePlacementLoop_tplace v6 st t s p a c k fuel c0 x0 :
  rep v6 (heap st) s p t -> wf (famBits v6) c0 x0 t -> 0 <= c0 -> 0 <= a < 2 ^ famBits v6 ->
  0 <= c <= famBits v6 -> (Z.to_nat (famBits v6 + 2 - c0) <= fuel)%nat -> (1 <= fuel)%nat ->
  nodePlacementLoop fuel st p (mkIP (famLen v6) a) c (headId k) =
    Some (placeResult (tplace (famBits v6) t a c k)).
Proof.
  revert s p k fuel c0 x0. induction t as [|n q d y l IHl r IHr];
    intros s p k fuel c0 x0 Hrep Hwf Hc0 Ha Hc Hf H1; (destruct fuel as [|fuel]; [lia|]).
  { cbn in Hrep. by subst p. }
  destruct Hrep as (-> & p0 & p1 & He & Hl & Hr). destruct Hwf as (Hd & Hy & _ & _ & Hwl & Hwr).
  cbn [nodePlacementLoop tplace]. rewrite He. cbn [mbind option_bind].
  cbn [cidr tbits entryOf].
  destruct (commonBits_node v6 y d a ltac:(lia) Hy Ha) as (K & -> & HK). cbn [mbind option_bind]. rewrite HK.
  destruct (Z.leb_spec d c) as [Hdc|Hdc].
  2: { rewrite decide_False by lia. done. }
  case_bool_decide as Htop.
  2: { rewrite decide_False by tauto. done. }
  rewrite decide_True by done.
  destruct (Z.eqb_spec d c) as [->|Hne]; [by rewrite decide_True by done|].
  rewrite decide_False by done. rewrite choose_entry by lia. cbn [mbind option_bind].
  rewrite child_b2z. cbn [child0 child1 entryOf].
  destruct (nextBit (famBits v6) d a).
  - apply (IHr _ _ (mkFrame n q d y true l :: k) fuel _ _ Hr Hwr); lia.
  - apply (IHl _ _ (mkFrame n q d y false r :: k) fuel _ _ Hl Hwl); lia.
Qed.

Lemma wf_beyond W c0 x0 t : W < c0 -> wf W c0 x0 t -> t = Leaf.
Proof. destruct t; cbn [wf]; [done|lia]. Qed.

Lemma lookupLoop_tlookup v6 st t s p a found fuel c0 x0 :
  rep v6 (heap st) s p t -> wf (famBits v6) c0 x0 t -> 0 <= c0 -> 0 <= a < 2 ^ famBits v6 ->
  (Z.to_nat (famBits v6 + 2 - c0) <= fuel)%nat -> (1 <= fuel)%nat ->
  lookupLoop fuel st p (mkIP (famLen v6) a) found = Some (tlookup (famBits v6) t a found).
Proof.
  revert s p found fuel c0 x0. induction t as [|n q d y l IHl r IHr];
    intros s p found fuel c0 x0 Hrep Hwf Hc0 Ha Hf H1; (destruct fuel as [|fuel]; [lia|]).
  { cbn in Hrep. by subst p. }
  destruct Hrep as (-> & p0 & p1 & He & Hl & Hr). destruct Hwf as (Hd & Hy & _ & _ & Hwl & Hwr).
  cbn [lookupLoop tlookup]. rewrite He. cbn [mbind option_bind].
  cbn [cidr tbits entryOf tpeer bitAtByte ipLen].
  destruct (commonBits_node v6 y d a ltac:(lia) Hy Ha) as (K & -> & HK). cbn [mbind option_bind]. rewrite HK.
  case_bool_decide as Htop; [rewrite decide_True by done|by rewrite decide_False by done].
  destruct (Z.eqb_spec (d / 8) (famLen v6)) as [E|E].
  - assert (d = famBits v6) by 
      (clear -E Hd Hc0; unfold famBits in *; Z.div_mod_to_equations; lia). subst d.
    apply wf_beyond in Hwl; [|lia]. apply wf_beyond in Hwr; [|lia]. subst l r.
    by destruct (nextBit _ _ _).
  - assert (d <> famBits v6).
    { intros ->. apply E. unfold famBits. rewrite Z.mul_comm. apply Z.div_mul. lia. }
    rewrite choose_entry by lia. cbn [mbind option_bind].
    rewrite child_b2z. cbn [child0 child1 entryOf].
    destruct (nextBit (famBits v6) d a).
    + apply (IHr _ _ _ fuel _ _ Hr Hwr); lia.
    + apply (IHl _ _ _ fuel _ _ Hl Hwl); lia.
Qed.

(** [walkFuel] is enough from a root. *)
Lemma nodePlacement_tplace v6 st t a c :
  rep v6 (heap st) (RootSlot v6) (rootOf st v6) t -> wf (famBits v6) 0 0 t ->
  0 <= a < 2 ^ famBits v6 -> 0 <= c <= famBits v6 ->
  nodePlacement st (rootOf st v6) (mkIP (famLen v6) a) c =
    Some (placeResult (tplace (famBits v6) t a c [])).
Proof.
  intros Hrep Hwf Ha Hc. pose proof (famBits_pos v6). unfold nodePlacement.
  apply (nodePlacementLoop_tplace v6 st t (RootSlot v6) _ a c [] _ 0 0); unfold walkFuel; done || lia.
Qed.

Lemma lookupNode_tlookup v6 st t a :
  rep v6 (heap st) (RootSlot v6) (rootOf st v6) t -> wf (famBits v6) 0 0 t ->
  0 <= a < 2 ^ famBits v6 ->
  lookupNode st (rootOf st v6) (mkIP (famLen v6) a) = Some (tlookup (famBits v6) t a None).
Proof.
  intros Hrep Hwf Ha. pose proof (famBits_pos v6). unfold lookupNode.
  apply (lookupLoop_tlookup v6 st t (RootSlot v6) _ a None _ 0 0 Hrep Hwf); unfold walkFuel; lia.
Qed.

(** ** The steps of [insert] on the store

    What allocating an entry, hooking a node to a slot and adopting a subtree do
    to the trees the store represents. *)

(** The node [n] is the root of [t], whatever its parent slot. *)
Definition detached (v6 : bool) (h : gmap nat trieEntry) (n : nat) (t : tree) : Prop :=
  match t with
  | Leaf => False
  | TNode m q c x l r =>
      m = n /\ exists par p0 p1,
        h !! n = Some (withParent (entryOf v6 (RootSlot v6) q p0 p1 c x) par) /\
        rep v6 h (ChildSlot n 0) p0 l /\ rep v6 h (ChildSlot n 1) p1 r
  end.

Definition rootPath (v6 : bool) (st : AllowedIPs) (k : list frame) (s : slotRef) (p : option nat) : Prop :=
  rep_ctx v6 (heap st) (RootSlot v6) (rootOf st v6) k s p.

(** The address of the root of a tree. *)
Definition rootVal (W : Z) (t : tree) : Z :=
  match t with Leaf => 0 | TNode _ _ c x _ _ => Z.shiftl x (W - c) end.

Lemma rep_detached v6 h s n t : rep v6 h s (Some n) t -> detached v6 h n t.
Proof.
  destruct t as [|m q c x l r]; [done|]. intros (E & p0 & p1 & H & Hl & Hr).
  injection E as ->. split; [done|]. by exists (slotParent s), p0, p1.
Qed.

Lemma detached_frame v6 h h' n t :
  (forall m, m ∈ ids t -> h' !! m = h !! m) -> detached v6 h n t -> detached v6 h' n t.
Proof.
  destruct t as [|m q c x l r]; [done|]. intros Hf (-> & par & p0 & p1 & H & Hl & Hr).
  split; [done|]. exists par, p0, p1. split; [rewrite Hf; [done|set_solver]|].
  split; (eapply rep_frame; [|done]); intros m' Hm; apply Hf; set_solver.
Qed.

Lemma detached_bits v6 h n t : detached v6 h n t ->
  exists e, h !! n = Some e /\ tbits e = mkIP (famLen v6) (rootVal (famBits v6) t).
Proof.
  destruct t as [|m q c x l r]; [done|]. intros (-> & par & p0 & p1 & H & _). by eexists.
Qed.

Lemma detached_in v6 h n t : detached v6 h n t -> n ∈ ids t.
Proof. destruct t; [done|]. intros (-> & _). set_solver. Qed.

Lemma headId_in k n : headId k = Some n -> n ∈ cids k.
Proof. destruct k; [done|]. unfold headId. cbn. intros [= ->]. set_solver. Qed.

(** [n.parent = ...; *slot = n] *)
Definition hook (st : AllowedIPs) (n : nat) (s : slotRef) : option AllowedIPs :=
  st1 ← modNode st n (fun e => withParent e (slotParent s)); writeSlot st1 s (Some n).

Lemma hook_spec v6 st k s p n t :
  rootPath v6 st k s p -> detached v6 (heap st) n t -> NoDup (ids t ++ cids k) ->
  exists st', hook st n s = Some st' /\
    rep v6 (heap st') (RootSlot v6) (rootOf st' v6) (plug k t) /\
    (forall m, m <> n -> headId k <> Some m -> heap st' !! m = heap st !! m) /\
    rootOf st' (negb v6) = rootOf st (negb v6) /\ trieEntries st' = trieEntries st.
Proof.
  intros Hk Ht Hnd. destruct t as [|m q c x l r]; [done|].
  destruct Ht as (-> & par & p0 & p1 & He & Hl & Hr).
  cbn [ids] in Hnd. apply NoDup_app in Hnd as (Hnt & Hdis & Hnk).
  apply NoDup_cons in Hnt as [Hn _].
  unfold hook. rewrite (modNode_eq _ _ _ _ He). cbn [mbind option_bind].
  set (st1 := setNode st n _).
  assert (H1 : forall m, m <> n -> heap st1 !! m = heap st !! m)
    by (intros m Hm; unfold st1; cbn; by rewrite lookup_insert_ne).
  assert (Hk1 : rootPath v6 st1 k s p).
  { unfold rootPath. unfold st1 at 2. rewrite root_setNode. eapply rep_ctx_frame; [|exact Hk].
    intros m Hm. apply H1. intros ->. set_solver. }
  destruct (writeSlot_ctx v6 st1 k s p (Some n) Hk1 Hnk) as (st' & -> & Hk' & Hf & Hroot & Hent).
  exists st'. split; [done|].
  assert (Hh : forall m, m ∈ n :: ids l ++ ids r -> headId k <> Some m)
    by (intros m Hm E; apply headId_in in E; set_solver).
  assert (Hf' : forall m, m ∈ ids l ++ ids r -> heap st' !! m = heap st !! m).
  { intros m Hm. rewrite Hf by (apply Hh; set_solver). apply H1. intros ->. set_solver. }
  split; [|split; [|split; [|done]]].
  - apply rep_plug. exists s, (Some n). split; [exact Hk'|]. split; [done|].
    exists p0, p1. split.
    + rewrite Hf by (apply Hh; set_solver). unfold st1. cbn. by rewrite lookup_insert_eq.
    + split; (eapply rep_frame; [|done]); intros m Hm; apply Hf'; set_solver.
  - intros m Hm Hm'. rewrite Hf by done. by apply H1.
  - rewrite Hroot. apply root_setNode.
Qed.

(** [attach] hooks the node to the slot its path ends in. *)
Lemma attach_hook v6 st k s p n t a c :
  rootPath v6 st k s p -> detached v6 (heap st) n t -> on_path (famBits v6) a c k ->
  wf_ctx (famBits v6) k -> c <= famBits v6 ->
  (forall f, f ∈ k -> nextBit (famBits v6) (fc f) (rootVal (famBits v6) t) = nextBit (famBits v6) (fc f) a) ->
  attach st (slotParent (RootSlot v6)) (headId k) n = hook st n s.
Proof.
  intros Hk Ht Hp Hwf Hc Hbit. destruct (detached_bits _ _ _ _ Ht) as (e & He & Hb).
  unfold attach, hook. destruct k as [|f k].
  { destruct Hk as [-> ->]. cbn [headId head fmap option_fmap option_map]. done. }
  destruct Hk as (-> & s' & p0 & p1 & Hf & _). unfold headId. cbn [head fmap option_fmap option_map].
  rewrite He, Hf. cbn [mbind option_bind]. rewrite Hb.
  inversion Hp as [|? ? (H1 & _ & H3) _]; subst.
  destruct Hwf as [(_ & H5 & _) _].
  assert (0 <= fc f).
  { destruct (decide (0 <= fc f)); [done|]. rewrite Z.pow_neg_r in H5 by lia. lia. }
  rewrite choose_entry by lia. cbn [mbind option_bind].
  rewrite Hbit, <- H3 by set_solver. done.
Qed.

(** [kid] becomes the child of [node] on its side. *)
Lemma adopt_spec v6 st node kid tk q p0 p1 c x par :
  heap st !! node = Some (withParent (entryOf v6 (RootSlot v6) q p0 p1 c x) par) ->
  detached v6 (heap st) kid tk -> node ∉ ids tk -> NoDup (ids tk) -> 0 <= c < famBits v6 ->
  let b := nextBit (famBits v6) c (rootVal (famBits v6) tk) in
  exists st', adopt st node kid = Some st' /\
    heap st' !! node = Some (withParent (entryOf v6 (RootSlot v6) q
                         (if b then p0 else Some kid) (if b then Some kid else p1) c x) par) /\
    rep v6 (heap st') (ChildSlot node (Z.b2z b)) (Some kid) tk /\
    (forall m, m <> node -> m <> kid -> heap st' !! m = heap st !! m) /\
    (forall w, rootOf st' w = rootOf st w) /\ trieEntries st' = trieEntries st.
Proof.
  intros Hn Hk Hin Hnd Hc b.
  assert (Hne : kid <> node) by (intros ->; apply Hin; by eapply detached_in).
  destruct (detached_bits _ _ _ _ Hk) as (ek & Hek & Hb).
  unfold adopt. rewrite Hn, Hek. cbn [mbind option_bind]. rewrite Hb.
  replace (choose _ _) with (Some (Z.b2z b))
    by (symmetry; apply choose_spec; cbn [cidr bitAtByte bitAtShift withParent entryOf]; done).
  cbn [mbind option_bind]. rewrite (modNode_eq _ _ _ _ Hek). cbn [mbind option_bind].
  rewrite (modNode_eq _ _ _ (withParent (entryOf v6 (RootSlot v6) q p0 p1 c x) par)).
  2: { cbn. by rewrite lookup_insert_ne. }
  eexists. split; [reflexivity|]. cbn [heap setNode setHeap].
  split; [rewrite lookup_insert_eq; by destruct b|].
  split; [|split; [|split; [by intros []|done]]].
  - destruct tk as [|m q' d y l r]; [done|]. destruct Hk as (-> & par' & k0 & k1 & Hk & Hl & Hr).
    rewrite Hek in Hk. injection Hk as ->. cbn [ids] in Hin, Hnd. apply NoDup_cons in Hnd as [Hkid _].
    split; [done|]. exists k0, k1. split.
    + rewrite lookup_insert_ne, lookup_insert_eq by done. done.
    + split; (eapply rep_frame; [|done]); intros m Hm;
        (rewrite !lookup_insert_ne; [done|intros ->..]); try apply Hin; try apply Hkid; set_solver.
  - intros m Hm Hm'. by rewrite !lookup_insert_ne.
Qed.

(** The address [insert] works with once the new entry is masked. *)
Definition masked (W c a : Z) : Z := Z.shiftl (top W c a) (W - c).

Lemma top_masked W c a j : 0 <= j <= c -> c <= W -> top W j (masked W c a) = top W j a.
Proof. intros. unfold masked. rewrite top_shiftl by lia. symmetry. apply top_top. lia. Qed.

Lemma nextBit_masked W c a j : 0 <= j < c -> c <= W -> nextBit W j (masked W c a) = nextBit W j a.
Proof.
  intros Hj Hc. unfold masked, nextBit, top. rewrite Z.shiftl_spec_high, Z.shiftr_spec by lia.
  f_equal. lia.
Qed.

Lemma masked_masked W c a : 0 <= c <= W -> masked W c (masked W c a) = masked W c a.
Proof. intros. unfold masked at 1. by rewrite top_masked by lia. Qed.

Lemma masked_range W c a : 0 <= a < 2 ^ W -> 0 <= c <= W -> 0 <= masked W c a < 2 ^ W.
Proof. intros. apply shiftl_range; [done|]. by apply top_range. Qed.

(** [maskSelf] on a fresh node. *)
Lemma maskSelf_new v6 st n peer par c a :
  0 <= c <= famBits v6 -> 0 <= a < 2 ^ famBits v6 ->
  maskSelf (setNode st n (newEntry peer par (mkIP (famLen v6) a) c)) n =
    Some (setNode st n (newEntry peer par (mkIP (famLen v6) (masked (famBits v6) c a)) c)).
Proof.
  intros Hc Ha. unfold maskSelf. erewrite modNode_eq by (cbn; apply lookup_insert_eq).
  f_equal. unfold setNode, setHeap. cbn. rewrite insert_insert_eq. do 2 f_equal.
  unfold withBits, newEntry. cbn. f_equal. f_equal.
  replace (famLen v6 * 8) with (famBits v6) by (unfold famBits; lia).
  destruct (mask_spec (famBits v6) c a Hc) as [H|H]; [exact H|lia].
Qed.

Lemma allocEntry_spec v6 st peer par c a :
  0 <= c <= famBits v6 -> 0 <= a < 2 ^ famBits v6 ->
  let n := fresh (dom (heap st)) in
  allocEntry st peer par (mkIP (famLen v6) a) c =
    Some (n, setNode (setEntries st peer (entriesOf st peer ++ [n])) n
               (withParent (entryOf v6 (RootSlot v6) (Some peer) None None c (top (famBits v6) c a)) par)).
Proof.
  intros Hc Ha n. unfold allocEntry. fold n. rewrite (maskSelf_new v6) by done. cbn [mbind option_bind].
  unfold addToPeerEntries. cbn [heap setNode setHeap]. rewrite lookup_insert_eq.
  cbn [mbind option_bind tpeer newEntry]. do 2 f_equal.
  unfold setNode, setHeap, setEntries, entriesOf. cbn. by rewrite insert_insert_eq.
Qed.

Lemma fresh_notin (h : gmap nat trieEntry) : h !! fresh (dom h) = None.
Proof. apply not_elem_of_dom. apply is_fresh. Qed.
