(* ===== verification/AllowedIPsInsert.v ===== *)
(** * [insert] refines insertion into a prefix tree *)

From stdpp Require Import base numbers list gmap.
From Stdlib Require Import ZArith Lia.
From S2P Require Import Prelude AllowedIPs PrefixTree AllowedIPsRep AllowedIPsStep.

(** The store after an operation on family [v6] that ends with the tree [t']:
    only the nodes of [touched] changed. *)
Record stepped (v6 : bool) (st st' : AllowedIPs) (t' : tree) (touched : nat -> Prop) : Prop := {
  stepped_rep : rep v6 (heap st') (RootSlot v6) (rootOf st' v6) t';
  stepped_frame : forall m, ~ touched m -> heap st' !! m = heap st !! m;
  stepped_root : rootOf st' (negb v6) = rootOf st (negb v6)
}.

(** Hooking the finished subtree [t] in place ends the operation. *)
Lemma hook_stepped v6 st0 st k s p n t (touched : nat -> Prop) :
  rootPath v6 st k s p -> detached v6 (heap st) n t -> NoDup (ids t ++ cids k) ->
  (forall m, ~ touched m -> heap st !! m = heap st0 !! m) ->
  rootOf st (negb v6) = rootOf st0 (negb v6) ->
  touched n -> (forall m, headId k = Some m -> touched m) ->
  exists st', hook st n s = Some st' /\ stepped v6 st0 st' (plug k t) touched /\
    trieEntries st' = trieEntries st.
Proof.
  intros Hk Ht Hnd Hf Hr Hn Hh.
  destruct (hook_spec v6 st k s p n t Hk Ht Hnd) as (st' & H & Hrep & Hfr & Hro & Hen).
  exists st'. split; [done|]. split; [|done]. split; [done| |congruence].
  intros m Hm. rewrite Hfr; [by apply Hf|intros ->; done|]. intros E. by apply Hm, Hh.
Qed.

Lemma rootPath_frame v6 st st' k s p :
  rootPath v6 st k s p -> rootOf st' v6 = rootOf st v6 ->
  (forall m, m ∈ cids k -> heap st' !! m = heap st !! m) -> rootPath v6 st' k s p.
Proof. intros H Hr Hf. unfold rootPath. rewrite Hr. eapply rep_ctx_frame; done. Qed.

(** The fresh node of the new prefix. *)
Definition isNew (v6 : bool) (st : AllowedIPs) (n : nat) (peer : option nat) (c a : Z) : Prop :=
  exists par, heap st !! n =
    Some (withParent (entryOf v6 (RootSlot v6) peer None None c (top (famBits v6) c a)) par).

Lemma isNew_detached v6 st n peer c a :
  isNew v6 st n peer c a -> detached v6 (heap st) n (TNode n peer c (top (famBits v6) c a) Leaf Leaf).
Proof. intros [par H]. split; [done|]. by exists par, None, None. Qed.

(** The bits of a path agree with any address that shares the prefix of the hole. *)
Lemma path_bits W a c k b :
  on_path W a c k -> wf_ctx W k -> c <= W -> top W (holeC k) b = top W (holeC k) a ->
  forall f, f ∈ k -> nextBit W (fc f) b = nextBit W (fc f) a.
Proof.
  intros Hp Hwf Hc Htop.
  assert (Hle : forall f, f ∈ k -> 0 <= fc f /\ fc f + 1 <= holeC k).
  { clear -Hwf. induction k as [|f k IH]; [set_solver|]. destruct Hwf as [(H1 & H2 & _) Hwf].
    assert (0 <= fc f).
    { destruct (decide (0 <= fc f)); [done|]. rewrite Z.pow_neg_r in H2 by lia. lia. }
    intros g [->|Hg]%elem_of_cons; cbn [holeC]; [lia|]. destruct (IH Hwf g Hg). lia. }
  intros f Hf. destruct (Hle f Hf) as [H0 H1].
  assert (Hh : holeC k <= W).
  { destruct k as [|g k]; [set_solver|]. cbn. inversion Hp as [|? ? (Hg & _)]; subst. lia. }
  assert (E : top W (fc f + 1) b = top W (fc f + 1) a).
  { rewrite !(top_top W (fc f + 1) (holeC k)) by lia. by rewrite Htop. }
  rewrite !top_succ in E by lia.
  assert (E' : top W (fc f) b = top W (fc f) a).
  { rewrite !(top_top W (fc f) (holeC k)) by lia. by rewrite Htop. }
  rewrite E' in E. destruct (nextBit W (fc f) b), (nextBit W (fc f) a); cbn in E; done || lia.
Qed.

Section InsertOver.
Context (v6 : bool) (k : list frame) (s : slotRef) (down newNode peer : nat) (c a : Z).
Context (q : option nat) (d y : Z) (l r : tree).
#[local] Abbreviation W := (famBits v6).
Let sub := TNode down q d y l r.
Context (Hc : 0 <= c <= W) (Ha : 0 <= a < 2 ^ W) (Hm : masked W c a = a).
Context (Hp : on_path W a c k) (Hwk : wf_ctx W k) (Hws : wf W (holeC k) (holeX k) sub).
Context (Hstop : stops W a c sub).
Context (Hnd : NoDup (newNode :: ids sub ++ cids k)).

Definition touchedBy (n2 m : nat) : Prop :=
  m = newNode \/ m = n2 \/ m = down \/ headId k = Some m.

(** The new node goes above the subtree it shares its place with. *)
Lemma insertAbove_spec st K n2 :
  rootPath v6 st k s (Some down) -> rep v6 (heap st) s (Some down) sub ->
  isNew v6 st newNode (Some peer) c a -> common_prefix W a K sub -> c <= K ->
  exists st', (st1 ← adopt st newNode down;
               attach st1 (slotParent (RootSlot v6)) (headId k) newNode) = Some st' /\
    stepped v6 st st' (plug k (insertSub W a c K newNode n2 peer sub false)) (touchedBy n2) /\
    trieEntries st' = trieEntries st.
Proof.
  intros Hk Hsub [par Hnew] Hcom HcK.
  destruct (on_path_hole W a c k Hp Hwk Hc Ha) as [Hh1 Hh2].
  assert (Hlt : c < d).
  { pose proof (stops_common W a c K down q d y l r Hstop Hcom). destruct Hws as (Hd & _). lia. }
  assert (HdW : d <= W) by (destruct Hws; lia).
  pose proof Hnd as [Hn1 Hnd2]%NoDup_cons.
  destruct (adopt_spec v6 st newNode down sub (Some peer) None None c (top W c a) par) as
    (st1 & -> & Hn' & Hrep1 & Hf1 & Hr1 & He1);
    [done|by eapply rep_detached|set_solver|by apply NoDup_app in Hnd2 as []|lia|].
  cbn [mbind option_bind]. change (rootVal (famBits v6) sub) with (Z.shiftl y (W - d)) in *.
  set (b := nextBit W c (Z.shiftl y (W - d))) in *.
  set (t := branch newNode (Some peer) c (top W c a) b sub Leaf).
  assert (Et : insertSub W a c K newNode n2 peer sub false = t).
  { unfold sub, insertSub. by rewrite decide_True by done. }
  assert (Hdt : detached v6 (heap st1) newNode t).
  { split; [done|]. eexists _, _, _. split; [exact Hn'|]. destruct b; cbn; auto. }
  assert (Hk1 : rootPath v6 st1 k s (Some down)).
  { apply (rootPath_frame v6 st); [done|by rewrite Hr1|]. intros m Hmk. apply Hf1.
    - intros ->. set_solver.
    - intros ->. apply NoDup_app in Hnd2 as (_ & Hx & _). by apply (Hx down); [unfold sub; set_solver|]. }
  rewrite (attach_hook v6 st1 k s (Some down) newNode t a c Hk1 Hdt Hp Hwk); [|lia|].
  2: { apply (path_bits W a c); [done|done|lia|]. unfold t, branch. cbn [rootVal].
       apply top_masked; lia. }
  rewrite Et. rewrite <- He1. apply (hook_stepped v6 st st1 k s (Some down)); [done|done| | | | |].
  - assert (E : ids t ++ cids k ≡ₚ newNode :: ids sub ++ cids k); [|by rewrite E].
    unfold t, branch. destruct b; cbn [ids]; solve_Permutation.
  - intros m Hnt. apply Hf1; intros ->; apply Hnt; unfold touchedBy; auto.
  - by rewrite Hr1.
  - by left.
  - intros m E. right. by auto.
Qed.

(** A new branch node takes the place, over the subtree and the new node. *)
Lemma insertBranch_spec st K n2 :
  rootPath v6 st k s (Some down) -> rep v6 (heap st) s (Some down) sub ->
  isNew v6 st newNode (Some peer) c a -> common_prefix W a K sub -> K < c ->
  n2 ∉ newNode :: ids sub ++ cids k ->
  exists st', (st1 ← maskSelf (setNode st n2 (newEntry None noParent (mkIP (famLen v6) a) K)) n2;
               st2 ← adopt st1 n2 down;
               st3 ← adopt st2 n2 newNode;
               attach st3 (slotParent (RootSlot v6)) (headId k) n2) = Some st' /\
    stepped v6 st st' (plug k (insertSub W a c K newNode n2 peer sub false)) (touchedBy n2) /\
    trieEntries st' = trieEntries st.
Proof.
  intros Hk Hsub Hnew Hcom HKc Hn2.
  destruct (on_path_hole W a c k Hp Hwk Hc Ha) as [Hh1 Hh2].
  pose proof (stops_common W a c K down q d y l r Hstop Hcom) as Hlt.
  destruct Hws as (Hd & Hy & Hyx & _). specialize (Hlt ltac:(lia) Hc).
  destruct Hcom as [HK Hcom].
  assert (HhK : holeC k <= K).
  { apply Hcom; [lia|]. rewrite top_shiftl by lia. by rewrite Hyx. }
  pose proof Hnd as [Hn1 Hnd2]%NoDup_cons.
  rewrite (maskSelf_new v6) by (done || lia). cbn [mbind option_bind].
  set (st1 := setNode st n2 _).
  assert (Hf1 : forall m, m <> n2 -> heap st1 !! m = heap st !! m)
    by (intros m Hne; unfold st1; cbn; by rewrite lookup_insert_ne).
  assert (Hn2' : heap st1 !! n2 = Some (withParent
    (entryOf v6 (RootSlot v6) None None None K (top W K a)) noParent))
    by (unfold st1; cbn; by rewrite lookup_insert_eq).
  assert (Hsub1 : detached v6 (heap st1) down sub).
  { eapply detached_frame; [|by eapply rep_detached]. intros m Hin. apply Hf1. intros ->. set_solver. }
  destruct (adopt_spec v6 st1 n2 down sub _ _ _ _ _ _ Hn2' Hsub1) as
    (st2 & -> & Hn2'' & Hrep2 & Hf2 & Hr2 & He2);
    [set_solver|by apply NoDup_app in Hnd2 as []|lia|].
  cbn [mbind option_bind]. change (rootVal W sub) with (Z.shiftl y (W - d)) in *.
  set (b := nextBit W K (Z.shiftl y (W - d))) in *.
  assert (Hdn : newNode <> down) by (intros ->; unfold sub in *; set_solver).
  assert (Hnew2 : detached v6 (heap st2) newNode (TNode newNode (Some peer) c (top W c a) Leaf Leaf)).
  { eapply detached_frame; [|by apply isNew_detached]. cbn [ids app]. intros m Hm1. assert (m = newNode) as -> by set_solver.
    rewrite Hf2, Hf1; [done|set_solver|set_solver|done]. }
  destruct (adopt_spec v6 st2 n2 newNode _ _ _ _ _ _ _ Hn2'' Hnew2) as
    (st3 & -> & Hn2''' & Hrep3 & Hf3 & Hr3 & He3);
    [set_solver|cbn; apply NoDup_singleton|lia|].
  cbn [mbind option_bind]. cbn [rootVal] in *. fold (masked W c a) in *. rewrite Hm in *.
  assert (Hne : nextBit W K a = negb b).
  { destruct (decide (nextBit W K a = b)) as [E|E]; [|by destruct (nextBit W K a), b].
    exfalso. assert (H : K + 1 <= K); [|lia]. apply Hcom; [lia|].
    rewrite !top_succ by lia. fold b. rewrite E. rewrite (proj1 (Hcom K ltac:(lia))) by lia. done. }
  rewrite Hne in *.
  set (t := branch n2 None K (top W K a) b sub (TNode newNode (Some peer) c (top W c a) Leaf Leaf)).
  assert (Et : insertSub W a c K newNode n2 peer sub false = t).
  { unfold sub, insertSub. by rewrite decide_False by lia. }
  assert (Hsub3 : rep v6 (heap st3) (ChildSlot n2 (Z.b2z b)) (Some down) sub).
  { eapply rep_frame; [|exact Hrep2]. intros m Hin. apply Hf3; intros ->; set_solver. }
  assert (Hdt : detached v6 (heap st3) n2 t).
  { split; [done|]. eexists _, _, _. split; [exact Hn2'''|]. by destruct b. }
  assert (Hk3 : rootPath v6 st3 k s (Some down)).
  { apply (rootPath_frame v6 st); [done|by rewrite Hr3, Hr2; unfold st1; rewrite root_setNode|].
    intros m Hmk. assert (m <> n2 /\ m <> newNode /\ m <> down) as (H1 & H2 & H3).
    { split; [|split]; intros ->; [set_solver..|].
      apply NoDup_app in Hnd2 as (_ & Hx & _). by apply (Hx down); [unfold sub; set_solver|]. }
    by rewrite Hf3, Hf2, Hf1. }
  rewrite (attach_hook v6 st3 k s (Some down) n2 t a c Hk3 Hdt Hp Hwk); [|lia|].
  2: { apply (path_bits W a c); [done|done|lia|]. unfold t, branch. cbn [rootVal].
       apply top_masked; lia. }
  rewrite Et. replace (trieEntries st) with (trieEntries st3) by (rewrite He3, He2; done).
  apply (hook_stepped v6 st st3 k s (Some down)); [done|done| | | | |].
  - assert (E : ids t ++ cids k ≡ₚ n2 :: newNode :: ids sub ++ cids k);
      [|rewrite E; by apply NoDup_cons].
    unfold t, branch. destruct b; cbn [ids]; solve_Permutation.
  - unfold touchedBy. intros m Hnt. rewrite Hf3, Hf2, Hf1; tauto.
  - rewrite Hr3, Hr2. apply root_setNode.
  - right. by left.
  - intros m E. right. by auto.
Qed.

(** The end of [insert], where the walk stopped at a node. *)
Lemma insertOver_spec st :
  rootPath v6 st k s (Some down) -> rep v6 (heap st) s (Some down) sub ->
  isNew v6 st newNode (Some peer) c a -> (forall m, m ∈ cids k -> is_Some (heap st !! m)) ->
  exists st' K n2, insertOver st (slotParent (RootSlot v6)) (headId k) newNode down
                     (mkIP (famLen v6) a) c = Some st' /\
    common_prefix W a K sub /\ heap st !! n2 = None /\
    stepped v6 st st' (plug k (insertSub W a c K newNode n2 peer sub false)) (touchedBy n2) /\
    trieEntries st' = trieEntries st.
Proof.
  intros Hk Hsub Hnew Hall.
  destruct Hws as (Hd & Hy & _). destruct (on_path_hole W a c k Hp Hwk Hc Ha) as [Hh1 _].
  destruct (commonBits_spec v6 (Z.shiftl y (W - d)) a) as (K & HK & HKr & Hj);
    [by apply shiftl_range; [lia|]|done|].
  assert (Hcom : common_prefix W a K sub) by (split; done).
  set (n2 := fresh (dom (heap st))). pose proof (fresh_notin (heap st)) as Hn2. fold n2 in Hn2.
  assert (Hnotin : n2 ∉ newNode :: ids sub ++ cids k).
  { intros [->|[H|H]%elem_of_app]%elem_of_cons.
    - destruct Hnew as [par H]. congruence.
    - destruct (rep_ids _ _ _ _ _ _ Hsub H). congruence.
    - destruct (Hall _ H). congruence. }
  pose proof Hsub as (_ & p0 & p1 & Hed & _). pose proof Hnew as [par Hen].
  unfold insertOver. rewrite Hed, Hen. cbn [mbind option_bind tbits entryOf cidr withParent].
  rewrite HK. cbn [mbind option_bind]. fold (masked W c a). rewrite Hm. fold n2.
  destruct (Z.ltb_spec K c) as [HKc|HKc].
  - rewrite (proj2 (Z.eqb_neq c K)) by lia.
    destruct (insertBranch_spec st K n2 Hk Hsub Hnew Hcom HKc Hnotin) as (st' & E & H1 & H2).
    by exists st', K, n2.
  - rewrite Z.eqb_refl.
    destruct (insertAbove_spec st K n2 Hk Hsub Hnew Hcom HKc) as (st' & E & H1 & H2).
    by exists st', K, n2.
Qed.
End InsertOver.
