(* ===== verification/AllowedIPsTable.v ===== *)
(** * The routing table implements a map of prefixes

    The invariant of [AllowedIPs] (both families represent well-formed prefix
    trees, every peer's list holds exactly its entries) and the refinement: the
    table is a finite map from prefixes to peers, with longest-prefix match. *)

From stdpp Require Import base numbers list gmap.
From Stdlib Require Import ZArith Lia.
From S2P Require Import Prelude AllowedIPs PrefixTree AllowedIPsRep AllowedIPsStep AllowedIPsInsert.

(** ** The specification *)

(** A prefix: the family, the length and the leading bits. *)
Definition prefixKey : Type := bool * (Z * Z).

Abbreviation Routes := (gmap prefixKey nat).

Definition keyOf (v6 : bool) (a c : Z) : prefixKey := (v6, (c, top (famBits v6) c a)).

(** [netip.Prefix] values with an address of family [v6]. *)
Definition prefixOf (v6 : bool) (a c : Z) : Prefix := mkPrefix (mkIP (famLen v6) a) c.

(** The prefix a key stands for: what [EntriesForPeer] reports. *)
Definition keyPrefix (key : prefixKey) : Prefix :=
  let '(v6, (c, x)) := key in mkPrefix (mkIP (famLen v6) (Z.shiftl x (famBits v6 - c))) c.

Definition specLookup (R : Routes) (v6 : bool) (a : Z) : option nat :=
  lpm (fun cx => R !! (v6, cx)) (famBits v6) a.

Definition specRemove (R : Routes) (key : prefixKey) (peer : nat) : Routes :=
  if decide (R !! key = Some peer) then delete key R else R.

Definition specRemoveByPeer (R : Routes) (peer : nat) : Routes :=
  filter (fun kv => kv.2 <> peer) R.

(** ** The invariant *)

Record inv (st : AllowedIPs) (T : bool -> tree) : Prop := {
  inv_rep v : rep v (heap st) (RootSlot v) (rootOf st v) (T v);
  inv_wf v : wf (famBits v) 0 0 (T v);
  inv_nodup v : NoDup (ids (T v));
  inv_disjoint v n : n ∈ ids (T v) -> n ∉ ids (T (negb v));
  inv_list p : NoDup (entriesOf st p);
  inv_entries p n : n ∈ entriesOf st p <-> exists v c x, tnode (T v) n (Some p) c x
}.

Definition table_rel (st : AllowedIPs) (R : Routes) : Prop :=
  exists T, inv st T /\ forall v, map_of (T v) (fun cx => R !! (v, cx)).

Definition updTree (T : bool -> tree) (v : bool) (t : tree) (w : bool) : tree :=
  if bool_decide (w = v) then t else T w.

Lemma updTree_eq T v t : updTree T v t v = t.
Proof. unfold updTree. by rewrite bool_decide_eq_true_2. Qed.

Lemma updTree_neg T v t : updTree T v t (negb v) = T (negb v).
Proof. unfold updTree. rewrite bool_decide_eq_false_2; [done|]. by destruct v. Qed.

(** Either the family of the operation or the other one. *)
Lemma two_fams (P : bool -> Prop) v : P v -> P (negb v) -> forall w, P w.
Proof. intros H1 H2 w. destruct v, w; done. Qed.

Lemma inv_heap st T v n : inv st T -> n ∈ ids (T v) -> is_Some (heap st !! n).
Proof. intros HI Hn. eapply rep_ids; [apply (inv_rep _ _ HI v)|done]. Qed.

(** The nodes an operation on family [v] may use: its own and fresh ones. *)
Definition ownOrFresh (st : AllowedIPs) (T : bool -> tree) (v : bool) (n : nat) : Prop :=
  n ∈ ids (T v) \/ heap st !! n = None.

Lemma ownOrFresh_other st T v n : inv st T -> ownOrFresh st T v n -> n ∉ ids (T (negb v)).
Proof.
  intros HI [H|H]; [by apply (inv_disjoint _ _ HI)|]. intros Hn.
  apply (inv_heap _ _ _ _ HI) in Hn as [e He]. congruence.
Qed.

Lemma inv_step st st' T v t' touched :
  inv st T -> stepped v st st' t' touched -> wf (famBits v) 0 0 t' ->
  (forall n, touched n -> ownOrFresh st T v n) ->
  NoDup (ids t') -> (forall n, n ∈ ids t' -> ownOrFresh st T v n) ->
  (forall p, NoDup (entriesOf st' p)) ->
  (forall p n, n ∈ entriesOf st' p <->
     (exists c x, tnode t' n (Some p) c x) \/ (exists c x, tnode (T (negb v)) n (Some p) c x)) ->
  inv st' (updTree T v t').
Proof.
  intros HI [Hrep Hf Hroot] Hwf Ht Hnd Hids Hlist Hent. split.
  - apply (two_fams _ v); rewrite ?updTree_eq, ?updTree_neg; [done|]. rewrite Hroot.
    eapply rep_frame; [|apply (inv_rep _ _ HI (negb v))]. intros n Hn. apply Hf. intros Hn'.
    by apply Ht, (ownOrFresh_other _ _ _ _ HI) in Hn'.
  - apply (two_fams _ v); rewrite ?updTree_eq, ?updTree_neg; [done|]. apply (inv_wf _ _ HI).
  - apply (two_fams _ v); rewrite ?updTree_eq, ?updTree_neg; [done|]. apply (inv_nodup _ _ HI).
  - apply (two_fams (fun w => forall n, n ∈ ids (updTree T v t' w) -> n ∉ ids (updTree T v t' (negb w))) v);
      intros n; rewrite ?negb_involutive, ?updTree_eq, ?updTree_neg.
    + intros Hn. apply (ownOrFresh_other _ _ _ _ HI). by apply Hids.
    + intros Hn Hn'. apply Hids in Hn'. by apply (ownOrFresh_other _ _ _ _ HI) in Hn'.
  - done.
  - intros p n. rewrite Hent. split.
    + intros [(c & x & H)|(c & x & H)]; [exists v|exists (negb v)]; exists c, x;
        by rewrite ?updTree_eq, ?updTree_neg.
    + intros (w & c & x & H). revert w H. apply (two_fams (fun w => tnode (updTree T v t' w) n (Some p) c x -> _) v);
        rewrite ?updTree_eq, ?updTree_neg; eauto.
Qed.

(** The entries of the peers before and after, when only family [v] changes. *)
Lemma inv_entries_split st T v p n : inv st T ->
  n ∈ entriesOf st p <->
    (exists c x, tnode (T v) n (Some p) c x) \/ (exists c x, tnode (T (negb v)) n (Some p) c x).
Proof.
  intros HI. rewrite (inv_entries _ _ HI). split.
  - intros (w & c & x & H). destruct (decide (w = v)) as [->|Hne]; [left; eauto|right].
    replace (negb v) with w by (by destruct v, w). eauto.
  - intros [(c & x & H)|(c & x & H)]; eauto.
Qed.

Lemma stepped_weaken v st1 st st' t' (P Q : nat -> Prop) :
  stepped v st1 st' t' P -> (forall m, P m -> Q m) ->
  (forall m, ~ Q m -> heap st1 !! m = heap st !! m) -> rootOf st1 (negb v) = rootOf st (negb v) ->
  stepped v st st' t' Q.
Proof.
  intros [H1 H2 H3] HPQ Hh Hr. split; [done| |congruence].
  intros m Hm. rewrite H2 by auto. by apply Hh.
Qed.

Lemma entriesOf_setEntries st p l p' :
  entriesOf (setEntries st p l) p' = if decide (p' = p) then l else entriesOf st p'.
Proof.
  unfold entriesOf, setEntries. cbn. rewrite lookup_insert.
  destruct (decide (p = p')), (decide (p' = p)); congruence || done.
Qed.

(** ** Insertion *)

Record place (v : bool) (st : AllowedIPs) (t : tree) (a c : Z) (k : list frame) (sub : tree)
    (exact : bool) : Prop := {
  place_plug : plug k sub = t;
  place_path : on_path (famBits v) a c k;
  place_stop : if exact then placed (famBits v) a c sub else stops (famBits v) a c sub;
  place_wfk : wf_ctx (famBits v) k;
  place_wf : wf (famBits v) (holeC k) (holeX k) sub;
  place_nodup : NoDup (ids sub ++ cids k);
  place_rep : exists s p, rootPath v st k s p /\ rep v (heap st) s p sub
}.

Arguments place_plug {v st t a c k sub exact}.
Arguments place_path {v st t a c k sub exact}.
Arguments place_stop {v st t a c k sub exact}.
Arguments place_wfk {v st t a c k sub exact}.
Arguments place_wf {v st t a c k sub exact}.
Arguments place_nodup {v st t a c k sub exact}.
Arguments place_rep {v st t a c k sub exact}.

(** What [nodePlacement] finds, told of the masked address. *)
Lemma place_intro v st T a c k sub exact :
  inv st T -> 0 <= c <= famBits v -> 0 <= a < 2 ^ famBits v ->
  tplace (famBits v) (T v) a c [] = (k, sub, exact) ->
  place v st (T v) (masked (famBits v) c a) c k sub exact.
Proof.
  intros HI Hc Ha Hpl.
  destruct (tplace_spec _ _ _ _ _ _ _ _ (Forall_nil_2 _) Hpl) as (Hp & Hon & Hst). cbn [plug] in Hp.
  pose proof (inv_wf _ _ HI v) as Hwf. pose proof (inv_nodup _ _ HI v) as Hnd.
  pose proof (inv_rep _ _ HI v) as Hrep.
  rewrite <- Hp in Hwf, Hnd, Hrep. apply wf_plug in Hwf as (Hwk & Hws & Hho). apply plug_nodup in Hnd.
  apply rep_plug in Hrep as (s & p & Hk & Hs).
  split; [done| | |done|done|done|by exists s, p].
  - assert (Hpos : Forall (fun f => 0 <= fc f) k).
    { clear -Hwk. induction k as [|f k IH]; [done|]. destruct Hwk as [(_ & H2 & _) Hwk].
      constructor; [|auto]. destruct (decide (0 <= fc f)); [done|]. rewrite Z.pow_neg_r in H2 by lia. lia. }
    unfold on_path in *. rewrite Forall_forall in Hpos, Hon |- *. intros f Hf. destruct (Hon f Hf) as (H1 & H2 & H3). specialize (Hpos f Hf).
    cbn in Hpos. split; [done|]. rewrite top_masked, nextBit_masked by lia. done.
  - destruct exact, sub as [|n q d y l r]; cbn in *; [done| |done|].
    + destruct Hst as [-> <-]. by rewrite top_masked by lia.
    + intros [Hd Ht]. apply Hst. split; [done|]. destruct Hws as (_ & Hy & _).
      assert (0 <= d).
      { destruct (decide (0 <= d)); [done|]. rewrite Z.pow_neg_r in Hy by lia. lia. }
      by rewrite top_masked in Ht by lia.
Qed.

Lemma insertSub_plug_wf v st t a c K n1 n2 peer k sub exact :
  place v st t a c k sub exact -> 0 <= c <= famBits v -> 0 <= a < 2 ^ famBits v ->
  common_prefix (famBits v) a K sub ->
  wf (famBits v) 0 0 (plug k (insertSub (famBits v) a c K n1 n2 peer sub exact)).
Proof.
  intros HP Hc Ha Hcom.
  destruct (on_path_hole _ a c k (place_path HP) (place_wfk HP) Hc Ha) as [H1 H2].
  destruct (insertSub_wf (famBits v) a c K n1 n2 peer sub exact (holeC k) (holeX k)) as [Hw Hl];
    [lia|lia|done|done|exact (place_wf HP)|exact (place_stop HP)|done|].
  apply wf_plug. split; [exact (place_wfk HP)|]. split; [done|].
  destruct k; [done|]. intros _. done.
Qed.

Lemma inv_insert_new v st st' T a c K n1 n2 peer k sub :
  inv st T -> place v st (T v) a c k sub false -> 0 <= c <= famBits v -> 0 <= a < 2 ^ famBits v ->
  common_prefix (famBits v) a K sub -> heap st !! n1 = None -> heap st !! n2 = None -> n1 <> n2 ->
  let t' := plug k (insertSub (famBits v) a c K n1 n2 peer sub false) in
  stepped v st st' t' (fun m => m = n1 \/ m = n2 \/ m ∈ ids (T v)) ->
  trieEntries st' = trieEntries (setEntries st peer (entriesOf st peer ++ [n1])) ->
  inv st' (updTree T v t').
Proof.
  intros HI HP Hc Ha Hcom Hn1 Hn2 Hne t' Hst Hent.
  assert (Hown : forall n, n = n1 \/ n = n2 \/ n ∈ ids (T v) -> ownOrFresh st T v n)
    by (intros n [->|[->|H]]; unfold ownOrFresh; auto).
  assert (Hold : forall w n, n ∈ ids (T w) -> n <> n1 /\ n <> n2).
  { intros w n Hn. apply (inv_heap _ _ _ _ HI) in Hn as [e He]. split; congruence. }
  assert (Hids : ids t' ≡ₚ ids (T v) \/ ids t' ≡ₚ n1 :: ids (T v) \/ ids t' ≡ₚ n2 :: n1 :: ids (T v)).
  { rewrite <- (place_plug HP). unfold t'. rewrite !ids_plug.
    destruct (insertSub_ids (famBits v) a c K n1 n2 peer sub false) as [E|[E|E]]; rewrite E; auto. }
  assert (He : forall p, entriesOf st' p =
    if decide (p = peer) then entriesOf st peer ++ [n1] else entriesOf st p).
  { intros p. rewrite <- entriesOf_setEntries. unfold entriesOf. by rewrite Hent. }
  assert (Hn1' : forall p, n1 ∉ entriesOf st p).
  { intros p Hp. apply (inv_entries _ _ HI) in Hp as (w & c' & x' & H%tnode_in_ids).
    by apply Hold in H as [? _]. }
  apply (inv_step st st' T v t' _ HI Hst); [exact (insertSub_plug_wf v st (T v) a c K n1 n2 peer k sub false HP Hc Ha Hcom)|done| | | |].
  - pose proof (inv_nodup _ _ HI v) as Hnd.
    assert (n1 ∉ ids (T v) /\ n2 ∉ ids (T v)) as [H1 H2] by (split; intros Hx; by apply Hold in Hx as [? ?]).
    destruct Hids as [E|[E|E]]; rewrite E; [done|by apply NoDup_cons|].
    apply NoDup_cons. split; [set_solver|by apply NoDup_cons].
  - intros n Hn. apply Hown. destruct Hids as [E|[E|E]]; rewrite E in Hn; set_solver.
  - intros p. rewrite He. destruct (decide (p = peer)); [|apply (inv_list _ _ HI)].
    apply NoDup_app. split; [apply (inv_list _ _ HI)|]. split; [|apply NoDup_singleton].
    intros n Hn Hn'. assert (n = n1) as -> by set_solver. by apply Hn1' in Hn.
  - intros p n. rewrite He.
    assert (E : (exists c' x', tnode t' n (Some p) c' x') <->
      (exists c' x', tnode (T v) n (Some p) c' x') \/ (n = n1 /\ p = peer)).
    { unfold t'. setoid_rewrite insertSub_entries. rewrite (place_plug HP). naive_solver. }
    rewrite E. pose proof (inv_entries_split st T v p n HI) as Hs.
    destruct (decide (p = peer)) as [->|]; rewrite ?elem_of_app; naive_solver (try set_solver).
Qed.

(** ** The lists of the peers *)

Lemma filter_id {A} (P : A -> Prop) `{!forall x, Decision (P x)} (l : list A) :
  (forall x, x ∈ l -> P x) -> filter P l = l.
Proof.
  induction l as [|x l IH]; [done|]. intros Hall.
  rewrite filter_cons_True by (apply Hall; set_solver). f_equal. apply IH. set_solver.
Qed.

Lemma entry_owner st T v m q c x p :
  inv st T -> tnode (T v) m q c x -> m ∈ entriesOf st p -> q = Some p.
Proof.
  intros HI Hm Hin. apply (inv_entries _ _ HI) in Hin as (w & c' & x' & H).
  destruct (decide (w = v)) as [->|Hne].
  - by destruct (tnode_unique _ _ _ _ _ _ _ _ (inv_nodup _ _ HI v) Hm H).
  - replace w with (negb v) in H by (by destruct v, w). exfalso.
    apply tnode_in_ids in H, Hm. by apply (inv_disjoint _ _ HI) in Hm.
Qed.

(** [removeFromPeerEntries] takes the node out of the one list that holds it. *)
Lemma removeFromPeerEntries_spec st T v m s q p0 p1 c x :
  inv st T -> tnode (T v) m q c x -> heap st !! m = Some (entryOf v s q p0 p1 c x) ->
  exists st1, removeFromPeerEntries st m = Some st1 /\
    heap st1 !! m = Some (withElem (entryOf v s q p0 p1 c x) None) /\
    (forall n, n <> m -> heap st1 !! n = heap st !! n) /\
    (forall w, rootOf st1 w = rootOf st w) /\
    (forall p, entriesOf st1 p = filter (fun n => n <> m) (entriesOf st p)).
Proof.
  intros HI Hm He. pose proof (fun p => entry_owner _ _ _ _ _ _ _ p HI Hm) as Hown.
  unfold removeFromPeerEntries. rewrite He. cbn [mbind option_bind perPeerElem tpeer entryOf].
  destruct q as [p|]; cbn [mbind option_bind].
  2: { exists st. split; [done|]. split; [by rewrite He|]. split; [done|]. split; [done|].
       intros p. symmetry. apply filter_id. intros n Hn ->. by apply Hown in Hn. }
  rewrite Nat.eqb_refl. eexists. split; [reflexivity|]. cbn [heap setNode setHeap setEntries].
  split; [by rewrite lookup_insert_eq|]. split; [intros; by rewrite lookup_insert_ne|].
  split; [by intros []|]. intros p'.
  change (entriesOf (setNode ?s ?n ?e) p') with (entriesOf s p').
  rewrite entriesOf_setEntries. destruct (decide (p' = p)) as [->|Hne]; [done|].
  symmetry. apply filter_id. intros n Hn ->. apply Hown in Hn. congruence.
Qed.

Lemma place_in v st t a c k sub exact n :
  place v st t a c k sub exact -> n ∈ ids sub \/ n ∈ cids k <-> n ∈ ids t.
Proof. intros HP. rewrite <- (place_plug HP), ids_plug, elem_of_app. done. Qed.

Lemma insert_exact_inv v st T a c k m q y l r peer :
  inv st T -> place v st (T v) a c k (TNode m q c y l r) true -> 0 <= c <= famBits v ->
  0 <= a < 2 ^ famBits v ->
  exists st', (st1 ← removeFromPeerEntries st m;
               st2 ← modNode st1 m (fun e => withPeer e (Some peer));
               addToPeerEntries st2 m) = Some st' /\
    inv st' (updTree T v (plug k (TNode m (Some peer) c y l r))).
Proof.
  intros HI HP Hc Ha. pose proof (place_rep HP) as (s & p & Hk & Hp & p0 & p1 & He & Hl & Hr).
  assert (Hm : tnode (T v) m q c y) by (rewrite <- (place_plug HP); apply tnode_plug; left; cbn; auto).
  destruct (removeFromPeerEntries_spec st T v m s q p0 p1 c y HI Hm He) as (st1 & -> & Hm1 & Hf1 & Hr1 & He1).
  cbn [mbind option_bind]. rewrite (modNode_eq _ _ _ _ Hm1). cbn [mbind option_bind].
  unfold addToPeerEntries. cbn [heap setNode setHeap]. rewrite lookup_insert_eq. cbn [mbind option_bind tpeer withPeer].
  eexists. split; [reflexivity|]. set (st' := setNode _ m _).
  assert (Hm' : heap st' !! m = Some (entryOf v s (Some peer) p0 p1 c y))
    by (unfold st'; cbn; by rewrite lookup_insert_eq).
  assert (Hf' : forall n, n <> m -> heap st' !! n = heap st !! n).
  { intros n Hn. unfold st'. cbn. rewrite !lookup_insert_ne by done. by apply Hf1. }
  assert (Hent : forall p', entriesOf st' p' =
     if decide (p' = peer) then filter (fun n => n <> m) (entriesOf st peer) ++ [m]
     else filter (fun n => n <> m) (entriesOf st p')).
  { intros p'. rewrite <- !He1.
    exact (entriesOf_setEntries st1 peer (entriesOf st1 peer ++ [m]) p'). }
  assert (Hroot : forall w, rootOf st' w = rootOf st w) by (intros w; rewrite <- Hr1; by destruct w).
  clearbody st'. pose proof (place_nodup HP) as Hnd. cbn [ids] in Hnd.
  apply NoDup_app in Hnd as (Hnt & Hdis & Hnk). apply NoDup_cons in Hnt as [Hmlr Hlr].
  assert (Hids : ids (plug k (TNode m (Some peer) c y l r)) ≡ₚ ids (T v))
    by (rewrite <- (place_plug HP), !ids_plug; done).
  assert (HmT : m ∈ ids (T v)) by (by eapply tnode_in_ids).
  apply (inv_step st st' T v _ (fun n => n = m) HI).
  - split; [|done|apply Hroot]. apply rep_plug. exists s, p. split.
    + apply (rootPath_frame v st); [done|apply Hroot|]. intros n Hn. apply Hf'. intros ->. set_solver.
    + split; [done|]. exists p0, p1. split; [done|].
      split; (eapply rep_frame; [|done]); intros n Hn; apply Hf'; intros ->; set_solver.
  - destruct (place_wf HP) as (_ & Hy & _).
    destruct (commonBits_spec v (Z.shiftl y (famBits v - c)) a) as (K & _ & HKr & Hj);
      [by apply shiftl_range|done|].
    exact (insertSub_plug_wf v st (T v) a c K m m peer k _ true HP Hc Ha (conj HKr Hj)).
  - intros n ->. by left.
  - rewrite Hids. apply (inv_nodup _ _ HI).
  - intros n Hn. left. by rewrite <- Hids.
  - intros p'. rewrite Hent. pose proof (inv_list _ _ HI p').
    destruct (decide (p' = peer)) as [->|]; [|by apply NoDup_filter].
    apply NoDup_app. split; [by apply NoDup_filter|]. split; [|apply NoDup_singleton].
    intros n [Hn _]%list_elem_of_filter Hn'. set_solver.
  - intros p' n. rewrite Hent. pose proof (inv_entries_split st T v p' n HI) as Hs.
    assert (E : (exists c' x', tnode (plug k (TNode m (Some peer) c y l r)) n (Some p') c' x') <->
      ((exists c' x', tnode (T v) n (Some p') c' x') /\ n <> m) \/ (n = m /\ p' = peer)).
    { setoid_rewrite (insertSub_exact_entries (famBits v) a c 0 m m peer k m q c y l r n p').
      - rewrite (place_plug HP). naive_solver.
      - rewrite (place_plug HP). apply (inv_nodup _ _ HI). }
    rewrite E. pose proof (inv_disjoint _ _ HI v m HmT) as Hmd.
    assert (Hno : forall c' x', tnode (T (negb v)) n (Some p') c' x' -> n <> m)
      by (intros c' x' H%tnode_in_ids ->; done).
    destruct (decide (p' = peer)) as [->|]; rewrite ?elem_of_app, list_elem_of_filter, Hs;
      rewrite ?list_elem_of_singleton; naive_solver.
Qed.

(** The tree [t'] maps the prefix of [a] to [peer] and is otherwise [t]. *)
Definition inserted (v : bool) (t t' : tree) (a c : Z) (peer : nat) : Prop :=
  forall M M' : Z * Z -> option nat, map_of t M ->
    (forall key, M' key = if decide (key = (c, top (famBits v) c a)) then Some peer else M key) ->
    map_of t' M'.

Lemma insertSub_inserted v st t a c K n1 n2 peer k sub exact :
  place v st t a c k sub exact -> 0 <= c <= famBits v -> 0 <= a < 2 ^ famBits v ->
  common_prefix (famBits v) a K sub ->
  inserted v t (plug k (insertSub (famBits v) a c K n1 n2 peer sub exact)) a c peer.
Proof.
  intros HP Hc Ha Hcom M M' HM HM'.
  apply (map_of_insert (famBits v) k sub a c K n1 n2 peer exact M M'); [|exact (place_stop HP)| |done].
  - by apply (insertSub_plug_wf v st t a c K n1 n2 peer k sub exact).
  - by rewrite (place_plug HP).
Qed.

(** The table once the entry of the new prefix is allocated. *)
Definition allocated (v : bool) (st : AllowedIPs) (par : parentIndirection) (n peer : nat) (c a : Z) : AllowedIPs :=
  setNode (setEntries st peer (entriesOf st peer ++ [n])) n
    (withParent (entryOf v (RootSlot v) (Some peer) None None c (top (famBits v) c a)) par).

Section Allocated.
Context (v : bool) (st : AllowedIPs) (T : bool -> tree) (a c : Z) (k : list frame) (n peer : nat).
Context (HI : inv st T) (Hc : 0 <= c <= famBits v) (Ha : 0 <= a < 2 ^ famBits v).
Context (Hn : heap st !! n = None).

#[local] Abbreviation st1 par := (allocated v st par n peer c a).

Lemma allocated_frame par m : m <> n -> heap (st1 par) !! m = heap st !! m.
Proof. intros. cbn. by rewrite lookup_insert_ne. Qed.

Lemma allocated_root par w : rootOf (st1 par) w = rootOf st w.
Proof. by destruct w. Qed.

Lemma allocated_new par : isNew v (st1 par) n (Some peer) c a.
Proof. exists par. cbn. by rewrite lookup_insert_eq. Qed.

Lemma allocated_path par s p sub exact : place v st (T v) a c k sub exact ->
  rootPath v st k s p -> rep v (heap st) s p sub ->
  rootPath v (st1 par) k s p /\ rep v (heap (st1 par)) s p sub /\ NoDup (n :: ids sub ++ cids k).
Proof.
  intros HP Hk Hr.
  assert (Hold : forall m, m ∈ ids sub \/ m ∈ cids k -> m <> n).
  { intros m Hm ->. apply (place_in _ _ _ _ _ _ _ _ _ HP) in Hm.
    apply (inv_heap _ _ _ _ HI) in Hm as [e He]. congruence. }
  split; [|split].
  - apply (rootPath_frame v st); [done|apply allocated_root|].
    intros m Hm. apply allocated_frame. auto.
  - eapply rep_frame; [|done]. intros m Hm. apply allocated_frame. auto.
  - apply NoDup_cons. split; [|exact (place_nodup HP)].
    intros [H|H]%elem_of_app; by apply (Hold n); auto.
Qed.

(** The walk ended at an empty child. *)
Lemma insert_leaf_inv s :
  place v st (T v) a c k Leaf false -> rootPath v st k s None ->
  exists st', hook (st1 noParent) n s = Some st' /\
    exists t', inv st' (updTree T v t') /\ inserted v (T v) t' a c peer.
Proof.
  intros HP Hk. destruct (allocated_path noParent s None Leaf false HP Hk eq_refl) as (Hk1 & _ & Hnd).
  set (n2 := fresh (dom (<[n := newEntry None noParent (mkIP 4 0) 0]> (heap st)))).
  assert (Hn2 : heap st !! n2 = None /\ n <> n2).
  { pose proof (fresh_notin (<[n := newEntry None noParent (mkIP 4 0) 0]> (heap st))) as H. fold n2 in H.
    rewrite lookup_insert in H. by destruct (decide (n = n2)). }
  destruct (hook_stepped v st (st1 noParent) k s None n (TNode n (Some peer) c (top (famBits v) c a) Leaf Leaf)
    (fun m => m = n \/ m = n2 \/ m ∈ ids (T v))) as (st' & E & Hst & Hen).
  - done.
  - apply isNew_detached. apply allocated_new.
  - exact Hnd.
  - intros m Hm. apply allocated_frame. tauto.
  - apply allocated_root.
  - by left.
  - intros m Hm%headId_in. right. right. apply (place_in _ _ _ _ _ _ _ _ m HP). by right.
  - exists st'. split; [done|]. eexists. split.
    + apply (inv_insert_new v st st' T a c 0 n n2 peer k Leaf HI HP Hc Ha I Hn); tauto.
    + by apply (insertSub_inserted v st (T v) a c 0 n n2 peer k Leaf false).
Qed.

(** The walk ended at a node. *)
Lemma insertOver_inv s down q d y l r :
  masked (famBits v) c a = a ->
  place v st (T v) a c k (TNode down q d y l r) false -> rootPath v st k s (Some down) ->
  rep v (heap st) s (Some down) (TNode down q d y l r) ->
  exists st', insertOver (st1 noParent) (slotParent (RootSlot v)) (headId k) n down (mkIP (famLen v) a) c
                = Some st' /\
    exists t', inv st' (updTree T v t') /\ inserted v (T v) t' a c peer.
Proof.
  intros Hm HP Hk Hr. destruct (allocated_path noParent s _ _ false HP Hk Hr) as (Hk1 & Hr1 & Hnd).
  assert (Hold : forall m, m ∈ ids (TNode down q d y l r) \/ m ∈ cids k -> m ∈ ids (T v))
    by (intros m; apply (place_in _ _ _ _ _ _ _ _ m HP)).
  destruct (insertOver_spec v k s down n peer c a q d y l r Hc Ha Hm (place_path HP) (place_wfk HP)
    (place_wf HP) (place_stop HP) Hnd (st1 noParent) Hk1 Hr1 (allocated_new noParent))
    as (st' & K & n2 & E & Hcom & Hn2 & Hst & Hen).
  { intros m Hm'. assert (is_Some (heap st !! m)) as [e He]
      by (apply (inv_heap _ _ v _ HI); auto).
    rewrite allocated_frame; [eauto|]. intros ->. congruence. }
  assert (Hne : n <> n2).
  { intros <-. destruct (allocated_new noParent) as [par H]. congruence. }
  rewrite allocated_frame in Hn2 by done.
  exists st'. split; [done|]. eexists. split.
  - apply (inv_insert_new v st st' T a c K n n2 peer k _ HI HP Hc Ha Hcom Hn Hn2 Hne); [|done].
    eapply stepped_weaken; [exact Hst| | |apply allocated_root].
    + intros m [->|[->|[->|H%headId_in]]]; [tauto|tauto|right; right..]; apply Hold; [left; set_solver|auto].
    + intros m Hx. apply allocated_frame. tauto.
  - by apply (insertSub_inserted v st (T v) a c K n n2 peer k _ false).
Qed.
End Allocated.

Lemma inserted_masked v t t' a c peer : 0 <= c <= famBits v ->
  inserted v t t' (masked (famBits v) c a) c peer -> inserted v t t' a c peer.
Proof. intros Hc H M M' HM HM'. apply (H M M' HM). intros key. rewrite top_masked by lia. apply HM'. Qed.

Lemma readSlot_root st v : readSlot st (RootSlot v) = Some (rootOf st v).
Proof. by destruct v. Qed.

Lemma allocEntry_allocated v st peer par c a :
  0 <= c <= famBits v -> 0 <= a < 2 ^ famBits v ->
  let n := fresh (dom (heap st)) in
  allocEntry st peer par (mkIP (famLen v) a) c = Some (n, allocated v st par n peer c (masked (famBits v) c a)).
Proof. intros Hc Ha n. rewrite (allocEntry_spec v) by done. unfold allocated. by rewrite top_masked by lia. Qed.

Lemma insert_spec v st T a c peer :
  inv st T -> 0 <= c <= famBits v -> 0 <= a < 2 ^ famBits v ->
  exists st', insert st (slotParent (RootSlot v)) (mkIP (famLen v) a) c peer = Some st' /\
    exists t', inv st' (updTree T v t') /\ inserted v (T v) t' a c peer.
Proof.
  intros HI Hc Ha. pose proof (masked_range _ c a Ha Hc) as Ham. pose proof (masked_masked _ c a Hc) as Hmm.
  set (n := fresh (dom (heap st))). pose proof (fresh_notin (heap st)) as Hn. fold n in Hn.
  unfold insert. cbn [parentBit slotParent mbind option_bind]. rewrite readSlot_root. cbn [mbind option_bind].
  destruct (rootOf st v) as [root|] eqn:Eroot.
  - rewrite <- Eroot, (nodePlacement_tplace v st (T v)) by (done || apply HI).
    destruct (tplace (famBits v) (T v) a c []) as [[k sub] exact] eqn:Epl.
    pose proof (place_intro v st T a c k sub exact HI Hc Ha Epl) as HP.
    cbn [mbind option_bind placeResult]. destruct exact.
    + pose proof (place_stop HP) as Hs. destruct sub as [|m q d y l r]; [done|]. destruct Hs as [-> _].
      cbn [mbind option_bind].
      destruct (insert_exact_inv v st T _ c k m q y l r peer HI HP Hc Ham) as (st' & -> & Hinv).
      exists st'. split; [done|]. eexists. split; [exact Hinv|]. apply inserted_masked; [done|].
      destruct (place_wf HP) as (_ & Hy & _).
      destruct (commonBits_spec v (Z.shiftl y (famBits v - c)) (masked (famBits v) c a)) as (K & _ & HKr & Hj);
        [by apply shiftl_range|done|].
      exact (insertSub_inserted v st (T v) _ c K m m peer k _ true HP Hc Ham (conj HKr Hj)).
    + rewrite (allocEntry_allocated v) by done. fold n. cbn [mbind option_bind].
      destruct (allocated_new v st (masked (famBits v) c a) c n peer noParent) as [par Hen].
      rewrite Hen. cbn [mbind option_bind tbits withParent entryOf].
      fold (masked (famBits v) c (masked (famBits v) c a)). rewrite Hmm.
      destruct (place_rep HP) as (s & p & Hk & Hr).
      destruct (allocated_path v st T _ c k n peer HI Hn noParent s p sub false HP Hk Hr) as (Hk1 & _ & _).
      destruct k as [|f k]; cbn [headId head fmap option_fmap option_map].
      * destruct Hk as [-> ->]. rewrite Eroot in *. cbn [mbind option_bind].
        destruct sub as [|m q d y l r]; [done|]. pose proof Hr as [[= <-] _].
        destruct (insertOver_inv v st T _ c [] n peer HI Hc Ham Hn (RootSlot v) root q d y l r Hmm HP)
          as (st' & E & t' & Hinv & Hins); [by split|done|].
        exists st'. split; [exact E|]. exists t'. split; [done|]. by apply inserted_masked.
      * pose proof Hk1 as (-> & s' & p0 & p1 & Hf & Hp & _). rewrite Hf. cbn [mbind option_bind].
        destruct (place_wfk HP) as [(_ & Hfx & _) _].
        pose proof (place_path HP) as Hon. inversion Hon as [|? ? (Hf1 & _ & Hf3) _]; subst.
        assert (0 <= fc f).
        { destruct (decide (0 <= fc f)); [done|]. rewrite Z.pow_neg_r in Hfx by lia. lia. }
        rewrite choose_entry by lia. cbn [mbind option_bind]. rewrite <- Hf3, child_b2z.
        cbn [child0 child1 entryOf].
        destruct sub as [|m q d y l r].
        -- assert (Hnone : (if fbit f then p1 else p0) = None) by exact Hr.
           rewrite Hnone in *.
           destruct (insert_leaf_inv v st T _ c (f :: k) n peer HI Hc Ham Hn _ HP Hk)
             as (st' & E & t' & Hinv & Hins).
           exists st'. split; [exact E|]. exists t'. split; [done|]. by apply inserted_masked.
        -- pose proof Hr as [Hsome _]. rewrite Hsome in *.
           destruct (insertOver_inv v st T _ c (f :: k) n peer HI Hc Ham Hn _ m q d y l r Hmm HP Hk Hr)
             as (st' & E & t' & Hinv & Hins).
           exists st'. split; [exact E|]. exists t'. split; [done|]. by apply inserted_masked.
  - rewrite (allocEntry_allocated v) by done. fold n. cbn [mbind option_bind].
    pose proof (inv_rep _ _ HI v) as Hr. rewrite Eroot in Hr.
    assert (ET : T v = Leaf) by (destruct (T v); [done|by destruct Hr]).
    assert (HP : place v st (T v) (masked (famBits v) c a) c [] Leaf false)
      by (apply (place_intro v st T a c [] Leaf false HI Hc Ha); by rewrite ET).
    destruct (insert_leaf_inv v st T _ c [] n peer HI Hc Ham Hn (RootSlot v) HP (conj eq_refl (eq_sym Eroot)))
      as (st' & E & t' & Hinv & Hins).
    exists st'. split; [|exists t'; split; [done|by apply inserted_masked]].
    rewrite <- E. unfold hook, allocated.
    erewrite modNode_eq by (cbn; apply lookup_insert_eq). cbn [mbind option_bind].
    unfold setNode, setHeap. cbn. by rewrite insert_insert_eq.
Qed.
