(* ===== verification/AllowedIPsRemove.v ===== *)
(** * [remove] refines removal from a prefix tree *)

From stdpp Require Import base numbers list gmap.
From Stdlib Require Import ZArith Lia.
From S2P Require Import Prelude AllowedIPs PrefixTree AllowedIPsRep AllowedIPsStep AllowedIPsInsert AllowedIPsTable.

(** A subtree (or nothing) takes the place a path ends in. *)
Lemma promote_spec v st0 st k s s0 p pk tk (touched : nat -> Prop) :
  rootPath v st k s p -> rep v (heap st) s0 pk tk -> NoDup (ids tk ++ cids k) ->
  (forall m, ~ touched m -> heap st !! m = heap st0 !! m) ->
  rootOf st (negb v) = rootOf st0 (negb v) ->
  (forall m, m ∈ ids tk \/ m ∈ cids k -> touched m) ->
  exists st', (st1 ← reparent st pk (slotParent s); writeSlot st1 s pk) = Some st' /\
    stepped v st0 st' (plug k tk) touched /\ trieEntries st' = trieEntries st /\
    (forall m, pk <> Some m -> headId k <> Some m -> heap st' !! m = heap st !! m) /\
    (pk = None -> rootPath v st' k s None).
Proof.
  intros Hk Hr Hnd Hf Hro Ht. destruct pk as [kid|]; cbn [reparent].
  - assert (Hd : detached v (heap st) kid tk) by (by eapply rep_detached).
    destruct (hook_stepped v st0 st k s p kid tk touched) as (st' & E & Hst & Hen); auto.
    { apply Ht. left. by eapply detached_in. }
    { intros m Hm%headId_in. auto. }
    destruct (hook_spec v st k s p kid tk Hk Hd Hnd) as (st'' & E' & Hrep & Hfr & _).
    rewrite E in E'. injection E' as <-. exists st'. split; [exact E|]. split; [done|]. split; [done|].
    split; [|done]. intros m H1 H2. apply Hfr; congruence.
  - destruct tk as [|]; [|by destruct Hr]. cbn [mbind option_bind].
    destruct (writeSlot_ctx v st k s p None Hk) as (st' & -> & Hk' & Hfr & Hroot & Hen);
      [by apply NoDup_app in Hnd as (_ & _ & ?)|].
    exists st'. split; [done|]. split; [split|split; [done|split; [|done]]].
    + apply rep_plug. by exists s, None.
    + intros m Hm. rewrite Hfr; [by apply Hf|]. intros E%headId_in. auto.
    + congruence.
    + intros m _ H2. by apply Hfr.
Qed.

Lemma zeroize_spec v st0 st t' n touched :
  stepped v st0 st t' touched -> touched n -> n ∉ ids t' -> is_Some (heap st !! n) ->
  exists st', zeroizePointers st n = Some st' /\ stepped v st0 st' t' touched /\
    trieEntries st' = trieEntries st /\ (forall m, m <> n -> heap st' !! m = heap st !! m).
Proof.
  intros [Hrep Hf Hro] Ht Hn [e He]. unfold zeroizePointers. rewrite (modNode_eq _ _ _ _ He).
  eexists. split; [reflexivity|].
  assert (Hfr : forall e' m, m <> n -> heap (setNode st n e') !! m = heap st !! m)
    by (intros e' m Hm; cbn; by rewrite lookup_insert_ne).
  split; [|split; [done|apply Hfr]]. split.
  - rewrite root_setNode. eapply rep_frame; [|done]. intros m Hm. apply Hfr. intros ->. done.
  - intros m Hm. rewrite Hfr; [by apply Hf|]. intros ->. done.
  - by rewrite root_setNode.
Qed.

(** The tree [t'] has no peer for the prefix [(c, x)] and is otherwise [t]. *)
Definition removed (t t' : tree) (c x : Z) : Prop :=
  forall M M' : Z * Z -> option nat, map_of t M ->
    (forall key, M' key = if decide (key = (c, x)) then None else M key) -> map_of t' M'.

Lemma removeAt_removed W k m p c x l r :
  let t := plug k (TNode m (Some p) c x l r) in
  NoDup (ids t) -> wf W 0 0 t -> removed t (removeAt k m c x l r) c x.
Proof.
  intros t Hnd Hwf M M' HM HM' c' x' p'. rewrite HM'.
  assert (Hm : tnode t m (Some p) c x) by (apply tnode_plug; left; cbn; auto).
  destruct (decide ((c', x') = (c, x))) as [E|E].
  - injection E as -> ->. split; [done|]. intros [n Hn].
    apply (removeAt_tnode k m p c x l r) in Hn as [Hn Hne]; [|done].
    by destruct (prefix_unique W 0 0 _ _ _ _ _ _ _ ltac:(lia) Hwf Hn Hm).
  - rewrite (HM c' x' p'). split; intros [n Hn]; exists n.
    + apply (removeAt_tnode k m p c x l r); [done|]. split; [done|]. intros ->.
      destruct (tnode_unique _ _ _ _ _ _ _ _ Hnd Hn Hm) as (_ & -> & ->). done.
    + by apply (removeAt_tnode k m p c x l r) in Hn as [Hn _].
Qed.

(** What the lists become once the node is gone. *)
Lemma inv_removed v st st' T k m p c x l r :
  inv st T -> T v = plug k (TNode m (Some p) c x l r) ->
  stepped v st st' (removeAt k m c x l r) (fun n => n ∈ ids (T v)) ->
  (forall p', entriesOf st' p' = filter (fun n => n <> m) (entriesOf st p')) ->
  inv st' (updTree T v (removeAt k m c x l r)).
Proof.
  intros HI HT Hst Hent.
  pose proof (inv_nodup _ _ HI v) as Hnd. pose proof (inv_wf _ _ HI v) as Hwf.
  destruct (removeAt_ids k m (Some p) c x l r) as [rest Hids]. rewrite <- HT in Hids.
  assert (Hm : m ∈ ids (T v)).
  { rewrite HT. apply (tnode_in_ids _ m (Some p) c x). apply tnode_plug. left. cbn. auto. }
  apply (inv_step st st' T v _ _ HI Hst).
  - apply (removeAt_wf _ k m p). by rewrite <- HT.
  - intros n Hn. by left.
  - rewrite Hids in Hnd. by apply NoDup_app in Hnd as (? & _).
  - intros n Hn. left. rewrite Hids. set_solver.
  - intros p'. rewrite Hent. apply NoDup_filter. apply (inv_list _ _ HI).
  - intros p' n. rewrite Hent, list_elem_of_filter, (inv_entries_split st T v p' n HI).
    rewrite HT in Hnd.
    setoid_rewrite (removeAt_tnode k m p c x l r n p' _ _ Hnd). rewrite <- HT.
    assert (Hno : forall c' x', tnode (T (negb v)) n (Some p') c' x' -> n <> m).
    { intros c' x' H%tnode_in_ids ->. by apply (inv_disjoint _ _ HI v m). }
    naive_solver.
Qed.

Section Remove.
Context (v : bool) (st : AllowedIPs) (T : bool -> tree) (k : list frame) (m p : nat) (c x : Z) (l r : tree).
Context (HI : inv st T) (HT : T v = plug k (TNode m (Some p) c x l r)).

#[local] Abbreviation touched := (fun n => n ∈ ids (T v)).

Lemma remove_ids : NoDup (m :: ids l ++ ids r ++ cids k) /\
  forall n, n = m \/ n ∈ ids l \/ n ∈ ids r \/ n ∈ cids k <-> n ∈ ids (T v).
Proof.
  pose proof (inv_nodup _ _ HI v) as Hnd. rewrite HT in Hnd. split.
  - apply plug_nodup in Hnd. cbn [ids app] in Hnd. by rewrite <- app_assoc in Hnd.
  - intros n. rewrite HT, ids_plug. cbn [ids]. set_solver.
Qed.

(** The store once the node is off its list and has no peer. *)
Record unlinked (st2 : AllowedIPs) (s : slotRef) (p0 p1 : option nat) : Prop := {
  unlinked_node : heap st2 !! m = Some (entryOf v s None p0 p1 c x);
  unlinked_frame : forall n, n <> m -> heap st2 !! n = heap st !! n;
  unlinked_root : forall w, rootOf st2 w = rootOf st w;
  unlinked_entries : forall p', entriesOf st2 p' = filter (fun n => n <> m) (entriesOf st p');
  unlinked_path : rootPath v st2 k s (Some m);
  unlinked_l : rep v (heap st2) (ChildSlot m 0) p0 l;
  unlinked_r : rep v (heap st2) (ChildSlot m 1) p1 r
}.

Lemma unlink_spec : exists st2 s p0 p1,
  (st1 ← removeFromPeerEntries st m; modNode st1 m (fun e => withPeer e None)) = Some st2 /\
  unlinked st2 s p0 p1.
Proof.
  pose proof (inv_rep _ _ HI v) as Hrep. rewrite HT in Hrep.
  apply rep_plug in Hrep as (s & p' & Hk & -> & p0 & p1 & He & Hl & Hr).
  assert (Hm : tnode (T v) m (Some p) c x) by (rewrite HT; apply tnode_plug; left; cbn; auto).
  destruct (removeFromPeerEntries_spec st T v m s _ p0 p1 c x HI Hm He) as (st1 & -> & Hm1 & Hf1 & Hr1 & He1).
  cbn [mbind option_bind]. rewrite (modNode_eq _ _ _ _ Hm1). eexists _, s, p0, p1. split; [reflexivity|].
  destruct remove_ids as [Hnd _]. apply NoDup_cons in Hnd as [Hni _].
  set (st2 := setNode st1 m _).
  assert (Hf : forall n, n <> m -> heap st2 !! n = heap st !! n)
    by (intros n Hn; unfold st2; cbn; rewrite lookup_insert_ne by done; by apply Hf1).
  assert (Hr2 : forall w, rootOf st2 w = rootOf st w) by (intros w; unfold st2; by rewrite root_setNode).
  split; [unfold st2; cbn; by rewrite lookup_insert_eq|done|done|apply He1| | |].
  - apply (rootPath_frame v st); [done|done|]. intros n Hn. apply Hf. intros ->. set_solver.
  - eapply rep_frame; [|done]. intros n Hn. apply Hf. intros ->. set_solver.
  - eapply rep_frame; [|done]. intros n Hn. apply Hf. intros ->. set_solver.
Qed.

(** The rest of [remove], for a node with at most one child: [kid]. *)
Definition removeRest (st2 : AllowedIPs) (par : parentIndirection) (kid : option nat) : option AllowedIPs :=
  st3 ← reparent st2 kid par;
  rs ← parentBit par;
  st4 ← writeSlot st3 rs kid;
  let pt := parentBitType par in
  if bool_decide (kid <> None) || (1 <? pt) then zeroizePointers st4 m
  else
    p ← slotOwner rs;
    ep ← heap st4 !! p;
    match tpeer ep with
    | Some _ => zeroizePointers st4 m
    | None =>
        let sib := child ep (Z.lxor pt 1) in
        st5 ← reparent st4 sib (tparent ep);
        prs ← parentBit (tparent ep);
        st6 ← writeSlot st5 prs sib;
        st7 ← zeroizePointers st6 m;
        zeroizePointers st7 p
    end.

Lemma removeRest_eq st2 s p0 p1 :
  (st1 ← removeFromPeerEntries st m; modNode st1 m (fun e => withPeer e None)) = Some st2 ->
  unlinked st2 s p0 p1 ->
  remove st m = match p0, p1 with
                | Some _, Some _ => Some st2
                | _, _ => removeRest st2 (slotParent s) (match p0 with None => p1 | _ => p0 end)
                end.
Proof.
  intros E HU. unfold remove. destruct (removeFromPeerEntries st m) as [st1|]; [|done].
  cbn [mbind option_bind] in E |- *. rewrite E. cbn [mbind option_bind].
  rewrite (unlinked_node _ _ _ _ HU). cbn [mbind option_bind child0 child1 entryOf tparent].
  by destruct p0, p1.
Qed.

(** The node had at most one child, which takes its place. *)
Lemma removeRest_kid st2 s p0 p1 s0 kid tk :
  unlinked st2 s p0 p1 -> rep v (heap st2) s0 kid tk -> (forall n, n ∈ ids tk -> n ∈ ids l ++ ids r) ->
  NoDup (ids tk) ->
  (kid <> None \/ k = [] \/ exists f k' q, k = f :: k' /\ fpeer f = Some q) ->
  exists st', removeRest st2 (slotParent s) kid = Some st' /\
    stepped v st st' (plug k tk) touched /\ trieEntries st' = trieEntries st2.
Proof.
  intros HU Hr Hsub Hndt Hcase. destruct remove_ids as [Hnd Hids].
  apply NoDup_cons in Hnd as [Hm Hnd]. rewrite app_assoc in Hnd, Hm.
  apply NoDup_app in Hnd as (Hlr & Hdis & Hndk).
  destruct (promote_spec v st st2 k s s0 (Some m) kid tk touched (unlinked_path _ _ _ _ HU) Hr)
    as (st4 & E & Hst & Hen & Hfr & Hk4).
  - apply NoDup_app. split; [done|]. split; [|done]. intros n Hn. apply Hdis. auto.
  - intros n Hn. apply (unlinked_frame _ _ _ _ HU). intros ->. apply Hn. apply Hids. auto.
  - by rewrite (unlinked_root _ _ _ _ HU).
  - intros n [Hn|Hn]; apply Hids; [apply Hsub in Hn; set_solver|auto].
  - assert (Hm4 : is_Some (heap st4 !! m)).
    { rewrite Hfr; [by rewrite (unlinked_node _ _ _ _ HU)| |].
      - intros ->. destruct tk; [done|]. destruct Hr as [[= <-] _]. apply Hm. set_solver.
      - intros Hh%headId_in. set_solver. }
    assert (Hmt : m ∉ ids (plug k tk)).
    { rewrite ids_plug. intros [Hn%Hsub|Hn]%elem_of_app; apply Hm; set_solver. }
    destruct (zeroize_spec v st st4 _ m touched Hst) as (st' & Ez & Hst' & Hen' & _); [by apply Hids; left|done|done|].
    exists st'. split; [|split; [done|congruence]].
    assert (E' : removeRest st2 (slotParent s) kid = zeroizePointers st4 m); [|by rewrite E'].
    unfold removeRest. destruct (reparent st2 kid (slotParent s)) as [st3|]; [|done].
    cbn [mbind option_bind parentBit slotParent parentBitType] in E |- *. rewrite E. cbn [mbind option_bind].
    destruct kid as [kid|]; [done|]. destruct Hcase as [?|[Ek|(f & k' & q & Ek & Hq)]]; [done| |].
    + pose proof (unlinked_path _ _ _ _ HU) as Hs. rewrite Ek in Hs. by destruct Hs as [-> _].
    + specialize (Hk4 eq_refl). rewrite Ek in Hk4. destruct Hk4 as (-> & s' & f0 & f1 & Hf & _).
      cbn [slotOwner slotType mbind option_bind]. rewrite Hf. cbn [mbind option_bind tpeer entryOf]. rewrite Hq.
      by destruct (fbit f).
Qed.

(** The node was a leaf under a branch node, which goes too. *)
Lemma removeRest_branch st2 s p0 p1 f k' :
  unlinked st2 s p0 p1 -> k = f :: k' -> fpeer f = None ->
  exists st', removeRest st2 (slotParent s) None = Some st' /\
    stepped v st st' (plug k' (fsib f)) touched /\ trieEntries st' = trieEntries st2.
Proof.
  intros HU Ek Hq. destruct remove_ids as [Hnd Hids].
  apply NoDup_cons in Hnd as [Hm Hnd]. rewrite app_assoc in Hnd, Hm.
  apply NoDup_app in Hnd as (_ & _ & Hndk). pose proof Hndk as Hndk'.
  rewrite Ek in Hndk'. cbn [cids] in Hndk'. apply NoDup_cons in Hndk' as [Hfid Hndk'].
  assert (Hck : forall n, n ∈ fid f :: ids (fsib f) ++ cids k' -> n ∈ cids k) by (intros n; by rewrite Ek).
  assert (Hmk : m ∉ cids k) by (intros Hx; apply Hm; set_solver).
  destruct (promote_spec v st st2 k s (ChildSlot m 0) (Some m) None Leaf touched (unlinked_path _ _ _ _ HU))
    as (st4 & E & Hst & Hen & Hfr & Hk4); [done| | | | |].
  - done.
  - intros n Hn. apply (unlinked_frame _ _ _ _ HU). intros ->. apply Hn. apply Hids. auto.
  - by rewrite (unlinked_root _ _ _ _ HU).
  - intros n [Hn|Hn]; apply Hids; [set_solver|auto].
  - specialize (Hk4 eq_refl). rewrite Ek in Hk4. destruct Hk4 as (-> & s' & f0 & f1 & Hf & Hnone & Hsib & Hk').
    destruct (promote_spec v st st4 k' s' (ChildSlot (fid f) (Z.b2z (negb (fbit f)))) (Some (fid f))
      (if fbit f then f0 else f1) (fsib f) touched Hk' Hsib Hndk')
      as (st6 & E6 & Hst6 & Hen6 & Hfr6 & _).
    { apply Hst. }
    { apply Hst. }
    { intros n Hn. apply Hids. right; right; right. apply Hck. set_solver. }
    assert (Hno : forall n, n ∉ fid f :: ids (fsib f) ++ cids k' \/ n = fid f ->
      heap st6 !! n = heap st4 !! n).
    { intros n Hn. apply Hfr6.
      - intros Ep. assert (n ∈ ids (fsib f)); [|destruct Hn; set_solver].
        rewrite Ep in Hsib. apply rep_detached in Hsib. by eapply detached_in.
      - intros Ep%headId_in. destruct Hn; set_solver. }
    assert (Hm6 : is_Some (heap st6 !! m)).
    { rewrite Hno by (left; auto). rewrite Hfr; [by rewrite (unlinked_node _ _ _ _ HU)|done|].
      intros Hx%headId_in. done. }
    destruct (zeroize_spec v st st6 _ m touched Hst6) as (st7 & Ez & Hst7 & Hen7 & Hfr7);
      [by apply Hids; left|rewrite ids_plug; intros Hx; apply Hmk, Hck; set_solver|done|].
    assert (Hfm : fid f <> m) by (intros <-; apply Hmk, Hck; set_solver).
    destruct (zeroize_spec v st st7 _ (fid f) touched Hst7) as (st8 & Ez8 & Hst8 & Hen8 & _).
    { apply Hids. right; right; right. apply Hck. set_solver. }
    { rewrite ids_plug. done. }
    { rewrite Hfr7 by done. rewrite Hno by auto. by rewrite Hf. }
    exists st8. split; [|split; [done|congruence]].
    unfold removeRest. cbn [reparent mbind option_bind parentBit slotParent parentBitType slotType] in E |- *.
    rewrite E. cbn [mbind option_bind slotOwner]. rewrite bool_decide_eq_false_2 by tauto.
    replace (1 <? Z.b2z (fbit f)) with false by (by destruct (fbit f)). cbn [orb].
    rewrite Hf. cbn [mbind option_bind tpeer entryOf]. rewrite Hq. cbn [tparent].
    replace (child _ (Z.lxor (Z.b2z (fbit f)) 1)) with (if fbit f then f0 else f1) by (by destruct (fbit f)).
    destruct (reparent st4 (if fbit f then f0 else f1) _) as [st5|]; [|done].
    cbn [mbind option_bind parentBit slotParent tparent entryOf] in E6 |- *. rewrite E6. cbn [mbind option_bind].
    rewrite Ez. done.
Qed.
End Remove.

(** [remove] takes the prefix out of the table. *)
Lemma remove_spec v st T m p c x :
  inv st T -> tnode (T v) m (Some p) c x ->
  exists st', remove st m = Some st' /\
  (forall p', entriesOf st' p' = filter (fun n => n <> m) (entriesOf st p')) /\
  exists t', inv st' (updTree T v t') /\ removed (T v) t' c x.
Proof.
  intros HI Htn. destruct (tnode_split (T v) [] m (Some p) c x Htn) as (k & l & r & HT). cbn [plug] in HT.
  destruct (unlink_spec v st T k m p c x l r HI HT) as (st2 & s & p0 & p1 & E & HU).
  rewrite (removeRest_eq v st k m c x l r st2 s p0 p1 E HU).
  destruct (remove_ids v st T k m p c x l r HI HT) as [Hnd Hids].
  assert (Hfin : forall st', stepped v st st' (removeAt k m c x l r) (fun n => n ∈ ids (T v)) ->
    trieEntries st' = trieEntries st2 ->
    (forall p', entriesOf st' p' = filter (fun n => n <> m) (entriesOf st p')) /\
    exists t', inv st' (updTree T v t') /\ removed (T v) t' c x).
  { intros st' Hst Hen.
    assert (He : forall p', entriesOf st' p' = filter (fun n => n <> m) (entriesOf st p')).
    { intros p'. rewrite <- (unlinked_entries _ _ _ _ _ _ _ _ _ _ _ _ HU). unfold entriesOf. by rewrite Hen. }
    split; [done|]. exists (removeAt k m c x l r). split; [by apply (inv_removed v st st' T k m p)|].
    pose proof (inv_nodup _ _ HI v). pose proof (inv_wf _ _ HI v). rewrite HT in *.
    by apply (removeAt_removed (famBits v) k m p c x l r). }
  pose proof (unlinked_l _ _ _ _ _ _ _ _ _ _ _ _ HU) as Hl. pose proof (unlinked_r _ _ _ _ _ _ _ _ _ _ _ _ HU) as Hr.
  apply NoDup_cons in Hnd as [Hm (Hndl & Hdl & (Hndr & Hdr & Hndk)%NoDup_app)%NoDup_app].
  destruct l as [|nl ql cl xl ll rl] eqn:El, r as [|nr qr cr xr lr rr] eqn:Er.
  - rewrite Hl, Hr. cbn [removeAt] in Hfin. destruct k as [|f k'] eqn:Ek; [|destruct (fpeer f) as [q|] eqn:Eq].
    + destruct (removeRest_kid v st T _ m p c x _ _ HI HT st2 s p0 p1 (ChildSlot m 0) None Leaf HU) as (st' & E' & Hst & Hen);
        [done|done|constructor|by auto|]. exists st'. split; [done|]. by apply Hfin.
    + destruct (removeRest_kid v st T _ m p c x _ _ HI HT st2 s p0 p1 (ChildSlot m 0) None Leaf HU) as (st' & E' & Hst & Hen);
        [done|done|constructor|right; right; eauto|]. exists st'. split; [done|]. by apply Hfin.
    + destruct (removeRest_branch v st T _ m p c x _ _ HI HT st2 s p0 p1 f k' HU eq_refl Eq) as (st' & E' & Hst & Hen).
      exists st'. split; [done|]. by apply Hfin.
  - pose proof Hr as [-> _]. rewrite Hl.
    destruct (removeRest_kid v st T _ m p c x _ _ HI HT st2 s p0 (Some nr) (ChildSlot m 1) (Some nr) _ HU Hr) as (st' & E' & Hst & Hen);
      [set_solver|done|by left|]. exists st'. split; [by destruct p0|]. by apply Hfin.
  - pose proof Hl as [-> _]. rewrite Hr.
    destruct (removeRest_kid v st T _ m p c x _ _ HI HT st2 s (Some nl) p1 (ChildSlot m 0) (Some nl) _ HU Hl) as (st' & E' & Hst & Hen);
      [set_solver|done|by left|]. exists st'. split; [by destruct p1|]. by apply Hfin.
  - pose proof Hl as [-> _]. pose proof Hr as [-> _]. exists st2. split; [done|]. apply Hfin; [|done].
    cbn [removeAt]. split.
    + apply rep_plug. exists s, (Some m). split; [exact (unlinked_path _ _ _ _ _ _ _ _ _ _ _ _ HU)|]. split; [done|].
      exists (Some nl), (Some nr). split; [exact (unlinked_node _ _ _ _ _ _ _ _ _ _ _ _ HU)|done].
    + intros n Hn. apply (unlinked_frame _ _ _ _ _ _ _ _ _ _ _ _ HU). intros ->. apply Hn, Hids. by left.
    + by rewrite (unlinked_root _ _ _ _ _ _ _ _ _ _ _ _ HU).
Qed.
