(* ===== verification/AllowedIPsThm.v ===== *)
(** * The routing table is a map of prefixes with longest-prefix match

    The methods of [AllowedIPs] against their specification on a finite map of
    prefixes, from any table and for whole runs from the empty one. *)

From stdpp Require Import base numbers list gmap.
From Stdlib Require Import ZArith Lia.
From S2P Require Import Prelude AllowedIPs PrefixTree AllowedIPsRep AllowedIPsStep AllowedIPsInsert AllowedIPsTable AllowedIPsRemove.

(** The prefixes a caller can pass: an address of the family and a length. *)
Definition prefix_ok (v6 : bool) (a c : Z) : Prop := 0 <= c <= famBits v6 /\ 0 <= a < 2 ^ famBits v6.

#[global] Instance prefix_ok_dec v6 a c : Decision (prefix_ok v6 a c).
Proof. unfold prefix_ok. apply _. Defined.

Lemma emptyTable_inv : inv emptyTable (fun _ => Leaf).
Proof.
  split; try done.
  - by intros [].
  - intros; constructor.
  - intros; set_solver.
  - intros. constructor.
  - intros p n. unfold entriesOf. cbn. rewrite lookup_empty. cbn. split; [set_solver|].
    by intros (v & c & x & H).
Qed.

Lemma emptyTable_rel : table_rel emptyTable ∅.
Proof.
  exists (fun _ => Leaf). split; [apply emptyTable_inv|]. intros v c x p.
  rewrite lookup_empty. split; [done|]. by intros [n H].
Qed.

Lemma famLen_16 v : (famLen v =? 16) = v.
Proof. by destruct v. Qed.
Lemma famLen_4 v : (famLen v =? 4) = negb v.
Proof. by destruct v. Qed.
Lemma rootOf_eq st (v : bool) : (if v then IPv6 st else IPv4 st) = rootOf st v.
Proof. done. Qed.
Lemma u8_cidr v a c : prefix_ok v a c -> u8 c = c.
Proof. intros [Hc _]. pose proof (famBits_pos v). apply Z.mod_small. lia. Qed.

(** From a tree of one family to the map of the table. *)
Lemma rel_update (st st' : AllowedIPs) (R R' : Routes) (T : bool -> tree) (v : bool) t' :
  inv st T -> (forall w, map_of (T w) (fun cx => R !! (w, cx))) ->
  inv st' (updTree T v t') -> map_of t' (fun cx => R' !! (v, cx)) ->
  (forall cx, R' !! (negb v, cx) = R !! (negb v, cx)) -> table_rel st' R'.
Proof.
  intros HI HM HI' Ht' Hneg. exists (updTree T v t'). split; [done|].
  apply (two_fams _ v); rewrite ?updTree_eq, ?updTree_neg; [done|].
  intros c x p. rewrite Hneg. apply HM.
Qed.

Lemma table_insert st R v a c peer :
  table_rel st R -> prefix_ok v a c ->
  exists st', Insert st (prefixOf v a c) peer = Some st' /\ table_rel st' (<[keyOf v a c := peer]> R).
Proof.
  intros (T & HI & HM) Hok. pose proof Hok as [Hc Ha].
  destruct (insert_spec v st T a c peer HI Hc Ha) as (st' & E & t' & HI' & Hins).
  exists st'. split.
  - unfold Insert, prefixOf. cbn [pAddr pBits ipLen]. rewrite (u8_cidr v a c Hok), famLen_16, famLen_4.
    rewrite <- E. by destruct v.
  - apply (rel_update st st' R _ T v t' HI HM HI').
    + apply (Hins _ _ (HM v)). intros [d y]. unfold keyOf. rewrite lookup_insert.
      destruct (decide _) as [E1|E1], (decide _) as [E2|E2]; try done; congruence.
    + intros cx. rewrite lookup_insert_ne; [done|]. unfold keyOf. by destruct v.
Qed.

Lemma table_removed (st st' : AllowedIPs) (R : Routes) (T : bool -> tree) (v : bool) t' c x :
  inv st T -> (forall w, map_of (T w) (fun cx => R !! (w, cx))) -> inv st' (updTree T v t') ->
  removed (T v) t' c x -> table_rel st' (delete (v, (c, x)) R).
Proof.
  intros HI HM HI' Hrem. apply (rel_update st st' R _ T v t' HI HM HI').
  - apply (Hrem _ _ (HM v)). intros [d y]. rewrite lookup_delete.
    destruct (decide _) as [E1|E1], (decide _) as [E2|E2]; try done; congruence.
  - intros cx. rewrite lookup_delete_ne; [done|]. by destruct v.
Qed.

Lemma place_exact_node v st T a c k m q d y l r :
  place v st (T v) (masked (famBits v) c a) c k (TNode m q d y l r) true -> prefix_ok v a c ->
  tnode (T v) m q c (top (famBits v) c a).
Proof.
  intros HP [Hc Ha]. destruct (place_stop HP) as [-> E]. rewrite top_masked in E by lia.
  rewrite <- (place_plug HP). apply tnode_plug. left. cbn. rewrite E. auto.
Qed.

(** No node off the walk holds a prefix of the address. *)
Lemma path_misses W a c k m p :
  on_path W a c k -> wf_ctx W k -> c <= W -> ~ cnode k m p c (top W c a).
Proof.
  intros Hon Hwk Hc. induction k as [|f k IH]; [by intros []|]. cbn [cnode].
  inversion Hon as [|? ? (H1 & H2 & H3) Hon']; subst. destruct Hwk as [(_ & Hfx & _ & _ & Hs) Hwk].
  assert (0 <= fc f).
  { destruct (decide (0 <= fc f)); [done|]. rewrite Z.pow_neg_r in Hfx by lia. lia. }
  intros [(_&_&E&_)|[Hm|Hm]]; [lia| |by eapply IH].
  destruct (wf_region W (fc f + 1) _ (fsib f) _ _ _ _ ltac:(lia) Hs Hm) as (Hr & _ & E).
  rewrite <- top_top in E by lia. rewrite top_succ, H2, <- H3 in E by lia.
  destruct (fbit f); cbn in E; lia.
Qed.

(** A prefix of the table is found by the walk. *)
Lemma place_missing v st T a c k sub p :
  inv st T -> place v st (T v) (masked (famBits v) c a) c k sub false -> prefix_ok v a c ->
  ~ has (T v) c (top (famBits v) c a) p.
Proof.
  intros HI HP [Hc Ha] [m Hm]. rewrite <- (place_plug HP) in Hm. apply tnode_plug in Hm as [Hm|Hm].
  - destruct sub as [|n q d y l r]; [done|]. pose proof (place_stop HP) as Hs. apply Hs.
    destruct (place_wf HP) as (Hd & Hy & _ & _ & Hl & Hr).
    assert (0 <= d) by (destruct (decide (0 <= d)); [done|]; rewrite Z.pow_neg_r in Hy by lia; lia).
    destruct Hm as [(_&_&->&<-)|[Hm|Hm]]; [split; [done|]; apply top_masked; lia| |];
      [pose proof (wf_region (famBits v) (d + 1) _ l _ _ _ _ ltac:(lia) Hl Hm) as (Hdc & _ & E)|
       pose proof (wf_region (famBits v) (d + 1) _ r _ _ _ _ ltac:(lia) Hr Hm) as (Hdc & _ & E)];
      (split; [lia|]); rewrite top_masked by lia; rewrite (top_top _ d c) by lia;
      replace (c - d) with ((c - (d + 1)) + 1) by lia; rewrite shiftr_half, E by lia;
      Z.div_mod_to_equations; lia.
  - apply (path_misses _ _ c k m (Some p) (place_path HP) (place_wfk HP)); [lia|].
    by rewrite top_masked by lia.
Qed.

Lemma table_remove st R v a c peer :
  table_rel st R -> prefix_ok v a c ->
  exists st', Remove st (prefixOf v a c) peer = Some st' /\ table_rel st' (specRemove R (keyOf v a c) peer).
Proof.
  intros (T & HI & HM) Hok. pose proof Hok as [Hc Ha]. unfold Remove, prefixOf. cbn [pAddr pBits ipLen].
  rewrite famLen_16, famLen_4, (u8_cidr v a c Hok).
  replace (if v then Some (IPv6 st) else if negb v then Some (IPv4 st) else None)
    with (Some (rootOf st v)) by (by destruct v).
  cbn [mbind option_bind]. rewrite (nodePlacement_tplace v st (T v)) by (done || apply HI).
  destruct (tplace (famBits v) (T v) a c []) as [[k sub] exact] eqn:Epl.
  pose proof (place_intro v st T a c k sub exact HI Hc Ha Epl) as HP.
  pose proof (HM v c (top (famBits v) c a)) as Hkey. cbn [mbind option_bind placeResult].
  assert (Hskip : (forall p, ~ has (T v) c (top (famBits v) c a) p) \/
      (exists m q, q <> Some peer /\ tnode (T v) m q c (top (famBits v) c a)) ->
    table_rel st (specRemove R (keyOf v a c) peer)).
  { intros Hno. unfold specRemove. rewrite decide_False; [by exists T|]. unfold keyOf.
    intros Hp%Hkey. destruct Hno as [Hno|(m & q & Hq & Hm)]; [by apply (Hno peer)|]. destruct Hp as [m' Hp].
    by destruct (prefix_unique (famBits v) 0 0 _ _ _ _ _ _ _ ltac:(lia) (inv_wf _ _ HI v) Hp Hm). }
  destruct exact.
  - pose proof (place_stop HP) as Hs. destruct sub as [|m q d y l r]; [done|]. cbn [mbind option_bind].
    pose proof (place_exact_node _ _ _ _ _ _ _ _ _ _ _ _ HP Hok) as Hm.
    destruct (rep_tnode v (heap st) (RootSlot v) _ _ _ _ _ _ (inv_rep _ _ HI v) Hm) as (s & p0 & p1 & He).
    rewrite He. cbn [mbind option_bind tpeer entryOf negb orb].
    case_bool_decide as Hq; cbn [negb].
    + subst q. destruct (remove_spec v st T m peer c _ HI Hm) as (st' & E & _ & t' & HI' & Hrem).
      exists st'. split; [done|]. unfold specRemove. rewrite decide_True by (apply Hkey; by exists m).
      by apply (table_removed st st' R T v t').
    + exists st. split; [done|]. apply Hskip. right. eauto.
  - exists st. split; [|apply Hskip; left; intros p; by eapply place_missing].
    destruct (headId k) as [n|] eqn:Ek; [|done]. cbn [mbind option_bind].
    assert (Hn : is_Some (heap st !! n)).
    { apply (inv_heap _ _ v _ HI). apply (place_in _ _ _ _ _ _ _ _ _ HP). right. by apply headId_in. }
    destruct Hn as [e ->]. done.
Qed.

Lemma nextElem_head n l : nextElem (n :: l) n = head l.
Proof. cbn. by rewrite Nat.eqb_refl. Qed.

(** The loop of [RemoveByPeer] takes the front of the list every time. *)
Lemma removeByPeerLoop_spec (l : list nat) (st : AllowedIPs) (R : Routes) (T : bool -> tree) (p : nat) :
  inv st T -> (forall w, map_of (T w) (fun cx => R !! (w, cx))) -> entriesOf st p = l ->
  exists st', removeByPeerLoop (length l) st p (head l) = Some st' /\ entriesOf st' p = [] /\
    exists T', inv st' T' /\ forall w, map_of (T' w) (fun cx => specRemoveByPeer R p !! (w, cx)).
Proof.
  revert st R T. induction l as [|n l IH]; intros st R T HI HM Hl; cbn [length head removeByPeerLoop].
  - exists st. split; [done|]. split; [done|]. exists T. split; [done|].
    intros w c x q. unfold specRemoveByPeer. rewrite map_lookup_filter_Some, (HM w c x q). cbn.
    split; [by intros []|]. intros [m Hm]. split; [by exists m|]. intros ->.
    assert (Hin : m ∈ entriesOf st p) by (apply (inv_entries _ _ HI); eauto). rewrite Hl in Hin. set_solver.
  - rewrite Hl, nextElem_head.
    assert (Hin : n ∈ entriesOf st p) by (rewrite Hl; set_solver).
    apply (inv_entries _ _ HI) in Hin as (v & c & x & Hn).
    destruct (remove_spec v st T n p c x HI Hn) as (st1 & -> & He & t' & HI' & Hrem).
    pose proof (inv_list _ _ HI p) as Hnd. rewrite Hl in Hnd. apply NoDup_cons in Hnd as [Hnl Hnd].
    assert (Hl1 : entriesOf st1 p = l).
    { rewrite He, Hl, filter_cons_False by tauto. apply filter_id. intros m Hm ->. done. }
    cbn [mbind option_bind].
    destruct (table_removed st st1 R T v t' c x HI HM HI' Hrem) as (T1 & HI1 & HM1).
    destruct (IH st1 _ T1 HI1 HM1 Hl1) as (st' & E & Hemp & T' & HI2 & HM2).
    exists st'. split; [done|]. split; [done|]. exists T'. split; [done|].
    assert (Hk : R !! (v, (c, x)) = Some p) by (apply HM; by exists n).
    intros w d y q. rewrite <- (HM2 w d y q). unfold specRemoveByPeer.
    rewrite !map_lookup_filter_Some. cbn. rewrite lookup_delete_Some. split; [|tauto].
    intros [Hq Hne]. split; [split; [|done]|done]. intros E'. congruence.
Qed.

Lemma table_removeByPeer st R peer :
  table_rel st R -> exists st', RemoveByPeer st peer = Some st' /\ table_rel st' (specRemoveByPeer R peer).
Proof.
  intros (T & HI & HM).
  destruct (removeByPeerLoop_spec _ st R T peer HI HM eq_refl) as (st' & E & _ & T' & HI' & HM').
  exists st'. split; [exact E|]. by exists T'.
Qed.

Lemma table_lookup st R v a :
  table_rel st R -> 0 <= a < 2 ^ famBits v ->
  Lookup st (mkIP (famLen v) a) = Some (specLookup R v a).
Proof.
  intros (T & HI & HM) Ha. unfold Lookup. cbn [ipLen]. rewrite famLen_16, famLen_4.
  pose proof (famBits_pos v).
  unfold specLookup. rewrite <- (tlookup_lpm (famBits v) (T v) _ a (inv_wf _ _ HI v) (HM v)) by lia.
  rewrite <- (lookupNode_tlookup v st (T v) a) by (done || apply HI). by destruct v.
Qed.

(** Different nodes of a peer hold different prefixes. *)
Lemma keyPrefix_inj (T : bool -> tree) v c x v' c' x' n n' p p' :
  (forall w, wf (famBits w) 0 0 (T w)) -> tnode (T v) n p c x -> tnode (T v') n' p' c' x' ->
  keyPrefix (v, (c, x)) = keyPrefix (v', (c', x')) -> v = v' /\ c = c' /\ x = x'.
Proof.
  intros Hw Hn Hn' E. cbn in E. injection E as E1 E2 ->.
  assert (v = v') as -> by (by destruct v, v'). split; [done|]. split; [done|].
  destruct (wf_region (famBits v') 0 0 (T v') _ _ _ _ ltac:(lia) (Hw v') Hn) as (Hc & _).
  assert (E : Z.shiftr (Z.shiftl x (famBits v' - c')) (famBits v' - c') =
              Z.shiftr (Z.shiftl x' (famBits v' - c')) (famBits v' - c')) by congruence.
  rewrite !Z.shiftr_shiftl_l in E by lia. by rewrite Z.sub_diag, !Z.shiftl_0_r in E.
Qed.

Lemma entries_nodup (T : bool -> tree) (st : AllowedIPs) (p : nat) (l : list Prefix) entry :
  inv st T -> (forall v c x n, tnode (T v) n (Some p) c x -> entry n = Some (keyPrefix (v, (c, x)))) ->
  Forall2 (fun n pf => entry n = Some pf) (entriesOf st p) l -> NoDup l.
Proof.
  intros HI Hl E. apply NoDup_alt. intros i j pf Hi Hj.
  destruct (Forall2_lookup_r _ _ _ _ _ E Hi) as (n & Hn & Hen).
  destruct (Forall2_lookup_r _ _ _ _ _ E Hj) as (n' & Hn' & Hen').
  assert (n = n') as <-.
  { pose proof (list_elem_of_lookup_2 _ _ _ Hn) as Hin. pose proof (list_elem_of_lookup_2 _ _ _ Hn') as Hin'.
    apply (inv_entries _ _ HI) in Hin as (v & c & x & Ht). apply (inv_entries _ _ HI) in Hin' as (v' & c' & x' & Ht').
    rewrite (Hl _ _ _ _ Ht) in Hen. rewrite (Hl _ _ _ _ Ht') in Hen'.
    assert (Ek : keyPrefix (v, (c, x)) = keyPrefix (v', (c', x'))) by congruence.
    destruct (keyPrefix_inj T _ _ _ _ _ _ _ _ _ _ (inv_wf _ _ HI) Ht Ht' Ek) as (-> & -> & ->).
    by destruct (prefix_unique (famBits v') 0 0 _ _ _ _ _ _ _ ltac:(lia) (inv_wf _ _ HI v') Ht Ht'). }
  eapply (proj1 (NoDup_alt _) (inv_list _ _ HI p)); done.
Qed.

Lemma table_entries st R p :
  table_rel st R -> exists l, EntriesForPeer st p = Some l /\ NoDup l /\
    forall pf, pf ∈ l <-> exists key, R !! key = Some p /\ pf = keyPrefix key.
Proof.
  intros (T & HI & HM). unfold EntriesForPeer.
  set (entry := fun n => e ← heap st !! n; Some (mkPrefix (tbits e) (cidr e))).
  assert (Hl : forall v c x n, tnode (T v) n (Some p) c x -> entry n = Some (keyPrefix (v, (c, x)))).
  { intros v c x n Hn.
    destruct (rep_tnode v (heap st) (RootSlot v) _ _ _ _ _ _ (inv_rep _ _ HI v) Hn) as (s & p0 & p1 & He).
    unfold entry. by rewrite He. }
  assert (Hsome : Forall (fun n => is_Some (entry n)) (entriesOf st p)).
  { apply Forall_forall. intros n Hn. apply (inv_entries _ _ HI) in Hn as (v & c & x & Hn).
    rewrite (Hl _ _ _ _ Hn). eauto. }
  apply mapM_is_Some_2 in Hsome as [l E]. exists l. split; [exact E|].
  apply mapM_Some in E. split.
  - apply (entries_nodup T st p l entry HI Hl E).
  - intros pf. split.
    + intros Hpf. apply list_elem_of_lookup in Hpf as [i Hi].
      destruct (Forall2_lookup_r _ _ _ _ _ E Hi) as (n & Hn & Hen).
      apply list_elem_of_lookup_2 in Hn. apply (inv_entries _ _ HI) in Hn as (v & c & x & Hn).
      exists (v, (c, x)). split; [apply HM; by exists n|]. rewrite (Hl _ _ _ _ Hn) in Hen. congruence.
    + intros ([v [c x]] & Hk & ->). apply HM in Hk as [n Hn].
      assert (Hin : n ∈ entriesOf st p) by (apply (inv_entries _ _ HI); eauto).
      apply list_elem_of_lookup in Hin as [i Hi].
      destruct (Forall2_lookup_l _ _ _ _ _ E Hi) as (pf & Hpf & Hen).
      rewrite (Hl _ _ _ _ Hn) in Hen. injection Hen as <-. by eapply list_elem_of_lookup_2.
Qed.

(** ** Whole runs *)

Inductive tableOp :=
  | OpInsert (v6 : bool) (a c : Z) (peer : nat)
  | OpRemove (v6 : bool) (a c : Z) (peer : nat)
  | OpRemoveByPeer (peer : nat).

Definition op_ok (o : tableOp) : Prop :=
  match o with
  | OpInsert v a c _ | OpRemove v a c _ => prefix_ok v a c
  | OpRemoveByPeer _ => True
  end.

Definition runOp (st : AllowedIPs) (o : tableOp) : option AllowedIPs :=
  match o with
  | OpInsert v a c peer => Insert st (prefixOf v a c) peer
  | OpRemove v a c peer => Remove st (prefixOf v a c) peer
  | OpRemoveByPeer peer => RemoveByPeer st peer
  end.

Definition specOp (R : Routes) (o : tableOp) : Routes :=
  match o with
  | OpInsert v a c peer => <[keyOf v a c := peer]> R
  | OpRemove v a c peer => specRemove R (keyOf v a c) peer
  | OpRemoveByPeer peer => specRemoveByPeer R peer
  end.

Fixpoint runOps (st : AllowedIPs) (os : list tableOp) : option AllowedIPs :=
  match os with [] => Some st | o :: os' => st' ← runOp st o; runOps st' os' end.

Definition specOps (R : Routes) (os : list tableOp) : Routes := foldl specOp R os.

Lemma table_runOps os st R : table_rel st R -> Forall op_ok os ->
  exists st', runOps st os = Some st' /\ table_rel st' (specOps R os).
Proof.
  intros HR Hok. revert st R HR. induction Hok as [|o os Ho Hok IH]; intros st R HR; cbn [runOps specOps foldl].
  { by exists st. }
  assert (H : exists st', runOp st o = Some st' /\ table_rel st' (specOp R o)).
  { destruct o; [by apply table_insert|by apply table_remove|by apply table_removeByPeer]. }
  destruct H as (st' & -> & HR'). cbn [mbind option_bind]. by apply IH.
Qed.

Lemma table_reachable os : Forall op_ok os ->
  exists st, runOps emptyTable os = Some st /\ table_rel st (specOps ∅ os).
Proof. apply table_runOps, emptyTable_rel. Qed.

(** C1: whatever insertions and removals the table went through, no method has
    dereferenced a nil node, and [Lookup] returns the peer of the longest
    inserted prefix that contains the address, if there is one. *)
Theorem lookup_longest_prefix os v a :
  Forall op_ok os -> 0 <= a < 2 ^ famBits v ->
  exists st, runOps emptyTable os = Some st /\
    Lookup st (mkIP (famLen v) a) = Some (specLookup (specOps ∅ os) v a).
Proof.
  intros Hok Ha. destruct (table_reachable os Hok) as (st & E & HR).
  exists st. split; [done|]. by apply table_lookup.
Qed.

(** After any run, [EntriesForPeer] hands out every prefix the peer holds
    exactly once, and nothing else. *)
Theorem entries_for_peer_exact os p :
  Forall op_ok os ->
  exists st l, runOps emptyTable os = Some st /\ EntriesForPeer st p = Some l /\ NoDup l /\
    forall pf, pf ∈ l <-> exists key, specOps ∅ os !! key = Some p /\ pf = keyPrefix key.
Proof.
  intros Hok. destruct (table_reachable os Hok) as (st & E & HR).
  destruct (table_entries st _ p HR) as (l & El & H). by exists st, l.
Qed.

(** Longest-prefix match once the entries of [p] are gone. *)
Lemma lpmFrom_remove (M M' : Z * Z -> option nat) W a p n :
  (forall k q, M' k = Some q <-> M k = Some q /\ q <> p) ->
  (forall q, lpmFrom M W a n = Some q -> q <> p -> lpmFrom M' W a n = Some q) /\
  lpmFrom M' W a n <> Some p.
Proof.
  intros HM. induction n as [|n [IH1 IH2]]; cbn [lpmFrom];
    (split; [intros q|]); [| | |];
    repeat match goal with |- context [match ?M ?k with _ => _ end] => destruct (M k) as [?|] eqn:? end;
    try done; intros [= ->] || intros H; try intros Hq; try naive_solver.
Qed.

Lemma specRemoveByPeer_spec (R : Routes) p k q :
  specRemoveByPeer R p !! k = Some q <-> R !! k = Some q /\ q <> p.
Proof. unfold specRemoveByPeer. by rewrite map_lookup_filter_Some. Qed.

(** Once [RemoveByPeer] ran, the table routes nothing to the peer and lists
    no entry for it, and every packet that went to another peer still does. *)
Theorem remove_by_peer_unroutes os p v a :
  Forall op_ok os -> 0 <= a < 2 ^ famBits v ->
  exists st st' found found', runOps emptyTable os = Some st /\ RemoveByPeer st p = Some st' /\
    EntriesForPeer st' p = Some [] /\
    Lookup st (mkIP (famLen v) a) = Some found /\ Lookup st' (mkIP (famLen v) a) = Some found' /\
    found' <> Some p /\ (found <> None -> found <> Some p -> found' = found).
Proof.
  intros Hok Ha. destruct (table_reachable os Hok) as (st & E & HR).
  destruct (table_removeByPeer st _ p HR) as (st' & E' & HR').
  destruct (table_entries st' _ p HR') as (l & El & _ & Hl).
  pose proof (table_lookup st _ v a HR Ha) as L. pose proof (table_lookup st' _ v a HR' Ha) as L'.
  exists st, st'. eexists _, _. split; [done|]. split; [done|]. split; [|split; [exact L|split; [exact L'|]]].
  - rewrite El. f_equal. destruct l as [|pf l]; [done|].
    destruct (proj1 (Hl pf) ltac:(left)) as (key & [_ H]%map_lookup_filter_Some & _). done.
  - unfold specLookup, lpm.
    destruct (lpmFrom_remove (fun cx => specOps ∅ os !! (v, cx)) (fun cx => specRemoveByPeer (specOps ∅ os) p !! (v, cx))
      (famBits v) a p (Z.to_nat (famBits v))) as [H1 H2]; [intros; apply specRemoveByPeer_spec|].
    split; [exact H2|]. intros Hn Hp. destruct (lpmFrom (fun cx => specOps ∅ os !! (v, cx)) _ _ _) as [q|]; [|done].
    apply H1; congruence.
Qed.

(** *** A run: a /8, a /24 inside it, a peer that takes over a prefix *)

Definition sampleOps : list tableOp :=
  [OpInsert false 0x0a000000 8 1; OpInsert false 0x0a010200 24 2; OpInsert false 0x0a0102ff 32 3;
   OpInsert true 0xfe800000000000000000000000000000 10 1; OpInsert false 0x0a010200 24 4;
   OpRemove false 0x0a0102ff 32 3; OpInsert false 0x0b000000 8 2].

Lemma sampleOps_ok : Forall op_ok sampleOps.
Proof. repeat (apply Forall_cons; split; [vm_compute; intuition congruence|]). apply Forall_nil. done. Qed.

Lemma lookup_longest_prefix_witness :
  exists st, runOps emptyTable sampleOps = Some st /\ Lookup st (mkIP 4 0x0a010203) = Some (Some 4%nat).
Proof.
  destruct (lookup_longest_prefix sampleOps false 0x0a010203 sampleOps_ok ltac:(vm_compute; intuition congruence))
    as (st & E & H).
  exists st. split; [exact E|]. exact H.
Defined.

Lemma entries_for_peer_exact_witness :
  exists st l, runOps emptyTable sampleOps = Some st /\ EntriesForPeer st 2 = Some l /\
    mkPrefix (mkIP 4 0x0b000000) 8 ∈ l.
Proof.
  destruct (entries_for_peer_exact sampleOps 2 sampleOps_ok) as (st & l & E & H & _ & Hl).
  exists st, l. split; [exact E|]. split; [exact H|]. apply Hl.
  exists (false, (8, 0x0b)). split; vm_compute; reflexivity.
Defined.

Lemma remove_by_peer_unroutes_witness :
  exists st', EntriesForPeer st' 4 = Some [] /\ Lookup st' (mkIP 4 0x0a010203) = Some (Some 1%nat).
Proof.
  destruct (remove_by_peer_unroutes sampleOps 4 false 0x0a010203 sampleOps_ok
    ltac:(vm_compute; intuition congruence)) as (st & st' & fo & fo' & E & E' & He & _ & L' & _).
  exists st'. split; [exact He|]. vm_compute in E. injection E as <-. vm_compute in E'. injection E' as <-.
  vm_compute. reflexivity.
Defined.
