(* ===== verification/Crypto.v ===== *)
(** * The primitives of the protocol ([src/awg-ios/device/noise-helpers.go])

    The primitives of [golang.org/x/crypto] are parameters, in the class
    [Crypto]; what the protocol relies on is the class [CryptoLaws].  HMAC (the
    standard library's [crypto/hmac]) and the key derivations built on it are
    defined.  [Toy] is a concrete instance of the interface: the witnesses of the
    protocol's theorems run on it. *)

From stdpp Require Import base numbers list strings.
From Stdlib Require Import ZArith Lia.
From S2P Require Import Prelude GoStrings NoiseTypes.

Definition blake2sSize : nat := 32.
Definition blake2sSize128 : nat := 16.
Definition tagSize : nat := 16.

Class Crypto := {
  hash256 : list Z -> list Z;                                   (* blake2s.Sum256 *)
  mac128 : list Z -> list Z -> list Z;                          (* blake2s.New128(key) *)
  seal : list Z -> list Z -> list Z -> list Z -> list Z;         (* key nonce plaintext ad *)
  open : list Z -> list Z -> list Z -> list Z -> option (list Z);
  xseal : list Z -> list Z -> list Z -> list Z -> list Z;        (* chacha20poly1305.NewX *)
  xopen : list Z -> list Z -> list Z -> list Z -> option (list Z);
  scalarBaseMult : list Z -> list Z;
  scalarMult : list Z -> list Z -> list Z;
  keystream : list Z -> list Z -> nat -> Z                       (* chacha20: key nonce position *)
}.

(** The documented behaviour the protocol relies on. *)
Class CryptoLaws `{C : Crypto} : Prop := {
  hash256_length m : length (hash256 m) = 32%nat;
  hash256_ok m : bytes_ok (hash256 m);
  mac128_length k m : length (mac128 k m) = 16%nat;
  open_seal k n p ad : open k n (seal k n p ad) ad = Some p;
  seal_length k n p ad : length (seal k n p ad) = (length p + tagSize)%nat;
  open_length k n c ad p : open k n c ad = Some p -> length c = (length p + tagSize)%nat;
  xopen_xseal k n p ad : xopen k n (xseal k n p ad) ad = Some p;
  xseal_length k n p ad : length (xseal k n p ad) = (length p + tagSize)%nat;
  base_length a : length (scalarBaseMult a) = 32%nat;
  dh_comm a b : scalarMult a (scalarBaseMult b) = scalarMult b (scalarBaseMult a);
  keystream_u8 k n i : is_u8 (keystream k n i)
}.

Section Primitives.
Context `{C : Crypto}.

(** ** [crypto/hmac] over BLAKE2s, whose block is 64 bytes *)

Definition hmacKey (key : list Z) : list Z :=
  let k := if (64 <? length key)%nat then hash256 key else key in
  k ++ zeros (64 - length k).

Definition xorPad (key : list Z) (pad : Z) : list Z := map (fun b => Z.lxor b pad) key.

Definition hmac (key msg : list Z) : list Z :=
  let k := hmacKey key in
  hash256 (xorPad k 0x5c ++ hash256 (xorPad k 0x36 ++ msg)).

Definition HMAC1 (key in0 : list Z) : list Z := hmac key in0.
Definition HMAC2 (key in0 in1 : list Z) : list Z := hmac key (in0 ++ in1).

Definition KDF1 (key input : list Z) : list Z :=
  let t0 := HMAC1 key input in HMAC1 t0 [1].

Definition KDF2 (key input : list Z) : list Z * list Z :=
  let prk := HMAC1 key input in
  let t0 := HMAC1 prk [1] in
  let t1 := HMAC2 prk t0 [2] in
  (t0, t1).

Definition KDF3 (key input : list Z) : list Z * list Z * list Z :=
  let prk := HMAC1 key input in
  let t0 := HMAC1 prk [1] in
  let t1 := HMAC2 prk t0 [2] in
  let t2 := HMAC2 prk t1 [3] in
  (t0, t1, t2).

(** ** Keys *)

(** [newPrivateKey] from the 32 bytes [rand.Read] delivered. *)
Definition newPrivateKey (rnd : list Z) : list Z := clamp rnd.

Definition publicKey (sk : list Z) : list Z := scalarBaseMult sk.

(** [None] is [errInvalidPublicKey]. *)
Definition sharedSecret (sk pk : list Z) : option (list Z) :=
  let ss := scalarMult sk pk in if isZero ss then None else Some ss.

(** [XORKeyStream] at the stream position [pos]. *)
Definition xorStream (key nonce : list Z) (pos : nat) (bs : list Z) : list Z :=
  imap (fun i b => Z.lxor b (keystream key nonce (pos + i))) bs.

(** ** Lemmas *)

Lemma length_xorStream key nonce pos bs : length (xorStream key nonce pos bs) = length bs.
Proof. apply length_imap. Qed.

(** Applying the key stream twice gives the bytes back. *)
Lemma xorStream_involutive key nonce pos bs :
  xorStream key nonce pos (xorStream key nonce pos bs) = bs.
Proof.
  unfold xorStream. apply list_eq. intros i. rewrite !list_lookup_imap.
  destruct (bs !! i); cbn; [|done]. f_equal. by rewrite Z.lxor_assoc, Z.lxor_nilpotent, Z.lxor_0_r.
Qed.

Lemma xorStream_app key nonce pos l1 l2 :
  xorStream key nonce pos (l1 ++ l2) =
  xorStream key nonce pos l1 ++ xorStream key nonce (pos + length l1) l2.
Proof.
  unfold xorStream. rewrite imap_app. f_equal. apply imap_ext. intros i x _. cbn.
  do 2 f_equal. lia.
Qed.

Context `{L : !CryptoLaws}.

Lemma hmac_length key msg : length (hmac key msg) = 32%nat.
Proof. apply hash256_length. Qed.

(** The two ends of a Diffie-Hellman exchange compute the same secret. *)
Lemma sharedSecret_comm a b : sharedSecret a (publicKey b) = sharedSecret b (publicKey a).
Proof. unfold sharedSecret, publicKey. by rewrite dh_comm. Qed.

End Primitives.

#[export] Hint Rewrite @length_xorStream @xorStream_involutive : go_rw.

(** ** A concrete instance

    Not secure, of course: it satisfies the laws and computes. *)
Module Toy.

Definition digest (m : list Z) : Z := foldl (fun acc b => Z.land (acc * 263 + b + 1) 0xffffffff) 7 m.
Definition bits256 (m : list Z) : Z := le_val m.

#[export] Instance toyCrypto : Crypto := {|
  hash256 m := le_bytes 32 (digest m);
  mac128 k m := le_bytes 16 (digest (k ++ m));
  seal k n p ad := p ++ le_bytes 16 (digest (k ++ n ++ ad ++ p));
  open k n c ad :=
    let p := take (length c - 16) c in
    if decide (16 <= length c)%nat then
      if decide (drop (length c - 16) c = le_bytes 16 (digest (k ++ n ++ ad ++ p))) then Some p else None
    else None;
  xseal k n p ad := p ++ le_bytes 16 (digest (k ++ n ++ ad ++ p));
  xopen k n c ad :=
    let p := take (length c - 16) c in
    if decide (16 <= length c)%nat then
      if decide (drop (length c - 16) c = le_bytes 16 (digest (k ++ n ++ ad ++ p))) then Some p else None
    else None;
  scalarBaseMult a := le_bytes 32 (bits256 a);
  scalarMult a p := le_bytes 32 ((bits256 a mod 2 ^ 256) * (bits256 p mod 2 ^ 256));
  keystream k n i := (digest (k ++ n) / 2 ^ Z.of_nat (i mod 64)) mod 256
|}.

Lemma open_seal_toy (k n p ad : list Z) (f : list Z -> list Z) :
  (forall q, length (f q) = 16%nat) ->
  (let c := p ++ f p in
   let q := take (length c - 16) c in
   if decide (16 <= length c)%nat then
     if decide (drop (length c - 16) c = f q) then Some q else None else None) = Some p.
Proof.
  intros Hf. cbn. rewrite length_app, Hf. replace (length p + 16 - 16)%nat with (length p) by lia.
  rewrite take_app_length, drop_app_length.
  rewrite decide_True by lia. by rewrite decide_True.
Qed.

#[export] Instance toyLaws : CryptoLaws.
Proof.
  split; intros; cbn -[le_bytes digest].
  - apply length_le_bytes.
  - apply le_bytes_ok.
  - apply length_le_bytes.
  - apply (open_seal_toy k n p ad (fun q => le_bytes 16 (digest (k ++ n ++ ad ++ q)))).
    intros. apply length_le_bytes.
  - by rewrite length_app, length_le_bytes.
  - revert H. cbn -[le_bytes digest]. destruct (decide _); [|done]. destruct (decide _); [|done].
    intros [= <-]. rewrite length_take. unfold tagSize. lia.
  - apply (open_seal_toy k n p ad (fun q => le_bytes 16 (digest (k ++ n ++ ad ++ q)))).
    intros. apply length_le_bytes.
  - by rewrite length_app, length_le_bytes.
  - apply length_le_bytes.
  - f_equal. unfold bits256. rewrite !le_val_le_bytes.
    change (256 ^ Z.of_nat 32) with (2 ^ 256). rewrite !Z.mod_mod by lia. apply Z.mul_comm.
  - unfold is_u8. change (2 ^ 8) with 256. apply Z.mod_pos_bound. lia.
Qed.

End Toy.
