(* ===== verification/Obf.v ===== *)
(** * Obfuscation chains ([src/awg-ios/device/obf.go], [obf_*.go])

    A chain is parsed from a specification such as [<b 0xc0ff><r 16><t>]; it
    writes the packets sent before a handshake.  Go's [int] is unbounded here up
    to the 64-bit range [Atoi] enforces.  A slice expression out of range panics:
    [None]. *)

From stdpp Require Import base numbers list gmap strings.
From Stdlib Require Import ZArith Lia.
From S2P Require Import Prelude GoStrings.

Inductive obf :=
  | bytesObf (data : list Z)
  | timestampObf
  | randObf (length : Z)
  | randCharObf (length : Z)
  | randDigitObf (length : Z)
  | dataObf
  | dataStringObf
  | dataSizeObf (length : Z).

Record obfChain := mkChain { Spec : list Z; obfs : list obf }.

Inductive obfError :=
  | ErrMissingClose | ErrEmptyTag | ErrUnknownTag (key : list Z) | ErrEmptyArgument | ErrOddArgument
  | ErrArgument (e : numError).

(** ** The builders *)

Definition liftNum {A} (m : result numError A) : result obfError A :=
  match m with Ok a => Ok a | Err e => Err (ErrArgument e) end.

Definition newBytesObf (val : list Z) : result obfError obf :=
  let val := trimPrefix val (str "0x") in
  if decide (val = []) then Err ErrEmptyArgument
  else if Nat.odd (length val) then Err ErrOddArgument
  else try bs <- liftNum (hexDecode val) ;; Ok (bytesObf bs).

Definition newRandObf (val : list Z) : result obfError obf :=
  try length <- liftNum (atoi val) ;; Ok (randObf length).
Definition newRandCharObf (val : list Z) : result obfError obf :=
  try length <- liftNum (atoi val) ;; Ok (randCharObf length).
Definition newRandDigitsObf (val : list Z) : result obfError obf :=
  try length <- liftNum (atoi val) ;; Ok (randDigitObf length).
Definition newDataSizeObf (val : list Z) : result obfError obf :=
  try length <- liftNum (atoi val) ;; Ok (dataSizeObf length).
Definition newTimestampObf (val : list Z) : result obfError obf := Ok timestampObf.
Definition newDataObf (val : list Z) : result obfError obf := Ok dataObf.
Definition newDataStringObf (val : list Z) : result obfError obf := Ok dataStringObf.

(** The map [obfBuilders]. *)
Definition obfBuilders (key : list Z) : option (list Z -> result obfError obf) :=
  if decide (key = str "b") then Some newBytesObf
  else if decide (key = str "t") then Some newTimestampObf
  else if decide (key = str "r") then Some newRandObf
  else if decide (key = str "rc") then Some newRandCharObf
  else if decide (key = str "rd") then Some newRandDigitsObf
  else if decide (key = str "d") then Some newDataObf
  else if decide (key = str "ds") then Some newDataStringObf
  else if decide (key = str "dz") then Some newDataSizeObf
  else None.

(** What one tag contributes: the text between [<] and [>]. *)
Definition buildTag (tag : list Z) : result obfError obf :=
  match fields tag with
  | [] => Err ErrEmptyTag
  | key :: rest =>
      match obfBuilders key with
      | None => Err (ErrUnknownTag key)
      | Some builder => builder (match rest with v :: _ => v | [] => [] end)
      end
  end.

(** The loop of [newObfChain]; every turn drops at least the two brackets. *)
Fixpoint parseTags (fuel : nat) (remaining : list Z) (os : list obf) (errs : list obfError)
    : result (list obfError) (list obf * list obfError) :=
  match fuel with
  | O => Ok (os, errs)
  | S fuel' =>
      match indexByte remaining 60 with
      | None => Ok (os, errs)
      | Some start =>
          match indexByte (drop start remaining) 62 with
          | None => Err [ErrMissingClose]
          | Some e =>
              let e := (e + start)%nat in
              let tag := slice remaining (start + 1) e in
              let remaining := drop (e + 1) remaining in
              match buildTag tag with
              | Ok o => parseTags fuel' remaining (os ++ [o]) errs
              | Err x => parseTags fuel' remaining os (errs ++ [x])
              end
          end
      end
  end.

Definition newObfChain (spec : list Z) : result (list obfError) (option obfChain) :=
  try r <- parseTags (S (length spec)) spec [] [] ;;
  let '(os, errs) := r in
  if decide (errs = []) then
    if decide (os = []) then Ok None else Ok (Some (mkChain spec os))
  else Err errs.

(** ** [encoding/base64.RawStdEncoding] *)

Definition base64Char (i : Z) : Z :=
  if i <? 26 then 65 + i
  else if i <? 52 then 97 + (i - 26)
  else if i <? 62 then 48 + (i - 52)
  else if i =? 62 then 43 else 47.

Definition base64Val (c : Z) : option Z :=
  if (65 <=? c) && (c <=? 90) then Some (c - 65)
  else if (97 <=? c) && (c <=? 122) then Some (c - 97 + 26)
  else if (48 <=? c) && (c <=? 57) then Some (c - 48 + 52)
  else if c =? 43 then Some 62
  else if c =? 47 then Some 63
  else None.

Fixpoint base64Encode (src : list Z) : list Z :=
  match src with
  | a :: b :: c :: rest =>
      base64Char (a / 4) :: base64Char (a mod 4 * 16 + b / 16) ::
      base64Char (b mod 16 * 4 + c / 64) :: base64Char (c mod 64) :: base64Encode rest
  | [a; b] => [base64Char (a / 4); base64Char (a mod 4 * 16 + b / 16); base64Char (b mod 16 * 4)]
  | [a] => [base64Char (a / 4); base64Char (a mod 4 * 16)]
  | [] => []
  end.

(** [Decode], quantum by quantum: [q] holds the values of the current one, line
    breaks are skipped, an illegal byte ends it. *)
Fixpoint base64Decode (src q : list Z) : list Z :=
  match src with
  | [] =>
      match q with
      | [x; y; z] => [u8 (x * 4 + y / 16); u8 (y * 16 + z / 4)]
      | [x; y] => [u8 (x * 4 + y / 16)]
      | _ => []
      end
  | c :: src' =>
      if (c =? 10) || (c =? 13) then base64Decode src' q
      else match base64Val c, q with
           | None, _ => []
           | Some v, [x; y; z] =>
               u8 (x * 4 + y / 16) :: u8 (y * 16 + z / 4) :: u8 (z * 64 + v) :: base64Decode src' []
           | Some v, _ => base64Decode src' (q ++ [v])
           end
  end.

Definition base64EncodedLen (n : Z) : Z := n / 3 * 4 + (n mod 3 * 8 + 5) / 6.
Definition base64DecodedLen (n : Z) : Z := n / 4 * 3 + n mod 4 * 6 / 8.

(** ** The elements

    The interface [obf]: [opObfuscate] is what [Obfuscate] writes at the start of
    its slice, given how to read random bytes, the source and the seconds of the
    clock; [opDeobfuscate] is the verdict with what is left in the output slice,
    the input slice having the length [opObfuscatedLen] says; [opDraws] counts the
    random bytes. *)

Record obfOps := mkOps {
  opObfuscate : (nat -> list Z) -> list Z -> Z -> list Z;
  opDeobfuscate : list Z -> list Z -> bool * list Z;
  opObfuscatedLen : Z -> Z;
  opDeobfuscatedLen : Z -> Z;
  opDraws : nat
}.

Definition chars52 : list Z := str "abcdefghijklmnopqrstuvwxyzABCDEFGHIJKLMNOPQRSTUVWXYZ".
Definition digits10 : list Z := str "0123456789".

(** [unicode.IsLetter] on a Latin-1 byte. *)
Definition isLetter (b : Z) : bool :=
  ((65 <=? b) && (b <=? 90)) || ((97 <=? b) && (b <=? 122)) || (b =? 170) || (b =? 181) || (b =? 186) ||
  ((192 <=? b) && (b <=? 255) && negb (b =? 215) && negb (b =? 247)).

Definition bytesOps (data : list Z) : obfOps := {|
  opObfuscate := fun _ _ _ => data;
  opDeobfuscate := fun dst src => (bool_decide (data = src), dst);
  opObfuscatedLen := fun _ => Z.of_nat (length data);
  opDeobfuscatedLen := fun _ => 0;
  opDraws := 0 |}.

Definition timestampOps : obfOps := {|
  opObfuscate := fun _ _ now => be_bytes 4 (u32 now);
  opDeobfuscate := fun dst _ => (true, dst);
  opObfuscatedLen := fun _ => 4;
  opDeobfuscatedLen := fun _ => 0;
  opDraws := 0 |}.

Definition randOps (l : Z) : obfOps := {|
  opObfuscate := fun rnd _ _ => rnd (Z.to_nat l);
  opDeobfuscate := fun dst _ => (true, dst);
  opObfuscatedLen := fun _ => l;
  opDeobfuscatedLen := fun _ => 0;
  opDraws := Z.to_nat l |}.

Definition randCharOps (l : Z) : obfOps := {|
  opObfuscate := fun rnd _ _ => (fun b => nth (Z.to_nat (b mod 52)) chars52 0) <$> rnd (Z.to_nat l);
  opDeobfuscate := fun dst src => (forallb isLetter src, dst);
  opObfuscatedLen := fun _ => l;
  opDeobfuscatedLen := fun _ => 0;
  opDraws := Z.to_nat l |}.

Definition randDigitOps (l : Z) : obfOps := {|
  opObfuscate := fun rnd _ _ => (fun b => nth (Z.to_nat (b mod 10)) digits10 0) <$> rnd (Z.to_nat l);
  opDeobfuscate := fun dst src => (forallb isDigit src, dst);
  opObfuscatedLen := fun _ => l;
  opDeobfuscatedLen := fun _ => 0;
  opDraws := Z.to_nat l |}.

Definition dataOps : obfOps := {|
  opObfuscate := fun _ src _ => src;
  opDeobfuscate := fun dst src => (true, copy_into dst src);
  opObfuscatedLen := fun n => n;
  opDeobfuscatedLen := fun n => n;
  opDraws := 0 |}.

Definition dataStringOps : obfOps := {|
  opObfuscate := fun _ src _ => base64Encode src;
  opDeobfuscate := fun dst src => (true, copy_into dst (base64Decode src []));
  opObfuscatedLen := base64EncodedLen;
  opDeobfuscatedLen := base64DecodedLen;
  opDraws := 0 |}.

Definition dataSizeOps (l : Z) : obfOps := {|
  opObfuscate := fun _ src _ => be_bytes (Z.to_nat l) (Z.of_nat (length src));
  opDeobfuscate := fun dst _ => (true, dst);
  opObfuscatedLen := fun _ => l;
  opDeobfuscatedLen := fun _ => 0;
  opDraws := 0 |}.

(** The method table of an element's dynamic type. *)
Definition ops (o : obf) : obfOps :=
  match o with
  | bytesObf data => bytesOps data
  | timestampObf => timestampOps
  | randObf l => randOps l
  | randCharObf l => randCharOps l
  | randDigitObf l => randDigitOps l
  | dataObf => dataOps
  | dataStringObf => dataStringOps
  | dataSizeObf l => dataSizeOps l
  end.

(** The calls through the interface. *)
Definition obfuscatedLen (o : obf) : Z -> Z := opObfuscatedLen (ops o).
Definition deobfuscatedLen (o : obf) : Z -> Z := opDeobfuscatedLen (ops o).
Definition deobfuscate1 (o : obf) : list Z -> list Z -> bool * list Z := opDeobfuscate (ops o).
Definition obfDraws (o : obf) : nat := opDraws (ops o).

(** ** Lengths *)

Definition ObfuscatedLen (c : obfChain) (n : Z) : Z :=
  foldl (fun total o => total + obfuscatedLen o n) 0 (obfs c).

Definition DeobfuscatedLen (c : obfChain) (n : Z) : Z :=
  let dynamicLen := n - ObfuscatedLen c 0 in
  foldl (fun total o => total + deobfuscatedLen o dynamicLen) 0 (obfs c).

(** ** Writing *)

Section Obfuscate.
Context `{Entropy}.

(** What an element writes, reading the random bytes from position [pos]. *)
Definition obfuscate1 (o : obf) (src : list Z) (now : Z) (pos : nat) : list Z :=
  opObfuscate (ops o) (fun n => randRead n pos) src now.

(** The loop of [Obfuscate] over [dst]: [None] is the panic of a slice whose
    bounds do not fit. *)
Fixpoint obfuscateLoop (os : list obf) (dst : list Z) (written : Z) (src : list Z) (now : Z) (pos : nat)
    : option (list Z * nat) :=
  match os with
  | [] => Some (dst, pos)
  | o :: os' =>
      let obfLen := obfuscatedLen o (Z.of_nat (length src)) in
      if (0 <=? obfLen) && (written + obfLen <=? Z.of_nat (length dst)) then
        let w := Z.to_nat written in
        let piece := copy_into (slice dst w (Z.to_nat (written + obfLen))) (obfuscate1 o src now pos) in
        let dst' := take w dst ++ piece ++ drop (Z.to_nat (written + obfLen)) dst in
        obfuscateLoop os' dst' (written + obfLen) src now (pos + obfDraws o)
      else None
  end.

Definition Obfuscate (c : obfChain) (dst src : list Z) (now : Z) (pos : nat) : option (list Z * nat) :=
  obfuscateLoop (obfs c) dst 0 src now pos.

(** [make([]byte, n)]: a negative length panics. *)
Definition makeBytes (n : Z) : option (list Z) := if 0 <=? n then Some (zeros (Z.to_nat n)) else None.

(** The caller's [buf := make([]byte, c.ObfuscatedLen(len(src))); c.Obfuscate(buf, src)]. *)
Definition obfuscated (c : obfChain) (src : list Z) (now : Z) (pos : nat) : option (list Z * nat) :=
  match makeBytes (ObfuscatedLen c (Z.of_nat (length src))) with
  | Some dst => Obfuscate c dst src now pos
  | None => None
  end.

End Obfuscate.

(** ** Reading *)

Fixpoint deobfuscateLoop (os : list obf) (dst src : list Z) (written read dynamicLen : Z)
    : option (bool * list Z) :=
  match os with
  | [] => Some (true, dst)
  | o :: os' =>
      let deobfLen := deobfuscatedLen o dynamicLen in
      let obfLen := obfuscatedLen o deobfLen in
      if (0 <=? deobfLen) && (written + deobfLen <=? Z.of_nat (length dst)) &&
         (0 <=? obfLen) && (read + obfLen <=? Z.of_nat (length src)) then
        let w := Z.to_nat written in
        let '(ok, piece) := deobfuscate1 o (slice dst w (Z.to_nat (written + deobfLen)))
                              (slice src (Z.to_nat read) (Z.to_nat (read + obfLen))) in
        let dst' := take w dst ++ piece ++ drop (Z.to_nat (written + deobfLen)) dst in
        if ok : bool then deobfuscateLoop os' dst' src (written + deobfLen) (read + obfLen) dynamicLen
        else Some (false, dst')
      else None
  end.

Definition Deobfuscate (c : obfChain) (dst src : list Z) : option (bool * list Z) :=
  deobfuscateLoop (obfs c) dst src 0 0 (Z.of_nat (length src) - ObfuscatedLen c 0).

(** The caller's [buf := make([]byte, c.DeobfuscatedLen(len(src))); c.Deobfuscate(buf, src)]. *)
Definition deobfuscated (c : obfChain) (src : list Z) : option (bool * list Z) :=
  match makeBytes (DeobfuscatedLen c (Z.of_nat (length src))) with
  | Some dst => Deobfuscate c dst src
  | None => None
  end.

(** Computes the methods of an element whose type is known. *)
Ltac obf_simpl :=
  cbn [obfuscate1 obfuscatedLen deobfuscatedLen deobfuscate1 obfDraws ops bytesOps timestampOps randOps
       randCharOps randDigitOps dataOps dataStringOps dataSizeOps opObfuscate opDeobfuscate
       opObfuscatedLen opDeobfuscatedLen opDraws] in *.

(** ** Lemmas: lengths *)

Lemma foldl_len (f : obf -> Z) os acc :
  foldl (fun total o => total + f o) acc os = acc + foldr (fun o t => f o + t) 0 os.
Proof.
  revert acc. induction os as [|o os IH]; intros acc; cbn [foldl foldr]; [lia|]. rewrite IH. lia.
Qed.

(** The sum of the lengths of a list of elements. *)
Definition sumLen (f : obf -> Z) (os : list obf) : Z := foldr (fun o t => f o + t) 0 os.

Lemma ObfuscatedLen_sum c n : ObfuscatedLen c n = sumLen (fun o => obfuscatedLen o n) (obfs c).
Proof. unfold ObfuscatedLen. by rewrite foldl_len. Qed.

Lemma DeobfuscatedLen_sum c n :
  DeobfuscatedLen c n = sumLen (fun o => deobfuscatedLen o (n - ObfuscatedLen c 0)) (obfs c).
Proof. unfold DeobfuscatedLen. by rewrite foldl_len. Qed.

Definition lengths_ok (os : list obf) : Prop :=
  Forall (fun o => match o with
                   | randObf l | randCharObf l | randDigitObf l | dataSizeObf l => 0 <= l
                   | _ => True
                   end) os.

Lemma obfuscatedLen_nonneg o n : lengths_ok [o] -> 0 <= n -> 0 <= obfuscatedLen o n.
Proof.
  intros Hl Hn. apply Forall_cons in Hl as [Ho _].
  destruct o; cbn; try lia. unfold base64EncodedLen. Z.div_mod_to_equations. lia.
Qed.

Lemma sumLen_nonneg f os : (forall o, o ∈ os -> 0 <= f o) -> 0 <= sumLen f os.
Proof.
  induction os as [|o os IH]; cbn; [lia|]. intros Hf.
  pose proof (Hf o ltac:(left)). specialize (IH ltac:(intros; apply Hf; by right)). unfold sumLen in IH. lia.
Qed.

(** ** Lemmas: base64 *)

(** Induction three elements at a time. *)
Lemma three_ind {A} (P : list A -> Prop) :
  P [] -> (forall a, P [a]) -> (forall a b, P [a; b]) ->
  (forall a b c l, P l -> P (a :: b :: c :: l)) -> forall l, P l.
Proof.
  intros H0 H1 H2 H3. assert (H : forall n l, (length l <= n)%nat -> P l); [|intros l; by apply (H (length l))].
  induction n as [|n IH]; intros [|a [|b [|c l]]] Hl; cbn in Hl; auto; try lia. apply H3, IH. lia.
Qed.

Lemma base64Val_Char i : 0 <= i < 64 -> base64Val (base64Char i) = Some i.
Proof.
  intros Hi. unfold base64Char. destruct (Z.ltb_spec i 26); [|destruct (Z.ltb_spec i 52); [|destruct (Z.ltb_spec i 62);
    [|destruct (Z.eqb_spec i 62) as [->|]]]]; unfold base64Val;
    repeat (match goal with |- context [?a <=? ?b] => destruct (Z.leb_spec a b) end); cbn [andb]; try lia;
    try (f_equal; lia); try done.
Qed.

Lemma base64Char_not_break i : 0 <= i < 64 -> ((base64Char i =? 10) || (base64Char i =? 13)) = false.
Proof.
  intros Hi. unfold base64Char. destruct_ifs; repeat match goal with |- context [?a =? ?b] => destruct (Z.eqb_spec a b) end;
    try done; try lia.
Qed.

Lemma base64Decode_char i rest q :
  0 <= i < 64 -> base64Decode (base64Char i :: rest) q =
    match q with
    | [x; y; z] => u8 (x * 4 + y / 16) :: u8 (y * 16 + z / 4) :: u8 (z * 64 + i) :: base64Decode rest []
    | _ => base64Decode rest (q ++ [i])
    end.
Proof. intros Hi. cbn [base64Decode]. by rewrite base64Char_not_break, base64Val_Char. Qed.

Lemma length_base64Encode src : Z.of_nat (length (base64Encode src)) = base64EncodedLen (Z.of_nat (length src)).
Proof.
  induction src as [| | | a b c rest IH] using three_ind; [done..|].
  cbn [base64Encode length]. rewrite !Nat2Z.inj_succ. rewrite IH. unfold base64EncodedLen.
  Z.div_mod_to_equations. lia.
Qed.

Lemma base64_roundtrip src : bytes_ok src -> base64Decode (base64Encode src) [] = src.
Proof.
  induction src as [|a|a b|a b c rest IH] using three_ind; intros Hok; [done| | |].
  - apply Forall_cons in Hok as [Ha _]. unfold is_u8 in Ha. cbn [base64Encode].
    rewrite !base64Decode_char by (Z.div_mod_to_equations; lia). cbn [app base64Decode].
    f_equal. unfold u8. Z.div_mod_to_equations. lia.
  - apply Forall_cons in Hok as [Ha [Hb _]%Forall_cons]. unfold is_u8 in Ha, Hb. cbn [base64Encode].
    rewrite !base64Decode_char by (Z.div_mod_to_equations; lia). cbn [app base64Decode].
    f_equal; [|f_equal]; unfold u8; Z.div_mod_to_equations; lia.
  - apply Forall_cons in Hok as [Ha [Hb [Hc Hok]%Forall_cons]%Forall_cons]. unfold is_u8 in Ha, Hb, Hc.
    cbn [base64Encode]. rewrite !base64Decode_char by (Z.div_mod_to_equations; lia). cbn [app].
    rewrite IH by done. f_equal; [|f_equal; [|f_equal]]; unfold u8; Z.div_mod_to_equations; lia.
Qed.

Section Roundtrip.
Context `{Entropy}.

Lemma length_randRead n pos : length (randRead n pos) = n.
Proof. unfold randRead. by rewrite length_fmap, length_seq. Qed.

Lemma length_obfuscate1 o src now pos :
  lengths_ok [o] -> Z.of_nat (length (obfuscate1 o src now pos)) = obfuscatedLen o (Z.of_nat (length src)).
Proof.
  intros [Ho _]%Forall_cons.
  destruct o; obf_simpl; rewrite ?length_fmap, ?length_randRead, ?length_be_bytes; try lia.
  apply length_base64Encode.
Qed.

(** The packet: the elements one after the other. *)
Fixpoint chainBytes (os : list obf) (src : list Z) (now : Z) (pos : nat) : list Z :=
  match os with
  | [] => []
  | o :: os' => obfuscate1 o src now pos ++ chainBytes os' src now (pos + obfDraws o)
  end.

Definition chainDraws (os : list obf) : nat := foldr (fun o n => obfDraws o + n)%nat O os.

Lemma length_chainBytes os src now pos : lengths_ok os ->
  Z.of_nat (length (chainBytes os src now pos)) = sumLen (fun o => obfuscatedLen o (Z.of_nat (length src))) os.
Proof.
  revert pos. induction os as [|o os IH]; intros pos Hok; [done|].
  apply Forall_cons in Hok as [Ho Hos]. unfold sumLen in *. cbn [chainBytes foldr].
  rewrite length_app, Nat2Z.inj_add, length_obfuscate1, IH; [lia|done|].
  apply Forall_cons. split; [done|]. by apply Forall_nil.
Qed.

(** Writing one slice of a buffer whose first part is done. *)
Lemma write_slice {A} (pre rest piece : list A) n :
  (length piece = n)%nat -> (n <= length rest)%nat ->
  take (length pre) (pre ++ rest) ++ copy_into (slice (pre ++ rest) (length pre) (length pre + n)) piece ++
    drop (length pre + n) (pre ++ rest) = (pre ++ piece) ++ drop n rest.
Proof.
  intros Hp Hn. rewrite take_app_length, <- app_assoc. f_equal.
  rewrite slice_app_r by lia. rewrite Nat.sub_diag. replace (length pre + n - length pre)%nat with n by lia.
  rewrite copy_into_same by (unfold slice; rewrite drop_0, length_take; lia).
  f_equal. rewrite drop_app_ge by lia. f_equal. lia.
Qed.

Lemma obfuscateLoop_spec os pre rest src now pos :
  lengths_ok os ->
  Z.of_nat (length rest) = sumLen (fun o => obfuscatedLen o (Z.of_nat (length src))) os ->
  obfuscateLoop os (pre ++ rest) (Z.of_nat (length pre)) src now pos =
    Some (pre ++ chainBytes os src now pos, (pos + chainDraws os)%nat).
Proof.
  revert pre rest pos. induction os as [|o os IH]; intros pre rest pos Hok Hlen; cbn [obfuscateLoop].
  - assert (rest = []) as -> by (destruct rest; [done|]; cbn in Hlen; lia). cbn. by rewrite Nat.add_0_r.
  - apply Forall_cons in Hok as [Ho Hos].
    assert (Ho1 : lengths_ok [o]) by (apply Forall_cons; split; [done|]; by apply Forall_nil).
    pose proof (obfuscatedLen_nonneg o (Z.of_nat (length src)) Ho1 ltac:(lia)) as Hn.
    pose proof (length_obfuscate1 o src now pos Ho1) as Hl1.
    assert (Hs : 0 <= sumLen (fun o => obfuscatedLen o (Z.of_nat (length src))) os).
    { apply sumLen_nonneg. intros o' Ho'. apply obfuscatedLen_nonneg; [|lia].
      apply Forall_cons. split; [|by apply Forall_nil]. unfold lengths_ok in Hos. rewrite Forall_forall in Hos.
      by apply Hos. }
    assert (Hsum : Z.of_nat (length rest) = Z.of_nat (length (obfuscate1 o src now pos)) +
      sumLen (fun o => obfuscatedLen o (Z.of_nat (length src))) os) by (rewrite Hl1; exact Hlen).
    rewrite <- Hl1 in *. rewrite length_app.
    rewrite (proj2 (Z.leb_le 0 _)), (proj2 (Z.leb_le _ (Z.of_nat (length pre + length rest)))) by lia.
    cbn [andb]. rewrite <- Nat2Z.inj_add, !Nat2Z.id.
    rewrite (write_slice pre rest (obfuscate1 o src now pos) _ eq_refl) by lia.
    rewrite <- length_app. rewrite IH; [|done|rewrite length_drop; lia].
    cbn [chainBytes chainDraws foldr]. f_equal. f_equal; [by rewrite <- app_assoc|unfold chainDraws; lia].
Qed.

Lemma obfuscated_spec c src now pos : lengths_ok (obfs c) ->
  obfuscated c src now pos = Some (chainBytes (obfs c) src now pos, (pos + chainDraws (obfs c))%nat).
Proof.
  intros Hok. unfold obfuscated, makeBytes, Obfuscate. rewrite ObfuscatedLen_sum.
  rewrite <- (length_chainBytes (obfs c) src now pos Hok).
  rewrite (proj2 (Z.leb_le 0 _)) by lia. rewrite Nat2Z.id.
  apply (obfuscateLoop_spec (obfs c) [] (zeros _) src now pos Hok).
  unfold zeros. rewrite length_replicate. by apply length_chainBytes.
Qed.

(** ** Reading back *)

Definition isDynamic (o : obf) : bool := match o with dataObf | dataStringObf => true | _ => false end.

Fixpoint dynamics (os : list obf) : nat :=
  match os with [] => O | o :: os' => ((if isDynamic o then 1 else 0) + dynamics os')%nat end.

Lemma chars52_letters : forallb isLetter chars52 = true /\ length chars52 = 52%nat.
Proof. by vm_compute. Qed.
Lemma digits10_digits : forallb isDigit digits10 = true /\ length digits10 = 10%nat.
Proof. by vm_compute. Qed.

Lemma forallb_pick (f : Z -> bool) tbl n m bs :
  forallb f tbl = true -> length tbl = n -> m = Z.of_nat n -> 0 < m ->
  forallb f ((fun b => nth (Z.to_nat (b mod m)) tbl 0) <$> bs) = true.
Proof.
  intros Hf Hl -> Hm. apply forallb_forall. intros x Hx. rewrite forallb_forall in Hf. apply Hf.
  apply list_elem_of_In, list_elem_of_fmap in Hx as (b & -> & _). apply nth_In.
  pose proof (Z.mod_pos_bound b (Z.of_nat n) Hm). lia.
Qed.

(** One element read back from what it wrote. *)
Lemma deobfuscate1_obfuscate1 o src now pos dst :
  bytes_ok src -> length dst = (if isDynamic o then length src else 0)%nat ->
  deobfuscate1 o dst (obfuscate1 o src now pos) = (true, if isDynamic o then src else []).
Proof.
  intros Hok Hd. assert (Hnil : isDynamic o = false -> dst = [])
    by (intros E; rewrite E in Hd; by destruct dst).
  destruct o; cbn [isDynamic] in *; obf_simpl; rewrite ?Hnil by done.
  - by rewrite bool_decide_eq_true_2.
  - done.
  - done.
  - destruct chars52_letters. by rewrite (forallb_pick isLetter chars52 52 52) by (done || lia).
  - destruct digits10_digits. by rewrite (forallb_pick isDigit digits10 10 10) by (done || lia).
  - by rewrite copy_into_same.
  - by rewrite base64_roundtrip, copy_into_same.
  - done.
Qed.

(** The slice an element reads is what it wrote. *)
Lemma obfuscatedLen_dyn o n dyn :
  deobfuscatedLen o dyn = (if isDynamic o then n else 0) -> obfuscatedLen o (deobfuscatedLen o dyn) = obfuscatedLen o n.
Proof. intros ->. by destruct o. Qed.

Lemma deobfuscateLoop_spec os outPre rest inPre src now pos dyn :
  lengths_ok os -> bytes_ok src ->
  (forall o, o ∈ os -> deobfuscatedLen o dyn = if isDynamic o then Z.of_nat (length src) else 0) ->
  length rest = (dynamics os * length src)%nat ->
  deobfuscateLoop os (outPre ++ rest) (inPre ++ chainBytes os src now pos)
    (Z.of_nat (length outPre)) (Z.of_nat (length inPre)) dyn =
  Some (true, outPre ++ concat (replicate (dynamics os) src)).
Proof.
  revert outPre rest inPre pos. induction os as [|o os IH]; intros outPre rest inPre pos Hok Hsrc Hdyn Hlen;
    cbn [deobfuscateLoop chainBytes dynamics].
  - assert (rest = []) as -> by (by destruct rest). done.
  - apply Forall_cons in Hok as [Ho Hos].
    assert (Ho1 : lengths_ok [o]) by (apply Forall_cons; split; [done|]; by apply Forall_nil).
    pose proof (Hdyn o ltac:(left)) as Ed. cbn [dynamics] in Hlen.
    rewrite (obfuscatedLen_dyn o _ dyn Ed), <- (length_obfuscate1 o src now pos Ho1), Ed.
    set (k := (if isDynamic o then length src else 0)%nat).
    replace (if isDynamic o then Z.of_nat (length src) else 0) with (Z.of_nat k) by (unfold k; by destruct (isDynamic o)).
    assert (Hk : (k <= length rest)%nat) by (unfold k; destruct (isDynamic o); lia).
    rewrite !length_app.
    rewrite !(proj2 (Z.leb_le _ _)) by lia. cbn [andb].
    rewrite <- !Nat2Z.inj_add, !Nat2Z.id.
    replace (slice (inPre ++ obfuscate1 o src now pos ++ _) _ _) with (obfuscate1 o src now pos).
    2: { rewrite slice_app_r by lia. rewrite Nat.sub_diag, slice_app_l by lia.
         replace (length inPre + length (obfuscate1 o src now pos) - length inPre)%nat
           with (length (obfuscate1 o src now pos)) by lia. by rewrite slice_full. }
    rewrite deobfuscate1_obfuscate1; [|done|].
    2: { unfold k. rewrite length_slice; [destruct (isDynamic o); lia| |lia]. rewrite length_app. lia. }
    rewrite (app_assoc inPre), <- !length_app.
    assert (Hw : take (length outPre) (outPre ++ rest) ++ (if isDynamic o then src else []) ++
      drop (length outPre + k) (outPre ++ rest) = (outPre ++ (if isDynamic o then src else [])) ++ drop k rest).
    { rewrite take_app_length, <- app_assoc. do 2 f_equal. rewrite drop_app_ge by lia. f_equal. lia. }
    rewrite Hw. replace (length outPre + k)%nat with (length (outPre ++ (if isDynamic o then src else [])))
      by (rewrite length_app; unfold k; by destruct (isDynamic o)).
    rewrite IH; [|done|done|intros o' Ho'; apply Hdyn; by right|].
    + f_equal. f_equal. unfold k. destruct (isDynamic o); cbn; [by rewrite <- app_assoc|by rewrite app_nil_r].
    + rewrite length_drop. unfold k. destruct (isDynamic o); lia.
Qed.

Lemma sumLen_dynamics (f : obf -> Z) n os :
  (forall o, o ∈ os -> f o = if isDynamic o then n else 0) -> sumLen f os = Z.of_nat (dynamics os) * n.
Proof.
  induction os as [|o os IH]; intros Hf; cbn [sumLen foldr dynamics]; [lia|].
  unfold sumLen in IH. rewrite IH by (intros; apply Hf; by right). rewrite (Hf o) by left.
  destruct (isDynamic o); lia.
Qed.

Lemma base64_len_roundtrip n : 0 <= n -> base64DecodedLen (base64EncodedLen n) = n.
Proof. intros. unfold base64DecodedLen, base64EncodedLen. Z.div_mod_to_equations. lia. Qed.

(** The data's share of a packet of a chain with one data element. *)
Lemma sumLen_static os n : dynamics os = O ->
  sumLen (fun o => obfuscatedLen o n) os = sumLen (fun o => obfuscatedLen o 0) os.
Proof.
  induction os as [|o os IH]; cbn [dynamics sumLen foldr]; [done|]. intros H0. unfold sumLen in IH.
  rewrite IH by (destruct (isDynamic o); lia). by destruct o.
Qed.

Lemma sumLen_one os n o : dynamics os = 1%nat -> o ∈ os -> isDynamic o = true ->
  sumLen (fun o => obfuscatedLen o n) os - sumLen (fun o => obfuscatedLen o 0) os = obfuscatedLen o n.
Proof.
  induction os as [|o' os IH]; cbn [dynamics sumLen foldr]; [set_solver|].
  intros H1 [->|Ho]%elem_of_cons Hd.
  - rewrite Hd in H1. pose proof (sumLen_static os n ltac:(lia)) as E. unfold sumLen in E.
    assert (obfuscatedLen o' 0 = 0) by (by destruct o'). lia.
  - destruct (isDynamic o') eqn:E'.
    + exfalso. clear IH. assert (dynamics os = O) as H0 by lia. revert H0 Ho Hd. clear.
      induction os as [|o2 os IH]; cbn [dynamics]; [set_solver|]. intros H0 [->|Ho]%elem_of_cons Hd.
      * rewrite Hd in H0. lia.
      * apply IH; [lia|done|done].
    + specialize (IH ltac:(lia) Ho Hd). unfold sumLen in IH. assert (obfuscatedLen o' n = obfuscatedLen o' 0) by (by destruct o').
      lia.
Qed.

Lemma dynamicLen_spec c (src : list Z) :
  dynamics (obfs c) = 1%nat ->
  forall o, o ∈ obfs c ->
  deobfuscatedLen o (sumLen (fun o => obfuscatedLen o (Z.of_nat (length src))) (obfs c) - ObfuscatedLen c 0) =
    if isDynamic o then Z.of_nat (length src) else 0.
Proof.
  intros Hdyn o Ho. destruct (isDynamic o) eqn:E; [|by destruct o].
  rewrite ObfuscatedLen_sum, (sumLen_one _ _ o) by done.
  destruct o; cbn in *; try done. apply base64_len_roundtrip. lia.
Qed.

(** A chain writes exactly [ObfuscatedLen] bytes, and a chain with one data
    element gives the data back: [Deobfuscate] accepts what [Obfuscate] wrote,
    whatever the clock and the random bytes were. *)
Theorem obf_roundtrip c src now pos :
  lengths_ok (obfs c) -> bytes_ok src -> dynamics (obfs c) = 1%nat ->
  exists out pos', obfuscated c src now pos = Some (out, pos') /\
    Z.of_nat (length out) = ObfuscatedLen c (Z.of_nat (length src)) /\
    deobfuscated c out = Some (true, src).
Proof.
  intros Hok Hsrc Hdyn. rewrite obfuscated_spec by done. eexists _, _. split; [reflexivity|].
  pose proof (length_chainBytes (obfs c) src now pos Hok) as Hlen. rewrite ObfuscatedLen_sum. split; [done|].
  unfold deobfuscated. rewrite DeobfuscatedLen_sum, Hlen.
  set (dyn := _ - ObfuscatedLen c 0).
  assert (Hd : forall o, o ∈ obfs c -> deobfuscatedLen o dyn = if isDynamic o then Z.of_nat (length src) else 0)
    by (apply dynamicLen_spec; done).
  assert (Hs : sumLen (fun o => deobfuscatedLen o dyn) (obfs c) = Z.of_nat (length src)).
  { rewrite (sumLen_dynamics _ (Z.of_nat (length src))), Hdyn by done. lia. }
  rewrite Hs. unfold makeBytes. rewrite (proj2 (Z.leb_le 0 _)), Nat2Z.id by lia.
  unfold Deobfuscate. rewrite Hlen. fold dyn.
  pose proof (deobfuscateLoop_spec (obfs c) [] (zeros (length src)) [] src now pos dyn Hok Hsrc Hd) as E.
  cbn [app length] in E. change (Z.of_nat 0) with 0 in E. rewrite E.
  - rewrite Hdyn. cbn. by rewrite app_nil_r.
  - unfold zeros. rewrite length_replicate. lia.
Qed.
End Roundtrip.

(** ** What the parser accepts *)

(** A piece of a specification: text without [<], then a tag without [>]. *)
Abbreviation segment := (list Z * list Z)%type.
Definition seg_ok (s : segment) : Prop := Forall (fun x => x <> 60) s.1 /\ Forall (fun x => x <> 62) s.2.
Definition renderSeg (s : segment) : list Z := s.1 ++ [60] ++ s.2 ++ [62].

Definition okTags (segs : list segment) : list obf :=
  omap (fun s => match buildTag s.2 with Ok o => Some o | Err _ => None end) segs.
Definition badTags (segs : list segment) : list obfError :=
  omap (fun s => match buildTag s.2 with Ok _ => None | Err e => Some e end) segs.

Lemma parseTags_spec segs fuel tail os errs :
  Forall seg_ok segs -> Forall (fun x => x <> 60) tail -> (length segs < fuel)%nat ->
  parseTags fuel (concat (renderSeg <$> segs) ++ tail) os errs = Ok (os ++ okTags segs, errs ++ badTags segs).
Proof.
  revert fuel os errs. induction segs as [|[junk tag] segs IH]; intros fuel os errs Hok Ht Hf;
    (destruct fuel as [|fuel]; [cbn in Hf; lia|]).
  { cbn [parseTags fmap list_fmap concat app]. rewrite indexByte_none by done. by rewrite !app_nil_r. }
  apply Forall_cons in Hok as [[Hj Htag] Hok]. cbn [fst snd] in Hj, Htag.
  set (rest := concat (renderSeg <$> segs) ++ tail).
  assert (Hin : concat (renderSeg <$> (junk, tag) :: segs) ++ tail = junk ++ 60 :: (tag ++ 62 :: rest)).
  { unfold rest. cbn [fmap list_fmap concat]. unfold renderSeg. cbn [fst snd].
    rewrite <- !app_assoc. done. }
  rewrite Hin. clear Hin. cbn [parseTags].
  rewrite indexByte_app by done. cbv beta iota. rewrite drop_app_length.
  replace (60 :: tag ++ 62 :: rest) with ((60 :: tag) ++ 62 :: rest) by done.
  rewrite (indexByte_app 62 (60 :: tag)) by (apply Forall_cons; split; [lia|done]). cbv beta iota zeta.
  replace (drop (length (60 :: tag) + length junk + 1) (junk ++ (60 :: tag) ++ 62 :: rest)) with rest.
  2: { rewrite app_assoc. rewrite drop_app_ge by (rewrite length_app; lia).
       replace (_ - _)%nat with 1%nat by (rewrite length_app; lia). done. }
  replace (slice (junk ++ (60 :: tag) ++ 62 :: rest) (length junk + 1) (length (60 :: tag) + length junk)) with tag.
  2: { rewrite slice_app_r by lia. cbn [app length].
       replace (length junk + 1 - length junk)%nat with 1%nat by lia.
       replace (S (length tag) + length junk - length junk)%nat with (S (length tag)) by lia.
       unfold slice. rewrite Nat.sub_succ, Nat.sub_0_r. cbn [drop]. symmetry. apply take_app_length. }
  unfold okTags, badTags. cbn [omap list_omap snd]. unfold rest.
  destruct (buildTag tag) as [o|e]; rewrite IH by (done || (cbn in Hf; lia)); unfold okTags, badTags;
    by rewrite <- ?app_assoc.
Qed.

(** A specification is read tag by tag, whatever text lies between the tags:
    the chain has the elements of the tags in their order, and if any tag is bad
    the result is the errors of all the bad ones. *)
Theorem newObfChain_tags segs tail :
  Forall seg_ok segs -> Forall (fun x => x <> 60) tail ->
  let spec := concat (renderSeg <$> segs) ++ tail in
  newObfChain spec =
    if decide (badTags segs = []) then
      Ok (if decide (okTags segs = []) then None else Some (mkChain spec (okTags segs)))
    else Err (badTags segs).
Proof.
  intros Hok Ht spec. unfold newObfChain. subst spec.
  assert (Hlen : (length segs < S (length (concat (renderSeg <$> segs) ++ tail)))%nat).
  { rewrite length_app. assert (H : (length segs <= length (concat (renderSeg <$> segs)))%nat); [|lia].
    clear. induction segs as [|s segs IH]; cbn; [lia|]. rewrite length_app. unfold renderSeg at 1.
    rewrite !length_app. cbn. lia. }
  rewrite parseTags_spec by done. cbn [app rbind].
  destruct (decide (badTags segs = [])); [|done]. by destruct (decide (okTags segs = [])).
Qed.

(** *** Witnesses: the chain [<b 0xc0ff><ds><rc 3><t>] *)

#[local] Instance sampleEntropy : Entropy := fun i => Z.of_nat i * 37 + 11.

Definition sampleSpec : list Z := str "<b 0xc0ff><ds><rc 3><t>".

Lemma newObfChain_tags_witness :
  newObfChain sampleSpec =
    Ok (Some (mkChain sampleSpec [bytesObf [192; 255]; dataStringObf; randCharObf 3; timestampObf])).
Proof.
  etransitivity;
    [apply (newObfChain_tags [([], str "b 0xc0ff"); ([], str "ds"); ([], str "rc 3"); ([], str "t")] [])|reflexivity].
  - vm_compute. repeat first [discriminate | constructor].
  - constructor.
Defined.

Lemma obf_roundtrip_witness :
  exists out, deobfuscated (mkChain sampleSpec [bytesObf [192; 255]; dataStringObf; randCharObf 3; timestampObf]) out
    = Some (true, [1; 2; 3; 250]).
Proof.
  destruct (obf_roundtrip (mkChain sampleSpec [bytesObf [192; 255]; dataStringObf; randCharObf 3; timestampObf])
    [1; 2; 3; 250] 1700000000 0) as (out & pos' & _ & _ & H).
  - cbn. repeat (apply Forall_cons; split; [lia || done|]). by apply Forall_nil.
  - repeat (apply Forall_cons; split; [unfold is_u8; lia|]). by apply Forall_nil.
  - reflexivity.
  - by exists out.
Defined.

(** A negative length gets through the parser, and writing the packet then
    panics. *)
Example negative_length_panics :
  match newObfChain (str "<r -1>") with
  | Ok (Some c) => obfuscated c [] 0 0
  | _ => Some ([], 0%nat)
  end = None.
Proof. vm_compute. reflexivity. Qed.
