(* ===== verification/DeviceTypes.v ===== *)
(** * The data of the device ([src/awg-ios/device/{device,peer,keypair,indextable,cookie,send,receive,timers}.go])

    A pointer to a peer, a keypair or a queue container is a natural number: the
    device holds the stores.  [time.Time] is nanoseconds since the Unix epoch;
    the clock of a handler is the field [now].  Network and TUN output is
    appended to [sent] and [tunWritten].  Three fields are not in the code:
    [consuming] are the messages that handshake workers have checked or taken and
    not yet finished with, [spinning] says that a worker never left the loop of [NewIndexForHandshake]
    (the model gives up after a number of draws), and [sealedLog] records the
    keypair and the nonce of every sealed packet.  Mutexes, pools and log lines are left
    out: handlers run one at a time. *)

From stdpp Require Import base numbers list gmap.
From Stdlib Require Import ZArith Lia.
From S2P Require Import Prelude NoiseTypes Replay RateLimiter Tai64n AllowedIPs Obf.

(** ** Time *)

Definition Millisecond : Z := 1000000.
Definition Second : Z := 1000000000.

(** [time.Time{}]: the year 1. *)
Definition zeroTime : Z := -62135596800 * Second.

(** ** Protocol constants *)

Definition RekeyAfterMessages : Z := Z.shiftl 1 60.
Definition RejectAfterMessages : Z := Z.shiftl 1 64 - Z.shiftl 1 13 - 1.
Definition RekeyAfterTime : Z := Second * 120.
Definition RekeyAttemptTime : Z := Second * 90.
Definition RekeyTimeout : Z := Second * 5.
Definition MaxTimerHandshakes : Z := 90 / 5.
Definition RekeyTimeoutJitterMaxMs : Z := 334.
Definition RejectAfterTime : Z := Second * 180.
Definition KeepaliveTimeout : Z := Second * 10.
Definition CookieRefreshTime : Z := Second * 120.
Definition HandshakeInitationRate : Z := Second / 50.
Definition PaddingMultiple : Z := 16.
Definition DefaultUdpWindow : Z := 500.
Definition UnderLoadAfterTime : Z := Second.
Definition MaxPeers : nat := Z.to_nat (Z.shiftl 1 16).

(** Queue sizes of the iOS build. *)
Definition QueueStagedSize : nat := 128.
Definition QueueHandshakeSize : nat := 1024.
Definition MaxSegmentSize : Z := 1700.

(** Message types and sizes. *)
Definition MessageUnknownType : Z := 0.
Definition MessageInitiationType : Z := 1.
Definition MessageResponseType : Z := 2.
Definition MessageCookieReplyType : Z := 3.
Definition MessageTransportType : Z := 4.
Definition MessageInitiationSize : Z := 148.
Definition MessageResponseSize : Z := 92.
Definition MessageCookieReplySize : Z := 64.
Definition MessageTransportHeaderSize : Z := 16.
Definition MessageTransportSize : Z := MessageTransportHeaderSize + 16.
Definition MessageKeepaliveSize : Z := MessageTransportSize.
Definition MinMessageSize : Z := MessageKeepaliveSize.
Definition MaxMessageSize : Z := MaxSegmentSize.
Definition MaxContentSize : Z := MaxSegmentSize - MessageTransportSize.
Definition MessageTransportOffsetReceiver : nat := 4.
Definition MessageTransportOffsetCounter : nat := 8.
Definition MessageTransportOffsetContent : nat := 16.

(** ** Handshakes and keypairs *)

Inductive handshakeState :=
  | handshakeZeroed | handshakeInitiationCreated | handshakeInitiationConsumed
  | handshakeResponseCreated | handshakeResponseConsumed.

#[global] Instance handshakeState_eq_dec : EqDecision handshakeState.
Proof. solve_decision. Defined.

Record Handshake := mkHandshake {
  hsState : handshakeState;
  hsHash : list Z;
  hsChainKey : list Z;
  presharedKey : list Z;
  localEphemeral : list Z;
  hsLocalIndex : Z;
  hsRemoteIndex : Z;
  remoteStatic : list Z;
  remoteEphemeral : list Z;
  precomputedStaticStatic : list Z;
  lastTimestamp : list Z;
  lastInitiationConsumption : Z;
  lastSentHandshake : Z
}.
#[global] Instance rebuild_Handshake : Rebuild Handshake := fun h =>
  mkHandshake (hsState h) (hsHash h) (hsChainKey h) (presharedKey h) (localEphemeral h) (hsLocalIndex h)
    (hsRemoteIndex h) (remoteStatic h) (remoteEphemeral h) (precomputedStaticStatic h) (lastTimestamp h)
    (lastInitiationConsumption h) (lastSentHandshake h).

Definition zeroHandshake : Handshake :=
  mkHandshake handshakeZeroed (zeros 32) (zeros 32) (zeros 32) (zeros 32) 0 0 (zeros 32) (zeros 32) (zeros 32)
    zeroTimestamp zeroTime zeroTime.

Record Keypair := mkKeypair {
  sendNonce : Z;
  kpSend : list Z;
  kpReceive : list Z;
  replayFilter : Filter;
  isInitiator : bool;
  created : Z;
  kpLocalIndex : Z;
  kpRemoteIndex : Z
}.
#[global] Instance rebuild_Keypair : Rebuild Keypair := fun k =>
  mkKeypair (sendNonce k) (kpSend k) (kpReceive k) (replayFilter k) (isInitiator k) (created k)
    (kpLocalIndex k) (kpRemoteIndex k).

Record Keypairs := mkKeypairs { current : option nat; previous : option nat; next : option nat }.
#[global] Instance rebuild_Keypairs : Rebuild Keypairs := fun k => mkKeypairs (current k) (previous k) (next k).

(** An entry of the index table; the handshake is the one of that peer. *)
Record IndexTableEntry := mkIndexEntry { iePeer : option nat; ieHandshake : option nat; ieKeypair : option nat }.

Definition nilEntry : IndexTableEntry := mkIndexEntry None None None.

(** ** Cookies *)

Record CookieChecker := mkChecker {
  ccMac1Key : list Z; ccSecret : list Z; ccSecretSet : Z; ccEncryptionKey : list Z
}.
#[global] Instance rebuild_CookieChecker : Rebuild CookieChecker := fun c =>
  mkChecker (ccMac1Key c) (ccSecret c) (ccSecretSet c) (ccEncryptionKey c).

Record CookieGenerator := mkGenerator {
  cgMac1Key : list Z; cgCookie : list Z; cgCookieSet : Z; cgHasLastMAC1 : bool; cgLastMAC1 : list Z;
  cgEncryptionKey : list Z
}.
#[global] Instance rebuild_CookieGenerator : Rebuild CookieGenerator := fun c =>
  mkGenerator (cgMac1Key c) (cgCookie c) (cgCookieSet c) (cgHasLastMAC1 c) (cgLastMAC1 c) (cgEncryptionKey c).

Definition zeroChecker : CookieChecker := mkChecker (zeros 32) (zeros 32) zeroTime (zeros 32).
Definition zeroGenerator : CookieGenerator := mkGenerator (zeros 32) (zeros 16) zeroTime false (zeros 16) (zeros 32).

(** ** Timers, endpoints, queues *)

(** [duration] is the field of the code's [Timer]; [deadline] is when the
    underlying [time.Timer] fires, if it is armed. *)
Record Timer := mkTimer { duration : Z; deadline : option Z }.
#[global] Instance rebuild_Timer : Rebuild Timer := fun t => mkTimer (duration t) (deadline t).

Record PeerTimers := mkTimers {
  retransmitHandshake : Timer;
  sendKeepalive : Timer;
  newHandshake : Timer;
  zeroKeyMaterial : Timer;
  persistentKeepalive : Timer;
  handshakeAttempts : Z;
  maxHandshakeAttempts : Z;
  needAnotherKeepalive : bool;
  sentLastMinuteHandshake : bool
}.
#[global] Instance rebuild_PeerTimers : Rebuild PeerTimers := fun t =>
  mkTimers (retransmitHandshake t) (sendKeepalive t) (newHandshake t) (zeroKeyMaterial t) (persistentKeepalive t)
    (handshakeAttempts t) (maxHandshakeAttempts t) (needAnotherKeepalive t) (sentLastMinuteHandshake t).

Definition stoppedTimer : Timer := mkTimer 0 None.

(** A [conn.Endpoint]: its identity, the bytes of its destination and the
    destination's address. *)
Record Endpoint := mkEndpoint { epId : nat; dstBytes : list Z; dstIP : list Z }.
#[global] Instance Endpoint_eq_dec : EqDecision Endpoint.
Proof. solve_decision. Defined.

Record PeerEndpoint := mkPeerEndpoint { epVal : option Endpoint; clearSrcOnTx : bool; disableRoaming : bool }.
#[global] Instance rebuild_PeerEndpoint : Rebuild PeerEndpoint := fun e =>
  mkPeerEndpoint (epVal e) (clearSrcOnTx e) (disableRoaming e).

(** [QueueOutboundElement]: [oePacket] is the TUN packet, then the datagram;
    [None] is a packet dropped by the encryption worker. *)
Record OutElem := mkOutElem {
  oePacket : option (list Z); oeNonce : Z; oeKeypair : option nat; oePeer : option nat; oePadding : Z;
  isKeepalive : bool
}.
#[global] Instance rebuild_OutElem : Rebuild OutElem := fun e =>
  mkOutElem (oePacket e) (oeNonce e) (oeKeypair e) (oePeer e) (oePadding e) (isKeepalive e).

(** [QueueInboundElement]: [ielPacket] is the datagram after the padding, then
    the plaintext; [None] when decryption failed. *)
Record InElem := mkInElem {
  ielPacket : option (list Z); ielCounter : Z; ielKeypair : nat; ielEndpoint : Endpoint; ielPadding : Z
}.
#[global] Instance rebuild_InElem : Rebuild InElem := fun e =>
  mkInElem (ielPacket e) (ielCounter e) (ielKeypair e) (ielEndpoint e) (ielPadding e).

(** A container of a batch, locked until its worker is done. *)
Record Container (A : Type) := mkContainer { locked : bool; elems : list A }.
Arguments mkContainer {A}.
Arguments locked {A}.
Arguments elems {A}.

Record QueueHandshakeElement := mkHsElem { heMsgType : Z; hePacket : list Z; heEndpoint : Endpoint }.

(** What a handshake worker holds between two sections of its handler that lock
    anew: after the check of an initiation or of a response, and after the update
    of the handshake. *)
Inductive handshakeWork :=
  | initiationChecked (p : nat) (timestamp hash chainKey : list Z) (sender : Z) (ephemeral : list Z) (ep : Endpoint) (size : Z)
  | initiationConsumed (p : nat) (ep : Endpoint) (size : Z)
  | responseChecked (hp : nat) (peer : option nat) (hash chainKey : list Z) (sender : Z) (ep : Endpoint) (size : Z)
  | responseConsumed (p : nat) (ep : Endpoint) (size : Z).

(** ** Peers *)

Record Peer := mkPeer {
  isRunning : bool;
  keypairs : Keypairs;
  handshake : Handshake;
  txBytes : Z;
  rxBytes : Z;
  lastHandshakeNano : Z;
  endpoint : PeerEndpoint;
  timers : PeerTimers;
  staged : list (list OutElem);
  outbound : list (option nat);
  inbound : list (option nat);
  cookieGenerator : CookieGenerator;
  persistentKeepaliveInterval : Z;
  udpWindow : Z
}.
#[global] Instance rebuild_Peer : Rebuild Peer := fun p =>
  mkPeer (isRunning p) (keypairs p) (handshake p) (txBytes p) (rxBytes p) (lastHandshakeNano p) (endpoint p)
    (timers p) (staged p) (outbound p) (inbound p) (cookieGenerator p) (persistentKeepaliveInterval p) (udpWindow p).

(** [new(Peer)] (and [&Peer{}], the placeholder of the configuration). *)
Definition zeroPeer : Peer :=
  mkPeer false (mkKeypairs None None None) zeroHandshake 0 0 0 (mkPeerEndpoint None false false)
    (mkTimers stoppedTimer stoppedTimer stoppedTimer stoppedTimer stoppedTimer 0 0 false false)
    [] [] [] zeroGenerator 0 0.

(** ** The device *)

Inductive deviceState := deviceStateDown | deviceStateUp | deviceStateClosed.
#[global] Instance deviceState_eq_dec : EqDecision deviceState.
Proof. solve_decision. Defined.

(** Four values, one per message type: headers or paddings. *)
Record PerType := mkPerType { tInit : Z; tResponse : Z; tCookie : Z; tTransport : Z }.
#[global] Instance rebuild_PerType : Rebuild PerType := fun t =>
  mkPerType (tInit t) (tResponse t) (tCookie t) (tTransport t).

Record Junk := mkJunk { junkMin : Z; junkMax : Z; junkCount : Z }.
#[global] Instance rebuild_Junk : Rebuild Junk := fun j => mkJunk (junkMin j) (junkMax j) (junkCount j).

Record Timings := mkTimings {
  rekeyAfterTimeSec : Z; rekeyTimeoutSec : Z; rejectAfterTimeSec : Z; keepaliveTimeoutSec : Z; maxHandshakeAttempsR : Z
}.
#[global] Instance rebuild_Timings : Rebuild Timings := fun t =>
  mkTimings (rekeyAfterTimeSec t) (rekeyTimeoutSec t) (rejectAfterTimeSec t) (keepaliveTimeoutSec t)
    (maxHandshakeAttempsR t).

(** [device.net]: whether sockets are open, and the marks given to them. *)
Record NetState := mkNet { bindOpen : bool; port : Z; fwmark : Z; brokenRoaming : bool }.
#[global] Instance rebuild_NetState : Rebuild NetState := fun n =>
  mkNet (bindOpen n) (port n) (fwmark n) (brokenRoaming n).

Record Device := mkDevice {
  state : deviceState;
  net : NetState;
  privateKey : list Z;
  publicKeyOf : list Z;
  keyMap : gmap (list Z) nat;
  peerStore : gmap nat Peer;
  keypairStore : gmap nat Keypair;
  underLoadUntil : Z;
  limiter : Ratelimiter;
  allowedips : AllowedIPs;
  indexTable : gmap Z IndexTableEntry;
  cookieChecker : CookieChecker;
  encryptionQ : list nat;
  decryptionQ : list nat;
  handshakeQ : list QueueHandshakeElement;
  outStore : gmap nat (Container OutElem);
  inStore : gmap nat (Container InElem);
  mtu : Z;
  junk : Junk;
  headers : PerType;
  paddings : PerType;
  ipackets : list (option obfChain);
  headerProtectionKey : list Z;
  contentPaddingAddition : Z;
  timings : Timings;
  randomTrailers : bool;
  disableCookies : bool;
  now : Z;
  drawn : nat;
  sent : list (Endpoint * list (list Z));
  tunWritten : list (list Z);
  consuming : list handshakeWork;
  spinning : bool;
  sealedLog : list (nat * Z)
}.
#[global] Instance rebuild_Device : Rebuild Device := fun d =>
  mkDevice (state d) (net d) (privateKey d) (publicKeyOf d) (keyMap d) (peerStore d) (keypairStore d)
    (underLoadUntil d) (limiter d) (allowedips d) (indexTable d) (cookieChecker d) (encryptionQ d) (decryptionQ d)
    (handshakeQ d) (outStore d) (inStore d) (mtu d) (junk d) (headers d) (paddings d) (ipackets d)
    (headerProtectionKey d) (contentPaddingAddition d) (timings d) (randomTrailers d) (disableCookies d) (now d)
    (drawn d) (sent d) (tunWritten d) (consuming d) (spinning d) (sealedLog d).

(** ** Dereferencing *)

Definition peerOf (d : Device) (p : nat) : Peer := default zeroPeer (peerStore d !! p).
Definition setPeer (p : nat) (P : Peer) (d : Device) : Device := d <| peerStore ::= <[p := P]> |>.
Definition modPeer (p : nat) (f : Peer -> Peer) (d : Device) : Device := setPeer p (f (peerOf d p)) d.
Definition hsOf (d : Device) (p : nat) : Handshake := handshake (peerOf d p).
Definition modHandshake (p : nat) (f : Handshake -> Handshake) (d : Device) : Device :=
  modPeer p (fun P => P <| handshake ::= f |>) d.
Definition modTimers (p : nat) (f : PeerTimers -> PeerTimers) (d : Device) : Device :=
  modPeer p (fun P => P <| timers ::= f |>) d.

Definition zeroKeypair : Keypair := mkKeypair 0 [] [] zeroFilter false zeroTime 0 0.
Definition keypairOf (d : Device) (k : nat) : Keypair := default zeroKeypair (keypairStore d !! k).
Definition modKeypair (k : nat) (f : Keypair -> Keypair) (d : Device) : Device :=
  d <| keypairStore ::= <[k := f (keypairOf d k)]> |>.

(** [time.Since]. *)
Definition since (d : Device) (t : Z) : Z := timeSub (now d) t.

(** ** Errors *)

Inductive goErr :=
  | ErrInvalidPublicKey | ErrNotConsumed | ErrKeypairState (s : handshakeState) | ErrNoIndex
  | ErrNoEndpoint | ErrSend | ErrDeviceClosed | ErrTooManyPeers | ErrExistingPeer | ErrBind
  | GoPanic.

Abbreviation M A := (ste Device goErr A).

(** ** Random values *)

Section Random.
Context `{Entropy}.

(** [rand.Read] of [n] bytes. *)
Definition readRandom (n : nat) : Device -> list Z * Device := fun d =>
  (randRead n (drawn d), d <| drawn ::= Nat.add n |>).

(** A word of [runtime.fastrand]; [fastrandn(n)] and [PickOne] take one. *)
Definition randWord : Device -> Z * Device := fun d =>
  let '(bs, d') := readRandom 4 d in (le_val bs, d').

Definition fastrandnD (n : Z) : Device -> Z * Device := fun d =>
  let '(w, d') := randWord d in (fastrandn n w, d').

Definition pickOne (r : Z) : Device -> Z * Device := fun d =>
  let '(w, d') := randWord d in (rangePickOne r w, d').
End Random.

(** ** A new device *)

Definition DefaultMTU : Z := 1420.

Definition rangeOne (t : Z) : Z := rangeFromUint32 t t.

(** Every field not set is zero.  [tunMTU] is what the TUN device answers;
    [t0] is the clock when the workers start. *)
Definition NewDevice (tunMTU : option Z) (t0 : Z) : Device := {|
  state := deviceStateDown;
  net := mkNet false 0 0 false;
  privateKey := zeroKey;
  publicKeyOf := zeroKey;
  keyMap := ∅;
  peerStore := ∅;
  keypairStore := ∅;
  underLoadUntil := 0;
  limiter := limiterInit;
  allowedips := emptyTable;
  indexTable := ∅;
  cookieChecker := zeroChecker;
  encryptionQ := [];
  decryptionQ := [];
  handshakeQ := [];
  outStore := ∅;
  inStore := ∅;
  mtu := default DefaultMTU tunMTU;
  junk := mkJunk 0 0 0;
  headers := mkPerType (rangeOne MessageInitiationType) (rangeOne MessageResponseType)
               (rangeOne MessageCookieReplyType) (rangeOne MessageTransportType);
  paddings := mkPerType 0 0 0 0;
  ipackets := replicate 5 None;
  headerProtectionKey := zeroKey;
  contentPaddingAddition := 0;
  timings := mkTimings 0 0 0 0 0;
  randomTrailers := false;
  disableCookies := false;
  now := t0;
  drawn := 0;
  sent := [];
  tunWritten := [];
  consuming := [];
  spinning := false;
  sealedLog := []
|}.

(** ** Lemmas: reading after writing *)

Lemma peerOf_setPeer d p P q : peerOf (setPeer p P d) q = if decide (q = p) then P else peerOf d q.
Proof.
  unfold peerOf, setPeer. cbn. rewrite lookup_insert.
  destruct (decide (p = q)), (decide (q = p)); congruence || done.
Qed.

Lemma peerOf_modPeer d p f q :
  peerOf (modPeer p f d) q = if decide (q = p) then f (peerOf d p) else peerOf d q.
Proof. apply peerOf_setPeer. Qed.

Lemma peerOf_modPeer_eq d p f : peerOf (modPeer p f d) p = f (peerOf d p).
Proof. rewrite peerOf_modPeer. by rewrite decide_True. Qed.

Lemma keypairOf_mod d k f j :
  keypairOf (modKeypair k f d) j = if decide (j = k) then f (keypairOf d k) else keypairOf d j.
Proof.
  unfold keypairOf, modKeypair. cbn. rewrite lookup_insert.
  destruct (decide (k = j)), (decide (j = k)); congruence || done.
Qed.

Lemma readRandom_length `{Entropy} n d : length (readRandom n d).1 = n.
Proof. cbn. unfold randRead. by rewrite length_fmap, length_seq. Qed.

#[export] Hint Rewrite peerOf_modPeer_eq : go_rw.
