(* ===== verification/Messages.v ===== *)
(** * The wire format of the handshake messages

    [encoding/binary] in little-endian order on the structures of
    [src/awg-ios/device/noise-protocol.go]. *)

From stdpp Require Import base numbers list.
From Stdlib Require Import ZArith Lia.
From S2P Require Import Prelude DeviceTypes.

Record MessageInitiation := mkInitiation {
  miType : Z; miSender : Z; miEphemeral : list Z; miStatic : list Z; miTimestamp : list Z;
  miMAC1 : list Z; miMAC2 : list Z
}.
#[global] Instance rebuild_MessageInitiation : Rebuild MessageInitiation := fun m =>
  mkInitiation (miType m) (miSender m) (miEphemeral m) (miStatic m) (miTimestamp m) (miMAC1 m) (miMAC2 m).

Record MessageResponse := mkResponse {
  mrType : Z; mrSender : Z; mrReceiver : Z; mrEphemeral : list Z; mrEmpty : list Z; mrMAC1 : list Z; mrMAC2 : list Z
}.
#[global] Instance rebuild_MessageResponse : Rebuild MessageResponse := fun m =>
  mkResponse (mrType m) (mrSender m) (mrReceiver m) (mrEphemeral m) (mrEmpty m) (mrMAC1 m) (mrMAC2 m).

Record MessageCookieReply := mkCookieReply { mcType : Z; mcReceiver : Z; mcNonce : list Z; mcCookie : list Z }.

(** [binary.Write]. *)
Definition marshalInitiation (m : MessageInitiation) : list Z :=
  le_bytes 4 (miType m) ++ le_bytes 4 (miSender m) ++ miEphemeral m ++ miStatic m ++ miTimestamp m ++
  miMAC1 m ++ miMAC2 m.

Definition marshalResponse (m : MessageResponse) : list Z :=
  le_bytes 4 (mrType m) ++ le_bytes 4 (mrSender m) ++ le_bytes 4 (mrReceiver m) ++ mrEphemeral m ++ mrEmpty m ++
  mrMAC1 m ++ mrMAC2 m.

Definition marshalCookieReply (m : MessageCookieReply) : list Z :=
  le_bytes 4 (mcType m) ++ le_bytes 4 (mcReceiver m) ++ mcNonce m ++ mcCookie m.

(** [binary.Read]: [None] is a short read. *)
Definition unmarshalInitiation (b : list Z) : option MessageInitiation :=
  if (148 <=? length b)%nat then
    Some (mkInitiation (le_val (slice b 0 4)) (le_val (slice b 4 8)) (slice b 8 40) (slice b 40 88) (slice b 88 116)
            (slice b 116 132) (slice b 132 148))
  else None.

Definition unmarshalResponse (b : list Z) : option MessageResponse :=
  if (92 <=? length b)%nat then
    Some (mkResponse (le_val (slice b 0 4)) (le_val (slice b 4 8)) (le_val (slice b 8 12)) (slice b 12 44)
            (slice b 44 60) (slice b 60 76) (slice b 76 92))
  else None.

Definition unmarshalCookieReply (b : list Z) : option MessageCookieReply :=
  if (64 <=? length b)%nat then
    Some (mkCookieReply (le_val (slice b 0 4)) (le_val (slice b 4 8)) (slice b 8 32) (slice b 32 64))
  else None.

(** The fields have the sizes of the structures. *)
Definition initiation_ok (m : MessageInitiation) : Prop :=
  is_u32 (miType m) /\ is_u32 (miSender m) /\ length (miEphemeral m) = 32%nat /\ length (miStatic m) = 48%nat /\
  length (miTimestamp m) = 28%nat /\ length (miMAC1 m) = 16%nat /\ length (miMAC2 m) = 16%nat.

Definition response_ok (m : MessageResponse) : Prop :=
  is_u32 (mrType m) /\ is_u32 (mrSender m) /\ is_u32 (mrReceiver m) /\ length (mrEphemeral m) = 32%nat /\
  length (mrEmpty m) = 16%nat /\ length (mrMAC1 m) = 16%nat /\ length (mrMAC2 m) = 16%nat.

Definition cookieReply_ok (m : MessageCookieReply) : Prop :=
  is_u32 (mcType m) /\ is_u32 (mcReceiver m) /\ length (mcNonce m) = 24%nat /\ length (mcCookie m) = 32%nat.

(** ** Lemmas *)

(** A field in the middle of a message. *)
Lemma slice_field (pre f post : list Z) a b :
  length pre = a -> (a + length f = b)%nat -> slice (pre ++ f ++ post) a b = f.
Proof.
  intros <- <-. rewrite slice_app_r by lia. rewrite Nat.sub_diag.
  replace (length pre + length f - length pre)%nat with (length f) by lia.
  rewrite slice_app_l by lia. apply slice_full.
Qed.

Lemma le_val_le_bytes4 z : is_u32 z -> le_val (le_bytes 4 z) = z.
Proof. intros H. rewrite le_val_le_bytes. apply Z.mod_small. exact H. Qed.

Lemma length_marshalInitiation m : initiation_ok m -> length (marshalInitiation m) = 148%nat.
Proof.
  intros (_ & _ & H1 & H2 & H3 & H4 & H5). unfold marshalInitiation.
  rewrite !length_app, !length_le_bytes, H1, H2, H3, H4, H5. done.
Qed.
Lemma length_marshalResponse m : response_ok m -> length (marshalResponse m) = 92%nat.
Proof.
  intros (_ & _ & _ & H1 & H2 & H3 & H4). unfold marshalResponse.
  rewrite !length_app, !length_le_bytes, H1, H2, H3, H4. done.
Qed.
Lemma length_marshalCookieReply m : cookieReply_ok m -> length (marshalCookieReply m) = 64%nat.
Proof.
  intros (_ & _ & H1 & H2). unfold marshalCookieReply.
  rewrite !length_app, !length_le_bytes, H1, H2. done.
Qed.

(** Peeling the fields off one by one. *)
Lemma slice_shift (p l : list Z) a b n :
  length p = n -> slice (p ++ l) (n + a) (n + b) = slice l a b.
Proof.
  intros <-. rewrite slice_app_r by lia. f_equal; lia.
Qed.

Lemma slice_head (p l : list Z) n : length p = n -> slice (p ++ l) 0 n = p.
Proof. intros <-. rewrite slice_app_l by lia. apply slice_full. Qed.

Lemma slice_all (p : list Z) n : length p = n -> slice p 0 n = p.
Proof. intros <-. apply slice_full. Qed.

Lemma unmarshal_marshal_initiation m rest :
  initiation_ok m -> unmarshalInitiation (marshalInitiation m ++ rest) = Some m.
Proof.
  intros Hm. pose proof (length_marshalInitiation m Hm) as Hl. unfold unmarshalInitiation.
  rewrite length_app, Hl, (proj2 (Nat.leb_le 148 (148 + _))) by lia.
  rewrite !slice_app_l by lia. destruct m as [ty se ep st ts m1 m2].
  destruct Hm as (Hty & Hse & H1 & H2 & H3 & H4 & H5). unfold marshalInitiation in *. cbn -[le_bytes slice] in *.
  f_equal. f_equal.
  - rewrite slice_head by apply length_le_bytes. by apply le_val_le_bytes4.
  - rewrite (slice_shift _ _ 0 4 4), slice_head by apply length_le_bytes. by apply le_val_le_bytes4.
  - rewrite (slice_shift _ _ 4 36 4), (slice_shift _ _ 0 32 4) by apply length_le_bytes. by apply slice_head.
  - rewrite (slice_shift _ _ 36 84 4), (slice_shift _ _ 32 80 4), (slice_shift _ _ 0 48 32)
      by (done || apply length_le_bytes). by apply slice_head.
  - rewrite (slice_shift _ _ 84 112 4), (slice_shift _ _ 80 108 4), (slice_shift _ _ 48 76 32), (slice_shift _ _ 0 28 48)
      by (done || apply length_le_bytes). by apply slice_head.
  - rewrite (slice_shift _ _ 112 128 4), (slice_shift _ _ 108 124 4), (slice_shift _ _ 76 92 32), (slice_shift _ _ 28 44 48),
      (slice_shift _ _ 0 16 28) by (done || apply length_le_bytes). by apply slice_head.
  - rewrite (slice_shift _ _ 128 144 4), (slice_shift _ _ 124 140 4), (slice_shift _ _ 92 108 32), (slice_shift _ _ 44 60 48),
      (slice_shift _ _ 16 32 28), (slice_shift _ _ 0 16 16) by (done || apply length_le_bytes). by apply slice_all.
Qed.

Lemma unmarshal_marshal_response m rest :
  response_ok m -> unmarshalResponse (marshalResponse m ++ rest) = Some m.
Proof.
  intros Hm. pose proof (length_marshalResponse m Hm) as Hl. unfold unmarshalResponse.
  rewrite length_app, Hl, (proj2 (Nat.leb_le 92 (92 + _))) by lia.
  rewrite !slice_app_l by lia. destruct m as [ty se re ep em m1 m2].
  destruct Hm as (Hty & Hse & Hre & H1 & H2 & H3 & H4). unfold marshalResponse in *. cbn -[le_bytes slice] in *.
  f_equal. f_equal.
  - rewrite slice_head by apply length_le_bytes. by apply le_val_le_bytes4.
  - rewrite (slice_shift _ _ 0 4 4), slice_head by apply length_le_bytes. by apply le_val_le_bytes4.
  - rewrite (slice_shift _ _ 4 8 4), (slice_shift _ _ 0 4 4), slice_head by apply length_le_bytes.
    by apply le_val_le_bytes4.
  - rewrite (slice_shift _ _ 8 40 4), (slice_shift _ _ 4 36 4), (slice_shift _ _ 0 32 4) by apply length_le_bytes.
    by apply slice_head.
  - rewrite (slice_shift _ _ 40 56 4), (slice_shift _ _ 36 52 4), (slice_shift _ _ 32 48 4), (slice_shift _ _ 0 16 32)
      by (done || apply length_le_bytes). by apply slice_head.
  - rewrite (slice_shift _ _ 56 72 4), (slice_shift _ _ 52 68 4), (slice_shift _ _ 48 64 4), (slice_shift _ _ 16 32 32),
      (slice_shift _ _ 0 16 16) by (done || apply length_le_bytes). by apply slice_head.
  - rewrite (slice_shift _ _ 72 88 4), (slice_shift _ _ 68 84 4), (slice_shift _ _ 64 80 4), (slice_shift _ _ 32 48 32),
      (slice_shift _ _ 16 32 16), (slice_shift _ _ 0 16 16) by (done || apply length_le_bytes). by apply slice_all.
Qed.

Lemma unmarshal_marshal_cookieReply m rest :
  cookieReply_ok m -> unmarshalCookieReply (marshalCookieReply m ++ rest) = Some m.
Proof.
  intros Hm. pose proof (length_marshalCookieReply m Hm) as Hl. unfold unmarshalCookieReply.
  rewrite length_app, Hl, (proj2 (Nat.leb_le 64 (64 + _))) by lia.
  rewrite !slice_app_l by lia. destruct m as [ty re no co].
  destruct Hm as (Hty & Hre & H1 & H2). unfold marshalCookieReply in *. cbn -[le_bytes slice] in *.
  f_equal. f_equal.
  - rewrite slice_head by apply length_le_bytes. by apply le_val_le_bytes4.
  - rewrite (slice_shift _ _ 0 4 4), slice_head by apply length_le_bytes. by apply le_val_le_bytes4.
  - rewrite (slice_shift _ _ 4 28 4), (slice_shift _ _ 0 24 4) by apply length_le_bytes. by apply slice_head.
  - rewrite (slice_shift _ _ 28 60 4), (slice_shift _ _ 24 56 4), (slice_shift _ _ 0 32 24)
      by (done || apply length_le_bytes). by apply slice_all.
Qed.
