(* ===== verification/Noise.v ===== *)
(** * The handshake ([src/awg-ios/device/{noise-protocol,indextable,keypair}.go])

    Noise IKpsk2 as the device runs it: the handlers that create and consume the
    two messages, the derivation of a keypair and the rotation of keypairs, each
    with the index table it updates. *)

From stdpp Require Import base numbers list gmap strings.
From Stdlib Require Import ZArith Lia.
From S2P Require Import Prelude GoStrings NoiseTypes Crypto Replay Tai64n DeviceTypes Messages.

Section Noise.
Context `{C : Crypto} `{N : Entropy}.

(** ** The index table *)

Definition indexDelete (i : Z) (d : Device) : Device := d <| indexTable ::= delete i |>.

Definition indexLookup (d : Device) (i : Z) : IndexTableEntry := default nilEntry (indexTable d !! i).

Definition SwapIndexForKeypair (i : Z) (k : nat) (d : Device) : Device :=
  match indexTable d !! i with
  | None => d
  | Some e => d <| indexTable ::= <[i := mkIndexEntry (iePeer e) None (Some k)]> |>
  end.

(** The loop of [NewIndexForHandshake] draws until it meets an unused index;
    [indexFuel] draws are looked at, then the worker counts as
    [spinning]. *)
Definition indexFuel : nat := 64.

Fixpoint newIndexLoop (fuel : nat) (p : nat) (d : Device) : result goErr Z * Device :=
  match fuel with
  | O => (Err ErrNoIndex, d <| spinning := true |>)
  | S fuel' =>
      let '(index, d) := randWord d in
      match indexTable d !! index with
      | Some _ => newIndexLoop fuel' p d
      | None => (Ok index, d <| indexTable ::= <[index := mkIndexEntry (Some p) (Some p) None]> |>)
      end
  end.

Definition NewIndexForHandshake (p : nat) : M Z := newIndexLoop indexFuel p.

(** ** Hash and key chains *)

Definition NoiseConstruction : list Z := str "Noise_IKpsk2_25519_ChaChaPoly_BLAKE2s".
Definition WGIdentifier : list Z := str "WireGuard v1 zx2c4 Jason@zx2c4.com".
Definition ZeroNonce : list Z := zeros 12.

Definition mixKey (c data : list Z) : list Z := KDF1 c data.
Definition mixHash (h data : list Z) : list Z := hash256 (h ++ data).

Definition InitialChainKey : list Z := hash256 NoiseConstruction.
Definition InitialHash : list Z := mixHash InitialChainKey WGIdentifier.

Definition handshakeClear (h : Handshake) : Handshake :=
  h <| localEphemeral := zeros 32 |> <| remoteEphemeral := zeros 32 |> <| hsChainKey := zeros 32 |>
    <| hsHash := zeros 32 |> <| hsLocalIndex := 0 |> <| hsState := handshakeZeroed |>.

Definition hsMixHash (p : nat) (data : list Z) : Device -> Device :=
  modHandshake p (fun h => h <| hsHash := mixHash (hsHash h) data |>).
Definition hsMixKey (p : nat) (data : list Z) : Device -> Device :=
  modHandshake p (fun h => h <| hsChainKey := mixKey (hsChainKey h) data |>).

(** [tai64n.Now()]. *)
Definition tai64nNow (d : Device) : list Z := stamp (now d / Second) (now d mod Second).

Definition liftD {A} (f : Device -> A * Device) : M A := fun d => let '(a, d') := f d in (Ok a, d').
Definition gets {A} (f : Device -> A) : M A := fun d => (Ok (f d), d).
Definition orErr {A} (o : option A) (e : goErr) : M A :=
  match o with Some a => sret a | None => sfail e end.

(** ** The initiator's message *)

Definition CreateMessageInitiation (p : nat) : M MessageInitiation :=
  smod (modHandshake p (fun h => h <| hsHash := InitialHash |> <| hsChainKey := InitialChainKey |>)) >>>
  do rnd <- liftD (readRandom 32) ;;
  smod (modHandshake p (fun h => h <| localEphemeral := newPrivateKey rnd |>)) >>>
  do h <- gets (fun d => hsOf d p) ;;
  smod (hsMixHash p (remoteStatic h)) >>>
  do hdr <- gets (fun d => tInit (headers d)) ;;
  do msgType <- liftD (pickOne hdr) ;;
  let ephemeral := publicKey (localEphemeral h) in
  smod (hsMixKey p ephemeral) >>>
  smod (hsMixHash p ephemeral) >>>
  do ss <- orErr (sharedSecret (localEphemeral h) (remoteStatic h)) ErrInvalidPublicKey ;;
  do ck <- gets (fun d => hsChainKey (hsOf d p)) ;;
  let '(ck, key) := KDF2 ck ss in
  smod (modHandshake p (fun h => h <| hsChainKey := ck |>)) >>>
  do hash <- gets (fun d => hsHash (hsOf d p)) ;;
  do pub <- gets publicKeyOf ;;
  let static := seal key ZeroNonce pub hash in
  smod (hsMixHash p static) >>>
  if isZero (precomputedStaticStatic h) then sfail ErrInvalidPublicKey
  else
    let '(ck, key) := KDF2 ck (precomputedStaticStatic h) in
    smod (modHandshake p (fun h => h <| hsChainKey := ck |>)) >>>
    do ts <- gets tai64nNow ;;
    do hash <- gets (fun d => hsHash (hsOf d p)) ;;
    let timestamp := seal key ZeroNonce ts hash in
    smod (fun d => indexDelete (hsLocalIndex (hsOf d p)) d) >>>
    do sender <- NewIndexForHandshake p ;;
    smod (modHandshake p (fun h => h <| hsLocalIndex := sender |>)) >>>
    smod (hsMixHash p timestamp) >>>
    smod (modHandshake p (fun h => h <| hsState := handshakeInitiationCreated |>)) >>>
    sret (mkInitiation msgType sender ephemeral static timestamp (zeros 16) (zeros 16)).

(** ** The responder *)

Definition LookupPeer (d : Device) (pk : list Z) : option nat := keyMap d !! pk.

(** What the message opens to: the sender's static key, its peer, the timestamp
    and the transcript; [None] is every way it can be invalid. *)
Definition openInitiation (d : Device) (msg : MessageInitiation)
    : option (nat * list Z * list Z * list Z) :=
  if miType msg =? MessageInitiationType then
    let hash := mixHash InitialHash (publicKeyOf d) in
    let hash := mixHash hash (miEphemeral msg) in
    let chainKey := mixKey InitialChainKey (miEphemeral msg) in
    ss ← sharedSecret (privateKey d) (miEphemeral msg);
    let '(chainKey, key) := KDF2 chainKey ss in
    peerPK ← open key ZeroNonce (miStatic msg) hash;
    let hash := mixHash hash (miStatic msg) in
    p ← LookupPeer d peerPK;
    if isRunning (peerOf d p) then
      let pss := precomputedStaticStatic (hsOf d p) in
      if isZero pss then None
      else
        let '(chainKey, key) := KDF2 chainKey pss in
        timestamp ← open key ZeroNonce (miTimestamp msg) hash;
        Some (p, timestamp, mixHash hash (miTimestamp msg), chainKey)
    else None
  else None.

(** [ConsumeMessageInitiation] up to the release of the read lock: the tests
    against replay and flood. *)
Definition checkInitiation (msg : MessageInitiation) (d : Device)
    : option (nat * list Z * list Z * list Z) :=
  '(p, timestamp, hash, chainKey) ← openInitiation d msg;
  let h := hsOf d p in
  let replay := negb (tai64nAfter timestamp (lastTimestamp h)) in
  let flood := since d (lastInitiationConsumption h) <=? HandshakeInitationRate in
  if replay then None
  else if flood then None
  else Some (p, timestamp, hash, chainKey).

(** Its second section, under the write lock.  Other workers may run between the
    two. *)
Definition updateInitiation (p : nat) (timestamp hash chainKey : list Z) (sender : Z) (ephemeral : list Z)
    (d : Device) : Device :=
  modHandshake p (fun h =>
    let h := h <| hsHash := hash |> <| hsChainKey := chainKey |> <| hsRemoteIndex := sender |>
               <| remoteEphemeral := ephemeral |> in
    let h := if tai64nAfter timestamp (lastTimestamp h) then h <| lastTimestamp := timestamp |> else h in
    let h := if lastInitiationConsumption h <? now d then h <| lastInitiationConsumption := now d |> else h in
    h <| hsState := handshakeInitiationConsumed |>) d.

(** Both sections of a worker that nobody interrupts. *)
Definition ConsumeMessageInitiation (msg : MessageInitiation) (d : Device) : option nat * Device :=
  match checkInitiation msg d with
  | None => (None, d)
  | Some (p, timestamp, hash, chainKey) =>
      (Some p, updateInitiation p timestamp hash chainKey (miSender msg) (miEphemeral msg) d)
  end.

Definition CreateMessageResponse (p : nat) : M MessageResponse :=
  do st <- gets (fun d => hsState (hsOf d p)) ;;
  if negb (bool_decide (st = handshakeInitiationConsumed)) then sfail ErrNotConsumed
  else
    smod (fun d => indexDelete (hsLocalIndex (hsOf d p)) d) >>>
    do sender <- NewIndexForHandshake p ;;
    smod (modHandshake p (fun h => h <| hsLocalIndex := sender |>)) >>>
    do hdr <- gets (fun d => tResponse (headers d)) ;;
    do msgType <- liftD (pickOne hdr) ;;
    do rnd <- liftD (readRandom 32) ;;
    smod (modHandshake p (fun h => h <| localEphemeral := newPrivateKey rnd |>)) >>>
    do h <- gets (fun d => hsOf d p) ;;
    let ephemeral := publicKey (localEphemeral h) in
    smod (hsMixHash p ephemeral) >>>
    smod (hsMixKey p ephemeral) >>>
    do ss <- orErr (sharedSecret (localEphemeral h) (remoteEphemeral h)) ErrInvalidPublicKey ;;
    smod (hsMixKey p ss) >>>
    do ss <- orErr (sharedSecret (localEphemeral h) (remoteStatic h)) ErrInvalidPublicKey ;;
    smod (hsMixKey p ss) >>>
    do ck <- gets (fun d => hsChainKey (hsOf d p)) ;;
    let '(ck, tau, key) := KDF3 ck (presharedKey h) in
    smod (modHandshake p (fun h => h <| hsChainKey := ck |>)) >>>
    smod (hsMixHash p tau) >>>
    do hash <- gets (fun d => hsHash (hsOf d p)) ;;
    let empty := seal key ZeroNonce [] hash in
    smod (hsMixHash p empty) >>>
    smod (modHandshake p (fun h => h <| hsState := handshakeResponseCreated |>)) >>>
    sret (mkResponse msgType sender (hsRemoteIndex h) ephemeral empty (zeros 16) (zeros 16)).

(** ** The initiator completes *)

(** The closure that authenticates the response: the transcript on success. *)
Definition openResponse (d : Device) (h : Handshake) (msg : MessageResponse) : option (list Z * list Z) :=
  if bool_decide (hsState h = handshakeInitiationCreated) then
    let hash := mixHash (hsHash h) (mrEphemeral msg) in
    let chainKey := mixKey (hsChainKey h) (mrEphemeral msg) in
    ss ← sharedSecret (localEphemeral h) (mrEphemeral msg);
    let chainKey := mixKey chainKey ss in
    ss ← sharedSecret (privateKey d) (mrEphemeral msg);
    let chainKey := mixKey chainKey ss in
    let '(chainKey, tau, key) := KDF3 chainKey (presharedKey h) in
    let hash := mixHash hash tau in
    _ ← open key ZeroNonce (mrEmpty msg) hash;
    Some (mixHash hash (mrEmpty msg), chainKey)
  else None.

(** [ConsumeMessageResponse] up to the release of the read lock: the handshake,
    its peer, the transcript. *)
Definition checkResponse (msg : MessageResponse) (d : Device) : option (nat * option nat * list Z * list Z) :=
  if mrType msg =? MessageResponseType then
    let lookup := indexLookup d (mrReceiver msg) in
    hp ← ieHandshake lookup;
    '(hash, chainKey) ← openResponse d (hsOf d hp) msg;
    Some (hp, iePeer lookup, hash, chainKey)
  else None.

(** Its second section, under the write lock. *)
Definition updateResponse (hp : nat) (hash chainKey : list Z) (sender : Z) : Device -> Device :=
  modHandshake hp (fun h =>
    h <| hsHash := hash |> <| hsChainKey := chainKey |> <| hsRemoteIndex := sender |>
      <| hsState := handshakeResponseConsumed |>).

Definition ConsumeMessageResponse (msg : MessageResponse) (d : Device) : option nat * Device :=
  match checkResponse msg d with
  | None => (None, d)
  | Some (hp, peer, hash, chainKey) => (peer, updateResponse hp hash chainKey (mrSender msg) d)
  end.

(** ** Keypairs *)

Definition DeleteKeypair (key : option nat) (d : Device) : Device :=
  match key with None => d | Some k => indexDelete (kpLocalIndex (keypairOf d k)) d end.

Definition setKeypairs (p : nat) (f : Keypairs -> Keypairs) : Device -> Device :=
  modPeer p (fun P => P <| keypairs ::= f |>).

(** The keys of a finished handshake: sending, receiving, the role. *)
Definition sessionKeys (h : Handshake) : option (list Z * list Z * bool) :=
  match hsState h with
  | handshakeResponseConsumed => let '(sendKey, recvKey) := KDF2 (hsChainKey h) [] in Some (sendKey, recvKey, true)
  | handshakeResponseCreated => let '(recvKey, sendKey) := KDF2 (hsChainKey h) [] in Some (sendKey, recvKey, false)
  | _ => None
  end.

(** The end of [BeginSymmetricSession]: the new keypair [k] takes its slot. *)
Definition rotateKeypairs (p k : nat) (initiator : bool) (d : Device) : Device :=
  let kps := keypairs (peerOf d p) in
  if initiator then
    let d := match next kps with
             | Some n =>
                 DeleteKeypair (current kps)
                   (setKeypairs p (fun s => s <| next := None |> <| previous := Some n |>) d)
             | None => setKeypairs p (fun s => s <| previous := current kps |>) d
             end in
    let d := DeleteKeypair (previous kps) d in
    setKeypairs p (fun s => s <| current := Some k |>) d
  else
    let d := setKeypairs p (fun s => s <| next := Some k |>) d in
    let d := DeleteKeypair (next kps) d in
    let d := setKeypairs p (fun s => s <| previous := None |>) d in
    DeleteKeypair (previous kps) d.

Definition BeginSymmetricSession (p : nat) : M unit := fun d =>
  let h := hsOf d p in
  match sessionKeys h with
  | None => (Err (ErrKeypairState (hsState h)), d)
  | Some (sendKey, recvKey, initiator) =>
      let d := modHandshake p (fun h => h <| hsChainKey := zeros 32 |> <| hsHash := zeros 32 |>
                 <| localEphemeral := zeros 32 |> <| hsState := handshakeZeroed |>) d in
      let k := base.fresh (dom (keypairStore d)) in
      let d := d <| keypairStore ::= <[k := mkKeypair 0 sendKey recvKey (filterReset zeroFilter) initiator (now d)
                                              (hsLocalIndex h) (hsRemoteIndex h)]> |> in
      let d := SwapIndexForKeypair (hsLocalIndex h) k d in
      let d := modHandshake p (fun h => h <| hsLocalIndex := 0 |>) d in
      (Ok tt, rotateKeypairs p k initiator d)
  end.

(** The responder's keypair becomes current once the initiator has used it. *)
Definition ReceivedWithKeypair (p k : nat) (d : Device) : bool * Device :=
  let kps := keypairs (peerOf d p) in
  if negb (bool_decide (next kps = Some k)) then (false, d)
  else
    let d := setKeypairs p (fun s => s <| previous := current s |>) d in
    let d := DeleteKeypair (previous kps) d in
    (true, setKeypairs p (fun s => s <| current := next s |> <| next := None |>) d).

(** ** Junk and header protection *)

Fixpoint junkLoop (n : nat) (jmin jmax : Z) (d : Device) : list (list Z) * Device :=
  match n with
  | O => ([], d)
  | S n' =>
      let '(r, d) := fastrandnD (u32 (jmax - jmin)) d in
      let '(buf, d) := readRandom (Z.to_nat (u32 (jmin + r))) d in
      let '(bufs, d) := junkLoop n' jmin jmax d in
      (buf :: bufs, d)
  end.

Definition JunkPackets (d : Device) : list (list Z) * Device :=
  junkLoop (Z.to_nat (junkCount (junk d))) (junkMin (junk d)) (junkMax (junk d)) d.

(** The key and nonce of the header cipher, unless the key is zero. *)
Definition HeaderProtectionCipher (d : Device) (salt : list Z) : option (list Z * list Z) :=
  if keyIsZero (headerProtectionKey d) then None else Some (headerProtectionKey d, salt).

End Noise.
