(* ===== verification/NoiseRun.v ===== *)
(** * Running the handshake handlers

    The handlers change a peer's handshake, the index table and the position in
    the random bytes; [upd] is the device after such changes, and every step of a
    handler takes [upd] to [upd].  The handlers' results follow in closed form. *)

From stdpp Require Import base numbers list gmap strings.
From Stdlib Require Import ZArith Lia.
From S2P Require Import Prelude GoStrings NoiseTypes Crypto Replay Tai64n DeviceTypes Messages Noise.

Section Run.
Context `{C : Crypto} `{N : Entropy}.

(** ** The device after changes to one handshake *)

Definition upd (p : nat) (h : Handshake) (i : gmap Z IndexTableEntry) (dr : nat) (d : Device) : Device :=
  setPeer p (peerOf d p <| handshake := h |>) (d <| indexTable := i |> <| drawn := dr |>).

Lemma upd_intro p f d : modHandshake p f d = upd p (f (hsOf d p)) (indexTable d) (drawn d) d.
Proof. reflexivity. Qed.

Lemma hsOf_modHandshake d p f q :
  hsOf (modHandshake p f d) q = if decide (q = p) then f (hsOf d p) else hsOf d q.
Proof. unfold hsOf, modHandshake. rewrite peerOf_modPeer. by destruct (decide (q = p)). Qed.

Lemma peerOf_upd p h i dr d q :
  peerOf (upd p h i dr d) q = if decide (q = p) then peerOf d p <| handshake := h |> else peerOf d q.
Proof. unfold upd. rewrite peerOf_setPeer. done. Qed.

Lemma hsOf_upd p h i dr d : hsOf (upd p h i dr d) p = h.
Proof. unfold hsOf. rewrite peerOf_upd, decide_True by done. done. Qed.

Lemma modHandshake_upd p f h i dr d : modHandshake p f (upd p h i dr d) = upd p (f h) i dr d.
Proof.
  unfold modHandshake, modPeer. rewrite peerOf_upd, decide_True by done.
  unfold upd, setPeer, update. cbn. rewrite insert_insert_eq. done.
Qed.

Lemma readRandom_upd n p h i dr d :
  readRandom n (upd p h i dr d) = (randRead n dr, upd p h i (n + dr)%nat d).
Proof. reflexivity. Qed.

(** The word read at a position of the random bytes. *)
Definition wordAt (pos : nat) : Z := le_val (randRead 4 pos).

Lemma randWord_upd p h i dr d : randWord (upd p h i dr d) = (wordAt dr, upd p h i (4 + dr)%nat d).
Proof. reflexivity. Qed.

Lemma pickOne_upd r p h i dr d :
  pickOne r (upd p h i dr d) = (rangePickOne r (wordAt dr), upd p h i (4 + dr)%nat d).
Proof. reflexivity. Qed.

Lemma indexDelete_upd x p h i dr d : indexDelete x (upd p h i dr d) = upd p h (delete x i) dr d.
Proof. reflexivity. Qed.

Definition hsEntry (p : nat) : IndexTableEntry := mkIndexEntry (Some p) (Some p) None.

(** An unused first draw is the index. *)
Lemma NewIndexForHandshake_upd p h i dr d : i !! wordAt dr = None ->
  NewIndexForHandshake p (upd p h i dr d) =
    (Ok (wordAt dr), upd p h (<[wordAt dr := hsEntry p]> i) (4 + dr)%nat d).
Proof.
  intros Hfree. unfold NewIndexForHandshake, indexFuel. cbn [newIndexLoop]. rewrite randWord_upd.
  change (indexTable (upd p h i (4 + dr)%nat d)) with i. rewrite Hfree. reflexivity.
Qed.

(** ** Sequencing *)

Lemma sbind_smod {S E B} (f : S -> S) (k : unit -> ste S E B) s : (smod f >>> k tt) s = k tt (f s).
Proof. reflexivity. Qed.

Lemma run_smod {S E B} (f : S -> S) (k : ste S E B) s : sbind (smod f) (fun _ => k) s = k (f s).
Proof. reflexivity. Qed.
Lemma run_gets {A B} (f : Device -> A) (k : A -> M B) d : sbind (gets f) k d = k (f d) d.
Proof. reflexivity. Qed.
Lemma run_liftD {A B} (f : Device -> A * Device) (k : A -> M B) d a d' :
  f d = (a, d') -> sbind (liftD f) k d = k a d'.
Proof. intros H. unfold sbind, liftD. by rewrite H. Qed.
Lemma run_ok {A B} (m : M A) (k : A -> M B) d a d' : m d = (Ok a, d') -> sbind m k d = k a d'.
Proof. intros H. unfold sbind. by rewrite H. Qed.
Lemma run_orErr {A B} (o : option A) e (k : A -> M B) d a : o = Some a -> sbind (orErr o e) k d = k a d.
Proof. by intros ->. Qed.

(** ** The transcript of an initiation *)

(** The responder's static key, the ephemeral key, the initiator's static key,
    the two shared secrets and the timestamp give the two ciphertexts, the hash
    and the chain key. *)
Definition initTranscript (Sr E Si ss pss ts : list Z) : list Z * list Z * list Z * list Z :=
  let ck1 := mixKey InitialChainKey E in
  let h1 := mixHash (mixHash InitialHash Sr) E in
  let '(ck2, k2) := KDF2 ck1 ss in
  let static := seal k2 ZeroNonce Si h1 in
  let h2 := mixHash h1 static in
  let '(ck3, k3) := KDF2 ck2 pss in
  let timestamp := seal k3 ZeroNonce ts h2 in
  (static, timestamp, mixHash h2 timestamp, ck3).

(** The initiator's ephemeral key: the first 32 random bytes. *)
Definition ephOf (d : Device) : list Z := newPrivateKey (randRead 32 (drawn d)).

Lemma CreateMessageInitiation_run d p ss :
  let h := hsOf d p in
  let E := publicKey (ephOf d) in
  let dr := (drawn d + 36)%nat in
  let i := delete (hsLocalIndex h) (indexTable d) in
  sharedSecret (ephOf d) (remoteStatic h) = Some ss ->
  isZero (precomputedStaticStatic h) = false ->
  i !! wordAt dr = None ->
  let '(static, timestamp, hash, ck) :=
    initTranscript (remoteStatic h) E (publicKeyOf d) ss (precomputedStaticStatic h) (tai64nNow d) in
  CreateMessageInitiation p d =
    (Ok (mkInitiation (rangePickOne (tInit (headers d)) (wordAt (drawn d + 32))) (wordAt dr) E static timestamp
           (zeros 16) (zeros 16)),
     upd p (h <| hsHash := hash |> <| hsChainKey := ck |> <| localEphemeral := ephOf d |>
              <| hsLocalIndex := wordAt dr |> <| hsState := handshakeInitiationCreated |>)
       (<[wordAt dr := hsEntry p]> i) (4 + dr)%nat d).
Proof.
  intros h E dr i Hss Hpss Hfree.
  destruct (initTranscript _ _ _ _ _ _) as [[[static timestamp] hash] ck] eqn:Htr.
  unfold CreateMessageInitiation.
  rewrite run_smod, upd_intro. rewrite (run_liftD _ _ _ _ _ (readRandom_upd _ _ _ _ _ _)).
  rewrite run_smod, modHandshake_upd, run_gets, hsOf_upd. unfold hsMixHash, hsMixKey.
  rewrite run_smod, modHandshake_upd, run_gets.
  rewrite (run_liftD _ _ _ _ _ (pickOne_upd _ _ _ _ _ _)).
  cbv zeta. rewrite !run_smod, !modHandshake_upd.
  rewrite (run_orErr _ _ _ _ ss Hss), run_gets, hsOf_upd.
  unfold initTranscript in Htr. fold h in Htr. cbn [hsChainKey update localEphemeral] in *.
  change (newPrivateKey (randRead 32 (drawn d))) with (ephOf d) in *. fold E.
  destruct (KDF2 (mixKey InitialChainKey E) ss) as [ck2 k2].
  rewrite run_smod, modHandshake_upd, !run_gets, hsOf_upd.
  rewrite run_smod, modHandshake_upd.
  match goal with |- context [isZero ?x] => change x with (precomputedStaticStatic h) end.
  rewrite Hpss. fold h.
  match goal with |- context [KDF2 ck2 ?x] => change x with (precomputedStaticStatic h) end.
  destruct (KDF2 ck2 (precomputedStaticStatic h)) as [ck3 k3].
  rewrite run_smod, modHandshake_upd, !run_gets, hsOf_upd, run_smod, hsOf_upd, indexDelete_upd.
  injection Htr as <- <- <- <-.
  replace (4 + (32 + drawn d))%nat with dr by (unfold dr; lia).
  rewrite (run_ok _ _ _ _ _ (NewIndexForHandshake_upd p _ i dr d Hfree)).
  rewrite !run_smod, !modHandshake_upd. unfold sret.
  f_equal. f_equal. replace (drawn d + 32)%nat with (32 + drawn d)%nat by lia. reflexivity.
Qed.

(** ** Opening an initiation *)

Lemma openInitiation_seal `{!CryptoLaws} d Sr E Si ss pss ts p ty sender m1 m2 :
  publicKeyOf d = Sr -> sharedSecret (privateKey d) E = Some ss ->
  keyMap d !! Si = Some p -> isRunning (peerOf d p) = true ->
  precomputedStaticStatic (hsOf d p) = pss -> isZero pss = false -> ty = MessageInitiationType ->
  let '(static, timestamp, hash, ck) := initTranscript Sr E Si ss pss ts in
  openInitiation d (mkInitiation ty sender E static timestamp m1 m2) = Some (p, ts, hash, ck).
Proof.
  intros <- Hss Hkey Hrun <- Hpss ->.
  destruct (initTranscript _ _ _ _ _ _) as [[[static timestamp] hash] ck] eqn:Htr.
  unfold initTranscript in Htr. unfold openInitiation. cbn [miType miEphemeral miStatic miTimestamp].
  rewrite Z.eqb_refl, Hss. cbn [mbind option_bind].
  destruct (KDF2 _ ss) as [ck2 k2]. destruct (KDF2 ck2 _) as [ck3 k3] eqn:E3. injection Htr as <- <- <- <-.
  rewrite open_seal. cbn [mbind option_bind]. unfold LookupPeer. rewrite Hkey. cbn [mbind option_bind].
  rewrite Hrun, Hpss, E3, open_seal. done.
Qed.

(** ** The transcript of a response *)

Definition respTranscript (hash ck E ee se psk : list Z) : list Z * list Z * list Z :=
  let h1 := mixHash hash E in
  let ck3 := mixKey (mixKey (mixKey ck E) ee) se in
  let '(ck4, tau, key) := KDF3 ck3 psk in
  let h2 := mixHash h1 tau in
  let empty := seal key ZeroNonce [] h2 in
  (empty, mixHash h2 empty, ck4).

(** The responder's ephemeral key comes after the index and the header. *)
Definition respEph (d : Device) : list Z := newPrivateKey (randRead 32 (drawn d + 8)).

Lemma CreateMessageResponse_run d p ee se :
  let h := hsOf d p in
  let E := publicKey (respEph d) in
  let i := delete (hsLocalIndex h) (indexTable d) in
  hsState h = handshakeInitiationConsumed ->
  sharedSecret (respEph d) (remoteEphemeral h) = Some ee ->
  sharedSecret (respEph d) (remoteStatic h) = Some se ->
  i !! wordAt (drawn d) = None ->
  let '(empty, hash, ck) := respTranscript (hsHash h) (hsChainKey h) E ee se (presharedKey h) in
  exists h', CreateMessageResponse p d =
    (Ok (mkResponse (rangePickOne (tResponse (headers d)) (wordAt (drawn d + 4))) (wordAt (drawn d))
           (hsRemoteIndex h) E empty (zeros 16) (zeros 16)),
     upd p h' (<[wordAt (drawn d) := hsEntry p]> i) (drawn d + 40)%nat d) /\
    h' = h <| hsHash := hash |> <| hsChainKey := ck |> <| localEphemeral := respEph d |>
           <| hsLocalIndex := wordAt (drawn d) |> <| hsState := handshakeResponseCreated |>.
Proof.
  intros h E i Hst Hee Hse Hfree.
  destruct (respTranscript _ _ _ _ _ _) as [[empty hash] ck] eqn:Htr. eexists. split; [|reflexivity].
  unfold CreateMessageResponse. rewrite run_gets. fold h. rewrite bool_decide_eq_true_2 by done. cbn [negb].
  rewrite run_smod. fold h.
  assert (E0 : indexDelete (hsLocalIndex h) d = d <| indexTable := i |>) by done. rewrite E0. clear E0.
  assert (Hnew : NewIndexForHandshake p (d <| indexTable := i |>) =
    (Ok (wordAt (drawn d)), d <| indexTable := <[wordAt (drawn d) := hsEntry p]> i |> <| drawn := (4 + drawn d)%nat |>)).
  { unfold NewIndexForHandshake, indexFuel. cbn [newIndexLoop].
    replace (randWord (d <| indexTable := i |>)) with
      (wordAt (drawn d), d <| indexTable := i |> <| drawn := (4 + drawn d)%nat |>) by reflexivity.
    change (indexTable (d <| indexTable := i |> <| drawn := _ |>)) with i. rewrite Hfree. reflexivity. }
  rewrite (run_ok _ _ _ _ _ Hnew). clear Hnew.
  rewrite run_smod, upd_intro.
  match goal with |- context [upd p ?hh ?ii ?dd ?d0] =>
    change (upd p hh ii dd d0) with (upd p (h <| hsLocalIndex := wordAt (drawn d) |>) ii (4 + drawn d)%nat d) end.
  rewrite run_gets, (run_liftD _ _ _ _ _ (pickOne_upd _ _ _ _ _ _)).
  rewrite (run_liftD _ _ _ _ _ (readRandom_upd _ _ _ _ _ _)).
  rewrite run_smod, modHandshake_upd, run_gets, hsOf_upd. unfold hsMixHash, hsMixKey. cbv zeta.
  rewrite !run_smod, !modHandshake_upd.
  replace (4 + (4 + drawn d))%nat with (drawn d + 8)%nat by lia.
  change (newPrivateKey (randRead 32 (drawn d + 8))) with (respEph d).
  rewrite (run_orErr _ _ _ _ ee Hee), run_smod, modHandshake_upd.
  rewrite (run_orErr _ _ _ _ se Hse), run_smod, modHandshake_upd, run_gets, hsOf_upd.
  unfold respTranscript in Htr. cbn [hsChainKey update localEphemeral presharedKey] in *. fold E.
  match goal with |- context [KDF3 ?x ?y] =>
    change (KDF3 x y) with (KDF3 (mixKey (mixKey (mixKey (hsChainKey h) E) ee) se) (presharedKey h)) end.
  destruct (KDF3 _ _) as [[ck4 tau] key]. injection Htr as <- <- <-.
  rewrite !run_smod, !modHandshake_upd, run_gets, hsOf_upd, !run_smod, !modHandshake_upd. unfold sret.
  replace (32 + (drawn d + 8))%nat with (drawn d + 40)%nat by lia. replace (drawn d + 4)%nat with (4 + drawn d)%nat by lia.
  reflexivity.
Qed.

Lemma openResponse_seal `{!CryptoLaws} d h E ee se hash ck ty sender receiver m1 m2 :
  hsState h = handshakeInitiationCreated -> hsHash h = hash -> hsChainKey h = ck ->
  sharedSecret (localEphemeral h) E = Some ee -> sharedSecret (privateKey d) E = Some se ->
  let '(empty, hash', ck') := respTranscript hash ck E ee se (presharedKey h) in
  openResponse d h (mkResponse ty sender receiver E empty m1 m2) = Some (hash', ck').
Proof.
  intros Hst <- <- Hee Hse. destruct (respTranscript _ _ _ _ _ _) as [[empty hash'] ck'] eqn:Htr.
  unfold respTranscript in Htr. unfold openResponse. cbn [mrEphemeral mrEmpty].
  rewrite bool_decide_eq_true_2 by done. rewrite Hee, Hse. cbn [mbind option_bind].
  destruct (KDF3 _ _) as [[ck4 tau] key]. injection Htr as <- <- <-.
  rewrite open_seal. done.
Qed.

End Run.
