(* ===== verification/NoiseInv.v ===== *)
(** * The index table and the keypairs stay consistent

    The invariant: the table's entries are exactly the pending handshakes and
    the keypairs in some peer's slots, each under its own index.  No keypair is
    left behind in the table and no slot holds a keypair the table has lost.

    The index 0 is apart.  The code takes it for the index of no handshake, so
    the invariant says nothing about the entry 0; yet [NewIndexForHandshake] may draw
    0, and a keypair derived twice from one handshake has the index 0. *)

From stdpp Require Import base numbers list gmap strings.
From Stdlib Require Import ZArith Lia.
From S2P Require Import Prelude GoStrings NoiseTypes Crypto Replay Tai64n DeviceTypes Messages Noise NoiseRun.

Definition kpEntry (p k : nat) : IndexTableEntry := mkIndexEntry (Some p) None (Some k).

(** [k] is in a slot of [kps]. *)
Definition slot (kps : Keypairs) (k : nat) : Prop :=
  current kps = Some k \/ previous kps = Some k \/ next kps = Some k.

(** No keypair is in two slots. *)
Definition slots_distinct (kps : Keypairs) : Prop :=
  forall k, (current kps = Some k -> previous kps <> Some k /\ next kps <> Some k) /\
            (previous kps = Some k -> next kps <> Some k).

(** The table against the handshakes and the keypairs [own] says peers own. *)
Record keys_rel (d : Device) (own : nat -> nat -> Prop) : Prop := {
  kr_own p k : own p k -> is_Some (keypairStore d !! k) /\
                 (kpLocalIndex (keypairOf d k) <> 0 -> indexTable d !! kpLocalIndex (keypairOf d k) = Some (kpEntry p k));
  kr_inj p q k : own p k -> own q k -> p = q;
  kr_hs p : hsLocalIndex (hsOf d p) <> 0 -> indexTable d !! hsLocalIndex (hsOf d p) = Some (hsEntry p);
  kr_entry i e : i <> 0 -> indexTable d !! i = Some e ->
    (exists p, e = hsEntry p /\ hsLocalIndex (hsOf d p) = i) \/
    (exists p k, e = kpEntry p k /\ own p k /\ kpLocalIndex (keypairOf d k) = i)
}.

Definition slotsOf (d : Device) (p k : nat) : Prop := slot (keypairs (peerOf d p)) k.

Definition keys_ok (d : Device) : Prop :=
  keys_rel d (slotsOf d) /\ forall p, slots_distinct (keypairs (peerOf d p)).

Section Inv.
Context `{C : Crypto} `{N : Entropy}.

Lemma keys_rel_ext d own own' : (forall p k, own p k <-> own' p k) -> keys_rel d own -> keys_rel d own'.
Proof.
  intros He [H1 Hj H2 H3]. split; [| |done|].
  - intros p k Hk. by apply H1, He.
  - intros p q k Hp Hq. by apply (Hj p q k); apply He.
  - intros i e H0 Hi. destruct (H3 i e H0 Hi) as [H|(p & k & ? & Ho & ?)]; [by left|right].
    exists p, k. split; [done|]. split; [by apply He|done].
Qed.

(** The relation looks at the table, the keypairs and the handshakes' indices only. *)
Lemma keys_rel_frame d d' own :
  indexTable d' = indexTable d -> (forall k kp, keypairStore d !! k = Some kp ->
    exists kp', keypairStore d' !! k = Some kp' /\ kpLocalIndex kp' = kpLocalIndex kp) ->
  (forall p, hsLocalIndex (hsOf d' p) = hsLocalIndex (hsOf d p)) ->
  keys_rel d own -> keys_rel d' own.
Proof.
  intros Hi Hk Hh [H1 Hj H2 H3].
  assert (HK : forall k, is_Some (keypairStore d !! k) ->
    is_Some (keypairStore d' !! k) /\ kpLocalIndex (keypairOf d' k) = kpLocalIndex (keypairOf d k)).
  { intros k [kp Ek]. destruct (Hk k kp Ek) as (kp' & Ek' & E). split; [eauto|].
    unfold keypairOf. by rewrite Ek, Ek'. }
  split.
  - intros p k Ho. destruct (H1 p k Ho) as [Hs He]. destruct (HK k Hs) as [Hs' E]. by rewrite Hi, E.
  - exact Hj.
  - intros p. rewrite (Hh p), Hi. apply H2.
  - intros i e H0. rewrite Hi. intros He. destruct (H3 i e H0 He) as [(p & E & Hp)|(p & k & E & Ho & Hp)].
    + left. exists p. split; [done|]. by rewrite (Hh p).
    + right. exists p, k. split; [done|]. split; [done|]. by rewrite (proj2 (HK k (proj1 (H1 p k Ho)))).
Qed.

Lemma keys_rel_inj d own p q k : keys_rel d own -> own p k -> own q k -> p = q.
Proof. intros HR. apply (kr_inj _ _ HR). Qed.

(** [DeleteKeypair] of an owned keypair. *)
Lemma keys_rel_delete d own p k :
  keys_rel d own -> own p k ->
  keys_rel (DeleteKeypair (Some k) d) (fun q j => own q j /\ j <> k).
Proof.
  intros HR Ho. pose proof (kr_own _ _ HR p k Ho) as [Hs Hi]. destruct HR as [H1 Hj H2 H3].
  cbn [DeleteKeypair]. set (x := kpLocalIndex (keypairOf d k)) in *.
  change (keys_rel (indexDelete x d) (fun q j => own q j /\ j <> k)).
  assert (Hne : forall q j, own q j -> j <> k -> kpLocalIndex (keypairOf d j) <> 0 -> kpLocalIndex (keypairOf d j) <> x).
  { intros q j Hq Hj' H0 E. apply H1 in Hq as [_ Hq]. specialize (Hq H0). rewrite E in Hq, H0. rewrite (Hi H0) in Hq. by injection Hq. }
  split.
  - intros q j [Hq Hj']. destruct (H1 q j Hq) as [Hsj Hij]. split; [done|]. intros H0.
    change (indexTable (indexDelete x d)) with (delete x (indexTable d)).
    change (keypairOf (indexDelete x d) j) with (keypairOf d j) in *.
    rewrite lookup_delete_ne; [by apply Hij|]. intros E. by apply (Hne q j).
  - intros a b j [Ha _] [Hb _]. by apply (Hj a b j).
  - intros q Hq. change (indexTable (indexDelete x d)) with (delete x (indexTable d)).
    change (hsOf (indexDelete x d) q) with (hsOf d q) in *.
    rewrite lookup_delete_ne; [by apply H2|]. intros E. pose proof (H2 q Hq) as Hq'.
    rewrite <- E in Hq', Hq. rewrite (Hi Hq) in Hq'. discriminate.
  - intros i e H0. change (indexTable (indexDelete x d)) with (delete x (indexTable d)).
    rewrite lookup_delete_Some. intros [Hxi He]. destruct (H3 i e H0 He) as [?|(q & j & E & Hq & Hj')]; [by left|].
    right. exists q, j. split; [done|]. split; [|done]. split; [done|]. intros ->. done.
Qed.

Lemma hsOf_setKeypairs p f d q : hsOf (setKeypairs p f d) q = hsOf d q.
Proof. unfold hsOf, setKeypairs. rewrite peerOf_modPeer. destruct (decide (q = p)) as [->|]; done. Qed.

Lemma keypairs_setKeypairs p f d q :
  keypairs (peerOf (setKeypairs p f d) q) =
    if decide (q = p) then f (keypairs (peerOf d p)) else keypairs (peerOf d q).
Proof. unfold setKeypairs. rewrite peerOf_modPeer. by destruct (decide (q = p)). Qed.

Lemma keys_rel_setKeypairs d own p f : keys_rel d own -> keys_rel (setKeypairs p f d) own.
Proof.
  apply keys_rel_frame; [done|intros k kp Hk; by exists kp|].
  intros q. by rewrite hsOf_setKeypairs.
Qed.

(** Changes to a handshake that keep its index. *)
Lemma keys_rel_modHandshake d own p f :
  (forall h, hsLocalIndex (f h) = hsLocalIndex h) -> keys_rel d own -> keys_rel (modHandshake p f d) own.
Proof.
  intros Hi. apply keys_rel_frame; [done|intros k kp Hk; by exists kp|].
  intros q. rewrite hsOf_modHandshake. destruct (decide (q = p)) as [->|]; [apply Hi|done].
Qed.

Lemma keypairs_modHandshake p f d q : keypairs (peerOf (modHandshake p f d) q) = keypairs (peerOf d q).
Proof. unfold modHandshake. rewrite peerOf_modPeer. by destruct (decide (q = p)) as [->|]. Qed.

Lemma keypairs_upd p h i dr d q : keypairs (peerOf (upd p h i dr d) q) = keypairs (peerOf d q).
Proof. rewrite peerOf_upd. by destruct (decide (q = p)) as [->|]. Qed.

Lemma hsOf_upd_q p h i dr d q : hsOf (upd p h i dr d) q = if decide (q = p) then h else hsOf d q.
Proof. unfold hsOf. rewrite peerOf_upd. by destruct (decide (q = p)). Qed.

Lemma indexTable_upd p h i dr d : indexTable (upd p h i dr d) = i.
Proof. reflexivity. Qed.

(** Forgetting the index of a handshake: [indexDelete] and a new one in its place. *)
Lemma keys_rel_newindex d own p h' x dr :
  let i0 := delete (hsLocalIndex (hsOf d p)) (indexTable d) in
  keys_rel d own -> i0 !! x = None -> hsLocalIndex h' = x ->
  keys_rel (upd p h' (<[x := hsEntry p]> i0) dr d) own.
Proof.
  intros i0 [H1 Hj H2 H3] Hfree Hh. subst i0. rewrite lookup_delete_None in Hfree.
  set (l := hsLocalIndex (hsOf d p)) in *.
  assert (Hold : forall y e, y <> 0 -> indexTable d !! y = Some e -> e <> hsEntry p -> y <> l).
  { intros y e H0 He Hne ->. pose proof (H2 p H0) as Hp. fold l in Hp. congruence. }
  assert (Hkeep : forall y e, y <> 0 -> indexTable d !! y = Some e -> e <> hsEntry p ->
    (<[x := hsEntry p]> (delete l (indexTable d))) !! y = Some e).
  { intros y e H0 He Hne. pose proof (Hold y e H0 He Hne). rewrite lookup_insert_ne, lookup_delete_ne by naive_solver. done. }
  split.
  - intros q k Ho. destruct (H1 q k Ho) as [Hs He]. split; [done|]. intros H0. rewrite indexTable_upd.
    by apply Hkeep; [|apply He|].
  - exact Hj.
  - intros q Hq. rewrite hsOf_upd_q in *. rewrite indexTable_upd. destruct (decide (q = p)) as [->|Hne].
    + rewrite Hh. by rewrite lookup_insert_eq.
    + apply Hkeep; [done|by apply H2|]. unfold hsEntry. congruence.
  - intros i e H0. rewrite indexTable_upd, lookup_insert_Some, lookup_delete_Some.
    intros [[<- <-]|(Hxi & Hni & He)].
    + left. exists p. split; [done|]. by rewrite hsOf_upd.
    + destruct (H3 i e H0 He) as [(q & E & Hq)|(q & k & E & Ho & Hk)].
      * left. exists q. split; [done|]. rewrite hsOf_upd_q. destruct (decide (q = p)) as [->|]; [|done].
        by destruct Hni.
      * right. by exists q, k.
Qed.

(** ** What the creators do to the table *)

(** [p]'s index stays, or it is replaced by an unused one. *)
Definition reindexed (p : nat) (d d' : Device) : Prop :=
  exists h' i' dr', d' = upd p h' i' dr' d /\
    ((i' = indexTable d /\ hsLocalIndex h' = hsLocalIndex (hsOf d p)) \/
     (i' = <[hsLocalIndex h' := hsEntry p]> (delete (hsLocalIndex (hsOf d p)) (indexTable d)) /\
      delete (hsLocalIndex (hsOf d p)) (indexTable d) !! hsLocalIndex h' = None)).

Lemma keys_ok_reindexed p d d' : reindexed p d d' -> keys_ok d -> keys_ok d'.
Proof.
  intros (h' & i' & dr' & -> & H) [HR Hd]. split.
  - apply keys_rel_ext with (own := slotsOf d); [intros q k; unfold slotsOf; by rewrite keypairs_upd|].
    destruct H as [(-> & Hi)|(-> & Hfree)].
    + revert HR. apply keys_rel_frame; [done|intros k kp Hk; by exists kp|]. intros q. rewrite hsOf_upd_q.
      by destruct (decide (q = p)) as [->|].
    + by apply (keys_rel_newindex d (slotsOf d) p h' (hsLocalIndex h') dr').
  - intros q. rewrite keypairs_upd. apply Hd.
Qed.

Lemma newIndexLoop_cases fuel p d :
  (exists dr', newIndexLoop fuel p d = (Err ErrNoIndex, d <| drawn := dr' |> <| spinning := true |>)) \/
  (exists pos dr', let x := wordAt pos in newIndexLoop fuel p d =
       (Ok x, d <| indexTable := <[x := hsEntry p]> (indexTable d) |> <| drawn := dr' |>) /\
     indexTable d !! x = None).
Proof.
  revert d. induction fuel as [|fuel IH]; intros d; cbn [newIndexLoop].
  { left. exists (drawn d). by destruct d. }
  destruct (randWord d) as [x d1] eqn:E. pose proof (f_equal snd E) as Ed. cbn [snd] in Ed.
  assert (Ex : wordAt (drawn d) = x) by (pose proof (f_equal fst E) as Ef; exact Ef).
  change (snd (randWord d)) with (d <| drawn ::= Nat.add 4 |>) in Ed. subst d1.
  set (d1 := d <| drawn ::= Nat.add 4 |>) in *. change (indexTable d1) with (indexTable d). destruct (indexTable d !! x) eqn:Hi.
  - destruct (IH d1) as [[dr' ->]|(y & dr' & -> & Hy)]; [left; by exists dr'|right].
    exists y, dr'. done.
  - right. exists (drawn d), (drawn d1). cbv zeta. by rewrite Ex.
Qed.

Lemma newIndexLoop_upd fuel p h i dr d :
  (exists dr', newIndexLoop fuel p (upd p h i dr d) = (Err ErrNoIndex, upd p h i dr' d <| spinning := true |>)) \/
  (exists pos dr', let x := wordAt pos in
     newIndexLoop fuel p (upd p h i dr d) = (Ok x, upd p h (<[x := hsEntry p]> i) dr' d) /\ i !! x = None).
Proof.
  destruct (newIndexLoop_cases fuel p (upd p h i dr d)) as [[dr' ->]|(y & dr' & -> & Hy)];
    [left; by exists dr'|right; by exists y, dr'].
Qed.

Lemma sbind_err {A B} (m : M A) (k : A -> M B) d e d' : m d = (Err e, d') -> sbind m k d = (Err e, d').
Proof. intros H. unfold sbind. by rewrite H. Qed.

Lemma run_orErr_none {A B} e (k : A -> M B) d : sbind (orErr None e) k d = (Err e, d).
Proof. reflexivity. Qed.

Lemma reindexed_same p h' dr' d :
  hsLocalIndex h' = hsLocalIndex (hsOf d p) -> reindexed p d (upd p h' (indexTable d) dr' d).
Proof. intros Hi. exists h', (indexTable d), dr'. auto. Qed.

Lemma CreateMessageInitiation_reindexed p d r d' :
  CreateMessageInitiation p d = (r, d') -> spinning d' = false -> reindexed p d d'.
Proof.
  unfold CreateMessageInitiation.
  rewrite run_smod, upd_intro, (run_liftD _ _ _ _ _ (readRandom_upd _ _ _ _ _ _)).
  rewrite run_smod, modHandshake_upd, run_gets, hsOf_upd. unfold hsMixHash, hsMixKey.
  rewrite run_smod, modHandshake_upd, run_gets, (run_liftD _ _ _ _ _ (pickOne_upd _ _ _ _ _ _)).
  cbv zeta. rewrite !run_smod, !modHandshake_upd.
  match goal with |- context [orErr ?o _] => destruct o as [ss|] eqn:Hss end.
  2: { rewrite run_orErr_none. intros [= <- <-] _. by apply reindexed_same. }
  rewrite (run_orErr _ _ _ _ ss eq_refl), run_gets, hsOf_upd. destruct (KDF2 _ ss) as [ck2 k2].
  rewrite run_smod, modHandshake_upd, !run_gets, hsOf_upd, run_smod, modHandshake_upd.
  match goal with |- context [isZero ?x] => destruct (isZero x) end.
  { intros [= <- <-] _. by apply reindexed_same. }
  destruct (KDF2 ck2 _) as [ck3 k3].
  rewrite run_smod, modHandshake_upd, !run_gets, hsOf_upd, run_smod, hsOf_upd, indexDelete_upd.
  unfold NewIndexForHandshake.
  match goal with |- context [sbind (newIndexLoop _ _) _ (upd p ?h ?i ?dr d)] =>
    destruct (newIndexLoop_upd indexFuel p h i dr d) as [[dr' E]|(pos & dr' & E & Hx)] end.
  { rewrite (sbind_err _ _ _ _ _ E). intros [= <- <-]. done. }
  rewrite (run_ok _ _ _ _ _ E), !run_smod, !modHandshake_upd. intros [= <- <-] _.
  eexists _, _, _. split; [reflexivity|]. right. by split.
Qed.

Lemma reindexed_new p h' dr' d x :
  delete (hsLocalIndex (hsOf d p)) (indexTable d) !! x = None -> hsLocalIndex h' = x ->
  reindexed p d (upd p h' (<[x := hsEntry p]> (delete (hsLocalIndex (hsOf d p)) (indexTable d))) dr' d).
Proof. intros Hx <-. eexists _, _, _. split; [reflexivity|]. by right. Qed.

Lemma CreateMessageResponse_reindexed p d r d' :
  CreateMessageResponse p d = (r, d') -> spinning d' = false -> d' = d \/ reindexed p d d'.
Proof.
  unfold CreateMessageResponse. rewrite run_gets. destruct (negb _); [by intros [= <- <-] _; left|].
  rewrite run_smod. set (i := delete (hsLocalIndex (hsOf d p)) (indexTable d)).
  change (indexDelete (hsLocalIndex (hsOf d p)) d) with (d <| indexTable := i |>).
  unfold NewIndexForHandshake.
  destruct (newIndexLoop_cases indexFuel p (d <| indexTable := i |>)) as [[dr' E]|(pos & dr' & E & Hx)].
  { rewrite (sbind_err _ _ _ _ _ E). by intros [= <- <-]. }
  set (x := wordAt pos) in *. change (i !! x = None) in Hx.
  rewrite (run_ok _ _ _ _ _ E), run_smod, upd_intro.
  match goal with |- context [upd p ?hh ?ii ?dd ?d0] =>
    change (upd p hh ii dd d0) with (upd p (hsOf d p <| hsLocalIndex := x |>) (<[x := hsEntry p]> i) dr' d) end.
  rewrite run_gets, (run_liftD _ _ _ _ _ (pickOne_upd _ _ _ _ _ _)),
    (run_liftD _ _ _ _ _ (readRandom_upd _ _ _ _ _ _)).
  rewrite run_smod, modHandshake_upd, run_gets, hsOf_upd. unfold hsMixHash, hsMixKey. cbv zeta.
  rewrite !run_smod, !modHandshake_upd.
  match goal with |- context [orErr ?o _] => destruct o as [ee|] end.
  2: { rewrite run_orErr_none. intros [= <- <-] _. right. by apply reindexed_new. }
  rewrite (run_orErr _ _ _ _ ee eq_refl), run_smod, modHandshake_upd.
  match goal with |- context [orErr ?o _] => destruct o as [se|] end.
  2: { rewrite run_orErr_none. intros [= <- <-] _. right. by apply reindexed_new. }
  rewrite (run_orErr _ _ _ _ se eq_refl), run_smod, modHandshake_upd, run_gets, hsOf_upd.
  destruct (KDF3 _ _) as [[ck4 tau] key].
  rewrite !run_smod, !modHandshake_upd, run_gets, hsOf_upd, !run_smod, !modHandshake_upd.
  intros [= <- <-] _. right. by apply reindexed_new.
Qed.

(** ** Deleting, clearing, and the birth of a keypair *)

Lemma keys_rel_delete_opt d own p o :
  keys_rel d own -> (forall k, o = Some k -> own p k) ->
  keys_rel (DeleteKeypair o d) (fun q j => own q j /\ o <> Some j).
Proof.
  intros HR Ho. destruct o as [k|].
  - eapply keys_rel_ext; [|exact (keys_rel_delete d own p k HR (Ho k eq_refl))]. intros q j. cbn.
    split; intros [H1 H2]; (split; [done|]); congruence.
  - eapply keys_rel_ext; [|exact HR]. intros q j. by split; [|intros [? _]].
Qed.

(** The handshake's entry goes, then its index. *)
Lemma keys_rel_clear d own p f :
  (forall h, hsLocalIndex (f h) = 0) ->
  keys_rel d own -> keys_rel (modHandshake p f (indexDelete (hsLocalIndex (hsOf d p)) d)) own.
Proof.
  intros Hf [H1 Hj H2 H3]. set (x := hsLocalIndex (hsOf d p)).
  assert (Hx : forall y e, y <> 0 -> indexTable d !! y = Some e -> e <> hsEntry p -> x <> y).
  { intros y e H0 He Hne <-. pose proof (H2 p H0) as Hp. fold x in Hp. congruence. }
  split.
  - intros q k Ho. destruct (H1 q k Ho) as [Hs He]. split; [done|]. intros H0.
    change (delete x (indexTable d) !! kpLocalIndex (keypairOf d k) = Some (kpEntry q k)).
    rewrite lookup_delete_ne; [by apply He|]. by apply (Hx _ _ H0 (He H0)).
  - exact Hj.
  - intros q. rewrite hsOf_modHandshake. destruct (decide (q = p)) as [->|Hne]; intros Hq; [by rewrite Hf in Hq|].
    change (delete x (indexTable d) !! hsLocalIndex (hsOf d q) = Some (hsEntry q)).
    pose proof (H2 q Hq) as He. rewrite lookup_delete_ne; [done|]. apply (Hx _ _ Hq He). intros [= ?]. done.
  - intros i e H0. change (delete x (indexTable d) !! i = Some e ->
      ((exists q, e = hsEntry q /\ hsLocalIndex (hsOf (modHandshake p f (indexDelete x d)) q) = i) \/
       (exists q k, e = kpEntry q k /\ own q k /\ kpLocalIndex (keypairOf d k) = i))).
    rewrite lookup_delete_Some. intros [Hxi He]. destruct (H3 i e H0 He) as [(q & E & Hq)|?]; [left|by right].
    exists q. split; [done|]. rewrite hsOf_modHandshake. rewrite decide_False; [done|]. intros ->. by apply Hxi.
Qed.

(** The entry of a handshake becomes the entry of the keypair derived from it. *)
Lemma keys_rel_session d own p k kp f :
  (forall h, hsLocalIndex (f h) = 0) ->
  keypairStore d !! k = None -> kpLocalIndex kp = hsLocalIndex (hsOf d p) ->
  keys_rel d own ->
  keys_rel (modHandshake p f (SwapIndexForKeypair (hsLocalIndex (hsOf d p)) k
              (d <| keypairStore ::= <[k := kp]> |>)))
    (fun q j => own q j \/ (q = p /\ j = k)).
Proof.
  intros Hf Hk Hkp [H1 Hj H2 H3]. set (x := hsLocalIndex (hsOf d p)) in *.
  set (d' := SwapIndexForKeypair x k _).
  assert (Hp : x <> 0 -> indexTable d !! x = Some (hsEntry p)) by apply (H2 p).
  assert (Hi : forall y, y <> 0 -> indexTable d' !! y = if decide (y = x) then Some (kpEntry p k) else indexTable d !! y).
  { intros y H0. unfold d', SwapIndexForKeypair.
    change (indexTable (d <| keypairStore ::= <[k := kp]> |>)) with (indexTable d). destruct (decide (y = x)) as [->|Hne].
    - rewrite (Hp H0). apply lookup_insert_eq.
    - destruct (indexTable d !! x) as [e|]; [|done]. by apply lookup_insert_ne. }
  assert (Hs : keypairStore d' = <[k := kp]> (keypairStore d)) by (unfold d', SwapIndexForKeypair; by destruct (_ !! x)).
  assert (Hh : forall q, hsOf d' q = hsOf d q) by (intros q; unfold d', SwapIndexForKeypair; by destruct (_ !! x)).
  assert (Hnew : forall q j, own q j -> j <> k) by (intros q j Ho ->; destruct (H1 q k Ho) as [[? E] _]; congruence).
  assert (Hko : forall j, j <> k -> keypairOf d' j = keypairOf d j).
  { intros j Hne. unfold keypairOf. by rewrite Hs, lookup_insert_ne. }
  assert (Hkk : keypairOf d' k = kp) by (unfold keypairOf; by rewrite Hs, lookup_insert_eq).
  clearbody d'. split.
  - intros q j Hq. change (keypairStore (modHandshake p f d')) with (keypairStore d').
    change (indexTable (modHandshake p f d')) with (indexTable d').
    change (keypairOf (modHandshake p f d') j) with (keypairOf d' j). rewrite Hs.
    destruct Hq as [Hq|[-> ->]].
    + pose proof (Hnew q j Hq) as Hne. rewrite Hko, lookup_insert_ne by done. destruct (H1 q j Hq) as [? He].
      split; [done|]. intros H0. specialize (He H0). rewrite Hi by done. destruct (decide _) as [E|]; [|done].
      rewrite E in He, H0. rewrite (Hp H0) in He. discriminate.
    + rewrite Hkk, Hkp, lookup_insert_eq. split; [done|]. intros H0. rewrite Hi by done. by rewrite decide_True.
  - intros a b j [Ha|[-> ->]] [Hb|[-> Eb]]; [by apply (Hj a b j)| |by apply Hnew in Hb|done].
    subst j. by apply Hnew in Ha.
  - intros q. rewrite hsOf_modHandshake. destruct (decide (q = p)) as [->|Hne]; intros Hq; [by rewrite Hf in Hq|].
    change (indexTable (modHandshake p f d')) with (indexTable d'). rewrite Hh in *. pose proof (H2 q Hq) as He.
    rewrite Hi by done. destruct (decide _) as [E|]; [|done]. rewrite E in He, Hq. rewrite (Hp Hq) in He. unfold hsEntry in He. congruence.
  - intros i e H0. change (indexTable (modHandshake p f d')) with (indexTable d'). rewrite Hi by done.
    destruct (decide (i = x)) as [->|Hxi].
    + intros [= <-]. right. exists p, k. split; [done|]. split; [by right|].
      change (kpLocalIndex (keypairOf d' k) = x). by rewrite Hkk.
    + intros He. destruct (H3 i e H0 He) as [(q & E & Hq)|(q & j & E & Ho & Hij)].
      * left. exists q. split; [done|]. rewrite hsOf_modHandshake, !Hh. rewrite decide_False; [done|].
        intros ->. by apply Hxi.
      * right. exists q, j. split; [done|]. split; [by left|].
        change (kpLocalIndex (keypairOf d' j) = i). rewrite Hko; [done|]. by apply (Hnew q).
Qed.
End Inv.
