(* ===== verification/NoiseKeys.v ===== *)
(** * The key handlers keep the index table and the keypairs consistent *)

From stdpp Require Import base numbers list gmap strings.
From Stdlib Require Import ZArith Lia.
From S2P Require Import Prelude GoStrings NoiseTypes Crypto Replay Tai64n DeviceTypes Messages Noise NoiseRun NoiseInv.

Section Keys.
Context `{C : Crypto} `{N : Entropy}.

Lemma keys_ok_intro d own :
  keys_rel d own -> (forall p k, own p k <-> slotsOf d p k) ->
  (forall p, slots_distinct (keypairs (peerOf d p))) -> keys_ok d.
Proof. intros HR He Hd. split; [|done]. by eapply keys_rel_ext. Qed.

Lemma slotsOf_modHandshake p f d q k : slotsOf (modHandshake p f d) q k <-> slotsOf d q k.
Proof. unfold slotsOf. by rewrite keypairs_modHandshake. Qed.

Lemma keys_ok_modHandshake d p f :
  (forall h, hsLocalIndex (f h) = hsLocalIndex h) -> keys_ok d -> keys_ok (modHandshake p f d).
Proof.
  intros Hi [HR Hd]. apply (keys_ok_intro _ (slotsOf d)).
  - by apply keys_rel_modHandshake.
  - intros q k. by rewrite slotsOf_modHandshake.
  - intros q. rewrite keypairs_modHandshake. apply Hd.
Qed.

Lemma updateInitiation_keys p ts hash ck sender eph d :
  keys_ok d -> keys_ok (updateInitiation p ts hash ck sender eph d).
Proof. apply keys_ok_modHandshake. intros h. cbn. destruct_ifs; done. Qed.

Lemma updateResponse_keys hp hash ck sender d : keys_ok d -> keys_ok (updateResponse hp hash ck sender d).
Proof. by apply keys_ok_modHandshake. Qed.

Lemma ConsumeMessageInitiation_keys msg d : keys_ok d -> keys_ok (ConsumeMessageInitiation msg d).2.
Proof.
  intros H. unfold ConsumeMessageInitiation. destruct (checkInitiation msg d) as [[[[p ts] hash] ck]|]; [|done].
  by apply updateInitiation_keys.
Qed.

Lemma ConsumeMessageResponse_keys msg d : keys_ok d -> keys_ok (ConsumeMessageResponse msg d).2.
Proof.
  intros H. unfold ConsumeMessageResponse. destruct (checkResponse msg d) as [[[[hp peer] hash] ck]|]; [|done].
  by apply updateResponse_keys.
Qed.

Lemma keypairs_frame d d' q : peerStore d' = peerStore d -> keypairs (peerOf d' q) = keypairs (peerOf d q).
Proof. intros E. unfold peerOf. by rewrite E. Qed.

Lemma keypairs_Delete o d q : keypairs (peerOf (DeleteKeypair o d) q) = keypairs (peerOf d q).
Proof. by destruct o. Qed.

(** The slots after the rotation. *)
Lemma rotateKeypairs_slots p k init d q :
  keypairs (peerOf (rotateKeypairs p k init d) q) =
    if decide (q = p) then
      let s := keypairs (peerOf d p) in
      if init then mkKeypairs (Some k) (match next s with Some n => Some n | None => current s end) None
      else mkKeypairs (current s) None (Some k)
    else keypairs (peerOf d q).
Proof.
  unfold rotateKeypairs. destruct init; [destruct (next _) as [n|] eqn:En|].
  - rewrite !keypairs_setKeypairs, !keypairs_Delete, !keypairs_setKeypairs.
    destruct (decide (q = p)) as [->|]; [|done]. rewrite decide_True by done. cbn.
    by destruct (keypairs (peerOf d p)); cbn in *; subst.
  - rewrite !keypairs_setKeypairs, !keypairs_Delete, !keypairs_setKeypairs.
    destruct (decide (q = p)) as [->|]; [|done]. rewrite decide_True by done. cbn.
    by destruct (keypairs (peerOf d p)); cbn in *; subst.
  - rewrite !keypairs_Delete, !keypairs_setKeypairs, !keypairs_Delete, !keypairs_setKeypairs.
    destruct (decide (q = p)) as [->|]; [|done]. rewrite decide_True by done. done.
Qed.

(** What the rotation deletes from the table. *)
Definition rotatedOut (s : Keypairs) (init : bool) : list (option nat) :=
  if init then (match next s with Some _ => [current s] | None => [] end) ++ [previous s]
  else [next s; previous s].

Lemma rotate_ext (own : nat -> nat -> Prop) (a b : option nat) q j :
  (own q j /\ a <> Some j) /\ b <> Some j <-> own q j /\ Some j ∉ [a; b].
Proof. rewrite elem_of_cons, list_elem_of_singleton. naive_solver. Qed.

Lemma keys_rel_rotate d own p k init :
  keys_rel d own -> (forall j, slot (keypairs (peerOf d p)) j -> own p j) ->
  slots_distinct (keypairs (peerOf d p)) ->
  keys_rel (rotateKeypairs p k init d) (fun q j => own q j /\ Some j ∉ rotatedOut (keypairs (peerOf d p)) init).
Proof.
  intros HR Ho Hd. unfold rotateKeypairs, rotatedOut in *. set (s := keypairs (peerOf d p)) in *.
  assert (Hc : forall j, current s = Some j -> own p j) by (intros; apply Ho; by left).
  assert (Hp : forall j, previous s = Some j -> own p j) by (intros; apply Ho; by right; left).
  assert (Hn : forall j, next s = Some j -> own p j) by (intros; apply Ho; by right; right).
  destruct init; [destruct (next s) as [n|] eqn:En|].
  - apply keys_rel_setKeypairs. eapply keys_rel_ext; [intros q j; apply (rotate_ext own (current s) (previous s))|].
    apply (keys_rel_delete_opt _ (fun q j => own q j /\ current s <> Some j) p).
    + apply (keys_rel_delete_opt _ own p); [by apply keys_rel_setKeypairs|done].
    + intros j Hj. destruct (Hd j). split; naive_solver.
  - apply keys_rel_setKeypairs. eapply keys_rel_ext;
      [|apply (keys_rel_delete_opt _ own p); [by apply keys_rel_setKeypairs|done]].
    intros q j. cbn [app]. rewrite list_elem_of_singleton. naive_solver.
  - eapply keys_rel_ext; [intros q j; apply (rotate_ext own (next s) (previous s))|].
    apply (keys_rel_delete_opt _ (fun q j => own q j /\ next s <> Some j) p).
    + apply keys_rel_setKeypairs, (keys_rel_delete_opt _ own p); [by apply keys_rel_setKeypairs|done].
    + intros j Hj. destruct (Hd j). split; naive_solver.
Qed.

(** After the rotation the slots are the old ones and the new keypair, less
    what was deleted; no keypair is in two of them. *)
Lemma rotate_slots_own d p k init q j :
  slots_distinct (keypairs (peerOf d p)) -> ~ slot (keypairs (peerOf d p)) k ->
  (slotsOf d q j \/ (q = p /\ j = k)) /\ (q = p -> Some j ∉ rotatedOut (keypairs (peerOf d p)) init) <->
  slotsOf (rotateKeypairs p k init d) q j.
Proof.
  intros Hd Hk. unfold slotsOf at 2. rewrite rotateKeypairs_slots. destruct (decide (q = p)) as [->|Hq].
  2: { split; [intros [[?|[? _]] _]; done|]. intros H. split; [by left|done]. }
  unfold slotsOf, slot, rotatedOut in *. destruct (keypairs (peerOf d p)) as [cu pr ne]. cbn in *.
  destruct init; [destruct ne as [n|]|]; cbn; repeat setoid_rewrite elem_of_cons; setoid_rewrite elem_of_nil;
    specialize (Hd j); cbn in Hd; split; try naive_solver.
Qed.

Lemma rotatedOut_slot s init j : Some j ∈ rotatedOut s init -> slot s j.
Proof.
  unfold rotatedOut, slot. destruct init; [destruct (next s)|]; cbn;
    repeat setoid_rewrite elem_of_cons; setoid_rewrite elem_of_nil; naive_solver.
Qed.

Lemma rotate_distinct s k init : slots_distinct s -> ~ slot s k ->
  slots_distinct (if init : bool then mkKeypairs (Some k) (match next s with Some n => Some n | None => current s end) None
                  else mkKeypairs (current s) None (Some k)).
Proof.
  intros Hd Hk j. specialize (Hd j). unfold slot in Hk. destruct s as [cu pr ne]. cbn in *.
  destruct init; [destruct ne|]; cbn; naive_solver.
Qed.

Lemma modHandshake_comp p f g d : modHandshake p f (modHandshake p g d) = modHandshake p (fun h => f (g h)) d.
Proof. by rewrite (upd_intro p g), modHandshake_upd. Qed.

Lemma modHandshake_store p f x k kp d :
  SwapIndexForKeypair x k (modHandshake p f d <| keypairStore ::= <[k := kp]> |>) =
  modHandshake p f (SwapIndexForKeypair x k (d <| keypairStore ::= <[k := kp]> |>)).
Proof.
  unfold SwapIndexForKeypair. change (indexTable (d <| keypairStore ::= <[k := kp]> |>)) with (indexTable d).
  change (indexTable (modHandshake p f d <| keypairStore ::= <[k := kp]> |>)) with (indexTable d).
  by destruct (indexTable d !! x).
Qed.

Lemma BeginSymmetricSession_keys p d : keys_ok d -> keys_ok (BeginSymmetricSession p d).2.
Proof.
  intros [HR Hd]. unfold BeginSymmetricSession.
  destruct (sessionKeys (hsOf d p)) as [[[sk rk] init]|] eqn:Es; [|done]. cbn [snd].
  set (x := hsLocalIndex (hsOf d p)) in *.
  set (d1 := modHandshake p _ d). change (keypairStore d1) with (keypairStore d).
  set (k := base.fresh (dom (keypairStore d))). set (kp := mkKeypair _ _ _ _ _ _ _ _).
  assert (Hk : keypairStore d !! k = None) by (apply not_elem_of_dom, is_fresh).
  set (d3 := SwapIndexForKeypair x k (d1 <| keypairStore ::= <[k := kp]> |>)).
  set (d4 := modHandshake p (fun h => h <| hsLocalIndex := 0 |>) d3).
  assert (HR4 : keys_rel d4 (fun q j => slotsOf d q j \/ (q = p /\ j = k))).
  { set (f := fun h => ((((h <| hsChainKey := zeros 32 |>) <| hsHash := zeros 32 |>)
        <| localEphemeral := zeros 32 |>) <| hsState := handshakeZeroed |>) <| hsLocalIndex := 0 |>).
    assert (E : d4 = modHandshake p f (SwapIndexForKeypair x k (d <| keypairStore ::= <[k := kp]> |>))).
    { unfold d4, d3, d1. by rewrite modHandshake_store, modHandshake_comp. }
    rewrite E. by apply keys_rel_session. }
  assert (Hkps : forall q, keypairs (peerOf d4 q) = keypairs (peerOf d q)).
  { intros q. unfold d4. rewrite keypairs_modHandshake. unfold d3, SwapIndexForKeypair.
    destruct (_ !! x); (rewrite (keypairs_frame d1); [unfold d1; by rewrite keypairs_modHandshake|done]). }
  clearbody d4. clear d3.
  assert (Hnk : ~ slot (keypairs (peerOf d4 p)) k).
  { rewrite Hkps. intros H. apply (kr_own _ _ HR p k) in H as [[? E] _]. congruence. }
  assert (Hd4 : slots_distinct (keypairs (peerOf d4 p))) by (rewrite Hkps; apply Hd).
  apply (keys_ok_intro _ _ (keys_rel_rotate d4 _ p k init HR4 ltac:(intros j; rewrite Hkps; by left) Hd4)).
  - intros q j. rewrite <- rotate_slots_own by done. unfold slotsOf. rewrite !Hkps. split; [intros [? ?]; by split|].
    intros [Ho Hin]. split; [done|]. intros Hout. destruct (decide (q = p)) as [->|Hq]; [by apply Hin|].
    assert (Hs : slotsOf d p j).
    { by apply (rotatedOut_slot _ init). }
    destruct Ho as [Ho|[-> _]]; [|done]. by apply Hq, (keys_rel_inj d (slotsOf d) q p j).
  - intros q. rewrite rotateKeypairs_slots. destruct (decide (q = p)) as [->|]; [|rewrite Hkps; apply Hd].
    cbv zeta. by apply rotate_distinct.
Qed.

Lemma ReceivedWithKeypair_keys p k d : keys_ok d -> keys_ok (ReceivedWithKeypair p k d).2.
Proof.
  intros [HR Hd]. unfold ReceivedWithKeypair. destruct (negb _); [done|]. cbn [snd].
  set (s := keypairs (peerOf d p)).
  assert (Hp : forall j, previous s = Some j -> slotsOf d p j) by (intros; by right; left).
  assert (HR' : keys_rel (DeleteKeypair (previous s) (setKeypairs p (fun s => s <| previous := current s |>) d))
    (fun q j => slotsOf d q j /\ previous s <> Some j)).
  { apply (keys_rel_delete_opt _ (slotsOf d) p); [by apply keys_rel_setKeypairs|done]. }
  apply (keys_rel_setKeypairs _ _ p (fun s => s <| current := next s |> <| next := None |>)) in HR'.
  apply (keys_ok_intro _ _ HR').
  - intros q j. unfold slotsOf at 2. rewrite keypairs_setKeypairs, !keypairs_Delete, !keypairs_setKeypairs.
    rewrite (decide_True (P := p = p)) by done.
    destruct (decide (q = p)) as [->|Hq].
    + unfold slotsOf, slot. pose proof (Hd p j) as Hj. fold s in Hj |- *. destruct s as [cu pr ne]. cbn in *.
      naive_solver.
    + fold (slotsOf d q j). split; [by intros [? _]|]. intros Ho. split; [done|]. intros Hj.
      by apply Hq, (keys_rel_inj d (slotsOf d) q p j); [|done|apply Hp].
  - intros q. rewrite keypairs_setKeypairs, !keypairs_Delete, !keypairs_setKeypairs.
    rewrite (decide_True (P := p = p)) by done. destruct (decide (q = p)) as [->|]; [|apply Hd].
    intros j. pose proof (Hd p j) as Hj. fold s in Hj |- *. destruct s as [cu pr ne]. cbn in *. naive_solver.
Qed.
End Keys.
