(* ===== verification/Timers.v ===== *)
(** * Timers and timeouts ([src/awg-ios/device/timers.go])

    Arming and disarming the five timers of a peer, the events that arm them, and
    the timeouts, which the configured ranges replace when they are not zero.
    The handlers that run when a timer fires are in [Lifecycle]. *)

From stdpp Require Import base numbers list gmap.
From Stdlib Require Import ZArith Lia.
From S2P Require Import Prelude NoiseTypes DeviceTypes.

Section Timers.
Context `{N : Entropy}.

(** ** A timer *)

Definition timerMod (now : Z) (d : Z) (t : Timer) : Timer := mkTimer d (Some (now + d)).
Definition timerDel (t : Timer) : Timer := mkTimer 0 None.
Definition IsPending (t : Timer) : bool := 0 <? duration t.

(** The function given to [time.AfterFunc]: with a zero duration it does nothing. *)
Definition timerFire (t : Timer) : option Z * Timer :=
  if duration t =? 0 then (None, t <| deadline := None |>)
  else (Some (duration t), mkTimer 0 None).

(** ** Timeouts *)

(** The effect of [if t := …Load(); !t.IsZero()]: the configured value in
    seconds, or the default. *)
Definition secondsOr (r v dflt : Z) : Z := if rangeIsZero r then dflt else v * Second.

Definition pickSecondsOr (r dflt : Z) (d : Device) : Z * Device :=
  if rangeIsZero r then (dflt, d) else let '(v, d) := pickOne r d in (v * Second, d).

Definition retransmitHandshakeTimeout (d : Device) : Z * Device :=
  pickSecondsOr (rekeyTimeoutSec (timings d)) RekeyTimeout d.

Definition sendKeepaliveTimeout (d : Device) : Z * Device :=
  pickSecondsOr (keepaliveTimeoutSec (timings d)) KeepaliveTimeout d.

Definition newHandshakeTimeout (d : Device) : Z * Device :=
  let k := keepaliveTimeoutSec (timings d) in
  let keepaliveTimeout := secondsOr k (rangeHi k) KeepaliveTimeout in
  let '(rekeyTimeout, d) := pickSecondsOr (rekeyTimeoutSec (timings d)) RekeyTimeout d in
  (s64 (keepaliveTimeout + rekeyTimeout), d).

Definition keyRefreshTimeoutSending (d : Device) : Z * Device :=
  pickSecondsOr (rekeyAfterTimeSec (timings d)) RekeyAfterTime d.

Definition keyRefreshTimeoutReceiving (d : Device) : Z * Device :=
  let '(rejectAfterTime, d) := pickSecondsOr (rejectAfterTimeSec (timings d)) RejectAfterTime d in
  let k := keepaliveTimeoutSec (timings d) in
  let keepaliveTimeout := secondsOr k (rangeLo k) KeepaliveTimeout in
  let r := rekeyTimeoutSec (timings d) in
  let rekeyTimeout := secondsOr r (rangeLo r) RekeyTimeout in
  (Z.max 0 (rejectAfterTime - keepaliveTimeout - rekeyTimeout), d).

Definition keychainExpireTime (d : Device) : Z :=
  let r := rejectAfterTimeSec (timings d) in secondsOr r (rangeHi r) RejectAfterTime.

Definition rekeyMinTimeout (d : Device) : Z :=
  let r := rekeyTimeoutSec (timings d) in secondsOr r (rangeLo r) RekeyTimeout.

Definition maxHandshakeAttemps (d : Device) : Z * Device :=
  let r := maxHandshakeAttempsR (timings d) in
  if rangeIsZero r then (MaxTimerHandshakes, d) else pickOne r d.

(** ** Events *)

Definition isClosed (d : Device) : bool := bool_decide (state d = deviceStateClosed).
Definition isUp (d : Device) : bool := bool_decide (state d = deviceStateUp).

Definition timersActive (p : nat) (d : Device) : bool := isRunning (peerOf d p) && isUp d.

Definition timersOf (d : Device) (p : nat) : PeerTimers := timers (peerOf d p).

Definition jitter (d : Device) : Z * Device :=
  let '(j, d) := fastrandnD RekeyTimeoutJitterMaxMs d in (Millisecond * j, d).

Definition timersDataSent (p : nat) (d : Device) : Device :=
  if timersActive p d && negb (IsPending (newHandshake (timersOf d p))) then
    let '(t, d) := newHandshakeTimeout d in
    let '(j, d) := jitter d in
    modTimers p (fun ts => ts <| newHandshake ::= timerMod (now d) (s64 (t + j)) |>) d
  else d.

Definition timersDataReceived (p : nat) (d : Device) : Device :=
  if timersActive p d then
    if negb (IsPending (sendKeepalive (timersOf d p))) then
      let '(t, d) := sendKeepaliveTimeout d in
      modTimers p (fun ts => ts <| sendKeepalive ::= timerMod (now d) t |>) d
    else modTimers p (fun ts => ts <| needAnotherKeepalive := true |>) d
  else d.

Definition timersAnyAuthenticatedPacketSent (p : nat) (d : Device) : Device :=
  if timersActive p d then modTimers p (fun ts => ts <| sendKeepalive ::= timerDel |>) d else d.

Definition timersAnyAuthenticatedPacketReceived (p : nat) (d : Device) : Device :=
  if timersActive p d then modTimers p (fun ts => ts <| newHandshake ::= timerDel |>) d else d.

Definition timersHandshakeInitiated (p : nat) (d : Device) : Device :=
  if timersActive p d then
    let '(t, d) := retransmitHandshakeTimeout d in
    let '(j, d) := jitter d in
    modTimers p (fun ts => ts <| retransmitHandshake ::= timerMod (now d) (t + j) |>) d
  else d.

Definition timersHandshakeComplete (p : nat) (d : Device) : Device :=
  let d := if timersActive p d
           then modTimers p (fun ts => ts <| retransmitHandshake ::= timerDel |>) d else d in
  let d := modTimers p (fun ts => ts <| handshakeAttempts := 0 |>) d in
  let '(m, d) := maxHandshakeAttemps d in
  let d := modTimers p (fun ts => ts <| maxHandshakeAttempts := m |> <| sentLastMinuteHandshake := false |>) d in
  modPeer p (fun P => P <| lastHandshakeNano := now d |>) d.

Definition timersSessionDerived (p : nat) (d : Device) : Device :=
  if timersActive p d then
    modTimers p (fun ts => ts <| zeroKeyMaterial ::= timerMod (now d) (s64 (keychainExpireTime d * 3)) |>) d
  else d.

Definition timersAnyAuthenticatedPacketTraversal (p : nat) (d : Device) : Device :=
  let keepalive := persistentKeepaliveInterval (peerOf d p) in
  if negb (rangeIsZero keepalive) && timersActive p d then
    let '(v, d) := pickOne keepalive d in
    modTimers p (fun ts => ts <| persistentKeepalive ::= timerMod (now d) (v * Second) |>) d
  else d.

Definition timersInit (p : nat) (d : Device) : Device :=
  modTimers p (fun ts => ts <| retransmitHandshake := stoppedTimer |> <| sendKeepalive := stoppedTimer |>
    <| newHandshake := stoppedTimer |> <| zeroKeyMaterial := stoppedTimer |> <| persistentKeepalive := stoppedTimer |>) d.

Definition timersStart (p : nat) (d : Device) : Device :=
  let d := modTimers p (fun ts => ts <| handshakeAttempts := 0 |>) d in
  let '(m, d) := maxHandshakeAttemps d in
  modTimers p (fun ts => ts <| maxHandshakeAttempts := m |> <| sentLastMinuteHandshake := false |>
    <| needAnotherKeepalive := false |>) d.

Definition timersStop (p : nat) (d : Device) : Device :=
  modTimers p (fun ts => ts <| retransmitHandshake ::= timerDel |> <| sendKeepalive ::= timerDel |>
    <| newHandshake ::= timerDel |> <| zeroKeyMaterial ::= timerDel |> <| persistentKeepalive ::= timerDel |>) d.

End Timers.
