(* ===== verification/Cookie.v ===== *)
(** * The cookie mechanism ([src/awg-ios/device/cookie.go])

    The MAC fields of the handshake messages: [mac1] proves knowledge of the
    receiver's public key, [mac2] that the sender holds a cookie for the address
    it sends from.  Every message given here has room for the two fields (the
    callers check its size or make it). *)

From stdpp Require Import base numbers list strings.
From Stdlib Require Import ZArith Lia.
From S2P Require Import Prelude GoStrings NoiseTypes Crypto RateLimiter Tai64n DeviceTypes Messages.

Section Cookie.
Context `{C : Crypto} `{N : Entropy}.

Definition WGLabelMAC1 : list Z := str "mac1----".
Definition WGLabelCookie : list Z := str "cookie--".

Definition macKey (pk : list Z) : list Z := hash256 (WGLabelMAC1 ++ pk).
Definition cookieKey (pk : list Z) : list Z := hash256 (WGLabelCookie ++ pk).

(** [msg[:smac1]], [msg[smac1:smac2]], [msg[:smac2]] and [msg[smac2:]]. *)
Definition smac2 (msg : list Z) : nat := (length msg - blake2sSize128)%nat.
Definition smac1 (msg : list Z) : nat := (smac2 msg - blake2sSize128)%nat.
Definition beforeMac1 (msg : list Z) : list Z := take (smac1 msg) msg.
Definition mac1Of (msg : list Z) : list Z := slice msg (smac1 msg) (smac2 msg).
Definition beforeMac2 (msg : list Z) : list Z := take (smac2 msg) msg.
Definition mac2Of (msg : list Z) : list Z := drop (smac2 msg) msg.

(** ** The checker *)

Definition checkerInit (pk : list Z) (st : CookieChecker) : CookieChecker :=
  st <| ccMac1Key := macKey pk |> <| ccEncryptionKey := cookieKey pk |> <| ccSecretSet := zeroTime |>.

(** [hmac.Equal] compares the bytes. *)
Definition CheckMAC1 (st : CookieChecker) (msg : list Z) : bool :=
  bool_decide (mac128 (ccMac1Key st) (beforeMac1 msg) = mac1Of msg).

(** The cookie of an address under the current secret. *)
Definition cookieFor (st : CookieChecker) (src : list Z) : list Z := mac128 (ccSecret st) src.

Definition CheckMAC2 (st : CookieChecker) (now : Z) (msg src : list Z) : bool :=
  if CookieRefreshTime <? timeSub now (ccSecretSet st) then false
  else bool_decide (mac128 (cookieFor st src) (beforeMac2 msg) = mac2Of msg).

(** [rand.Read] starts at [pos]; it does not fail. *)
Definition CreateReply (st : CookieChecker) (now : Z) (pos : nat) (msg : list Z) (recv : Z) (src : list Z)
    (msgType : Z) : MessageCookieReply * CookieChecker * nat :=
  let '(st, pos) :=
    if CookieRefreshTime <? timeSub now (ccSecretSet st)
    then (st <| ccSecret := randRead 32 pos |> <| ccSecretSet := now |>, (pos + 32)%nat)
    else (st, pos) in
  let nonce := randRead 24 pos in
  (mkCookieReply msgType recv nonce (xseal (ccEncryptionKey st) nonce (cookieFor st src) (mac1Of msg)),
   st, (pos + 24)%nat).

(** ** The generator *)

Definition generatorInit (pk : list Z) (st : CookieGenerator) : CookieGenerator :=
  st <| cgMac1Key := macKey pk |> <| cgEncryptionKey := cookieKey pk |> <| cgCookieSet := zeroTime |>.

Definition ConsumeReply (st : CookieGenerator) (now : Z) (msg : MessageCookieReply) : bool * CookieGenerator :=
  if negb (cgHasLastMAC1 st) then (false, st)
  else match xopen (cgEncryptionKey st) (mcNonce msg) (mcCookie msg) (cgLastMAC1 st) with
       | None => (false, st)
       | Some cookie => (true, st <| cgCookieSet := now |> <| cgCookie := cookie |>)
       end.

Definition AddMacs (st : CookieGenerator) (now : Z) (msg : list Z) : list Z * CookieGenerator :=
  let mac1 := mac128 (cgMac1Key st) (beforeMac1 msg) in
  let msg1 := beforeMac1 msg ++ mac1 in
  let st := st <| cgLastMAC1 := mac1 |> <| cgHasLastMAC1 := true |> in
  if CookieRefreshTime <? timeSub now (cgCookieSet st) then (msg1 ++ mac2Of msg, st)
  else (msg1 ++ mac128 (cgCookie st) msg1, st).

(** ** Properties *)

Context `{L : !CryptoLaws}.

Lemma split_macs (body m1 m2 : list Z) : length m1 = 16%nat -> length m2 = 16%nat ->
  let msg := body ++ m1 ++ m2 in
  beforeMac1 msg = body /\ mac1Of msg = m1 /\ beforeMac2 msg = body ++ m1 /\ mac2Of msg = m2.
Proof.
  intros H1 H2 msg. unfold beforeMac1, mac1Of, beforeMac2, mac2Of, smac1, smac2, blake2sSize128.
  assert (E2 : (length msg - 16)%nat = length (body ++ m1)) by (unfold msg; rewrite !length_app; lia).
  assert (E1 : (length msg - 16 - 16)%nat = length body) by (unfold msg; rewrite !length_app; lia).
  rewrite E1, E2. unfold msg. rewrite take_app_length. split; [done|].
  unfold slice. rewrite drop_app_length. rewrite length_app, Nat.add_comm, Nat.add_sub.
  rewrite take_app_length. split; [done|]. rewrite Nat.add_comm, app_assoc, <- length_app.
  rewrite take_app_length, drop_app_length. done.
Qed.

(** The shape of the message with its MACs. *)
Lemma AddMacs_shape st now msg : (32 <= length msg)%nat ->
  exists m2, length m2 = 16%nat /\
    (AddMacs st now msg).1 = beforeMac1 msg ++ mac128 (cgMac1Key st) (beforeMac1 msg) ++ m2 /\
    (timeSub now (cgCookieSet st) <= CookieRefreshTime ->
     m2 = mac128 (cgCookie st) (beforeMac1 msg ++ mac128 (cgMac1Key st) (beforeMac1 msg))).
Proof.
  intros Hl. unfold AddMacs. change (cgCookieSet (_ <| cgHasLastMAC1 := true |>)) with (cgCookieSet st).
  destruct (CookieRefreshTime <? timeSub now (cgCookieSet st)) eqn:E.
  - exists (mac2Of msg). split; [|split].
    + unfold mac2Of, smac2, blake2sSize128. rewrite length_drop. lia.
    + by rewrite <- app_assoc.
    + intros ?. lia.
  - eexists. split; [|split]; [|by rewrite <- app_assoc|reflexivity]. apply mac128_length.
Qed.

Lemma AddMacs_state st now msg :
  (AddMacs st now msg).2 =
    st <| cgLastMAC1 := mac128 (cgMac1Key st) (beforeMac1 msg) |> <| cgHasLastMAC1 := true |>.
Proof. unfold AddMacs. by destruct (_ <? _). Qed.

Lemma AddMacs_length st now msg : (32 <= length msg)%nat -> length (AddMacs st now msg).1 = length msg.
Proof.
  intros Hl. destruct (AddMacs_shape st now msg Hl) as (m2 & H2 & -> & _).
  rewrite !length_app, mac128_length, H2. unfold beforeMac1, smac1, smac2, blake2sSize128. rewrite length_take. lia.
Qed.

(** The [mac1] a sender computes for a peer passes the check of the device
    that has this public key, and the rest of the message is untouched. *)
Theorem mac1_accepted pk st0 gen0 now msg :
  (32 <= length msg)%nat ->
  let gen := generatorInit pk gen0 in
  CheckMAC1 (checkerInit pk st0) (AddMacs gen now msg).1 = true /\
  beforeMac1 (AddMacs gen now msg).1 = beforeMac1 msg /\ length (AddMacs gen now msg).1 = length msg.
Proof.
  intros Hl gen. split; [|split; [|by apply AddMacs_length]];
    destruct (AddMacs_shape gen now msg Hl) as (m2 & H2 & -> & _);
    destruct (split_macs (beforeMac1 msg) (mac128 (cgMac1Key gen) (beforeMac1 msg)) m2 (mac128_length _ _) H2)
      as (E1 & E2 & _ & _); [|done].
  unfold CheckMAC1. rewrite E1, E2. by apply bool_decide_eq_true_2.
Qed.

(** The cookie exchange works: a device under load answers a message from
    the address [src] with a reply; the sender takes the reply, and every
    message it then sends carries a [mac2] that the device accepts from [src]
    while neither side's cookie is older than the refresh time. *)
Theorem cookie_exchange pk st0 gen0 now1 now2 now3 now4 now5 pos msg1 msg2 recv src ty :
  (32 <= length msg1)%nat -> (32 <= length msg2)%nat ->
  let gen1 := generatorInit pk gen0 in
  let '(sent1, gen2) := AddMacs gen1 now1 msg1 in
  let '(reply, st1, _) := CreateReply (checkerInit pk st0) now2 pos sent1 recv src ty in
  let '(ok, gen3) := ConsumeReply gen2 now3 reply in
  ok = true /\
  (timeSub now4 now3 <= CookieRefreshTime -> timeSub now5 (ccSecretSet st1) <= CookieRefreshTime ->
   CheckMAC2 st1 now5 (AddMacs gen3 now4 msg2).1 src = true).
Proof.
  intros Hl1 Hl2 gen1. pose proof (AddMacs_state gen1 now1 msg1) as Hst.
  destruct (AddMacs_shape gen1 now1 msg1 Hl1) as (m2 & H2 & Hs1 & _).
  destruct (AddMacs gen1 now1 msg1) as [sent1 gen2] eqn:E1. cbn [fst snd] in Hst, Hs1.
  destruct (CreateReply _ _ _ _ _ _ _) as [[reply st1] pos'] eqn:E2.
  assert (Hm1 : mac1Of sent1 = cgLastMAC1 gen2).
  { rewrite Hs1, Hst. by apply split_macs; [apply mac128_length|]. }
  assert (Hr : mcCookie reply = xseal (cookieKey pk) (mcNonce reply) (cookieFor st1 src) (mac1Of sent1)).
  { unfold CreateReply in E2. destruct (_ <? _); injection E2 as <- <- _; reflexivity. }
  unfold ConsumeReply. replace (cgHasLastMAC1 gen2) with true by (by rewrite Hst). cbn [negb].
  replace (cgEncryptionKey gen2) with (cookieKey pk) by (by rewrite Hst).
  rewrite Hr, Hm1, xopen_xseal. split; [done|]. intros Ht4 Ht5.
  set (gen3 := _ <| cgCookie := _ |>).
  destruct (AddMacs_shape gen3 now4 msg2 Hl2) as (mac2 & Hl & -> & Hmac). specialize (Hmac Ht4).
  unfold CheckMAC2. rewrite (proj2 (Z.ltb_ge _ _) Ht5).
  destruct (split_macs (beforeMac1 msg2) (mac128 (cgMac1Key gen3) (beforeMac1 msg2)) mac2 (mac128_length _ _) Hl)
    as (_ & _ & -> & ->). rewrite Hmac. by apply bool_decide_eq_true_2.
Qed.

End Cookie.

Section Witnesses.
Import Toy.
Local Instance countingEntropy : Entropy := fun i => Z.of_nat (i * i + 3).

Lemma mac1_accepted_witness :
  CheckMAC1 (checkerInit (zeros 32) zeroChecker)
    (AddMacs (generatorInit (zeros 32) zeroGenerator) 5 (zeros 92)).1 = true.
Proof. apply (mac1_accepted (zeros 32) zeroChecker zeroGenerator 5 (zeros 92)). vm_compute. lia. Defined.

Lemma cookie_exchange_witness :
  let gen1 := generatorInit (zeros 32) zeroGenerator in
  let '(sent1, gen2) := AddMacs gen1 (100 * Second) (zeros 148) in
  let '(reply, st1, _) := CreateReply (checkerInit (zeros 32) zeroChecker) (101 * Second) 7 sent1 9 [10; 0; 0; 1] 3 in
  let '(ok, gen3) := ConsumeReply gen2 (102 * Second) reply in
  ok = true /\ CheckMAC2 st1 (107 * Second) (AddMacs gen3 (106 * Second) (zeros 148)).1 [10; 0; 0; 1] = true.
Proof.
  pose proof (cookie_exchange (zeros 32) zeroChecker zeroGenerator (100 * Second) (101 * Second) (102 * Second)
    (106 * Second) (107 * Second) 7 (zeros 148) (zeros 148) 9 [10; 0; 0; 1] 3
    ltac:(vm_compute; lia) ltac:(vm_compute; lia)) as H. cbv zeta in H |- *.
  destruct (AddMacs _ (100 * Second) _) as [sent1 gen2].
  destruct (CreateReply _ _ _ _ _ _ _) as [[reply st1] pos'] eqn:E.
  destruct (ConsumeReply _ _ _) as [ok gen3]. destruct H as [Hok H]. split; [exact Hok|]. apply H.
  - vm_compute. discriminate.
  - apply (f_equal (fun r => ccSecretSet r.1.2)) in E. cbn [fst snd] in E. rewrite <- E. vm_compute. discriminate.
Defined.
End Witnesses.
