(* ===== verification/Packet.v ===== *)
(** * Datagrams ([src/awg-ios/device/{send,receive}.go])

    How a datagram's type and padding are recognised, how content is padded, and
    the encryption and decryption of one transport message. *)

From stdpp Require Import base numbers list gmap.
From Stdlib Require Import ZArith Lia.
From S2P Require Import Prelude NoiseTypes Crypto Replay RateLimiter DeviceTypes Messages Noise Timers.

Section Packet.
Context `{C : Crypto} `{N : Entropy}.

(** ** Recognising a datagram *)

Definition applyHash (src hash : list Z) : list Z := zip_with Z.lxor src hash.

(** One of the four tests: the size, then the type under the padding. *)
Definition matchesType (packet typeHash : list Z) (padding header : Z) (size : nat) (trailers : bool) : bool :=
  let expectedSize := padding + Z.of_nat size in
  let len := Z.of_nat (length packet) in
  if (len =? expectedSize) || (trailers && (expectedSize <? len)) then
    let p := Z.to_nat padding in
    rangeContains header (le_val (applyHash (slice packet p (p + 4)) typeHash))
  else false.

(** The size of the message (without padding and trailer), its type and the
    padding in front of it. *)
Definition DeterminePacketTypeAndPadding (d : Device) (packet typeHash : list Z) : nat * Z * Z :=
  let tr := randomTrailers d in
  let test := matchesType packet typeHash in
  if test (tInit (paddings d)) (tInit (headers d)) 148%nat tr
  then (148%nat, MessageInitiationType, tInit (paddings d))
  else if test (tResponse (paddings d)) (tResponse (headers d)) 92%nat tr
  then (92%nat, MessageResponseType, tResponse (paddings d))
  else if test (tCookie (paddings d)) (tCookie (headers d)) 64%nat tr
  then (64%nat, MessageCookieReplyType, tCookie (paddings d))
  else if test (tTransport (paddings d)) (tTransport (headers d)) 32%nat true
  then (32%nat, MessageTransportType, tTransport (paddings d))
  else (0%nat, MessageUnknownType, 0).

(** ** Padding *)

Definition roundUp16 (n : Z) : Z := Z.land (n + PaddingMultiple - 1) (Z.lnot (PaddingMultiple - 1)).

Definition calculatePaddingSize (packetSize mtu : Z) : Z :=
  let lastUnit := packetSize in
  if mtu =? 0 then roundUp16 lastUnit - lastUnit
  else
    let lastUnit := if mtu <? lastUnit then Z.rem lastUnit mtu else lastUnit in
    let paddedSize := roundUp16 lastUnit in
    let paddedSize := if mtu <? paddedSize then mtu else paddedSize in
    paddedSize - lastUnit.

(** [-1] when the option is off. *)
Definition randomPaddingAddition (packetSize mtu : Z) (d : Device) : Z * Device :=
  if rangeIsZero (contentPaddingAddition d) then (-1, d)
  else
    let '(add, d) := pickOne (contentPaddingAddition d) d in
    if mtu =? 0 then (add, d)
    else
      let packetSize := if mtu <? packetSize then Z.rem packetSize mtu else packetSize in
      let space := mtu - packetSize in
      (if space <? add then space else add, d).

Definition deviceRandomTrailer (packetSize : Z) (d : Device) : Z * Device :=
  if negb (randomTrailers d) then (-1, d)
  else if DefaultUdpWindow <? packetSize then (0, d)
  else fastrandnD (u32 (DefaultUdpWindow - packetSize)) d.

Definition peerRandomTrailer (p : nat) (packetSize : Z) (d : Device) : Z * Device :=
  if negb (randomTrailers d) then (-1, d)
  else
    let w := udpWindow (peerOf d p) in
    if w <? packetSize then (0, d) else fastrandnD (u32 (w - packetSize)) d.

(** ** Header protection *)

(** The message inside a datagram [crypt ++ packet ++ trailer] under the header
    cipher, whose salt is the beginning of the datagram. *)
Definition protect (d : Device) (salt packet : list Z) : list Z :=
  match HeaderProtectionCipher d salt with
  | None => packet
  | Some (key, nonce) => xorStream key nonce 0 packet
  end.

(** ** Encrypting a transport message: the body of [RoutineEncryption]'s loop *)

Definition transportNonce (counter : Z) : list Z := zeros 4 ++ le_bytes 8 counter.

Definition noteUdpWindow (p : nat) (w : Z) (d : Device) : Device :=
  if udpWindow (peerOf d p) <? w then modPeer p (fun P => P <| udpWindow := w |>) d else d.

Definition transportHeader (msgType receiver counter : Z) : list Z :=
  le_bytes 4 msgType ++ le_bytes 4 receiver ++ le_bytes 8 counter.

(** The zeroes appended to the content. *)
Definition contentPadding (p : nat) (packetSize padding : Z) (d : Device) : Z * Device :=
  let '(n, d) := randomPaddingAddition packetSize (mtu d) d in
  let '(n, d) := if n <? 0 then peerRandomTrailer p (packetSize + MinMessageSize + padding) d else (n, d) in
  (if n <? 0 then calculatePaddingSize packetSize (mtu d) else n, d).

(** [Seal] appends to the message buffer when the result fits in its
    [MaxMessageSize] bytes, and to a copy otherwise; the header that is then
    protected is the one in the buffer. *)
Definition encryptElem (e : OutElem) (d : Device) : OutElem * Device :=
  let packet := default [] (oePacket e) in
  let p := default O (oePeer e) in
  let kp := keypairOf d (default O (oeKeypair e)) in
  let packetSize := Z.of_nat (length packet) in
  let d := noteUdpWindow p (u32 (oePadding e + MinMessageSize + packetSize)) d in
  let '(crypt, d) := readRandom (Z.to_nat (oePadding e)) d in
  let '(msgType, d) := pickOne (tTransport (headers d)) d in
  let header := transportHeader msgType (kpRemoteIndex kp) (oeNonce e) in
  let '(n, d) := contentPadding p packetSize (oePadding e) d in
  let content := packet ++ zeros (Z.to_nat n) in
  let sealed := seal (kpSend kp) (transportNonce (oeNonce e)) content [] in
  let inPlace := Z.of_nat (length crypt + length header + length sealed) <=? MaxMessageSize in
  let salt := take HeaderCipherNonceSize (crypt ++ header) in
  let header := if inPlace then protect d salt header else header in
  (e <| oePacket := Some (crypt ++ header ++ sealed) |>, d).

(** ** Decrypting: the body of [RoutineDecryption]'s loop *)

Definition decryptElem (e : InElem) (d : Device) : InElem :=
  let packet := default [] (ielPacket e) in
  let counter := le_val (slice packet MessageTransportOffsetCounter MessageTransportOffsetContent) in
  let content := drop MessageTransportOffsetContent packet in
  e <| ielCounter := counter |>
    <| ielPacket := open (kpReceive (keypairOf d (ielKeypair e))) (transportNonce counter) content [] |>.

(** ** Receiving one datagram: the body of [RoutineReceiveIncoming]'s inner loop *)

Inductive received :=
  | RxDropped
  | RxTransport (peer : option nat) (e : InElem)
  | RxHandshake (e : QueueHandshakeElement).

(** The padding and the header protection taken off. *)
Definition unwrapDatagram (d : Device) (datagram : list Z) : Z * Z * list Z :=
  let salt := take HeaderCipherNonceSize datagram in
  let cip := HeaderProtectionCipher d salt in
  let typeHash := match cip with None => zeros 4 | Some (k, n) => xorStream k n 0 (zeros 4) end in
  let '(msgSize, msgType, padding) := DeterminePacketTypeAndPadding d datagram typeHash in
  let packet := drop (Z.to_nat padding) datagram in
  let packet := if msgType =? MessageTransportType then packet else take msgSize packet in
  let packet := match cip with
                | None => packet
                | Some _ => applyHash (take 4 packet) typeHash ++ drop 4 packet
                end in
  (msgType, padding, packet).

(** The rest of the header (transport) or of the message under the cipher. *)
Definition unprotectFrom4 (d : Device) (datagram packet : list Z) (upto : nat) : list Z :=
  match HeaderProtectionCipher d (take HeaderCipherNonceSize datagram) with
  | None => packet
  | Some (k, n) => take 4 packet ++ xorStream k n 4 (slice packet 4 upto) ++ drop upto packet
  end.

Definition receiveDatagram (d : Device) (datagram : list Z) (ep : Endpoint) : received :=
  if Z.of_nat (length datagram) <? MinMessageSize then RxDropped
  else
    let '(msgType, padding, packet) := unwrapDatagram d datagram in
    let handshake (size : nat) :=
      if (length packet =? size)%nat
      then RxHandshake (mkHsElem msgType (unprotectFrom4 d datagram packet size) ep) else RxDropped in
    if msgType =? MessageTransportType then
      if Z.of_nat (length packet) <? MessageTransportSize then RxDropped
      else
        let packet := unprotectFrom4 d datagram packet 16 in
        let receiver := le_val (slice packet MessageTransportOffsetReceiver MessageTransportOffsetCounter) in
        let value := indexLookup d receiver in
        match ieKeypair value with
        | None => RxDropped
        | Some k =>
            if created (keypairOf d k) + keychainExpireTime d <? now d then RxDropped
            else RxTransport (iePeer value) (mkInElem (Some packet) 0 k ep padding)
        end
    else if msgType =? MessageInitiationType then handshake 148%nat
    else if msgType =? MessageResponseType then handshake 92%nat
    else if msgType =? MessageCookieReplyType then handshake 64%nat
    else RxDropped.

(** ** Properties of the padding *)

Lemma roundUp16_eq n : 0 <= n -> roundUp16 n = 16 * ((n + 15) / 16).
Proof.
  intros Hn. unfold roundUp16, PaddingMultiple. replace (n + 16 - 1) with (n + 15) by lia.
  change (16 - 1) with (Z.ones 4). rewrite <- Z.ldiff_land, Z.ldiff_ones_r by lia.
  rewrite Z.shiftr_div_pow2, Z.shiftl_mul_pow2 by lia. change (2 ^ 4) with 16. lia.
Qed.

(** The padding of content: fewer than 16 zeroes, which make the last unit of
    the packet a multiple of 16 bytes unless the MTU stops it, and a packet that
    fits in the MTU still fits. *)
Theorem content_padding_size packetSize mtu :
  0 <= packetSize -> 0 <= mtu ->
  let n := calculatePaddingSize packetSize mtu in
  let lastUnit := if (0 <? mtu) && (mtu <? packetSize) then packetSize mod mtu else packetSize in
  0 <= n < 16 /\ ((lastUnit + n) mod 16 = 0 \/ (0 < mtu /\ lastUnit + n = mtu)) /\
  (0 < mtu -> packetSize <= mtu -> packetSize + n <= mtu).
Proof.
  intros Hp Hm. unfold calculatePaddingSize. destruct (Z.eqb_spec mtu 0) as [->|Hne]; cbn [Z.ltb andb].
  { change (0 <? 0) with false. cbn [andb]. rewrite roundUp16_eq by done. Z.div_mod_to_equations. lia. }
  rewrite (proj2 (Z.ltb_lt 0 mtu)) by lia. cbn [andb].
  set (u := if mtu <? packetSize then packetSize mod mtu else packetSize).
  replace (if mtu <? packetSize then Z.rem packetSize mtu else packetSize) with u
    by (unfold u; destruct (_ <? _); [by rewrite Z.rem_mod_nonneg by lia|done]).
  assert (Hu : 0 <= u <= mtu /\ (packetSize <= mtu -> u = packetSize)).
  { unfold u. destruct (Z.ltb_spec mtu packetSize); [|lia].
    pose proof (Z.mod_pos_bound packetSize mtu). lia. }
  rewrite roundUp16_eq by lia. destruct (Z.ltb_spec mtu (16 * ((u + 15) / 16))).
  - split; [Z.div_mod_to_equations; lia|]. split; [lia|]. lia.
  - split; [Z.div_mod_to_equations; lia|]. split; [|lia]. left. Z.div_mod_to_equations; lia.
Qed.

End Packet.

Lemma content_padding_size_witness : 0 <= calculatePaddingSize 1409 1420 < 16.
Proof. apply (content_padding_size 1409 1420); lia. Defined.
