(* ===== verification/PacketThm.v ===== *)
(** * Datagrams arrive as they were sent

    What the sender wraps, the receiver with the same obfuscation settings takes
    apart again: the type is recognised, the header is unprotected, and a
    transport message decrypts to the packet and its zero padding. *)

From stdpp Require Import base numbers list gmap.
From Stdlib Require Import ZArith Lia.
From S2P Require Import Prelude NoiseTypes Crypto Replay RateLimiter DeviceTypes Messages Noise Timers Packet.

(** Headers that are ranges and do not overlap, room for the cipher's salt in
    front of every protected message. *)
Record config_ok (d : Device) : Prop := {
  cf_ranges : range_wf (tInit (headers d)) /\ range_wf (tResponse (headers d)) /\ range_wf (tCookie (headers d)) /\
              range_wf (tTransport (headers d));
  cf_disjoint : rangeOverlap (tInit (headers d)) (tResponse (headers d)) = false /\
                rangeOverlap (tInit (headers d)) (tCookie (headers d)) = false /\
                rangeOverlap (tInit (headers d)) (tTransport (headers d)) = false /\
                rangeOverlap (tResponse (headers d)) (tCookie (headers d)) = false /\
                rangeOverlap (tResponse (headers d)) (tTransport (headers d)) = false /\
                rangeOverlap (tCookie (headers d)) (tTransport (headers d)) = false;
  cf_paddings : is_u32 (tInit (paddings d)) /\ is_u32 (tResponse (paddings d)) /\ is_u32 (tCookie (paddings d)) /\
                is_u32 (tTransport (paddings d));
  cf_salt : keyIsZero (headerProtectionKey d) = false ->
            12 <= tInit (paddings d) /\ 12 <= tResponse (paddings d) /\ 12 <= tCookie (paddings d) /\
            12 <= tTransport (paddings d)
}.

(** The size of a datagram passes the test of a type. *)
Definition sizeFits (len : nat) (padding : Z) (size : nat) (trailers : bool) : bool :=
  (Z.of_nat len =? padding + Z.of_nat size) || (trailers && (padding + Z.of_nat size <? Z.of_nat len)).

(** No earlier type is tested at another offset of a datagram of this size. *)
Definition sameOffset (d : Device) (len : nat) (padding padding' : Z) (size' : nat) : Prop :=
  padding' = padding \/ sizeFits len padding' size' (randomTrailers d) = false.

Section Lemmas.
Context `{C : Crypto} `{N : Entropy}.

Lemma overlap_pick a b w : range_wf a -> rangeContains a w = true -> rangeOverlap b a = false ->
  rangeContains b w = false.
Proof.
  unfold rangeContains, rangeOverlap, rangeLo, rangeHi. intros Ha Hw Ho.
  destruct (Z.leb_spec (u32 b) w), (Z.leb_spec w (u32 (Z.shiftr b 32))); cbn; try done.
  apply andb_true_iff in Hw as [?%Z.leb_le ?%Z.leb_le]. apply andb_false_iff in Ho as [?%Z.leb_gt|?%Z.leb_gt]; lia.
Qed.

Lemma length_protect d s l : length (protect d s l) = length l.
Proof. unfold protect. destruct (HeaderProtectionCipher d s) as [[k n]|]; [apply length_xorStream|done]. Qed.

Lemma xorStream_lookup k n pos l i : xorStream k n pos l !! i = (fun b => Z.lxor b (keystream k n (pos + i))) <$> l !! i.
Proof. unfold xorStream. by rewrite list_lookup_imap. Qed.

(** The type field under the hash of the type. *)
Lemma applyHash_protect d s l :
  length l = 4%nat -> applyHash (protect d s l) (protect d s (zeros 4)) = l.
Proof.
  intros Hl. unfold applyHash, protect. destruct l as [|a [|b [|c [|e [|]]]]]; try done.
  destruct (HeaderProtectionCipher d s) as [[k n]|]; cbn; [|by rewrite !Z.lxor_0_r].
  by rewrite !Z.lxor_assoc, !Z.lxor_nilpotent, !Z.lxor_0_r.
Qed.

Lemma take4_protect d s l : take 4 (protect d s l) = protect d s (take 4 l).
Proof.
  unfold protect. destruct (HeaderProtectionCipher d s) as [[k n]|]; [|done].
  apply list_eq. intros i. destruct (decide (i < 4)%nat).
  - rewrite lookup_take_lt, !xorStream_lookup, lookup_take_lt by done. done.
  - rewrite xorStream_lookup, !lookup_take_ge by lia. done.
Qed.

(** The first four bytes are the sender's under the hash of the type. *)
Lemma typeField d s l : (4 <= length l)%nat ->
  applyHash (take 4 (protect d s l)) (protect d s (zeros 4)) = take 4 l.
Proof. intros Hl. rewrite take4_protect. apply applyHash_protect. rewrite length_take. lia. Qed.

Lemma matchesType_at d (crypt body rest : list Z) s padding header size tr :
  Z.of_nat (length crypt) = padding -> (4 <= length body)%nat ->
  matchesType (crypt ++ protect d s body ++ rest) (protect d s (zeros 4)) padding header size tr =
    sizeFits (length crypt + length body + length rest) padding size tr && rangeContains header (le_val (take 4 body)).
Proof.
  intros <- Hb. unfold matchesType, sizeFits. rewrite Nat2Z.id, !length_app, length_protect, Nat.add_assoc.
  destruct ((_ =? _) || _); [|done]. cbn [andb]. do 2 f_equal.
  rewrite slice_app_r, Nat.sub_diag by lia. rewrite Nat.add_comm, Nat.add_sub.
  unfold slice. rewrite drop_0, Nat.sub_0_r, take_app_le by (rewrite length_protect; lia). by apply typeField.
Qed.

(** An earlier type does not match. *)
Lemma matchesType_earlier d (crypt body rest : list Z) s padding padding' header header' size' :
  Z.of_nat (length crypt) = padding -> (4 <= length body)%nat ->
  sameOffset d (length crypt + length body + length rest) padding padding' size' ->
  range_wf header -> rangeContains header (le_val (take 4 body)) = true -> rangeOverlap header' header = false ->
  matchesType (crypt ++ protect d s body ++ rest) (protect d s (zeros 4)) padding' header' size' (randomTrailers d) = false.
Proof.
  intros Hc Hb [->|Hs] Hw Hin Ho.
  - rewrite matchesType_at by done. rewrite (overlap_pick _ _ _ Hw Hin Ho). apply andb_false_r.
  - unfold matchesType. fold (sizeFits (length (crypt ++ protect d s body ++ rest)) padding' size' (randomTrailers d)).
    replace (length (crypt ++ protect d s body ++ rest)) with (length crypt + length body + length rest)%nat
      by (rewrite !length_app, length_protect; lia). by rewrite Hs.
Qed.

(** The salt of a wrapped message is in the random bytes in front of it. *)
Lemma salt_crypt (crypt rest rest' : list Z) :
  (HeaderCipherNonceSize <= length crypt)%nat ->
  take HeaderCipherNonceSize (crypt ++ rest) = take HeaderCipherNonceSize (crypt ++ rest').
Proof. intros H. by rewrite !take_app_le. Qed.

Lemma protect_salt d (crypt rest rest' l : list Z) :
  (keyIsZero (headerProtectionKey d) = false -> (HeaderCipherNonceSize <= length crypt)%nat) ->
  protect d (take HeaderCipherNonceSize (crypt ++ rest)) l = protect d (take HeaderCipherNonceSize (crypt ++ rest')) l.
Proof.
  intros H. unfold protect, HeaderProtectionCipher. destruct (keyIsZero _) eqn:E; [done|].
  by rewrite (salt_crypt crypt rest rest' (H eq_refl)).
Qed.

(** ** Taking a datagram apart *)

(** The type field is bare, the rest of the message still under the cipher. *)
Definition halfOpen (d : Device) (s body : list Z) : list Z := take 4 body ++ drop 4 (protect d s body).

Lemma length_halfOpen d s body : (4 <= length body)%nat -> length (halfOpen d s body) = length body.
Proof. intros. unfold halfOpen. rewrite length_app, length_take, length_drop, length_protect. lia. Qed.

Lemma unwrapDatagram_wrapped d (crypt body rest : list Z) s msgSize ty padding :
  let D := crypt ++ protect d s body ++ rest in
  s = take HeaderCipherNonceSize D -> (4 <= length body)%nat -> Z.of_nat (length crypt) = padding ->
  DeterminePacketTypeAndPadding d D (protect d s (zeros 4)) = (msgSize, ty, padding) ->
  (ty <> MessageTransportType -> msgSize = length body) ->
  unwrapDatagram d D =
    (ty, padding, halfOpen d s body ++ (if ty =? MessageTransportType then rest else [])).
Proof.
  intros D Hs Hb <- Hd Hsize. unfold unwrapDatagram. rewrite <- Hs.
  assert (Hth : match HeaderProtectionCipher d s with None => zeros 4 | Some (k, n) => xorStream k n 0 (zeros 4) end
                = protect d s (zeros 4)) by done.
  rewrite Hth, Hd, Nat2Z.id.
  assert (HD : drop (length crypt) D = protect d s body ++ rest) by (unfold D; by rewrite drop_app_length).
  rewrite HD. clear HD.
  set (packet := if ty =? MessageTransportType then protect d s body ++ rest else _).
  assert (Hp : packet = protect d s body ++ (if ty =? MessageTransportType then rest else [])).
  { unfold packet. destruct (Z.eqb_spec ty MessageTransportType); [done|]. rewrite Hsize by done.
    rewrite <- (length_protect d s body), take_app_length. by rewrite app_nil_r. }
  rewrite Hp. clear packet Hp. set (tail := if ty =? _ then rest else []). f_equal.
  unfold halfOpen. rewrite <- app_assoc.
  rewrite take_app_le, drop_app_le by (rewrite length_protect; lia).
  pose proof (typeField d s body Hb) as Ht. destruct (HeaderProtectionCipher d s) as [[k n]|] eqn:E; [by rewrite Ht|].
  unfold protect. rewrite E. by rewrite app_assoc, take_drop.
Qed.

Lemma unprotectFrom4_wrapped d D s (body rest : list Z) :
  s = take HeaderCipherNonceSize D -> (4 <= length body)%nat ->
  unprotectFrom4 d D (halfOpen d s body ++ rest) (length body) = body ++ rest.
Proof.
  intros Hs Hb. unfold unprotectFrom4. rewrite <- Hs. unfold halfOpen, protect.
  destruct (HeaderProtectionCipher d s) as [[k n]|] eqn:E; [|by rewrite take_drop].
  assert (Hl : length (take 4 body ++ drop 4 (xorStream k n 0 body)) = length body)
    by (rewrite length_app, length_take, length_drop, length_xorStream; lia).
  assert (H4 : length (take 4 body) = 4%nat) by (rewrite length_take; lia).
  set (X := take 4 body ++ _) in *.
  assert (Hd : drop (length body) (X ++ rest) = rest) by (rewrite <- Hl; apply drop_app_length).
  assert (Ht : take 4 (X ++ rest) = take 4 body).
  { unfold X. rewrite <- app_assoc. by apply take_app_length'. }
  assert (Hm : slice (X ++ rest) 4 (length body) = drop 4 (xorStream k n 0 body)).
  { unfold slice, X. rewrite <- app_assoc, drop_app_length', take_app_le by done || (rewrite length_drop, length_xorStream; lia).
    apply take_ge. rewrite length_drop, length_xorStream; lia. }
  rewrite Hd, Ht, Hm.
  assert (Ex : xorStream k n 4 (drop 4 (xorStream k n 0 body)) = drop 4 body).
  { rewrite <- (take_drop 4 body) at 1. rewrite xorStream_app, H4.
    rewrite drop_app_length' by (by rewrite length_xorStream). apply xorStream_involutive. }
  rewrite Ex, app_assoc, take_drop. done.
Qed.

(** ** Recognition *)

(** Which type, padding and header a type's messages have. *)
Lemma classify_transport d (crypt body rest : list Z) s :
  config_ok d -> Z.of_nat (length crypt) = tTransport (paddings d) -> (4 <= length body)%nat ->
  (32 <= length body + length rest)%nat ->
  rangeContains (tTransport (headers d)) (le_val (take 4 body)) = true ->
  let len := (length crypt + length body + length rest)%nat in
  sameOffset d len (tTransport (paddings d)) (tInit (paddings d)) 148 ->
  sameOffset d len (tTransport (paddings d)) (tResponse (paddings d)) 92 ->
  sameOffset d len (tTransport (paddings d)) (tCookie (paddings d)) 64 ->
  DeterminePacketTypeAndPadding d (crypt ++ protect d s body ++ rest) (protect d s (zeros 4)) =
    (32%nat, MessageTransportType, tTransport (paddings d)).
Proof.
  intros [(W1 & W2 & W3 & W4) (O1 & O2 & O3 & O4 & O5 & O6) _ _] Hc Hb Hr Hin len S1 S2 S3.
  unfold DeterminePacketTypeAndPadding.
  rewrite !(matchesType_earlier _ _ _ _ _ _ _ _ _ _ Hc Hb S1 W4 Hin), !(matchesType_earlier _ _ _ _ _ _ _ _ _ _ Hc Hb S2 W4 Hin),
    !(matchesType_earlier _ _ _ _ _ _ _ _ _ _ Hc Hb S3 W4 Hin) by done.
  rewrite matchesType_at, Hin by done. unfold sizeFits. rewrite <- Hc. cbn [andb].
  destruct (Z.eqb_spec (Z.of_nat (length crypt + length body + length rest)) (Z.of_nat (length crypt) + Z.of_nat 32)); [done|].
  rewrite (proj2 (Z.ltb_lt _ _)) by lia. done.
Qed.

Lemma classify_initiation d (crypt body rest : list Z) s :
  config_ok d -> Z.of_nat (length crypt) = tInit (paddings d) -> length body = 148%nat ->
  (rest <> [] -> randomTrailers d = true) ->
  rangeContains (tInit (headers d)) (le_val (take 4 body)) = true ->
  DeterminePacketTypeAndPadding d (crypt ++ protect d s body ++ rest) (protect d s (zeros 4)) =
    (148%nat, MessageInitiationType, tInit (paddings d)).
Proof.
  intros _ Hc Hb Ht Hin. unfold DeterminePacketTypeAndPadding. rewrite matchesType_at, Hin by lia.
  replace (sizeFits _ _ _ _) with true; [done|]. unfold sizeFits. rewrite <- Hc. symmetry. destruct rest as [|x rest].
  - apply orb_true_iff. left. apply Z.eqb_eq. cbn [length]. lia.
  - rewrite Ht by done. apply orb_true_iff. right. apply Z.ltb_lt. cbn [length]. lia.
Qed.

Lemma classify_response d (crypt body rest : list Z) s :
  config_ok d -> Z.of_nat (length crypt) = tResponse (paddings d) -> length body = 92%nat ->
  (rest <> [] -> randomTrailers d = true) ->
  rangeContains (tResponse (headers d)) (le_val (take 4 body)) = true ->
  sameOffset d (length crypt + length body + length rest) (tResponse (paddings d)) (tInit (paddings d)) 148 ->
  DeterminePacketTypeAndPadding d (crypt ++ protect d s body ++ rest) (protect d s (zeros 4)) =
    (92%nat, MessageResponseType, tResponse (paddings d)).
Proof.
  intros [(W1 & W2 & W3 & W4) (O1 & O2 & O3 & O4 & O5 & O6) _ _] Hc Hb Ht Hin S1.
  assert (Hb4 : (4 <= length body)%nat) by lia.
  unfold DeterminePacketTypeAndPadding.
  rewrite !(matchesType_earlier _ _ _ _ _ _ _ _ _ _ Hc Hb4 S1 W2 Hin) by done.
  rewrite matchesType_at, Hin by done.
  replace (sizeFits _ _ _ _) with true; [done|]. unfold sizeFits. rewrite <- Hc. symmetry. destruct rest as [|x rest].
  - apply orb_true_iff. left. apply Z.eqb_eq. cbn [length]. lia.
  - rewrite Ht by done. apply orb_true_iff. right. apply Z.ltb_lt. cbn [length]. lia.
Qed.
End Lemmas.

(** ** A transport message, end to end *)

Section Transport.
Context `{C : Crypto} `{N : Entropy}.

Lemma noteUdpWindow_frame p w d :
  headers (noteUdpWindow p w d) = headers d /\ headerProtectionKey (noteUdpWindow p w d) = headerProtectionKey d.
Proof. unfold noteUdpWindow. by destruct (_ <? _). Qed.

Lemma contentPadding_frame p size padding d : headerProtectionKey (contentPadding p size padding d).2 = headerProtectionKey d.
Proof.
  unfold contentPadding, randomPaddingAddition, peerRandomTrailer, pickOne, fastrandnD, randWord, readRandom.
  repeat (case_match; simplify_eq/=); done.
Qed.

Lemma protect_key d d' s l : headerProtectionKey d' = headerProtectionKey d -> protect d' s l = protect d s l.
Proof. unfold protect, HeaderProtectionCipher. by intros ->. Qed.

Lemma readRandom_spec n d l d' : readRandom n d = (l, d') -> length l = n /\ d' = d <| drawn ::= Nat.add n |>.
Proof. intros [= <- <-]. split; [|done]. unfold randRead. by rewrite length_fmap, length_seq. Qed.

Lemma pickOne_spec r d v d' : pickOne r d = (v, d') -> exists w, v = rangePickOne r w /\ d' = d <| drawn ::= Nat.add 4 |>.
Proof. intros [= <- <-]. eexists. split; [reflexivity|done]. Qed.

(** The datagram of an element: random bytes, the protected header, the sealed
    content. *)
Lemma encryptElem_shape e d packet p k :
  oePacket e = Some packet -> oePeer e = Some p -> oeKeypair e = Some k -> 0 <= oePadding e ->
  range_wf (tTransport (headers d)) ->
  exists crypt msgType n,
    let header := transportHeader msgType (kpRemoteIndex (keypairOf d k)) (oeNonce e) in
    let sealed := seal (kpSend (keypairOf d k)) (transportNonce (oeNonce e)) (packet ++ zeros n) [] in
    let salt := take HeaderCipherNonceSize (crypt ++ header) in
    Z.of_nat (length crypt) = oePadding e /\ rangeContains (tTransport (headers d)) msgType = true /\
    oePacket (encryptElem e d).1 = Some (crypt ++
      (if Z.of_nat (length crypt + length header + length sealed) <=? MaxMessageSize
       then protect d salt header else header) ++ sealed).
Proof.
  intros Hpk Hp Hk Hpad Hr. unfold encryptElem. rewrite Hpk, Hp, Hk. cbn [from_option id].
  set (w := u32 _). destruct (noteUdpWindow_frame p w d) as [Hh Hkey].
  set (d1 := noteUdpWindow p w d) in *. destruct (readRandom (Z.to_nat (oePadding e)) d1) as [crypt d2] eqn:E2.
  apply readRandom_spec in E2 as [Hl ->]. match goal with |- context [pickOne ?r ?x] => destruct (pickOne r x) as [msgType d3] eqn:E3 end.
  apply pickOne_spec in E3 as (v & -> & ->).
  set (d3 := _ <| drawn ::= _ |>). pose proof (contentPadding_frame p (Z.of_nat (length packet)) (oePadding e) d3) as Hf.
  destruct (contentPadding p (Z.of_nat (length packet)) (oePadding e) d3) as [n d4] eqn:E4. cbn [snd] in Hf.
  change (headers (d1 <| drawn ::= _ |>)) with (headers d1). rewrite Hh.
  exists crypt, (rangePickOne (tTransport (headers d)) v), (Z.to_nat n). cbv zeta.
  split; [rewrite Hl; lia|]. split; [by apply rangePickOne_contains|]. cbn [fst].
  rewrite (protect_key d d4) by (rewrite Hf; exact Hkey). done.
Qed.

Context `{L : !CryptoLaws}.

Lemma transportHeader_fields ty r c rest : is_u32 r -> is_u64 c ->
  let l := transportHeader ty r c ++ rest in
  take 4 (transportHeader ty r c) = le_bytes 4 ty /\ le_val (slice l 4 8) = r /\ le_val (slice l 8 16) = c /\ drop 16 l = rest.
Proof.
  intros Hr Hc l. unfold l, transportHeader. rewrite <- !app_assoc.
  rewrite (slice_shift _ _ 0 4 4), (slice_shift _ _ 4 12 4), (slice_shift _ _ 0 8 4) by apply length_le_bytes.
  rewrite !slice_head by apply length_le_bytes.
  rewrite !le_val_le_bytes. split; [by rewrite take_app_length' by (by rewrite length_le_bytes)|].
  split; [apply Z.mod_small, Hr|]. split; [apply Z.mod_small, Hc|].
  by rewrite !drop_app_ge by (rewrite ?length_le_bytes; lia).
Qed.

Lemma length_transportHeader ty r c : length (transportHeader ty r c) = 16%nat.
Proof. unfold transportHeader. by rewrite !length_app, !length_le_bytes. Qed.

(** What the receiver finds in a datagram whose header is protected. *)
Lemma receive_transport d (crypt sealed : list Z) ep ty r c q kR :
  let header := transportHeader ty r c in
  let s := take HeaderCipherNonceSize (crypt ++ header) in
  let D := crypt ++ protect d s header ++ sealed in
  config_ok d -> Z.of_nat (length crypt) = tTransport (paddings d) -> (16 <= length sealed)%nat ->
  rangeContains (tTransport (headers d)) ty = true -> is_u32 ty -> is_u32 r -> is_u64 c ->
  sameOffset d (length D) (tTransport (paddings d)) (tInit (paddings d)) 148 ->
  sameOffset d (length D) (tTransport (paddings d)) (tResponse (paddings d)) 92 ->
  sameOffset d (length D) (tTransport (paddings d)) (tCookie (paddings d)) 64 ->
  indexTable d !! r = Some (mkIndexEntry (Some q) None (Some kR)) ->
  now d <= created (keypairOf d kR) + keychainExpireTime d ->
  receiveDatagram d D ep =
    RxTransport (Some q) (mkInElem (Some (header ++ sealed)) 0 kR ep (tTransport (paddings d))).
Proof.
  intros header s D Hcfg Hc Hs Hin Hty Hr Hcn S1 S2 S3 Hidx Hexp.
  assert (Hh : length header = 16%nat) by apply length_transportHeader.
  assert (HD : length D = (length crypt + length header + length sealed)%nat).
  { unfold D. rewrite !length_app, length_protect. lia. }
  set (s' := take HeaderCipherNonceSize D).
  assert (Hsalt : forall l, protect d s l = protect d s' l).
  { intros l. apply protect_salt. intros E. pose proof (cf_salt _ Hcfg E). unfold HeaderCipherNonceSize. lia. }
  assert (HD' : D = crypt ++ protect d s' header ++ sealed) by (unfold D; by rewrite Hsalt).
  destruct (transportHeader_fields ty r c sealed Hr Hcn) as (H4 & H48 & H816 & H16).
  unfold receiveDatagram. rewrite (proj2 (Z.ltb_ge _ _)) by (rewrite HD; unfold MinMessageSize, MessageKeepaliveSize,
    MessageTransportSize, MessageTransportHeaderSize; lia).
  rewrite HD in S1, S2, S3.
  assert (Hu : unwrapDatagram d D = (MessageTransportType, tTransport (paddings d), halfOpen d s' header ++ sealed)).
  { unfold s'. rewrite HD' at 1. rewrite (unwrapDatagram_wrapped d crypt header sealed s' 32 MessageTransportType
      (tTransport (paddings d))); [done|by rewrite <- HD'|lia|done| |done].
    apply classify_transport; try done; [lia..|]. fold header in H4. rewrite H4, le_val_le_bytes. by rewrite Z.mod_small. }
  rewrite Hu. rewrite Z.eqb_refl.
  assert (Hho : length (halfOpen d s' header) = 16%nat) by (rewrite length_halfOpen; lia).
  rewrite (proj2 (Z.ltb_ge _ _)) by (rewrite length_app, Hho; unfold MessageTransportSize, MessageTransportHeaderSize; lia).
  assert (Hb : (4 <= length header)%nat) by lia.
  pose proof (unprotectFrom4_wrapped d D s' header sealed eq_refl Hb) as Hup. rewrite Hh in Hup. rewrite Hup.
  unfold MessageTransportOffsetReceiver, MessageTransportOffsetCounter. fold header in H48. rewrite H48.
  unfold indexLookup. rewrite Hidx. cbn [from_option id ieKeypair iePeer].
  by rewrite (proj2 (Z.ltb_ge _ _)) by lia.
Qed.

End Transport.

Section Witness.
Import Toy.
Local Instance sampleEntropy : Entropy := fun i => Z.of_nat (i * i + 3).

(** Header protection and a padding of 20 bytes in front of every message. *)
Definition sampleObf (d : Device) : Device :=
  d <| paddings := mkPerType 20 20 20 20 |> <| headerProtectionKey := replicate 32 7 |>
    <| headers ::= (fun h => h <| tTransport := rangeFromUint32 900 1000 |>) |>.

Definition sampleKp (li ri : Z) : Keypair := mkKeypair 0 (replicate 32 5) (replicate 32 5) zeroFilter true 0 li ri.
Definition sampleSender : Device :=
  sampleObf (NewDevice None 100) <| keypairStore := {[ 3%nat := sampleKp 8 77 ]} |>.
Definition sampleReceiver : Device :=
  sampleObf (NewDevice None 100) <| keypairStore := {[ 1%nat := sampleKp 77 8 ]} |>
    <| indexTable := {[ 77 := mkIndexEntry (Some 4%nat) None (Some 1%nat) ]} |>.
Definition samplePacket : list Z := [0x45; 0; 0; 20] ++ replicate 16 9.
Definition sampleElem : OutElem := mkOutElem (Some samplePacket) 41 (Some 3%nat) (Some 2%nat) 20 false.

Lemma sample_config : config_ok sampleReceiver.
Proof.
  split.
  - unfold range_wf, is_u64. vm_compute. repeat split; discriminate.
  - by vm_compute.
  - unfold is_u32. vm_compute. repeat split; discriminate.
  - intros _. vm_compute. repeat split; discriminate.
Qed.

End Witness.
