(* ===== verification/Send.v ===== *)
(** * Sending ([src/awg-ios/device/send.go], the sending part of [peer.go])

    Staging and sending of packets, the handshake and cookie messages, and the
    two workers of the outbound flow: encryption, and the sequential sender of a
    peer.  A container of packets has an identity in [outStore]; the channels hold
    identities, the encryption worker unlocks the container. *)

From stdpp Require Import base numbers list gmap.
From Stdlib Require Import ZArith Lia.
From S2P Require Import Prelude NoiseTypes Crypto Replay RateLimiter Tai64n AllowedIPs Obf DeviceTypes Messages Noise Timers Cookie Packet.

(** A [conn.Bind]: what its calls answer; the answer may depend on everything. *)
Class Bind := {
  sendResult : Device -> list (list Z) -> Endpoint -> bool;
  openResult : Device -> Z -> option Z;      (* the port that was bound *)
  closeResult : Device -> bool;
  setMarkResult : Device -> Z -> bool;
  parseEndpoint : Device -> list Z -> option Endpoint
}.

Section Send.
Context `{C : Crypto} `{N : Entropy} `{B : Bind}.

(** ** Datagrams to the network *)

Definition bindSend (buffers : list (list Z)) (ep : Endpoint) (d : Device) : bool * Device :=
  (sendResult d buffers ep, d <| sent ::= (fun l => l ++ [(ep, buffers)]) |>).

Definition totalLen (buffers : list (list Z)) : Z := foldr (fun b n => Z.of_nat (length b) + n) 0 buffers.

(** [ClearSrc] forgets the source address of the endpoint, which [Endpoint] leaves out. *)
Definition SendBuffers (p : nat) (buffers : list (list Z)) : M unit := fun d =>
  if isClosed d then (Ok tt, d)
  else
    match epVal (endpoint (peerOf d p)) with
    | None => (Err ErrNoEndpoint, d)
    | Some ep =>
        let d := if clearSrcOnTx (endpoint (peerOf d p))
                 then modPeer p (fun P => P <| endpoint ::= (fun e => e <| clearSrcOnTx := false |>) |>) d else d in
        let '(ok, d) := bindSend buffers ep d in
        if ok then (Ok tt, modPeer p (fun P => P <| txBytes ::= (fun n => u64 (n + u64 (totalLen buffers))) |>) d)
        else (Err ErrSend, d)
    end.

(** ** Handshake messages *)

(** [buf]: the random bytes, the message under the header cipher, the trailer. *)
Definition wrapBuf (d : Device) (crypt packet trailer : list Z) : list Z :=
  crypt ++ protect d (take HeaderCipherNonceSize (crypt ++ packet)) packet ++ trailer.

(** The custom packets in front of an initiation. *)
Fixpoint ipacketBufs (ips : list (option obfChain)) : M (list (list Z)) :=
  match ips with
  | [] => sret []
  | None :: ips => ipacketBufs ips
  | Some c :: ips => fun d =>
      match obfuscated c [] (now d / Second) (drawn d) with
      | None => (Err GoPanic, d)
      | Some (buf, pos) =>
          sbind (ipacketBufs ips) (fun bufs => sret (buf :: bufs)) (d <| drawn := pos |>)
      end
  end.

Definition peerAddMacs (p : nat) (msg : list Z) (d : Device) : list Z * Device :=
  let '(packet, g) := AddMacs (cookieGenerator (peerOf d p)) (now d) msg in
  (packet, modPeer p (fun P => P <| cookieGenerator := g |>) d).

Definition SendHandshakeInitiation (p : nat) (isRetry : bool) : M unit :=
  (if isRetry then sret tt
   else fun d =>
     let d := modTimers p (fun t => t <| handshakeAttempts := 0 |>) d in
     let '(m, d) := maxHandshakeAttemps d in
     (Ok tt, modTimers p (fun t => t <| maxHandshakeAttempts := m |>) d)) >>>
  do timeout <- gets rekeyMinTimeout ;;
  do elapsed <- gets (fun d => since d (lastSentHandshake (hsOf d p))) ;;
  if elapsed <? timeout then sret tt
  else
    smod (fun d => modHandshake p (fun h => h <| lastSentHandshake := now d |>) d) >>>
    do msg <- CreateMessageInitiation p ;;
    do ips <- gets ipackets ;;
    do ibufs <- ipacketBufs ips ;;
    do jbufs <- liftD JunkPackets ;;
    do padding <- gets (fun d => tInit (paddings d)) ;;
    do t <- liftD (peerRandomTrailer p (padding + MessageInitiationSize)) ;;
    do crypt <- liftD (readRandom (Z.to_nat padding)) ;;
    do packet <- liftD (peerAddMacs p (marshalInitiation msg)) ;;
    smod (timersAnyAuthenticatedPacketTraversal p) >>>
    smod (timersAnyAuthenticatedPacketSent p) >>>
    do trailer <- liftD (readRandom (Z.to_nat (Z.max t 0))) ;;
    do buf <- gets (fun d => wrapBuf d crypt packet trailer) ;;
    fun d =>
      let '(r, d) := SendBuffers p (ibufs ++ jbufs ++ [buf]) d in
      (r, timersHandshakeInitiated p d).

Definition SendHandshakeResponse (p : nat) : M unit :=
  smod (fun d => modHandshake p (fun h => h <| lastSentHandshake := now d |>) d) >>>
  do response <- CreateMessageResponse p ;;
  do padding <- gets (fun d => tResponse (paddings d)) ;;
  do t <- liftD (peerRandomTrailer p (padding + MessageResponseSize)) ;;
  do crypt <- liftD (readRandom (Z.to_nat padding)) ;;
  do packet <- liftD (peerAddMacs p (marshalResponse response)) ;;
  BeginSymmetricSession p >>>
  smod (timersSessionDerived p) >>>
  smod (timersAnyAuthenticatedPacketTraversal p) >>>
  smod (timersAnyAuthenticatedPacketSent p) >>>
  do trailer <- liftD (readRandom (Z.to_nat (Z.max t 0))) ;;
  do buf <- gets (fun d => wrapBuf d crypt packet trailer) ;;
  SendBuffers p [buf].

(** The result of [bind.Send] is not looked at. *)
Definition SendHandshakeCookie (e : QueueHandshakeElement) (d : Device) : Device :=
  if disableCookies d then d
  else
    let sender := le_val (slice (hePacket e) 4 8) in
    let '(msgType, d) := pickOne (tCookie (headers d)) d in
    let '(reply, cc, pos) :=
      CreateReply (cookieChecker d) (now d) (drawn d) (hePacket e) sender (dstBytes (heEndpoint e)) msgType in
    let d := d <| cookieChecker := cc |> <| drawn := pos |> in
    let padding := tCookie (paddings d) in
    let '(t, d) := deviceRandomTrailer (padding + MessageCookieReplySize) d in
    let '(crypt, d) := readRandom (Z.to_nat padding) d in
    let packet := marshalCookieReply reply in
    let '(trailer, d) := readRandom (Z.to_nat (Z.max t 0)) d in
    (bindSend [wrapBuf d crypt packet trailer] (heEndpoint e) d).2.

Definition keepKeyFreshSending (p : nat) (d : Device) : Device :=
  match current (keypairs (peerOf d p)) with
  | None => d
  | Some k =>
      let kp := keypairOf d k in
      if RekeyAfterMessages <? sendNonce kp then (SendHandshakeInitiation p false d).2
      else if isInitiator kp then
        let elapsed := since d (created kp) in
        let '(limit, d) := keyRefreshTimeoutSending d in
        if limit <? elapsed then (SendHandshakeInitiation p false d).2 else d
      else d
  end.

(** ** Staged packets *)

(** [default] of the first [select]: when the channel is full its oldest container goes. *)
Definition stage (q : list (list OutElem)) (c : list OutElem) : list (list OutElem) :=
  if (length q <? QueueStagedSize)%nat then q ++ [c] else drop 1 q ++ [c].

Definition StagePackets (p : nat) (c : list OutElem) (d : Device) : Device :=
  modPeer p (fun P => P <| staged ::= (fun q => stage q c) |>) d.

Definition FlushStagedPackets (p : nat) (d : Device) : Device := modPeer p (fun P => P <| staged := [] |>) d.

(** Nonces for the elements of a container: those that stay, and those for
    which the keypair has no nonce left. *)
Fixpoint assignNonces (p k : nat) (es : list OutElem) (d : Device) : list OutElem * list OutElem * Device :=
  match es with
  | [] => ([], [], d)
  | e :: es =>
      let n := u64 (sendNonce (keypairOf d k) + 1) in
      let d := modKeypair k (fun kp => kp <| sendNonce := n |>) d in
      let e := e <| oePeer := Some p |> <| oeNonce := u64 (n - 1) |> in
      if RejectAfterMessages <=? oeNonce e then
        let d := modKeypair k (fun kp => kp <| sendNonce := RejectAfterMessages |>) d in
        let '(kept, ooo, d) := assignNonces p k es d in
        (kept, e :: ooo, d)
      else
        let '(kept, ooo, d) := assignNonces p k es d in
        ((e <| oeKeypair := Some k |>) :: kept, ooo, d)
  end.

(** The container goes to the peer's sequential queue and to the workers. *)
Definition enqueueOutbound (p : nat) (es : list OutElem) (d : Device) : Device :=
  if isRunning (peerOf d p) then
    let c := base.fresh (dom (outStore d)) in
    modPeer p (fun P => P <| outbound ::= (fun q => q ++ [Some c]) |>)
      (d <| outStore ::= <[c := mkContainer true es]> |> <| encryptionQ ::= (fun q => q ++ [c]) |>)
  else d.

(** The inner loop: [true] is [goto top]. *)
Fixpoint sendLoop (fuel : nat) (p k : nat) (d : Device) : bool * Device :=
  match fuel with
  | O => (false, d)
  | S fuel' =>
      match staged (peerOf d p) with
      | [] => (false, d)
      | c :: q =>
          let d := modPeer p (fun P => P <| staged := q |>) d in
          let '(kept, ooo, d) := assignNonces p k c d in
          let d := if (length ooo =? 0)%nat then d else StagePackets p ooo d in
          if (length kept =? 0)%nat then (true, d)
          else
            let d := enqueueOutbound p kept d in
            if (length ooo =? 0)%nat then sendLoop fuel' p k d else (true, d)
      end
  end.

(** The keypair packets can be sent with. *)
Definition usableKeypair (p : nat) (d : Device) : option nat :=
  k ← current (keypairs (peerOf d p));
  let kp := keypairOf d k in
  if (RejectAfterMessages <=? sendNonce kp) || (keychainExpireTime d <=? since d (created kp)) then None else Some k.

Fixpoint sendStagedTop (fuel : nat) (p : nat) (d : Device) : option Device :=
  match fuel with
  | O => None
  | S fuel' =>
      if (length (staged (peerOf d p)) =? 0)%nat || negb (isUp d) then Some d
      else
        match usableKeypair p d with
        | None => Some (SendHandshakeInitiation p false d).2
        | Some k =>
            let '(again, d) := sendLoop (length (staged (peerOf d p))) p k d in
            if again then sendStagedTop fuel' p d else Some d
        end
  end.

(** [goto top] is taken at most once for every staged container. *)
Definition sendFuel (p : nat) (d : Device) : nat := length (staged (peerOf d p)) + 2.

Definition SendStagedPackets (p : nat) (d : Device) : Device := default d (sendStagedTop (sendFuel p d) p d).

Definition NewOutboundElement (d : Device) : OutElem :=
  mkOutElem (Some []) 0 None None (tTransport (paddings d)) false.

Definition SendKeepalive (p : nat) (d : Device) : Device :=
  let P := peerOf d p in
  let d := if (length (staged P) =? 0)%nat && isRunning P
           then StagePackets p [NewOutboundElement d <| isKeepalive := true |>] d else d in
  SendStagedPackets p d.

(** ** The TUN reader *)

Definition ipOf (bs : list Z) : ipAddr := mkIP (Z.of_nat (length bs)) (be_val bs).

(** The peer a packet read from the TUN device goes to. *)
Definition routePacket (d : Device) (packet : list Z) : option nat :=
  match packet with
  | [] => None
  | b :: _ =>
      let version := Z.shiftr b 4 in
      if version =? 4 then
        if (length packet <? 20)%nat then None else mjoin (Lookup (allowedips d) (ipOf (slice packet 16 20)))
      else if version =? 6 then
        if (length packet <? 40)%nat then None else mjoin (Lookup (allowedips d) (ipOf (slice packet 24 40)))
      else None
  end.

(** [elemsByPeer], in the order its keys were first used. *)
Fixpoint addElem {A} (p : nat) (e : A) (groups : list (nat * list A)) : list (nat * list A) :=
  match groups with
  | [] => [(p, [e])]
  | (q, es) :: gs => if (q =? p)%nat then (q, es ++ [e]) :: gs else (q, es) :: addElem p e gs
  end.

Definition tunGroups (d : Device) (packets : list (list Z)) : list (nat * list OutElem) :=
  foldl (fun gs packet =>
           match routePacket d packet with
           | None => gs
           | Some p => addElem p (NewOutboundElement d <| oePacket := Some packet |>) gs
           end) [] packets.

Definition sendGroup (d : Device) (g : nat * list OutElem) : Device :=
  if isRunning (peerOf d g.1) then SendStagedPackets g.1 (StagePackets g.1 g.2 d) else d.

(** One batch read from the TUN device.  The order in which the map of peers is
    walked is not specified: [groups'] is any order of the groups. *)
Definition readFromTUN (d : Device) (packets : list (list Z)) (d' : Device) : Prop :=
  exists groups', groups' ≡ₚ tunGroups d packets /\ d' = foldl sendGroup d groups'.

(** ** The workers *)

Fixpoint encryptAll (es : list OutElem) (d : Device) : list OutElem * Device :=
  match es with
  | [] => ([], d)
  | e :: es =>
      let '(e, d) := encryptElem e d in
      let '(es, d) := encryptAll es d in
      (e :: es, d)
  end.

Definition outContainer (d : Device) (c : nat) : Container OutElem :=
  default (mkContainer false []) (outStore d !! c).

(** The keypair and the nonce of every element. *)
Definition noncesOf (es : list OutElem) : list (nat * Z) := map (fun e => (default O (oeKeypair e), oeNonce e)) es.

(** A worker takes a container off the queue, encrypts it and unlocks it. *)
Definition encryptionStep (d : Device) : option Device :=
  match encryptionQ d with
  | [] => None
  | c :: q =>
      let es := elems (outContainer d c) in
      let '(es', d) := encryptAll es (d <| encryptionQ := q |>) in
      Some (d <| outStore ::= <[c := mkContainer false es']> |> <| sealedLog ::= (fun l => l ++ noncesOf es) |>)
  end.

(** What became of the head of a peer's outbound queue. *)
Inductive workerStep := Blocked | Stopped (d : Device) | Stepped (d : Device).

Definition RoutineSequentialSender (p : nat) (d : Device) : workerStep :=
  match outbound (peerOf d p) with
  | [] => Blocked
  | None :: q => Stopped (modPeer p (fun P => P <| outbound := q |>) d)
  | Some c :: q =>
      if locked (outContainer d c) then Blocked
      else
        let es := elems (outContainer d c) in
        let d := modPeer p (fun P => P <| outbound := q |>) d <| outStore ::= delete c |> in
        if negb (isRunning (peerOf d p)) then Stepped d
        else
          let dataSent := existsb (fun e => negb (isKeepalive e)) es in
          let bufs := map (fun e => default [] (oePacket e)) es in
          let d := timersAnyAuthenticatedPacketTraversal p d in
          let d := timersAnyAuthenticatedPacketSent p d in
          let '(r, d) := SendBuffers p bufs d in
          let d := if dataSent then timersDataSent p d else d in
          Stepped (if is_ok r then keepKeyFreshSending p d else d)
  end.

End Send.
