(* ===== verification/SendThm.v ===== *)
(** * Sending staged packets

    The queue of staged containers keeps the newest ones, in order.
    [SendStagedPackets] always comes to an end, and leaves packets staged only
    when the device is not up or a handshake has just been asked for. *)

From stdpp Require Import base numbers list gmap.
From Stdlib Require Import ZArith Lia.
From S2P Require Import Prelude NoiseTypes Crypto Replay RateLimiter Tai64n AllowedIPs Obf DeviceTypes Messages Noise NoiseRun Timers Cookie Packet Send.

(** ** The queue of staged containers *)

Section Stage.

Lemma queue_pos : (0 < QueueStagedSize)%nat.
Proof. unfold QueueStagedSize. lia. Qed.

Lemma stage_length q c : (length q <= QueueStagedSize)%nat -> (length (stage q c) <= QueueStagedSize)%nat.
Proof.
  intros H. pose proof queue_pos. unfold stage. destruct (Nat.ltb_spec (length q) QueueStagedSize); rewrite length_app; cbn [length]; [lia|].
  rewrite length_drop. lia.
Qed.

Lemma stage_newest q c :
  (length q <= QueueStagedSize)%nat -> stage q c = drop (length (q ++ [c]) - QueueStagedSize) (q ++ [c]).
Proof.
  intros H. unfold stage. rewrite length_app. cbn [length]. destruct (Nat.ltb_spec (length q) QueueStagedSize).
  - by replace (length q + 1 - QueueStagedSize)%nat with O by lia.
  - replace (length q + 1 - QueueStagedSize)%nat with 1%nat by lia. rewrite drop_app_le; [done|].
    pose proof queue_pos. lia.
Qed.

Lemma drop_app_tail {A} n (l1 l2 : list A) : drop (length (drop n l1 ++ l2) - QueueStagedSize) (drop n l1 ++ l2) =
  drop (length (drop n l1 ++ l2) - QueueStagedSize + Nat.min n (length l1)) (l1 ++ l2).
Proof.
  destruct (le_lt_dec n (length l1)).
  - rewrite Nat.min_l by lia. rewrite <- (drop_app_le l1 l2 n) by lia. rewrite drop_drop. f_equal. lia.
  - rewrite Nat.min_r by lia. rewrite (drop_ge l1 n) by lia. cbn [app].
    rewrite (drop_app_ge l1 l2) by lia. f_equal. lia.
Qed.

(** The queue of staged containers is bounded and keeps the newest: staging
    the containers [cs] one after the other on a queue of at most
    [QueueStagedSize] leaves the last [QueueStagedSize] of all of them, in the
    order they were staged. *)
Theorem staged_newest q cs :
  (length q <= QueueStagedSize)%nat ->
  foldl stage q cs = drop (length (q ++ cs) - QueueStagedSize) (q ++ cs).
Proof.
  revert q. induction cs as [|c cs IH]; intros q H; cbn [foldl].
  - rewrite app_nil_r. by replace (length q - QueueStagedSize)%nat with O by lia.
  - rewrite IH by by apply stage_length. rewrite (stage_newest q c H), drop_app_tail. rewrite <- app_assoc. cbn [app].
    f_equal. rewrite !length_app, length_drop, length_app. cbn [length]. lia.
Qed.

Lemma staged_newest_witness :
  foldl stage [] (replicate 130 []) = (replicate 128 [] : list (list OutElem)).
Proof. rewrite staged_newest; [reflexivity|cbn; lia]. Defined.
End Stage.

(** ** SendStagedPackets *)

Section SendStaged.
Context `{C : Crypto} `{N : Entropy} `{B : Bind}.

Definition stagedLen (p : nat) (d : Device) : nat := length (staged (peerOf d p)).

(** The keypair has no nonce left. *)
Definition exhausted (k : nat) (d : Device) : Prop := RejectAfterMessages <= sendNonce (keypairOf d k).

(** What sending does not change until it initiates a handshake. *)
Record sameSession (p : nat) (d d' : Device) : Prop := {
  ses_keypairs : keypairs (peerOf d' p) = keypairs (peerOf d p);
  ses_state : state d' = state d
}.
#[local] Instance sameSession_preorder p : PreOrder (sameSession p).
Proof. split; [by intros d|]. intros d1 d2 d3 [] []. split; congruence. Qed.

Lemma assignNonces_peers p k es d : peerStore (assignNonces p k es d).2 = peerStore d /\ state (assignNonces p k es d).2 = state d.
Proof.
  revert d. induction es as [|e es IH]; intros d; cbn [assignNonces]; [done|].
  destruct (RejectAfterMessages <=? _);
    match goal with |- context [assignNonces p k es ?x] => specialize (IH x); destruct (assignNonces p k es x) as [[? ?] ?] end; exact IH.
Qed.

Lemma exhausted_next k d n :
  sendNonce (keypairOf d k) = RejectAfterMessages -> n = u64 (sendNonce (keypairOf d k) + 1) ->
  (RejectAfterMessages <=? u64 (n - 1)) = true.
Proof. intros -> ->. reflexivity. Qed.

Lemma keypairOf_mod_eq k f d : keypairOf (modKeypair k f d) k = f (keypairOf d k).
Proof. rewrite keypairOf_mod. by rewrite decide_True. Qed.

(** Once a nonce is refused the counter stands at the limit. *)
Lemma assignNonces_exhausts p k es d kept ooo d1 :
  assignNonces p k es d = (kept, ooo, d1) ->
  ooo <> [] \/ sendNonce (keypairOf d k) = RejectAfterMessages /\ es = [] -> 
  sendNonce (keypairOf d1 k) = RejectAfterMessages.
Proof.
  assert (Hs : forall es d kept ooo d1, assignNonces p k es d = (kept, ooo, d1) ->
    sendNonce (keypairOf d k) = RejectAfterMessages -> sendNonce (keypairOf d1 k) = RejectAfterMessages).
  { clear. induction es as [|e es IH]; intros d kept ooo d1; cbn [assignNonces]; [by intros [= <- <- <-]|].
    intros H Hn. destruct (RejectAfterMessages <=? _) eqn:En; [|by pose proof (eq_trans (eq_sym En) (exhausted_next k d _ Hn eq_refl))].
    destruct (assignNonces p k es _) as [[kept' ooo'] d2] eqn:E. injection H as <- <- <-.
    apply (IH _ _ _ _ E). by rewrite keypairOf_mod_eq. }
  revert d kept ooo d1. induction es as [|e es IH]; intros d kept ooo d1; cbn [assignNonces].
  { intros [= <- <- <-] [?|[? _]]; [done|]. done. }
  intros H Ho. destruct (RejectAfterMessages <=? _) eqn:En.
  - destruct (assignNonces p k es _) as [[kept' ooo'] d2] eqn:E. injection H as <- <- <-.
    apply (Hs _ _ _ _ _ E). by rewrite keypairOf_mod_eq.
  - destruct (assignNonces p k es _) as [[kept' ooo'] d2] eqn:E. injection H as <- <- <-.
    apply (IH _ _ _ _ E). left. destruct Ho as [?|[_ ?]]; done.
Qed.

Lemma assignNonces_split p k es d kept ooo d1 :
  assignNonces p k es d = (kept, ooo, d1) -> kept = [] -> ooo = [] -> es = [].
Proof.
  destruct es as [|e es]; cbn [assignNonces]; [done|].
  destruct (RejectAfterMessages <=? _); destruct (assignNonces p k es _) as [[? ?] ?]; intros [= <- <- <-]; done.
Qed.

Lemma assignNonces_session p k es d : sameSession p d (assignNonces p k es d).2 /\ stagedLen p (assignNonces p k es d).2 = stagedLen p d.
Proof. destruct (assignNonces_peers p k es d) as [H1 H2]. unfold stagedLen, peerOf. split; [split|]; unfold peerOf; by rewrite ?H1. Qed.

Lemma enqueueOutbound_same p es d :
  sameSession p d (enqueueOutbound p es d) /\ staged (peerOf (enqueueOutbound p es d) p) = staged (peerOf d p) /\
  keypairStore (enqueueOutbound p es d) = keypairStore d.
Proof.
  unfold enqueueOutbound. destruct (isRunning _); [|by repeat split].
  set (d0 := _ <| encryptionQ ::= _ |>). split; [split; [by rewrite peerOf_modPeer_eq|done]|].
  split; [by rewrite peerOf_modPeer_eq|done].
Qed.

Lemma StagePackets_same p c d :
  sameSession p d (StagePackets p c d) /\ stagedLen p (StagePackets p c d) = length (stage (staged (peerOf d p)) c).
Proof. unfold StagePackets, stagedLen. rewrite peerOf_modPeer_eq. repeat split. by rewrite peerOf_modPeer_eq. Qed.

Lemma sendLoop_spec fuel p k d again d' :
  (stagedLen p d <= fuel)%nat -> sendLoop fuel p k d = (again, d') ->
  sameSession p d d' /\
  if again then sendNonce (keypairOf d' k) = RejectAfterMessages \/ (stagedLen p d' < stagedLen p d)%nat
  else staged (peerOf d' p) = [].
Proof.
  revert d. induction fuel as [|fuel IH]; intros d Hf; cbn [sendLoop].
  { intros [= <- <-]. split; [done|]. unfold stagedLen in Hf. by apply nil_length_inv, Nat.le_0_r. }
  destruct (staged (peerOf d p)) as [|c q] eqn:Eq; [by intros [= <- <-]|].
  assert (Hl : stagedLen p d = S (length q)) by (unfold stagedLen; by rewrite Eq).
  set (d0 := modPeer p _ d).
  assert (H0 : sameSession p d d0 /\ staged (peerOf d0 p) = q).
  { unfold d0. split; [split; [by rewrite peerOf_modPeer_eq|done]|by rewrite peerOf_modPeer_eq]. }
  destruct H0 as [H0 E0]. destruct (assignNonces_session p k c d0) as [H1 E1].
  destruct (assignNonces p k c d0) as [[kept ooo] d1] eqn:Ea. cbn [snd] in H1, E1.
  assert (H01 : sameSession p d d1) by (etransitivity; [exact H0|exact H1]).
  assert (E1' : stagedLen p d1 = length q) by (rewrite E1; unfold stagedLen; by rewrite E0).
  destruct ooo as [|e ooo]; cbn [length Nat.eqb].
  - destruct kept as [|e' kept]; cbn [length Nat.eqb]; [intros [= <- <-]; split; [done|right; lia]|].
    destruct (enqueueOutbound_same p (e' :: kept) d1) as (H2 & E2 & _). intros E.
    assert (H3 : stagedLen p (enqueueOutbound p (e' :: kept) d1) = length q) by (unfold stagedLen in *; by rewrite E2).
    destruct (IH (enqueueOutbound p (e' :: kept) d1)) as [H4 H5]; [lia|exact E|]. split; [etransitivity; [exact H01|etransitivity; [exact H2|exact H4]]|].
    destruct again; [|done]. destruct H5; [by left|right; lia].
  - pose proof (assignNonces_exhausts _ _ _ _ _ _ _ Ea (or_introl (not_eq_sym (@nil_cons _ e ooo)))) as Hx.
    destruct (StagePackets_same p (e :: ooo) d1) as [H2 _]. set (d2 := StagePackets p (e :: ooo) d1) in *.
    assert (Hx2 : sendNonce (keypairOf d2 k) = RejectAfterMessages) by exact Hx.
    destruct kept as [|e' kept]; cbn [length Nat.eqb].
    + intros [= <- <-]. split; [by transitivity d1|by left].
    + destruct (enqueueOutbound_same p (e' :: kept) d2) as (H3 & _ & E3). intros [= <- <-].
      split; [etransitivity; [exact H01|etransitivity; [exact H2|exact H3]]|]. left. unfold keypairOf. by rewrite E3.
Qed.

Lemma usable_exhausted p k d :
  current (keypairs (peerOf d p)) = Some k -> sendNonce (keypairOf d k) = RejectAfterMessages -> usableKeypair p d = None.
Proof. intros Hc Hn. unfold usableKeypair. rewrite Hc. cbn [mbind option_bind]. rewrite Hn. reflexivity. Qed.

Lemma usable_current p k d : usableKeypair p d = Some k -> current (keypairs (peerOf d p)) = Some k.
Proof.
  unfold usableKeypair. destruct (current _) as [k'|]; [|done]. cbn [mbind option_bind].
  destruct (_ || _); [done|]. by intros [= ->].
Qed.

(** What [SendStagedPackets] comes to. *)
Inductive sendOutcome (p : nat) (d d' : Device) : Prop :=
  | allSent : staged (peerOf d' p) = [] -> sameSession p d d' -> sendOutcome p d d'
  | notUp : isUp d = false -> d' = d -> sendOutcome p d d'
  | handshakeAsked d1 : sameSession p d d1 -> staged (peerOf d1 p) <> [] -> usableKeypair p d1 = None ->
      d' = (SendHandshakeInitiation p false d1).2 -> sendOutcome p d d'.

Lemma sendStagedTop_spec n p d :
  (match usableKeypair p d with None => 1 | Some _ => stagedLen p d + 2 end <= n)%nat ->
  exists d', sendStagedTop n p d = Some d' /\ sendOutcome p d d'.
Proof.
  revert d. induction n as [|n IH]; intros d Hn; [destruct (usableKeypair p d); lia|]. cbn [sendStagedTop].
  destruct (length (staged (peerOf d p)) =? 0)%nat eqn:El; cbn [orb].
  { exists d. split; [done|]. apply allSent; [|done]. by apply nil_length_inv, Nat.eqb_eq. }
  assert (Hne : staged (peerOf d p) <> []) by by intros E; rewrite E in El.
  destruct (isUp d) eqn:Eu; cbn [negb]; [|exists d; split; [done|by apply notUp]].
  destruct (usableKeypair p d) as [k|] eqn:Ek; [|eexists; split; [done|by eapply handshakeAsked]].
  pose proof (usable_current _ _ _ Ek) as Hk.
  destruct (sendLoop _ p k d) as [again d1] eqn:El1. destruct (sendLoop_spec _ _ _ _ _ _ (le_n _) El1) as [H1 H2].
  destruct again; [|eexists; split; [done|by apply allSent]].
  destruct (IH d1) as (d' & E & Ho).
  { destruct H2 as [H2|H2].
    - rewrite (usable_exhausted p k d1); [destruct n; lia| |done]. by rewrite (ses_keypairs _ _ _ H1).
    - destruct (usableKeypair p d1); lia. }
  exists d'. split; [done|]. destruct Ho as [Hs Hss|Hu ->|d2 H3 H4 H5 ->].
  - apply allSent; [done|by transitivity d1].
  - exfalso. unfold isUp in *. rewrite (ses_state _ _ _ H1) in Hu. congruence.
  - eapply handshakeAsked; [by transitivity d1|done..].
Qed.

Lemma sendStagedTop_more n m p d d' : sendStagedTop n p d = Some d' -> (n <= m)%nat -> sendStagedTop m p d = Some d'.
Proof.
  revert m d. induction n as [|n IH]; intros m d H Hm; [done|]. destruct m as [|m]; [lia|]. cbn [sendStagedTop] in *.
  destruct (_ || _); [done|]. destruct (usableKeypair p d) as [k|]; [|done].
  destruct (sendLoop _ p k d) as [[] d1]; [|done]. apply IH; [done|lia].
Qed.


End SendStaged.
