(* ===== verification/Receive.v ===== *)
(** * Receiving ([src/awg-ios/device/receive.go])

    A batch of datagrams, the decryption worker, the handshake worker and the
    sequential receiver of a peer. *)

From stdpp Require Import base numbers list gmap.
From Stdlib Require Import ZArith Lia.
From S2P Require Import Prelude NoiseTypes Crypto Replay RateLimiter Tai64n AllowedIPs Obf DeviceTypes Messages Noise Timers Cookie Packet Send.

Section Receive.
Context `{C : Crypto} `{N : Entropy} `{B : Bind}.

Definition keepKeyFreshReceiving (p : nat) (d : Device) : Device :=
  if sentLastMinuteHandshake (timersOf d p) then d
  else
    match current (keypairs (peerOf d p)) with
    | None => d
    | Some k =>
        let kp := keypairOf d k in
        if isInitiator kp then
          let elapsed := since d (created kp) in
          let '(limit, d) := keyRefreshTimeoutReceiving d in
          if limit <? elapsed then
            (SendHandshakeInitiation p false (modTimers p (fun t => t <| sentLastMinuteHandshake := true |>) d)).2
          else d
        else d
    end.

(** [val != endpoint] compares the interface values. *)
Definition SetEndpointFromPacket (p : nat) (ep : Endpoint) (d : Device) : Device :=
  if disableRoaming (endpoint (peerOf d p)) then d
  else
    let d := if bool_decide (epVal (endpoint (peerOf d p)) = Some ep) then d
             else modPeer p (fun P => P <| udpWindow := DefaultUdpWindow |>) d in
    modPeer p (fun P => P <| endpoint ::= (fun e => e <| clearSrcOnTx := false |> <| epVal := Some ep |>) |>) d.

(** ** A batch of datagrams *)

(** A handshake message is queued unless the queue is full. *)
Definition enqueueHandshake (e : QueueHandshakeElement) (d : Device) : Device :=
  if (length (handshakeQ d) <? QueueHandshakeSize)%nat then d <| handshakeQ ::= (fun q => q ++ [e]) |> else d.

Definition receiveOne (gd : list (nat * list InElem) * Device) (x : list Z * Endpoint)
    : list (nat * list InElem) * Device :=
  let '(groups, d) := gd in
  match receiveDatagram d x.1 x.2 with
  | RxDropped | RxTransport None _ => (groups, d)
  | RxTransport (Some p) e => (addElem p e groups, d)
  | RxHandshake e => (groups, enqueueHandshake e d)
  end.

Definition deliverGroup (d : Device) (g : nat * list InElem) : Device :=
  if isRunning (peerOf d g.1) then
    let c := base.fresh (dom (inStore d)) in
    modPeer g.1 (fun P => P <| inbound ::= (fun q => q ++ [Some c]) |>)
      (d <| inStore ::= <[c := mkContainer true g.2]> |> <| decryptionQ ::= (fun q => q ++ [c]) |>)
  else d.

(** The map of peers is walked in any order. *)
Definition receiveBatch (d : Device) (batch : list (list Z * Endpoint)) (d' : Device) : Prop :=
  let '(groups, d1) := foldl receiveOne ([], d) batch in
  exists groups', groups' ≡ₚ groups /\ d' = foldl deliverGroup d1 groups'.

(** ** The decryption worker *)

Definition inContainer (d : Device) (c : nat) : Container InElem :=
  default (mkContainer false []) (inStore d !! c).

Definition decryptContainer (c : nat) (d : Device) : Device :=
  d <| inStore ::= <[c := mkContainer false (map (fun e => decryptElem e d) (elems (inContainer d c)))]> |>.

Definition decryptionStep (d : Device) : option Device :=
  match decryptionQ d with
  | [] => None
  | c :: q => Some (decryptContainer c (d <| decryptionQ := q |>))
  end.

(** ** The handshake worker *)

Definition IsUnderLoad (d : Device) : bool * Device :=
  if (QueueHandshakeSize / 8 <=? length (handshakeQ d))%nat
  then (true, d <| underLoadUntil := now d + UnderLoadAfterTime |>)
  else (now d <? underLoadUntil d, d).

Definition handleCookieReply (e : QueueHandshakeElement) (d : Device) : Device :=
  match unmarshalCookieReply (hePacket e) with
  | None => d
  | Some reply =>
      match iePeer (indexLookup d (mcReceiver reply)) with
      | None => d
      | Some p =>
          if isRunning (peerOf d p) then
            modPeer p (fun P => P <| cookieGenerator := (ConsumeReply (cookieGenerator P) (now d) reply).2 |>) d
          else d
      end
  end.

(** The MAC and rate checks in front of the handshake: [true] lets the message through. *)
Definition admitHandshake (e : QueueHandshakeElement) (d : Device) : bool * Device :=
  if negb (CheckMAC1 (cookieChecker d) (hePacket e)) then (false, d)
  else
    let '(load, d) := IsUnderLoad d in
    if load then
      if negb (CheckMAC2 (cookieChecker d) (now d) (hePacket e) (dstBytes (heEndpoint e)))
      then (false, SendHandshakeCookie e d)
      else
        let '(ok, l) := Allow (limiter d) (dstIP (heEndpoint e)) (now d) in
        (ok, d <| limiter := l |>)
    else (true, d).

Definition addRxBytes (p : nat) (n : Z) : Device -> Device :=
  modPeer p (fun P => P <| rxBytes ::= (fun r => u64 (r + n)) |>).

Definition setWork (w : handshakeWork) (d : Device) : Device := d <| consuming ::= (fun l => l ++ [w]) |>.

Definition handleInitiation (e : QueueHandshakeElement) (d : Device) : Device :=
  match unmarshalInitiation (hePacket e) with
  | None => d
  | Some msg =>
      match checkInitiation (msg <| miType := heMsgType e |>) d with
      | None => d
      | Some (p, timestamp, hash, chainKey) =>
          setWork (initiationChecked p timestamp hash chainKey (miSender msg) (miEphemeral msg)
                     (heEndpoint e) (Z.of_nat (length (hePacket e)))) d
      end
  end.

Definition handleResponse (e : QueueHandshakeElement) (d : Device) : Device :=
  match unmarshalResponse (hePacket e) with
  | None => d
  | Some msg =>
      match checkResponse (msg <| mrType := heMsgType e |>) d with
      | None => d
      | Some (hp, peer, hash, chainKey) =>
          setWork (responseChecked hp peer hash chainKey (mrSender msg)
                     (heEndpoint e) (Z.of_nat (length (hePacket e)))) d
      end
  end.

(** The first section of a turn of the loop: up to the check of the message. *)
Definition handleHandshake (e : QueueHandshakeElement) (d : Device) : Device :=
  let t := heMsgType e in
  if t =? MessageCookieReplyType then handleCookieReply e d
  else if (t =? MessageInitiationType) || (t =? MessageResponseType) then
    let '(ok, d) := admitHandshake e d in
    if negb ok then d
    else if t =? MessageInitiationType then handleInitiation e d
    else handleResponse e d
  else d.

Definition RoutineHandshake (d : Device) : option Device :=
  match handshakeQ d with
  | [] => None
  | e :: q => Some (handleHandshake e (d <| handshakeQ := q |>))
  end.

(** The next section of a worker: the update of the handshake, then what follows it. *)
Definition continueWork (w : handshakeWork) (d : Device) : Device :=
  match w with
  | initiationChecked p timestamp hash chainKey sender ephemeral ep size =>
      setWork (initiationConsumed p ep size) (updateInitiation p timestamp hash chainKey sender ephemeral d)
  | initiationConsumed p ep size =>
      let d := timersAnyAuthenticatedPacketTraversal p d in
      let d := timersAnyAuthenticatedPacketReceived p d in
      let d := SetEndpointFromPacket p ep d in
      let d := addRxBytes p size d in
      (SendHandshakeResponse p d).2
  | responseChecked hp peer hash chainKey sender ep size =>
      let d := updateResponse hp hash chainKey sender d in
      match peer with None => d | Some p => setWork (responseConsumed p ep size) d end
  | responseConsumed p ep size =>
      let d := SetEndpointFromPacket p ep d in
      let d := addRxBytes p size d in
      let d := timersAnyAuthenticatedPacketTraversal p d in
      let d := timersAnyAuthenticatedPacketReceived p d in
      match BeginSymmetricSession p d with
      | (Err _, d) => d
      | (Ok _, d) =>
          let d := timersSessionDerived p d in
          let d := timersHandshakeComplete p d in
          SendKeepalive p d
      end
  end.

(** The worker that holds the [i]-th message of [consuming] goes on. *)
Definition continueHandshake (i : nat) (d : Device) : option Device :=
  w ← consuming d !! i;
  Some (continueWork w (d <| consuming ::= (fun l => take i l ++ drop (S i) l) |>)).

(** ** The sequential receiver *)

(** The packet that goes to the TUN device: its length is taken from the header
    and its source must be routed to the peer. *)
Definition tunPacket (d : Device) (p : nat) (packet : list Z) : option (list Z) :=
  let version := Z.shiftr (nth 0 packet 0) 4 in
  let allowed (src : list Z) := bool_decide (mjoin (Lookup (allowedips d) (ipOf src)) = Some p) in
  if version =? 4 then
    if (length packet <? 20)%nat then None
    else
      let len := be_val (slice packet 2 4) in
      if (Z.of_nat (length packet) <? len) || (len <? 20) then None
      else if allowed (slice packet 12 16) then Some (take (Z.to_nat len) packet) else None
  else if version =? 6 then
    if (length packet <? 40)%nat then None
    else
      let len := u16 (be_val (slice packet 4 6) + 40) in
      if Z.of_nat (length packet) <? len then None
      else if allowed (slice packet 8 24) then Some (take (Z.to_nat len) packet) else None
  else None.

(** What the loop over a container gathers. *)
Record rxBatch := mkRx { validTail : option Endpoint; dataReceived : bool; rxLen : Z; bufs : list (list Z) }.

Definition validateCounter (k : nat) (counter : Z) (d : Device) : bool * Device :=
  let '(ok, f) := ValidateCounter (replayFilter (keypairOf d k)) counter RejectAfterMessages in
  (ok, modKeypair k (fun kp => kp <| replayFilter := f |>) d).

Definition receiveElem (p : nat) (rd : rxBatch * Device) (e : InElem) : rxBatch * Device :=
  let '(rx, d) := rd in
  match ielPacket e with
  | None => (rx, d)
  | Some packet =>
      let '(ok, d) := validateCounter (ielKeypair e) (ielCounter e) d in
      if negb ok then (rx, d)
      else
        let '(confirmed, d) := ReceivedWithKeypair p (ielKeypair e) d in
        let d := if confirmed then
                   SendStagedPackets p (timersHandshakeComplete p (SetEndpointFromPacket p (ielEndpoint e) d))
                 else d in
        let len := Z.of_nat (length packet) in
        let rx := mkRx (Some (ielEndpoint e)) (dataReceived rx) (u64 (rxLen rx + (len + MinMessageSize))) (bufs rx) in
        let d := noteUdpWindow p (u32 (ielPadding e + MessageTransportHeaderSize + len)) d in
        match packet with
        | [] => (rx, d)
        | b :: _ =>
            if b =? 0 then (rx, d)
            else
              let written := match tunPacket d p packet with Some w => [w] | None => [] end in
              (mkRx (validTail rx) true (rxLen rx) (bufs rx ++ written), d)
        end
  end.

Definition receiveElems (p : nat) (es : list InElem) (d : Device) : Device :=
  let '(rx, d) := foldl (receiveElem p) (mkRx None false 0 [], d) es in
  let d := addRxBytes p (rxLen rx) d in
  let d := match validTail rx with
           | None => d
           | Some ep =>
               let d := SetEndpointFromPacket p ep d in
               let d := keepKeyFreshReceiving p d in
               let d := timersAnyAuthenticatedPacketTraversal p d in
               timersAnyAuthenticatedPacketReceived p d
           end in
  let d := if dataReceived rx then timersDataReceived p d else d in
  d <| tunWritten ::= (fun l => l ++ bufs rx) |>.

Definition RoutineSequentialReceiver (p : nat) (d : Device) : workerStep :=
  match inbound (peerOf d p) with
  | [] => Blocked
  | None :: q => Stopped (modPeer p (fun P => P <| inbound := q |>) d)
  | Some c :: q =>
      if locked (inContainer d c) then Blocked
      else
        let es := elems (inContainer d c) in
        Stepped (receiveElems p es (modPeer p (fun P => P <| inbound := q |>) d <| inStore ::= delete c |>))
  end.

End Receive.
