(* ===== verification/Lifecycle.v ===== *)
(** * Peers and the device over time ([src/awg-ios/device/{peer,device,timers,tun,mobilequirks}.go])

    Creating, starting, stopping and removing peers, the states of the device,
    the timers' handlers, the socket, the private key.  A walk over the map of
    peers follows [map_to_list]. *)

From stdpp Require Import base numbers list gmap.
From Stdlib Require Import ZArith Lia.
From S2P Require Import Prelude NoiseTypes Crypto Replay RateLimiter Tai64n AllowedIPs Obf DeviceTypes Messages Noise Timers Cookie Packet Send Receive.

Section Lifecycle.
Context `{C : Crypto} `{N : Entropy} `{B : Bind}.

Definition peersOf (d : Device) : list (list Z * nat) := map_to_list (keyMap d).

(** ** Peers *)

(** [sharedSecret] of a bad key gives the zero secret besides the error. *)
Definition staticStatic (sk pk : list Z) : list Z := default (zeros 32) (sharedSecret sk pk).

Definition NewPeer (pk : list Z) : M nat := fun d =>
  if isClosed d then (Err ErrDeviceClosed, d)
  else if (MaxPeers <=? size (keyMap d))%nat then (Err ErrTooManyPeers, d)
  else if bool_decide (is_Some (keyMap d !! pk)) then (Err ErrExistingPeer, d)
  else
    let p := base.fresh (dom (peerStore d)) in
    let P := zeroPeer <| udpWindow := DefaultUdpWindow |> <| cookieGenerator ::= generatorInit pk |>
               <| handshake ::= (fun h => h <| precomputedStaticStatic := staticStatic (privateKey d) pk |>
                                            <| remoteStatic := pk |>) |> in
    (Ok p, timersInit p (setPeer p P d) <| keyMap ::= <[pk := p]> |>).

Definition resetLastSent (p : nat) (d : Device) : Device :=
  modHandshake p (fun h => h <| lastSentHandshake := now d - (rekeyMinTimeout d + Second) |>) d.

Definition Start (p : nat) (d : Device) : Device :=
  if isClosed d then d
  else if isRunning (peerOf d p) then d
  else
    let d := resetLastSent p d in
    let d := timersStart p d in
    modPeer p (fun P => P <| inbound := [] |> <| outbound := [] |> <| isRunning := true |>) d.

Definition clearKeypairs (p : nat) (d : Device) : Device :=
  let kps := keypairs (peerOf d p) in
  let d := DeleteKeypair (previous kps) d in
  let d := DeleteKeypair (current kps) d in
  let d := DeleteKeypair (next kps) d in
  setKeypairs p (fun _ => mkKeypairs None None None) d.

Definition clearHandshake (p : nat) (d : Device) : Device :=
  modHandshake p handshakeClear (indexDelete (hsLocalIndex (hsOf d p)) d).

Definition ZeroAndFlushAll (p : nat) (d : Device) : Device :=
  FlushStagedPackets p (clearHandshake p (clearKeypairs p d)).

Definition expireNonce (o : option nat) (d : Device) : Device :=
  match o with None => d | Some k => modKeypair k (fun kp => kp <| sendNonce := RejectAfterMessages |>) d end.

Definition ExpireCurrentKeypairs (p : nat) (d : Device) : Device :=
  let d := clearHandshake p d in
  let d := resetLastSent p d in
  let kps := keypairs (peerOf d p) in
  expireNonce (next kps) (expireNonce (current kps) d).

(** The receiver works off its queue up to the sentinel [Stop] put there; a
    container still locked is first decrypted by a worker. *)
Fixpoint drainInbound (fuel : nat) (p : nat) (d : Device) : Device :=
  match fuel with
  | O => d
  | S fuel' =>
      let d := match inbound (peerOf d p) with
               | Some c :: _ => if locked (inContainer d c) then decryptContainer c d else d
               | _ => d
               end in
      match RoutineSequentialReceiver p d with
      | Blocked => d
      | Stopped d => d
      | Stepped d => drainInbound fuel' p d
      end
  end.

(** The sender drops what is queued up to the sentinel. *)
Definition Stop (p : nat) (d : Device) : Device :=
  if negb (isRunning (peerOf d p)) then d
  else
    let d := modPeer p (fun P => P <| isRunning := false |>) d in
    let d := timersStop p d in
    let d := modPeer p (fun P => P <| inbound ::= (fun q => q ++ [None]) |> <| outbound ::= (fun q => q ++ [None]) |>) d in
    let d := drainInbound (length (inbound (peerOf d p))) p d in
    let d := modPeer p (fun P => P <| outbound := [] |>) d in
    ZeroAndFlushAll p d.

Definition markEndpointSrcForClearing (p : nat) (d : Device) : Device :=
  match epVal (endpoint (peerOf d p)) with
  | None => d
  | Some _ => modPeer p (fun P => P <| endpoint ::= (fun e => e <| clearSrcOnTx := true |>) |>) d
  end.

Definition removePeerLocked (p : nat) (key : list Z) (d : Device) : Device :=
  let d := d <| allowedips := default (allowedips d) (RemoveByPeer (allowedips d) p) |> in
  let d := Stop p d in
  d <| keyMap ::= delete key |>.

Definition RemovePeer (key : list Z) (d : Device) : Device :=
  match keyMap d !! key with Some p => removePeerLocked p key d | None => d end.

Definition RemoveAllPeers (d : Device) : Device :=
  foldl (fun d kp => removePeerLocked kp.2 kp.1 d) d (peersOf d) <| keyMap := ∅ |>.

(** ** The handlers of the timers *)

Definition expiredRetransmitHandshake (p : nat) (d : Device) : Device :=
  let maxAttempts := maxHandshakeAttempts (timersOf d p) in
  if maxAttempts <? handshakeAttempts (timersOf d p) then
    let d := if timersActive p d then modTimers p (fun t => t <| sendKeepalive ::= timerDel |>) d else d in
    let d := FlushStagedPackets p d in
    if timersActive p d && negb (IsPending (zeroKeyMaterial (timersOf d p)))
    then modTimers p (fun t => t <| zeroKeyMaterial ::= timerMod (now d) (s64 (keychainExpireTime d * 3)) |>) d
    else d
  else
    let d := modTimers p (fun t => t <| handshakeAttempts ::= (fun n => u32 (n + 1)) |>) d in
    let d := markEndpointSrcForClearing p d in
    (SendHandshakeInitiation p true d).2.

Definition expiredSendKeepalive (p : nat) (d : Device) : Device :=
  let d := SendKeepalive p d in
  if needAnotherKeepalive (timersOf d p) then
    let d := modTimers p (fun t => t <| needAnotherKeepalive := false |>) d in
    if timersActive p d then
      let '(t, d) := sendKeepaliveTimeout d in
      modTimers p (fun ts => ts <| sendKeepalive ::= timerMod (now d) t |>) d
    else d
  else d.

Definition expiredNewHandshake (p : nat) (d : Device) : Device :=
  (SendHandshakeInitiation p false (markEndpointSrcForClearing p d)).2.

Definition expiredZeroKeyMaterial (p : nat) (d : Device) : Device := ZeroAndFlushAll p d.

Definition expiredPersistentKeepalive (p : nat) (d : Device) : Device :=
  if negb (rangeIsZero (persistentKeepaliveInterval (peerOf d p))) then SendKeepalive p d else d.

(** A timer whose deadline has passed fires. *)
Definition fire (get : PeerTimers -> Timer) (set : Timer -> PeerTimers -> PeerTimers) (handler : nat -> Device -> Device)
    (p : nat) (d : Device) : option Device :=
  match deadline (get (timersOf d p)) with
  | Some t =>
      if t <=? now d then
        let '(o, tm) := timerFire (get (timersOf d p)) in
        let d := modTimers p (set tm) d in
        Some (match o with Some _ => handler p d | None => d end)
      else None
  | None => None
  end.

Definition fireRetransmitHandshake := fire retransmitHandshake (fun t ts => ts <| retransmitHandshake := t |>) expiredRetransmitHandshake.
Definition fireSendKeepalive := fire sendKeepalive (fun t ts => ts <| sendKeepalive := t |>) expiredSendKeepalive.
Definition fireNewHandshake := fire newHandshake (fun t ts => ts <| newHandshake := t |>) expiredNewHandshake.
Definition fireZeroKeyMaterial := fire zeroKeyMaterial (fun t ts => ts <| zeroKeyMaterial := t |>) expiredZeroKeyMaterial.
Definition firePersistentKeepalive := fire persistentKeepalive (fun t ts => ts <| persistentKeepalive := t |>) expiredPersistentKeepalive.

(** ** The socket *)

(** Closing waits for the receiving routines. *)
Definition closeBindLocked (d : Device) : bool * Device :=
  (closeResult d, d <| net ::= (fun n => n <| bindOpen := false |>) |>).

Definition clearSources (d : Device) : Device := foldl (fun d kp => markEndpointSrcForClearing kp.2 d) d (peersOf d).

Definition BindSetMark (mark : Z) : M unit := fun d =>
  if fwmark (net d) =? mark then (Ok tt, d)
  else
    let d := d <| net ::= (fun n => n <| fwmark := mark |>) |> in
    if isUp d && negb (setMarkResult d mark) then (Err ErrBind, d)
    else (Ok tt, clearSources d).

Definition BindUpdate : M unit := fun d =>
  let '(closed, d) := closeBindLocked d in
  if negb closed then (Err ErrBind, d)
  else if negb (isUp d) then (Ok tt, d)
  else
    match openResult d (port (net d)) with
    | None => (Err ErrBind, d <| net ::= (fun n => n <| port := 0 |>) |>)
    | Some actual =>
        let d := d <| net ::= (fun n => n <| port := actual |> <| bindOpen := true |>) |> in
        if negb (fwmark (net d) =? 0) && negb (setMarkResult d (fwmark (net d))) then (Err ErrBind, d)
        else (Ok tt, clearSources d)
    end.

Definition BindClose (d : Device) : bool * Device := closeBindLocked d.

(** ** Up, down, closed *)

Definition startPeer (d : Device) (kp : list Z * nat) : Device :=
  let d := Start kp.2 d in
  if negb (rangeIsZero (persistentKeepaliveInterval (peerOf d kp.2))) then SendKeepalive kp.2 d else d.

Definition upLocked : M unit :=
  BindUpdate >>> smod (fun d => foldl startPeer d (peersOf d)).

Definition downLocked : M unit := fun d =>
  let '(ok, d) := BindClose d in
  let d := foldl (fun d kp => Stop kp.2 d) d (peersOf d) in
  (if ok then Ok tt else Err ErrBind, d).

Definition setState (s : deviceState) (d : Device) : Device := d <| state := s |>.

Definition changeState (want : deviceState) : M unit := fun d =>
  let old := state d in
  if bool_decide (old = deviceStateClosed) || bool_decide (want = old) then (Ok tt, d)
  else
    let down (err : result goErr unit) (d : Device) :=
      let '(errDown, d) := downLocked (setState deviceStateDown d) in
      (match err with Ok _ => errDown | Err e => Err e end, d) in
    match want with
    | deviceStateUp =>
        match upLocked (setState deviceStateUp d) with
        | (Ok _, d) => (Ok tt, d)
        | (Err e, d) => down (Err e) d
        end
    | deviceStateDown => down (Ok tt) d
    | deviceStateClosed => (Ok tt, d)
    end.

Definition Up : M unit := changeState deviceStateUp.
Definition Down : M unit := changeState deviceStateDown.

(** The limiter's goroutine ends. *)
Definition Close (d : Device) : Device :=
  if isClosed d then d
  else
    let d := setState deviceStateClosed d in
    let d := (downLocked d).2 in
    let d := RemoveAllPeers d in
    d <| limiter ::= (fun l => mkLimiter (table l) false) |>.

(** ** The rest of the device's methods *)

Definition SetPrivateKey (sk : list Z) (d : Device) : Device :=
  if bool_decide (sk = privateKey d) then d
  else
    let pk := publicKey sk in
    let d := foldl (fun d kp => if bool_decide (remoteStatic (hsOf d kp.2) = pk) then removePeerLocked kp.2 kp.1 d else d)
               d (peersOf d) in
    let d := d <| privateKey := sk |> <| publicKeyOf := pk |> <| cookieChecker ::= checkerInit pk |> in
    let d := foldl (fun d kp => modHandshake kp.2 (fun h => h <| precomputedStaticStatic := staticStatic sk (remoteStatic h) |>) d)
               d (peersOf d) in
    foldl (fun d kp => ExpireCurrentKeypairs kp.2 d) d (peersOf d).

Definition SendKeepalivesToPeersWithCurrentKeypair (d : Device) : Device :=
  if negb (isUp d) then d
  else
    let timeout := keychainExpireTime d in
    foldl (fun d kp =>
             match current (keypairs (peerOf d kp.2)) with
             | Some k => if now d <=? created (keypairOf d k) + timeout then SendKeepalive kp.2 d else d
             | None => d
             end) d (peersOf d).

Definition DisableSomeRoamingForBrokenMobileSemantics (d : Device) : Device :=
  let d := d <| net ::= (fun n => n <| brokenRoaming := true |>) |> in
  foldl (fun d kp => modPeer kp.2 (fun P => P <| endpoint ::= (fun e => e <| disableRoaming := bool_decide (is_Some (epVal e)) |>) |>) d)
    d (peersOf d).

(** An event of the TUN device: a new MTU ([None]: it cannot be read), up, down. *)
Inductive tunEvent := EventMTUUpdate (mtu : option Z) | EventUp | EventDown.

Definition handleTUNEvent (e : tunEvent) (d : Device) : Device :=
  match e with
  | EventMTUUpdate None => d
  | EventMTUUpdate (Some m) =>
      if m <? 0 then d else d <| mtu := if MaxContentSize <? m then MaxContentSize else m |>
  | EventUp => (Up d).2
  | EventDown => (Down d).2
  end.

End Lifecycle.
