(* ===== verification/Stable.v ===== *)
(** * What the handlers preserve

    [Stable R] is the interface between an invariant and the handlers: [R] relates
    the device before and after each of the operations that touch indices,
    keypairs, nonces and the encryption queue.  Every handler of the device is
    composed of these operations and of changes to other fields, so it preserves
    every stable relation; an invariant only has to be proved stable. *)

From stdpp Require Import base numbers list gmap.
From Stdlib Require Import ZArith Lia.
From S2P Require Import Prelude NoiseTypes Crypto Replay RateLimiter Tai64n AllowedIPs Obf DeviceTypes Messages Noise NoiseRun Timers Cookie Packet Send Receive Lifecycle.

(** Nothing an invariant about keys and nonces looks at has changed. *)
Record sameCore (d d' : Device) : Prop := {
  sc_table : indexTable d' = indexTable d;
  sc_keypairs : keypairStore d' = keypairStore d;
  sc_out : outStore d' = outStore d;
  sc_queue : encryptionQ d' = encryptionQ d;
  sc_log : sealedLog d' = sealedLog d;
  sc_spin : spinning d' = spinning d;
  sc_config : headers d' = headers d /\ paddings d' = paddings d /\ headerProtectionKey d' = headerProtectionKey d;
  sc_peer q : keypairs (peerOf d' q) = keypairs (peerOf d q) /\
              hsLocalIndex (hsOf d' q) = hsLocalIndex (hsOf d q) /\ hsState (hsOf d' q) = hsState (hsOf d q);
  sc_stamp q : lastTimestamp (hsOf d' q) = lastTimestamp (hsOf d q);
  sc_state : state d' = state d;
  sc_io : allowedips d' = allowedips d /\ tunWritten d' = tunWritten d
}.

#[global] Instance sameCore_preorder : PreOrder sameCore.
Proof.
  split; [by intros d|]. intros d1 d2 d3 [] []. split; try congruence; [naive_solver congruence| |naive_solver congruence].
  intros q. destruct (sc_peer0 q) as (? & ? & ?), (sc_peer1 q) as (? & ? & ?). repeat split; congruence.
Qed.

(** A change to one peer. *)
Lemma sameCore_modPeer p f d :
  (forall P, keypairs (f P) = keypairs P /\ hsLocalIndex (handshake (f P)) = hsLocalIndex (handshake P) /\
             hsState (handshake (f P)) = hsState (handshake P) /\
             lastTimestamp (handshake (f P)) = lastTimestamp (handshake P)) -> sameCore d (modPeer p f d).
Proof.
  intros H. split; try done; intros q; unfold hsOf; rewrite peerOf_modPeer; (destruct (decide (q = p)) as [->|]; [|done]).
  - destruct (H (peerOf d p)) as (? & ? & ? & ?). done.
  - apply H.
Qed.

Lemma sameCore_modTimers p f d : sameCore d (modTimers p f d).
Proof. by apply sameCore_modPeer. Qed.

(** A change to another field. *)
Lemma sameCore_rest d d' :
  peerStore d' = peerStore d -> indexTable d' = indexTable d -> keypairStore d' = keypairStore d ->
  outStore d' = outStore d -> encryptionQ d' = encryptionQ d -> sealedLog d' = sealedLog d ->
  spinning d' = spinning d -> headers d' = headers d -> paddings d' = paddings d ->
  headerProtectionKey d' = headerProtectionKey d -> state d' = state d ->
  allowedips d' = allowedips d -> tunWritten d' = tunWritten d -> sameCore d d'.
Proof. intros Hp. split; try done; intros q; unfold hsOf, peerOf; by rewrite Hp. Qed.

Ltac solve_core :=
  first [ reflexivity
        | apply sameCore_modTimers
        | apply sameCore_modPeer; intros ?; repeat split; destruct_ifs; reflexivity
        | apply sameCore_rest; reflexivity ].

(** Passing a random draw, or another call that returns the device. *)
Ltac through L :=
  let H := fresh in
  pose proof L as H;
  match goal with |- context [let '(_, _) := ?X in _] => destruct X as [? ?] end;
  cbn [fst snd] in H; etransitivity; [exact H|]; clear H.

Section Core.
Context `{C : Crypto} `{N : Entropy} `{B : Bind}.

Lemma readRandom_core n d : sameCore d (readRandom n d).2.
Proof. solve_core. Qed.
Lemma fastrandnD_core n d : sameCore d (fastrandnD n d).2.
Proof. solve_core. Qed.
Lemma pickOne_core r d : sameCore d (pickOne r d).2.
Proof. solve_core. Qed.
Lemma pickSecondsOr_core r x d : sameCore d (pickSecondsOr r x d).2.
Proof. unfold pickSecondsOr. destruct (rangeIsZero r); solve_core. Qed.
Lemma maxHandshakeAttemps_core d : sameCore d (maxHandshakeAttemps d).2.
Proof. unfold maxHandshakeAttemps. destruct (rangeIsZero _); solve_core. Qed.
Lemma jitter_core d : sameCore d (jitter d).2.
Proof. solve_core. Qed.
Lemma newHandshakeTimeout_core d : sameCore d (newHandshakeTimeout d).2.
Proof. unfold newHandshakeTimeout. through (pickSecondsOr_core (rekeyTimeoutSec (timings d)) RekeyTimeout d). reflexivity. Qed.
Lemma keyRefreshTimeoutReceiving_core d : sameCore d (keyRefreshTimeoutReceiving d).2.
Proof.
  unfold keyRefreshTimeoutReceiving. through (pickSecondsOr_core (rejectAfterTimeSec (timings d)) RejectAfterTime d). reflexivity.
Qed.

Lemma timersDataSent_core p d : sameCore d (timersDataSent p d).
Proof.
  unfold timersDataSent. destruct (_ && _); [|done].
  through (newHandshakeTimeout_core d). through (jitter_core d0). solve_core.
Qed.
Lemma timersDataReceived_core p d : sameCore d (timersDataReceived p d).
Proof.
  unfold timersDataReceived. destruct (timersActive p d); [|done]. destruct (negb _); [|solve_core].
  unfold sendKeepaliveTimeout. through (pickSecondsOr_core (keepaliveTimeoutSec (timings d)) KeepaliveTimeout d). solve_core.
Qed.
Lemma timersAnyAuthenticatedPacketSent_core p d : sameCore d (timersAnyAuthenticatedPacketSent p d).
Proof. unfold timersAnyAuthenticatedPacketSent. destruct (timersActive p d); solve_core. Qed.
Lemma timersAnyAuthenticatedPacketReceived_core p d : sameCore d (timersAnyAuthenticatedPacketReceived p d).
Proof. unfold timersAnyAuthenticatedPacketReceived. destruct (timersActive p d); solve_core. Qed.
Lemma timersHandshakeInitiated_core p d : sameCore d (timersHandshakeInitiated p d).
Proof.
  unfold timersHandshakeInitiated, retransmitHandshakeTimeout. destruct (timersActive p d); [|done].
  through (pickSecondsOr_core (rekeyTimeoutSec (timings d)) RekeyTimeout d). through (jitter_core d0). solve_core.
Qed.
Lemma timersHandshakeComplete_core p d : sameCore d (timersHandshakeComplete p d).
Proof.
  unfold timersHandshakeComplete. set (d1 := if timersActive p d then _ else _).
  assert (H : sameCore d d1) by (unfold d1; destruct (timersActive p d); solve_core).
  etransitivity; [exact H|]. refine (transitivity (sameCore_modTimers p (fun ts => ts <| handshakeAttempts := 0 |>) d1) _).
  through (maxHandshakeAttemps_core (modTimers p (fun ts => ts <| handshakeAttempts := 0 |>) d1)).
  refine (transitivity (sameCore_modTimers p _ _) _). apply sameCore_modPeer. by intros.
Qed.
Lemma timersSessionDerived_core p d : sameCore d (timersSessionDerived p d).
Proof. unfold timersSessionDerived. destruct (timersActive p d); solve_core. Qed.
Lemma timersAnyAuthenticatedPacketTraversal_core p d : sameCore d (timersAnyAuthenticatedPacketTraversal p d).
Proof.
  unfold timersAnyAuthenticatedPacketTraversal. destruct (_ && _); [|done].
  through (pickOne_core (persistentKeepaliveInterval (peerOf d p)) d). solve_core.
Qed.
Lemma timersStart_core p d : sameCore d (timersStart p d).
Proof.
  unfold timersStart. transitivity (modTimers p (fun ts => ts <| handshakeAttempts := 0 |>) d); [solve_core|].
  through (maxHandshakeAttemps_core (modTimers p (fun ts => ts <| handshakeAttempts := 0 |>) d)). solve_core.
Qed.
Lemma timersStop_core p d : sameCore d (timersStop p d).
Proof. solve_core. Qed.

Lemma peerRandomTrailer_core p n d : sameCore d (peerRandomTrailer p n d).2.
Proof. unfold peerRandomTrailer. destruct_ifs; solve_core. Qed.
Lemma deviceRandomTrailer_core n d : sameCore d (deviceRandomTrailer n d).2.
Proof. unfold deviceRandomTrailer. destruct_ifs; solve_core. Qed.
Lemma SendBuffers_core p bufs : keeps sameCore (SendBuffers p bufs).
Proof.
  intros d. unfold SendBuffers. destruct (isClosed d); [done|]. destruct (epVal _) as [ep|]; [|done].
  set (d1 := if clearSrcOnTx _ then _ else _).
  assert (H : sameCore d d1) by (unfold d1; destruct (clearSrcOnTx _); solve_core).
  etransitivity; [exact H|]. unfold bindSend. destruct (sendResult _ _ _); cbn [snd].
  - transitivity (d1 <| sent ::= (fun l => l ++ [(ep, bufs)]) |>); solve_core.
  - solve_core.
Qed.
Lemma peerAddMacs_core p msg d : sameCore d (peerAddMacs p msg d).2.
Proof. unfold peerAddMacs. destruct (AddMacs _ _ _) as [packet g]. solve_core. Qed.
Lemma junkLoop_core n jmin jmax d : sameCore d (junkLoop n jmin jmax d).2.
Proof.
  revert d. induction n as [|n IH]; intros d; cbn [junkLoop]; [done|].
  through (fastrandnD_core (u32 (jmax - jmin)) d). through (readRandom_core (Z.to_nat (u32 (jmin + z))) d0).
  through (IH d1). done.
Qed.
Lemma JunkPackets_core d : sameCore d (JunkPackets d).2.
Proof. unfold JunkPackets. apply junkLoop_core. Qed.
Lemma ipacketBufs_core ips : keeps sameCore (ipacketBufs ips).
Proof.
  induction ips as [|[c|] ips IH]; intros d; cbn [ipacketBufs]; [done| |apply IH].
  destruct (obfuscated _ _ _ _) as [[buf pos]|]; [|done].
  transitivity (d <| drawn := pos |>); [solve_core|].
  apply (keeps_bind sameCore (ipacketBufs ips)); [apply IH|]. by intros bufs d'.
Qed.
Lemma liftD_keeps (R : Device -> Device -> Prop) {A} (f : Device -> A * Device) :
  (forall d, R d (f d).2) -> keeps R (liftD f).
Proof. intros H d. unfold liftD. specialize (H d). by destruct (f d). Qed.
Lemma gets_keeps (R : Device -> Device -> Prop) `{!PreOrder R} {A} (f : Device -> A) : keeps R (gets f).
Proof. by intros d. Qed.
Lemma SetEndpointFromPacket_core p ep d : sameCore d (SetEndpointFromPacket p ep d).
Proof.
  unfold SetEndpointFromPacket. destruct (disableRoaming _); [done|].
  set (d1 := if bool_decide _ then _ else _).
  assert (H : sameCore d d1) by (unfold d1; destruct (bool_decide _); solve_core).
  etransitivity; [exact H|]. solve_core.
Qed.
Lemma markEndpointSrcForClearing_core p d : sameCore d (markEndpointSrcForClearing p d).
Proof. unfold markEndpointSrcForClearing. destruct (epVal _); solve_core. Qed.
Lemma noteUdpWindow_core p w d : sameCore d (noteUdpWindow p w d).
Proof. unfold noteUdpWindow. destruct (_ <? _); solve_core. Qed.
Lemma SendHandshakeCookie_core e d : sameCore d (SendHandshakeCookie e d).
Proof.
  unfold SendHandshakeCookie. destruct (disableCookies d); [done|].
  through (pickOne_core (tCookie (headers d)) d). destruct (CreateReply _ _ _ _ _ _ _) as [[reply cc] pos].
  set (d1 := d0 <| cookieChecker := cc |> <| drawn := pos |>). transitivity d1; [solve_core|].
  through (deviceRandomTrailer_core (tCookie (paddings d1) + MessageCookieReplySize) d1).
  through (readRandom_core (Z.to_nat (tCookie (paddings d1))) d2). through (readRandom_core (Z.to_nat (Z.max z0 0)) d3).
  solve_core.
Qed.
End Core.

(** ** The interface *)

Class Stable `{C : Crypto} `{N : Entropy} `{B : Bind} (R : Device -> Device -> Prop) : Prop := {
  st_preorder :: PreOrder R;
  st_core d d' : sameCore d d' -> R d d';
  st_createInitiation p : keeps R (CreateMessageInitiation p);
  st_createResponse p : keeps R (CreateMessageResponse p);
  (* for any message that was checked in any earlier state *)
  st_updateInitiation p timestamp hash chainKey sender ephemeral d : R d (updateInitiation p timestamp hash chainKey sender ephemeral d);
  st_updateResponse hp hash chainKey sender d : R d (updateResponse hp hash chainKey sender d);
  st_session p : keeps R (BeginSymmetricSession p);
  st_received p k d : R d (ReceivedWithKeypair p k d).2;
  st_clearKeypairs p d : R d (clearKeypairs p d);
  st_clearHandshake p d : R d (clearHandshake p d);
  st_expireNonce o d : R d (expireNonce o d);
  st_validate k c d : R d (validateCounter k c d).2;
  (* packets get nonces, what is left over is staged again, the rest is queued *)
  st_assign p k es d kept ooo d1 d2 : assignNonces p k es d = (kept, ooo, d1) -> sameCore d1 d2 ->
    R d d2 /\ R d (enqueueOutbound p kept d2);
  st_encrypt d d' : encryptionStep d = Some d' -> R d d';
  st_sent c d : locked (outContainer d c) = false -> R d (d <| outStore ::= delete c |>);
  st_newPeer pk : keeps R (NewPeer pk)
}.

Section Handlers.
Context `{C : Crypto} `{N : Entropy} `{B : Bind} (R : Device -> Device -> Prop) `{!Stable R}.

Lemma R_refl d : R d d.
Proof. reflexivity. Qed.
Lemma R_trans d1 d2 d3 : R d1 d2 -> R d2 d3 -> R d1 d3.
Proof. apply transitivity. Qed.
(** Before and after changes to other fields. *)
Lemma R_after d d1 d2 : R d d1 -> sameCore d1 d2 -> R d d2.
Proof. intros H1 H2. eapply R_trans; [exact H1|by apply st_core]. Qed.
Lemma R_before d d1 d2 : sameCore d d1 -> R d1 d2 -> R d d2.
Proof. intros H1 H2. eapply R_trans; [by apply st_core|exact H2]. Qed.
Lemma keeps_core {A} (m : M A) : keeps sameCore m -> keeps R m.
Proof. intros H d. apply st_core, H. Qed.

Lemma SendHandshakeInitiation_stable p retry : keeps R (SendHandshakeInitiation p retry).
Proof.
  unfold SendHandshakeInitiation. apply keeps_bind; [apply _| |intros _].
  { destruct retry; [by intros d|]. intros d. apply st_core.
    refine (transitivity (sameCore_modTimers p _ d) _). through (maxHandshakeAttemps_core (modTimers p (fun t => t <| handshakeAttempts := 0 |>) d)).
    solve_core. }
  apply keeps_bind; [apply _|apply (gets_keeps R)|intros timeout].
  apply keeps_bind; [apply _|apply (gets_keeps R)|intros elapsed].
  destruct (elapsed <? timeout); [by intros d|].
  apply keeps_bind; [apply _|apply keeps_mod; intros d; apply st_core; solve_core|intros _].
  apply keeps_bind; [apply _|apply st_createInitiation|intros msg].
  apply keeps_bind; [apply _|apply (gets_keeps R)|intros ips].
  apply keeps_bind; [apply _|apply keeps_core, ipacketBufs_core|intros ibufs].
  apply keeps_bind; [apply _|apply liftD_keeps; intros d; apply st_core, JunkPackets_core|intros jbufs].
  apply keeps_bind; [apply _|apply (gets_keeps R)|intros padding].
  apply keeps_bind; [apply _|apply liftD_keeps; intros d; apply st_core, peerRandomTrailer_core|intros t].
  apply keeps_bind; [apply _|apply liftD_keeps; intros d; apply st_core, readRandom_core|intros crypt].
  apply keeps_bind; [apply _|apply liftD_keeps; intros d; apply st_core, peerAddMacs_core|intros packet].
  apply keeps_bind; [apply _|apply keeps_mod; intros d; apply st_core, timersAnyAuthenticatedPacketTraversal_core|intros _].
  apply keeps_bind; [apply _|apply keeps_mod; intros d; apply st_core, timersAnyAuthenticatedPacketSent_core|intros _].
  apply keeps_bind; [apply _|apply liftD_keeps; intros d; apply st_core, readRandom_core|intros trailer].
  apply keeps_bind; [apply _|apply (gets_keeps R)|intros buf].
  intros d. pose proof (SendBuffers_core p (ibufs ++ jbufs ++ [buf]) d) as H. destruct (SendBuffers _ _ d) as [r d1].
  apply st_core. etransitivity; [exact H|]. apply timersHandshakeInitiated_core.
Qed.

Lemma SendHandshakeResponse_stable p : keeps R (SendHandshakeResponse p).
Proof.
  unfold SendHandshakeResponse.
  apply keeps_bind; [apply _|apply keeps_mod; intros d; apply st_core; solve_core|intros _].
  apply keeps_bind; [apply _|apply st_createResponse|intros msg].
  apply keeps_bind; [apply _|apply (gets_keeps R)|intros padding].
  apply keeps_bind; [apply _|apply liftD_keeps; intros d; apply st_core, peerRandomTrailer_core|intros t].
  apply keeps_bind; [apply _|apply liftD_keeps; intros d; apply st_core, readRandom_core|intros crypt].
  apply keeps_bind; [apply _|apply liftD_keeps; intros d; apply st_core, peerAddMacs_core|intros packet].
  apply keeps_bind; [apply _|apply st_session|intros _].
  apply keeps_bind; [apply _|apply keeps_mod; intros d; apply st_core, timersSessionDerived_core|intros _].
  apply keeps_bind; [apply _|apply keeps_mod; intros d; apply st_core, timersAnyAuthenticatedPacketTraversal_core|intros _].
  apply keeps_bind; [apply _|apply keeps_mod; intros d; apply st_core, timersAnyAuthenticatedPacketSent_core|intros _].
  apply keeps_bind; [apply _|apply liftD_keeps; intros d; apply st_core, readRandom_core|intros trailer].
  apply keeps_bind; [apply _|apply (gets_keeps R)|intros buf]. apply keeps_core, SendBuffers_core.
Qed.

Lemma keepKeyFreshSending_stable p d : R d (keepKeyFreshSending p d).
Proof.
  unfold keepKeyFreshSending. destruct (current _) as [k|]; [|apply R_refl].
  destruct (_ <? _); [apply SendHandshakeInitiation_stable|]. destruct (isInitiator _); [|apply R_refl].
  unfold keyRefreshTimeoutSending. pose proof (pickSecondsOr_core (rekeyAfterTimeSec (timings d)) RekeyAfterTime d) as H.
  destruct (pickSecondsOr _ _ _) as [limit d1]. apply (R_before _ d1); [exact H|].
  destruct (_ <? _); [apply SendHandshakeInitiation_stable|apply R_refl].
Qed.

Lemma keepKeyFreshReceiving_stable p d : R d (keepKeyFreshReceiving p d).
Proof.
  unfold keepKeyFreshReceiving. destruct (sentLastMinuteHandshake _); [apply R_refl|].
  destruct (current _) as [k|]; [|apply R_refl]. destruct (isInitiator _); [|apply R_refl].
  pose proof (keyRefreshTimeoutReceiving_core d) as H. destruct (keyRefreshTimeoutReceiving d) as [limit d1].
  apply (R_before _ d1); [exact H|]. destruct (_ <? _); [|apply R_refl].
  eapply R_before; [apply sameCore_modTimers|apply SendHandshakeInitiation_stable].
Qed.

Lemma StagePackets_core p c d : sameCore d (StagePackets p c d).
Proof. solve_core. Qed.

Lemma sendLoop_stable fuel p k d : R d (sendLoop fuel p k d).2.
Proof.
  revert d. induction fuel as [|fuel IH]; intros d; cbn [sendLoop]; [apply R_refl|].
  destruct (staged (peerOf d p)) as [|c q]; [apply R_refl|].
  set (d1 := modPeer p (fun P => P <| staged := q |>) d). apply (R_before _ d1); [solve_core|].
  destruct (assignNonces p k c d1) as [[kept ooo] d2] eqn:E.
  set (d3 := if (length ooo =? 0)%nat then d2 else StagePackets p ooo d2).
  assert (H : sameCore d2 d3) by (unfold d3; destruct (_ =? _)%nat; solve_core).
  destruct (st_assign _ _ _ _ _ _ _ _ E H) as [H1 H2].
  destruct (length kept =? 0)%nat; [exact H1|]. destruct (length ooo =? 0)%nat; [|exact H2].
  eapply R_trans; [exact H2|apply IH].
Qed.

Lemma sendStagedTop_stable fuel p d d' : sendStagedTop fuel p d = Some d' -> R d d'.
Proof.
  revert d. induction fuel as [|fuel IH]; intros d; cbn [sendStagedTop]; [done|].
  destruct (_ || _); [intros [= <-]; apply R_refl|].
  destruct (usableKeypair p d) as [k|]; [|intros [= <-]; apply SendHandshakeInitiation_stable].
  pose proof (sendLoop_stable (length (staged (peerOf d p))) p k d) as H.
  destruct (sendLoop _ p k d) as [again d1]. destruct again.
  - intros Hd. eapply R_trans; [exact H|by apply IH].
  - by intros [= <-].
Qed.

Lemma SendStagedPackets_stable p d : R d (SendStagedPackets p d).
Proof.
  unfold SendStagedPackets. destruct (sendStagedTop _ p d) as [d'|] eqn:E; [|apply R_refl]. by eapply sendStagedTop_stable.
Qed.

Lemma SendKeepalive_stable p d : R d (SendKeepalive p d).
Proof.
  unfold SendKeepalive. eapply R_before; [|apply SendStagedPackets_stable]. destruct (_ && _); solve_core.
Qed.

Lemma sendGroup_stable d g : R d (sendGroup d g).
Proof.
  unfold sendGroup. destruct (isRunning _); [|apply R_refl]. eapply R_before; [apply StagePackets_core|apply SendStagedPackets_stable].
Qed.

Lemma readFromTUN_stable d packets d' : readFromTUN d packets d' -> R d d'.
Proof. intros (groups & _ & ->). apply (foldl_keeps R). intros g d1. apply sendGroup_stable. Qed.

Lemma RoutineSequentialSender_stable p d :
  match RoutineSequentialSender p d with Blocked => True | Stopped d' | Stepped d' => R d d' end.
Proof.
  unfold RoutineSequentialSender. destruct (outbound (peerOf d p)) as [|[c|] q]; [done| |].
  2: { apply st_core. solve_core. }
  destruct (locked (outContainer d c)) eqn:Hl; [done|].
  set (d1 := modPeer p (fun P => P <| outbound := q |>) d). set (d2 := d1 <| outStore ::= delete c |>).
  assert (H2 : R d d2).
  { apply (R_before _ d1); [solve_core|]. by apply st_sent. }
  destruct (negb _); [exact H2|].
  set (d3 := timersAnyAuthenticatedPacketTraversal p d2). set (d4 := timersAnyAuthenticatedPacketSent p d3).
  assert (H4 : R d d4).
  { eapply R_after; [exact H2|]. etransitivity; [apply timersAnyAuthenticatedPacketTraversal_core|apply timersAnyAuthenticatedPacketSent_core]. }
  pose proof (SendBuffers_core p (map (fun e => default [] (oePacket e)) (elems (outContainer d c))) d4) as H.
  destruct (SendBuffers p _ d4) as [r d5]. cbn [snd] in H.
  set (d6 := if existsb _ _ then _ else _).
  assert (H6 : R d d6).
  { eapply R_after; [exact H4|]. etransitivity; [exact H|]. unfold d6. destruct (existsb _ _); [apply timersDataSent_core|done]. }
  destruct (is_ok r); [|exact H6]. eapply R_trans; [exact H6|apply keepKeyFreshSending_stable].
Qed.

(** ** Receiving *)

Lemma receiveBatch_stable d batch d' : receiveBatch d batch d' -> R d d'.
Proof.
  unfold receiveBatch. destruct (foldl receiveOne ([], d) batch) as [groups d1] eqn:E. intros (groups' & _ & ->).
  assert (H : sameCore d d1).
  { change d1 with (snd (groups, d1)). rewrite <- E. clear. generalize (@nil (nat * list InElem)).
    revert d. induction batch as [|[x ep] batch IH]; intros d gs; cbn [foldl]; [done|].
    assert (H1 : forall gs', receiveOne (gs, d) (x, ep) = gs' -> sameCore d gs'.2).
    { intros gs' <-. unfold receiveOne. destruct (receiveDatagram _ _ _) as [|[q|] e|e]; [done..|].
      cbn [snd]. unfold enqueueHandshake. destruct (_ <? _)%nat; solve_core. }
    destruct (receiveOne (gs, d) (x, ep)) as [gs1 d1] eqn:E. specialize (H1 _ eq_refl). cbn [snd] in H1.
    etransitivity; [exact H1|apply IH]. }
  apply (R_before _ d1); [exact H|]. apply (foldl_keeps R). intros g d2. apply st_core. unfold deliverGroup.
  destruct (isRunning _); [|done]. refine (transitivity (y := d2 <| inStore ::= _ |> <| decryptionQ ::= _ |>) _ _); solve_core.
Qed.

Lemma decryptContainer_core c d : sameCore d (decryptContainer c d).
Proof. solve_core. Qed.

Lemma admitHandshake_stable e d : R d (admitHandshake e d).2.
Proof.
  apply st_core. unfold admitHandshake. destruct (negb _); [done|].
  assert (H : sameCore d (IsUnderLoad d).2) by (unfold IsUnderLoad; destruct (_ <=? _)%nat; solve_core).
  destruct (IsUnderLoad d) as [load d1]. cbn [snd] in H. etransitivity; [exact H|].
  destruct load; [|done]. destruct (negb _); [apply SendHandshakeCookie_core|].
  destruct (Allow _ _ _) as [ok l]. solve_core.
Qed.

Lemma setWork_core w d : sameCore d (setWork w d).
Proof. unfold setWork. solve_core. Qed.

Lemma handleInitiation_core e d : sameCore d (handleInitiation e d).
Proof.
  unfold handleInitiation. destruct (unmarshalInitiation _) as [msg|]; [|done].
  destruct (checkInitiation _ d) as [[[[p ts] hash] ck]|]; [apply setWork_core|done].
Qed.

Lemma handleResponse_core e d : sameCore d (handleResponse e d).
Proof.
  unfold handleResponse. destruct (unmarshalResponse _) as [msg|]; [|done].
  destruct (checkResponse _ d) as [[[[hp peer] hash] ck]|]; [apply setWork_core|done].
Qed.

Lemma handleHandshake_stable e d : R d (handleHandshake e d).
Proof.
  unfold handleHandshake. destruct (_ =? _).
  { apply st_core. unfold handleCookieReply. destruct (unmarshalCookieReply _) as [reply|]; [|done].
    destruct (iePeer _) as [p|]; [|done]. destruct (isRunning _); solve_core. }
  destruct (_ || _); [|apply R_refl]. pose proof (admitHandshake_stable e d) as H.
  destruct (admitHandshake e d) as [ok d1]. cbn [snd] in H. destruct (negb ok); [exact H|].
  eapply R_after; [exact H|]. destruct (_ =? _); [apply handleInitiation_core|apply handleResponse_core].
Qed.

Lemma RoutineHandshake_stable d d' : RoutineHandshake d = Some d' -> R d d'.
Proof.
  unfold RoutineHandshake. destruct (handshakeQ d) as [|e q]; [done|]. intros [= <-].
  eapply R_before; [|apply handleHandshake_stable]. solve_core.
Qed.

Lemma continueWork_stable w d : R d (continueWork w d).
Proof.
  destruct w as [p ts hash ck sender eph ep size|p ep size|hp peer hash ck sender ep size|p ep size]; cbn [continueWork].
  - eapply R_after; [apply st_updateInitiation|apply setWork_core].
  - eapply R_before; [|apply SendHandshakeResponse_stable].
    etransitivity; [apply timersAnyAuthenticatedPacketTraversal_core|].
    etransitivity; [apply timersAnyAuthenticatedPacketReceived_core|].
    etransitivity; [apply SetEndpointFromPacket_core|]. unfold addRxBytes. solve_core.
  - eapply R_after; [apply st_updateResponse|]. destruct peer as [p|]; [apply setWork_core|done].
  - set (d2 := timersAnyAuthenticatedPacketReceived p _).
    assert (H2 : sameCore d d2).
    { etransitivity; [apply SetEndpointFromPacket_core|].
      refine (transitivity (y := addRxBytes p size _) _ _); [unfold addRxBytes; solve_core|].
      etransitivity; [apply timersAnyAuthenticatedPacketTraversal_core|]. apply timersAnyAuthenticatedPacketReceived_core. }
    pose proof (st_session p d2) as H3. destruct (BeginSymmetricSession p d2) as [[[]|err] d3]; cbn [snd] in H3;
      (eapply R_before; [exact H2|]); [|exact H3].
    eapply R_trans; [|apply SendKeepalive_stable]. eapply R_after; [exact H3|].
    etransitivity; [apply timersSessionDerived_core|apply timersHandshakeComplete_core].
Qed.

Lemma continueHandshake_stable i d d' : continueHandshake i d = Some d' -> R d d'.
Proof.
  unfold continueHandshake. destruct (consuming d !! i) as [w|]; cbn; [|done]. intros [= <-].
  eapply R_before; [|apply continueWork_stable]. solve_core.
Qed.

Lemma receiveElem_stable p rx d e : R d (receiveElem p (rx, d) e).2.
Proof.
  unfold receiveElem. destruct (ielPacket e) as [packet|]; [|apply R_refl].
  pose proof (st_validate (ielKeypair e) (ielCounter e) d) as H1.
  destruct (validateCounter _ _ d) as [ok d1]. cbn [snd] in H1. destruct (negb ok); [exact H1|].
  pose proof (st_received p (ielKeypair e) d1) as H2. destruct (ReceivedWithKeypair p _ d1) as [confirmed d2]. cbn [snd] in H2.
  set (d3 := if confirmed : bool then _ else _).
  assert (H3 : R d d3).
  { eapply R_trans; [exact H1|]. eapply R_trans; [exact H2|]. unfold d3. destruct confirmed; [|apply R_refl].
    eapply R_before; [|apply SendStagedPackets_stable].
    etransitivity; [apply SetEndpointFromPacket_core|apply timersHandshakeComplete_core]. }
  assert (H4 : R d (noteUdpWindow p (u32 (ielPadding e + MessageTransportHeaderSize + Z.of_nat (length packet))) d3)).
  { eapply R_after; [exact H3|apply noteUdpWindow_core]. }
  destruct packet as [|b packet]; [exact H4|]. destruct (b =? 0); exact H4.
Qed.

(** All of [receiveElems] but the packets written at its end. *)
Lemma receiveElems_written p es d :
  exists d3, receiveElems p es d = d3 <| tunWritten ::= (fun l => l ++ bufs (foldl (receiveElem p) (mkRx None false 0 [], d) es).1) |> /\ R d d3.
Proof.
  unfold receiveElems. assert (H : R d (foldl (receiveElem p) (mkRx None false 0 [], d) es).2).
  { generalize (mkRx None false 0 []). revert d. induction es as [|e es IH]; intros d rx; cbn [foldl]; [apply R_refl|].
    pose proof (receiveElem_stable p rx d e) as H. destruct (receiveElem p (rx, d) e) as [rx1 d1]. cbn [snd] in H.
    eapply R_trans; [exact H|apply IH]. }
  destruct (foldl _ _ _) as [rx d1]. cbn [snd] in H.
  set (d2 := match validTail rx with None => _ | Some ep => _ end).
  assert (H2 : R d d2).
  { assert (H1 : R d (addRxBytes p (rxLen rx) d1)) by (eapply R_after; [exact H|unfold addRxBytes; solve_core]).
    unfold d2. destruct (validTail rx) as [ep|]; [|exact H1].
    eapply R_after; [|etransitivity; [apply timersAnyAuthenticatedPacketTraversal_core|apply timersAnyAuthenticatedPacketReceived_core]].
    eapply R_trans; [|apply keepKeyFreshReceiving_stable]. eapply R_after; [exact H1|apply SetEndpointFromPacket_core]. }
  set (d3 := if dataReceived rx then _ else _).
  assert (H3 : R d d3).
  { unfold d3. destruct (dataReceived rx); [|exact H2]. eapply R_after; [exact H2|apply timersDataReceived_core]. }
  exists d3. by split.
Qed.
End Handlers.

(** ** The handlers that write routes, packets and the state

    [StableIO R]: [R] also relates a device to itself with other routes and after
    packets were written to the TUN device. *)

Class StableIO `{C : Crypto} `{N : Entropy} `{B : Bind} (R : Device -> Device -> Prop) : Prop := {
  si_stable :: Stable R;
  si_routes f d : R d (d <| allowedips ::= f |>);
  si_tun l d : R d (d <| tunWritten ::= l |>)
}.

Section HandlersIO.
Context `{C : Crypto} `{N : Entropy} `{B : Bind} (R : Device -> Device -> Prop) `{!StableIO R}.

Lemma receiveElems_stable p es d : R d (receiveElems p es d).
Proof.
  destruct (receiveElems_written R p es d) as (d3 & -> & H). eapply (R_trans R); [exact H|apply si_tun].
Qed.

Lemma RoutineSequentialReceiver_stable p d :
  match RoutineSequentialReceiver p d with Blocked => True | Stopped d' | Stepped d' => R d d' end.
Proof.
  unfold RoutineSequentialReceiver. destruct (inbound (peerOf d p)) as [|[c|] q]; [done| |].
  2: { apply st_core. solve_core. }
  destruct (locked _); [done|]. eapply (R_before R); [|apply receiveElems_stable].
  refine (transitivity (y := modPeer p (fun P => P <| inbound := q |>) d) _ _); solve_core.
Qed.

(** ** Lifecycle *)

Lemma ZeroAndFlushAll_stable p d : R d (ZeroAndFlushAll p d).
Proof.
  unfold ZeroAndFlushAll. apply (R_after R _ (clearHandshake p (clearKeypairs p d))); [|unfold FlushStagedPackets; solve_core].
  eapply (R_trans R); [apply st_clearKeypairs|apply st_clearHandshake].
Qed.

Lemma ExpireCurrentKeypairs_stable p d : R d (ExpireCurrentKeypairs p d).
Proof.
  unfold ExpireCurrentKeypairs. eapply (R_trans R); [|apply st_expireNonce]. eapply (R_trans R); [|apply st_expireNonce].
  eapply (R_after R); [apply st_clearHandshake|]. unfold resetLastSent. solve_core.
Qed.

Lemma drainInbound_stable fuel p d : R d (drainInbound fuel p d).
Proof.
  revert d. induction fuel as [|fuel IH]; intros d; cbn [drainInbound]; [apply (R_refl R)|].
  set (d1 := match inbound _ with [] => _ | _ => _ end).
  assert (H : sameCore d d1).
  { unfold d1. destruct (inbound _) as [|[c|] q]; [done| |done]. destruct (locked _); [apply decryptContainer_core|done]. }
  apply (R_before R _ d1); [exact H|]. pose proof (RoutineSequentialReceiver_stable p d1) as H1.
  destruct (RoutineSequentialReceiver p d1) as [|d2|d2]; [apply (R_refl R)|exact H1|]. eapply (R_trans R); [exact H1|apply IH].
Qed.

Lemma Stop_stable p d : R d (Stop p d).
Proof.
  unfold Stop. destruct (negb _); [apply (R_refl R)|].
  set (d1 := modPeer p (fun P => P <| isRunning := false |>) d).
  set (d2 := modPeer p _ (timersStop p d1)).
  assert (H : sameCore d d2).
  { transitivity d1; [solve_core|]. transitivity (timersStop p d1); [apply timersStop_core|]. solve_core. }
  apply (R_before R _ d2); [exact H|]. eapply (R_trans R); [apply drainInbound_stable|].
  match goal with |- R ?x (ZeroAndFlushAll p ?y) => apply (R_before R _ y); [solve_core|apply ZeroAndFlushAll_stable] end.
Qed.

Lemma Start_stable p d : R d (Start p d).
Proof.
  apply st_core. unfold Start. destruct (isClosed d); [done|]. destruct (isRunning _); [done|].
  transitivity (resetLastSent p d); [unfold resetLastSent; solve_core|].
  etransitivity; [apply timersStart_core|]. solve_core.
Qed.

Lemma removePeerLocked_stable p key d : R d (removePeerLocked p key d).
Proof.
  unfold removePeerLocked. set (d1 := d <| allowedips := _ |>). apply (R_after R _ (Stop p d1)); [|solve_core].
  eapply (R_trans R); [apply (si_routes (fun _ => default (allowedips d) (RemoveByPeer (allowedips d) p)))|apply Stop_stable].
Qed.

Lemma RemoveAllPeers_stable d : R d (RemoveAllPeers d).
Proof.
  unfold RemoveAllPeers. set (d1 := foldl _ d _). apply (R_after R _ d1); [|solve_core]. apply (foldl_keeps R). intros kp d2. apply removePeerLocked_stable.
Qed.

Lemma SetPrivateKey_stable sk d : R d (SetPrivateKey sk d).
Proof.
  unfold SetPrivateKey. destruct (bool_decide _); [apply (R_refl R)|].
  set (d1 := foldl _ d (peersOf d)).
  assert (H1 : R d d1).
  { apply (foldl_keeps R). intros kp d2. destruct (bool_decide _); [apply removePeerLocked_stable|apply (R_refl R)]. }
  set (d2 := d1 <| privateKey := sk |> <| publicKeyOf := _ |> <| cookieChecker ::= _ |>).
  set (d3 := foldl _ d2 (peersOf d2)).
  assert (H3 : R d d3).
  { eapply (R_trans R); [exact H1|]. apply (R_before R _ d2); [solve_core|].
    apply (foldl_keeps R). intros kp d4. apply st_core. solve_core. }
  eapply (R_trans R); [exact H3|]. apply (foldl_keeps R). intros kp d4. apply ExpireCurrentKeypairs_stable.
Qed.

Lemma foldl_core {A} (f : Device -> A -> Device) l d : (forall a d, sameCore d (f d a)) -> sameCore d (foldl f d l).
Proof. apply (foldl_keeps sameCore). Qed.

Lemma clearSources_core d : sameCore d (clearSources d).
Proof. apply foldl_core. intros kp d1. apply markEndpointSrcForClearing_core. Qed.

Lemma BindUpdate_core : keeps sameCore BindUpdate.
Proof.
  intros d. unfold BindUpdate, closeBindLocked. set (d1 := d <| net ::= _ |>).
  destruct (negb _); [solve_core|]. destruct (negb _); [solve_core|].
  destruct (openResult _ _) as [actual|]; [|solve_core]. set (d2 := d1 <| net ::= _ |>).
  destruct (_ && _); [solve_core|]. transitivity d2; [solve_core|apply clearSources_core].
Qed.

Lemma BindSetMark_core m : keeps sameCore (BindSetMark m).
Proof.
  intros d. unfold BindSetMark. destruct (_ =? _); [done|]. set (d1 := d <| net ::= _ |>).
  destruct (_ && _); [solve_core|]. transitivity d1; [solve_core|apply clearSources_core].
Qed.

Lemma upLocked_stable : keeps R upLocked.
Proof.
  unfold upLocked. apply keeps_bind; [apply _|apply (keeps_core R), BindUpdate_core|intros _].
  apply keeps_mod. intros d. apply (foldl_keeps R). intros kp d1. unfold startPeer.
  destruct (negb _); [eapply (R_trans R); [apply Start_stable|apply (SendKeepalive_stable R)]|apply Start_stable].
Qed.

Lemma downLocked_stable : keeps R downLocked.
Proof.
  intros d. unfold downLocked, BindClose, closeBindLocked. cbn [snd].
  eapply (R_before R _ (d <| net ::= _ |>)); [solve_core|]. apply (foldl_keeps R). intros kp d1. apply Stop_stable.
Qed.

Lemma expiredRetransmitHandshake_stable p d : R d (expiredRetransmitHandshake p d).
Proof.
  unfold expiredRetransmitHandshake. destruct (_ <? _).
  - apply st_core. set (d1 := if timersActive p d then _ else _).
    assert (H1 : sameCore d d1) by (unfold d1; destruct (timersActive p d); solve_core).
    transitivity (FlushStagedPackets p d1); [etransitivity; [exact H1|unfold FlushStagedPackets; solve_core]|].
    destruct (_ && _); solve_core.
  - set (d1 := modTimers p _ d). eapply (R_before R); [|apply (SendHandshakeInitiation_stable R)].
    transitivity d1; [solve_core|apply markEndpointSrcForClearing_core].
Qed.

Lemma expiredSendKeepalive_stable p d : R d (expiredSendKeepalive p d).
Proof.
  unfold expiredSendKeepalive. set (d1 := SendKeepalive p d). assert (H : R d d1) by apply (SendKeepalive_stable R).
  destruct (needAnotherKeepalive _); [|exact H]. eapply (R_after R); [exact H|].
  set (d2 := modTimers p (fun t => t <| needAnotherKeepalive := false |>) d1). transitivity d2; [solve_core|].
  destruct (timersActive p d2); [|done]. unfold sendKeepaliveTimeout.
  through (pickSecondsOr_core (keepaliveTimeoutSec (timings d2)) KeepaliveTimeout d2). solve_core.
Qed.

Lemma expiredNewHandshake_stable p d : R d (expiredNewHandshake p d).
Proof.
  unfold expiredNewHandshake. eapply (R_before R); [apply markEndpointSrcForClearing_core|apply (SendHandshakeInitiation_stable R)].
Qed.

Lemma expiredPersistentKeepalive_stable p d : R d (expiredPersistentKeepalive p d).
Proof. unfold expiredPersistentKeepalive. destruct (negb _); [apply (SendKeepalive_stable R)|apply (R_refl R)]. Qed.

Lemma fire_stable get set handler p d d' :
  (forall p d, R d (handler p d)) -> fire get set handler p d = Some d' -> R d d'.
Proof.
  intros H. unfold fire. destruct (deadline _); [|done]. destruct (_ <=? _); [|done].
  destruct (timerFire _) as [o tm]. intros [= <-]. eapply (R_before R); [apply (sameCore_modTimers p (set tm))|].
  destruct o; [apply H|apply (R_refl R)].
Qed.

Lemma SendKeepalivesToPeers_stable d : R d (SendKeepalivesToPeersWithCurrentKeypair d).
Proof.
  unfold SendKeepalivesToPeersWithCurrentKeypair. destruct (negb _); [apply (R_refl R)|]. apply (foldl_keeps R). intros kp d1.
  destruct (current _); [|apply (R_refl R)]. destruct (_ <=? _); [apply (SendKeepalive_stable R)|apply (R_refl R)].
Qed.

Lemma DisableSomeRoaming_core d : sameCore d (DisableSomeRoamingForBrokenMobileSemantics d).
Proof.
  unfold DisableSomeRoamingForBrokenMobileSemantics. set (d1 := d <| net ::= _ |>). transitivity d1; [solve_core|].
  apply foldl_core. intros kp d2. solve_core.
Qed.

End HandlersIO.

(** ** The handlers that change the state of the device *)

Class StableState `{C : Crypto} `{N : Entropy} `{B : Bind} (R : Device -> Device -> Prop) : Prop := {
  ss_io :: StableIO R;
  ss_change s : keeps R (changeState s);
  ss_close d : R d (Close d)
}.

Section State.
Context `{C : Crypto} `{N : Entropy} `{B : Bind} (R : Device -> Device -> Prop).

(** A stable relation that does not look at the state. *)
Section SetState.
Context `{!StableIO R} (Hset : forall s d, R d (setState s d)).

Lemma changeState_set s : keeps R (changeState s).
Proof.
  intros d. unfold changeState. destruct (_ || _); [reflexivity|].
  assert (Hd : forall d1, R d1 (downLocked (setState deviceStateDown d1)).2).
  { intros d1. eapply (R_trans R); [apply Hset|by apply downLocked_stable]. }
  destruct s; cbv zeta.
  - specialize (Hd d). by destruct (downLocked _) as [? ?].
  - assert (Hu : R d (upLocked (setState deviceStateUp d)).2).
    { eapply (R_trans R); [apply Hset|by apply upLocked_stable]. }
    destruct (upLocked _) as [[[]|e] d1]; [exact Hu|]. cbn [snd] in Hu. specialize (Hd d1).
    destruct (downLocked _) as [r d2]. cbn [snd] in *. eapply (R_trans R); [exact Hu|exact Hd].
  - reflexivity.
Qed.

Lemma Close_set d : R d (Close d).
Proof.
  unfold Close. destruct (isClosed d); [reflexivity|]. set (d0 := (downLocked (setState deviceStateClosed d)).2).
  apply (R_after R _ (RemoveAllPeers d0)); [|solve_core]. apply (R_trans R _ d0); [|by apply RemoveAllPeers_stable].
  apply (R_trans R _ (setState deviceStateClosed d)); [apply Hset|by apply downLocked_stable].
Qed.

Lemma StableState_set : StableState R.
Proof. split; [done|apply changeState_set|apply Close_set]. Qed.
End SetState.

Lemma handleTUNEvent_stable `{!StableState R} e d : R d (handleTUNEvent e d).
Proof.
  destruct e as [[m|]| |]; cbn [handleTUNEvent]; [|reflexivity|apply ss_change..].
  destruct (m <? 0); [reflexivity|]. apply st_core. solve_core.
Qed.

(** A stable relation stays stable when it is made coarser. *)
Lemma Stable_weaken (R' : Device -> Device -> Prop) `{!Stable R'} `{!PreOrder R} :
  (forall d d', R' d d' -> R d d') -> Stable R.
Proof.
  intros H. split; try done.
  - intros d d' Hc. by apply H, st_core.
  - intros p d. apply H, st_createInitiation.
  - intros p d. apply H, st_createResponse.
  - intros p ts hash ck sender eph d. apply H, st_updateInitiation.
  - intros hp hash ck sender d. apply H, st_updateResponse.
  - intros p d. apply H, st_session.
  - intros p k d. apply H, st_received.
  - intros p d. apply H, st_clearKeypairs.
  - intros p d. apply H, st_clearHandshake.
  - intros o d. apply H, st_expireNonce.
  - intros k c d. apply H, st_validate.
  - intros p k es d kept ooo d1 d2 E Hc. destruct (st_assign p k es d kept ooo d1 d2 E Hc). split; by apply H.
  - intros d d' E. by apply H, st_encrypt.
  - intros c d E. by apply H, st_sent.
  - intros pk d. apply H, st_newPeer.
Qed.
End State.
