(* ===== verification/TimersThm.v ===== *)
(** * Retransmission of the handshake ends

    The retransmit timer tries the handshake again until the attempts are used
    up, and then gives up: it drops the staged packets and stays disarmed. *)

From stdpp Require Import base numbers list gmap.
From Stdlib Require Import ZArith Lia.
From S2P Require Import Prelude NoiseTypes Crypto Replay RateLimiter Tai64n AllowedIPs Obf DeviceTypes Messages Noise NoiseRun Timers Cookie Packet Send Receive Lifecycle Stable.

(** The counters of the attempts of [p] are the same. *)
Definition sameTries (p : nat) (d d' : Device) : Prop :=
  handshakeAttempts (timersOf d' p) = handshakeAttempts (timersOf d p) /\
  maxHandshakeAttempts (timersOf d' p) = maxHandshakeAttempts (timersOf d p).

#[global] Instance sameTries_preorder p : PreOrder (sameTries p).
Proof. unfold sameTries. split; [by intros d|]. intros d1 d2 d3 [] []. split; congruence. Qed.

Lemma tries_peers p d d' : peerStore d' = peerStore d -> sameTries p d d'.
Proof. intros H. unfold sameTries, timersOf, peerOf. by rewrite H. Qed.

Lemma tries_modPeer p q f d :
  (forall P, handshakeAttempts (timers (f P)) = handshakeAttempts (timers P) /\
             maxHandshakeAttempts (timers (f P)) = maxHandshakeAttempts (timers P)) -> sameTries p d (modPeer q f d).
Proof.
  intros H. unfold sameTries, timersOf. rewrite peerOf_modPeer. destruct (decide (p = q)) as [->|]; [|done]. apply H.
Qed.

Ltac solve_tries := first [ by apply tries_peers | apply tries_modPeer; by intros ? ].

Section Tries.
Context `{C : Crypto} `{N : Entropy} `{B : Bind}.

Lemma pickSecondsOr_tries p r x d : sameTries p d (pickSecondsOr r x d).2.
Proof. unfold pickSecondsOr. destruct (rangeIsZero r); solve_tries. Qed.

Lemma junkLoop_tries p n jmin jmax d : sameTries p d (junkLoop n jmin jmax d).2.
Proof.
  revert d. induction n as [|n IH]; intros d; cbn [junkLoop]; [done|].
  assert (H1 : sameTries p d (fastrandnD (u32 (jmax - jmin)) d).2) by solve_tries. destruct (fastrandnD _ d) as [z d1].
  assert (H2 : sameTries p d1 (readRandom (Z.to_nat (u32 (jmin + z))) d1).2) by solve_tries. destruct (readRandom _ d1) as [bs d2].
  specialize (IH d2). destruct (junkLoop n jmin jmax d2). cbn [snd] in *.
  etransitivity; [exact H1|]. etransitivity; [exact H2|exact IH].
Qed.

Lemma ipacketBufs_tries p ips : keeps (sameTries p) (ipacketBufs ips).
Proof.
  induction ips as [|[c|] ips IH]; intros d; cbn [ipacketBufs]; [done| |apply IH].
  destruct (obfuscated _ _ _ _) as [[buf pos]|]; [|done].
  transitivity (d <| drawn := pos |>); [solve_tries|].
  apply (keeps_bind (sameTries p) (ipacketBufs ips)); [apply IH|]. by intros bufs d'.
Qed.

Lemma newIndexLoop_tries p fuel q : keeps (sameTries p) (newIndexLoop fuel q).
Proof.
  induction fuel as [|fuel IH]; intros d; cbn [newIndexLoop]; [done|].
  assert (H : sameTries p d (randWord d).2) by solve_tries. destruct (randWord d) as [x d1]. cbn [snd] in H.
  destruct (indexTable d1 !! x); etransitivity; [exact H|apply IH|exact H|solve_tries].
Qed.

Lemma traversal_tries p q d : sameTries p d (timersAnyAuthenticatedPacketTraversal q d).
Proof.
  unfold timersAnyAuthenticatedPacketTraversal. destruct (_ && _); [|done].
  assert (H : sameTries p d (pickOne (persistentKeepaliveInterval (peerOf d q)) d).2) by solve_tries.
  destruct (pickOne _ d) as [v d1]. etransitivity; [exact H|]. solve_tries.
Qed.

Lemma initiated_tries p q d : sameTries p d (timersHandshakeInitiated q d).
Proof.
  unfold timersHandshakeInitiated, retransmitHandshakeTimeout. destruct (timersActive q d); [|done].
  pose proof (pickSecondsOr_tries p (rekeyTimeoutSec (timings d)) RekeyTimeout d) as H1. destruct (pickSecondsOr _ _ d) as [t d1].
  assert (H2 : sameTries p d1 (jitter d1).2) by solve_tries. destruct (jitter d1) as [j d2].
  etransitivity; [exact H1|]. etransitivity; [exact H2|]. solve_tries.
Qed.

Lemma SendBuffers_tries p q bufs d : sameTries p d (SendBuffers q bufs d).2.
Proof.
  unfold SendBuffers. destruct (isClosed d); [done|]. destruct (epVal _) as [ep|]; [|done].
  set (d1 := if clearSrcOnTx _ then _ else _).
  assert (H : sameTries p d d1) by (unfold d1; destruct (clearSrcOnTx _); solve_tries).
  etransitivity; [exact H|]. unfold bindSend. destruct (sendResult _ _ _); cbn [snd].
  - transitivity (d1 <| sent ::= (fun l => l ++ [(ep, bufs)]) |>); solve_tries.
  - solve_tries.
Qed.

Lemma peerRandomTrailer_tries p q n d : sameTries p d (peerRandomTrailer q n d).2.
Proof. unfold peerRandomTrailer. destruct_ifs; solve_tries. Qed.

Lemma peerAddMacs_tries p q msg d : sameTries p d (peerAddMacs q msg d).2.
Proof. unfold peerAddMacs. destruct (AddMacs _ _ _) as [packet g]. solve_tries. Qed.

Ltac kb := apply keeps_bind; [apply _| |intros ?].
Ltac ksimple := first [ apply keeps_mod; intros ?; solve_tries
                      | apply (gets_keeps (sameTries _))
                      | apply liftD_keeps; intros ?; solve_tries
                      | match goal with |- context [orErr ?o _] => destruct o; intros ?; reflexivity end
                      | intros ?; reflexivity ].

Lemma CreateMessageInitiation_tries p q : keeps (sameTries p) (CreateMessageInitiation q).
Proof.
  unfold CreateMessageInitiation. do 7 (kb; [ksimple|]). cbv zeta. do 4 (kb; [ksimple|]). destruct (KDF2 _ _) as [ck key].
  do 4 (kb; [ksimple|]). destruct (isZero _); [ksimple|]. destruct (KDF2 _ _) as [ck' key'].
  do 4 (kb; [ksimple|]). kb; [apply newIndexLoop_tries|]. do 3 (kb; [ksimple|]). ksimple.
Qed.

Lemma SendHandshakeInitiation_tries p q : keeps (sameTries p) (SendHandshakeInitiation q true).
Proof.
  unfold SendHandshakeInitiation. kb; [ksimple|]. do 2 (kb; [ksimple|]).
  match goal with |- keeps _ (if ?b then _ else _) => destruct b end; [ksimple|].
  kb; [ksimple|]. kb; [apply CreateMessageInitiation_tries|]. kb; [ksimple|]. kb; [apply ipacketBufs_tries|].
  kb; [apply liftD_keeps; intros d; apply junkLoop_tries|]. kb; [ksimple|].
  kb; [apply liftD_keeps; intros d; apply peerRandomTrailer_tries|]. kb; [ksimple|].
  kb; [apply liftD_keeps; intros d; apply peerAddMacs_tries|].
  kb; [apply keeps_mod; intros d; apply traversal_tries|].
  kb; [apply keeps_mod; intros d; unfold timersAnyAuthenticatedPacketSent; destruct (timersActive _ _); solve_tries|].
  do 2 (kb; [ksimple|]). intros d. match goal with |- context [SendBuffers q ?bufs d] => pose proof (SendBuffers_tries p q bufs d) as H;
    destruct (SendBuffers q bufs d) as [r d1] end. etransitivity; [exact H|apply initiated_tries].
Qed.

(** ** Firings of the retransmit timer *)

(** [firings p n d d']: from [d] to [d'] the retransmit timer of [p] fired [n]
    times.  In between anything may happen that does not reset the attempts: packets
    come and go, timers are armed again. *)
Inductive firings (p : nat) : nat -> Device -> Device -> Prop :=
  | noFiring d d' : sameTries p d d' -> firings p 0 d d'
  | nextFiring n d d1 d2 d' :
      firings p n d d1 -> fireRetransmitHandshake p d1 = Some d2 -> duration (retransmitHandshake (timersOf d1 p)) <> 0 ->
      sameTries p d2 d' -> firings p (S n) d d'.

Definition attempts (p : nat) (d : Device) : Z := handshakeAttempts (timersOf d p).
Definition maxAttempts (p : nat) (d : Device) : Z := maxHandshakeAttempts (timersOf d p).

(** The packets are dropped, nothing is sent and the timer is disarmed. *)
Definition gaveUp (p : nat) (d d' : Device) : Prop :=
  staged (peerOf d' p) = [] /\ sent d' = sent d /\ deadline (retransmitHandshake (timersOf d' p)) = None.

Lemma timersOf_modTimers p f d : timersOf (modTimers p f d) p = f (timersOf d p).
Proof. unfold timersOf, modTimers. by rewrite peerOf_modPeer_eq. Qed.

Lemma modTimers_tries p f d :
  (forall t, handshakeAttempts (f t) = handshakeAttempts t /\ maxHandshakeAttempts (f t) = maxHandshakeAttempts t) ->
  sameTries p d (modTimers p f d).
Proof. intros H. unfold sameTries. rewrite timersOf_modTimers. apply H. Qed.

Lemma expired_retry p d :
  attempts p d <= maxAttempts p d ->
  attempts p (expiredRetransmitHandshake p d) = u32 (attempts p d + 1) /\
  maxAttempts p (expiredRetransmitHandshake p d) = maxAttempts p d.
Proof.
  intros H. unfold expiredRetransmitHandshake. fold (attempts p d) (maxAttempts p d).
  replace (maxAttempts p d <? attempts p d) with false by (symmetry; apply Z.ltb_ge; lia).
  set (d1 := modTimers p _ d).
  assert (H1 : sameTries p d1 (markEndpointSrcForClearing p d1)).
  { unfold markEndpointSrcForClearing. destruct (epVal _); solve_tries. }
  assert (H2 : sameTries p d1 (SendHandshakeInitiation p true (markEndpointSrcForClearing p d1)).2).
  { etransitivity; [exact H1|apply SendHandshakeInitiation_tries]. }
  destruct H2 as [Ha Hm]. unfold attempts, maxAttempts. rewrite Ha, Hm. unfold d1. by rewrite timersOf_modTimers.
Qed.

Lemma expired_giveup p d :
  maxAttempts p d < attempts p d -> deadline (retransmitHandshake (timersOf d p)) = None ->
  gaveUp p d (expiredRetransmitHandshake p d) /\ sameTries p d (expiredRetransmitHandshake p d).
Proof.
  intros H Hd. unfold expiredRetransmitHandshake. fold (attempts p d) (maxAttempts p d).
  replace (maxAttempts p d <? attempts p d) with true by (symmetry; apply Z.ltb_lt; lia).
  set (d1 := if timersActive p d then _ else d).
  assert (H1 : sent d1 = sent d /\ deadline (retransmitHandshake (timersOf d1 p)) = None /\ sameTries p d d1).
  { unfold d1. destruct (timersActive p d); [|done]. rewrite timersOf_modTimers. split; [done|]. split; [done|by apply modTimers_tries]. }
  destruct H1 as (Hs & Hd1 & Ht). set (d2 := FlushStagedPackets p d1).
  assert (H2 : staged (peerOf d2 p) = [] /\ timersOf d2 p = timersOf d1 p).
  { unfold d2, FlushStagedPackets, timersOf. by rewrite peerOf_modPeer_eq. }
  destruct H2 as [Hf Ht2].
  assert (Hg : gaveUp p d d2) by (repeat split; [done|exact Hs|by rewrite Ht2]).
  assert (Ht' : sameTries p d d2) by (unfold sameTries in *; by rewrite Ht2).
  destruct (_ && _); [|by split]. destruct Hg as (G1 & G2 & G3). split.
  - unfold gaveUp. rewrite timersOf_modTimers. repeat split; [|exact G2|exact G3]. unfold modTimers. by rewrite peerOf_modPeer_eq.
  - etransitivity; [exact Ht'|by apply modTimers_tries].
Qed.

(** One firing: a retry, giving up, or nothing when the armed duration was zero. *)
Lemma fire_cases p d d' :
  fireRetransmitHandshake p d = Some d' ->
  (duration (retransmitHandshake (timersOf d p)) = 0 /\ sameTries p d d' /\ deadline (retransmitHandshake (timersOf d' p)) = None) \/
  (duration (retransmitHandshake (timersOf d p)) <> 0 /\
   if maxAttempts p d <? attempts p d then gaveUp p d d' /\ sameTries p d d'
   else attempts p d' = u32 (attempts p d + 1) /\ maxAttempts p d' = maxAttempts p d).
Proof.
  unfold fireRetransmitHandshake, fire. destruct (deadline _); [|done]. destruct (_ <=? _); [|done].
  unfold timerFire. destruct (Z.eqb_spec (duration (retransmitHandshake (timersOf d p))) 0) as [E|E].
  - intros [= <-]. left. rewrite timersOf_modTimers. split; [done|]. split; [by apply modTimers_tries|done].
  - set (d1 := modTimers p _ d). intros [= <-]. right. split; [done|].
    assert (Ht : timersOf d1 p = timersOf d p <| retransmitHandshake := mkTimer 0 None |>) by apply timersOf_modTimers.
    assert (Ha : attempts p d1 = attempts p d /\ maxAttempts p d1 = maxAttempts p d) by (unfold attempts, maxAttempts; by rewrite Ht).
    destruct Ha as [Ha Hm]. destruct (Z.ltb_spec (maxAttempts p d) (attempts p d)).
    + destruct (expired_giveup p d1) as [[G1 [G2 G3]] G4]; [lia|by rewrite Ht|].
      split; [by split|]. transitivity d1; [by apply modTimers_tries|done].
    + destruct (expired_retry p d1) as [R1 R2]; [lia|]. by rewrite R1, R2, Ha, Hm.
Qed.

Lemma fire_armed p d d' :
  fireRetransmitHandshake p d = Some d' -> duration (retransmitHandshake (timersOf d p)) <> 0 ->
  if maxAttempts p d <? attempts p d then gaveUp p d d' /\ sameTries p d d'
  else attempts p d' = u32 (attempts p d + 1) /\ maxAttempts p d' = maxAttempts p d.
Proof. intros [[Hz _]|[_ Hc]]%fire_cases Hd; [by destruct Hd|exact Hc]. Qed.

Lemma firings_inv p n d d' :
  attempts p d = 0 -> 0 <= maxAttempts p d < 2 ^ 32 - 1 -> firings p n d d' ->
  maxAttempts p d' = maxAttempts p d /\ attempts p d' = Z.min (Z.of_nat n) (maxAttempts p d + 1).
Proof.
  intros H0 Hm. induction 1 as [d d' [Ha Hx]|n d d1 d2 d' _ IH Hf Hd [Ha Hx]]; unfold attempts, maxAttempts in *; rewrite Ha, Hx.
  - split; [done|lia].
  - destruct (IH H0 Hm) as [IM IC]. pose proof (fire_armed p d1 d2 Hf Hd) as Hc. unfold attempts, maxAttempts in Hc. rewrite IM, IC in Hc.
    destruct (Z.ltb_spec (maxHandshakeAttempts (timersOf d p)) (Z.min (Z.of_nat n) (maxHandshakeAttempts (timersOf d p) + 1))).
    + destruct Hc as [_ [-> ->]]. split; [done|lia].
    + destruct Hc as [-> ->]. split; [done|]. unfold u32. rewrite Z.mod_small; lia.
Qed.

(** C32: retransmission of the handshake ends.  From a reset of the attempts on and
    until the next, whatever else happens meanwhile and however the initiations
    fare, the first [max + 1] firings of the peer's retransmit timer count up the
    attempts, and every further one gives up: the staged packets are dropped,
    nothing is sent, and the timer is disarmed. *)
Theorem retransmission_ends p n d d1 d2 :
  attempts p d = 0 -> 0 <= maxAttempts p d < 2 ^ 32 - 1 ->
  firings p n d d1 -> fireRetransmitHandshake p d1 = Some d2 -> duration (retransmitHandshake (timersOf d1 p)) <> 0 ->
  (Z.of_nat n <= maxAttempts p d -> attempts p d2 = Z.of_nat n + 1) /\
  (maxAttempts p d < Z.of_nat n -> gaveUp p d1 d2).
Proof.
  intros H0 Hm Hn Hf Hd. destruct (firings_inv p n d d1 H0 Hm Hn) as [IM IC]. pose proof (fire_armed p d1 d2 Hf Hd) as Hc.
  rewrite IM, IC in Hc. split; intros Hx.
  - rewrite (proj2 (Z.ltb_ge _ _)) in Hc by lia. destruct Hc as [-> _]. unfold u32. rewrite Z.mod_small; lia.
  - rewrite (proj2 (Z.ltb_lt _ _)) in Hc by lia. apply Hc.
Qed.

End Tries.
