(* ===== verification/KeysInv.v ===== *)
(** * The index table and the keypairs, in every state the device reaches

    The invariant of [NoiseInv] is stable: every handler preserves it. *)

From stdpp Require Import base numbers list gmap.
From Stdlib Require Import ZArith Lia.
From S2P Require Import Prelude NoiseTypes Crypto Replay RateLimiter Tai64n AllowedIPs Obf DeviceTypes Messages Noise NoiseRun NoiseInv NoiseKeys Timers Cookie Packet Send Receive Lifecycle Stable.

(** The table, the keypairs' indices and the handshakes are the same. *)
Record keysFrame (d d' : Device) : Prop := {
  kf_table : indexTable d' = indexTable d;
  kf_spin : spinning d' = spinning d;
  kf_pairs k kp : keypairStore d !! k = Some kp ->
    exists kp', keypairStore d' !! k = Some kp' /\ kpLocalIndex kp' = kpLocalIndex kp;
  kf_peer q : keypairs (peerOf d' q) = keypairs (peerOf d q) /\
              hsLocalIndex (hsOf d' q) = hsLocalIndex (hsOf d q)
}.

#[global] Instance keysFrame_preorder : PreOrder keysFrame.
Proof.
  split; [intros d; split; try done; intros k kp Hk; by exists kp|].
  intros d1 d2 d3 [] []. split; try congruence.
  - intros k kp Hk. destruct (kf_pairs0 k kp Hk) as (kp' & Hk' & E). destruct (kf_pairs1 k kp' Hk') as (kp2 & Hk2 & E2).
    exists kp2. split; [done|congruence].
  - intros q. destruct (kf_peer0 q) as (? & ?), (kf_peer1 q) as (? & ?). split; congruence.
Qed.

Lemma sameCore_frame d d' : sameCore d d' -> keysFrame d d'.
Proof.
  intros [Ht Hk _ _ _ Hs _ Hp _ _ _]. split; try done; [intros k kp E; exists kp; by rewrite Hk|].
  intros q. by destruct (Hp q) as (? & ? & _).
Qed.

(** Changing a keypair but not its index. *)
Lemma modKeypair_frame k f d : (forall kp, kpLocalIndex (f kp) = kpLocalIndex kp) -> keysFrame d (modKeypair k f d).
Proof.
  intros Hf. split; try done. intros j kp Hj. unfold modKeypair. cbn.
  destruct (decide (j = k)) as [->|Hne].
  - exists (f kp). rewrite lookup_insert_eq. unfold keypairOf. rewrite Hj. by rewrite Hf.
  - exists kp. by rewrite lookup_insert_ne.
Qed.

Lemma rest_frame d d' :
  peerStore d' = peerStore d -> indexTable d' = indexTable d -> keypairStore d' = keypairStore d ->
  spinning d' = spinning d -> keysFrame d d'.
Proof.
  intros Hp Hi Hk Hs. split; try done; [intros k kp H; exists kp; by rewrite Hk|].
  intros q. unfold hsOf, peerOf. by rewrite Hp.
Qed.

Section KeysInv.
Context `{C : Crypto} `{N : Entropy} `{B : Bind}.

Lemma keys_ok_frame d d' : keysFrame d d' -> keys_ok d -> keys_ok d'.
Proof.
  intros [Ht _ Hk Hp] [HR Hd]. apply (keys_ok_intro _ (slotsOf d)).
  - revert HR. apply keys_rel_frame; [done|done|]. intros q. by destruct (Hp q) as (_ & ->).
  - intros q k. unfold slotsOf. by rewrite (proj1 (Hp q)).
  - intros q. rewrite (proj1 (Hp q)). apply Hd.
Qed.

Lemma assignNonces_frame p k es d : keysFrame d (assignNonces p k es d).2.
Proof.
  revert d. induction es as [|e es IH]; intros d; cbn [assignNonces]; [reflexivity|].
  set (n := u64 _). set (d1 := modKeypair k _ d). assert (H1 : keysFrame d d1) by by apply modKeypair_frame.
  destruct (_ <=? _).
  - set (d2 := modKeypair k (fun kp => kp <| sendNonce := RejectAfterMessages |>) d1).
    assert (H2 : keysFrame d d2) by (etransitivity; [exact H1|by apply modKeypair_frame]).
    specialize (IH d2). destruct (assignNonces p k es d2) as [[kept ooo] d3]. etransitivity; [exact H2|exact IH].
  - specialize (IH d1). destruct (assignNonces p k es d1) as [[kept ooo] d3]. etransitivity; [exact H1|exact IH].
Qed.

Lemma enqueueOutbound_frame p es d : keysFrame d (enqueueOutbound p es d).
Proof.
  unfold enqueueOutbound. destruct (isRunning _); [|reflexivity]. set (c := base.fresh _).
  transitivity (d <| outStore ::= <[c := mkContainer true es]> |> <| encryptionQ ::= (fun q => q ++ [c]) |>);
    [by apply rest_frame|]. apply sameCore_frame. solve_core.
Qed.

Lemma contentPadding_core p size padding d : sameCore d (contentPadding p size padding d).2.
Proof.
  unfold contentPadding. assert (H : sameCore d (randomPaddingAddition size (mtu d) d).2).
  { unfold randomPaddingAddition. destruct (rangeIsZero _); [done|]. through (pickOne_core (contentPaddingAddition d) d).
    destruct_ifs; reflexivity. }
  destruct (randomPaddingAddition _ _ d) as [n d1]. cbn [snd] in H. etransitivity; [exact H|].
  destruct (n <? 0); [|done]. pose proof (peerRandomTrailer_core p (size + MinMessageSize + padding) d1) as H2.
  by destruct (peerRandomTrailer _ _ d1) as [m d2].
Qed.

Lemma encryptElem_core e d : sameCore d (encryptElem e d).2.
Proof.
  unfold encryptElem. set (d1 := noteUdpWindow _ _ d). transitivity d1; [apply noteUdpWindow_core|].
  through (readRandom_core (Z.to_nat (oePadding e)) d1). through (pickOne_core (tTransport (headers d0)) d0).
  through (contentPadding_core (default O (oePeer e)) (Z.of_nat (length (default [] (oePacket e)))) (oePadding e) d2). done.
Qed.

Lemma encryptAll_core es d : sameCore d (encryptAll es d).2.
Proof.
  revert d. induction es as [|e es IH]; intros d; cbn [encryptAll]; [done|].
  through (encryptElem_core e d). through (IH d0). done.
Qed.

Lemma keys_rel_clearKeypairs p d : keys_ok d -> keys_ok (clearKeypairs p d).
Proof.
  intros [HR Hd]. unfold clearKeypairs. set (s := keypairs (peerOf d p)).
  assert (Ho : forall j, slot s j -> slotsOf d p j) by done. pose proof (Hd p) as Hds. fold s in Hds.
  pose proof (keys_rel_delete_opt d (slotsOf d) p (previous s) HR ltac:(intros; apply Ho; by right; left)) as H1.
  pose proof (keys_rel_delete_opt _ _ p (current s) H1) as H2.
  assert (H2' : forall k, current s = Some k -> slotsOf d p k /\ previous s <> Some k).
  { intros k Hk. split; [apply Ho; by left|]. destruct (Hds k). naive_solver. }
  specialize (H2 H2'). pose proof (keys_rel_delete_opt _ _ p (next s) H2) as H3.
  assert (H3' : forall k, next s = Some k -> (slotsOf d p k /\ previous s <> Some k) /\ current s <> Some k).
  { intros k Hk. destruct (Hds k). split; [split; [apply Ho; by right; right|]|]; naive_solver. }
  specialize (H3 H3'). apply (keys_rel_setKeypairs _ _ p (fun _ => mkKeypairs None None None)) in H3.
  apply (keys_ok_intro _ _ H3).
  - intros q j. unfold slotsOf at 2. rewrite keypairs_setKeypairs, !keypairs_Delete. destruct (decide (q = p)) as [->|Hq].
    + unfold slotsOf, slot. fold s. cbn. naive_solver.
    + fold (slotsOf d q j). split; [naive_solver|]. intros Hqj.
      assert (Hn : ~ slot s j) by (intros Hs; by apply Hq, (keys_rel_inj d (slotsOf d) q p j)).
      unfold slot in Hn. naive_solver.
  - intros q. rewrite keypairs_setKeypairs, !keypairs_Delete. destruct (decide (q = p)); [|apply Hd]. by intros j.
Qed.

Lemma keys_ok_clearHandshake p d : keys_ok d -> keys_ok (clearHandshake p d).
Proof.
  intros [HR Hd]. apply (keys_ok_intro _ (slotsOf d)).
  - by apply keys_rel_clear.
  - intros q k. unfold clearHandshake. by rewrite slotsOf_modHandshake.
  - intros q. unfold clearHandshake. rewrite keypairs_modHandshake. apply Hd.
Qed.

(** ** The relation *)

(** The invariant holds as long as no worker is stuck looking for an index. *)
Definition keysStep (d d' : Device) : Prop := spinning d' = false -> spinning d = false /\ (keys_ok d -> keys_ok d').

#[global] Instance keysStep_preorder : PreOrder keysStep.
Proof. split; [by intros d|]. intros d1 d2 d3 H1 H2 Hs. destruct (H2 Hs) as [Hs2 H2']. destruct (H1 Hs2) as [Hs1 H1']. auto. Qed.

Lemma keysStep_frame d d' : keysFrame d d' -> keysStep d d'.
Proof. intros H Hs. split; [by rewrite <- (kf_spin _ _ H)|by apply keys_ok_frame]. Qed.

Lemma keysStep_ok d d' : spinning d' = spinning d -> (keys_ok d -> keys_ok d') -> keysStep d d'.
Proof. intros Hs H Hs'. split; [congruence|done]. Qed.

Lemma DeleteKeypair_spin o d : spinning (DeleteKeypair o d) = spinning d.
Proof. by destruct o. Qed.

Lemma rotateKeypairs_spin p k init d : spinning (rotateKeypairs p k init d) = spinning d.
Proof.
  unfold rotateKeypairs. destruct init; [destruct (next _)|].
  - change (spinning (setKeypairs ?q ?f ?x)) with (spinning x). by rewrite !DeleteKeypair_spin.
  - change (spinning (setKeypairs ?q ?f ?x)) with (spinning x). by rewrite DeleteKeypair_spin.
  - rewrite DeleteKeypair_spin. change (spinning (setKeypairs ?q ?f ?x)) with (spinning x). by rewrite DeleteKeypair_spin.
Qed.

Lemma NewPeer_frame pk d : keysFrame d (NewPeer pk d).2.
Proof.
  unfold NewPeer. destruct (isClosed d); [reflexivity|]. destruct (_ <=? _)%nat; [reflexivity|].
  destruct (bool_decide _); [reflexivity|]. cbn [snd]. set (p := base.fresh _). set (P := _ <| handshake ::= _ |>).
  transitivity (setPeer p P d).
  - split; try done; [intros k kp H; by exists kp|]. intros q. unfold hsOf. rewrite peerOf_setPeer.
    destruct (decide (q = p)) as [->|]; [|done].
    assert (E : peerOf d p = zeroPeer).
    { unfold peerOf. replace (peerStore d !! p) with (@None Peer); [done|]. symmetry. apply not_elem_of_dom, is_fresh. }
    by rewrite E.
  - transitivity (timersInit p (setPeer p P d)); [apply sameCore_frame; solve_core|by apply rest_frame].
Qed.

#[export] Instance keys_stable : Stable keysStep.
Proof.
  split.
  - apply _.
  - intros d d' H. by apply keysStep_frame, sameCore_frame.
  - intros p d Hs. destruct (CreateMessageInitiation p d) as [r d'] eqn:E. cbn [snd] in *.
    pose proof (CreateMessageInitiation_reindexed p d r d' E Hs) as Hr.
    split; [|by apply (keys_ok_reindexed p)]. destruct Hr as (h' & i' & dr' & -> & _). exact Hs.
  - intros p d Hs. destruct (CreateMessageResponse p d) as [r d'] eqn:E. cbn [snd] in *.
    destruct (CreateMessageResponse_reindexed p d r d' E Hs) as [->|Hr]; [done|].
    split; [|by apply (keys_ok_reindexed p)]. destruct Hr as (h' & i' & dr' & -> & _). exact Hs.
  - intros p ts hash ck sender eph d. apply keysStep_ok; [done|apply updateInitiation_keys].
  - intros hp hash ck sender d. apply keysStep_ok; [done|apply updateResponse_keys].
  - intros p d. apply keysStep_ok; [|apply BeginSymmetricSession_keys].
    unfold BeginSymmetricSession. destruct (sessionKeys _) as [[[? ?] ?]|]; [|done]. cbn [snd].
    rewrite rotateKeypairs_spin. unfold SwapIndexForKeypair. by destruct (indexTable _ !! _).
  - intros p k d. apply keysStep_ok; [|apply ReceivedWithKeypair_keys].
    unfold ReceivedWithKeypair. destruct (negb _); [done|]. cbn [snd].
    change (spinning (setKeypairs ?q ?f ?x)) with (spinning x). by rewrite DeleteKeypair_spin.
  - intros p d. apply keysStep_ok; [|apply keys_rel_clearKeypairs]. unfold clearKeypairs.
    change (spinning (setKeypairs ?q ?f ?x)) with (spinning x). by rewrite !DeleteKeypair_spin.
  - intros p d. apply keysStep_ok; [done|apply keys_ok_clearHandshake].
  - intros o d. apply keysStep_frame. destruct o as [k|]; [|reflexivity]. by apply modKeypair_frame.
  - intros k c d. apply keysStep_frame. unfold validateCounter. destruct (ValidateCounter _ _ _) as [ok f].
    by apply modKeypair_frame.
  - intros p k es d kept ooo d1 d2 E H. pose proof (assignNonces_frame p k es d) as H1. rewrite E in H1.
    assert (H2 : keysFrame d d2) by (etransitivity; [exact H1|by apply sameCore_frame]).
    split; apply keysStep_frame; [exact H2|]. etransitivity; [exact H2|apply enqueueOutbound_frame].
  - intros d d'. unfold encryptionStep. destruct (encryptionQ d) as [|c q]; [done|].
    set (d0 := d <| encryptionQ := q |>).
    pose proof (encryptAll_core (elems (outContainer d c)) d0) as H. destruct (encryptAll _ d0) as [es' d1]. cbn [snd] in H.
    intros [= <-]. apply keysStep_frame. transitivity d0; [by apply rest_frame|].
    transitivity d1; [by apply sameCore_frame|by apply rest_frame].
  - intros c d _. apply keysStep_frame. by apply rest_frame.
  - intros pk d. apply keysStep_frame, NewPeer_frame.
Qed.

#[export] Instance keys_stable_io : StableIO keysStep.
Proof. split; [apply _|..]; intros f d; apply keysStep_frame; by apply rest_frame. Qed.

#[export] Instance keys_stable_state : StableState keysStep.
Proof. apply StableState_set; [apply _|]. intros s d. apply keysStep_frame. by apply rest_frame. Qed.
End KeysInv.
