(* ===== verification/NonceInv.v ===== *)
(** * Nonces are used once

    [sealedLog] holds the keypair and the nonce of every packet that was sealed.
    The invariant: the logged pairs and those of the packets waiting for a worker
    are all different, below [RejectAfterMessages], and below the counter of their
    keypair.  It is stable, like the configuration of the obfuscation, which only
    the configuration protocol changes. *)

From stdpp Require Import base numbers list gmap.
From Stdlib Require Import ZArith Lia.
From S2P Require Import Prelude NoiseTypes Crypto Replay RateLimiter Tai64n AllowedIPs Obf DeviceTypes Messages Noise NoiseRun NoiseInv NoiseKeys Timers Cookie Packet Send Receive Lifecycle Stable KeysInv.

(** The keypairs, the outbound containers and the configuration are the same. *)
Record sameRest (d d' : Device) : Prop := {
  sr_keypairs : keypairStore d' = keypairStore d;
  sr_out : outStore d' = outStore d;
  sr_queue : encryptionQ d' = encryptionQ d;
  sr_log : sealedLog d' = sealedLog d;
  sr_config : headers d' = headers d /\ paddings d' = paddings d /\ headerProtectionKey d' = headerProtectionKey d
}.

#[global] Instance sameRest_preorder : PreOrder sameRest.
Proof. split; [by intros d|]. intros d1 d2 d3 [] []. split; try congruence. naive_solver congruence. Qed.

Lemma sameCore_rest_same d d' : sameCore d d' -> sameRest d d'.
Proof. by intros []. Qed.

Section Frames.
Context `{C : Crypto} `{N : Entropy} `{B : Bind}.

Lemma newIndexLoop_rest fuel p d : sameRest d (newIndexLoop fuel p d).2.
Proof.
  revert d. induction fuel as [|fuel IH]; intros d; cbn [newIndexLoop]; [by split|].
  assert (H : sameRest d (randWord d).2) by by split. destruct (randWord d) as [x d1]. cbn [snd] in H.
  destruct (indexTable d1 !! x); [|etransitivity; [exact H|by split]]. etransitivity; [exact H|apply IH].
Qed.

Ltac kb := apply keeps_bind; [apply _| |intros ?].
Ltac ksimple := first [ apply keeps_mod; intros ?; by split
                      | by apply (gets_keeps sameRest)
                      | apply liftD_keeps; intros ?; by split
                      | by intros ?; split ].

Lemma orErr_rest {A} (o : option A) e : keeps sameRest (orErr o e).
Proof. by destruct o; intros d; split. Qed.

Lemma CreateMessageInitiation_rest p : keeps sameRest (CreateMessageInitiation p).
Proof.
  unfold CreateMessageInitiation. do 6 (kb; [ksimple|]). kb; [apply liftD_keeps; intros d; apply sameCore_rest_same, pickOne_core|].
  cbv zeta. do 2 (kb; [ksimple|]). kb; [apply orErr_rest|]. kb; [ksimple|]. destruct (KDF2 _ _) as [ck key].
  do 4 (kb; [ksimple|]). destruct (isZero _); [by intros d|]. destruct (KDF2 _ _) as [ck' key'].
  do 3 (kb; [ksimple|]). kb; [ksimple|]. kb; [intros d; apply newIndexLoop_rest|]. do 3 (kb; [ksimple|]). by intros d.
Qed.

Lemma CreateMessageResponse_rest p : keeps sameRest (CreateMessageResponse p).
Proof.
  unfold CreateMessageResponse. kb; [ksimple|]. destruct (negb _); [by intros d|]. kb; [ksimple|].
  kb; [intros d; apply newIndexLoop_rest|]. do 2 (kb; [ksimple|]).
  kb; [apply liftD_keeps; intros d; apply sameCore_rest_same, pickOne_core|]. do 3 (kb; [ksimple|]). cbv zeta.
  do 2 (kb; [ksimple|]). kb; [apply orErr_rest|]. kb; [ksimple|]. kb; [apply orErr_rest|]. do 2 (kb; [ksimple|]).
  destruct (KDF3 _ _) as [[ck tau] key]. do 5 (kb; [ksimple|]). by intros d.
Qed.

Lemma DeleteKeypair_rest o d : sameRest d (DeleteKeypair o d).
Proof. by destruct o; split. Qed.

Lemma setKeypairs_rest p f d : sameRest d (setKeypairs p f d).
Proof. by split. Qed.

Lemma rotateKeypairs_rest p k init d : sameRest d (rotateKeypairs p k init d).
Proof.
  unfold rotateKeypairs. destruct init; [destruct (next _)|].
  - repeat (etransitivity; [|apply setKeypairs_rest] || (etransitivity; [|apply DeleteKeypair_rest])). done.
  - repeat (etransitivity; [|apply setKeypairs_rest] || (etransitivity; [|apply DeleteKeypair_rest])). done.
  - repeat (etransitivity; [|apply setKeypairs_rest] || (etransitivity; [|apply DeleteKeypair_rest])). done.
Qed.
End Frames.

(** ** The invariant *)

Definition queuedNonces (d : Device) : list (nat * Z) :=
  concat (map (fun c => noncesOf (elems (outContainer d c))) (encryptionQ d)).
Definition allNonces (d : Device) : list (nat * Z) := sealedLog d ++ queuedNonces d.

Record nonce_inv (d : Device) : Prop := {
  ni_bound k kp : keypairStore d !! k = Some kp -> 0 <= sendNonce kp <= RejectAfterMessages;
  ni_queue : NoDup (encryptionQ d) /\ forall c, c ∈ encryptionQ d -> exists es, outStore d !! c = Some (mkContainer true es);
  ni_nodup : NoDup (allNonces d);
  ni_used k n : (k, n) ∈ allNonces d ->
    exists kp, keypairStore d !! k = Some kp /\ 0 <= n < sendNonce kp
}.

(** Counters go up, new keypairs may appear. *)
Lemma nonce_frame d d' :
  outStore d' = outStore d -> encryptionQ d' = encryptionQ d -> sealedLog d' = sealedLog d ->
  (forall k kp, keypairStore d !! k = Some kp -> exists kp', keypairStore d' !! k = Some kp' /\ sendNonce kp <= sendNonce kp') ->
  (nonce_inv d -> forall k kp, keypairStore d' !! k = Some kp -> 0 <= sendNonce kp <= RejectAfterMessages) ->
  nonce_inv d -> nonce_inv d'.
Proof.
  intros Ho Hq Hl Hk Hb HI. specialize (Hb HI). destruct HI as [_ H2 H3 H4].
  assert (E : allNonces d' = allNonces d).
  { unfold allNonces, queuedNonces, outContainer. by rewrite Hq, Hl, Ho. }
  split; [done|by rewrite Hq, Ho|by rewrite E|]. rewrite E. intros k n Hin.
  destruct (H4 k n Hin) as (kp & Hkp & Hn). destruct (Hk k kp Hkp) as (kp' & Hkp' & Hle). exists kp'. split; [done|lia].
Qed.

Lemma nonce_rest d d' : sameRest d d' -> nonce_inv d -> nonce_inv d'.
Proof.
  intros [Hk Ho Hq Hl _] HI. apply (nonce_frame d); try done.
  - intros k kp H. exists kp. rewrite Hk. split; [done|lia].
  - intros _ k kp. rewrite Hk. apply HI.
Qed.

Lemma nonce_modKeypair k f d :
  (forall kp, 0 <= sendNonce kp <= RejectAfterMessages -> sendNonce kp <= sendNonce (f kp) <= RejectAfterMessages) ->
  nonce_inv d -> nonce_inv (modKeypair k f d).
Proof.
  intros Hf HI. assert (Hz : 0 <= sendNonce zeroKeypair <= RejectAfterMessages) by (by vm_compute).
  assert (Hk : 0 <= sendNonce (keypairOf d k) <= RejectAfterMessages).
  { unfold keypairOf. destruct (keypairStore d !! k) as [kp|] eqn:E; [by apply (ni_bound _ HI k)|done]. }
  pose proof (Hf _ Hk). apply (nonce_frame d); try done; unfold modKeypair; cbn.
  - intros j kp Hj. destruct (decide (j = k)) as [->|].
    + exists (f (keypairOf d k)). rewrite lookup_insert_eq. split; [done|].
      assert (E : keypairOf d k = kp) by (unfold keypairOf; by rewrite Hj). rewrite E in *. lia.
    + exists kp. rewrite lookup_insert_ne by done. split; [done|lia].
  - intros _ j kp. rewrite lookup_insert_Some. intros [[<- <-]|[_ Hj]]; [lia|by apply (ni_bound _ HI j)].
Qed.

(** ** Assigning nonces *)

Lemma assignNonces_spec p k es d kept ooo d1 :
  assignNonces p k es d = (kept, ooo, d1) -> 0 <= sendNonce (keypairOf d k) <= RejectAfterMessages ->
  let n0 := sendNonce (keypairOf d k) in
  sendNonce (keypairOf d1 k) = n0 + Z.of_nat (length kept) /\ n0 + Z.of_nat (length kept) <= RejectAfterMessages /\
  noncesOf kept = (fun i => (k, n0 + Z.of_nat i)) <$> seq 0 (length kept) /\
  length es = (length kept + length ooo)%nat /\ (ooo <> [] -> n0 + Z.of_nat (length kept) = RejectAfterMessages) /\
  (forall j, j <> k -> keypairStore d1 !! j = keypairStore d !! j) /\
  (es <> [] -> is_Some (keypairStore d1 !! k)) /\
  outStore d1 = outStore d /\ encryptionQ d1 = encryptionQ d /\ sealedLog d1 = sealedLog d.
Proof.
  revert d kept ooo d1. induction es as [|e es IH]; intros d kept ooo d1; cbn [assignNonces].
  { intros [= <- <- <-] Hb. cbn [length]. rewrite Z.add_0_r. repeat split; try done; lia. }
  set (n0 := sendNonce (keypairOf d k)). intros H Hb. cbv zeta. fold n0 in Hb.
  assert (HR : RejectAfterMessages = 18446744073709543423) by done.
  assert (Hn : u64 (n0 + 1) = n0 + 1) by (apply u64_id; unfold is_u64; lia).
  rewrite Hn in H. replace (u64 (n0 + 1 - 1)) with n0 in H
    by (replace (n0 + 1 - 1) with n0 by lia; symmetry; apply u64_id; unfold is_u64; lia).
  set (da := modKeypair k (fun kp => kp <| sendNonce := n0 + 1 |>) d) in H. cbn [oeNonce] in H.
  change (oeNonce ((e <| oePeer := Some p |>) <| oeNonce := n0 |>)) with n0 in H.
  destruct (Z.leb_spec RejectAfterMessages n0) as [Hge|Hlt].
  - set (db := modKeypair k (fun kp => kp <| sendNonce := RejectAfterMessages |>) da) in H.
    destruct (assignNonces p k es db) as [[kept' ooo'] d2] eqn:E. injection H as <- <- <-.
    assert (Edb : sendNonce (keypairOf db k) = RejectAfterMessages) by (unfold db; rewrite keypairOf_mod, decide_True by done; done).
    destruct (IH _ _ _ _ E ltac:(rewrite Edb; lia)) as (H1 & H2 & H3 & H4 & H5 & H6 & H7 & H8).
    rewrite Edb in *. assert (En : n0 = RejectAfterMessages) by lia.
    assert (length kept' = 0)%nat by lia. cbn [length]. rewrite <- En in *. split; [done|]. split; [lia|]. split; [done|].
    split; [lia|]. split; [lia|]. split.
    + intros j Hj. rewrite H6 by done. unfold db, da, modKeypair. cbn. by rewrite !lookup_insert_ne.
    + split; [|done]. intros _. destruct es; [|by apply H7]. cbn in E. injection E as _ _ <-.
      unfold db, modKeypair. cbn. rewrite lookup_insert_eq. eauto.
  - destruct (assignNonces p k es da) as [[kept' ooo'] d2] eqn:E. injection H as <- <- <-.
    assert (Eda : sendNonce (keypairOf da k) = n0 + 1) by (unfold da; rewrite keypairOf_mod, decide_True by done; done).
    destruct (IH _ _ _ _ E ltac:(rewrite Eda; lia)) as (H1 & H2 & H3 & H4 & H5 & H6 & H7 & H8).
    rewrite Eda in *. cbn [length]. split; [lia|]. split; [lia|]. split.
    { cbn [noncesOf map]. fold (noncesOf kept'). rewrite H3. cbn [seq fmap list_fmap]. f_equal.
      - cbn. f_equal. lia.
      - rewrite <- fmap_S_seq, <- list_fmap_compose. apply list_fmap_ext. intros i x _. cbn. f_equal. lia. }
    split; [lia|]. split; [intros Ho; specialize (H5 Ho); lia|]. split.
    + intros j Hj. rewrite H6 by done. unfold da, modKeypair. cbn. by rewrite lookup_insert_ne.
    + split; [|done]. intros _. destruct es; [|by apply H7]. cbn in E. injection E as _ _ <-.
      unfold da, modKeypair. cbn. rewrite lookup_insert_eq. eauto.
Qed.

(** Nonces starting at the counter of the keypair are new. *)
Lemma new_nonces d k n0 m :
  nonce_inv d -> n0 = sendNonce (keypairOf d k) ->
  NoDup (allNonces d ++ ((fun i => (k, n0 + Z.of_nat i)) <$> seq 0 m)).
Proof.
  intros HI ->. apply NoDup_app. split; [apply HI|]. split.
  - intros [k' n] Hin Hnew. apply list_elem_of_fmap in Hnew as (i & [= -> ->] & _).
    destruct (ni_used _ HI _ _ Hin) as (kp & Hkp & Hn). unfold keypairOf in Hn. rewrite Hkp in Hn. cbn in Hn. lia.
  - apply NoDup_fmap_2; [|apply NoDup_ListNoDup, seq_NoDup]. intros i j [= E]. lia.
Qed.

Lemma keypairOf_bound d k : nonce_inv d -> 0 <= sendNonce (keypairOf d k) <= RejectAfterMessages.
Proof.
  intros HI. unfold keypairOf. destruct (keypairStore d !! k) as [kp|] eqn:E; [by apply (ni_bound _ HI k)|by vm_compute].
Qed.

Section Assign.
Context `{C : Crypto} `{N : Entropy} `{B : Bind}.

Lemma nonce_assign p k es d kept ooo d1 :
  assignNonces p k es d = (kept, ooo, d1) -> nonce_inv d -> nonce_inv d1.
Proof.
  intros E HI. pose proof (keypairOf_bound d k HI) as Hb.
  destruct (assignNonces_spec _ _ _ _ _ _ _ E Hb) as (H1 & H2 & _ & _ & _ & H6 & _ & Ho & Hq & Hl).
  apply (nonce_frame d); try done.
  - intros j kp Hj. destruct (decide (j = k)) as [->|Hne]; [|exists kp; rewrite H6 by done; split; [done|lia]].
    assert (Ek : sendNonce (keypairOf d k) = sendNonce kp) by (unfold keypairOf; by rewrite Hj).
    destruct es as [|e es]; [injection E as _ _ <-; exists kp; split; [done|lia]|].
    destruct (keypairStore d1 !! k) as [kp'|] eqn:Ek'.
    + exists kp'. split; [done|]. unfold keypairOf in H1 at 1. rewrite Ek' in H1. cbn in H1. lia.
    + destruct (assignNonces_spec _ _ _ _ _ _ _ E Hb) as (_ & _ & _ & _ & _ & _ & H7 & _).
      destruct (H7 ltac:(done)) as [? ?]. congruence.
  - intros _ j kp Hj. destruct (decide (j = k)) as [->|Hne]; [|rewrite H6 in Hj by done; by apply (ni_bound _ HI j)].
    unfold keypairOf in H1 at 1. rewrite Hj in H1. cbn in H1. lia.
Qed.

Lemma concat_snoc {A} (ls : list (list A)) l : concat (ls ++ [l]) = concat ls ++ l.
Proof. rewrite concat_app. cbn. by rewrite app_nil_r. Qed.

(** Queueing packets that just got their nonces. *)
Lemma nonce_enqueue p k es d kept ooo d1 d2 :
  assignNonces p k es d = (kept, ooo, d1) -> sameCore d1 d2 -> nonce_inv d -> nonce_inv (enqueueOutbound p kept d2).
Proof.
  intros E Hc HI. assert (HI2 : nonce_inv d2) by (eapply nonce_rest; [by apply sameCore_rest_same|by eapply nonce_assign]).
  unfold enqueueOutbound. destruct (isRunning _); [|done]. set (c := base.fresh (dom (outStore d2))).
  assert (Hfresh : outStore d2 !! c = None) by (apply not_elem_of_dom, is_fresh).
  set (d3 := modPeer _ _ _).
  assert (Hq3 : encryptionQ d3 = encryptionQ d2 ++ [c]) by done.
  assert (Ho3 : outStore d3 = <[c := mkContainer true kept]> (outStore d2)) by done.
  assert (Hk3 : keypairStore d3 = keypairStore d2) by done. assert (Hl3 : sealedLog d3 = sealedLog d2) by done. clearbody d3.
  pose proof (ni_queue _ HI2) as [Hnd Hlk].
  assert (Hc2 : c ∉ encryptionQ d2) by (intros Hin; destruct (Hlk c Hin); congruence).
  assert (Hall : allNonces d3 = allNonces d2 ++ noncesOf kept).
  { unfold allNonces, queuedNonces. rewrite Hl3, Hq3, map_app, <- app_assoc. f_equal. cbn [map]. rewrite concat_snoc. f_equal.
    - f_equal. apply map_ext_in. intros c' Hin%list_elem_of_In. unfold outContainer.
      rewrite Ho3, lookup_insert_ne; [done|]. intros <-. done.
    - unfold outContainer. by rewrite Ho3, lookup_insert_eq. }
  pose proof (keypairOf_bound d k HI) as Hb.
  destruct (assignNonces_spec _ _ _ _ _ _ _ E Hb) as (H1 & H2 & H3 & H4 & _ & _ & H7 & H8 & H9 & H10).
  assert (Hall2 : allNonces d2 = allNonces d).
  { unfold allNonces, queuedNonces, outContainer. by rewrite (sc_log _ _ Hc), (sc_queue _ _ Hc), (sc_out _ _ Hc), H8, H9, H10. }
  split.
  - intros j kp. rewrite Hk3. apply HI2.
  - rewrite Hq3. split.
    + apply NoDup_app. split; [done|]. split; [|apply NoDup_singleton]. intros x Hx ->%list_elem_of_singleton. done.
    + intros c'. rewrite elem_of_app, list_elem_of_singleton. intros [Hin| ->].
      * destruct (Hlk c' Hin) as [es' Hes]. exists es'. rewrite Ho3, lookup_insert_ne; [done|]. intros <-. done.
      * exists kept. by rewrite Ho3, lookup_insert_eq.
  - rewrite Hall, Hall2, H3. by apply new_nonces.
  - rewrite Hall. intros k' n. rewrite elem_of_app, Hk3. intros [Hin|Hin]; [by apply HI2|].
    rewrite H3 in Hin. apply list_elem_of_fmap in Hin as (i & [= -> ->] & Hi%elem_of_seq).
    destruct es as [|e es]; [cbn [length] in H4; lia|]. destruct (H7 ltac:(done)) as [kp Hkp].
    exists kp. rewrite (sc_keypairs _ _ Hc). split; [done|]. unfold keypairOf in H1 at 1. rewrite Hkp in H1. cbn in H1. lia.
Qed.

(** A worker moves the nonces of a container to the log. *)
Lemma nonce_encrypt d d' : encryptionStep d = Some d' -> nonce_inv d -> nonce_inv d'.
Proof.
  unfold encryptionStep. destruct (encryptionQ d) as [|c q] eqn:Eq; [done|]. intros H HI.
  set (es := elems (outContainer d c)) in H. set (d0 := d <| encryptionQ := q |>) in H.
  pose proof (encryptAll_core es d0) as Hc. destruct (encryptAll es d0) as [es' d1]. cbn [snd] in Hc. injection H as <-.
  set (d2 := d1 <| outStore ::= _ |> <| sealedLog ::= _ |>).
  assert (Hq : encryptionQ d2 = q) by (change (encryptionQ d1 = q); by rewrite (sc_queue _ _ Hc)).
  assert (Ho : outStore d2 = <[c := mkContainer false es']> (outStore d)).
  { change (<[c := mkContainer false es']> (outStore d1) = <[c := mkContainer false es']> (outStore d)). by rewrite (sc_out _ _ Hc). }
  assert (Hk : keypairStore d2 = keypairStore d) by (change (keypairStore d1 = keypairStore d); by rewrite (sc_keypairs _ _ Hc)).
  assert (Hl : sealedLog d2 = sealedLog d ++ noncesOf es).
  { change (sealedLog d1 ++ noncesOf es = sealedLog d ++ noncesOf es). by rewrite (sc_log _ _ Hc). }
  clearbody d2. pose proof (ni_queue _ HI) as [Hnd Hlk]. rewrite Eq in Hnd, Hlk. apply NoDup_cons in Hnd as [Hcq Hnd].
  assert (Hall : allNonces d2 = allNonces d).
  { unfold allNonces, queuedNonces. rewrite Hl, Hq, Eq. cbn [map concat]. rewrite <- app_assoc. do 2 f_equal. f_equal.
    apply map_ext_in. intros c' Hin%list_elem_of_In. unfold outContainer. rewrite Ho, lookup_insert_ne; [done|]. intros <-. done. }
  split.
  - intros k kp. rewrite Hk. apply HI.
  - rewrite Hq. split; [done|]. intros c' Hin. destruct (Hlk c' ltac:(by right)) as [es2 Hes]. exists es2.
    rewrite Ho, lookup_insert_ne; [done|]. intros <-. done.
  - rewrite Hall. apply HI.
  - intros k n. rewrite Hall, Hk. apply HI.
Qed.

Lemma nonce_sent c d : locked (outContainer d c) = false -> nonce_inv d -> nonce_inv (d <| outStore ::= delete c |>).
Proof.
  intros Hc HI. set (d2 := d <| outStore ::= delete c |>).
  assert (Ho : outStore d2 = delete c (outStore d)) by done. assert (Hq : encryptionQ d2 = encryptionQ d) by done.
  pose proof (ni_queue _ HI) as [Hnd Hlk].
  assert (Hcq : c ∉ encryptionQ d).
  { intros Hin. destruct (Hlk c Hin) as [es Hes]. unfold outContainer in Hc. rewrite Hes in Hc. done. }
  assert (Hall : allNonces d2 = allNonces d).
  { unfold allNonces, queuedNonces. change (sealedLog d2) with (sealedLog d). rewrite Hq. do 2 f_equal.
    apply map_ext_in. intros c' Hin%list_elem_of_In. unfold outContainer. rewrite Ho, lookup_delete_ne; [done|]. intros <-. done. }
  split.
  - apply HI.
  - rewrite Hq. split; [done|]. intros c' Hin. destruct (Hlk c' Hin) as [es Hes]. exists es.
    rewrite Ho, lookup_delete_ne; [done|]. intros <-. done.
  - rewrite Hall. apply HI.
  - intros k n. rewrite Hall. apply HI.
Qed.

(** ** Both relations are stable *)

Definition nonceStep (d d' : Device) : Prop := nonce_inv d -> nonce_inv d'.
Definition configStep (d d' : Device) : Prop :=
  headers d' = headers d /\ paddings d' = paddings d /\ headerProtectionKey d' = headerProtectionKey d.

#[global] Instance nonceStep_preorder : PreOrder nonceStep.
Proof. split; [intros d H; exact H|]. unfold nonceStep. intros d1 d2 d3. auto. Qed.
#[global] Instance configStep_preorder : PreOrder configStep.
Proof. unfold configStep. split; [by intros d|]. intros d1 d2 d3 (? & ? & ?) (? & ? & ?). repeat split; congruence. Qed.

(** Operations that leave the keypairs alone. *)
Lemma received_rest p k d : sameRest d (ReceivedWithKeypair p k d).2.
Proof.
  unfold ReceivedWithKeypair. destruct (negb _); [by split|]. cbn [snd].
  repeat (etransitivity; [|apply setKeypairs_rest] || (etransitivity; [|apply DeleteKeypair_rest])). by split.
Qed.

Lemma clearKeypairs_rest p d : sameRest d (clearKeypairs p d).
Proof.
  unfold clearKeypairs. repeat (etransitivity; [|apply setKeypairs_rest] || (etransitivity; [|apply DeleteKeypair_rest])). by split.
Qed.

Lemma NewPeer_rest pk d : sameRest d (NewPeer pk d).2.
Proof.
  unfold NewPeer. destruct (isClosed d); [by split|]. destruct (_ <=? _)%nat; [by split|]. destruct (bool_decide _); by split.
Qed.

(** The session's keypair starts at nonce 0. *)
Lemma session_keypairs p d :
  keypairStore (BeginSymmetricSession p d).2 = keypairStore d \/
  exists k kp, keypairStore d !! k = None /\ sendNonce kp = 0 /\
    keypairStore (BeginSymmetricSession p d).2 = <[k := kp]> (keypairStore d).
Proof.
  unfold BeginSymmetricSession. destruct (sessionKeys _) as [[[sk rk] init]|]; [|by left]. cbn [snd]. right.
  set (k := base.fresh _). set (kp := mkKeypair _ _ _ _ _ _ _ _). exists k, kp.
  split; [apply not_elem_of_dom, is_fresh|]. split; [done|]. rewrite (sr_keypairs _ _ (rotateKeypairs_rest _ _ _ _)).
  unfold SwapIndexForKeypair. by destruct (indexTable _ !! _).
Qed.

Lemma session_other p d : let d' := (BeginSymmetricSession p d).2 in
  outStore d' = outStore d /\ encryptionQ d' = encryptionQ d /\ sealedLog d' = sealedLog d /\ configStep d d'.
Proof.
  unfold BeginSymmetricSession. destruct (sessionKeys _) as [[[sk rk] init]|]; [|by repeat split]. cbn [snd].
  match goal with |- context [rotateKeypairs p ?k init ?x] => pose proof (rotateKeypairs_rest p k init x) as [_ H2 H3 H4 H5];
    set (dx := x) in * end.
  rewrite H2, H3, H4. unfold configStep. destruct H5 as (-> & -> & ->). unfold dx, SwapIndexForKeypair.
  by destruct (indexTable _ !! _).
Qed.

Lemma encryptionStep_config d d' : encryptionStep d = Some d' -> configStep d d'.
Proof.
  unfold encryptionStep. destruct (encryptionQ d) as [|c q]; [done|]. set (d0 := d <| encryptionQ := q |>).
  pose proof (encryptAll_core (elems (outContainer d c)) d0) as H. destruct (encryptAll _ d0) as [es' d1].
  intros [= <-]. exact (sc_config _ _ H).
Qed.

Lemma assign_config p k es d : configStep d (assignNonces p k es d).2.
Proof.
  revert d. induction es as [|e es IH]; intros d; cbn [assignNonces]; [by repeat split|].
  set (d1 := modKeypair k _ d). destruct (_ <=? _).
  - set (d2 := modKeypair k (fun kp => kp <| sendNonce := RejectAfterMessages |>) d1).
    specialize (IH d2). by destruct (assignNonces p k es d2) as [[kept ooo] d3].
  - specialize (IH d1). by destruct (assignNonces p k es d1) as [[kept ooo] d3].
Qed.

#[global] Instance nonce_stable : Stable nonceStep.
Proof.
  split; try apply _; unfold nonceStep.
  - intros d d' H. by apply nonce_rest, sameCore_rest_same.
  - intros p d. apply nonce_rest, CreateMessageInitiation_rest.
  - intros p d. apply nonce_rest, CreateMessageResponse_rest.
  - intros p ts hash ck sender eph d. apply nonce_rest. by split.
  - intros hp hash ck sender d. apply nonce_rest. by split.
  - intros p d. destruct (session_other p d) as (Ho & Hq & Hl & _).
    destruct (session_keypairs p d) as [E|(k & kp & Hk & Hz & E)]; (apply nonce_frame; [done..| |]); rewrite E.
    + intros j x Hj. exists x. split; [done|lia].
    + intros HI j x. apply HI.
    + intros j x Hj. exists x. rewrite lookup_insert_ne by congruence. split; [done|lia].
    + intros HI j x. rewrite lookup_insert_Some. intros [[<- <-]|[_ Hj]]; [rewrite Hz; by vm_compute|by apply (ni_bound _ HI j)].
  - intros p k d. apply nonce_rest, received_rest.
  - intros p d. apply nonce_rest, clearKeypairs_rest.
  - intros p d. apply nonce_rest. by split.
  - intros o d. destruct o as [k|]; [|done]. apply nonce_modKeypair. intros kp H. cbn. lia.
  - intros k c d. unfold validateCounter. destruct (ValidateCounter _ _ _) as [ok f]. apply nonce_modKeypair. intros kp H. cbn. lia.
  - intros p k es d kept ooo d1 d2 E Hc. split; [|by apply (nonce_enqueue p k es d kept ooo d1)].
    intros HI. eapply nonce_rest; [by apply sameCore_rest_same|by eapply nonce_assign].
  - apply nonce_encrypt.
  - apply nonce_sent.
  - intros pk d. apply nonce_rest, NewPeer_rest.
Qed.

#[global] Instance config_stable : Stable configStep.
Proof.
  split; try apply _.
  - intros d d' H. apply (sc_config _ _ H).
  - intros p d. apply CreateMessageInitiation_rest.
  - intros p d. apply CreateMessageResponse_rest.
  - by intros p ts hash ck sender eph d.
  - by intros hp hash ck sender d.
  - intros p d. apply session_other.
  - intros p k d. apply received_rest.
  - intros p d. apply clearKeypairs_rest.
  - by intros p d.
  - intros o d. by destruct o.
  - intros k c d. unfold validateCounter. by destruct (ValidateCounter _ _ _) as [ok f].
  - intros p k es d kept ooo d1 d2 E Hc. pose proof (assign_config p k es d) as H. rewrite E in H. cbn [snd] in H.
    assert (H2 : configStep d d2) by (etransitivity; [exact H|apply (sc_config _ _ Hc)]). split; [done|].
    unfold enqueueOutbound. by destruct (isRunning _).
  - apply encryptionStep_config.
  - by intros c d _.
  - intros pk d. apply NewPeer_rest.
Qed.

#[global] Instance nonce_stable_io : StableIO nonceStep.
Proof. split; [apply _|..]; intros f d; unfold nonceStep; apply nonce_rest; by split. Qed.

#[global] Instance nonce_stable_state : StableState nonceStep.
Proof. apply StableState_set; [apply _|]. intros s d. unfold nonceStep. apply nonce_rest. by split. Qed.

#[global] Instance config_stable_io : StableIO configStep.
Proof. split; [apply _|..]; by intros f d. Qed.

#[global] Instance config_stable_state : StableState configStep.
Proof. apply StableState_set; [apply _|]. by intros s d. Qed.
End Assign.
