(* ===== verification/NetIP.v ===== *)
(** * Addresses and prefixes of the standard library's [net/netip]

    [ParseAddr] and [ParsePrefix], which the configuration protocol and the
    bridges use, after Go's implementation. *)

From stdpp Require Import base numbers list gmap strings.
From Stdlib Require Import ZArith Lia.
From S2P Require Import Prelude GoStrings AllowedIPs.

(** ** IPv4 *)

(** [parseIPv4Fields]: the fields read so far in reverse, the value and the
    number of digits of the current one. *)
Fixpoint parseIPv4Loop (s : list Z) (fields : list Z) (val : Z) (digLen : nat) : option (list Z) :=
  match s with
  | [] => if (length fields =? 3)%nat && negb (digLen =? 0)%nat then Some (reverse (val :: fields)) else None
  | c :: s' =>
      if isDigit c then
        if (digLen =? 1)%nat && (val =? 0) then None
        else
          let val := val * 10 + (c - 48) in
          if 255 <? val then None else parseIPv4Loop s' fields val (S digLen)
      else if c =? 46 then
        if (digLen =? 0)%nat || (length fields =? 3)%nat then None
        else parseIPv4Loop s' (val :: fields) 0 O
      else None
  end.

Definition parseIPv4 (s : list Z) : option (list Z) := parseIPv4Loop s [] 0 O.

(** ** IPv6 *)

(** The hexadecimal digits at the front of [s]: their value and number. *)
Fixpoint hexGroup (s : list Z) (acc : Z) (n : nat) : option (Z * nat * list Z) :=
  match s with
  | [] => Some (acc, n, [])
  | c :: s' =>
      match hexVal c with
      | None => Some (acc, n, s)
      | Some v => if (3 <? n)%nat then None else hexGroup s' (acc * 16 + v) (S n)
      end
  end.

(** The loop over the groups: [ip] are the bytes written, [ell] the place of
    the ellipsis; the result has [s] empty. *)
Fixpoint parseIPv6Loop (fuel : nat) (s : list Z) (ip : list Z) (ell : option nat) : option (list Z * option nat) :=
  match fuel with
  | O => if (length s =? 0)%nat then Some (ip, ell) else None
  | S fuel' =>
      '(acc, off, rest) ← hexGroup s 0 O;
      if (off =? 0)%nat then None
      else
        match rest with
        | 46 :: _ =>
            if (match ell with None => negb (length ip =? 12)%nat | Some _ => false end) || (12 <? length ip)%nat then None
            else v4 ← parseIPv4 s; Some (ip ++ v4, ell)
        | _ =>
            let ip := ip ++ [acc / 256; acc mod 256] in
            match rest with
            | [] => Some (ip, ell)
            | 58 :: rest =>
                match rest with
                | [] => None
                | 58 :: rest' =>
                    match ell with
                    | Some _ => None
                    | None => if (length rest' =? 0)%nat then Some (ip, Some (length ip))
                              else parseIPv6Loop fuel' rest' ip (Some (length ip))
                    end
                | _ => parseIPv6Loop fuel' rest ip ell
                end
            | _ => None
            end
        end
  end.

(** The address without its zone, and whether it has one.  Eight groups fill
    the sixteen bytes. *)
Definition parseIPv6 (s : list Z) : option (list Z * bool) :=
  let '(s, zone, found) := cutByte 37 s in
  if found && (length zone =? 0)%nat then None
  else
    '(ip, ell) ← match s with
                 | 58 :: 58 :: [] => Some ([], Some O)
                 | 58 :: 58 :: s' => parseIPv6Loop 8 s' [] (Some O)
                 | _ => parseIPv6Loop 8 s [] None
                 end;
    if (length ip <? 16)%nat then
      e ← ell; Some (take e ip ++ zeros (16 - length ip) ++ drop e ip, found)
    else
      match ell with Some _ => None | None => Some (ip, found) end.

(** ** Addresses and prefixes *)

Definition addrOfBytes (bs : list Z) : ipAddr := mkIP (Z.of_nat (length bs)) (be_val bs).

(** [Addr.Unmap]. *)
Definition Unmap (a : ipAddr) : ipAddr :=
  if (ipLen a =? 16) && (Z.shiftr (ipVal a) 32 =? 0xffff) then mkIP 4 (u32 (ipVal a)) else a.

(** [netip.AddrFromSlice]: 4 or 16 bytes. *)
Definition AddrFromSlice (bs : list Z) : option ipAddr :=
  if (length bs =? 4)%nat || (length bs =? 16)%nat then Some (addrOfBytes bs) else None.

Definition zeroAddr : ipAddr := mkIP 0 0.

(** The first of the three separators decides. *)
Definition ParseAddr (s : list Z) : option (ipAddr * bool) :=
  match List.find (fun c => (c =? 46) || (c =? 58) || (c =? 37)) s with
  | Some c =>
      if c =? 46 then bs ← parseIPv4 s; Some (addrOfBytes bs, false)
      else if c =? 58 then '(bs, zone) ← parseIPv6 s; Some (addrOfBytes bs, zone)
      else None
  | None => None
  end.

(** The text before and after the last slash. *)
Fixpoint cutLast (c : Z) (s : list Z) : option (list Z * list Z) :=
  match s with
  | [] => None
  | x :: s' =>
      match cutLast c s' with
      | Some (a, b) => Some (x :: a, b)
      | None => if x =? c then Some ([], s') else None
      end
  end.

Definition ParsePrefix (s : list Z) : option Prefix :=
  match cutLast 47 s with
  | None => None
  | Some (a, bitsStr) =>
      match ParseAddr a with
      | None | Some (_, true) => None
      | Some (ip, false) =>
          let bad := match bitsStr with c :: _ :: _ => (c <? 49) || (57 <? c) | _ => false end in
          if bad then None
          else
            match atoi bitsStr with
            | Err _ => None
            | Ok bits => if (bits <? 0) || (8 * ipLen ip <? bits) then None else Some (mkPrefix ip bits)
            end
      end
  end.

Example parsePrefix_v4 : ParsePrefix (str "10.8.1.0/24") = Some (mkPrefix (mkIP 4 0x0a080100) 24).
Proof. reflexivity. Qed.
Example parsePrefix_v6 : ParsePrefix (str "fd00::1:2/64") = Some (mkPrefix (mkIP 16 (0xfd000000000000000000000000010002)) 64).
Proof. reflexivity. Qed.
Example parsePrefix_mapped : ParsePrefix (str "::ffff:1.2.3.4/128") = Some (mkPrefix (mkIP 16 0xffff01020304) 128).
Proof. reflexivity. Qed.
Example parsePrefix_bad :
  ParsePrefix (str "10.0.0.1") = None /\ ParsePrefix (str "1.2.3/8") = None /\ ParsePrefix (str "01.2.3.4/8") = None /\
  ParsePrefix (str "1.2.3.4/33") = None /\ ParsePrefix (str "1.2.3.4/+1") = None /\
  ParsePrefix (str "fe80::1%en0/64") = None /\ ParsePrefix (str "1::2::3/4") = None.
Proof. repeat split. Qed.
