(* ===== verification/GoNet.v ===== *)
(** * The standard library's network text functions

    [net.SplitHostPort], [net.JoinHostPort], the text of an IP address,
    [net.ParseIP] and [base64.StdEncoding], after Go's implementation, on ASCII
    text; and the round trips between them. *)

From stdpp Require Import base numbers list sets strings.
From Stdlib Require Import ZArith Lia.
From S2P Require Import Prelude GoStrings AllowedIPs NetIP Obf.

(** ** Host and port *)

(** [strings.LastIndexByte]. *)
Fixpoint lastIndexByte (s : list Z) (c : Z) : option nat :=
  match s with
  | [] => None
  | x :: s' => match lastIndexByte s' c with
               | Some i => Some (S i)
               | None => if x =? c then Some O else None
               end
  end.

Definition containsByte (s : list Z) (c : Z) : bool := bool_decide (c ∈ s).

(** [net.SplitHostPort]; all its errors are [None]. *)
Definition SplitHostPort (s : list Z) : option (list Z * list Z) :=
  match lastIndexByte s 58 with
  | None => None
  | Some i =>
      '(host, j, k) ←
        match s with
        | 91 :: _ =>
            match indexByte s 93 with
            | None => None
            | Some e => if (S e =? i)%nat then Some (slice s 1 e, 1%nat, S e) else None
            end
        | _ => if containsByte (take i s) 58 then None else Some (take i s, 0%nat, 0%nat)
        end;
      if containsByte (drop j s) 91 || containsByte (drop k s) 93 then None
      else Some (host, drop (S i) s)
  end.

Definition JoinHostPort (host port : list Z) : list Z :=
  if containsByte host 58 then 91 :: host ++ [93; 58] ++ port else host ++ [58] ++ port.

(** The verb [%d] and [strconv.Itoa] on an [int]. *)
Definition itoa (n : Z) : list Z := if n <? 0 then 45 :: dec (- n) else dec n.

(** ** The text of an IP address *)

Definition joinByte (c : Z) (parts : list (list Z)) : list Z :=
  match parts with
  | [] => []
  | p :: ps => p ++ concat (map (fun q => c :: q) ps)
  end.

Definition formatIPv4 (bs : list Z) : list Z := joinByte 46 (map dec bs).

(** [appendHex]: lower case, no leading zero. *)
Definition hexGroupText (n : Z) : list Z :=
  (if 4095 <? n then [hexDigit (Z.shiftr n 12)] else []) ++
  (if 255 <? n then [hexDigit (Z.land (Z.shiftr n 8) 15)] else []) ++
  (if 15 <? n then [hexDigit (Z.land (Z.shiftr n 4) 15)] else []) ++
  [hexDigit (Z.land n 15)].

Definition groupsOf (bs : list Z) : list Z := map (fun i => be_val (slice bs (2 * i) (2 * i + 2))) (seq 0 8).

Fixpoint zeroRun (gs : list Z) : nat :=
  match gs with 0 :: gs => S (zeroRun gs) | _ => O end.

(** The first longest run of at least two zero groups: its start and end. *)
Definition longestRun (gs : list Z) : nat * nat :=
  foldl (fun '(s, e) i =>
           let l := zeroRun (drop i gs) in
           if (2 <=? l)%nat && (e - s <? l)%nat then (i, i + l)%nat else (s, e)) (8, 8)%nat (seq 0 8).

Definition formatIPv6 (bs : list Z) : list Z :=
  let gs := groupsOf bs in
  let '(s, e) := longestRun gs in
  if (s =? 8)%nat then joinByte 58 (map hexGroupText gs)
  else joinByte 58 (map hexGroupText (take s gs)) ++ [58; 58] ++ joinByte 58 (map hexGroupText (drop e gs)).

Definition v4InV6Prefix : list Z := [0; 0; 0; 0; 0; 0; 0; 0; 0; 0; 0xff; 0xff].

(** [IP.To4]: the four bytes of an IPv4 address or of one mapped into IPv6. *)
Definition To4 (bs : list Z) : option (list Z) :=
  if (length bs =? 4)%nat then Some bs
  else if (length bs =? 16)%nat && bool_decide (take 12 bs = v4InV6Prefix) then Some (drop 12 bs) else None.

(** [IP.String] on 4 or 16 bytes. *)
Definition ipString (bs : list Z) : list Z :=
  match To4 bs with Some v4 => formatIPv4 v4 | None => formatIPv6 bs end.

(** [net.ParseIP]: 16 bytes, IPv4 in its mapped form; a zone is refused. *)
Definition ParseIP (s : list Z) : option (list Z) :=
  match ParseAddr s with
  | Some (a, false) =>
      let bs := be_bytes (Z.to_nat (ipLen a)) (ipVal a) in
      Some (if (length bs =? 4)%nat then v4InV6Prefix ++ bs else bs)
  | _ => None
  end.

(** ** [base64.StdEncoding]; the alphabet is that of [Obf.base64Val] *)

Definition isNewline (c : Z) : bool := (c =? 10) || (c =? 13).

Fixpoint skipNewlines (s : list Z) : list Z :=
  match s with
  | c :: s' => if isNewline c then skipNewlines s' else s
  | [] => []
  end.

(** The bytes of a group of 2, 3 or 4 symbols. *)
Definition quantumBytes (q : list Z) : list Z :=
  let val := foldl (fun n v => n * 64 + v) 0 (q ++ zeros (4 - length q)) in
  take (length q - 1) (be_bytes 3 val).

(** [q]: the symbols of the group read so far. *)
Fixpoint b64Loop (s q : list Z) : option (list Z) :=
  match s with
  | [] => if (length q =? 0)%nat then Some [] else None
  | c :: s' =>
      match base64Val c with
      | Some v =>
          if (length q =? 3)%nat then
            bs ← b64Loop s' []; Some (quantumBytes (q ++ [v]) ++ bs)
          else b64Loop s' (q ++ [v])
      | None =>
          if isNewline c then b64Loop s' q
          else if negb (c =? 61) then None
          else if (length q <? 2)%nat then None
          else
            rest ← (if (length q =? 2)%nat then
                      match skipNewlines s' with 61 :: rest => Some rest | _ => None end
                    else Some s');
            if (length (skipNewlines rest) =? 0)%nat then Some (quantumBytes q) else None
      end
  end.

Definition b64Decode (s : list Z) : option (list Z) := b64Loop s [].

Example b64_hello : b64Decode (str "aGVsbG8gd29ybGQ=") = Some (str "hello world").
Proof. reflexivity. Qed.
Example b64_short : b64Decode (str "aGVsbA==") = Some (str "hell").
Proof. reflexivity. Qed.
Example b64_bad : b64Decode (str "aGVsbA=") = None /\ b64Decode (str "aGVsb A=") = None /\ b64Decode (str "aGVs=bA=") = None.
Proof. split; [|split]; reflexivity. Qed.
Example split_v6 : SplitHostPort (str "[fd00::1]:53") = Some (str "fd00::1", str "53").
Proof. reflexivity. Qed.
Example split_bad : SplitHostPort (str "fd00::1:53") = None /\ SplitHostPort (str "[fd00::1]") = None /\ SplitHostPort (str "a[b:1") = None.
Proof. split; [|split]; reflexivity. Qed.
Example format_v6 : ipString (be_bytes 16 0xfd000000000000000000000000010002) = str "fd00::1:2".
Proof. reflexivity. Qed.
Example format_ends : ipString (zeros 16) = str "::" /\ ipString (zeros 15 ++ [1]) = str "::1" /\
  ipString ([0; 1] ++ zeros 14) = str "1::" /\ ipString (v4InV6Prefix ++ [1; 2; 3; 4]) = str "1.2.3.4".
Proof. repeat split. Qed.
Example format_middle : ipString [0x20; 1; 0; 0; 0; 0; 0; 7; 0; 0; 0; 0; 0; 0; 0xab; 0xcd] = str "2001:0:0:7::abcd".
Proof. reflexivity. Qed.
Example itoa_neg : itoa (-12) = str "-12".
Proof. reflexivity. Qed.

(** ** Lemmas: host and port *)

Lemma containsByte_app s1 s2 c : containsByte (s1 ++ s2) c = containsByte s1 c || containsByte s2 c.
Proof. unfold containsByte. repeat case_bool_decide; try done; set_solver. Qed.

Lemma containsByte_cons x s c : containsByte (x :: s) c = (x =? c) || containsByte s c.
Proof.
  unfold containsByte. destruct (Z.eqb_spec x c) as [->|]; cbn [orb]; [apply bool_decide_eq_true; set_solver|].
  apply bool_decide_ext. set_solver.
Qed.

Lemma containsByte_false s c : containsByte s c = false <-> c ∉ s.
Proof. apply bool_decide_eq_false. Qed.

Lemma lastIndexByte_none s c : c ∉ s -> lastIndexByte s c = None.
Proof.
  induction s as [|x s IH]; intros H; cbn [lastIndexByte]; [done|]. apply not_elem_of_cons in H as [H1 H2].
  rewrite IH by done. by rewrite (proj2 (Z.eqb_neq x c)).
Qed.

Lemma lastIndexByte_app s1 s2 c : c ∉ s2 -> lastIndexByte (s1 ++ c :: s2) c = Some (length s1).
Proof.
  intros H. induction s1 as [|x s1 IH]; cbn [lastIndexByte app length].
  - by rewrite lastIndexByte_none, Z.eqb_refl.
  - by rewrite IH.
Qed.

Lemma lastIndexByte_Some s c i :
  lastIndexByte s c = Some i -> s = take i s ++ c :: drop (S i) s /\ c ∉ drop (S i) s.
Proof.
  revert i. induction s as [|x s IH]; intros i; cbn [lastIndexByte]; [done|].
  destruct (lastIndexByte s c) as [j|] eqn:E.
  - intros [= <-]. destruct (IH j eq_refl) as [H1 H2]. split; [|done]. cbn. by f_equal.
  - destruct (Z.eqb_spec x c) as [->|]; [|done]. intros [= <-]. split; [done|]. cbn. intros Hin. rewrite drop_0 in Hin.
    clear IH. induction s as [|y s IHs]; [by apply not_elem_of_nil in Hin|]. cbn [lastIndexByte] in E.
    destruct (lastIndexByte s c); [done|]. destruct (Z.eqb_spec y c); [done|].
    apply elem_of_cons in Hin as [->|Hin]; [done|by apply IHs].
Qed.

(** The hosts and ports [SplitHostPort] returns. *)
Definition hostOk (h : list Z) : Prop := 91 ∉ h /\ 93 ∉ h.
Definition portOk (p : list Z) : Prop := 58 ∉ p /\ 91 ∉ p /\ 93 ∉ p.

Lemma not_elem_Forall (c : Z) s : c ∉ s <-> Forall (fun x => x <> c) s.
Proof. rewrite Forall_forall. split; [intros H x Hx ->; done|intros H Hc; by apply (H c)]. Qed.

Lemma SplitHostPort_plain h p : hostOk h -> portOk p -> 58 ∉ h -> SplitHostPort (h ++ 58 :: p) = Some (h, p).
Proof.
  intros [H1 H2] (P1 & P2 & P3) Hc. unfold SplitHostPort. rewrite lastIndexByte_app by done.
  assert (E : forall A (x y : A), match h ++ 58 :: p with 91 :: _ => x | _ => y end = y).
  { intros A x y. destruct h as [|z h]; [done|]. cbn [app]. apply not_elem_of_cons in H1 as [H1 _].
    destruct z as [|z|z]; try done. destruct (decide (z = 91%positive)) as [->|]; [done|].
    do 7 (destruct z as [z|z|]; try done). }
  rewrite E. rewrite take_app_length, (proj2 (containsByte_false h 58) Hc). cbn [mbind option_bind drop].
  rewrite !drop_0, !containsByte_app, !containsByte_cons.
  rewrite (proj2 (containsByte_false h 91) H1), (proj2 (containsByte_false h 93) H2),
    (proj2 (containsByte_false p 91) P2), (proj2 (containsByte_false p 93) P3). cbn [orb Z.eqb Pos.eqb].
  replace (S (length h)) with (length h + 1)%nat by lia. rewrite <- drop_drop, drop_app_length. done.
Qed.

Lemma SplitHostPort_bracket h p : hostOk h -> portOk p -> SplitHostPort (91 :: h ++ 93 :: 58 :: p) = Some (h, p).
Proof.
  intros [H1 H2] (P1 & P2 & P3). unfold SplitHostPort.
  assert (E : 91 :: h ++ 93 :: 58 :: p = (91 :: h ++ [93]) ++ 58 :: p) by (cbn; by rewrite <- app_assoc).
  rewrite E at 1. rewrite lastIndexByte_app by done.
  replace (indexByte (91 :: h ++ 93 :: 58 :: p) 93) with (Some (S (length h))).
  2: { cbn [indexByte Z.eqb Pos.eqb]. rewrite indexByte_app; [done|by apply not_elem_Forall]. }
  replace (length (91 :: h ++ [93])) with (S (S (length h))) by (cbn; rewrite length_app; cbn; lia).
  rewrite Nat.eqb_refl. cbn [mbind option_bind drop].
  assert (Es : slice (91 :: h ++ 93 :: 58 :: p) 1 (S (length h)) = h).
  { unfold slice. cbn [drop]. replace (S (length h) - 1)%nat with (length h) by lia. apply take_app_length. }
  rewrite Es, drop_0. rewrite (drop_app_ge h _ (S (length h))) by lia. replace (S (length h) - length h)%nat with 1%nat by lia.
  rewrite !containsByte_app, !containsByte_cons. cbn [drop]. rewrite !containsByte_cons.
  rewrite (proj2 (containsByte_false h 91) H1), (proj2 (containsByte_false p 91) P2), (proj2 (containsByte_false p 93) P3).
  cbn [orb Z.eqb Pos.eqb]. f_equal. f_equal.
  replace (S (S (length h))) with (length h + 2)%nat by lia. by rewrite <- drop_drop, drop_app_length.
Qed.

Lemma split_join h p : hostOk h -> portOk p -> SplitHostPort (JoinHostPort h p) = Some (h, p).
Proof.
  intros Hh Hp. unfold JoinHostPort. destruct (containsByte h 58) eqn:E.
  - by apply SplitHostPort_bracket.
  - apply SplitHostPort_plain; [done..|]. by apply containsByte_false.
Qed.

Lemma not_elem_take (c : Z) n s : c ∉ s -> c ∉ take n s.
Proof. intros H Hc. apply H. rewrite <- (take_drop n s). set_solver. Qed.
Lemma not_elem_drop (c : Z) n s : c ∉ s -> c ∉ drop n s.
Proof. intros H Hc. apply H. rewrite <- (take_drop n s). set_solver. Qed.

Lemma indexByte_before s c i : indexByte s c = Some i -> c ∉ take i s.
Proof.
  revert i. induction s as [|x s IH]; intros i; cbn [indexByte]; [done|]. destruct (Z.eqb_spec x c) as [->|Hx].
  - intros [= <-]. cbn. set_solver.
  - destruct (indexByte s c) as [j|] eqn:E; [|done]. intros [= <-]. cbn. specialize (IH j eq_refl). set_solver.
Qed.

Lemma SplitHostPort_ok s h p : SplitHostPort s = Some (h, p) -> hostOk h /\ portOk p.
Proof.
  unfold SplitHostPort. destruct (lastIndexByte s 58) as [i|] eqn:Ei; [|done].
  destruct (lastIndexByte_Some _ _ _ Ei) as [_ Hp].
  intros H.
  assert (Hcase : (exists e, indexByte s 93 = Some e /\ S e = i /\ 91 ∉ drop 1 s /\ 93 ∉ drop (S e) s /\ h = slice s 1 e /\ p = drop (S i) s) \/
                  (91 ∉ s /\ 93 ∉ s /\ h = take i s /\ p = drop (S i) s)).
  { assert (Hplain : (if containsByte (take i s) 58 then None else Some (take i s, 0%nat, 0%nat)) ≫=
        (fun '(host, j, k) => if containsByte (drop j s) 91 || containsByte (drop k s) 93 then None else Some (host, drop (S i) s)) = Some (h, p) ->
        91 ∉ s /\ 93 ∉ s /\ h = take i s /\ p = drop (S i) s).
    { destruct (containsByte (take i s) 58); [done|]. cbn [mbind option_bind]. rewrite drop_0.
      destruct (_ || _) eqn:Eo; [done|]. apply orb_false_iff in Eo as [E1%containsByte_false E2%containsByte_false].
      by intros [= <- <-]. }
    destruct s as [|x s]; [done|]. destruct (decide (x = 91)) as [->|Hx].
    - left. destruct (indexByte _ 93) as [e|]; [|done]. destruct (Nat.eqb_spec (S e) i) as [E|]; [|done].
      cbn [mbind option_bind] in H. destruct (_ || _) eqn:Eo in H; [done|].
      apply orb_false_iff in Eo as [E1%containsByte_false E2%containsByte_false]. injection H as <- <-. by exists e.
    - right. apply Hplain. clear Hplain. destruct x as [|x|x]; try exact H.
      do 7 (destruct x as [x|x|]; try exact H). done. }
  destruct Hcase as [(e & He & <- & H1 & H2 & -> & ->)|(H1 & H2 & -> & ->)].
  - pose proof (indexByte_before _ _ _ He) as Hb. split.
    + unfold slice. split; [by apply not_elem_take|]. intros Hin. apply Hb. destruct e; [by apply not_elem_of_nil in Hin|].
      rewrite (take_drop_commute) in Hin. replace (1 + (S e - 1))%nat with (S e) in Hin by lia.
      by apply (not_elem_drop 93 1 (take (S e) s)) in Hb.
    + split; [done|]. split.
      * intros Hin. apply H1. rewrite <- (take_drop (S e) (drop 1 s)), drop_drop. replace (1 + S e)%nat with (S (S e)) by lia. set_solver.
      * intros Hin. apply H2. rewrite <- (take_drop 1 (drop (S e) s)), drop_drop. replace (S e + 1)%nat with (S (S e)) by lia. set_solver.
  - split; [split; by apply not_elem_take|]. split; [done|]. split; by apply not_elem_drop.
Qed.
