(* ===== verification/GoNetThm.v ===== *)
(** * The text of ports and addresses reads back

    [Atoi] of [Itoa], [ParseIP] of the text of an IPv4 or an IPv6 address. *)

From stdpp Require Import base numbers list sets strings.
From Stdlib Require Import ZArith Lia.
From S2P Require Import Prelude GoStrings AllowedIPs NetIP Obf GoNet.

(** ** IPv4 and numbers *)

Lemma byte_cases (P : Z -> Prop) : (forall n, (n < 256)%nat -> P (Z.of_nat n)) -> forall b, is_u8 b -> P b.
Proof. intros H b Hb. unfold is_u8 in Hb. rewrite <- (Z2Nat.id b) by lia. apply H. lia. Qed.

(** The loop over the digits of a byte, up to a dot or the end. *)
Lemma parse_dec_byte b rest fs :
  is_u8 b -> match rest with [] => True | c :: _ => c = 46 end ->
  parseIPv4Loop (dec b ++ rest) fs 0 0 = parseIPv4Loop rest fs b (length (dec b)).
Proof.
  intros Hb Hr. revert b Hb. apply (byte_cases (fun b => parseIPv4Loop (dec b ++ rest) fs 0 0 = parseIPv4Loop rest fs b (length (dec b)))).
  intros n Hn. do 256 (destruct n as [|n]; [reflexivity|]). lia.
Qed.

Lemma dec_byte_len b : is_u8 b -> (1 <= length (dec b))%nat.
Proof. intros Hb. pose proof (decAux_nonnil (S (Z.to_nat (Z.log2 b))) b []) as H. unfold dec. destruct (decAux _ _ _); [by destruct H|cbn; lia]. Qed.

Lemma parse_dot s fs v n : (1 <= n)%nat -> (length fs < 3)%nat -> parseIPv4Loop (46 :: s) fs v n = parseIPv4Loop s (v :: fs) 0 0.
Proof. intros H1 H2. cbn. destruct n as [|n]; [lia|]. do 3 (destruct fs as [|? fs]; [done|]). cbn in H2. lia. Qed.

Lemma parse_format_IPv4 a b c d :
  is_u8 a -> is_u8 b -> is_u8 c -> is_u8 d -> parseIPv4 (formatIPv4 [a; b; c; d]) = Some [a; b; c; d].
Proof.
  intros Ha Hb Hc Hd. unfold parseIPv4, formatIPv4, joinByte. cbn [map concat]. rewrite app_nil_r, <- !app_comm_cons.
  pose proof (dec_byte_len a Ha). pose proof (dec_byte_len b Hb). pose proof (dec_byte_len c Hc). pose proof (dec_byte_len d Hd).
  rewrite parse_dec_byte by done. rewrite parse_dot by first [lia | cbn; lia]. rewrite parse_dec_byte by done. rewrite parse_dot by first [lia | cbn; lia].
  rewrite parse_dec_byte by done. rewrite parse_dot by first [lia | cbn; lia].
  rewrite <- (app_nil_r (dec d)). rewrite parse_dec_byte by done.
  destruct (length (dec d)); [lia|reflexivity].
Qed.

(** The text of an IPv4 address. *)
Lemma IPv4_no_byte x a b c d :
  is_u8 a -> is_u8 b -> is_u8 c -> is_u8 d -> isDigit x = false -> x <> 46 -> x ∉ formatIPv4 [a; b; c; d].
Proof.
  intros Ha Hb Hc Hd Hx Hx'. unfold formatIPv4, joinByte. cbn [map concat].
  assert (Hn : forall n, is_u8 n -> x ∉ dec n).
  { intros n Hn Hin. pose proof (dec_digits n ltac:(unfold is_u8 in Hn; lia)) as HF. rewrite Forall_forall in HF.
    specialize (HF x Hin). congruence. }
  rewrite app_nil_r, !elem_of_app, !elem_of_cons.
  intros [H|[[?|H]|[[?|H]|[?|H]]]]; try done; by eapply Hn; [|exact H].
Qed.

Lemma ParseIP_IPv4 a b c d :
  is_u8 a -> is_u8 b -> is_u8 c -> is_u8 d -> ParseIP (formatIPv4 [a; b; c; d]) = Some (v4InV6Prefix ++ [a; b; c; d]).
Proof.
  intros Ha Hb Hc Hd. unfold ParseIP, ParseAddr.
  assert (Ef : List.find (fun c => (c =? 46) || (c =? 58) || (c =? 37)) (formatIPv4 [a; b; c; d]) = Some 46).
  { assert (Hg : forall n rest, is_u8 n -> List.find (fun c => (c =? 46) || (c =? 58) || (c =? 37)) (dec n ++ 46 :: rest) = Some 46).
    { intros n rest Hn. pose proof (dec_digits n ltac:(unfold is_u8 in Hn; lia)) as HF. induction HF as [|x l Hx HF IH]; [done|].
      cbn. unfold isDigit in Hx. replace ((x =? 46) || (x =? 58) || (x =? 37)) with false by lia. apply IH. }
    unfold formatIPv4, joinByte. cbn [map concat app]. by apply Hg. }
  rewrite Ef, parse_format_IPv4 by done. cbn [Z.eqb Pos.eqb mbind option_bind addrOfBytes length ipLen ipVal].
  change (Z.of_nat 4) with 4. cbn [ipLen ipVal].
  assert (Eb : be_bytes 4 (be_val [a; b; c; d]) = [a; b; c; d]) by (apply (be_bytes_be_val [a; b; c; d]); unfold bytes_ok; by rewrite !Forall_cons, Forall_nil).
  change (Z.to_nat 4) with 4%nat. rewrite Eb. done.
Qed.

Lemma atoi_itoa n : 0 <= n < 2 ^ 63 -> atoi (itoa n) = Ok n.
Proof.
  intros Hn. unfold itoa. replace (n <? 0) with false by lia.
  assert (E : parseDigits (2 ^ 63 - 1) 0 (dec n) = Ok n).
  { unfold dec. rewrite decAux_parse by lia. done. }
  pose proof (dec_digits n ltac:(lia)) as HF. unfold atoi. destruct (dec n) as [|x l] eqn:Ed.
  { exfalso. unfold dec in Ed. by apply decAux_nonnil in Ed. }
  apply Forall_cons in HF as [Hx _].
  destruct x as [|x|x]; [exact E| |exact E]. do 6 (destruct x as [x|x|]; try first [exact E | discriminate Hx]).
Qed.

(** A separator that the first part does not have. *)
Lemma sep_inj {A} (c : A) a1 b1 a2 b2 : c ∉ a1 -> c ∉ a2 -> a1 ++ c :: b1 = a2 ++ c :: b2 -> a1 = a2 /\ b1 = b2.
Proof.
  revert a2. induction a1 as [|x a1 IH]; intros [|y a2] H1 H2; cbn [app].
  - by intros [= ->].
  - intros [= <- _]. destruct H2. by left.
  - intros [= -> _]. destruct H1. by left.
  - intros [= -> E]. destruct (IH a2) as [-> ->]; [set_solver|set_solver|done|done].
Qed.

Lemma itoa_inj n m : 0 <= n -> 0 <= m -> itoa n = itoa m -> n = m.
Proof.
  intros Hn Hm. unfold itoa. rewrite !(proj2 (Z.ltb_ge _ _)) by done. intros E.
  assert (Hp : forall k, 0 <= k -> k < 2 ^ (Z.max n m + 1) -> parseUint (dec k) (Z.max n m + 1) = Ok k) by (intros; by apply parseUint_dec).
  assert (Hlt : Z.max n m < 2 ^ (Z.max n m + 1)).
  { pose proof (Z.pow_gt_lin_r 2 (Z.max n m + 1)). lia. }
  pose proof (Hp n Hn ltac:(lia)) as E1. pose proof (Hp m Hm ltac:(lia)) as E2. rewrite E in E1. congruence.
Qed.

(** A byte that is no digit. *)
Lemma itoa_no_byte c n : 0 <= n -> isDigit c = false -> c ∉ itoa n.
Proof.
  intros Hn Hc Hin. unfold itoa in Hin. rewrite (proj2 (Z.ltb_ge _ _)) in Hin by done.
  pose proof (dec_digits n Hn) as H. rewrite Forall_forall in H. specialize (H _ Hin). congruence.
Qed.

Lemma portOk_itoa n : 0 <= n -> portOk (itoa n).
Proof.
  intros Hn. unfold itoa. replace (n <? 0) with false by lia. pose proof (dec_digits n Hn) as HF. rewrite Forall_forall in HF.
  repeat split; intros Hin; by specialize (HF _ Hin).
Qed.

(** ** IPv6 *)

Definition is_group (g : Z) : Prop := 0 <= g < 65536.
Definition groupBytes (gs : list Z) : list Z := concat (map (fun g => [g / 256; g mod 256]) gs).
Definition groupsText (gs : list Z) : list Z := joinByte 58 (map hexGroupText gs).

(** What may follow a group. *)
Definition groupEnd (rest : list Z) : Prop := match rest with [] => True | c :: _ => c = 58 end.

Lemma hexGroup_digit d s acc n : 0 <= d < 16 -> (n <= 3)%nat -> hexGroup (hexDigit d :: s) acc n = hexGroup s (acc * 16 + d) (S n).
Proof.
  intros Hd Hn. cbn [hexGroup]. rewrite hexVal_hexDigit by done. destruct (Nat.ltb_spec 3 n); [lia|done].
Qed.

Lemma hexGroup_end rest acc n : groupEnd rest -> hexGroup rest acc n = Some (acc, n, rest).
Proof. destruct rest as [|c rest]; [done|]. by intros ->. Qed.

Lemma hexGroup_text g rest : is_group g -> groupEnd rest ->
  exists n, (0 < n)%nat /\ hexGroup (hexGroupText g ++ rest) 0 0 = Some (g, n, rest).
Proof.
  intros Hg Hr. unfold is_group in Hg. unfold hexGroupText.
  assert (HL : forall x, Z.land x 15 = x mod 16) by (intros x; apply (land_ones_mod x 4); lia).
  rewrite !HL, !Z.shiftr_div_pow2 by lia.
  change (2 ^ 12) with 4096. change (2 ^ 8) with 256. change (2 ^ 4) with 16.
  destruct (Z.ltb_spec 4095 g); [|destruct (Z.ltb_spec 255 g); [|destruct (Z.ltb_spec 15 g)]].
  - destruct (Z.ltb_spec 255 g), (Z.ltb_spec 15 g); try lia. cbn [app].
    rewrite !hexGroup_digit, hexGroup_end by (try done; try lia; Z.div_mod_to_equations; lia).
    eexists. split; [|repeat f_equal]; [lia|]. Z.div_mod_to_equations; lia.
  - destruct (Z.ltb_spec 15 g); [|lia]. cbn [app].
    rewrite !hexGroup_digit, hexGroup_end by (try done; try lia; Z.div_mod_to_equations; lia).
    eexists. split; [|repeat f_equal]; [lia|]. Z.div_mod_to_equations; lia.
  - cbn [app]. rewrite !hexGroup_digit, hexGroup_end by (try done; try lia; Z.div_mod_to_equations; lia).
    eexists. split; [|repeat f_equal]; [lia|]. Z.div_mod_to_equations; lia.
  - cbn [app]. rewrite !hexGroup_digit, hexGroup_end by (try done; try lia; Z.div_mod_to_equations; lia).
    eexists. split; [|repeat f_equal]; [lia|]. Z.div_mod_to_equations; lia.
Qed.

Lemma groupsText_cons g gs : groupsText (g :: gs) = hexGroupText g ++ concat (map (fun q => 58 :: q) (map hexGroupText gs)).
Proof. done. Qed.

Lemma groupsText_cons2 g g2 gs : groupsText (g :: g2 :: gs) = hexGroupText g ++ 58 :: groupsText (g2 :: gs).
Proof. done. Qed.

Lemma hexGroupText_cons g : is_group g -> exists d s, hexGroupText g = hexDigit d :: s /\ 0 <= d < 16.
Proof.
  intros Hg. unfold is_group in Hg. unfold hexGroupText.
  assert (HL : forall x, 0 <= Z.land x 15 < 16) by (intros x; change 15 with (2 ^ 4 - 1); rewrite (land_ones_mod x 4) by lia; apply Z.mod_pos_bound; lia).
  destruct (Z.ltb_spec 4095 g); [eexists _, _; split; [reflexivity|]; rewrite Z.shiftr_div_pow2 by lia; change (2 ^ 12) with 4096; Z.div_mod_to_equations; lia|].
  destruct (255 <? g); [by eexists _, _|]. destruct (15 <? g); by eexists _, _.
Qed.

Lemma hexDigit_no_sep d : 0 <= d < 16 -> hexDigit d <> 58 /\ hexDigit d <> 46 /\ hexDigit d <> 37 /\ hexDigit d <> 91 /\ hexDigit d <> 93 /\ hexDigit d <> 124.
Proof. intros Hd. destruct (hexDigit_lower d Hd) as [|]; lia. Qed.

Lemma groupBytes_cons g gs : groupBytes (g :: gs) = [g / 256; g mod 256] ++ groupBytes gs.
Proof. done. Qed.

Lemma length_groupBytes gs : length (groupBytes gs) = (2 * length gs)%nat.
Proof. induction gs as [|g gs IH]; [done|]. rewrite groupBytes_cons, length_app, IH. cbn. lia. Qed.

(** One group at the front, after which the loop looks at [rest]. *)
Lemma parse_group fuel g rest ip ell : is_group g -> groupEnd rest ->
  parseIPv6Loop (S fuel) (hexGroupText g ++ rest) ip ell =
    let ip := ip ++ [g / 256; g mod 256] in
    match rest with
    | [] => Some (ip, ell)
    | _ :: [] => None
    | _ :: 58 :: rest' =>
        match ell with
        | Some _ => None
        | None => if (length rest' =? 0)%nat then Some (ip, Some (length ip)) else parseIPv6Loop fuel rest' ip (Some (length ip))
        end
    | _ :: rest => parseIPv6Loop fuel rest ip ell
    end.
Proof.
  intros Hg Hr. cbn [parseIPv6Loop]. destruct (hexGroup_text g rest Hg Hr) as (n & Hn & ->). cbn [mbind option_bind].
  destruct (Nat.eqb_spec n 0); [lia|]. destruct rest as [|c rest]; [done|]. cbn in Hr. by subst c.
Qed.

(** Groups up to the end of the text. *)
Lemma parse_groups gs fuel ip ell : gs <> [] -> Forall is_group gs -> (length gs <= fuel)%nat ->
  parseIPv6Loop fuel (groupsText gs) ip ell = Some (ip ++ groupBytes gs, ell).
Proof.
  intros Hne Hall. revert fuel ip Hne. induction Hall as [|g gs Hg Hall IH]; intros fuel ip Hne Hf; [done|].
  destruct fuel as [|fuel]; [cbn in Hf; lia|]. destruct gs as [|g2 gs].
  - cbn [groupsText joinByte map concat]. rewrite parse_group by done. done.
  - rewrite groupsText_cons2, parse_group by done. cbn zeta.
    apply Forall_cons in Hall as Hg2. destruct Hg2 as [Hg2 _]. destruct (hexGroupText_cons g2 Hg2) as (d & s & Ht & Hd).
    assert (E : groupsText (g2 :: gs) = hexDigit d :: s ++ concat (map (fun q => 58 :: q) (map hexGroupText gs)))
      by (rewrite groupsText_cons, Ht; done).
    pose proof (hexDigit_no_sep d Hd) as (H58 & _).
    rewrite groupBytes_cons, app_assoc, <- (IH fuel) by (done || (cbn in *; lia)). rewrite E.
    destruct (hexDigit d) as [|p|p]; try done. do 6 (destruct p as [p|p|]; try done).
Qed.

(** Groups up to an ellipsis. *)
Lemma parse_groups_ell gs fuel ip rest : gs <> [] -> Forall is_group gs -> (length gs <= fuel)%nat ->
  parseIPv6Loop fuel (groupsText gs ++ 58 :: 58 :: rest) ip None =
    let ip := ip ++ groupBytes gs in
    if (length rest =? 0)%nat then Some (ip, Some (length ip)) else parseIPv6Loop (fuel - length gs) rest ip (Some (length ip)).
Proof.
  intros Hne Hall. revert fuel ip Hne. induction Hall as [|g gs Hg Hall IH]; intros fuel ip Hne Hf; [done|].
  destruct fuel as [|fuel]; [cbn in Hf; lia|]. destruct gs as [|g2 gs].
  - cbn [groupsText joinByte map concat app]. rewrite app_nil_r, parse_group by done. cbn [length Nat.sub]. by rewrite Nat.sub_0_r.
  - rewrite groupsText_cons2, <- app_assoc. cbn [app]. rewrite parse_group by done. cbn zeta.
    apply Forall_cons in Hall as Hg2. destruct Hg2 as [Hg2 _]. destruct (hexGroupText_cons g2 Hg2) as (d & s & Ht & Hd).
    pose proof (IH fuel (ip ++ [g / 256; g mod 256]) ltac:(done) ltac:(cbn in *; lia)) as IH'. cbn zeta in IH'.
    rewrite groupBytes_cons, app_assoc. cbn [length Nat.sub]. cbn [length] in IH'. rewrite <- IH'.
    rewrite groupsText_cons, Ht. cbn [app].
    pose proof (hexDigit_no_sep d Hd) as (H58 & _).
    destruct (hexDigit d) as [|p|p]; try done. do 6 (destruct p as [p|p|]; try done).
Qed.

(** ** The groups of an address and the run that is left out *)

Lemma groupsOf_ok bs : bytes_ok bs -> length bs = 16%nat ->
  Forall is_group (groupsOf bs) /\ length (groupsOf bs) = 8%nat /\ groupBytes (groupsOf bs) = bs.
Proof.
  intros Hb Hl. unfold groupsOf. do 16 (destruct bs as [|? bs]; [discriminate Hl|]). destruct bs; [|discriminate Hl].
  repeat (apply Forall_cons in Hb as [? Hb]). unfold is_u8 in *. cbn [seq map slice drop take Nat.mul Nat.add Nat.sub].
  unfold slice. cbn [seq map drop take Nat.mul Nat.add Nat.sub]. rewrite !be_val_cons. cbn [length Z.of_nat]. change (be_val []) with 0.
  change (256 ^ 1) with 256. change (256 ^ 0) with 1. change (256 ^ Z.pos (Pos.of_succ_nat 0)) with 256.
  split; [|split; [done|]].
  - repeat (apply Forall_cons; split; [unfold is_group; lia|]). constructor.
  - unfold groupBytes. cbn [map concat app]. repeat f_equal; Z.div_mod_to_equations; lia.
Qed.

Lemma zeroRun_zeros gs : (zeroRun gs <= length gs)%nat /\ take (zeroRun gs) gs = replicate (zeroRun gs) 0.
Proof.
  induction gs as [|g gs [IH1 IH2]]; [done|]. cbn [zeroRun]. destruct g; cbn [length take replicate]; [|split; [lia|done]..].
  split; [lia|by f_equal].
Qed.

(** The run that is left out consists of zeros. *)
Lemma longestRun_ok gs : length gs = 8%nat ->
  longestRun gs = (8, 8)%nat \/
  exists s e, longestRun gs = (s, e) /\ (s + 2 <= e <= 8)%nat /\ take (e - s) (drop s gs) = replicate (e - s) 0.
Proof.
  intros Hl. unfold longestRun.
  set (P := fun r : nat * nat => r = (8, 8)%nat \/
    exists s e, r = (s, e) /\ (s + 2 <= e <= 8)%nat /\ take (e - s) (drop s gs) = replicate (e - s) 0).
  enough (H : forall l r, P r -> P (foldl (fun '(s, e) i => let l := zeroRun (drop i gs) in
    if (2 <=? l)%nat && (e - s <? l)%nat then (i, i + l)%nat else (s, e)) r l)) by (apply H; by left).
  induction l as [|i l IH]; intros [s e] Hr; [done|]. cbn [foldl]. apply IH.
  destruct (zeroRun_zeros (drop i gs)) as [Hle Hz]. rewrite length_drop, Hl in Hle.
  destruct (Nat.leb_spec 2 (zeroRun (drop i gs))); cbn [andb]; [|done].
  destruct (e - s <? zeroRun (drop i gs))%nat; [|done]. right. exists i, (i + zeroRun (drop i gs))%nat.
  split; [done|]. split; [lia|]. by rewrite Nat.add_comm, Nat.add_sub.
Qed.

Lemma groupBytes_zeros n : groupBytes (replicate n 0) = zeros (2 * n).
Proof.
  unfold zeros. induction n as [|n IH]; [done|]. cbn [replicate]. rewrite groupBytes_cons, IH.
  replace (2 * S n)%nat with (S (S (2 * n))) by lia. done.
Qed.

Lemma groupBytes_app g1 g2 : groupBytes (g1 ++ g2) = groupBytes g1 ++ groupBytes g2.
Proof. unfold groupBytes. by rewrite map_app, concat_app. Qed.

(** ** The text of an IPv6 address *)

(** Its bytes are hexadecimal digits and colons. *)
Definition textByte (c : Z) : Prop := c = 58 \/ exists d, 0 <= d < 16 /\ c = hexDigit d.

Lemma hexGroupText_bytes g : is_group g -> Forall textByte (hexGroupText g).
Proof.
  intros Hg. unfold is_group in Hg. unfold hexGroupText.
  assert (HL : forall x, 0 <= Z.land x 15 < 16) by (intros x; change 15 with (2 ^ 4 - 1); rewrite (land_ones_mod x 4) by lia; apply Z.mod_pos_bound; lia).
  assert (H12 : 0 <= Z.shiftr g 12 < 16) by (rewrite Z.shiftr_div_pow2 by lia; change (2 ^ 12) with 4096; Z.div_mod_to_equations; lia).
  assert (Hd : forall d, 0 <= d < 16 -> Forall textByte [hexDigit d]) by (intros d Hd; apply Forall_singleton; right; by exists d).
  repeat apply Forall_app_2; first [by apply Hd | destruct (_ <? _); [by apply Hd|constructor]].
Qed.

Lemma groupsText_bytes gs : Forall is_group gs -> Forall textByte (groupsText gs).
Proof.
  intros Hall. destruct Hall as [|g gs Hg Hall]; [constructor|]. rewrite groupsText_cons.
  apply Forall_app_2; [by apply hexGroupText_bytes|]. induction Hall as [|g2 gs Hg2 _ IH]; [constructor|].
  cbn [map concat]. apply Forall_cons. split; [by left|]. apply Forall_app_2; [by apply hexGroupText_bytes|exact IH].
Qed.

Lemma formatIPv6_bytes bs : bytes_ok bs -> length bs = 16%nat -> Forall textByte (formatIPv6 bs).
Proof.
  intros Hb Hl. destruct (groupsOf_ok bs Hb Hl) as (Hg & _ & _). unfold formatIPv6.
  destruct (longestRun (groupsOf bs)) as [s e]. destruct (s =? 8)%nat; [by apply groupsText_bytes|].
  apply Forall_app_2; [by apply groupsText_bytes, Forall_take|]. apply Forall_cons. split; [by left|]. apply Forall_cons. split; [by left|].
  by apply groupsText_bytes, Forall_drop.
Qed.

Lemma textByte_no x : x <> 58 -> isDigit x = false -> (97 <= x <= 102 -> False) -> ~ textByte x.
Proof.
  intros Hne Hd Hl [->|(d & Hd1 & ->)]; [done|]. unfold isDigit in Hd. destruct (hexDigit_lower d Hd1); lia.
Qed.

Lemma formatIPv6_no_byte x bs : bytes_ok bs -> length bs = 16%nat ->
  x <> 58 -> isDigit x = false -> (97 <= x <= 102 -> False) -> x ∉ formatIPv6 bs.
Proof.
  intros Hb Hl Hne Hd Hlow Hin. pose proof (formatIPv6_bytes bs Hb Hl) as HF. rewrite Forall_forall in HF.
  by eapply textByte_no; [..|exact (HF x Hin)].
Qed.

(** Groups do not begin with a colon. *)
Lemma parseIPv6_groups gs rest :
  gs <> [] -> Forall is_group gs ->
  match groupsText gs ++ rest with
  | 58 :: 58 :: [] => Some ([], Some O)
  | 58 :: 58 :: s' => parseIPv6Loop 8 s' [] (Some O)
  | _ => parseIPv6Loop 8 (groupsText gs ++ rest) [] None
  end = parseIPv6Loop 8 (groupsText gs ++ rest) [] None.
Proof.
  intros Hne Hall. destruct Hall as [|g gs Hg Hall]; [done|]. rewrite groupsText_cons.
  destruct (hexGroupText_cons g Hg) as (d & s & -> & Hd). pose proof (hexDigit_no_sep d Hd) as (H58 & _). cbn [app].
  destruct (hexDigit d) as [|p|p]; try done. do 6 (destruct p as [p|p|]; try done).
Qed.

Lemma groupsText_nonempty gs : gs <> [] -> Forall is_group gs -> groupsText gs <> [].
Proof.
  intros Hne Hall. destruct Hall as [|g gs Hg _]; [done|]. rewrite groupsText_cons.
  by destruct (hexGroupText_cons g Hg) as (d & t & -> & _).
Qed.

Lemma parse_format_IPv6 bs : bytes_ok bs -> length bs = 16%nat -> parseIPv6 (formatIPv6 bs) = Some (bs, false).
Proof.
  intros Hb Hl. destruct (groupsOf_ok bs Hb Hl) as (Hg & Hg8 & Hbytes). unfold parseIPv6.
  assert (H37 : Forall (fun x => x <> 37) (formatIPv6 bs)).
  { eapply Forall_impl; [by apply formatIPv6_bytes|]. cbn. intros x Hx ->. revert Hx. apply textByte_no; [lia|done|lia]. }
  unfold cutByte. rewrite (indexByte_none _ _ H37). cbn [andb]. unfold formatIPv6.
  set (gs := groupsOf bs) in *. fold (groupsText gs). destruct (longestRun_ok gs Hg8) as [->|(s & e & -> & Hse & Hz)].
  - cbn [Nat.eqb]. assert (Hne : gs <> []) by (intros E; rewrite E in Hg8; discriminate).
    pose proof (parseIPv6_groups gs [] Hne Hg) as Hp. rewrite app_nil_r in Hp. rewrite Hp, parse_groups by (done || lia).
    cbn [mbind option_bind app]. rewrite Hbytes, Hl. done.
  - destruct (Nat.eqb_spec s 8); [lia|]. fold (groupsText (take s gs)) (groupsText (drop e gs)). cbn [app].
    assert (Hsplit : bs = groupBytes (take s gs) ++ zeros (2 * (e - s)) ++ groupBytes (drop e gs)).
    { rewrite <- Hbytes. rewrite <- (take_drop s gs) at 1. rewrite <- (take_drop (e - s) (drop s gs)).
      rewrite Hz, drop_drop, !groupBytes_app, groupBytes_zeros. by replace (s + (e - s))%nat with e by lia. }
    assert (L1 : length (groupBytes (take s gs)) = (2 * s)%nat) by (rewrite length_groupBytes, length_take; lia).
    assert (L2 : length (groupBytes (drop e gs)) = (2 * (8 - e))%nat) by (rewrite length_groupBytes, length_drop; lia).
    assert (Hfin : forall o, o = Some (groupBytes (take s gs) ++ groupBytes (drop e gs), Some (2 * s)%nat) ->
      ('(ip, ell) ← o; if (length ip <? 16)%nat then e0 ← ell; Some (take e0 ip ++ zeros (16 - length ip) ++ drop e0 ip, false)
        else match ell with Some _ => None | None => Some (ip, false) end) = Some (bs, false)).
    { intros o ->. cbn [mbind option_bind]. rewrite length_app, L1, L2.
      destruct (Nat.ltb_spec (2 * s + 2 * (8 - e)) 16); [|lia]. rewrite Hsplit at 1.
      rewrite <- L1, take_app_length, drop_app_length, L1. by replace (16 - (2 * s + 2 * (8 - e)))%nat with (2 * (e - s))%nat by lia. }
    apply Hfin. destruct (decide (s = 0%nat)) as [->|Hs0].
    + cbn [take]. change (groupsText [] ++ ?x) with x. change (groupBytes [] ++ ?x) with x.
      destruct (decide (drop e gs = [])) as [Ed|Ed]; [by rewrite Ed|].
      pose proof (parse_groups (drop e gs) 8 [] (Some 0%nat) Ed ltac:(by apply Forall_drop) ltac:(rewrite length_drop; lia)) as Hp.
      pose proof (groupsText_nonempty (drop e gs) Ed ltac:(by apply Forall_drop)) as Ht.
      destruct (groupsText (drop e gs)) as [|c t]; [done|]. exact Hp.
    + assert (Hne : take s gs <> []) by (intros E; apply (f_equal length) in E; rewrite length_take in E; cbn in E; lia).
      rewrite parseIPv6_groups by (try done; by apply Forall_take).
      rewrite parse_groups_ell by first [done|by apply Forall_take|rewrite length_take; lia]. cbn zeta. cbn [app].
      rewrite L1. destruct (decide (drop e gs = [])) as [Ed|Ed].
      { rewrite Ed. cbn [groupsText map joinByte length Nat.eqb]. change (groupBytes []) with (@nil Z). by rewrite app_nil_r. }
      destruct (Nat.eqb_spec (length (groupsText (drop e gs))) 0) as [E0|_].
      { apply nil_length_inv in E0. by apply groupsText_nonempty in E0; [|done|apply Forall_drop]. }
      rewrite parse_groups; [done|done|by apply Forall_drop|]. rewrite length_drop, length_take. lia.
Qed.

Lemma To4_IPv6 bs : length bs = 16%nat -> take 12 bs <> v4InV6Prefix -> To4 bs = None.
Proof. intros Hl Hne. unfold To4. rewrite Hl. cbn [Nat.eqb andb]. by rewrite bool_decide_eq_false_2. Qed.

Lemma ParseIP_IPv6 bs : bytes_ok bs -> length bs = 16%nat -> ParseIP (formatIPv6 bs) = Some bs.
Proof.
  intros Hb Hl. unfold ParseIP, ParseAddr.
  assert (Ef : List.find (fun c => (c =? 46) || (c =? 58) || (c =? 37)) (formatIPv6 bs) = Some 58).
  { pose proof (formatIPv6_bytes bs Hb Hl) as HF. assert (Hin : 58 ∈ formatIPv6 bs).
    { unfold formatIPv6. destruct (groupsOf_ok bs Hb Hl) as (_ & Hg8 & _). destruct (longestRun _) as [s e].
      destruct (s =? 8)%nat; [|set_solver]. destruct (groupsOf bs) as [|g1 [|g2 gs]]; [done..|].
      change (joinByte 58 (map hexGroupText (g1 :: g2 :: gs))) with (groupsText (g1 :: g2 :: gs)). rewrite groupsText_cons2. set_solver. }
    induction HF as [|c l Hc HF IH]; [by apply not_elem_of_nil in Hin|]. cbn [List.find].
    destruct Hc as [->|(d & Hd & ->)]; [done|]. pose proof (hexDigit_no_sep d Hd) as (H58 & H46 & H37 & _).
    destruct (Z.eqb_spec (hexDigit d) 46), (Z.eqb_spec (hexDigit d) 58), (Z.eqb_spec (hexDigit d) 37); try done. cbn [orb].
    apply IH. apply elem_of_cons in Hin as [E|Hin]; [by rewrite <- E in H58|done]. }
  rewrite Ef. cbn [Z.eqb Pos.eqb]. rewrite parse_format_IPv6 by done. cbn [mbind option_bind addrOfBytes ipLen ipVal].
  rewrite Nat2Z.id, be_bytes_be_val by done. by rewrite Hl.
Qed.

(** The text of an address of either family, as [IP.String] prints it, and what
    [ParseIP] makes of it: sixteen bytes that print alike. *)
Lemma ParseIP_ipString bs : bytes_ok bs -> length bs = 4%nat \/ length bs = 16%nat ->
  exists ip, ParseIP (ipString bs) = Some ip /\ length ip = 16%nat /\ ipString ip = ipString bs /\
    (To4 ip = To4 bs) /\ (length bs = 16%nat -> ip = bs).
Proof.
  intros Hb Hl. unfold ipString at 1. destruct (To4 bs) as [v4|] eqn:E4.
  - assert (exists a b c d, v4 = [a; b; c; d] /\ is_u8 a /\ is_u8 b /\ is_u8 c /\ is_u8 d /\ (bs = v4 \/ bs = v4InV6Prefix ++ v4))
      as (a & b & c & d & -> & Ha & Hbb & Hc & Hd & Hbs).
    { unfold To4 in E4. destruct (Nat.eqb_spec (length bs) 4) as [H4|H4].
      - injection E4 as <-. do 4 (destruct bs as [|? bs]; [discriminate H4|]). destruct bs; [|discriminate H4].
        repeat (apply Forall_cons in Hb as [? Hb]). do 4 eexists. do 5 (split; [assumption || done|]). by left.
      - destruct (Nat.eqb_spec (length bs) 16) as [H16|]; [|done]. cbn [andb] in E4. case_bool_decide as Hpre; [|done].
        injection E4 as <-. rewrite <- (take_drop 12 bs), Hpre in Hb, H16. apply Forall_app in Hb as [_ Hb].
        rewrite length_app in H16. destruct (drop 12 bs) as [|a [|b [|c [|d [|? l]]]]] eqn:Ed; try discriminate H16.
        repeat (apply Forall_cons in Hb as [? Hb]). exists a, b, c, d. do 5 (split; [assumption || done|]).
        right. by rewrite <- Hpre, <- Ed, take_drop. }
    exists (v4InV6Prefix ++ [a; b; c; d]). rewrite ParseIP_IPv4 by done. split_and!; try done.
    + unfold ipString. by rewrite E4.
    + intros H16. destruct Hbs as [->| ->]; [discriminate H16|done].
  - assert (H16 : length bs = 16%nat) by (destruct Hl as [H4|]; [|done]; unfold To4 in E4; by rewrite H4 in E4).
    exists bs. rewrite ParseIP_IPv6 by done. by split_and!.
Qed.

(** The text of an address has no brackets and no bar. *)
Lemma ipString_no_byte x bs : bytes_ok bs -> length bs = 4%nat \/ length bs = 16%nat ->
  isDigit x = false -> x <> 46 -> x <> 58 -> (97 <= x <= 102 -> False) -> x ∉ ipString bs.
Proof.
  intros Hb Hl Hd H46 H58 Hlow. unfold ipString. destruct (To4 bs) as [v4|] eqn:E4.
  - assert (Hv : length v4 = 4%nat /\ bytes_ok v4).
    { unfold To4 in E4. destruct (Nat.eqb_spec (length bs) 4); [by injection E4 as <-|].
      destruct (_ && _) eqn:E; [|done]. injection E4 as <-. apply andb_true_iff in E as [E%Nat.eqb_eq _].
      rewrite length_drop, E. split; [done|by apply Forall_drop]. }
    destruct Hv as [Hv4 Hv]. do 4 (destruct v4 as [|? v4]; [discriminate Hv4|]). destruct v4; [|discriminate Hv4].
    repeat (apply Forall_cons in Hv as [? Hv]). by apply IPv4_no_byte.
  - apply formatIPv6_no_byte; try done. destruct Hl as [H4|]; [|done]. unfold To4 in E4. by rewrite H4 in E4.
Qed.
