(* ===== verification/PingBatch.v ===== *)
(** * Measuring several outbounds at once ([src/libxray/xray/ping_batch.go])

    The outbounds of each configuration an item needs are found by a depth-first
    search over the tags they depend on, get names of their own and are merged
    into one server; workers then measure the items side by side.  The decoded
    outbound keeps the tag and the two dependency tags; reading a file, building
    an outbound, starting the server and measuring are the class [PingEnv]. *)

From stdpp Require Import base numbers list gmap strings.
From Stdlib Require Import ZArith Lia.
From S2P Require Import Prelude GoStrings GoNet.

(** [StreamSetting] and [SocketSettings] present with this [DialerProxy];
    [ProxySettings] present with this [Tag]; the rest of the outbound. *)
Record outbound := mkOutbound {
  obTag : list Z; obDialerProxy : option (list Z); obProxyTag : option (list Z); obBody : Z
}.
#[global] Instance rebuild_outbound : Rebuild outbound := fun o => mkOutbound (obTag o) (obDialerProxy o) (obProxyTag o) (obBody o).

Inductive pingError :=
  | ErrEmpty | ErrTooMany | ErrTimeout | ErrURL
  | ErrRead | ErrNoOutbounds
  | ErrDuplicateTag (t : list Z) | ErrTagNotFound (t : list Z)
  | ErrCycle (i : nat) | ErrDependsDuplicate (i : nat) (t : list Z) | ErrDependsMissing (i : nat) (t : list Z)
  | ErrBuild (i : nat)
  | ErrServer | ErrMeasure.

Record PingBatchItem := mkPingItem { piConfigPath : list Z; piOutboundTag : list Z }.
Record PingBatchResult := mkPingResult { prSuccess : bool; prDelay : Z; prError : option pingError }.

Definition PingDelayTimeout : Z := 11000.
Definition PingDelayError : Z := 10000.
Definition maxPingBatchConfigs : nat := 5.

Class PingEnv := {
  urlOk : list Z -> bool;                                      (* an absolute HTTP or HTTPS URL *)
  readOutbounds : list Z -> option (list outbound);            (* the file, decoded *)
  outboundBuild : outbound -> bool;
  startPingBatchServer : list outbound -> option unit;
  measureOutboundDelay : list Z -> Z * option pingError        (* by tag *)
}.

(** ** Tags *)

(** The first outbound of each tag, and the tags that come again. *)
Fixpoint tagTables (index : nat) (outbounds : list outbound) (tagIndexes : gmap (list Z) nat) (duplicateTags : gset (list Z)) :
    gmap (list Z) nat * gset (list Z) :=
  match outbounds with
  | [] => (tagIndexes, duplicateTags)
  | o :: rest =>
      if bool_decide (obTag o = []) then tagTables (S index) rest tagIndexes duplicateTags
      else
        match tagIndexes !! obTag o with
        | Some _ => tagTables (S index) rest tagIndexes (duplicateTags ∪ {[ obTag o ]})
        | None => tagTables (S index) rest (<[obTag o := index]> tagIndexes) duplicateTags
        end
  end.

Definition pingOutboundDependencyTags (o : outbound) : list (list Z) :=
  match obDialerProxy o with Some t => if bool_decide (t = []) then [] else [t] | None => [] end ++
  match obProxyTag o with Some t => if bool_decide (t = []) then [] else [t] | None => [] end.

(** ** The search *)
Inductive visitState := unvisited | visiting | visited.

Section Search.
Variables (outbounds : list outbound) (tagIndexes : gmap (list Z) nat) (duplicateTags : gset (list Z)).

Definition search : Type := list visitState * list nat.

(** The dependencies of one outbound, in order; [None] is a search out of fuel. *)
Fixpoint visitDeps (visit : nat -> search -> option (result pingError search)) (index : nat) (deps : list (list Z)) (st : search) :
    option (result pingError search) :=
  match deps with
  | [] => Some (Ok st)
  | t :: deps =>
      if bool_decide (t ∈ duplicateTags) then Some (Err (ErrDependsDuplicate index t))
      else
        match tagIndexes !! t with
        | None => Some (Err (ErrDependsMissing index t))
        | Some j =>
            match visit j st with
            | Some (Ok st) => visitDeps visit index deps st
            | r => r
            end
        end
  end.

Fixpoint visit (fuel : nat) (index : nat) (st : search) : option (result pingError search) :=
  match fuel with
  | O => None
  | S fuel =>
      match st.1 !! index, outbounds !! index with
      | Some visiting, _ => Some (Err (ErrCycle index))
      | Some visited, _ => Some (Ok st)
      | Some unvisited, Some o =>
          match visitDeps (visit fuel) index (pingOutboundDependencyTags o) (<[index := visiting]> st.1, st.2 ++ [index]) with
          | Some (Ok st) => Some (Ok (<[index := visited]> st.1, st.2))
          | r => r
          end
      | _, _ => None
      end
  end.

Definition collectPingOutboundDependencies (targetIndex : nat) : option (result pingError (list nat)) :=
  match visit (S (length outbounds)) targetIndex (replicate (length outbounds) unvisited, []) with
  | Some (Ok st) => Some (Ok st.2)
  | Some (Err e) => Some (Err e)
  | None => None
  end.

(** ** New names *)
Definition pingTag (itemIndex order : nat) : list Z :=
  str "__libxray_ping_" ++ itoa (Z.of_nat itemIndex) ++ 95 :: itoa (Z.of_nat order).

Definition namespacedTags (itemIndex : nat) (selected : list nat) : gmap nat (list Z) :=
  list_to_map (imap (fun order index => (index, pingTag itemIndex order)) selected).

(** [namespacedTags[tagIndexes[t]]]. *)
Definition renamed (names : gmap nat (list Z)) (t : list Z) : list Z := default [] (names !! default O (tagIndexes !! t)).

Definition renameRef (names : gmap nat (list Z)) (r : option (list Z)) : option (list Z) :=
  match r with Some t => if bool_decide (t = []) then Some t else Some (renamed names t) | None => None end.

Definition prepareOutbound (names : gmap nat (list Z)) (index : nat) (o : outbound) : outbound :=
  mkOutbound (default [] (names !! index)) (renameRef names (obDialerProxy o)) (renameRef names (obProxyTag o)) (obBody o).

Fixpoint prepareAll `{PingEnv} (names : gmap nat (list Z)) (selected : list nat) : result pingError (list outbound) :=
  match selected with
  | [] => Ok []
  | index :: selected =>
      match outbounds !! index with
      | None => Err (ErrBuild index)
      | Some o =>
          let o := prepareOutbound names index o in
          if negb (outboundBuild o) then Err (ErrBuild index)
          else try rest <- prepareAll names selected ;; Ok (o :: rest)
      end
  end.

Definition targetOf (requestedTag : list Z) : result pingError nat :=
  if negb (bool_decide (requestedTag = [])) then
    if bool_decide (requestedTag ∈ duplicateTags) then Err (ErrDuplicateTag requestedTag)
    else match tagIndexes !! requestedTag with Some i => Ok i | None => Err (ErrTagNotFound requestedTag) end
  else
    match tagIndexes !! str "proxy" with
    | Some i => if bool_decide (str "proxy" ∈ duplicateTags) then Err (ErrDuplicateTag (str "proxy")) else Ok i
    | None => Ok O
    end.
End Search.

Section Batch.
Context `{PingEnv}.

Definition preparePingOutbounds (outbounds : list outbound) (requestedTag : list Z) (itemIndex : nat) :
    option (result pingError (list outbound * list Z)) :=
  let '(tagIndexes, duplicateTags) := tagTables 0 outbounds ∅ ∅ in
  match targetOf tagIndexes duplicateTags requestedTag with
  | Err e => Some (Err e)
  | Ok targetIndex =>
      match collectPingOutboundDependencies outbounds tagIndexes duplicateTags targetIndex with
      | None => None
      | Some (Err e) => Some (Err e)
      | Some (Ok selected) =>
          let names := namespacedTags itemIndex selected in
          Some (try prepared <- prepareAll outbounds tagIndexes names selected ;;
                Ok (prepared, default [] (names !! targetIndex)))
      end
  end.

Definition readPingOutbounds (path : list Z) : result pingError (list outbound) :=
  if bool_decide (path = []) then Err ErrRead
  else match readOutbounds path with None => Err ErrRead | Some [] => Err ErrNoOutbounds | Some o => Ok o end.

Definition failedPingBatchResult (delay : Z) (e : pingError) : PingBatchResult :=
  mkPingResult false (if delay =? PingDelayTimeout then delay else PingDelayError) (Some e).

(** What a worker writes for an outbound. *)
Definition measured (tag : list Z) : PingBatchResult :=
  let '(delay, err) := measureOutboundDelay tag in
  match err with Some e => failedPingBatchResult delay e | None => mkPingResult true delay None end.

Definition validatePingBatchRequest (items : list PingBatchItem) (timeout : Z) (targetURL : list Z) : result pingError unit :=
  if (length items =? 0)%nat then Err ErrEmpty
  else if (maxPingBatchConfigs <? length items)%nat then Err ErrTooMany
  else if timeout <=? 0 then Err ErrTimeout
  else if negb (urlOk targetURL) then Err ErrURL
  else Ok tt.

(** One item: its outbounds and the tag to measure. *)
Definition prepareItem (index : nat) (item : PingBatchItem) : option (result pingError (list outbound * list Z)) :=
  match readPingOutbounds (piConfigPath item) with
  | Err e => Some (Err e)
  | Ok outbounds => preparePingOutbounds outbounds (piOutboundTag item) index
  end.

(** The loop over the items: results, the prepared items, the merged outbounds. *)
Definition zeroResult : PingBatchResult := mkPingResult false 0 None.

Fixpoint prepareItems (index : nat) (items : list PingBatchItem) :
    option (list PingBatchResult * list (nat * list Z) * list outbound) :=
  match items with
  | [] => Some ([], [], [])
  | item :: items =>
      p ← prepareItem index item;
      rest ← prepareItems (S index) items;
      let '(results, prepared, merged) := rest in
      match p with
      | Err e => Some (failedPingBatchResult PingDelayError e :: results, prepared, merged)
      | Ok (namespaced, tag) => Some (zeroResult :: results, (index, tag) :: prepared, namespaced ++ merged)
      end
  end.

(** ** The workers *)
Record workers := mkWorkers { wJobs : list (nat * list Z); wRunning : list (nat * list Z); wResults : list PingBatchResult }.

Inductive workerStep (workerCount : nat) : workers -> workers -> Prop :=
  | workerTakes job jobs running results :
      (length running < workerCount)%nat ->
      workerStep workerCount (mkWorkers (job :: jobs) running results) (mkWorkers jobs (job :: running) results)
  | workerEnds i tag r1 r2 jobs results :
      workerStep workerCount (mkWorkers jobs (r1 ++ (i, tag) :: r2) results)
        (mkWorkers jobs (r1 ++ r2) (<[i := measured tag]> results)).

(** [workers.Wait()] returns when all jobs were taken and have ended. *)
Definition workersDone (w : workers) : Prop := wJobs w = [] /\ wRunning w = [].

(** The results of [PingBatch] for a schedule of its workers. *)
Inductive PingBatch (items : list PingBatchItem) (timeout : Z) (targetURL : list Z) : result pingError (list PingBatchResult) -> Prop :=
  | pingInvalid e : validatePingBatchRequest items timeout targetURL = Err e -> PingBatch items timeout targetURL (Err e)
  | pingNone results merged :
      validatePingBatchRequest items timeout targetURL = Ok tt -> prepareItems 0 items = Some (results, [], merged) ->
      PingBatch items timeout targetURL (Ok results)
  | pingNoServer results prepared merged :
      validatePingBatchRequest items timeout targetURL = Ok tt -> prepareItems 0 items = Some (results, prepared, merged) ->
      prepared <> [] -> startPingBatchServer merged = None -> PingBatch items timeout targetURL (Err ErrServer)
  | pingMeasured results prepared merged w :
      validatePingBatchRequest items timeout targetURL = Ok tt -> prepareItems 0 items = Some (results, prepared, merged) ->
      prepared <> [] -> startPingBatchServer merged = Some tt ->
      rtc (workerStep (length prepared)) (mkWorkers prepared [] results) w -> workersDone w ->
      PingBatch items timeout targetURL (Ok (wResults w)).
End Batch.
