(* ===== verification/PingBatchThm.v ===== *)
(** * The search for dependencies and the new names are right

    The specification is a graph on the outbounds: a tag resolves to an outbound
    when exactly one has it, and an outbound depends on those its dependency tags
    resolve to.  [visit] keeps an invariant of the depth-first search. *)

From stdpp Require Import base numbers list gmap sets strings.
From Stdlib Require Import ZArith Lia.
From S2P Require Import Prelude GoStrings AllowedIPs NetIP GoNet GoNetThm PingBatch.

(** ** The tables of tags *)
Definition tagAt (outbounds : list outbound) (i : nat) (t : list Z) : Prop := t <> [] /\ obTag <$> outbounds !! i = Some t.

(** The specification: the one outbound of a tag. *)
Definition resolvesTo (outbounds : list outbound) (t : list Z) (i : nat) : Prop :=
  tagAt outbounds i t /\ forall j, tagAt outbounds j t -> j = i.

Record tables_ok (outbounds : list outbound) (idx : gmap (list Z) nat) (dup : gset (list Z)) : Prop := {
  tb_some : forall t i, idx !! t = Some i -> tagAt outbounds i t;
  tb_all : forall t i, tagAt outbounds i t -> is_Some (idx !! t);
  tb_dup : forall t, t ∈ dup -> exists i j, i <> j /\ tagAt outbounds i t /\ tagAt outbounds j t;
  tb_one : forall t i j, t ∉ dup -> tagAt outbounds i t -> tagAt outbounds j t -> i = j
}.

Lemma tagAt_snoc done_ o i t :
  tagAt (done_ ++ [o]) i t <-> tagAt done_ i t \/ (i = length done_ /\ obTag o = t /\ t <> []).
Proof.
  unfold tagAt. split.
  - intros [Ht Hi]. destruct (decide (i < length done_)%nat) as [Hl|Hl].
    + left. by rewrite lookup_app_l in Hi.
    + right. rewrite lookup_app_r in Hi by lia. destruct (i - length done_)%nat as [|n] eqn:e; [|done].
      cbn in Hi. injection Hi as <-. split; [lia|done].
  - intros [[Ht Hi]|(-> & <- & Ht)].
    + split; [done|]. destruct (done_ !! i) eqn:e; [|done]. by rewrite (lookup_app_l_Some _ _ _ _ e).
    + split; [done|]. by rewrite list_lookup_middle.
Qed.

Lemma tagTables_ok rest : forall done_ idx dup,
  tables_ok done_ idx dup ->
  let '(idx', dup') := tagTables (length done_) rest idx dup in tables_ok (done_ ++ rest) idx' dup'.
Proof.
  induction rest as [|o rest IH]; intros done_ idx dup Hok; cbn [tagTables]; [by rewrite app_nil_r|].
  replace (S (length done_)) with (length (done_ ++ [o])) by (rewrite length_app; cbn; lia).
  assert (Happ : done_ ++ o :: rest = (done_ ++ [o]) ++ rest) by by rewrite <- app_assoc.
  rewrite Happ. destruct Hok as [A B C D].
  case_bool_decide as Hnil; [|destruct (idx !! obTag o) as [i0|] eqn:e]; apply IH; split; intros *.
  all: rewrite ?tagAt_snoc.
  - intros Hi. left. by apply A.
  - intros [Hi|(_ & <- & ?)]; [by eapply B|done].
  - intros Ht. destruct (C _ Ht) as (a & b & n & Ha & Hb). exists a, b. rewrite !tagAt_snoc. auto.
  - intros Ht [Hi|(_ & <- & ?)] [Hj|(_ & ? & ?)]; subst; try done. by eapply D.
  - intros Hi. left. by apply A.
  - intros [Hi|(_ & <- & _)]; [by eapply B|by exists i0].
  - intros [Ht| ->%elem_of_singleton]%elem_of_union.
    + destruct (C _ Ht) as (a & b & n & Ha & Hb). exists a, b. rewrite !tagAt_snoc. auto.
    + exists i0, (length done_). assert (Hi0 := A _ _ e). rewrite !tagAt_snoc. split_and!; [|by left|by right].
      destruct Hi0 as [_ Hi0]. destruct (done_ !! i0) eqn:e0; [|done]. apply lookup_lt_Some in e0. lia.
  - intros Ht%not_elem_of_union. destruct Ht as [Ht1 Ht2].
    intros [Hi|(-> & <- & ?)] [Hj|(-> & Ho & ?)]; try done; try (by eapply D); set_solver.
  - intros [[<- <-]|[n Hi]]%lookup_insert_Some; [by right|left; by apply A].
  - intros [Hi|(_ & <- & _)].
    + destruct (decide (obTag o = t)) as [->|n]; [by rewrite lookup_insert_eq|]. rewrite lookup_insert_ne; [by eapply B|done].
    + by rewrite lookup_insert_eq.
  - intros Ht. destruct (C _ Ht) as (a & b & n & Ha & Hb). exists a, b. rewrite !tagAt_snoc. auto.
  - intros Ht [Hi|(-> & <- & ?)] [Hj|(-> & Ho & ?)]; [by eapply D| | |done].
    + subst t. destruct (B _ _ Hi) as [x Hx]. congruence.
    + destruct (B _ _ Hj) as [x Hx]. congruence.
Qed.

Lemma tagTables_tables outbounds :
  let '(idx, dup) := tagTables 0 outbounds ∅ ∅ in tables_ok outbounds idx dup.
Proof.
  apply (tagTables_ok outbounds [] ∅ ∅).
  split; intros *; unfold tagAt; [by rewrite lookup_empty|by intros [_ ?]|set_solver|by intros _ [_ ?]].
Qed.

Lemma tables_resolve outbounds idx dup :
  tables_ok outbounds idx dup -> forall t i, (t ∉ dup /\ idx !! t = Some i) <-> resolvesTo outbounds t i.
Proof.
  intros [A B C D] t i. split.
  - intros [Hd Hi]. split; [by apply A|]. intros j Hj. eapply D; [done|done|by apply A].
  - intros [Hi Hone]. destruct (B _ _ Hi) as [j Hj]. split.
    + intros (a & b & n & Ha & Hb)%C. apply Hone in Ha, Hb. congruence.
    + rewrite Hj. f_equal. by apply Hone, A.
Qed.

(** ** The search *)
Section Graph.
Variables (outbounds : list outbound) (idx : gmap (list Z) nat) (dup : gset (list Z)).
Hypothesis tabs : tables_ok outbounds idx dup.
#[local] Definition tables := tables_resolve outbounds idx dup tabs.

(** The outbound [i] depends on [j]; one of its dependencies resolves to none. *)
Definition dependsOn (i j : nat) : Prop :=
  exists o t, outbounds !! i = Some o /\ t ∈ pingOutboundDependencyTags o /\ resolvesTo outbounds t j.
Definition unresolved (i : nat) : Prop :=
  exists o t, outbounds !! i = Some o /\ t ∈ pingOutboundDependencyTags o /\ forall j, ~ resolvesTo outbounds t j.

Lemma resolvesTo_lt t i : resolvesTo outbounds t i -> (i < length outbounds)%nat.
Proof. intros [[_ Hi] _]. destruct (outbounds !! i) eqn:e; [|done]. by eapply lookup_lt_Some. Qed.

(** What an error of the search says of the outbounds. *)
Definition errorCause (e : pingError) (i : nat) : Prop :=
  match e with
  | ErrCycle k => k = i /\ tc dependsOn i i
  | ErrDependsDuplicate k t => k = i /\ (exists o, outbounds !! i = Some o /\ t ∈ pingOutboundDependencyTags o) /\
      exists a b, a <> b /\ tagAt outbounds a t /\ tagAt outbounds b t
  | ErrDependsMissing k t => k = i /\ (exists o, outbounds !! i = Some o /\ t ∈ pingOutboundDependencyTags o) /\
      forall a, ~ tagAt outbounds a t
  | _ => False
  end.

(** Everything in [l] but [index] comes after something that depends on it. *)
Definition afterParent (before : list nat) (index : nat) (l : list nat) : Prop :=
  forall q k, l !! q = Some k -> k = index \/ exists p, p ∈ before ++ take q l /\ dependsOn p k.

Record search_ok (st : search) : Prop := {
  so_len : length st.1 = length outbounds;
  so_nodup : NoDup st.2;
  so_sel : forall i, i ∈ st.2 <-> st.1 !! i = Some visiting \/ st.1 !! i = Some visited;
  so_closed : forall i, st.1 !! i = Some visited -> ~ unresolved i /\ forall j, dependsOn i j -> st.1 !! j = Some visited;
  so_acyclic : forall i, st.1 !! i = Some visited -> ~ tc dependsOn i i
}.

(** A visit that succeeds: the path is as before, what is new is reachable. *)
Record visit_ok (index : nat) (st st' : search) : Prop := {
  vo_ok : search_ok st';
  vo_visiting : forall i, st'.1 !! i = Some visiting <-> st.1 !! i = Some visiting;
  vo_visited : forall i, st.1 !! i = Some visited -> st'.1 !! i = Some visited;
  vo_new : exists l, st'.2 = st.2 ++ l /\ Forall (rtc dependsOn index) l /\ afterParent st.2 index l
}.

(** What an error of a visit means. *)
Definition visit_bad (e : pingError) (index : nat) : Prop := exists i, rtc dependsOn index i /\ errorCause e i.

#[local] Instance unvisited_dec (s : visitState) : Decision (s = unvisited).
Proof. destruct s; [by left|by right..]. Defined.

Definition whites (st : search) : nat := length (filter (fun s => s = unvisited) st.1).

Lemma visit_ok_refl index st : search_ok st -> visit_ok index st st.
Proof. intros Hok. split; [done..|]. exists []. by rewrite app_nil_r. Qed.

Lemma visit_ok_trans i j st st' st'' :
  dependsOn i j -> i ∈ st.2 -> visit_ok j st st' -> visit_ok i st' st'' -> visit_ok i st st''.
Proof.
  intros Hij Hi [A B C (l & Hl & HF & HP)] [A' B' C' (l' & Hl' & HF' & HP')]. split; [done| | |].
  - intros k. by rewrite B'.
  - auto.
  - exists (l ++ l'). rewrite Hl', Hl, app_assoc. split_and!; [done| |].
    + apply Forall_app. split; [|done]. eapply Forall_impl; [exact HF|]. intros k Hk. by eapply rtc_l.
    + intros q k. rewrite lookup_app_Some. intros [Hq|[Hle Hq]].
      * right. rewrite take_app_le by (apply lookup_lt_Some in Hq; lia). destruct (HP q k Hq) as [->|Hp]; [|done].
        exists i. split; [|done]. rewrite elem_of_app. by left.
      * destruct (HP' _ _ Hq) as [->|(p & Hp & Hd)]; [by left|right]. exists p. split; [|done].
        rewrite take_app_ge by done. rewrite Hl in Hp. by rewrite app_assoc.
Qed.

Lemma filter_insert_length (l : list visitState) i x y :
  l !! i = Some x ->
  (length (filter (fun s => s = unvisited) (<[i := y]> l)) + (if decide (x = unvisited) then 1 else 0) =
   length (filter (fun s => s = unvisited) l) + (if decide (y = unvisited) then 1 else 0))%nat.
Proof.
  revert i. induction l as [|z l IH]; intros [|i] Hi; try done.
  - injection Hi as ->. change (<[0%nat:=y]> (x :: l)) with (y :: l). rewrite !filter_cons. repeat case_decide; cbn [length]; lia.
  - change (<[S i:=y]> (z :: l)) with (z :: <[i:=y]> l). specialize (IH i Hi). rewrite !filter_cons.
    repeat case_decide; cbn [length]; lia.
Qed.

Lemma visited_closed st i j : search_ok st -> st.1 !! i = Some visited -> rtc dependsOn i j -> st.1 !! j = Some visited.
Proof. intros Hok Hi. induction 1 as [i|i k j Hik _ IH]; [done|]. by apply IH, (so_closed _ Hok i Hi). Qed.

(** The outbound becomes visiting. *)
Lemma enter_ok index st :
  search_ok st -> st.1 !! index = Some unvisited -> search_ok (<[index := visiting]> st.1, st.2 ++ [index]).
Proof.
  intros [A B C D F] Hw. assert (Hlt := lookup_lt_Some _ _ _ Hw).
  assert (Hv : forall i s, <[index := visiting]> st.1 !! i = Some s <-> (i = index /\ s = visiting) \/ (i <> index /\ st.1 !! i = Some s)).
  { intros i s. destruct (decide (i = index)) as [->|n].
    - rewrite list_lookup_insert_eq by done. naive_solver.
    - rewrite list_lookup_insert_ne by done. naive_solver. }
  assert (Hvis : forall i, <[index := visiting]> st.1 !! i = Some visited <-> st.1 !! i = Some visited).
  { intros i. rewrite Hv. split; [naive_solver|]. intros Hi. right. split; [|done]. congruence. }
  split; cbn [fst snd].
  - by rewrite length_insert.
  - apply NoDup_app. split; [done|]. split; [|apply NoDup_singleton].
    intros i Hi ->%list_elem_of_singleton. apply C in Hi. naive_solver.
  - intros i. rewrite elem_of_app, list_elem_of_singleton, C, Hvis, Hv. destruct (decide (i = index)); naive_solver.
  - intros i Hi%Hvis. destruct (D _ Hi) as [D1 D2]. split; [done|]. intros j Hj. by apply Hvis, D2.
  - intros i Hi%Hvis. by apply F.
Qed.

(** The outbound becomes visited when all it depends on are. *)
Lemma leave_ok index st :
  search_ok st -> st.1 !! index = Some visiting -> ~ unresolved index ->
  (forall j, dependsOn index j -> st.1 !! j = Some visited) -> search_ok (<[index := visited]> st.1, st.2).
Proof.
  intros Hok Hg Hres Hdeps. destruct Hok as [A B C D F] eqn:Hok'. clear Hok'. assert (Hlt := lookup_lt_Some _ _ _ Hg).
  assert (Hv : forall i s, <[index := visited]> st.1 !! i = Some s <-> (i = index /\ s = visited) \/ (i <> index /\ st.1 !! i = Some s)).
  { intros i s. destruct (decide (i = index)) as [->|n].
    - rewrite list_lookup_insert_eq by done. naive_solver.
    - rewrite list_lookup_insert_ne by done. naive_solver. }
  assert (Hkeep : forall i, st.1 !! i = Some visited -> <[index := visited]> st.1 !! i = Some visited).
  { intros i Hi. apply Hv. destruct (decide (i = index)); [by left|by right]. }
  split; cbn [fst snd]; [by rewrite length_insert|done| | |].
  - intros i. rewrite C, !Hv. destruct (decide (i = index)) as [->|n]; naive_solver.
  - intros i [[-> _]|[n Hi]]%Hv; [split; [done|]; intros j Hj; by apply Hkeep, Hdeps|].
    destruct (D _ Hi) as [D1 D2]. split; [done|]. intros j Hj. by apply Hkeep, D2.
  - intros i [[-> _]|[n Hi]]%Hv; [|by apply F].
    intros Hc. inversion Hc as [? j Hj|? j k Hj Hr]; subst.
    + apply Hdeps in Hj. congruence.
    + apply Hdeps in Hj. assert (st.1 !! index = Some visited); [|congruence].
      eapply visited_closed; [exact Hok|exact Hj|by apply tc_rtc].
Qed.

Definition visit_post (index : nat) (st : search) (r : option (result pingError search)) : Prop :=
  match r with
  | None => False
  | Some (Ok st') => visit_ok index st st' /\ st'.1 !! index = Some visited /\ (whites st' <= whites st)%nat
  | Some (Err e) => visit_bad e index
  end.

Lemma visit_bad_step e i j : rtc dependsOn i j -> visit_bad e j -> visit_bad e i.
Proof. intros Hij (k & Hk & Hb). exists k. split; [by etransitivity|done]. Qed.

(** The loop over the dependencies of an outbound that is being visited. *)
Lemma visitDeps_spec fuel index o deps : forall st,
  (forall j st, search_ok st -> (j < length outbounds)%nat -> (forall g, st.1 !! g = Some visiting -> tc dependsOn g j) ->
     (whites st < fuel)%nat -> visit_post j st (visit outbounds idx dup fuel j st)) ->
  outbounds !! index = Some o -> (forall t, t ∈ deps -> t ∈ pingOutboundDependencyTags o) ->
  search_ok st -> st.1 !! index = Some visiting ->
  (forall g, st.1 !! g = Some visiting -> g = index \/ tc dependsOn g index) -> (whites st < fuel)%nat ->
  match visitDeps idx dup (visit outbounds idx dup fuel) index deps st with
  | None => False
  | Some (Ok st') =>
      visit_ok index st st' /\ (whites st' <= whites st)%nat /\
      forall t, t ∈ deps -> exists j, resolvesTo outbounds t j /\ st'.1 !! j = Some visited
  | Some (Err e) => visit_bad e index
  end.
Proof.
  intros st Hvisit Ho. revert st. induction deps as [|t deps IH]; intros st Hin Hok Hg Hgray Hw; cbn [visitDeps].
  { split_and!; [by apply visit_ok_refl|done|]. intros t Ht. by apply elem_of_nil in Ht. }
  assert (Ht : t ∈ pingOutboundDependencyTags o) by (apply Hin; by left).
  case_bool_decide as Hdup.
  { exists index. split; [done|]. split_and!; [done|by exists o|by apply (tb_dup _ _ _ tabs)]. }
  destruct (idx !! t) as [j|] eqn:Hj.
  2: { exists index. split; [done|]. split_and!; [done|by exists o|]. intros j [x Hx]%(tb_all _ _ _ tabs). congruence. }
  assert (Hres : resolvesTo outbounds t j) by by apply tables.
  assert (Hij : dependsOn index j) by by exists o, t.
  pose proof (Hvisit j st Hok (resolvesTo_lt _ _ Hres)) as Hpost.
  assert (Hpre : forall g, st.1 !! g = Some visiting -> tc dependsOn g j).
  { intros g [->|Hc]%Hgray; [by apply tc_once|by eapply tc_r]. }
  specialize (Hpost Hpre Hw). destruct (visit outbounds idx dup fuel j st) as [[st'|e]|]; [| |done]; cbn [visit_post] in Hpost.
  2: { eapply visit_bad_step; [|exact Hpost]. by apply rtc_once. }
  destruct Hpost as (Hv & Hvj & Hw'). pose proof (IH st') as IH'.
  destruct (visitDeps _ _ _ _ _ _) as [[st''|e]|].
  - destruct IH' as (Hv' & Hw'' & Hall); [by intros t' Ht'; apply Hin; right|apply Hv|by apply Hv| |lia|].
    { intros g Hg'. apply Hgray. by apply Hv. }
    split_and!; [eapply visit_ok_trans; [exact Hij|apply (so_sel _ Hok); by left|done|done]|lia|].
    intros t' [->|Ht']%elem_of_cons; [|by apply Hall]. exists j. split; [done|]. by apply (vo_visited _ _ _ Hv').
  - apply IH'; [by intros t' Ht'; apply Hin; right|apply Hv|by apply Hv| |lia]. intros g Hg'. apply Hgray. by apply Hv.
  - apply IH'; [by intros t' Ht'; apply Hin; right|apply Hv|by apply Hv| |lia]. intros g Hg'. apply Hgray. by apply Hv.
Qed.

Lemma whites_enter st i l : st.1 !! i = Some unvisited -> S (whites (<[i := visiting]> st.1, l)) = whites st.
Proof.
  intros Hi. pose proof (filter_insert_length _ _ _ visiting Hi) as H. rewrite decide_True, decide_False in H by done.
  unfold whites. cbn [fst]. lia.
Qed.

Lemma whites_leave st i l : st.1 !! i = Some visiting -> whites (<[i := visited]> st.1, l) = whites st.
Proof.
  intros Hi. pose proof (filter_insert_length _ _ _ visited Hi) as H. rewrite !decide_False in H by done.
  unfold whites. cbn [fst]. lia.
Qed.

Lemma visit_spec fuel : forall index st,
  search_ok st -> (index < length outbounds)%nat -> (forall g, st.1 !! g = Some visiting -> tc dependsOn g index) ->
  (whites st < fuel)%nat -> visit_post index st (visit outbounds idx dup fuel index st).
Proof.
  induction fuel as [|fuel IH]; intros index st Hok Hlt Hgray Hw; [lia|]. cbn [visit].
  destruct (lookup_lt_is_Some_2 _ _ Hlt) as [o Ho].
  destruct (lookup_lt_is_Some_2 st.1 index) as [s Hs]; [by rewrite (so_len _ Hok)|]. rewrite Hs, Ho.
  destruct s; cbn [visit_post].
  - pose proof (whites_enter st index (st.2 ++ [index]) Hs) as Hw1.
    assert (Hg1 : <[index := visiting]> st.1 !! index = Some visiting) by (apply list_lookup_insert_eq; by rewrite (so_len _ Hok)).
    pose proof (visitDeps_spec fuel index o (pingOutboundDependencyTags o) (<[index := visiting]> st.1, st.2 ++ [index]) IH Ho
                  (fun t Ht => Ht) (enter_ok _ _ Hok Hs) Hg1) as Hdeps.
    assert (Hpath : forall g, <[index := visiting]> st.1 !! g = Some visiting -> g = index \/ tc dependsOn g index).
    { intros g Hg. destruct (decide (g = index)) as [|n]; [by left|right]. rewrite list_lookup_insert_ne in Hg by done. by apply Hgray. }
    specialize (Hdeps Hpath ltac:(lia)). destruct (visitDeps _ _ _ _ _ _) as [[st'|e]|]; cbn [visit_post]; [|done..].
    + destruct Hdeps as (Hv & Hw' & Hall). destruct Hv as [Hok' Hvis Hvd (l & Hl & HF & HP)]. cbn [fst snd] in *.
      assert (Hg' : st'.1 !! index = Some visiting) by by apply Hvis.
      pose proof (whites_leave st' index st'.2 Hg') as Hw2.
      assert (Hend : search_ok (<[index := visited]> st'.1, st'.2)).
      { apply leave_ok; [done|done| |].
        - intros (o' & t & Ho' & Ht & Hno). rewrite Ho in Ho'. injection Ho' as <-. destruct (Hall t Ht) as (j & Hj & _). by apply (Hno j).
        - intros j (o' & t & Ho' & Ht & Hr). rewrite Ho in Ho'. injection Ho' as <-. destruct (Hall t Ht) as (j' & Hj & Hjv).
          by rewrite (proj2 Hj j (proj1 Hr)) || rewrite <- (proj2 Hr j' (proj1 Hj)). }
      split_and!; [split; cbn [fst snd]; [done| | |]| |lia].
      * intros i. destruct (decide (i = index)) as [->|n].
        -- rewrite list_lookup_insert_eq by (by rewrite (so_len _ Hok')). split; [done|congruence].
        -- rewrite list_lookup_insert_ne by done. rewrite Hvis. by rewrite list_lookup_insert_ne.
      * intros i Hi. assert (i <> index) by congruence. rewrite list_lookup_insert_ne by done. apply Hvd.
        by rewrite list_lookup_insert_ne.
      * exists (index :: l). rewrite Hl, <- app_assoc. split_and!; [done|by constructor|]. intros [|q] k Hq; [left; by injection Hq|].
        destruct (HP q k Hq) as [->|(p & Hp & Hd)]; [by left|right]. exists p. split; [|done]. by rewrite <- app_assoc in Hp.
      * apply list_lookup_insert_eq. by rewrite (so_len _ Hok').
  - exists index. split; [done|]. split; [done|]. by apply Hgray.
  - split_and!; [by apply visit_ok_refl|done|done].
Qed.

(** What the collection of the dependencies of [target] gives. *)
Definition collected (target : nat) (r : option (result pingError (list nat))) : Prop :=
  match r with
  | None => False
  | Some (Ok selected) =>
      NoDup selected /\ (forall i, i ∈ selected <-> rtc dependsOn target i) /\
      (forall i, i ∈ selected -> ~ unresolved i /\ ~ tc dependsOn i i) /\
      selected !! O = Some target /\ (forall q k, selected !! S q = Some k -> exists p, p ∈ take (S q) selected /\ dependsOn p k)
  | Some (Err e) => visit_bad e target
  end.

Lemma collect_spec target :
  (target < length outbounds)%nat -> collected target (collectPingOutboundDependencies outbounds idx dup target).
Proof.
  intros Hlt. unfold collectPingOutboundDependencies. set (st0 := (replicate (length outbounds) unvisited, []) : search).
  assert (H0 : forall i s, st0.1 !! i = Some s -> s = unvisited) by (intros i s Hi; by apply lookup_replicate in Hi as [-> _]).
  assert (Hok : search_ok st0).
  { split; cbn; [apply length_replicate|constructor|..].
    - intros i. rewrite elem_of_nil. split; [done|]. by intros [Hi|Hi]; apply H0 in Hi.
    - intros i Hi. by apply H0 in Hi.
    - intros i Hi. by apply H0 in Hi. }
  pose proof (visit_spec (S (length outbounds)) target st0 Hok Hlt) as H.
  destruct (visit _ _ _ _ target st0) as [[st|e]|].
  2, 3: apply H; [intros g Hg; by apply H0 in Hg|].
  2, 3: assert (Hle := length_filter (fun s => s = unvisited) st0.1); unfold whites; cbn in Hle |- *; rewrite length_replicate in Hle; lia.
  destruct H as ([Hok' Hvis Hvd (l & Hl & HF & HP)] & Ht & _); [intros g Hg; by apply H0 in Hg| |].
  { assert (Hle := length_filter (fun s => s = unvisited) st0.1). unfold whites. cbn in Hle |- *. rewrite length_replicate in Hle. lia. }
  assert (Hsel : forall i, i ∈ st.2 <-> st.1 !! i = Some visited).
  { intros i. rewrite (so_sel _ Hok'). split; [|by right]. intros [Hi|Hi]; [|done]. apply Hvis, H0 in Hi. done. }
  assert (Hfirst : st.2 !! O = Some target).
  { assert (Hin : target ∈ st.2) by by apply Hsel. cbn in Hl. rewrite Hl in *. destruct l as [|k l]; [by apply elem_of_nil in Hin|].
    destruct (HP O k eq_refl) as [->|(p & Hp & _)]; [done|]. by apply elem_of_nil in Hp. }
  cbn [collected]. split_and!; [apply Hok'| | |done|].
  - intros i. split.
    + rewrite Hl. cbn. intros Hi. rewrite Forall_forall in HF. by apply HF.
    + intros Hr. apply Hsel. by eapply visited_closed.
  - intros i Hi%Hsel. split; [by apply (so_closed _ Hok')|by apply (so_acyclic _ Hok')].
  - intros q k Hq. cbn in Hl. rewrite Hl in Hq. destruct (HP _ _ Hq) as [->|Hp]; [|by rewrite Hl].
    rewrite <- Hl in Hq. by pose proof (NoDup_lookup _ _ _ _ (so_nodup _ Hok') Hfirst Hq).
Qed.
End Graph.

(** ** New names *)
Lemma pingTag_inj i o i' o' : pingTag i o = pingTag i' o' -> i = i' /\ o = o'.
Proof.
  unfold pingTag. intros E%(inj (app _)).
  apply sep_inj in E as [E1 E2]; [|apply itoa_no_byte; [lia|done]..]. apply itoa_inj in E1, E2; lia.
Qed.

Lemma pingTag_nonempty i o : pingTag i o <> [].
Proof. done. Qed.

Lemma namespacedTags_lookup item selected i t :
  NoDup selected -> namespacedTags item selected !! i = Some t <-> exists o, selected !! o = Some i /\ t = pingTag item o.
Proof.
  intros Hnd. unfold namespacedTags. rewrite <- elem_of_list_to_map.
  - rewrite elem_of_lookup_imap. naive_solver.
  - rewrite fmap_imap. change (NoDup (imap (const (@id nat)) selected)). by rewrite imap_const, list_fmap_id.
Qed.

(** The reference [t] of an old outbound and [t'] of a new one name the same outbound. *)
Definition sameTarget (outbounds : list outbound) (item : nat) (selected : list nat) (t t' : list Z) : Prop :=
  exists j o, resolvesTo outbounds t j /\ selected !! o = Some j /\ t' = pingTag item o.

Section Rename.
Context `{PE : PingEnv}.
Variables (outbounds : list outbound) (idx : gmap (list Z) nat) (dup : gset (list Z)) (item : nat) (selected : list nat).
Hypothesis tables : forall t i, (t ∉ dup /\ idx !! t = Some i) <-> resolvesTo outbounds t i.
Hypothesis selected_nodup : NoDup selected.
Hypothesis selected_closed : forall i, i ∈ selected -> ~ unresolved outbounds i /\ forall j, dependsOn outbounds i j -> j ∈ selected.

Abbreviation names := (namespacedTags item selected).

(** A dependency tag of a selected outbound gets the name of what it resolves to. *)
Lemma renamed_target i o t :
  i ∈ selected -> outbounds !! i = Some o -> t ∈ pingOutboundDependencyTags o -> sameTarget outbounds item selected t (renamed idx names t).
Proof.
  intros Hi Ho Ht. destruct (selected_closed i Hi) as [Hres Hdep].
  destruct (decide (t ∈ dup)) as [Hd|Hd].
  { destruct Hres. exists o, t. split_and!; [done|done|]. by intros j [? _]%tables. }
  destruct (idx !! t) as [j|] eqn:Hj.
  2: { destruct Hres. exists o, t. split_and!; [done|done|]. intros j [_ Hj']%tables. congruence. }
  assert (Hr : resolvesTo outbounds t j) by by apply tables.
  assert (Hjs : j ∈ selected) by by (apply Hdep; exists o, t).
  apply list_elem_of_lookup in Hjs as [p Hp]. exists j, p. split_and!; [done|done|].
  unfold renamed. rewrite Hj. cbn. by rewrite (proj2 (namespacedTags_lookup item selected j (pingTag item p) selected_nodup) (ex_intro _ p (conj Hp eq_refl))).
Qed.

Lemma renameRef_deps names' r :
  (forall t, r = Some t -> t <> [] -> renamed idx names' t <> []) ->
  match renameRef idx names' r with Some t => if bool_decide (t = []) then [] else [t] | None => [] end =
  map (renamed idx names') (match r with Some t => if bool_decide (t = []) then [] else [t] | None => [] end).
Proof.
  intros Hne. destruct r as [t|]; [|done]. cbn. case_bool_decide as Ht; [by rewrite bool_decide_true|].
  cbn. rewrite bool_decide_false; [done|by apply Hne].
Qed.

Lemma prepareOutbound_deps i o :
  i ∈ selected -> outbounds !! i = Some o ->
  Forall2 (sameTarget outbounds item selected) (pingOutboundDependencyTags o)
    (pingOutboundDependencyTags (prepareOutbound idx names i o)).
Proof.
  intros Hi Ho.
  assert (Hall : forall t, t ∈ pingOutboundDependencyTags o -> sameTarget outbounds item selected t (renamed idx names t)).
  { intros t. by apply (renamed_target i). }
  assert (Hne : forall t, t ∈ pingOutboundDependencyTags o -> renamed idx names t <> []).
  { intros t Ht. destruct (Hall t Ht) as (j & p & _ & _ & ->). apply pingTag_nonempty. }
  replace (pingOutboundDependencyTags (prepareOutbound idx names i o)) with (map (renamed idx names) (pingOutboundDependencyTags o)).
  - apply Forall2_fmap_r. apply Forall_Forall2_diag. by apply Forall_forall.
  - unfold pingOutboundDependencyTags in *. rewrite map_app. cbn [prepareOutbound obDialerProxy obProxyTag].
    rewrite !renameRef_deps; [done|..]; intros t Ht Hn; apply Hne; rewrite Ht, bool_decide_false by done; set_solver.
Qed.

(** The prepared outbounds are copies of the selected ones under new names. *)
Definition copyOf (prepared : list outbound) : Prop :=
  length prepared = length selected /\
  forall p i o, selected !! p = Some i -> outbounds !! i = Some o -> exists o',
    prepared !! p = Some o' /\ obTag o' = pingTag item p /\ obBody o' = obBody o /\
    Forall2 (sameTarget outbounds item selected) (pingOutboundDependencyTags o) (pingOutboundDependencyTags o').

Lemma prepareAll_pointwise names' sel prepared :
  prepareAll outbounds idx names' sel = Ok prepared ->
  Forall2 (fun i o' => exists o, outbounds !! i = Some o /\ o' = prepareOutbound idx names' i o) sel prepared.
Proof.
  revert prepared. induction sel as [|i sel IH]; intros prepared; cbn [prepareAll]; [by intros [= <-]|].
  destruct (outbounds !! i) as [o|] eqn:Ho; [|done]. destruct (outboundBuild _); [|done]. cbn [negb].
  destruct (prepareAll _ _ _ sel) as [rest|e]; [|done]. intros [= <-]. constructor; [by exists o|by apply IH].
Qed.

Lemma prepareAll_copy prepared : prepareAll outbounds idx names selected = Ok prepared -> copyOf prepared.
Proof.
  intros Hp%prepareAll_pointwise. split; [symmetry; by eapply Forall2_length|].
  intros p i o Hi Ho. destruct (Forall2_lookup_l _ _ _ _ _ Hp Hi) as (o' & Ho' & o'' & Ho'' & ->).
  rewrite Ho in Ho''. injection Ho'' as <-. eexists. split_and!; [exact Ho'| |done|].
  - cbn. by rewrite (proj2 (namespacedTags_lookup item selected i (pingTag item p) selected_nodup) (ex_intro _ p (conj Hi eq_refl))).
  - apply prepareOutbound_deps; [by eapply list_elem_of_lookup_2|done].
Qed.

Lemma copyOf_tags prepared :
  (forall i, i ∈ selected -> (i < length outbounds)%nat) -> copyOf prepared -> map obTag prepared = map (pingTag item) (seq 0 (length selected)).
Proof.
  intros Hlt [Hlen Hc]. apply list_eq. intros p. rewrite !list_lookup_fmap.
  destruct (selected !! p) as [i|] eqn:Hi.
  - destruct (lookup_lt_is_Some_2 outbounds i) as [o Ho]; [apply Hlt; by eapply list_elem_of_lookup_2|].
    destruct (Hc p i o Hi Ho) as (o' & Ho' & Ht & _). rewrite Ho'. cbn.
    rewrite lookup_seq_lt by (by eapply lookup_lt_Some). cbn. by f_equal.
  - apply lookup_ge_None in Hi. rewrite !(proj2 (lookup_ge_None _ _)); [done|by rewrite length_seq|lia].
Qed.
End Rename.

(** ** One item *)
Section Items.
Context `{PE : PingEnv}.

(** C24: the search for what an outbound depends on ends and is right.  When it
    succeeds it gives each outbound that can be reached over dependency tags once,
    the target first and every other after one that depends on it; then every such
    tag is the tag of exactly one outbound and there is no cycle.  When it fails
    its error is true of an outbound that can be reached: a cycle is reported for
    one that lies on a cycle, a duplicate for a dependency tag that two outbounds
    have, a missing one for a dependency tag that no outbound has. *)
Theorem dependencies_collected outbounds target :
  (target < length outbounds)%nat ->
  let '(idx, dup) := tagTables 0 outbounds ∅ ∅ in
  collected outbounds target (collectPingOutboundDependencies outbounds idx dup target).
Proof.
  intros Hlt. pose proof (tagTables_tables outbounds) as Ht. destruct (tagTables 0 outbounds ∅ ∅) as [idx dup].
  by apply collect_spec.
Qed.

(** The outbound an item measures: the one of the requested tag; without one, the
    one of the tag [proxy], or the first when there is none. *)
Definition wanted (outbounds : list outbound) (tag : list Z) (target : nat) : Prop :=
  if bool_decide (tag = [])
  then resolvesTo outbounds (str "proxy") target \/ (forall i, ~ tagAt outbounds i (str "proxy")) /\ target = O
  else resolvesTo outbounds tag target.

Lemma targetOf_wanted outbounds idx dup tag target :
  tables_ok outbounds idx dup -> targetOf idx dup tag = Ok target -> wanted outbounds tag target.
Proof.
  intros Ht. unfold targetOf, wanted. case_bool_decide; cbn [negb].
  - destruct (idx !! str "proxy") as [j|] eqn:Hj.
    + case_bool_decide as Hd; [done|]. intros [= <-]. left. by apply (tables_resolve _ _ _ Ht).
    + intros [= <-]. right. split; [|done]. intros i [x Hx]%(tb_all _ _ _ Ht). congruence.
  - case_bool_decide as Hd; [done|]. destruct (idx !! tag) as [j|] eqn:Hj; [|done]. intros [= <-].
    by apply (tables_resolve _ _ _ Ht).
Qed.

Lemma wanted_lt outbounds tag target : outbounds <> [] -> wanted outbounds tag target -> (target < length outbounds)%nat.
Proof.
  intros Hne. unfold wanted. case_bool_decide; [intros [Hr|[_ ->]]|intros Hr]; [by eapply resolvesTo_lt| |by eapply resolvesTo_lt].
  destruct outbounds; [done|cbn; lia].
Qed.

(** An item's outbounds are copies of what its outbound reaches. *)
Definition copied (outbounds : list outbound) (requestedTag : list Z) (item : nat) (prepared : list outbound) (tag : list Z) : Prop :=
  exists target selected, wanted outbounds requestedTag target /\ selected !! O = Some target /\ tag = pingTag item 0 /\
    NoDup selected /\ (forall i, i ∈ selected <-> rtc (dependsOn outbounds) target i) /\ copyOf outbounds item selected prepared.

(** What an item's outbounds are: named after the item, closed, with the target. *)
Record item_ok (item : nat) (prepared : list outbound) (tag : list Z) : Prop := {
  it_tags : exists n, map obTag prepared = map (pingTag item) (seq 0 n);
  it_closed : forall o t, o ∈ prepared -> t ∈ pingOutboundDependencyTags o -> t ∈ map obTag prepared;
  it_target : tag ∈ map obTag prepared
}.

Lemma copyOf_closed outbounds item selected prepared :
  (forall i, i ∈ selected -> (i < length outbounds)%nat) -> copyOf outbounds item selected prepared ->
  forall o' t, o' ∈ prepared -> t ∈ pingOutboundDependencyTags o' -> t ∈ map obTag prepared.
Proof.
  intros Hlt Hcopy o' t Ho' Ht. rewrite (copyOf_tags _ _ _ _ Hlt Hcopy). destruct Hcopy as [Hlen Hc].
  apply list_elem_of_lookup in Ho' as [p Hp].
  destruct (lookup_lt_is_Some_2 selected p) as [i Hi]; [rewrite <- Hlen; by eapply lookup_lt_Some|].
  destruct (lookup_lt_is_Some_2 outbounds i) as [o Ho]; [apply Hlt; by eapply list_elem_of_lookup_2|].
  destruct (Hc p i o Hi Ho) as (o'' & Ho'' & _ & _ & Hdeps). rewrite Hp in Ho''. injection Ho'' as <-.
  apply list_elem_of_lookup in Ht as [q Hq]. destruct (Forall2_lookup_r _ _ _ _ _ Hdeps Hq) as (t0 & _ & j & r & _ & Hr & ->).
  apply list_elem_of_fmap. exists r. split; [done|]. apply elem_of_seq. apply lookup_lt_Some in Hr. lia.
Qed.

Lemma preparePingOutbounds_ok outbounds tag item :
  outbounds <> [] ->
  match preparePingOutbounds outbounds tag item with
  | None => False
  | Some (Err _) => True
  | Some (Ok (prepared, newTag)) => item_ok item prepared newTag /\ copied outbounds tag item prepared newTag
  end.
Proof.
  intros Hne. unfold preparePingOutbounds. pose proof (tagTables_tables outbounds) as Htab.
  destruct (tagTables 0 outbounds ∅ ∅) as [idx dup]. pose proof (tables_resolve _ _ _ Htab) as Ht.
  destruct (targetOf idx dup tag) as [target|e] eqn:Htg; [|done]. apply (targetOf_wanted _ _ _ _ _ Htab) in Htg.
  pose proof (wanted_lt _ _ _ Hne Htg) as Hlt. pose proof (collect_spec outbounds idx dup Htab target Hlt) as Hcol.
  destruct (collectPingOutboundDependencies outbounds idx dup target) as [[selected|e]|]; [|done|done].
  destruct Hcol as (Hnd & Hreach & Hgood & Hfirst & _). cbv zeta.
  destruct (prepareAll _ _ _ _) as [prepared|e] eqn:Hp; [cbn|done].
  assert (Hclosed : forall i, i ∈ selected -> ~ unresolved outbounds i /\ forall j, dependsOn outbounds i j -> j ∈ selected).
  { intros i Hi. split; [by apply Hgood|]. intros j Hj. apply Hreach. apply Hreach in Hi. by eapply rtc_r. }
  assert (Hin : forall i, i ∈ selected -> (i < length outbounds)%nat).
  { intros i [<-|(k & _ & o & t & _ & _ & Hr)]%Hreach%rtc_inv_r; [done|by eapply resolvesTo_lt]. }
  pose proof (prepareAll_copy outbounds idx dup item selected Ht Hnd Hclosed prepared Hp) as Hcopy.
  pose proof (copyOf_tags _ _ _ _ Hin Hcopy) as Htags.
  assert (Htag : default [] (namespacedTags item selected !! target) = pingTag item 0)
    by (by rewrite (proj2 (namespacedTags_lookup item selected target (pingTag item 0) Hnd) (ex_intro _ O (conj Hfirst eq_refl)))).
  split; [split; [by eexists|by eapply copyOf_closed|]|by exists target, selected; split_and!].
  rewrite Htag, Htags. apply list_elem_of_fmap. exists O. split; [done|]. apply elem_of_seq. apply lookup_lt_Some in Hfirst. lia.
Qed.

Lemma prepareItem_ok index it :
  match prepareItem index it with
  | None => False
  | Some (Err _) => True
  | Some (Ok (prepared, newTag)) => item_ok index prepared newTag /\
      exists outbounds, readPingOutbounds (piConfigPath it) = Ok outbounds /\ copied outbounds (piOutboundTag it) index prepared newTag
  end.
Proof.
  unfold prepareItem, readPingOutbounds. case_bool_decide; [done|]. destruct (readOutbounds _) as [[|o os]|]; [done| |done].
  pose proof (preparePingOutbounds_ok (o :: os) (piOutboundTag it) index) as Hpre.
  destruct (preparePingOutbounds _ _ _) as [[[pre tag]|e]|]; [|done|by apply Hpre]. destruct Hpre as [Hpre1 Hpre2]; [done|]. split; [done|by eexists].
Qed.

(** ** All items *)
Record batch_ok (index : nat) (items : list PingBatchItem) (results : list PingBatchResult) (prepared : list (nat * list Z)) (merged : list outbound) :
    Prop := {
  bt_tags : forall t, t ∈ map obTag merged -> exists i o, t = pingTag i o /\ (index <= i)%nat;
  bt_nodup : NoDup (map obTag merged);
  bt_closed : forall o t, o ∈ merged -> t ∈ pingOutboundDependencyTags o -> t ∈ map obTag merged;
  bt_members : forall o, o ∈ merged -> exists i it pre tag, items !! (i - index)%nat = Some it /\ (index <= i)%nat /\
               prepareItem i it = Some (Ok (pre, tag)) /\ o ∈ pre;
  bt_parts : forall i it pre tag, items !! (i - index)%nat = Some it -> (index <= i)%nat ->
               prepareItem i it = Some (Ok (pre, tag)) -> pre `sublist_of` merged;
  bt_target : forall i tag, (i, tag) ∈ prepared -> tag ∈ map obTag merged;
  bt_index : forall i tag, (i, tag) ∈ prepared <-> exists it pre, items !! (i - index)%nat = Some it /\ (index <= i)%nat /\
               prepareItem i it = Some (Ok (pre, tag));
  bt_prepared : NoDup prepared.*1;
  bt_results : length results = length items;
  bt_failed : forall i it e, items !! i = Some it -> prepareItem (index + i) it = Some (Err e) ->
                results !! i = Some (failedPingBatchResult PingDelayError e)
}.

Lemma NoDup_pingTags item n : NoDup (map (pingTag item) (seq 0 n)).
Proof. apply NoDup_fmap_2_strong; [|apply NoDup_seq]. by intros a b _ _ [_ ->]%pingTag_inj. Qed.

Lemma batch_cons_index index it items (prepared : list (nat * list Z)) i tag (P : Prop) :
  (forall i tag, (i, tag) ∈ prepared <-> exists it pre, items !! (i - S index)%nat = Some it /\ (S index <= i)%nat /\
     prepareItem i it = Some (Ok (pre, tag))) ->
  (P <-> i = index /\ exists pre, prepareItem index it = Some (Ok (pre, tag))) ->
  (P \/ (i, tag) ∈ prepared <-> exists it' pre, (it :: items) !! (i - index)%nat = Some it' /\ (index <= i)%nat /\
     prepareItem i it' = Some (Ok (pre, tag))).
Proof.
  intros Hrest HP. rewrite HP, Hrest. split.
  - intros [[-> [pre Hpre]]|(it' & pre & Hit & Hle & Hpre)].
    + exists it, pre. by rewrite Nat.sub_diag.
    + exists it', pre. split_and!; [|lia|done]. by replace (i - index)%nat with (S (i - S index)) by lia.
  - intros (it' & pre & Hit & Hle & Hpre). destruct (decide (i = index)) as [->|n].
    + rewrite Nat.sub_diag in Hit. injection Hit as ->. left. split; [done|by exists pre].
    + right. replace (i - index)%nat with (S (i - S index)) in Hit by lia. exists it', pre. split_and!; [done|lia|done].
Qed.

Lemma prepareItems_ok items : forall index,
  match prepareItems index items with
  | None => False
  | Some (results, prepared, merged) => batch_ok index items results prepared merged
  end.
Proof.
  induction items as [|it items IH]; intros index; cbn [prepareItems].
  { split; cbn; [by intros t ?%elem_of_nil|constructor|by intros o t ?%elem_of_nil|by intros o ?%elem_of_nil|done|by intros i t ?%elem_of_nil| |constructor|done|done].
    intros i t. rewrite elem_of_nil. split; [done|]. by intros (? & ? & ? & _). }
  pose proof (prepareItem_ok index it) as Hit. destruct (prepareItem index it) as [r|] eqn:Hp; [|done]. cbn [mbind option_bind].
  specialize (IH (S index)). destruct (prepareItems (S index) items) as [[[results prepared] merged]|]; [|done]. cbn [mbind option_bind].
  destruct IH as [T1 T2 T3 M1 M2 T4 T5 T6 T7 T8]. destruct r as [[pre tag]|e].
  - destruct Hit as [[[n I1] I2 I3] _]. split.
    + intros t. rewrite map_app, elem_of_app. intros [Ht|Ht].
      * rewrite I1 in Ht. apply list_elem_of_fmap in Ht as (o & -> & _). by exists index, o.
      * destruct (T1 _ Ht) as (i & o & -> & Hle). exists i, o. split; [done|lia].
    + rewrite map_app. apply NoDup_app. split_and!; [rewrite I1; apply NoDup_pingTags| |done].
      intros t Ht Ht'. rewrite I1 in Ht. apply list_elem_of_fmap in Ht as (o & -> & _).
      destruct (T1 _ Ht') as (i & o' & [-> _]%pingTag_inj & Hle). lia.
    + intros o t Ho Ht. rewrite map_app, elem_of_app. apply elem_of_app in Ho as [Ho|Ho]; [left; by eapply I2|right; by eapply T3].
    + intros o. rewrite elem_of_app. intros [Ho|(i & it' & pre' & tag' & Hi & Hle & Hpre & Ho)%M1].
      * exists index, it, pre, tag. by rewrite Nat.sub_diag.
      * exists i, it', pre', tag'. split_and!; [|lia|done..]. by replace (i - index)%nat with (S (i - S index)) by lia.
    + intros i it' pre' tag' Hi Hle Hpre. destruct (decide (i = index)) as [->|n'].
      * rewrite Nat.sub_diag in Hi. injection Hi as <-. rewrite Hp in Hpre. injection Hpre as <- <-. by apply sublist_inserts_r.
      * replace (i - index)%nat with (S (i - S index)) in Hi by lia. apply sublist_inserts_l. eapply M2; [done|lia|done].
    + intros i t. rewrite map_app, elem_of_app. intros [[= -> ->]|Hi]%elem_of_cons; [by left|right; by eapply T4].
    + intros i t. rewrite elem_of_cons. apply batch_cons_index; [done|]. rewrite Hp. split.
      * intros [= -> ->]. split; [done|by exists pre].
      * by intros [-> [pre' [= -> ->]]].
    + cbn. apply NoDup_cons. split; [|done]. intros ([i t] & Hi & Hin)%list_elem_of_fmap. cbn in Hi. subst i.
      apply T5 in Hin as (? & ? & _ & ? & _). lia.
    + cbn. by rewrite T7.
    + intros [|i] it' e; cbn [lookup list_lookup].
      * intros [= <-]. rewrite Nat.add_0_r, Hp. done.
      * rewrite Nat.add_succ_r. apply T8.
  - split; try done.
    + intros t Ht. destruct (T1 _ Ht) as (i & o & -> & Hle). exists i, o. split; [done|lia].
    + intros o (i & it' & pre' & tag' & Hi & Hle & Hpre & Ho)%M1. exists i, it', pre', tag'.
      split_and!; [|lia|done..]. by replace (i - index)%nat with (S (i - S index)) by lia.
    + intros i it' pre' tag' Hi Hle Hpre. destruct (decide (i = index)) as [->|n'].
      * rewrite Nat.sub_diag in Hi. injection Hi as <-. by rewrite Hp in Hpre.
      * replace (i - index)%nat with (S (i - S index)) in Hi by lia. eapply M2; [done|lia|done].
    + intros i t. rewrite <- (batch_cons_index index it items prepared i t False T5); [tauto|]. rewrite Hp.
      split; [done|]. by intros [_ [? ?]].
    + cbn. by rewrite T7.
    + intros [|i] it' e'; cbn [lookup list_lookup].
      * intros [= <-]. rewrite Nat.add_0_r, Hp. by intros [= ->].
      * rewrite Nat.add_succ_r. apply T8.
Qed.

(** C25: the merged configuration of a batch is well formed whatever the items'
    configurations call their outbounds.  No two outbounds share a tag.  It
    consists of what the items were prepared to, in one piece each, and an item's
    piece is a copy of the outbounds its wanted outbound reaches, the wanted one
    first and under the tag that is measured; in the copy every dependency tag is
    the tag of the copy, in the same piece, of the one outbound that the old tag
    named.  No search runs out of steps. *)
Theorem batch_names_closed items :
  exists results prepared merged, prepareItems 0 items = Some (results, prepared, merged) /\
  NoDup (map obTag merged) /\
  (forall o t, o ∈ merged -> t ∈ pingOutboundDependencyTags o -> t ∈ map obTag merged) /\
  (forall i tag, (i, tag) ∈ prepared -> tag ∈ map obTag merged) /\
  (forall o, o ∈ merged -> exists i it pre tag, items !! i = Some it /\ prepareItem i it = Some (Ok (pre, tag)) /\ o ∈ pre) /\
  (forall i tag, (i, tag) ∈ prepared <-> exists it pre, items !! i = Some it /\ prepareItem i it = Some (Ok (pre, tag))) /\
  (forall i it pre tag, items !! i = Some it -> prepareItem i it = Some (Ok (pre, tag)) ->
     pre `sublist_of` merged /\
     exists outbounds, readPingOutbounds (piConfigPath it) = Ok outbounds /\ copied outbounds (piOutboundTag it) i pre tag).
Proof.
  pose proof (prepareItems_ok items 0) as Hok. destruct (prepareItems 0 items) as [[[results prepared] merged]|]; [|done].
  exists results, prepared, merged. destruct Hok as [_ Hnd Hcl M1 M2 Htg T5 _ _ _]. split_and!; [done..| | |].
  - intros o (i & it & pre & tag & Hi & _ & Hp)%M1. rewrite Nat.sub_0_r in Hi. by exists i, it, pre, tag.
  - intros i tag. rewrite T5, Nat.sub_0_r. split; intros (it & pre & Hi); exists it, pre; naive_solver lia.
  - intros i it pre tag Hi Hp. split; [eapply (M2 i); [by rewrite Nat.sub_0_r|lia|done]|].
    pose proof (prepareItem_ok i it) as Hpre. rewrite Hp in Hpre. apply Hpre.
Qed.

(** ** The workers *)

(** What item [i] ends with. *)
Definition itemResult (i : nat) (it : PingBatchItem) : PingBatchResult :=
  match prepareItem i it with
  | Some (Ok (_, tag)) => measured tag
  | Some (Err e) => failedPingBatchResult PingDelayError e
  | None => zeroResult
  end.

Record workers_ok (prepared : list (nat * list Z)) (results0 : list PingBatchResult) (w : workers) : Prop := {
  wk_jobs : forall job, job ∈ wJobs w \/ job ∈ wRunning w -> job ∈ prepared;
  wk_len : length (wResults w) = length results0;
  wk_done : forall i tag, (i, tag) ∈ prepared -> (i, tag) ∈ wJobs w \/ (i, tag) ∈ wRunning w \/
              ((i < length results0)%nat -> wResults w !! i = Some (measured tag));
  wk_other : forall i, i ∉ prepared.*1 -> wResults w !! i = results0 !! i
}.

Lemma workers_step_ok n prepared results0 w w' :
  NoDup prepared.*1 -> workers_ok prepared results0 w -> workerStep n w w' -> workers_ok prepared results0 w'.
Proof.
  intros Hnd [A B C D] Hst. destruct Hst as [job jobs running results Hlt|i tag r1 r2 jobs results]; cbn in *.
  - split; cbn; [|done| |done].
    + intros j. rewrite elem_of_cons. intros [Hj|[->|Hj]]; apply A; rewrite ?elem_of_cons; auto.
    + intros i tag Hi. rewrite elem_of_cons. destruct (C i tag Hi) as [[->|?]%elem_of_cons|[?|?]]; auto.
  - assert (Hin : (i, tag) ∈ prepared) by (apply A; right; set_solver).
    split; cbn.
    + intros j [Hj|Hj]; apply A; [by left|right; set_solver].
    + by rewrite length_insert.
    + intros i' t' Hi. destruct (decide (i = i')) as [<-|n'].
      * assert (tag = t').
        { apply list_elem_of_lookup in Hin as [a Ha], Hi as [b Hb].
          assert (a = b) as ->; [|congruence]. eapply (NoDup_lookup _ _ _ i Hnd); by rewrite list_lookup_fmap, ?Ha, ?Hb. }
        subst t'. right; right. intros Hl. apply list_lookup_insert_eq. lia.
      * destruct (C i' t' Hi) as [?|[Hr|Hr]]; [by left|right; left|right; right].
        -- rewrite !elem_of_app, !elem_of_cons in *. naive_solver.
        -- intros Hl. rewrite list_lookup_insert_ne by done. auto.
    + intros i' Hi'. rewrite list_lookup_insert_ne; [by apply D|]. intros <-. apply Hi'. apply list_elem_of_fmap. by exists (i, tag).
Qed.

Lemma workers_run_ok n prepared results0 w w' :
  NoDup prepared.*1 -> rtc (workerStep n) w w' -> workers_ok prepared results0 w -> workers_ok prepared results0 w'.
Proof. intros Hnd. induction 1 as [w|w w1 w2 Hs _ IH]; [done|]. intros Hok. by eapply IH, workers_step_ok. Qed.

(** Whatever the workers have done, they can go on to the end. *)
Lemma workers_end n jobs running results :
  exists results', rtc (workerStep n) (mkWorkers jobs running results) (mkWorkers jobs [] results').
Proof.
  revert results. induction running as [|[i tag] running IH]; intros results; [by exists results|].
  destruct (IH (<[i := measured tag]> results)) as [results' Hr]. exists results'. eapply rtc_l; [apply (workerEnds _ i tag [] running)|done].
Qed.

Lemma workers_finish n w : (0 < n)%nat -> exists w', rtc (workerStep n) w w' /\ workersDone w'.
Proof.
  intros Hn. destruct w as [jobs running results]. destruct (workers_end n jobs running results) as [results1 H1].
  enough (exists w', rtc (workerStep n) (mkWorkers jobs [] results1) w' /\ workersDone w') as (w' & H2 & Hd) by (exists w'; split; [by etransitivity|done]).
  clear -Hn. revert results1. induction jobs as [|[i tag] jobs IH]; intros results1; [by eexists|].
  destruct (IH (<[i := measured tag]> results1)) as (w' & Hr & Hd). exists w'. split; [|done].
  eapply rtc_l; [apply workerTakes; cbn; lia|]. eapply rtc_l; [apply (workerEnds _ i tag [] [])|done].
Qed.

(** C27: A batch returns, and its results do not depend on how its workers run.
    Every run of the workers can be brought to its end, and there is then one
    result per item, in the items' order: the measurement of the item's own
    outbound or the error of its configuration. *)
Theorem ping_results items timeout targetURL :
  (exists r, PingBatch items timeout targetURL r) /\
  (forall n w, (0 < n)%nat -> exists w', rtc (workerStep n) w w' /\ workersDone w') /\
  forall results, PingBatch items timeout targetURL (Ok results) ->
    length results = length items /\ forall i it, items !! i = Some it -> results !! i = Some (itemResult i it).
Proof.
  split_and!; [|intros n w; apply workers_finish|].
  { pose proof (prepareItems_ok items 0) as Hok. destruct (validatePingBatchRequest items timeout targetURL) as [[]|e] eqn:Hv; [|by exists (Err e); apply pingInvalid].
    destruct (prepareItems 0 items) as [[[results prepared] merged]|] eqn:Hp; [|done].
    destruct (decide (prepared = [])) as [->|Hne]; [eexists; by eapply pingNone|].
    destruct (startPingBatchServer merged) as [[]|] eqn:Hs; [|eexists; by eapply pingNoServer].
    destruct (workers_finish (length prepared) (mkWorkers prepared [] results)) as (w & Hr & Hd); [destruct prepared; [done|cbn; lia]|].
    eexists. by eapply pingMeasured. }
  intros results HP. inversion HP as [|results' merged _ Hprep|e|results0 prepared merged w _ Hprep _ _ Hrun [Hj Hr]]; subst;
    pose proof (prepareItems_ok items 0) as Hok; rewrite Hprep in Hok; destruct Hok as [_ _ _ _ _ _ T5 T6 T7 T8].
  - split; [done|]. intros i it Hi. unfold itemResult. pose proof (prepareItem_ok i it) as Hit.
    destruct (prepareItem i it) as [[[pre tag]|e]|] eqn:Hp; [| |done].
    + exfalso. apply (not_elem_of_nil (i, tag)). apply T5. exists it, pre. rewrite Nat.sub_0_r. split_and!; [done|lia|done].
    + by apply (T8 i it e).
  - assert (Hw : workers_ok prepared results0 w).
    { eapply workers_run_ok; [done|exact Hrun|]. split; cbn; [|done|auto|done]. by intros job [?|?%elem_of_nil]. }
    destruct Hw as [A B C D]. split; [by rewrite B|]. intros i it Hi. unfold itemResult. pose proof (prepareItem_ok i it) as Hit.
    assert (Hl : (i < length results0)%nat) by (rewrite T7; by eapply lookup_lt_Some).
    destruct (prepareItem i it) as [[[pre tag]|e]|] eqn:Hp; [| |done].
    + destruct (C i tag) as [Hx|[Hx|Hx]]; [|rewrite Hj in Hx; by apply elem_of_nil in Hx|rewrite Hr in Hx; by apply elem_of_nil in Hx|by apply Hx].
      apply T5. exists it, pre. rewrite Nat.sub_0_r. split_and!; [done|lia|done].
    + rewrite D; [by apply (T8 i it e)|]. intros ([i' t] & -> & Hin)%list_elem_of_fmap. cbn in *.
      apply T5 in Hin as (it' & pre & Hit' & _ & Hpre). rewrite Nat.sub_0_r in Hit'. congruence.
Qed.
End Items.

(** ** A batch of two configurations

    Both call their outbounds the same; the first goes through a chain of two
    others.  The workers end in the other order. *)

Definition chain : list outbound := Eval vm_compute in
  [ mkOutbound (str "direct") None None 0;
    mkOutbound (str "exit") (Some []) (Some (str "entry")) 1;
    mkOutbound (str "proxy") (Some (str "exit")) None 2;
    mkOutbound (str "entry") None None 3 ].
Definition cyclic : list outbound := Eval vm_compute in
  [ mkOutbound (str "a") (Some (str "b")) None 0; mkOutbound (str "b") None (Some (str "a")) 1 ].

#[local] Instance samplePing : PingEnv :=
  {| urlOk := fun _ => true;
     readOutbounds := fun path => if bool_decide (path = [1]) then Some chain else if bool_decide (path = [2]) then Some cyclic else None;
     outboundBuild := fun _ => true;
     startPingBatchServer := fun _ => Some tt;
     measureOutboundDelay := fun tag => (Z.of_nat (length tag), None) |}.

Lemma dependencies_collected_witness :
  (2 < length chain)%nat /\
  (let '(idx, dup) := tagTables 0 chain ∅ ∅ in collectPingOutboundDependencies chain idx dup 2) = Some (Ok [2; 1; 3]%nat) /\
  let '(idx, dup) := tagTables 0 chain ∅ ∅ in collected chain 2 (collectPingOutboundDependencies chain idx dup 2).
Proof.
  split; [cbn; lia|]. split; [vm_compute; reflexivity|].
  apply (dependencies_collected chain 2). cbn. lia.
Defined.

Example cycle_found :
  (let '(idx, dup) := tagTables 0 cyclic ∅ ∅ in collectPingOutboundDependencies cyclic idx dup 0) = Some (Err (ErrCycle 0)).
Proof. vm_compute. reflexivity. Qed.

Definition sampleItems : list PingBatchItem := [mkPingItem [1] []; mkPingItem [2] []; mkPingItem [1] (str "entry")].
Definition sampleResults : list PingBatchResult := Eval vm_compute in
  [measured (pingTag 0 0); failedPingBatchResult PingDelayError (ErrCycle 0); measured (pingTag 2 0)].

Lemma ping_results_witness :
  PingBatch sampleItems 5 [] (Ok sampleResults) /\ length sampleResults = length sampleItems /\
  (forall i it, sampleItems !! i = Some it -> sampleResults !! i = Some (itemResult i it)).
Proof.
  assert (HP : PingBatch sampleItems 5 [] (Ok sampleResults)).
  { eapply (pingMeasured sampleItems 5 [] _ _ _ (mkWorkers [] [] sampleResults)).
    - vm_compute. reflexivity.
    - vm_compute. reflexivity.
    - discriminate.
    - vm_compute. reflexivity.
    - eapply rtc_l; [apply workerTakes; cbn; lia|]. eapply rtc_l; [apply workerTakes; cbn; lia|].
      eapply rtc_l; [apply (workerEnds _ 2%nat (pingTag 2 0) [])|].
      eapply rtc_l; [apply (workerEnds _ 0%nat (pingTag 0 0) [])|]. vm_compute. apply rtc_refl.
    - split; reflexivity. }
  split; [exact HP|]. apply (ping_results sampleItems 5 []). exact HP.
Defined.
