(* ===== verification/ConnBatch.v ===== *)
(** * Batches of datagrams ([src/awg-ios/conn/bind_std.go], [gso_*.go], [sticky_*.go])

    Datagrams of one size are joined into one message with a segment size before
    they go to the kernel, and messages the kernel joined are split again.  A
    slice of bytes with room to grow is its content and its capacity; control
    data is a list of control messages (on reception, those among the first [NN]
    bytes).  [append] writes into the room behind the first datagram of a batch:
    the buffers of different datagrams do not overlap.  Where the files differ by
    platform, the platform is the class [Platform]; sizes are those of 64-bit
    Linux. *)

From stdpp Require Import base numbers list.
From Stdlib Require Import ZArith Lia.
From S2P Require Import Prelude AllowedIPs Checksum.

Inductive platform := Linux | Android | OtherOS.
#[global] Instance platform_eq_dec : EqDecision platform.
Proof. solve_decision. Defined.
Class Platform := goos : platform.

(** [runtime.GOOS == linux || runtime.GOOS == android]. *)
Definition onLinux `{Platform} : bool := match goos with OtherOS => false | _ => true end.

(** ** Control messages *)

Record Cmsg := mkCmsg { cmLevel : Z; cmType : Z; cmData : list Z }.

Definition SOL_UDP : Z := 17.
Definition UDP_SEGMENT : Z := 103.
Definition UDP_GRO : Z := 104.
Definition IPPROTO_IP : Z := 0.
Definition IP_PKTINFO : Z := 8.
Definition IPPROTO_IPV6 : Z := 41.
Definition IPV6_PKTINFO : Z := 50.

(** [unix.CmsgSpace]. *)
Definition CmsgSpace (n : nat) : nat := 16 + ((n + 7) / 8) * 8.
Definition controlLen (control : list Cmsg) : nat := foldr (fun c n => (CmsgSpace (length (cmData c)) + n)%nat) O control.

Definition sizeOfGSOData : nat := 2.
Definition stickyControlSize `{Platform} : nat := match goos with Linux => CmsgSpace 20 | _ => O end.
Definition gsoControlSize `{Platform} : nat := if onLinux then CmsgSpace sizeOfGSOData else O.

(** The capacity of the control buffers ([NewStdNetBind]). *)
Definition oobCap `{Platform} : nat := stickyControlSize + gsoControlSize.

(** [net.UDPAddr]: the bytes of the address and the port. *)
Record UDPAddr := mkUDPAddr { uaBytes : list Z; uaPortNo : Z }.

Record StdNetEndpoint := mkStdEndpoint { seAddr : ipAddr; sePort : Z; seSrc : list Cmsg }.

Definition Is6 (a : ipAddr) : bool := ipLen a =? 16.

Record GBuf := mkGBuf { gBytes : list Z; gCap : nat }.
#[global] Instance rebuild_GBuf : Rebuild GBuf := fun b => mkGBuf (gBytes b) (gCap b).

(** [ipv6.Message] with its one buffer. *)
Record Message := mkMessage { mBuf : GBuf; mOOB : list Cmsg; mN : nat; mAddr : option UDPAddr }.
#[global] Instance rebuild_Message : Rebuild Message := fun m => mkMessage (mBuf m) (mOOB m) (mN m) (mAddr m).

Section Control.
Context `{NE : NativeEndian} `{PL : Platform}.

Definition setGSOSize (control : list Cmsg) (gsoSize : Z) : list Cmsg :=
  if onLinux then
    let avail := (oobCap - controlLen control)%nat in
    if (avail <? CmsgSpace sizeOfGSOData)%nat then control
    else control ++ [mkCmsg SOL_UDP UDP_SEGMENT (nativeBytes 2 gsoSize)]
  else control.

(** The kernel's control messages parse. *)
Fixpoint getGSOSize (control : list Cmsg) : result unit nat :=
  if onLinux then
    match control with
    | [] => Ok O
    | c :: rem =>
        if (cmLevel c =? SOL_UDP) && (cmType c =? UDP_GRO) && (sizeOfGSOData <=? length (cmData c))%nat then
          Ok (Z.to_nat (nativeVal (take sizeOfGSOData (cmData c))))
        else getGSOSize rem
    end
  else Ok O.

Definition setSrcControl (control : list Cmsg) (ep : StdNetEndpoint) : list Cmsg :=
  match goos with
  | Linux => if (oobCap <? controlLen (seSrc ep))%nat then control else seSrc ep
  | _ => control
  end.

(** The source information of a received datagram: the first [PKTINFO] message;
    the room [ep.src] has for its data is [CmsgSpace] less the header. *)
Fixpoint findPktinfo (control : list Cmsg) : list Cmsg :=
  match control with
  | [] => []
  | c :: rem =>
      if (cmLevel c =? IPPROTO_IP) && (cmType c =? IP_PKTINFO) then
        [mkCmsg (cmLevel c) (cmType c) (take (CmsgSpace 12 - 16) (cmData c))]
      else if (cmLevel c =? IPPROTO_IPV6) && (cmType c =? IPV6_PKTINFO) then
        [mkCmsg (cmLevel c) (cmType c) (take (CmsgSpace 20 - 16) (cmData c))]
      else findPktinfo rem
  end.

Definition getSrcFromControl (control : list Cmsg) (ep : StdNetEndpoint) : StdNetEndpoint :=
  match goos with
  | Linux => mkStdEndpoint (seAddr ep) (sePort ep) (findPktinfo control)
  | _ => ep
  end.
End Control.

(** ** Joining: [coalesceMessages] *)

Definition maxIPv4PayloadLen : nat := Z.to_nat (2 ^ 16 - 1 - 20 - 8).
Definition maxIPv6PayloadLen : nat := Z.to_nat (2 ^ 16 - 1 - 8).
Definition udpSegmentMaxDatagrams : nat := 64.
Definition IdealBatchSize : nat := 128.

(** [cUsed] is [base + 1]. *)
Record coalesce := mkCoalesce { cMsgs : list Message; cUsed : nat; cGso : nat; cCnt : nat; cEnd : bool }.

Section Coalesce.
Context `{NE : NativeEndian} `{PL : Platform}.
Variable setGSO : list Cmsg -> Z -> list Cmsg.
Variable addr : UDPAddr.
Variable ep : StdNetEndpoint.

Definition maxPayloadLen : nat := if Is6 (seAddr ep) then maxIPv6PayloadLen else maxIPv4PayloadLen.

Definition setGSOAt (i gso : nat) (msgs : list Message) : list Message :=
  alter (fun m => m <| mOOB ::= (fun c => setGSO c (u16 (Z.of_nat gso))) |>) i msgs.

(** The code after the [if i > 0] block: the buffer starts a batch. *)
Definition startBatch (buf : GBuf) (st : coalesce) : option coalesce :=
  let msgs := if (1 <? cCnt st)%nat then setGSOAt (cUsed st - 1) (cGso st) (cMsgs st) else cMsgs st in
  match msgs !! cUsed st with
  | None => None
  | Some m =>
      let m := m <| mOOB ::= (fun c => setSrcControl c ep) |> <| mBuf := buf |> <| mAddr := Some addr |> in
      Some (mkCoalesce (<[cUsed st := m]> msgs) (S (cUsed st)) (length (gBytes buf)) 1 false)
  end.

Definition fits (buf : GBuf) (base : GBuf) (st : coalesce) : bool :=
  let msgLen := length (gBytes buf) in
  let baseLenBefore := length (gBytes base) in
  let freeBaseCap := (gCap base - baseLenBefore)%nat in
  (msgLen + baseLenBefore <=? maxPayloadLen)%nat && (msgLen <=? cGso st)%nat && (msgLen <=? freeBaseCap)%nat &&
  (cCnt st <? udpSegmentMaxDatagrams)%nat && negb (cEnd st).

(** The buffer goes behind those of message [base]. *)
Definition appendBuf (isLast : bool) (buf : GBuf) (st : coalesce) : coalesce :=
  let base := (cUsed st - 1)%nat in
  let msgs := alter (fun m => m <| mBuf ::= (fun b => b <| gBytes ::= (fun l => l ++ gBytes buf) |>) |>) base (cMsgs st) in
  let msgs := if isLast then setGSOAt base (cGso st) msgs else msgs in
  mkCoalesce msgs (cUsed st) (cGso st) (S (cCnt st)) (cEnd st || (length (gBytes buf) <? cGso st)%nat).

Definition coalesceStep (first isLast : bool) (buf : GBuf) (st : coalesce) : option coalesce :=
  if first then startBatch buf st
  else
    match cMsgs st !! (cUsed st - 1)%nat with
    | None => None
    | Some m => if fits buf (mBuf m) st then Some (appendBuf isLast buf st) else startBatch buf st
    end.

Fixpoint coalesceLoop (first : bool) (bufs : list GBuf) (st : coalesce) : option coalesce :=
  match bufs with
  | [] => Some st
  | buf :: rest => coalesceStep first (length rest =? 0)%nat buf st ≫= coalesceLoop false rest
  end.

Definition coalesceMessages (bufs : list GBuf) (msgs : list Message) : option (list Message * nat) :=
  st ← coalesceLoop true bufs (mkCoalesce msgs 0 0 0 false);
  Some (cMsgs st, cUsed st).
End Coalesce.

(** ** Splitting: [splitCoalescedMessages] *)

Inductive splitError := ErrSplitOverflow | ErrControl.

Section Split.
Variable getGSO : list Cmsg -> result unit nat.

(** [k] datagrams of message [i] are still to be copied out, the next one to
    message [n].  The message is read anew each time, since message [n] may be
    message [i]. *)
Fixpoint splitLoop (k i gsoSize start stop n : nat) (msgs : list Message) : option (nat * option splitError * list Message) :=
  match k with
  | O => Some (n, None, msgs)
  | S k' =>
      if (i <? n)%nat then Some (n, Some ErrSplitOverflow, msgs)
      else
        match msgs !! i, msgs !! n with
        | Some msg, Some dst =>
            if (gCap (mBuf msg) <? stop)%nat || (stop <? start)%nat then None
            else
              let src := slice (gBytes (mBuf msg)) start stop in
              let copied := (length (gBytes (mBuf dst)) `min` length src)%nat in
              let dst := dst <| mBuf ::= (fun b => b <| gBytes ::= (fun l => copy_into l src) |>) |>
                             <| mN := copied |> <| mAddr := mAddr msg |> in
              let msgs := <[n := dst]> msgs in
              let N := default O (mN <$> msgs !! i) in
              let start := stop in
              let stop := ((stop + gsoSize) `min` N)%nat in
              splitLoop k' i gsoSize start stop (S n) msgs
        | _, _ => None
        end
  end.

(** [k] messages from [i] on are still to be looked at. *)
Fixpoint splitFrom (k i n : nat) (msgs : list Message) : option (nat * option splitError * list Message) :=
  match k with
  | O => Some (n, None, msgs)
  | S k' =>
      match msgs !! i with
      | None => None
      | Some msg =>
          if (mN msg =? 0)%nat then Some (n, None, msgs)
          else
            match getGSO (mOOB msg) with
            | Err _ => Some (n, Some ErrControl, msgs)
            | Ok gsoSize =>
                let '(numToSplit, stop) :=
                  if (0 <? gsoSize)%nat then (((mN msg + gsoSize - 1) / gsoSize)%nat, gsoSize) else (1%nat, mN msg) in
                match splitLoop numToSplit i gsoSize 0 stop n msgs with
                | None => None
                | Some (n, Some e, msgs) => Some (n, Some e, msgs)
                | Some (n, None, msgs) =>
                    let msgs := if (S i =? n)%nat then msgs else alter (fun m => m <| mN := 0%nat |>) i msgs in
                    splitFrom k' (S i) n msgs
                end
            end
      end
  end.

Definition splitCoalescedMessages (msgs : list Message) (firstMsgAt : nat) : option (nat * option splitError * list Message) :=
  splitFrom (length msgs - firstMsgAt) firstMsgAt 0 msgs.
End Split.

(** ** What the kernel makes of a message *)

Fixpoint chunksF (fuel g : nat) (l : list Z) : list (list Z) :=
  match fuel with
  | O => []
  | S f => if (length l =? 0)%nat then [] else take g l :: chunksF f g (drop g l)
  end.

(** The bytes cut into pieces of [g], the last of which may be shorter. *)
Definition chunks (g : nat) (l : list Z) : list (list Z) := chunksF (length l) g l.

(** The segment size asked for with [UDP_SEGMENT]. *)
Fixpoint segmentSize `{NativeEndian} (control : list Cmsg) : nat :=
  match control with
  | [] => O
  | c :: rem =>
      if (cmLevel c =? SOL_UDP) && (cmType c =? UDP_SEGMENT) then Z.to_nat (nativeVal (take 2 (cmData c)))
      else segmentSize rem
  end.

(** The datagrams of a message on the wire. *)
Definition datagrams `{NativeEndian} (m : Message) : list (list Z) :=
  let g := segmentSize (mOOB m) in
  if (0 <? g)%nat then chunks g (gBytes (mBuf m)) else [gBytes (mBuf m)].
