(* ===== verification/ConnBatchThm.v ===== *)
(** * Batches keep the datagrams

    The messages [coalesceMessages] makes go out as the datagrams they were made
    of, and [splitCoalescedMessages] hands out the datagrams the kernel joined, in
    order.  The two sections are independent. *)

From stdpp Require Import base numbers list.
From Stdlib Require Import ZArith Lia.
From S2P Require Import Prelude AllowedIPs Checksum ConnBatch.

(** ** Lists with a distinguished place *)

Lemma lookup_mid {A} (l1 : list A) x l2 : (l1 ++ x :: l2) !! length l1 = Some x.
Proof. by apply list_lookup_middle. Qed.

Lemma alter_mid {A} (f : A -> A) (l1 : list A) x l2 : alter f (length l1) (l1 ++ x :: l2) = l1 ++ f x :: l2.
Proof. induction l1 as [|y l1 IH]; [done|]. cbn. by f_equal. Qed.

Lemma insert_mid {A} (l1 : list A) x y l2 : <[length l1 := y]> (l1 ++ x :: l2) = l1 ++ y :: l2.
Proof. induction l1 as [|z l1 IH]; [done|]. cbn. by f_equal. Qed.

(** ** Cutting into pieces *)

Lemma chunksF_one f g l : (0 < length l <= g)%nat -> (0 < f)%nat -> chunksF f g l = [l].
Proof.
  intros Hl Hf. destruct f as [|f]; [lia|]. cbn [chunksF]. destruct (Nat.eqb_spec (length l) 0); [lia|].
  rewrite take_ge, drop_ge by lia. by destruct f.
Qed.

Lemma chunksF_concat f g front l :
  (0 < g)%nat -> Forall (fun p => length p = g) front -> (0 < length l <= g)%nat -> (length front < f)%nat ->
  chunksF f g (concat (front ++ [l])) = front ++ [l].
Proof.
  intros Hg Hf Hl. revert f. induction Hf as [|p front Hp _ IH]; intros f Hlen.
  - cbn [app concat]. rewrite app_nil_r. apply chunksF_one; [done|cbn in Hlen; lia].
  - destruct f as [|f]; [cbn in Hlen; lia|]. cbn [app concat chunksF].
    destruct (Nat.eqb_spec (length (p ++ concat (front ++ [l]))) 0) as [E|_]; [rewrite length_app in E; lia|].
    rewrite take_app_length', drop_app_length' by done. f_equal. apply IH. cbn in Hlen. lia.
Qed.

Lemma length_concat_le {A} (ls : list (list A)) : Forall (fun l => 0 < length l)%nat ls -> (length ls <= length (concat ls))%nat.
Proof. induction 1 as [|l ls Hl _ IH]; cbn [concat length]; [lia|]. rewrite length_app. lia. Qed.

Lemma chunks_concat g front l :
  (0 < g)%nat -> Forall (fun p => length p = g) front -> (0 < length l <= g)%nat ->
  chunks g (concat (front ++ [l])) = front ++ [l].
Proof.
  intros Hg Hf Hl. apply chunksF_concat; [done..|].
  pose proof (length_concat_le (front ++ [l])) as H. rewrite length_app in H. cbn [length] in H.
  enough (Forall (fun l => 0 < length l)%nat (front ++ [l])) by (specialize (H ltac:(done)); lia).
  apply Forall_app_2; [|by repeat constructor; lia]. eapply Forall_impl; [exact Hf|]. cbn. intros; lia.
Qed.

(** ** Joining *)

(** A sticky source: what [getSrcFromControl] leaves in an endpoint. *)
Definition stickySrc `{Platform} (src : list Cmsg) : Prop :=
  Forall (fun c => cmType c <> UDP_SEGMENT) src /\ (controlLen src <= stickyControlSize)%nat.

Lemma getSrc_sticky `{Platform} control ep : stickySrc (seSrc ep) -> stickySrc (seSrc (getSrcFromControl control ep)).
Proof.
  unfold getSrcFromControl, stickySrc, stickyControlSize. destruct goos; [|done..]. intros _. cbn [seSrc].
  assert (Hspace : forall n k (l : list Z), (k <= 3)%nat -> (length (take (8 * k) l) = n)%nat -> (CmsgSpace n <= 16 + 8 * k)%nat).
  { intros n k l Hk Hn. rewrite length_take in Hn. unfold CmsgSpace.
    assert ((n + 7) / 8 < S k)%nat; [|lia]. apply Nat.Div0.div_lt_upper_bound; lia. }
  induction control as [|c control IH]; cbn [findPktinfo]; [split; [done|cbn; lia]|].
  destruct ((cmLevel c =? _) && (cmType c =? IP_PKTINFO)) eqn:E1; [|destruct ((cmLevel c =? _) && (cmType c =? IPV6_PKTINFO)) eqn:E2; [|exact IH]].
  - apply andb_true_iff in E1 as [_ E1%Z.eqb_eq]. split; [apply Forall_singleton; cbn [cmType]; by rewrite E1|].
    cbn [controlLen foldr cmData]. pose proof (Hspace _ 2%nat (cmData c) ltac:(lia) eq_refl) as Hs.
    change (CmsgSpace 12 - 16)%nat with (8 * 2)%nat. change (CmsgSpace 20) with 40%nat. lia.
  - apply andb_true_iff in E2 as [_ E2%Z.eqb_eq]. split; [apply Forall_singleton; cbn [cmType]; by rewrite E2|].
    cbn [controlLen foldr cmData]. pose proof (Hspace _ 3%nat (cmData c) ltac:(lia) eq_refl) as Hs.
    change (CmsgSpace 20 - 16)%nat with (8 * 3)%nat. change (CmsgSpace 20) with 40%nat. lia.
Qed.

Section Coalesce.
Context `{NE : NativeEndian} `{PL : Platform}.
Variable addr : UDPAddr.
Variable ep : StdNetEndpoint.
Hypothesis Hlinux : onLinux = true.
Hypothesis Hsrc : stickySrc (seSrc ep).

Definition src0 : list Cmsg := setSrcControl [] ep.

Lemma src0_sticky : stickySrc src0.
Proof.
  unfold src0, setSrcControl. assert (stickySrc []) by (split; [done|cbn; lia]).
  destruct goos; [|done..]. by case_match.
Qed.

Lemma segmentSize_app c1 c2 : Forall (fun c => cmType c <> UDP_SEGMENT) c1 -> segmentSize (c1 ++ c2) = segmentSize c2.
Proof.
  induction 1 as [|c c1 Hc _ IH]; [done|]. cbn [app segmentSize].
  destruct (_ && _) eqn:E; [|exact IH]. apply andb_true_iff in E as [_ E%Z.eqb_eq]. done.
Qed.

Lemma segmentSize_src0 : segmentSize src0 = 0%nat.
Proof. rewrite <- (app_nil_r src0). apply (segmentSize_app _ []), src0_sticky. Qed.

(** The segment size that was set is the one the kernel reads. *)
Lemma segmentSize_set g : Z.of_nat g < 65536 -> segmentSize (setGSOSize src0 (u16 (Z.of_nat g))) = g.
Proof.
  intros Hg. unfold setGSOSize. rewrite Hlinux. pose proof (proj2 src0_sticky).
  destruct (Nat.ltb_spec (oobCap - controlLen src0) (CmsgSpace sizeOfGSOData)) as [Hlt|_].
  { unfold oobCap, gsoControlSize in Hlt. rewrite Hlinux in Hlt. lia. }
  rewrite segmentSize_app by apply src0_sticky. cbn [segmentSize cmLevel cmType cmData].
  change ((SOL_UDP =? SOL_UDP) && (UDP_SEGMENT =? UDP_SEGMENT)) with true. cbn iota.
  unfold u16, nativeVal, nativeBytes.
  destruct nativeLE; rewrite take_ge by (autorewrite with go_rw; lia); rewrite ?le_val_le_bytes, ?be_val_be_bytes;
    change (256 ^ Z.of_nat 2) with 65536; change (2 ^ 16) with 65536; rewrite Z.mod_mod, Z.mod_small by lia; lia.
Qed.

(** What is promised of every message. *)
Definition sendable (m : Message) : Prop :=
  mAddr m = Some addr /\ (length (datagrams m) <= udpSegmentMaxDatagrams)%nat /\
  (length (datagrams m) = 1%nat \/ (length (gBytes (mBuf m)) <= maxPayloadLen ep)%nat).

(** The datagrams [cur] gathered in the current message [m]. *)
Record group (cur : list GBuf) (m : Message) (gso cnt : nat) (ended : bool) : Prop := {
  gr_cnt : cnt = length cur;
  gr_max : (cnt <= udpSegmentMaxDatagrams)%nat;
  gr_split : exists front l, gBytes <$> cur = front ++ [l] /\ Forall (fun p => length p = gso) front /\
               (0 < length l <= gso)%nat /\ (ended = false -> length l = gso);
  gr_bytes : gBytes (mBuf m) = concat (gBytes <$> cur);
  gr_addr : mAddr m = Some addr;
  gr_room : cnt = 1%nat \/ (length (gBytes (mBuf m)) <= maxPayloadLen ep)%nat
}.

Lemma group_gso cur m gso cnt ended : group cur m gso cnt ended -> (1 < cnt)%nat -> (0 < gso)%nat /\ Z.of_nat gso < 65536.
Proof.
  intros [-> _ (front & l & Hcur & Hf & Hl & _) Hb _ Hr] Hcnt. split; [lia|].
  destruct Hr as [|Hr]; [lia|]. rewrite Hb, Hcur in Hr.
  assert (Hn : length cur = length (front ++ [l])) by (rewrite <- Hcur; by rewrite length_fmap).
  rewrite length_app in Hn. cbn [length] in Hn. destruct front as [|p front]; [cbn in Hn; lia|].
  apply Forall_cons in Hf as [Hp _]. cbn [app concat] in Hr. rewrite length_app in Hr.
  unfold maxPayloadLen, maxIPv4PayloadLen, maxIPv6PayloadLen in Hr. destruct (Is6 _); lia.
Qed.

(** A message is finished: alone, or with its segment size set. *)
Lemma group_datagrams cur m gso cnt ended :
  group cur m gso cnt ended ->
  segmentSize (mOOB m) = (if (1 <? cnt)%nat then gso else 0%nat) ->
  datagrams m = gBytes <$> cur /\ sendable m.
Proof.
  intros Hg Hs. pose proof (group_gso _ _ _ _ _ Hg) as Hgso.
  assert (Hd : datagrams m = gBytes <$> cur).
  { destruct Hg as [-> _ (front & l & Hcur & Hf & Hl & _) Hb _ _]. unfold datagrams. rewrite Hs.
    destruct (Nat.ltb_spec 1 (length cur)) as [H1|H1].
    - destruct (Nat.ltb_spec 0 gso); [|lia]. rewrite Hb, Hcur. by apply chunks_concat.
    - cbn [Nat.ltb]. rewrite Hb, Hcur. destruct front as [|p front]; [cbn; by rewrite app_nil_r|].
      assert (length cur = length ((p :: front) ++ [l])) as Hn by (rewrite <- Hcur; by rewrite length_fmap).
      rewrite length_app in Hn. cbn in Hn. lia. }
  split; [done|]. destruct Hg as [-> Hmax _ _ Ha Hr]. unfold sendable. rewrite Hd, length_fmap. done.
Qed.

(** ** The loop *)

(** [past] is what the loop has gone through, [room] the messages it has left. *)
Definition batching (past : list GBuf) (room : nat) (st : coalesce) : Prop :=
  exists closed cur pre m post,
    past = closed ++ cur /\ cMsgs st = pre ++ m :: post /\ cUsed st = S (length pre) /\ length post = room /\
    group cur m (cGso st) (cCnt st) (cEnd st) /\ mOOB m = src0 /\
    concat (datagrams <$> pre) = gBytes <$> closed /\ Forall sendable pre /\ Forall (fun m => mOOB m = []) post.

Definition batched (past : list GBuf) (st : coalesce) : Prop :=
  exists pre post, cMsgs st = pre ++ post /\ cUsed st = length pre /\
    concat (datagrams <$> pre) = gBytes <$> past /\ Forall sendable pre.

Lemma group_single buf m : mBuf m = buf -> mAddr m = Some addr -> gBytes buf <> [] ->
  group [buf] m (length (gBytes buf)) 1 false.
Proof.
  intros Hb Ha Hne. split; [done|cbv; lia| | |done|by left].
  - exists [], (gBytes buf). split_and!; [done|done|destruct (gBytes buf); [done|cbn; lia]|lia|done].
  - rewrite Hb. cbn. by rewrite app_nil_r.
Qed.

(** Closing the current message appends its datagrams to those before. *)
Lemma close_group closed cur pre m m' gso cnt ended :
  group cur m gso cnt ended -> mBuf m' = mBuf m -> mAddr m' = mAddr m ->
  segmentSize (mOOB m') = (if (1 <? cnt)%nat then gso else 0%nat) ->
  concat (datagrams <$> pre) = gBytes <$> closed -> Forall sendable pre ->
  concat (datagrams <$> (pre ++ [m'])) = gBytes <$> (closed ++ cur) /\ Forall sendable (pre ++ [m']).
Proof.
  intros Hg Hb Ha Hs Hc Hp. destruct (group_datagrams cur m' gso cnt ended) as [Hd Hok]; [|done|].
  { destruct Hg. split; rewrite ?Hb, ?Ha; done. }
  rewrite !fmap_app, concat_app, Hc. cbn [fmap list_fmap concat]. rewrite app_nil_r, Hd. split; [done|].
  apply Forall_app_2; [done|by apply Forall_singleton].
Qed.

Lemma segmentSize_close st cur m : group cur m (cGso st) (cCnt st) (cEnd st) -> mOOB m = src0 ->
  (1 < cCnt st)%nat -> segmentSize (setGSOSize (mOOB m) (u16 (Z.of_nat (cGso st)))) = (if (1 <? cCnt st)%nat then cGso st else 0%nat).
Proof.
  intros Hg -> Hc. apply group_gso in Hg as [_ Hlt]; [|done].
  rewrite segmentSize_set by done. by destruct (Nat.ltb_spec 1 (cCnt st)); [|lia].
Qed.

Lemma startBatch_batching past room st buf :
  batching past (S room) st -> gBytes buf <> [] ->
  exists st', startBatch setGSOSize addr ep buf st = Some st' /\ batching (past ++ [buf]) room st' /\ cCnt st' = 1%nat.
Proof.
  intros (closed & cur & pre & m & post & -> & Hm & Hu & Hp & Hg & Ho & Hc & Hs & Hpost) Hne.
  destruct post as [|x post]; [discriminate|]. apply Forall_cons in Hpost as [Hx Hpost].
  unfold startBatch, setGSOAt. rewrite Hm, Hu, Nat.sub_succ, Nat.sub_0_r, alter_mid.
  set (m' := if (1 <? cCnt st)%nat then _ else _).
  assert (exists m1, m' = pre ++ m1 :: x :: post /\ mBuf m1 = mBuf m /\ mAddr m1 = mAddr m /\
    segmentSize (mOOB m1) = (if (1 <? cCnt st)%nat then cGso st else 0%nat)) as (m1 & -> & Hb1 & Ha1 & Hs1).
  { subst m'. destruct (Nat.ltb_spec 1 (cCnt st)) as [H1|H1].
    - eexists. split; [done|]. split; [done|]. split; [done|]. cbn [mOOB update].
      rewrite Ho. apply segmentSize_set. by eapply group_gso.
    - exists m. rewrite Ho, segmentSize_src0. done. }
  replace (S (length pre)) with (length (pre ++ [m1])) by (rewrite length_app; cbn; lia).
  rewrite (cons_middle m1 pre (x :: post)), (app_assoc pre [m1] (x :: post)), lookup_mid, insert_mid.
  eexists. split; [done|]. split; [|done].
  destruct (close_group closed cur pre m m1 _ _ _ Hg Hb1 Ha1 Hs1 Hc Hs) as [Hc' Hs'].
  exists (closed ++ cur), [buf], (pre ++ [m1]), (x <| mOOB ::= (fun c => setSrcControl c ep) |> <| mBuf := buf |> <| mAddr := Some addr |>), post.
  split_and!; try done; [by injection Hp|by apply group_single|]. cbn [mOOB update]. by rewrite Hx.
Qed.

Lemma batching_single_batched past room st : batching past room st -> cCnt st = 1%nat -> batched past st.
Proof.
  intros (closed & cur & pre & m & post & -> & Hm & Hu & Hp & Hg & Ho & Hc & Hs & Hpost) H1.
  destruct (close_group closed cur pre m m _ _ _ Hg eq_refl eq_refl) as [Hc' Hs']; [|done|done|].
  { by rewrite H1, Ho, segmentSize_src0. }
  exists (pre ++ [m]), post. split_and!; [by rewrite Hm, <- app_assoc| |done|done].
  rewrite Hu, length_app. cbn. lia.
Qed.

(** The buffer fits behind the others. *)
Lemma group_append cur m st buf :
  group cur m (cGso st) (cCnt st) (cEnd st) -> gBytes buf <> [] -> fits ep buf (mBuf m) st = true ->
  group (cur ++ [buf]) (m <| mBuf ::= (fun b => b <| gBytes ::= (fun l => l ++ gBytes buf) |>) |>)
    (cGso st) (S (cCnt st)) (cEnd st || (length (gBytes buf) <? cGso st)%nat).
Proof.
  intros [Hcnt Hmax (front & l & Hcur & Hf & Hl & He) Hb Ha Hr] Hne Hfit. unfold fits in Hfit.
  rewrite !andb_true_iff, !Nat.leb_le, Nat.ltb_lt, negb_true_iff in Hfit. destruct Hfit as ((((H1 & H2) & _) & H4) & H5).
  split.
  - rewrite length_app. cbn. lia.
  - lia.
  - exists (front ++ [l]), (gBytes buf). rewrite fmap_app, Hcur. split; [done|]. split; [|split].
    + apply Forall_app_2; [done|]. apply Forall_singleton. by apply He.
    + destruct (gBytes buf); [done|]. cbn in *. lia.
    + rewrite H5. cbn [orb]. intros Hlt%Nat.ltb_ge. lia.
  - cbn. rewrite Hb, fmap_app, concat_app. cbn. by rewrite app_nil_r.
  - done.
  - right. cbn. rewrite length_app. lia.
Qed.

Lemma coalesceStep_next past room st buf isLast :
  batching past (S room) st -> gBytes buf <> [] ->
  exists st', coalesceStep setGSOSize addr ep false isLast buf st = Some st' /\
    if isLast then batched (past ++ [buf]) st'
    else exists room', (room <= room')%nat /\ batching (past ++ [buf]) room' st'.
Proof.
  intros Hbat Hne. pose proof Hbat as (closed & cur & pre & m & post & -> & Hm & Hu & Hp & Hg & Ho & Hc & Hs & Hpost).
  unfold coalesceStep. rewrite Hm, Hu, Nat.sub_succ, Nat.sub_0_r, lookup_mid.
  destruct (fits ep buf (mBuf m) st) eqn:Hfit.
  - pose proof (group_append _ _ _ _ Hg Hne Hfit) as Hg'. eexists. split; [done|].
    unfold appendBuf, setGSOAt. rewrite Hm, Hu, Nat.sub_succ, Nat.sub_0_r, !alter_mid.
    set (m1 := m <| mBuf ::= _ |>) in *. destruct isLast.
    + set (m2 := m1 <| mOOB ::= _ |>).
      destruct (close_group closed (cur ++ [buf]) pre m1 m2 _ _ _ Hg' eq_refl eq_refl) as [Hc' Hs']; [|done|done|].
      { assert (H1 : (1 < S (cCnt st))%nat) by (destruct Hg as [-> _ (fr & l & Hcur & _) _ _ _];
          destruct cur; [by destruct fr|cbn; lia]).
        change (mOOB m2) with (setGSOSize (mOOB m) (u16 (Z.of_nat (cGso st)))). rewrite Ho, segmentSize_set by (by eapply group_gso).
        by destruct (Nat.ltb_spec 1 (S (cCnt st))); [|lia]. }
      exists (pre ++ [m2]), post. cbn [cMsgs cUsed]. split_and!; [by rewrite <- app_assoc| |by rewrite Hc', app_assoc|done].
      rewrite length_app. cbn. lia.
    + exists (S room). split; [lia|].
      exists closed, (cur ++ [buf]), pre, m1, post. cbn [cMsgs cUsed cGso cCnt cEnd]. by rewrite app_assoc.
  - destruct (startBatch_batching _ _ _ _ Hbat Hne) as (st' & -> & Hbat' & H1). eexists. split; [done|].
    destruct isLast; [by eapply batching_single_batched|by exists room].
Qed.

Lemma coalesceLoop_batched rest past room st :
  rest <> [] -> batching past room st -> (length rest <= room)%nat -> Forall (fun b => gBytes b <> []) rest ->
  exists st', coalesceLoop setGSOSize addr ep false rest st = Some st' /\ batched (past ++ rest) st'.
Proof.
  revert past room st. induction rest as [|buf rest IH]; intros past room st Hne Hb Hroom Hall; [done|].
  apply Forall_cons in Hall as [Hbuf Hall]. cbn [length coalesceLoop] in *. destruct room as [|room]; [lia|].
  destruct (coalesceStep_next _ _ _ _ (length rest =? 0)%nat Hb Hbuf) as (st' & -> & H). cbn [mbind option_bind].
  destruct rest as [|buf2 rest]; [by exists st'|]. cbn [length Nat.eqb] in H. destruct H as (room' & Hle & H).
  destruct (IH _ _ _ ltac:(done) H ltac:(cbn in *; lia) Hall) as (st2 & -> & Hf). exists st2. split; [done|].
  by rewrite <- app_assoc in Hf.
Qed.

Lemma coalesceMessages_datagrams bufs msgs :
  Forall (fun b => gBytes b <> []) bufs -> (length bufs <= length msgs)%nat -> Forall (fun m => mOOB m = []) msgs ->
  exists msgs' n, coalesceMessages setGSOSize addr ep bufs msgs = Some (msgs', n) /\
    concat (datagrams <$> take n msgs') = gBytes <$> bufs /\ Forall sendable (take n msgs').
Proof.
  intros Hne Hlen Hoob. unfold coalesceMessages. destruct bufs as [|buf bufs].
  { exists msgs, 0%nat. cbn. by rewrite take_0. }
  apply Forall_cons in Hne as [Hbuf Hne]. destruct msgs as [|x msgs]; [cbn in Hlen; lia|].
  apply Forall_cons in Hoob as [Hx Hoob].
  set (x1 := x <| mOOB ::= (fun c => setSrcControl c ep) |> <| mBuf := buf |> <| mAddr := Some addr |>).
  set (st1 := mkCoalesce (x1 :: msgs) 1 (length (gBytes buf)) 1 false).
  assert (Hst : batching [buf] (length msgs) st1).
  { exists [], [buf], [], x1, msgs. split_and!; try done; [by apply group_single|]. unfold x1. cbn [mOOB update]. by rewrite Hx. }
  change (coalesceLoop setGSOSize addr ep true (buf :: bufs) _) with (coalesceLoop setGSOSize addr ep false bufs st1).
  destruct bufs as [|buf2 bufs].
  - exists (cMsgs st1), 1%nat. split; [done|].
    destruct (batching_single_batched _ _ _ Hst eq_refl) as (pre & post & Hm & Hu & Hc & Hs).
    rewrite Hm, take_app_length' by (by cbn in Hu). done.
  - destruct (coalesceLoop_batched (buf2 :: bufs) _ _ _ ltac:(done) Hst ltac:(cbn in *; lia) Hne) as (st & Hl & pre & post & Hm & Hu & Hc & Hs).
    rewrite Hl. exists (cMsgs st), (cUsed st). split; [done|]. by rewrite Hm, Hu, take_app_length.
Qed.
End Coalesce.

(** ** Splitting *)

Section Split.
Variable getGSO : list Cmsg -> result unit nat.

(** What the caller sees of a message: its bytes and where it came from. *)
Definition view (m : Message) : list Z * option UDPAddr := (take (mN m) (gBytes (mBuf m)), mAddr m).

(** The segment size of a message the kernel joined, its length if it is alone. *)
Definition segmentOf (m : Message) : nat :=
  match getGSO (mOOB m) with Ok (S g) => S g | _ => mN m end.

(** A message the kernel hands out. *)
Definition joined (m : Message) : Prop :=
  is_ok (getGSO (mOOB m)) = true /\ (0 < segmentOf m <= mN m)%nat /\
  (mN m <= length (gBytes (mBuf m)) <= gCap (mBuf m))%nat.

Definition pieces (m : Message) : list (list Z * option UDPAddr) :=
  (fun p => (p, mAddr m)) <$> chunks (segmentOf m) (view m).1.

Definition bufLens (msgs : list Message) : list nat := (fun m => length (gBytes (mBuf m))) <$> msgs.

Lemma chunksF_fuel g l f1 f2 :
  (0 < g)%nat -> (length l <= f1)%nat -> (length l <= f2)%nat -> chunksF f1 g l = chunksF f2 g l.
Proof.
  intros Hg. revert l f2. induction f1 as [|f1 IH]; intros l f2 H1 H2.
  - destruct l; [|cbn in H1; lia]. by destruct f2.
  - destruct f2 as [|f2]; [destruct l; [done|cbn in H2; lia]|]. cbn [chunksF].
    destruct (Nat.eqb_spec (length l) 0); [done|]. f_equal. apply IH; rewrite length_drop; lia.
Qed.

Lemma chunks_cons g l : (0 < g)%nat -> l <> [] -> chunks g l = take g l :: chunks g (drop g l).
Proof.
  intros Hg Hl. unfold chunks. destruct l as [|x l]; [done|]. cbn [length chunksF Nat.eqb]. f_equal.
  apply chunksF_fuel; rewrite ?length_drop; cbn [length]; lia.
Qed.

Lemma length_chunks g l : (0 < g)%nat -> length (chunks g l) = ((length l + g - 1) / g)%nat.
Proof.
  intros Hg. induction l as [l IH] using (induction_ltof1 _ length). unfold ltof in IH.
  destruct (decide (l = [])) as [->|Hne].
  { cbn. symmetry. apply Nat.div_small. lia. }
  assert (0 < length l)%nat by (destruct l; [done|cbn; lia]).
  rewrite chunks_cons by done. cbn [length]. rewrite IH by (rewrite length_drop; lia). rewrite length_drop.
  destruct (Nat.le_gt_cases (length l) g).
  - replace (length l - g + g - 1)%nat with (g - 1)%nat by lia. rewrite (Nat.div_small (g - 1)) by lia.
    replace (length l + g - 1)%nat with (length l - 1 + 1 * g)%nat by lia.
    rewrite Nat.div_add, Nat.div_small by lia. done.
  - replace (length l + g - 1)%nat with (length l - g + g - 1 + 1 * g)%nat by lia. rewrite Nat.div_add by lia. lia.
Qed.

Lemma view_insert n d msgs msgs0 : msgs !! n = Some msgs0 -> view <$> take (S n) (<[n:=d]> msgs) = (view <$> take n msgs) ++ [view d].
Proof.
  intros Hn. apply lookup_lt_Some in Hn. rewrite (take_S_r _ _ d) by (by rewrite list_lookup_insert_eq).
  by rewrite fmap_app, take_insert_ge by lia.
Qed.

Lemma bufLens_insert i (d m : Message) msgs :
  msgs !! i = Some m -> length (gBytes (mBuf d)) = length (gBytes (mBuf m)) -> bufLens (<[i:=d]> msgs) = bufLens msgs.
Proof.
  intros Hi Hl. unfold bufLens. rewrite list_fmap_insert, Hl. apply list_insert_id. by rewrite list_lookup_fmap, Hi.
Qed.

Lemma splitLoop_pieces g k i start n msgs msg :
  (0 < g)%nat -> msgs !! i = Some msg -> (start < mN msg)%nat -> (mN msg <= length (gBytes (mBuf msg)) <= gCap (mBuf msg))%nat ->
  length (chunks g (drop start (view msg).1)) = k -> (n + k <= S i)%nat -> Forall (le g) (bufLens msgs) ->
  exists msgs', splitLoop k i g start ((start + g) `min` mN msg) n msgs = Some ((n + k)%nat, None, msgs') /\
    view <$> take (n + k) msgs' = (view <$> take n msgs) ++ ((fun p => (p, mAddr msg)) <$> chunks g (drop start (view msg).1)) /\
    (forall x, (n + k <= x)%nat -> msgs' !! x = msgs !! x) /\ bufLens msgs' = bufLens msgs.
Proof.
  intros Hg. revert start n msgs. induction k as [|k IH]; intros start n msgs Hi Hs HN Hk Hn HB.
  all: assert (Hlen : length (drop start (view msg).1) = (mN msg - start)%nat)
    by (cbn [view fst]; rewrite length_drop, length_take; lia).
  all: assert (Hne : drop start (view msg).1 <> []) by (intros E; rewrite E in Hlen; cbn in Hlen; lia).
  all: rewrite chunks_cons in * by done; cbn [length] in Hk.
  { lia. }
  cbn [splitLoop]. destruct (Nat.ltb_spec i n); [lia|]. rewrite Hi.
  assert (is_Some (msgs !! n)) as [dst Hdst] by (apply lookup_lt_is_Some; apply lookup_lt_Some in Hi; lia).
  rewrite Hdst. destruct (Nat.ltb_spec (gCap (mBuf msg)) ((start + g) `min` mN msg)); [lia|].
  destruct (Nat.ltb_spec ((start + g) `min` mN msg) start); [lia|]. cbn [orb].
  set (src := slice _ _ _). set (dst' := dst <| mBuf ::= _ |> <| mN := _ |> <| mAddr := _ |>).
  assert (Hsrc : src = take g (drop start (view msg).1)).
  { unfold src, slice. cbn [view fst].
    rewrite skipn_firstn_comm, take_take. f_equal. lia. }
  assert (Hfit : (length src <= length (gBytes (mBuf dst)))%nat).
  { rewrite Hsrc, length_take. pose proof (proj1 (Forall_lookup _ _) HB n (length (gBytes (mBuf dst)))) as Hb1.
    unfold bufLens in Hb1. rewrite list_lookup_fmap, Hdst in Hb1. specialize (Hb1 eq_refl). lia. }
  assert (Hview : view dst' = (take g (drop start (view msg).1), mAddr msg)).
  { rewrite <- Hsrc. clearbody src. unfold view, dst'. cbn [mN mBuf mAddr update gBytes]. f_equal. unfold copy_into.
    rewrite (Nat.min_r _ (length src)) by done. rewrite (take_ge src) by done. by rewrite take_app_length. }
  assert (HB' : bufLens (<[n:=dst']> msgs) = bufLens msgs).
  { eapply bufLens_insert; [exact Hdst|]. unfold dst'. cbn [mBuf update gBytes]. apply length_copy_into. }
  destruct k as [|k].
  - cbn [splitLoop]. rewrite Nat.add_1_r. eexists. split; [done|].
    rewrite (view_insert _ _ _ _ Hdst), Hview. split_and!; [|intros x Hx; by rewrite list_lookup_insert_ne by lia|done].
    f_equal. apply eq_add_S, nil_length_inv in Hk. by rewrite Hk.
  - assert (Hi' : <[n:=dst']> msgs !! i = Some msg) by (rewrite list_lookup_insert_ne by lia; done).
    rewrite Hi'. change (default O (mN <$> Some msg)) with (mN msg).
    assert (Hge : (start + g < mN msg)%nat).
    { apply Nat.nle_gt. intros Hge. rewrite (drop_ge (drop start _)) in Hk by lia. discriminate. }
    rewrite drop_drop in Hk. replace ((start + g) `min` mN msg)%nat with (start + g)%nat by lia.
    destruct (IH (start + g)%nat (S n) (<[n:=dst']> msgs)) as (msgs' & -> & Hv & Hx & Hb);
      [done|lia|done|by injection Hk|lia|by rewrite HB'|].
    exists msgs'. replace (n + S (S k))%nat with (S n + S k)%nat by lia. split; [done|].
    rewrite Hv, (view_insert _ _ _ _ Hdst), Hview, <- app_assoc, drop_drop. cbn [fmap list_fmap app].
    split_and!; [done| |congruence]. intros x Hle. rewrite Hx by lia. rewrite list_lookup_insert_ne by lia. done.
Qed.

Lemma splitLoop_joined msg i n msgs :
  joined msg -> msgs !! i = Some msg -> (n + length (pieces msg) <= S i)%nat -> Forall (le (segmentOf msg)) (bufLens msgs) ->
  exists g numToSplit stop msgs', getGSO (mOOB msg) = Ok g /\
    (if (0 <? g)%nat then (((mN msg + g - 1) / g)%nat, g) else (1%nat, mN msg)) = (numToSplit, stop) /\
    splitLoop numToSplit i g 0 stop n msgs = Some ((n + length (pieces msg))%nat, None, msgs') /\
    view <$> take (n + length (pieces msg)) msgs' = (view <$> take n msgs) ++ pieces msg /\
    (forall x, (n + length (pieces msg) <= x)%nat -> msgs' !! x = msgs !! x) /\ bufLens msgs' = bufLens msgs.
Proof.
  intros (Hok & Hseg & HN) Hi Hn HB. unfold pieces in *. rewrite length_fmap in *.
  destruct (splitLoop_pieces (segmentOf msg) (length (chunks (segmentOf msg) (view msg).1)) i 0 n msgs msg)
    as (msgs' & H1 & H2 & H3 & H4); [lia|done|lia|done|by rewrite drop_0|done|done|].
  rewrite drop_0 in H2. rewrite Nat.add_0_l, Nat.min_l in H1 by lia.
  assert (Hlen : length (view msg).1 = mN msg) by (cbn [view fst]; rewrite length_take; lia).
  rewrite length_chunks, Hlen in * by lia. unfold segmentOf in *.
  destruct (getGSO (mOOB msg)) as [[|g]|]; [..|done].
  - assert (Hone : ((mN msg + mN msg - 1) / mN msg)%nat = 1%nat).
    { replace (mN msg + mN msg - 1)%nat with (mN msg - 1 + 1 * mN msg)%nat by lia. rewrite Nat.div_add, Nat.div_small by lia. done. }
    rewrite Hone in *. exists 0%nat, 1%nat, (mN msg), msgs'. split_and!; done.
  - exists (S g), ((mN msg + S g - 1) / S g)%nat, (S g), msgs'. split_and!; done.
Qed.

(** Every message has given away its datagrams before its place is written. *)
Fixpoint enoughRoom (n i : nat) (got : list Message) : Prop :=
  match got with
  | [] => True
  | m :: got => (n + length (pieces m) <= S i)%nat /\ enoughRoom (n + length (pieces m)) (S i) got
  end.

(** Emptying a message behind those handed out changes nothing that is read. *)
Lemma empty_behind i n (msgs : list Message) :
  (n <= S i)%nat ->
  let msgs' := if (S i =? n)%nat then msgs else alter (fun m => m <| mN := 0%nat |>) i msgs in
  take n msgs' = take n msgs /\ bufLens msgs' = bufLens msgs /\ forall x, (i < x)%nat -> msgs' !! x = msgs !! x.
Proof.
  intros Hn. cbn zeta. destruct (Nat.eqb_spec (S i) n) as [|Hne]; [done|]. split_and!.
  - apply take_alter_ge. lia.
  - unfold bufLens. apply list_eq. intros x. rewrite !list_lookup_fmap, list_lookup_alter.
    destruct decide as [<-|]; [by destruct (msgs !! i)|done].
  - intros x Hx. apply list_lookup_alter_ne. lia.
Qed.

Lemma splitFrom_pieces got k i n msgs :
  (forall j m, got !! j = Some m -> msgs !! (i + j)%nat = Some m) -> Forall joined got ->
  Forall (fun m => Forall (le (segmentOf m)) (bufLens msgs)) got -> enoughRoom n i got ->
  (k = length got \/ (length got < k)%nat /\ (mN <$> msgs !! (i + length got)%nat) = Some 0%nat) ->
  exists msgs', splitFrom getGSO k i n msgs = Some ((n + length (concat (pieces <$> got)))%nat, None, msgs') /\
    view <$> take (n + length (concat (pieces <$> got))) msgs' = (view <$> take n msgs) ++ concat (pieces <$> got).
Proof.
  revert k i n msgs. induction got as [|msg got IH]; intros k i n msgs Hgot Hj HB Hroom Hk.
  - exists msgs. cbn [fmap list_fmap concat length]. rewrite Nat.add_0_r, app_nil_r. split; [|done].
    destruct Hk as [->|[Hk Hz]]; [done|]. destruct k as [|k]; [done|]. cbn [splitFrom].
    cbn [length] in Hz. rewrite Nat.add_0_r in Hz. destruct (msgs !! i) as [m0|]; [|done]. cbn in Hz. by injection Hz as ->.
  - apply Forall_cons in Hj as [Hmsg Hj]. apply Forall_cons in HB as [HBm HB]. destruct Hroom as [Hr Hroom].
    assert (Hi : msgs !! i = Some msg) by (rewrite <- (Nat.add_0_r i); by apply Hgot).
    destruct k as [|k]; [cbn [length] in Hk; lia|]. cbn [splitFrom]. rewrite Hi.
    destruct (Nat.eqb_spec (mN msg) 0) as [E|_]; [destruct Hmsg as (_ & Hs & _); lia|].
    destruct (splitLoop_joined msg i n msgs Hmsg Hi Hr HBm) as (g & num & stop & msgs1 & -> & -> & -> & Hv & Hx & Hb).
    destruct (empty_behind i (n + length (pieces msg)) msgs1 Hr) as (Ht & Hb' & Hx').
    match goal with |- context [splitFrom _ k (S i) _ ?ms] => set (msgs2 := ms) in * end.
    assert (Hsame : forall x, (i < x)%nat -> msgs2 !! x = msgs !! x) by (intros; rewrite Hx', Hx by lia; done).
    destruct (IH k (S i) (n + length (pieces msg))%nat msgs2) as (msgs' & -> & Hv').
    + intros j m Hm. rewrite Hsame by lia. rewrite Nat.add_succ_comm. by apply (Hgot (S j)).
    + done.
    + by rewrite Hb', Hb.
    + done.
    + cbn [length] in Hk. destruct Hk as [Hk|[Hk Hz]]; [left; lia|right]. split; [lia|].
      rewrite Hsame by lia. by rewrite <- Nat.add_succ_comm in Hz.
    + exists msgs'. cbn [fmap list_fmap concat]. rewrite length_app, Nat.add_assoc. split; [done|].
      rewrite Hv', Ht, Hv. by rewrite app_assoc.
Qed.

(** The messages behind [free] are split into the front of the list, up to the
    first that is empty. *)
Lemma splitCoalescedMessages_pieces free got idle :
  let msgs := free ++ got ++ idle in
  Forall joined got -> Forall (fun m => Forall (le (segmentOf m)) (bufLens msgs)) got ->
  enoughRoom 0 (length free) got -> default 0%nat (mN <$> head idle) = 0%nat ->
  exists msgs', splitCoalescedMessages getGSO msgs (length free) = Some (length (concat (pieces <$> got)), None, msgs') /\
    view <$> take (length (concat (pieces <$> got))) msgs' = concat (pieces <$> got).
Proof.
  cbn zeta. intros Hj HB Hroom Hidle. unfold splitCoalescedMessages.
  destruct (splitFrom_pieces got (length (free ++ got ++ idle) - length free) (length free) 0 (free ++ got ++ idle)) as (msgs' & -> & Hv); [|done..| |].
  - intros j m Hm. rewrite lookup_app_r by lia. rewrite Nat.add_comm, Nat.add_sub. by apply lookup_app_l_Some.
  - rewrite !length_app. destruct idle as [|m idle]; [left; cbn; lia|right]. split; [cbn; lia|].
    rewrite lookup_app_r by lia. replace (length free + length got - length free)%nat with (length got) by lia.
    rewrite lookup_mid. cbn in *. by f_equal.
  - exists msgs'. split; [done|]. by rewrite take_0 in Hv.
Qed.
End Split.
