(* ===== verification/ConnBind.v ===== *)
(** * The UDP sockets of a device ([src/awg-ios/conn/bind_std.go], [features_*.go], [errors_*.go])

    [StdNetBind]: one socket per address family.  A socket is the number of the
    system call that made it.  What the kernel answers is the class [Kernel], an
    answer for every call by its number; the sockets that are open and the
    datagrams that left are in the state.  A panic is [None]. *)

From stdpp Require Import base numbers list gmap sets.
From Stdlib Require Import ZArith Lia.
From S2P Require Import Prelude AllowedIPs NetIP Checksum ConnBatch.

Inductive Errno := EADDRINUSE | EAFNOSUPPORT | EIO | EINVAL | EOther.
#[global] Instance Errno_eq_dec : EqDecision Errno.
Proof. solve_decision. Defined.

(** The errors of the methods; [ErrUDPGSODisabled] holds the error of the retry. *)
Inductive bindError :=
  | ErrBindAlreadyOpen
  | ErrErrno (e : Errno)
  | ErrSplit (e : splitError)
  | ErrUDPGSODisabled (retryErr : option Errno).

Class Kernel := {
  listenPacket : nat -> bool -> Z -> result Errno Z;     (* udp6?, port; the port that was bound *)
  localAddrResolves : nat -> bool;                       (* [net.ResolveUDPAddr] of the socket's own address *)
  offloadFeatures : nat -> bool * bool;                  (* the socket options [UDP_SEGMENT], [UDP_GRO] *)
  closeSocket : nat -> option Errno;
  WriteBatch : nat -> list Message -> nat * option Errno;
  WriteMsgUDP : nat -> Message -> option Errno;
  setsockoptMark : nat -> Z -> option Errno              (* [SO_MARK] *)
}.

Record StdNetBind := mkBind {
  ipv4 : option nat; ipv6 : option nat;
  ipv4TxOffload : bool; ipv4RxOffload : bool; ipv6TxOffload : bool; ipv6RxOffload : bool;
  blackhole4 : bool; blackhole6 : bool;
  calls : nat;
  openSockets : gset nat;
  onWire : list (nat * option UDPAddr * list Z)
}.
#[global] Instance rebuild_StdNetBind : Rebuild StdNetBind := fun s =>
  mkBind (ipv4 s) (ipv6 s) (ipv4TxOffload s) (ipv4RxOffload s) (ipv6TxOffload s) (ipv6RxOffload s)
    (blackhole4 s) (blackhole6 s) (calls s) (openSockets s) (onWire s).

Definition NewStdNetBind : StdNetBind := mkBind None None false false false false false false 0 ∅ [].

Section Bind.
Context `{NE : NativeEndian} `{PL : Platform} `{K : Kernel}.

Abbreviation BM A := (ste StdNetBind bindError A).

Definition kcall {E} : ste StdNetBind E nat := fun s => (Ok (calls s), s <| calls ::= S |>).

(** ** Opening and closing *)

Definition listenNet (is6 : bool) (port : Z) : ste StdNetBind Errno (nat * Z) :=
  do c <- kcall;;
  match listenPacket c is6 port with
  | Err e => sfail e
  | Ok actual =>
      smod (fun s => s <| openSockets ::= (fun o => o ∪ {[c]}) |>) >>>
      if localAddrResolves c then sret (c, actual) else sfail EOther
  end.

Definition supportsUDPOffload (conn : nat) : bool * bool := if onLinux then offloadFeatures conn else (false, false).

(** [conn.Close()]: the descriptor is gone, whatever the result. *)
Definition connClose (conn : nat) (s : StdNetBind) : option Errno * StdNetBind :=
  (closeSocket conn, s <| openSockets ::= (fun o => o ∖ {[conn]}) |>).

(** The sockets of both families are there or not supported: set the fields. *)
Definition openDone (v4 v6 : option nat) (port : Z) : BM (list nat * Z) :=
  smod (fun s => match v4 with
                 | Some c => let '(tx, rx) := supportsUDPOffload c in
                             s <| ipv4TxOffload := tx |> <| ipv4RxOffload := rx |> <| ipv4 := Some c |>
                 | None => s
                 end) >>>
  smod (fun s => match v6 with
                 | Some c => let '(tx, rx) := supportsUDPOffload c in
                             s <| ipv6TxOffload := tx |> <| ipv6RxOffload := rx |> <| ipv6 := Some c |>
                 | None => s
                 end) >>>
  let fns := option_list v4 ++ option_list v6 in
  if (length fns =? 0)%nat then sfail (ErrErrno EAFNOSUPPORT) else sret (fns, u16 port).

(** [v4conn.Close()] on the way out; it panics when there is no such socket. *)
Definition closeV4 (v4 : option nat) (s : StdNetBind) : option StdNetBind :=
  match v4 with Some c => Some (connClose c s).2 | None => None end.

(** The second half: [v4] and [port] are those of the first. *)
Definition openV6 (more : bool) (uport : Z) (v4 : option nat) (port : Z) (s : StdNetBind) :
    option (option (result bindError (list nat * Z)) * StdNetBind) :=
  let '(r6, s) := listenNet true port s in
  match r6 with
  | Ok (c6, port) => let '(r, s) := openDone v4 (Some c6) port s in Some (Some r, s)
  | Err e6 =>
      if decide (uport = 0 /\ e6 = EADDRINUSE /\ more = true) then
        s ← closeV4 v4 s; Some (None, s)
      else if decide (e6 = EAFNOSUPPORT) then
        let '(r, s) := openDone v4 None 0 s in Some (Some r, s)
      else s ← closeV4 v4 s; Some (Some (Err (ErrErrno e6)), s)
  end.

(** From the label [again] to the next jump to it, which is the result [None];
    [more] is [tries < 100]. *)
Definition openOnce (more : bool) (uport : Z) (s : StdNetBind) :
    option (option (result bindError (list nat * Z)) * StdNetBind) :=
  let '(r4, s) := listenNet false uport s in
  let '(v4, port, err) := match r4 with Ok (c, p) => (Some c, p, None) | Err e => (None, 0, Some e) end in
  match err with
  | Some e => if decide (e = EAFNOSUPPORT) then openV6 more uport v4 port s else Some (Some (Err (ErrErrno e)), s)
  | None => openV6 more uport v4 port s
  end.

(** [left] is [100 - tries]. *)
Fixpoint openAgain (left : nat) (uport : Z) (s : StdNetBind) : option (result bindError (list nat * Z) * StdNetBind) :=
  match openOnce (0 <? left)%nat uport s with
  | None => None
  | Some (Some r, s) => Some (r, s)
  | Some (None, s) => match left with S left' => openAgain left' uport s | O => None end
  end.

Definition Open (uport : Z) (s : StdNetBind) : option (result bindError (list nat * Z) * StdNetBind) :=
  match ipv4 s, ipv6 s with
  | None, None => openAgain 100 uport s
  | _, _ => Some (Err ErrBindAlreadyOpen, s)
  end.

Definition Close : BM unit := fun s =>
  let '(err1, s) :=
    match ipv4 s with
    | Some c => let '(e, s) := connClose c s in (e, s <| ipv4 := None |>)
    | None => (None, s)
    end in
  let '(err2, s) :=
    match ipv6 s with
    | Some c => let '(e, s) := connClose c s in (e, s <| ipv6 := None |>)
    | None => (None, s)
    end in
  let s := s <| blackhole4 := false |> <| blackhole6 := false |> <| ipv4TxOffload := false |>
             <| ipv4RxOffload := false |> <| ipv6TxOffload := false |> <| ipv6RxOffload := false |> in
  (match err1 with
   | Some e => Err (ErrErrno e)
   | None => match err2 with Some e => Err (ErrErrno e) | None => Ok tt end
   end, s).

(** ** Sending *)

Definition errShouldDisableUDPGSO (e : Errno) : bool :=
  onLinux && match e with EIO | EINVAL => true | _ => false end.

(** The datagrams of messages on the wire. *)
Definition wireOf (conn : nat) (msgs : list Message) : list (nat * option UDPAddr * list Z) :=
  concat ((fun m => (fun d => (conn, mAddr m, d)) <$> datagrams m) <$> msgs).

(** The [for] loop around [WriteBatch]; a kernel that reports no progress keeps
    it going, which ends here with [None]. *)
Fixpoint writeLoop (fuel : nat) (conn : nat) (msgs : list Message) (s : StdNetBind) : option (option Errno * StdNetBind) :=
  match fuel with
  | O => None
  | S f =>
      let '(n, err) := WriteBatch (calls s) msgs in
      let s := s <| calls ::= S |> <| onWire ::= (fun w => w ++ wireOf conn (take n msgs)) |> in
      match err with
      | Some e => Some (Some e, s)
      | None =>
          if (n =? length msgs)%nat then Some (None, s)
          else if (length msgs <? n)%nat then None
          else writeLoop f conn (drop n msgs) s
      end
  end.

Fixpoint writeEach (conn : nat) (msgs : list Message) (s : StdNetBind) : option Errno * StdNetBind :=
  match msgs with
  | [] => (None, s)
  | m :: msgs =>
      match WriteMsgUDP (calls s) m with
      | Some e => (Some e, s <| calls ::= S |>)
      | None =>
          writeEach conn msgs (s <| calls ::= S |> <| onWire ::= (fun w => w ++ [(conn, mAddr m, gBytes (mBuf m))]) |>)
      end
  end.

(** The method [send]. *)
Definition sendMsgs (conn : nat) (msgs : list Message) (s : StdNetBind) : option (option Errno * StdNetBind) :=
  if onLinux then writeLoop (S (length msgs)) conn msgs s else Some (writeEach conn msgs s).

(** [DstIP().As4] and [As16]. *)
Definition udpAddrOf (ep : StdNetEndpoint) : option UDPAddr :=
  if Is6 (seAddr ep) then Some (mkUDPAddr (be_bytes 16 (ipVal (seAddr ep))) (sePort ep))
  else if ipLen (seAddr ep) =? 4 then Some (mkUDPAddr (be_bytes 4 (ipVal (seAddr ep))) (sePort ep))
  else None.

(** One message per buffer; the control data of [msgs] stays below it. *)
Fixpoint singleMessages (ua : UDPAddr) (ep : StdNetEndpoint) (bufs : list GBuf) (msgs : list Message) : option (list Message) :=
  match bufs, msgs with
  | [], _ => Some []
  | buf :: bufs, m :: msgs =>
      rest ← singleMessages ua ep bufs msgs;
      Some ((m <| mAddr := Some ua |> <| mBuf := buf |> <| mOOB ::= (fun c => setSrcControl c ep) |>) :: rest)
  | _ :: _, [] => None
  end.

Definition poolMessage : Message := mkMessage (mkGBuf [] 0) [] 0 None.
(** [getMessages]: cleared by [putMessages]. *)
Definition getMessages : list Message := replicate IdealBatchSize poolMessage.

Definition sendResultOf (retried : bool) (err : option Errno) : result bindError unit :=
  if retried then Err (ErrUDPGSODisabled err)
  else match err with Some e => Err (ErrErrno e) | None => Ok tt end.

(** The branch without offload, from messages [msgs] that may have been used. *)
Definition sendSingle (retried : bool) (conn : nat) (ua : UDPAddr) (ep : StdNetEndpoint) (bufs : list GBuf) (msgs : list Message)
    (s : StdNetBind) : option (result bindError unit * StdNetBind) :=
  ms ← singleMessages ua ep bufs msgs;
  '(err, s) ← sendMsgs conn ms s;
  Some (sendResultOf retried err, s).

Definition Send (bufs : list GBuf) (ep : StdNetEndpoint) (s : StdNetBind) : option (result bindError unit * StdNetBind) :=
  let is6 := Is6 (seAddr ep) in
  let blackhole := if is6 then blackhole6 s else blackhole4 s in
  let conn := if is6 then ipv6 s else ipv4 s in
  let offload := if is6 then ipv6TxOffload s else ipv4TxOffload s in
  if blackhole then Some (Ok tt, s)
  else
    match conn with
    | None => Some (Err (ErrErrno EAFNOSUPPORT), s)
    | Some conn =>
        ua ← udpAddrOf ep;
        if offload then
          '(msgs, n) ← coalesceMessages setGSOSize ua ep bufs getMessages;
          '(err, s) ← sendMsgs conn (take n msgs) s;
          match err with
          | Some e =>
              if errShouldDisableUDPGSO e then
                let s := if is6 then s <| ipv6TxOffload := false |> else s <| ipv4TxOffload := false |> in
                sendSingle true conn ua ep bufs msgs s
              else Some (sendResultOf false err, s)
          | None => Some (sendResultOf false err, s)
          end
        else sendSingle false conn ua ep bufs getMessages s
    end.

(** ** Receiving *)

(** A message the kernel delivers: its bytes, its control messages, its sender. *)
Record incoming := mkIncoming { inBytes : list Z; inControl : list Cmsg; inAddr : UDPAddr }.

Definition fillMessage (m : Message) (r : incoming) : Message :=
  m <| mBuf ::= (fun b => b <| gBytes ::= (fun l => copy_into l (inBytes r)) |>) |>
    <| mN := (length (gBytes (mBuf m)) `min` length (inBytes r))%nat |>
    <| mOOB := inControl r |> <| mAddr := Some (inAddr r) |>.

(** [ReadBatch(msgs[at:])]. *)
Definition readInto (at_ : nat) (msgs : list Message) (rs : list incoming) : list Message :=
  take at_ msgs ++ zip_with fillMessage (drop at_ msgs) rs ++ drop (at_ + length rs) msgs.

Definition endpointOf (m : Message) : option StdNetEndpoint :=
  a ← mAddr m;
  Some (getSrcFromControl (mOOB m)
          (mkStdEndpoint (default zeroAddr (AddrFromSlice (uaBytes a))) (u16 (uaPortNo a)) [])).

(** The loop over the received messages: the bytes of each and its endpoint,
    which is left alone when the message is empty.  [bufs] and the messages
    share their buffers. *)
Definition received (m : Message) : list Z * option StdNetEndpoint :=
  (take (mN m) (gBytes (mBuf m)), if (mN m =? 0)%nat then None else endpointOf m).

(** [pool] are the buffers the messages of the pool hold from earlier calls. *)
Definition receiveMessages (bufs pool : list GBuf) : list Message :=
  (fun b => mkMessage b [] 0 None) <$> (bufs ++ drop (length bufs) pool).

Definition receiveIP (rxOffload : bool) (bufs pool : list GBuf) (r : result Errno (list incoming)) :
    option (result bindError (list (list Z * option StdNetEndpoint))) :=
  match r with
  | Err e => Some (Err (ErrErrno e))
  | Ok rs =>
      let msgs := receiveMessages bufs pool in
      if onLinux && rxOffload then
        let readAt := (length msgs - IdealBatchSize / udpSegmentMaxDatagrams)%nat in
        match splitCoalescedMessages getGSOSize (readInto readAt msgs rs) readAt with
        | None => None
        | Some (_, Some e, _) => Some (Err (ErrSplit e))
        | Some (n, None, msgs) => if (length bufs <? n)%nat then None else Some (Ok (received <$> take n msgs))
        end
      else
        let n := if onLinux then length rs else 1%nat in
        if (length bufs <? n)%nat then None else Some (Ok (received <$> take n (readInto 0 msgs rs)))
  end.

(** The mark of one socket, where there is one. *)
Definition markConn (mark : Z) (conn : option nat) : BM unit :=
  match conn with
  | None => sret tt
  | Some _ => do c <- kcall;; match setsockoptMark c mark with Some e => sfail (ErrErrno e) | None => sret tt end
  end.

(** On the other systems of the model there is no mark. *)
Definition SetMark (mark : Z) : BM unit := fun s =>
  if onLinux then (markConn mark (ipv4 s) >>> markConn mark (ipv6 s)) s else (Ok tt, s).

Definition BatchSize : nat := if onLinux then IdealBatchSize else 1.

(** ** The life of a bind *)

Inductive bindStep : StdNetBind -> StdNetBind -> Prop :=
  | bindOpenStep uport s r s' : Open uport s = Some (r, s') -> bindStep s s'
  | bindCloseStep s : bindStep s (Close s).2
  | bindSendStep bufs ep s r s' : Send bufs ep s = Some (r, s') -> bindStep s s'
  | bindMarkStep mark s : bindStep s (SetMark mark s).2.

Inductive bindReachable : StdNetBind -> Prop :=
  | bindNew : bindReachable NewStdNetBind
  | bindNext s s' : bindReachable s -> bindStep s s' -> bindReachable s'.
End Bind.
