(* ===== verification/ConnBindThm.v ===== *)
(** * Sockets are accounted for, datagrams are delivered *)

From stdpp Require Import base numbers list gmap sets.
From Stdlib Require Import ZArith Lia.
From S2P Require Import Prelude AllowedIPs NetIP Checksum ConnBatch ConnBatchThm ConnBind.

Section Thm.
Context `{NE : NativeEndian} `{PL : Platform} `{K : Kernel}.

(** ** The sockets that are open *)

(** [listenNet] gives up a socket whose own address does not resolve without
    closing it. *)
#[local] Abbreviation resolves c := (localAddrResolves c = true).
Definition heldSockets (s : StdNetBind) : list nat := option_list (ipv4 s) ++ option_list (ipv6 s).
Definition leaked (s : StdNetBind) : gset nat := filter (fun c => localAddrResolves c = false) (openSockets s).

(** The open sockets are those of the two fields, but for the ones given up; they
    were made by earlier calls. *)
Record sockets_ok (s : StdNetBind) : Prop := {
  so_open : forall c, resolves c -> c ∈ openSockets s <-> c ∈ heldSockets s;
  so_held : Forall (fun c => resolves c /\ (c < calls s)%nat) (heldSockets s);
  so_dup : NoDup (heldSockets s)
}.

(** A [listenNet] that fails changes nothing but the call number and what was
    given up. *)
Definition gaveUp (s s' : StdNetBind) : Prop :=
  ipv4 s' = ipv4 s /\ ipv6 s' = ipv6 s /\ calls s' = S (calls s) /\
  forall c, resolves c -> c ∈ openSockets s' <-> c ∈ openSockets s.

Lemma listenNet_cases is6 port s :
  (exists p, resolves (calls s) /\
     listenNet is6 port s = (Ok (calls s, p), s <| calls ::= S |> <| openSockets ::= (fun o => o ∪ {[calls s]}) |>)) \/
  (exists e s', gaveUp s s' /\ listenNet is6 port s = (Err e, s')).
Proof.
  unfold listenNet, kcall, sbind. destruct (listenPacket (calls s) is6 port) as [p|e].
  2: { right. exists e. eexists. split; [|reflexivity]. by split_and!. }
  unfold smod, sret. destruct (localAddrResolves (calls s)) eqn:E; [left; by exists p|right].
  exists EOther. eexists. split; [|reflexivity]. split_and!; try done. intros c Hc. cbn. rewrite elem_of_union, elem_of_singleton.
  split; [intros [?| ->]; [done|congruence]|by left].
Qed.

(** [openDone] leaves the sockets it is given in the fields. *)
Lemma openDone_ok v4 v6 port s :
  ipv4 s = None -> ipv6 s = None -> (forall c, resolves c -> c ∈ openSockets s <-> c ∈ option_list v4 ++ option_list v6) ->
  Forall (fun c => resolves c /\ (c < calls s)%nat) (option_list v4 ++ option_list v6) -> NoDup (option_list v4 ++ option_list v6) ->
  sockets_ok (openDone v4 v6 port s).2.
Proof.
  intros H4 H6 Ho Hc Hd.
  assert (Hs : exists s', (openDone v4 v6 port s).2 = s' /\ ipv4 s' = v4 /\ ipv6 s' = v6 /\ openSockets s' = openSockets s /\ calls s' = calls s).
  { unfold openDone, sbind, smod. destruct v4 as [c4|], v6 as [c6|]; cbn [option_list app length Nat.eqb];
      repeat match goal with |- context [supportsUDPOffload ?c] => destruct (supportsUDPOffload c) end;
      eexists; split_and!; try reflexivity; try exact H4; try exact H6. }
  destruct Hs as (s' & -> & E4 & E6 & Eo & Ec). split; unfold heldSockets; rewrite ?E4, ?E6, ?Eo, ?Ec; done.
Qed.

Definition halfOpen (v4 : option nat) (s : StdNetBind) : Prop :=
  ipv4 s = None /\ ipv6 s = None /\ (forall c, resolves c -> c ∈ openSockets s <-> c ∈ option_list v4) /\
  Forall (fun c => resolves c /\ (c < calls s)%nat) (option_list v4).

Lemma halfOpen_ok s : halfOpen None s -> sockets_ok s.
Proof. intros (H4 & H6 & Ho & _). split; unfold heldSockets; rewrite ?H4, ?H6; [done|constructor|constructor]. Qed.

Lemma halfOpen_later v4 s n : halfOpen v4 s -> (calls s <= n)%nat -> Forall (fun c => resolves c /\ (c < n)%nat) (option_list v4).
Proof. intros (_ & _ & _ & Hc) Hn. eapply Forall_impl; [exact Hc|]. cbn. intros c [? ?]. split; [done|lia]. Qed.

Lemma gaveUp_half v4 s s' : halfOpen v4 s -> gaveUp s s' -> halfOpen v4 s'.
Proof.
  intros Hh (E4 & E6 & Ec & Eo). pose proof Hh as (H4 & H6 & Ho & _). split_and!; [congruence..| |].
  - intros c Hc. by rewrite Eo, Ho.
  - apply (halfOpen_later v4 s); [done|lia].
Qed.

Lemma closeV4_half v4 s s' : halfOpen v4 s -> closeV4 v4 s = Some s' -> halfOpen None s'.
Proof.
  intros (H4 & H6 & Ho & _) H. destruct v4 as [c|]; [|done]. injection H as <-. split_and!; try done.
  intros c' Hc'. cbn [snd connClose openSockets update]. rewrite elem_of_difference, elem_of_singleton, Ho by done. cbn. set_solver.
Qed.

Lemma openDone_half v4 v6 port s :
  ipv4 s = None -> ipv6 s = None -> (forall c, resolves c -> c ∈ openSockets s <-> c ∈ option_list v4 ++ option_list v6) ->
  Forall (fun c => resolves c /\ (c < calls s)%nat) (option_list v4 ++ option_list v6) -> NoDup (option_list v4 ++ option_list v6) ->
  forall r s', openDone v4 v6 port s = (r, s') -> match r with Ok _ => sockets_ok s' | Err _ => halfOpen None s' end.
Proof.
  intros H4 H6 Ho Hc Hd r s' E.
  assert (Hok : sockets_ok s') by (replace s' with (openDone v4 v6 port s).2 by (by rewrite E); by apply openDone_ok).
  destruct r as [|e]; [done|]. unfold openDone, sbind, smod in E. destruct v4, v6; try done. injection E as <- <-.
  by split_and!.
Qed.

Lemma openV6_ok more uport v4 port s o s' :
  halfOpen v4 s -> openV6 more uport v4 port s = Some (o, s') ->
  match o with Some (Ok _) => sockets_ok s' | _ => halfOpen None s' end.
Proof.
  intros Hh. pose proof Hh as (H4 & H6 & Ho & Hc). unfold openV6.
  destruct (listenNet_cases true port s) as [(p6 & Hr & ->)|(e6 & s6 & Hg & ->)].
  - destruct (openDone v4 _ p6 _) as [r s1] eqn:E. intros [= <- <-].
    apply openDone_half in E; [exact E|exact H4|exact H6|..].
    + intros c Hres. cbn. rewrite elem_of_union, elem_of_singleton, Ho, elem_of_app by done. cbn. by rewrite list_elem_of_singleton.
    + apply Forall_app_2; [apply (halfOpen_later v4 s); [done|cbn; lia]|apply Forall_singleton; cbn; split; [done|lia]].
    + destruct v4 as [c|]; cbn [option_list app]; [|apply NoDup_singleton].
      change (option_list (Some c)) with [c] in Hc. rewrite Forall_singleton in Hc. apply NoDup_cons. split; [|apply NoDup_singleton].
      intros ->%list_elem_of_singleton. lia.
  - apply (gaveUp_half v4 _ _ Hh) in Hg. destruct decide; [|destruct decide].
    + destruct (closeV4 v4 _) as [s1|] eqn:E; [|done]. intros [= <- <-]. by eapply closeV4_half.
    + destruct (openDone v4 None 0 _) as [r s1] eqn:E. intros [= <- <-]. destruct Hg as (H4' & H6' & Ho' & Hc').
      apply openDone_half in E; [exact E|exact H4'|exact H6'|..]; rewrite app_nil_r; [done|done|].
      destruct v4; [apply NoDup_singleton|constructor].
    + destruct (closeV4 v4 _) as [s1|] eqn:E; [|done]. intros [= <- <-]. by eapply closeV4_half.
Qed.

Lemma openOnce_ok more uport s o s' :
  halfOpen None s -> openOnce more uport s = Some (o, s') ->
  match o with Some (Ok _) => sockets_ok s' | _ => halfOpen None s' end.
Proof.
  intros Hh. pose proof Hh as (H4 & H6 & Ho & Hc). unfold openOnce.
  destruct (listenNet_cases false uport s) as [(p4 & Hr & ->)|(e4 & s4 & Hg & ->)].
  - apply openV6_ok. split_and!; try done; [|apply Forall_singleton; cbn; split; [done|lia]].
    intros c Hres. cbn. rewrite elem_of_union, elem_of_singleton, Ho by done. cbn. rewrite list_elem_of_singleton. set_solver.
  - apply (gaveUp_half None _ _ Hh) in Hg. destruct decide; [by apply openV6_ok|]. by intros [= <- <-].
Qed.

Lemma openAgain_ok n uport s r s' :
  halfOpen None s -> openAgain n uport s = Some (r, s') -> match r with Ok _ => sockets_ok s' | Err _ => halfOpen None s' end.
Proof.
  revert s. induction n as [|n IH]; intros s Hh; cbn [openAgain];
    destruct (openOnce _ uport s) as [[[r1|] s1]|] eqn:E; try done; apply openOnce_ok in E; try done.
  - intros [= <- <-]. by destruct r1.
  - intros [= <- <-]. by destruct r1.
  - by apply IH.
Qed.

Lemma sockets_half s : sockets_ok s -> ipv4 s = None -> ipv6 s = None -> halfOpen None s.
Proof. intros [Ho _ _] H4 H6. unfold heldSockets in Ho. rewrite H4, H6 in Ho. split_and!; done || constructor. Qed.

Lemma halfOpen_leaked s : halfOpen None s -> openSockets s = leaked s.
Proof.
  intros (_ & _ & Ho & _). apply set_eq. intros c. unfold leaked. rewrite elem_of_filter. split; [|tauto].
  intros Hc. split; [|done]. destruct (localAddrResolves c) eqn:E; [|done]. by apply Ho, elem_of_nil in Hc.
Qed.

Lemma Open_ok uport s r s' : sockets_ok s -> Open uport s = Some (r, s') -> sockets_ok s'.
Proof.
  intros Hok. unfold Open. destruct (ipv4 s) eqn:H4, (ipv6 s) eqn:H6; try (by intros [= <- <-]).
  intros H%openAgain_ok; [|by apply sockets_half]. destruct r; [done|by apply halfOpen_ok].
Qed.

Lemma Close_open s c : c ∈ openSockets (Close s).2 <-> c ∈ openSockets s /\ c ∉ heldSockets s.
Proof.
  unfold Close, connClose, heldSockets. destruct (ipv4 s) as [c4|] eqn:H4, (ipv6 s) as [c6|] eqn:H6; cbn;
    rewrite ?H4, ?H6; cbn; set_solver.
Qed.

Lemma Close_none s : sockets_ok s -> halfOpen None (Close s).2.
Proof.
  intros [Ho _ _]. split_and!; [..|constructor].
  - unfold Close, connClose. destruct (ipv4 s) eqn:H4; cbn; destruct (ipv6 s); by cbn.
  - unfold Close, connClose. destruct (ipv4 s) eqn:H4; cbn; destruct (ipv6 s) eqn:H6; by cbn.
  - intros c Hc. rewrite Close_open, Ho by done. cbn. rewrite elem_of_nil. tauto.
Qed.

(** ** Sending leaves the sockets alone *)

Record sendFrame (s s' : StdNetBind) : Prop := {
  sf_4 : ipv4 s' = ipv4 s; sf_6 : ipv6 s' = ipv6 s; sf_open : openSockets s' = openSockets s; sf_calls : (calls s <= calls s')%nat;
  sf_tx4 : ipv4TxOffload s = false -> ipv4TxOffload s' = false;
  sf_tx6 : ipv6TxOffload s = false -> ipv6TxOffload s' = false
}.
#[local] Instance sendFrame_preorder : PreOrder sendFrame.
Proof.
  split; [split; done || lia|]. intros a b c [] []. split; try congruence; [lia|auto..].
Qed.

Lemma writeLoop_frame fuel conn msgs s e s' : writeLoop fuel conn msgs s = Some (e, s') -> sendFrame s s'.
Proof.
  revert msgs s. induction fuel as [|f IH]; intros msgs s; cbn [writeLoop]; [done|].
  destruct (WriteBatch (calls s) msgs) as [n [err|]]; [intros [= <- <-]; split; done || (cbn; lia)|].
  destruct (n =? length msgs)%nat; [intros [= <- <-]; split; done || (cbn; lia)|].
  destruct (length msgs <? n)%nat; [done|]. intros H%IH. etransitivity; [|exact H]. split; done || (cbn; lia).
Qed.

Lemma writeEach_frame conn msgs s : sendFrame s (writeEach conn msgs s).2.
Proof.
  revert s. induction msgs as [|m msgs IH]; intros s; cbn [writeEach]; [reflexivity|].
  destruct (WriteMsgUDP (calls s) m); [split; done || (cbn; lia)|]. etransitivity; [|apply IH]. split; done || (cbn; lia).
Qed.

Lemma sendMsgs_frame conn msgs s e s' : sendMsgs conn msgs s = Some (e, s') -> sendFrame s s'.
Proof.
  unfold sendMsgs. destruct onLinux; [apply writeLoop_frame|]. intros [= E].
  pose proof (writeEach_frame conn msgs s) as H. by rewrite E in H.
Qed.

Lemma sendSingle_frame retried conn ua ep bufs msgs s r s' :
  sendSingle retried conn ua ep bufs msgs s = Some (r, s') -> sendFrame s s'.
Proof.
  unfold sendSingle. destruct (singleMessages _ _ _ _) as [ms|]; [|done]. cbn [mbind option_bind].
  destruct (sendMsgs conn ms s) as [[e s1]|] eqn:E; [|done]. intros [= <- <-]. by eapply sendMsgs_frame.
Qed.

Lemma Send_frame bufs ep s r s' : Send bufs ep s = Some (r, s') -> sendFrame s s'.
Proof.
  unfold Send. destruct (if Is6 _ then blackhole6 s else _); [by intros [= <- <-]|].
  destruct (if Is6 _ then ipv6 s else _) as [conn|]; [|by intros [= <- <-]].
  destruct (udpAddrOf ep) as [ua|]; [|done]. cbn [mbind option_bind].
  destruct (if Is6 _ then ipv6TxOffload s else _); [|apply sendSingle_frame].
  destruct (coalesceMessages _ _ _ _ _) as [[msgs n]|]; [|done]. cbn [mbind option_bind].
  destruct (sendMsgs _ _ _) as [[[e|] s1]|] eqn:E; [..|done]; apply sendMsgs_frame in E; cbn [mbind option_bind];
    [|by intros [= <- <-]].
  destruct (errShouldDisableUDPGSO e); [|by intros [= <- <-]]. intros H%sendSingle_frame.
  etransitivity; [exact E|]. etransitivity; [|exact H]. destruct (Is6 _); split; done || (cbn; lia).
Qed.

Lemma sendFrame_ok s s' : sendFrame s s' -> sockets_ok s -> sockets_ok s'.
Proof.
  intros [E4 E6 Eo Ec _ _] [Ho Hc Hd]. split; unfold heldSockets in *; rewrite ?E4, ?E6, ?Eo; [done| |done].
  eapply Forall_impl; [exact Hc|]. cbn. intros c [? ?]. split; [done|lia].
Qed.

Lemma markConn_frame mark conn s : sendFrame s (markConn mark conn s).2.
Proof.
  destruct conn as [c|]; [|reflexivity]. cbn. destruct (setsockoptMark (calls s) mark); split; done || (cbn; lia).
Qed.

Lemma SetMark_frame mark s : sendFrame s (SetMark mark s).2.
Proof.
  unfold SetMark. destruct onLinux; [|reflexivity]. unfold sbind. pose proof (markConn_frame mark (ipv4 s) s) as H.
  destruct (markConn mark (ipv4 s) s) as [[[]|e] s1]; [|exact H]. etransitivity; [exact H|apply markConn_frame].
Qed.

Lemma bindReachable_ok s : bindReachable s -> sockets_ok s.
Proof.
  induction 1 as [|s s' _ IH Hs]; [apply halfOpen_ok; split_and!; [done|done|intros c _; cbn; set_solver|constructor]|].
  destruct Hs as [uport s r s' H|s|bufs ep s r s' H|mark s]; [by eapply Open_ok|by apply halfOpen_ok, Close_none| |].
  - eapply sendFrame_ok; [by eapply Send_frame|done].
  - eapply sendFrame_ok; [apply SetMark_frame|done].
Qed.

(** C26: whatever the system answers, the UDP sockets that are open are those the
    bind holds and those [listenNet] has given up because their own address did
    not resolve, and no socket is both; a bind that could not be opened has none
    but these, and closing closes all but these.  So where such an address always
    resolves the open sockets are exactly those of the bind. *)
Theorem sockets_accounted s :
  bindReachable s ->
  openSockets s = list_to_set (heldSockets s) ∪ leaked s /\ list_to_set (heldSockets s) ## leaked s /\
  openSockets (Close s).2 = leaked s /\
  (forall uport e s', ipv4 s = None -> ipv6 s = None -> Open uport s = Some (Err e, s') -> openSockets s' = leaked s') /\
  ((forall c, resolves c) -> leaked s = ∅).
Proof.
  intros Hok%bindReachable_ok. pose proof Hok as [Ho Hh _]. rewrite Forall_forall in Hh.
  assert (Hd : forall c, c ∈ heldSockets s -> localAddrResolves c <> false) by (intros c [Hc _]%Hh; congruence).
  split_and!.
  - apply set_eq. intros c. unfold leaked. rewrite elem_of_union, elem_of_list_to_set, elem_of_filter. split.
    + intros Hc. destruct (localAddrResolves c) eqn:E; [left; by apply Ho|by right].
    + intros [Hc|[_ Hc]]; [|done]. by apply Ho; [apply Hh in Hc as [? _]|].
  - intros c Hc%elem_of_list_to_set Hl. unfold leaked in Hl. apply elem_of_filter in Hl as [E _]. by apply Hd in Hc.
  - apply set_eq. intros c. rewrite Close_open. unfold leaked. rewrite elem_of_filter. split.
    + intros [Hc Hn]. split; [|done]. destruct (localAddrResolves c) eqn:E; [|done]. by apply Ho in Hc.
    + intros [E Hc]. split; [done|]. intros Hin. by apply Hd in Hin.
  - intros uport e s' H4 H6. unfold Open. rewrite H4, H6. intros H%openAgain_ok; [by apply halfOpen_leaked|by apply sockets_half].
  - intros Hall. apply set_eq. intros c. unfold leaked. rewrite elem_of_filter, Hall. set_solver.
Qed.
End Thm.

(** ** Ports *)

(** What the kernel does with ports: a port that is asked for is the one that is
    bound, and zero stands for any. *)
Class KernelPorts `{K : Kernel} : Prop := {
  port_asked : forall c b p q, p <> 0 -> listenPacket c b p = Ok q -> q = p;
  port_chosen : forall c b q, listenPacket c b 0 = Ok q -> 0 < q < 65536
}.

Section Ports.
Context `{PL : Platform} `{K : Kernel} `{!KernelPorts}.

Lemma listenNet_port is6 port s c p s' :
  listenNet is6 port s = (Ok (c, p), s') -> listenPacket c is6 port = Ok p.
Proof.
  unfold listenNet, kcall, sbind. destruct (listenPacket (calls s) is6 port) as [q|] eqn:E; [|done].
  unfold smod, sret. destruct (localAddrResolves (calls s)); [|done]. by intros [= <- <- _].
Qed.

Lemma openDone_result v4 v6 port s fns p s' :
  openDone v4 v6 port s = (Ok (fns, p), s') -> fns = option_list v4 ++ option_list v6 /\ p = u16 port.
Proof. unfold openDone, sbind, smod, sret. destruct v4, v6; cbn; by intros [= <- <- _]. Qed.

(** When both families could be opened, both sockets listen on the port that
    is reported, and it is the one that was asked for unless that was zero. *)
Theorem open_ports uport s c4 c6 port s' :
  0 <= uport < 65536 -> Open uport s = Some (Ok ([c4; c6], port), s') ->
  listenPacket c4 false uport = Ok port /\ listenPacket c6 true port = Ok port /\ (uport <> 0 -> port = uport).
Proof.
  intros Hu. unfold Open. destruct (ipv4 s), (ipv6 s); try done. revert s. generalize 100%nat as n.
  assert (Honce : forall more s0 s1, openOnce more uport s0 = Some (Some (Ok ([c4; c6], port)), s1) ->
    listenPacket c4 false uport = Ok port /\ listenPacket c6 true port = Ok port /\ (uport <> 0 -> port = uport)).
  { intros more s0 s1. unfold openOnce. destruct (listenNet false uport s0) as [[[c p4]|e4] s2] eqn:E4; cbn [fst snd].
    - unfold openV6. destruct (listenNet true p4 s2) as [[[c' p6]|e6] s3] eqn:E6.
      + destruct (openDone (Some c) (Some c') p6 s3) as [[[fns p]|] s4] eqn:Ed; [|done]. intros [= -> -> <-].
        apply openDone_result in Ed as [Hf ->]. injection Hf as <- <-.
        apply listenNet_port in E4, E6. assert (Hp4 : 0 < p4 < 65536 /\ (uport <> 0 -> p4 = uport)).
        { destruct (decide (uport = 0)) as [->|Hn]; [by split; [apply port_chosen in E4|]|].
          apply port_asked in E4 as ->; [lia|done]. }
        assert (p6 = p4) as -> by (eapply port_asked; [|exact E6]; lia).
        unfold u16. rewrite Z.mod_small by lia. split_and!; try done. apply Hp4.
      + destruct decide; [by destruct (closeV4 _ _)|]. destruct decide; [|by destruct (closeV4 _ _)].
        destruct (openDone _ None 0 s3) as [[[fns p]|] s4] eqn:Ed; [|done]. intros [= -> -> <-].
        by apply openDone_result in Ed as [Hf _].
    - destruct decide; [|done]. unfold openV6. destruct (listenNet true 0 s2) as [[[c' p6]|e6] s3] eqn:E6.
      + destruct (openDone None (Some c') p6 s3) as [[[fns p]|] s4] eqn:Ed; [|done]. intros [= -> -> <-].
        by apply openDone_result in Ed as [Hf _].
      + destruct decide; [done|]. destruct decide; [|done].
        destruct (openDone None None 0 s3) as [[[fns p]|] s4] eqn:Ed; [|done]. intros [= -> -> <-].
        by apply openDone_result in Ed as [Hf _]. }
  induction n as [|n IH]; intros s; cbn [openAgain];
    destruct (openOnce _ uport s) as [[[r|] s1]|] eqn:E; try done.
  - intros [= -> <-]. by eapply Honce.
  - intros [= -> <-]. by eapply Honce.
  - apply IH.
Qed.
End Ports.

(** ** The offload flags *)

(** The offload flags are only set where the kernel has the option. *)
Definition flags_ok `{Platform} (s : StdNetBind) : Prop :=
  onLinux = false -> ipv4TxOffload s = false /\ ipv6TxOffload s = false.

Section Flags.
Context `{NE : NativeEndian} `{PL : Platform} `{K : Kernel}.

Definition flagsKept (s s' : StdNetBind) : Prop := flags_ok s -> flags_ok s'.
#[local] Instance flagsKept_preorder : PreOrder flagsKept.
Proof. split; [intros s Hs; exact Hs|]. intros a b c H1 H2 Ha. apply H2, H1, Ha. Qed.

Lemma flagsKept_same s s' : ipv4TxOffload s' = ipv4TxOffload s -> ipv6TxOffload s' = ipv6TxOffload s -> flagsKept s s'.
Proof. intros H4 H6 Hf Ho. rewrite H4, H6. apply (Hf Ho). Qed.

Lemma listenNet_flags is6 port : keeps flagsKept (listenNet is6 port).
Proof.
  unfold listenNet, kcall. apply keeps_bind; [apply _|intros s; by apply flagsKept_same|]. intros c.
  destruct (listenPacket c is6 port); [|apply keeps_fail, _]. apply keeps_bind; [apply _|intros s; by apply flagsKept_same|].
  intros _. destruct (localAddrResolves c); [apply keeps_ret, _|apply keeps_fail, _].
Qed.

Lemma openDone_flags v4 v6 port : keeps flagsKept (openDone v4 v6 port).
Proof.
  assert (Hoff : forall c, onLinux = false -> supportsUDPOffload c = (false, false)) by (intros c Ho; unfold supportsUDPOffload; by rewrite Ho).
  unfold openDone. apply keeps_bind; [apply _| |intros _; apply keeps_bind; [apply _| |intros _]].
  - intros s Hf Ho. cbn. destruct v4 as [c|]; [rewrite (Hoff c Ho)|]; split; apply (Hf Ho) || done.
  - intros s Hf Ho. cbn. destruct v6 as [c|]; [rewrite (Hoff c Ho)|]; split; apply (Hf Ho) || done.
  - destruct (_ =? 0)%nat; [apply keeps_fail, _|apply keeps_ret, _].
Qed.

Lemma openV6_flags more uport v4 port s o s' : openV6 more uport v4 port s = Some (o, s') -> flagsKept s s'.
Proof.
  unfold openV6. pose proof (listenNet_flags true port s) as H1. destruct (listenNet true port s) as [r6 s1]. cbn [snd] in H1.
  assert (Hclose : forall s2, closeV4 v4 s1 = Some s2 -> flagsKept s1 s2).
  { intros s2. unfold closeV4. destruct v4; [|done]. intros [= <-]. by apply flagsKept_same. }
  assert (Hdone : forall v6 p r s2, openDone v4 v6 p s1 = (r, s2) -> flagsKept s1 s2).
  { intros v6 p r s2 E. pose proof (openDone_flags v4 v6 p s1) as H2. by rewrite E in H2. }
  intros H2. etransitivity; [exact H1|]. destruct r6 as [[c6 p6]|e6].
  - destruct (openDone _ _ _ _) as [r s2] eqn:E. injection H2 as <- <-. by eapply Hdone.
  - destruct decide; [|destruct decide].
    + destruct (closeV4 v4 s1) eqn:E; [|done]. injection H2 as <- <-. by apply Hclose.
    + destruct (openDone _ _ _ _) as [r s2] eqn:E. injection H2 as <- <-. by eapply Hdone.
    + destruct (closeV4 v4 s1) eqn:E; [|done]. injection H2 as <- <-. by apply Hclose.
Qed.

Lemma Open_flags uport s r s' : Open uport s = Some (r, s') -> flagsKept s s'.
Proof.
  unfold Open. destruct (ipv4 s), (ipv6 s); try by intros [= <- <-].
  generalize 100%nat as n. intros n. revert s. induction n as [|n IH]; intros s; cbn [openAgain];
    destruct (openOnce _ uport s) as [[o s1]|] eqn:E; try done;
    (assert (Hs1 : flagsKept s s1);
     [unfold openOnce in E; pose proof (listenNet_flags false uport s) as H1; destruct (listenNet false uport s) as [r4 s2];
      cbn [snd] in H1; destruct r4 as [[c4 p4]|e4];
      [etransitivity; [exact H1|by eapply openV6_flags]|destruct decide;
        [etransitivity; [exact H1|by eapply openV6_flags]|by injection E as <- <-]]|]).
  - destruct o; [by intros [= <- <-]|done].
  - destruct o; [by intros [= <- <-]|]. intros H2%IH. by etransitivity.
Qed.

(** In every state of a bind the flags are so. *)
Lemma bindReachable_flags s : bindReachable s -> flags_ok s.
Proof.
  induction 1 as [|s s' _ IH Hs]; [by intros _|]. revert IH.
  destruct Hs as [uport s r s' H|s|bufs ep s r s' H|mark s]; [by eapply Open_flags| | |].
  - intros _ _. unfold Close, connClose. destruct (ipv4 s); cbn; destruct (ipv6 s); by cbn.
  - apply Send_frame in H as [_ _ _ _ T4 T6]. intros Hf Ho. destruct (Hf Ho). split; auto.
  - destruct (SetMark_frame mark s) as [_ _ _ _ T4 T6]. intros Hf Ho. destruct (Hf Ho). split; auto.
Qed.
End Flags.
