(* ===== verification/ConnIOThm.v ===== *)
(** * What is sent leaves as it was given, what is joined is received apart *)

From stdpp Require Import base numbers list gmap sets.
From Stdlib Require Import ZArith Lia.
From S2P Require Import Prelude Checksum AllowedIPs NetIP ConnBatch ConnBatchThm ConnBind ConnBindThm.

(** The kernel takes at least one message of a batch, or reports an error. *)
Class KernelProgress `{K : Kernel} : Prop :=
  batch_progress : forall c msgs n, WriteBatch c msgs = (n, None) -> (n <= length msgs)%nat /\ (msgs <> [] -> 0 < n)%nat.

Section Sending.
Context `{NE : NativeEndian} `{PL : Platform} `{K : Kernel} `{!KernelProgress}.

(** A kernel that refuses nothing. *)
Definition kernelTakes : Prop := (forall c msgs, (WriteBatch c msgs).2 = None) /\ (forall c m, WriteMsgUDP c m = None).

Lemma wireOf_app conn m1 m2 : wireOf conn (m1 ++ m2) = wireOf conn m1 ++ wireOf conn m2.
Proof. unfold wireOf. by rewrite fmap_app, concat_app. Qed.

Lemma writeLoop_all fuel conn msgs s :
  (length msgs < fuel)%nat ->
  exists e s' w, writeLoop fuel conn msgs s = Some (e, s') /\ onWire s' = onWire s ++ w /\ (e = None -> w = wireOf conn msgs) /\
    (kernelTakes -> e = None).
Proof.
  revert msgs s. induction fuel as [|f IH]; intros msgs s Hf; [lia|]. cbn [writeLoop].
  destruct (WriteBatch (calls s) msgs) as [n [e|]] eqn:E.
  { eexists _, _, _. split_and!; [done..|]. intros [Hk _]. specialize (Hk (calls s) msgs). by rewrite E in Hk. }
  apply batch_progress in E as [Hn Hpos].
  destruct (Nat.eqb_spec n (length msgs)) as [->|Hne].
  { eexists _, _, _. split; [done|]. split; [done|]. split; [by rewrite take_ge by lia|done]. }
  destruct (Nat.ltb_spec (length msgs) n); [lia|].
  destruct (IH (drop n msgs) (s <| calls ::= S |> <| onWire ::= (fun w => w ++ wireOf conn (take n msgs)) |>)) as (e & s' & w & Hw & Hs & He & Hk).
  { rewrite length_drop. destruct msgs; [cbn in Hn, Hne; lia|]. specialize (Hpos ltac:(done)). lia. }
  eexists e, s', _. split; [exact Hw|]. split; [rewrite Hs; cbn [onWire update]; by rewrite <- app_assoc|].
  split; [|exact Hk]. intros ->. rewrite He by done. by rewrite <- wireOf_app, take_drop.
Qed.

Lemma writeEach_all conn msgs s : Forall (fun m => segmentSize (mOOB m) = 0%nat) msgs ->
  exists w, onWire (writeEach conn msgs s).2 = onWire s ++ w /\ ((writeEach conn msgs s).1 = None -> w = wireOf conn msgs) /\
    (kernelTakes -> (writeEach conn msgs s).1 = None).
Proof.
  intros Hms. revert s. induction Hms as [|m msgs Hm _ IH]; intros s; cbn [writeEach].
  - exists []. by rewrite app_nil_r.
  - destruct (WriteMsgUDP (calls s) m) eqn:E.
    { exists []. rewrite app_nil_r. split_and!; [done..|]. intros [_ Hk]. by rewrite Hk in E. }
    destruct (IH (s <| calls ::= S |> <| onWire ::= (fun w => w ++ [(conn, mAddr m, gBytes (mBuf m))]) |>)) as (w & Hw & He & Hk).
    eexists. rewrite Hw. cbn [onWire update]. rewrite <- app_assoc. split; [done|]. split; [|exact Hk]. intros ->%He.
    unfold wireOf. cbn [fmap list_fmap concat]. unfold datagrams. by rewrite Hm.
Qed.

Lemma sendMsgs_all conn msgs s :
  (onLinux = true \/ Forall (fun m => segmentSize (mOOB m) = 0%nat) msgs) ->
  exists e s' w, sendMsgs conn msgs s = Some (e, s') /\ onWire s' = onWire s ++ w /\ (e = None -> w = wireOf conn msgs) /\
    (kernelTakes -> e = None).
Proof.
  unfold sendMsgs. destruct onLinux; intros Hseg; [apply writeLoop_all; lia|]. destruct Hseg as [|Hseg]; [done|].
  destruct (writeEach_all conn msgs s Hseg) as (w & Hw & He & Hk). destruct (writeEach conn msgs s) as [e s'].
  by exists e, s', w.
Qed.

(** Messages whose control data asks for no segmentation once the source is set. *)
Definition plain (ep : StdNetEndpoint) (m : Message) : Prop := segmentSize (setSrcControl (mOOB m) ep) = 0%nat.

Lemma singleMessages_wire ua ep bufs msgs :
  (length bufs <= length msgs)%nat ->
  exists ms, singleMessages ua ep bufs msgs = Some ms /\
    (Forall (plain ep) msgs -> Forall (fun m => segmentSize (mOOB m) = 0%nat) ms /\
       forall conn, wireOf conn ms = (fun b => (conn, Some ua, gBytes b)) <$> bufs).
Proof.
  revert msgs. induction bufs as [|buf bufs IH]; intros msgs Hl; [exists []; by destruct msgs|].
  destruct msgs as [|m msgs]; [cbn in Hl; lia|].
  destruct (IH msgs ltac:(cbn in Hl; lia)) as (ms & Hms & Hp). cbn [singleMessages]. rewrite Hms. cbn [mbind option_bind].
  eexists. split; [done|]. intros [Hm Hall]%Forall_cons. destruct (Hp Hall) as [Hseg Hw]. split; [by constructor|].
  intros conn. unfold wireOf in *. cbn [fmap list_fmap concat]. rewrite Hw. unfold datagrams. cbn [mOOB mBuf mAddr update].
  unfold plain in Hm. by rewrite Hm.
Qed.

Lemma wireOf_sendable conn ua ep msgs :
  Forall (sendable ua ep) msgs ->
  wireOf conn msgs = (fun d => (conn, Some ua, d)) <$> concat (datagrams <$> msgs).
Proof.
  unfold wireOf. induction 1 as [|m msgs [Ha _] _ IH]; [done|]. cbn [fmap list_fmap concat].
  by rewrite IH, Ha, fmap_app.
Qed.

Lemma sendSingle_wire retried conn ua ep bufs msgs s :
  (length bufs <= length msgs)%nat -> (onLinux = true \/ Forall (plain ep) msgs) ->
  exists e s' w, sendSingle retried conn ua ep bufs msgs s = Some (sendResultOf retried e, s') /\ onWire s' = onWire s ++ w /\
    (Forall (plain ep) msgs -> e = None -> w = (fun b => (conn, Some ua, gBytes b)) <$> bufs) /\ (kernelTakes -> e = None).
Proof.
  intros Hl Hor. unfold sendSingle. destruct (singleMessages_wire ua ep bufs msgs Hl) as (ms & -> & Hp).
  cbn [mbind option_bind]. destruct (sendMsgs_all conn ms s) as (e & s' & w & -> & Hs & He & Hk).
  { destruct Hor as [|Hor]; [by left|right; by apply Hp]. }
  cbn [mbind option_bind]. exists e, s', w. split; [done|]. split; [done|]. split; [|exact Hk]. intros Hall ->%He. by apply Hp.
Qed.

Lemma coalesceLoop_length ua ep first bufs st st' :
  coalesceLoop setGSOSize ua ep first bufs st = Some st' -> length (cMsgs st') = length (cMsgs st).
Proof.
  revert first st. induction bufs as [|buf bufs IH]; intros first st; cbn [coalesceLoop]; [by intros [= <-]|].
  destruct (coalesceStep _ _ _ _ _ _ _) as [st1|] eqn:E; [|done]. intros ->%IH.
  assert (Hstart : forall st2, startBatch setGSOSize ua ep buf st = Some st2 -> length (cMsgs st2) = length (cMsgs st)).
  { unfold startBatch, setGSOAt. intros st2. destruct (_ !! _); [|done]. intros [= <-]. cbn [cMsgs]. rewrite length_insert.
    by destruct (1 <? cCnt st)%nat; rewrite ?length_alter. }
  unfold coalesceStep in E. destruct first; [by apply Hstart|]. destruct (cMsgs st !! _); [|done].
  destruct (fits _ _ _ _); [|by apply Hstart]. injection E as <-. unfold appendBuf, setGSOAt. cbn [cMsgs].
  by destruct (length bufs =? 0)%nat; rewrite ?length_alter.
Qed.

Lemma coalesceMessages_length ua ep bufs msgs msgs' n :
  coalesceMessages setGSOSize ua ep bufs msgs = Some (msgs', n) -> length msgs' = length msgs.
Proof.
  unfold coalesceMessages. destruct (coalesceLoop _ _ _ _ _ _) as [st|] eqn:E; [|done].
  intros [= <- <-]. by apply coalesceLoop_length in E.
Qed.

(** On Linux setting the source replaces whatever control data there was. *)
Lemma plain_linux ep msgs : goos = Linux -> stickySrc (seSrc ep) -> Forall (plain ep) msgs.
Proof.
  intros Hg [Hty Hfit]. apply Forall_forall. intros m _. unfold plain, setSrcControl. rewrite Hg.
  destruct (Nat.ltb_spec oobCap (controlLen (seSrc ep))) as [Hlt|_]; [unfold oobCap in Hlt; lia|].
  rewrite <- (app_nil_r (seSrc ep)). by apply (segmentSize_app _ []).
Qed.

(** The socket a datagram to [ep] goes through, and its flags. *)
Definition connFor (ep : StdNetEndpoint) (s : StdNetBind) : option nat := if Is6 (seAddr ep) then ipv6 s else ipv4 s.
Definition offloadFor (ep : StdNetEndpoint) (s : StdNetBind) : bool := if Is6 (seAddr ep) then ipv6TxOffload s else ipv4TxOffload s.
Definition blackholeFor (ep : StdNetEndpoint) (s : StdNetBind) : bool := if Is6 (seAddr ep) then blackhole6 s else blackhole4 s.

(** C15: a send of up to 128 buffers, none of them empty, on an open socket
    returns; when it reports success every buffer left as one datagram to the
    endpoint, in order, whether they were joined or not, and it does report
    success when the kernel refuses none of its writes; when it reports that
    joining was given up and the retry succeeded, then on Linux the buffers did so
    after whatever the first attempt wrote. *)
Theorem send_delivers bufs ep s conn ua :
  blackholeFor ep s = false -> connFor ep s = Some conn -> udpAddrOf ep = Some ua -> bindReachable s ->
  Forall (fun b => gBytes b <> []) bufs -> (length bufs <= IdealBatchSize)%nat -> stickySrc (seSrc ep) ->
  let out := (fun b => (conn, Some ua, gBytes b)) <$> bufs in
  exists r s' w, Send bufs ep s = Some (r, s') /\ onWire s' = onWire s ++ w /\
    (r = Ok tt -> w = out) /\ (kernelTakes -> r = Ok tt) /\
    (r = Err (ErrUDPGSODisabled None) -> goos = Linux -> exists part, w = part ++ out).
Proof.
  intros Hb Hc Hua Hflags%bindReachable_flags Hne Hlen Hsrc. cbn zeta. unfold Send. fold (blackholeFor ep s) (connFor ep s) (offloadFor ep s).
  rewrite Hb, Hc, Hua. cbn [mbind option_bind].
  assert (Hpool : Forall (plain ep) getMessages) by (apply Forall_replicate; apply (segmentSize_src0 ep Hsrc)).
  assert (Hroom : (length bufs <= length getMessages)%nat) by (unfold getMessages; by rewrite length_replicate).
  destruct (offloadFor ep s) eqn:Hoff.
  2: { destruct (sendSingle_wire false conn ua ep bufs getMessages s Hroom) as (e & s' & w & -> & Hs & He & Hk); [by right|].
       exists (sendResultOf false e), s', w. split_and!; try done; [destruct e; try done; intros _; by apply He|by intros ->%Hk|by destruct e]. }
  assert (Hlinux : onLinux = true).
  { destruct onLinux eqn:E; [done|]. destruct (Hflags E) as [H4 H6]. unfold offloadFor in Hoff. destruct (Is6 _); congruence. }
  destruct (coalesceMessages_datagrams ua ep Hlinux Hsrc bufs getMessages) as (msgs & n & Hco & Hd & Hsend);
    [done|done|by apply Forall_replicate|].
  rewrite Hco. cbn [mbind option_bind].
  destruct (sendMsgs_all conn (take n msgs) s) as (e & s1 & w & -> & Hs & He & Hk); [by left|]. cbn [mbind option_bind].
  destruct e as [e|].
  2: { exists (Ok tt), s1, w. split_and!; try done. intros _. rewrite He by done.
       rewrite (wireOf_sendable _ ua ep) by done. by rewrite Hd, <- list_fmap_compose. }
  assert (Hno : ~ kernelTakes) by by intros ?%Hk.
  destruct (errShouldDisableUDPGSO e); [|by exists (Err (ErrErrno e)), s1, w].
  set (s2 := if Is6 _ then _ else _). assert (Hs2 : onWire s2 = onWire s1) by (unfold s2; by destruct (Is6 _)).
  apply coalesceMessages_length in Hco. rewrite <- Hco in Hroom.
  destruct (sendSingle_wire true conn ua ep bufs msgs s2 Hroom) as (e' & s' & w' & -> & Hs' & He' & _); [by left|].
  exists (sendResultOf true e'), s', (w ++ w'). split; [done|]. split_and!; [by rewrite Hs', Hs2, Hs, app_assoc|done|done|].
  intros [= ->] Hg. exists w. by rewrite (He' (plain_linux _ _ Hg Hsrc) eq_refl).
Qed.
End Sending.

(** ** Receiving *)

Section Receiving.
Context `{NE : NativeEndian} `{PL : Platform} `{K : Kernel}.

(** The size the kernel joined datagrams at, and the datagrams. *)
Definition inSegment (r : incoming) : nat :=
  match getGSOSize (inControl r) with Ok (S g) => S g | _ => length (inBytes r) end.
Definition inDatagrams (r : incoming) : list (list Z) := chunks (inSegment r) (inBytes r).

(** What the kernel delivers into buffers of the given sizes: datagrams joined at
    a size, at most 64 of them. *)
Definition joinable (bufs : list GBuf) (r : incoming) : Prop :=
  is_ok (getGSOSize (inControl r)) = true /\ (0 < inSegment r <= length (inBytes r))%nat /\
  (length (inDatagrams r) <= udpSegmentMaxDatagrams)%nat /\
  Forall (fun b => length (inBytes r) <= length (gBytes b) <= gCap b)%nat bufs.

(** Or an empty datagram. *)
Definition deliverable (bufs : list GBuf) (r : incoming) : Prop := inBytes r = [] \/ joinable bufs r.

(** The messages in front of the first empty one. *)
Fixpoint beforeEmpty (rs : list incoming) : list incoming :=
  match rs with [] => [] | r :: rs => if bool_decide (inBytes r = []) then [] else r :: beforeEmpty rs end.

Lemma beforeEmpty_split bufs rs :
  Forall (deliverable bufs) rs ->
  exists rest, rs = beforeEmpty rs ++ rest /\ Forall (joinable bufs) (beforeEmpty rs) /\ default [] (inBytes <$> head rest) = [].
Proof.
  induction 1 as [|r rs Hr _ (rest & IH1 & IH2 & IH3)]; [by exists []|]. cbn [beforeEmpty]. case_bool_decide as He.
  - by exists (r :: rs).
  - destruct Hr as [Hr|Hr]; [done|]. exists rest. cbn. by rewrite <- IH1; split_and!; [|constructor|].
Qed.

(** A received datagram with the address and the port of its endpoint. *)
Definition seen (p : list Z * option StdNetEndpoint) : list Z * option (ipAddr * Z) :=
  (p.1, (fun e => (seAddr e, sePort e)) <$> p.2).
Definition sentBy (a : UDPAddr) : ipAddr * Z := (default zeroAddr (AddrFromSlice (uaBytes a)), u16 (uaPortNo a)).

Lemma getSrc_keeps control ep : seAddr (getSrcFromControl control ep) = seAddr ep /\ sePort (getSrcFromControl control ep) = sePort ep.
Proof. unfold getSrcFromControl. by destruct goos. Qed.

Lemma received_view m p a : view m = (p, Some a) -> p <> [] -> seen (received m) = (p, Some (sentBy a)).
Proof.
  unfold view, seen, received. intros [= Hp Ha] Hne. cbn [fst snd]. rewrite Hp.
  destruct (Nat.eqb_spec (mN m) 0) as [E|_]; [rewrite E, take_0 in Hp; by subst|].
  unfold endpointOf. rewrite Ha. cbn [mbind option_bind fmap option_fmap option_map]. unfold sentBy.
  destruct (getSrc_keeps (mOOB m) (mkStdEndpoint (default zeroAddr (AddrFromSlice (uaBytes a))) (u16 (uaPortNo a)) [])) as [-> ->]. done.
Qed.

Lemma chunksF_nonempty f g l : (0 < g)%nat -> Forall (fun p => p <> []) (chunksF f g l).
Proof.
  intros Hg. revert l. induction f as [|f IH]; intros l; cbn [chunksF]; [constructor|].
  destruct (Nat.eqb_spec (length l) 0); constructor; [|apply IH].
  intros E. apply (f_equal length) in E. rewrite length_take in E. cbn in E. lia.
Qed.

Definition emptyMessage (b : GBuf) : Message := mkMessage b [] 0 None.

Lemma filled bufs b r :
  joinable bufs r -> b ∈ bufs ->
  let m := fillMessage (emptyMessage b) r in
  joined getGSOSize m /\ pieces getGSOSize m = (fun p => (p, Some (inAddr r))) <$> inDatagrams r /\
  (segmentOf getGSOSize m <= length (inBytes r))%nat /\ length (gBytes (mBuf m)) = length (gBytes b).
Proof.
  intros (Hok & Hseg & _ & Hb) Hin. rewrite Forall_forall in Hb. specialize (Hb b Hin). cbn zeta.
  set (m := fillMessage (emptyMessage b) r).
  assert (HN : mN m = length (inBytes r)) by (unfold m; cbn; lia).
  assert (Hs : segmentOf getGSOSize m = inSegment r) by (unfold segmentOf, inSegment; by rewrite HN).
  assert (Hl : length (gBytes (mBuf m)) = length (gBytes b)) by apply length_copy_into.
  assert (Hv : (view m).1 = inBytes r).
  { unfold view. rewrite HN. unfold m, fillMessage, copy_into. cbn [mBuf update gBytes emptyMessage fst].
    rewrite (take_ge (inBytes r)) by lia. apply take_app_length. }
  split_and!.
  - unfold joined. rewrite Hs, HN, Hl. split; [exact Hok|]. split; [lia|]. change (gCap (mBuf m)) with (gCap b). lia.
  - unfold pieces, inDatagrams. by rewrite Hs, Hv.
  - rewrite Hs. lia.
  - exact Hl.
Qed.

Definition fillAll (bs : list GBuf) (rs : list incoming) : list Message := zip_with fillMessage (emptyMessage <$> bs) rs.

Lemma fillAll_facts bufs bs rs :
  Forall (joinable bufs) rs -> Forall (fun b => b ∈ bufs) bs -> (length rs <= length bs)%nat ->
  Forall (joined getGSOSize) (fillAll bs rs) /\
  pieces getGSOSize <$> fillAll bs rs = (fun r => (fun p => (p, Some (inAddr r))) <$> inDatagrams r) <$> rs /\
  Forall (fun m => (length (pieces getGSOSize m) <= udpSegmentMaxDatagrams)%nat /\
                   Forall (fun b => segmentOf getGSOSize m <= length (gBytes b))%nat bufs) (fillAll bs rs).
Proof.
  intros Hall. revert bs. induction Hall as [|r rs Hr Hall IH]; intros bs Hin Hl.
  - unfold fillAll. by destruct bs.
  - destruct bs as [|b bs]; [cbn in Hl; lia|]. apply Forall_cons in Hin as [Hb Hin].
    destruct (IH bs Hin ltac:(cbn in Hl; lia)) as (Hj & Hp & Hs). destruct (filled bufs b r Hr Hb) as (J & P & S1 & _).
    cbn zeta in *. unfold fillAll in *. cbn [zip_with fmap list_fmap]. split_and!.
    + by constructor.
    + rewrite P. f_equal. exact Hp.
    + constructor; [|exact Hs]. rewrite P, length_fmap. destruct Hr as (_ & _ & Hd & Hbufs). split; [exact Hd|].
      eapply Forall_impl; [exact Hbufs|]. cbn. lia.
Qed.

(** The kernel leaves the sizes of the buffers alone. *)
Lemma fillAll_lens bs rs :
  bufLens (fillAll bs rs ++ (emptyMessage <$> drop (length rs) bs)) = (fun b => length (gBytes b)) <$> bs.
Proof.
  unfold fillAll, bufLens. revert bs. induction rs as [|r rs IH]; intros bs.
  - destruct bs; cbn; [done|]. f_equal. by rewrite <- list_fmap_compose.
  - destruct bs as [|b bs]; [done|]. cbn [zip_with fmap list_fmap length drop app]. f_equal; [apply length_copy_into|apply IH].
Qed.

Lemma fillAll_app bs r1 r2 :
  (length r1 <= length bs)%nat -> fillAll bs (r1 ++ r2) = fillAll bs r1 ++ fillAll (drop (length r1) bs) r2.
Proof.
  unfold fillAll. revert bs. induction r1 as [|r r1 IH]; intros bs Hl; [by destruct bs|].
  destruct bs as [|b bs]; [cbn in Hl; lia|]. cbn. f_equal. apply IH. cbn in Hl. lia.
Qed.

(** Behind them is an empty message, or one that was not filled. *)
Lemma fillAll_head bs rs tail :
  default [] (inBytes <$> head rs) = [] -> Forall (fun m => mN m = 0%nat) tail ->
  default 0%nat (mN <$> head (fillAll bs rs ++ tail)) = 0%nat.
Proof.
  intros Hr Ht. assert (Htail : default 0%nat (mN <$> head tail) = 0%nat) by (destruct Ht; [done|by cbn]).
  unfold fillAll. destruct rs as [|r rs], bs as [|b bs]; cbn; try done. cbn in Hr. rewrite Hr. cbn. lia.
Qed.

Lemma enoughRoom_two got :
  (length got <= 2)%nat -> Forall (fun m => (length (pieces getGSOSize m) <= udpSegmentMaxDatagrams)%nat) got ->
  enoughRoom getGSOSize 0 126 got.
Proof.
  intros Hl Hall. destruct got as [|m1 [|m2 [|m3 got]]]; [done|..|cbn in Hl; lia].
  - apply Forall_cons in Hall as [H1 _]. unfold udpSegmentMaxDatagrams in *. cbn [enoughRoom]. split; [lia|done].
  - apply Forall_cons in Hall as [H1 [H2 _]%Forall_cons]. unfold udpSegmentMaxDatagrams in *. cbn [enoughRoom]. split_and!; [lia|lia|done].
Qed.

(** The messages after the kernel filled those from the 126th on. *)
Lemma readInto_fillAll bufs rs :
  length bufs = IdealBatchSize -> (length rs <= 2)%nat ->
  readInto 126 (emptyMessage <$> bufs) rs =
    (emptyMessage <$> take 126 bufs) ++ fillAll (drop 126 bufs) rs ++ (emptyMessage <$> drop (length rs) (drop 126 bufs)).
Proof. intros Hb Hr. unfold readInto, fillAll. by rewrite <- !fmap_take, <- !fmap_drop, drop_drop. Qed.

Lemma seen_all ms ps :
  view <$> ms = ps -> Forall (fun p => p.1 <> [] /\ is_Some p.2) ps ->
  seen <$> (received <$> ms) = (fun p => (p.1, sentBy <$> p.2)) <$> ps.
Proof.
  revert ps. induction ms as [|m ms IH]; intros ps Hp Hall; cbn in Hp; subst; [done|].
  apply Forall_cons in Hall as [[Hne [a Ha]] Hall]. cbn [fmap list_fmap]. f_equal; [|by apply IH].
  rewrite (received_view m (view m).1 a); [|by rewrite <- Ha; destruct (view m)|done]. by rewrite Ha.
Qed.

Lemma seen_datagrams rs :
  (fun p : list Z * option UDPAddr => (p.1, sentBy <$> p.2)) <$> concat ((fun r => (fun p => (p, Some (inAddr r))) <$> inDatagrams r) <$> rs) =
  concat ((fun r => (fun p => (p, Some (sentBy (inAddr r)))) <$> inDatagrams r) <$> rs).
Proof.
  induction rs as [|r rs IH]; [done|]. cbn [fmap list_fmap concat]. rewrite fmap_app. f_equal; [|exact IH].
  by rewrite <- list_fmap_compose.
Qed.

(** C29: with receive offload, a batch of up to two messages, each empty or joined
    of at most 64 datagrams, never overflows the 128 buffers and is handed out as
    those datagrams, in order, each with the endpoint that sent it, up to the first
    empty message; with it whatever comes behind it is dropped. *)
Theorem receive_splits bufs pool rs :
  onLinux = true -> length bufs = IdealBatchSize -> length pool = IdealBatchSize -> (length rs <= 2)%nat ->
  Forall (deliverable bufs) rs ->
  exists out, receiveIP true bufs pool (Ok rs) = Some (Ok out) /\
    seen <$> out = concat ((fun r => (fun p => (p, Some (sentBy (inAddr r)))) <$> inDatagrams r) <$> beforeEmpty rs).
Proof.
  intros Hlinux Hbufs Hpool Hrs Hall. unfold receiveIP. rewrite Hlinux. cbn [andb].
  unfold receiveMessages. rewrite drop_ge, app_nil_r by lia. fold emptyMessage. rewrite length_fmap, Hbufs.
  change (IdealBatchSize - IdealBatchSize / udpSegmentMaxDatagrams)%nat with 126%nat.
  rewrite readInto_fillAll by done. assert (H126 : length (drop 126 bufs) = 2%nat) by (by rewrite length_drop, Hbufs).
  pose proof (fillAll_lens (drop 126 bufs) rs) as HB.
  destruct (beforeEmpty_split bufs rs Hall) as (rest & Hsplit_rs & Hfull & Hrest).
  set (rs1 := beforeEmpty rs) in *. assert (Hl1 : (length rs1 <= 2)%nat) by (rewrite Hsplit_rs, length_app in Hrs; lia).
  destruct (fillAll_facts bufs (drop 126 bufs) rs1 Hfull) as (Hj & Hp & Hs); [|lia|].
  { apply Forall_forall. intros b Hb. by apply (subseteq_drop 126). }
  rewrite Hsplit_rs, fillAll_app in HB |- * by lia. rewrite <- !app_assoc in HB |- *.
  set (got := fillAll _ rs1) in *. set (idle := fillAll _ rest ++ _) in *.
  assert (Hidle : default 0%nat (mN <$> head idle) = 0%nat) by (apply fillAll_head; [done|]; by apply Forall_fmap, Forall_true).
  set (free := emptyMessage <$> take 126 bufs).
  assert (Hfree : length free = 126%nat) by (unfold free; by rewrite length_fmap, length_take, Hbufs).
  assert (Hlens : bufLens (free ++ got ++ idle) = (fun b => length (gBytes b)) <$> bufs).
  { rewrite <- (take_drop 126 bufs) at 1. unfold bufLens in *. rewrite (fmap_app _ free), HB, fmap_app. f_equal.
    unfold free. by rewrite <- list_fmap_compose. }
  assert (Hgot : (length got <= 2)%nat) by (unfold got, fillAll; rewrite length_zip_with; lia).
  destruct (splitCoalescedMessages_pieces getGSOSize free got idle) as (msgs' & Hsplit & Hv); [done|..].
  - eapply Forall_impl; [exact Hs|]. cbn. intros m [_ Hm]. rewrite Hlens. by apply Forall_fmap.
  - rewrite Hfree. apply enoughRoom_two; [done|]. eapply Forall_impl; [exact Hs|]. by cbn; intros m [Hm _].
  - exact Hidle.
  - rewrite Hfree in Hsplit. rewrite Hsplit.
    assert (Hn : (length (concat (pieces getGSOSize <$> got)) <= 64 * 2)%nat).
    { transitivity (64 * length got)%nat; [|lia]. clear -Hs. induction Hs as [|m ms [Hm _] _ IH]; [cbn; lia|].
      cbn [fmap list_fmap concat length]. rewrite length_app. unfold udpSegmentMaxDatagrams in Hm. cbn [fmap] in IH. lia. }
    destruct (Nat.ltb_spec IdealBatchSize (length (concat (pieces getGSOSize <$> got)))) as [Hlt|_];
      [unfold IdealBatchSize in Hlt; lia|].
    eexists. split; [reflexivity|]. rewrite (seen_all _ _ Hv), Hp; [apply seen_datagrams|].
    rewrite Hp. apply Forall_concat, Forall_fmap. eapply Forall_impl; [exact Hfull|]. cbn. intros r (_ & Hseg & _).
    apply Forall_fmap. eapply Forall_impl; [apply chunksF_nonempty; apply Hseg|]. by cbn.
Qed.
End Receiving.

(** ** Concrete kernels for the sockets of a device

    Runs of [StdNetBind]: the theorems are applied to them, and three examples
    show what the code does when a family is missing and when a retry follows a
    joined batch. *)

(** A system that supports both families or one of them, gives port 40000 when
    any will do, and answers the write calls in order. *)
Definition sampleKernel (v4 v6 : bool) (writes : nat -> list Message -> nat * option Errno) : Kernel := {|
  listenPacket := fun _ is6 port =>
    if (if is6 : bool then v6 else v4) then Ok (if port =? 0 then 40000 else port) else Err EAFNOSUPPORT;
  localAddrResolves := fun _ => true;
  offloadFeatures := fun _ => (true, true);
  closeSocket := fun _ => None;
  WriteBatch := writes;
  WriteMsgUDP := fun _ _ => None;
  setsockoptMark := fun _ _ => None
|}.

Definition allWritten : nat -> list Message -> nat * option Errno := fun _ msgs => (length msgs, None).
(** The first batch fails because of its segment size. *)
Definition firstFails : nat -> list Message -> nat * option Errno :=
  fun call msgs => if (call =? 2)%nat then (0%nat, Some EIO) else (length msgs, None).

Lemma sampleKernel_ports v4 v6 w : @KernelPorts (sampleKernel v4 v6 w).
Proof.
  split; cbn.
  - intros c [] p q Hp; destruct v4, v6; try done; destruct (Z.eqb_spec p 0); [done|by intros [= <-]..].
  - intros c [] q; destruct v4, v6; try done; intros [= <-]; lia.
Qed.

Lemma sampleKernel_progress v4 v6 w : w = allWritten \/ w = firstFails -> @KernelProgress (sampleKernel v4 v6 w).
Proof.
  intros Hw c msgs n Hb. assert (n = length msgs) as ->.
  { destruct Hw as [-> | ->]; cbn in Hb; unfold allWritten, firstFails in Hb; [by injection Hb|].
    destruct (c =? 2)%nat; [done|by injection Hb]. }
  split; [lia|]. destruct msgs; [done|cbn; lia].
Qed.

Definition sampleEp : StdNetEndpoint := mkStdEndpoint (mkIP 4 0x7f000001) 51820 [].
Definition sampleAddr : UDPAddr := mkUDPAddr [127; 0; 0; 1] 51820.
(** The bind after it was opened, where both families are supported. *)
Definition opened (os : platform) : StdNetBind :=
  default NewStdNetBind (snd <$> @Open os (sampleKernel true true allWritten) 51820 NewStdNetBind).
Definition openedBind : StdNetBind := opened Linux.

Lemma opened_reachable os w : @bindReachable true os (sampleKernel true true w) (opened os).
Proof.
  eapply bindNext; [apply bindNew|]. eapply (bindOpenStep 51820). destruct os; vm_compute; reflexivity.
Qed.

(** Two datagrams fill the first buffer; two smaller ones follow. *)
Definition sampleBufs : list GBuf :=
  [mkGBuf [1; 2; 3] 6; mkGBuf [4; 5; 6] 6; mkGBuf [7] 2; mkGBuf [8] 2].

(** Where only IPv6 is supported the asked port is lost: the IPv6 socket listens
    on another one; where only IPv4 is, the port is reported as zero. *)
Example port_lost :
  let run v4 v6 := fst <$> @Open OtherOS (sampleKernel v4 v6 allWritten) 51820 NewStdNetBind in
  run true true = Some (Ok ([0; 1]%nat, 51820)) /\ run false true = Some (Ok ([1]%nat, 40000)) /\
  run true false = Some (Ok ([0]%nat, 0)).
Proof. by vm_compute. Qed.

(** Without IPv4, a failure of IPv6 closes a socket that does not exist. *)
Example close_panics :
  @Open OtherOS {| listenPacket := fun _ is6 _ => Err (if is6 : bool then EADDRINUSE else EAFNOSUPPORT);
                   localAddrResolves := fun _ => true; offloadFeatures := fun _ => (false, false);
                   closeSocket := fun _ => None; WriteBatch := allWritten; WriteMsgUDP := fun _ _ => None; setsockoptMark := fun _ _ => None |}
    51820 NewStdNetBind = None.
Proof. by vm_compute. Qed.

(** On Android nothing clears the segment size of the first attempt: the retry
    cuts the second buffer into pieces.  On Linux the buffers leave as they are. *)
Example retry_cuts :
  let run os := (fun p => (p.1, snd <$> onWire p.2)) <$> @Send true os (sampleKernel true true firstFails) sampleBufs sampleEp (opened os) in
  run Linux = Some (Err (ErrUDPGSODisabled None), [[1; 2; 3]; [4; 5; 6]; [7]; [8]]) /\
  run Android = Some (Err (ErrUDPGSODisabled None), [[1; 2; 3]; [4]; [5]; [6]; [7]; [8]]).
Proof. by vm_compute. Qed.

Lemma send_delivers_witness :
  let out := (fun b => (0%nat, Some sampleAddr, gBytes b)) <$> sampleBufs in
  exists r s' w, @Send true Linux (sampleKernel true true firstFails) sampleBufs sampleEp openedBind = Some (r, s') /\
    onWire s' = onWire openedBind ++ w /\ (r = Ok tt -> w = out) /\
    (@kernelTakes (sampleKernel true true firstFails) -> r = Ok tt) /\
    (r = Err (ErrUDPGSODisabled None) -> Linux = Linux -> exists part, w = part ++ out).
Proof.
  apply (@send_delivers true Linux (sampleKernel true true firstFails) (sampleKernel_progress _ _ _ (or_intror eq_refl))
           sampleBufs sampleEp openedBind 0%nat sampleAddr).
  - reflexivity.
  - reflexivity.
  - vm_compute. reflexivity.
  - apply opened_reachable.
  - repeat (apply Forall_cons; split; [discriminate|]). constructor.
  - vm_compute. lia.
  - split; [constructor|vm_compute; lia].
Defined.

Definition sampleRecv : incoming := mkIncoming [1; 2; 3] [mkCmsg SOL_UDP UDP_GRO [2; 0]] sampleAddr.
Definition samplePool : list GBuf := replicate IdealBatchSize (mkGBuf [0; 0; 0; 0] 4).

Lemma receive_splits_witness :
  exists out, @receiveIP true Linux true samplePool samplePool (Ok [sampleRecv]) = Some (Ok out) /\
    seen <$> out = [([1; 2], Some (sentBy sampleAddr)); ([3], Some (sentBy sampleAddr))].
Proof.
  apply (@receive_splits true Linux samplePool samplePool [sampleRecv]); try reflexivity; [vm_compute; lia|].
  apply Forall_cons; split; [|constructor]. right. split_and!; [reflexivity|vm_compute; lia|vm_compute; lia|vm_compute; lia|].
  apply Forall_replicate. vm_compute. lia.
Defined.

Definition openedState : StdNetBind := opened OtherOS.

Lemma sockets_accounted_witness :
  openSockets openedState = {[ 0; 1 ]}%nat /\
  openSockets (@Close (sampleKernel true true allWritten) openedState).2 = @leaked (sampleKernel true true allWritten) openedState /\
  @leaked (sampleKernel true true allWritten) openedState = ∅.
Proof.
  destruct (@sockets_accounted true OtherOS (sampleKernel true true allWritten) openedState) as (H1 & _ & H3 & _ & H5);
    [apply opened_reachable|]. specialize (H5 (fun _ => eq_refl)). split_and!; [|exact H3|exact H5].
  rewrite H1, H5. vm_compute. reflexivity.
Defined.

(** A socket whose own address does not resolve stays open for good. *)
Definition deafKernel : Kernel := {|
  listenPacket := fun _ _ port => Ok port; localAddrResolves := fun _ => false; offloadFeatures := fun _ => (false, false);
  closeSocket := fun _ => None; WriteBatch := allWritten; WriteMsgUDP := fun _ _ => None; setsockoptMark := fun _ _ => None |}.
Example socket_left :
  (fun p => (p.1, elements (openSockets p.2))) <$> @Open OtherOS deafKernel 51820 NewStdNetBind = Some (Err (ErrErrno EOther), [0%nat]).
Proof. by vm_compute. Qed.

(** An empty buffer behind another is joined to nothing and no datagram leaves for
    it; one buffer more than there are messages panics. *)
Example empty_buffer_lost :
  (fun p => (p.1, snd <$> onWire p.2)) <$>
    @Send true Linux (sampleKernel true true allWritten) [mkGBuf [1; 2] 9; mkGBuf [] 9; mkGBuf [3] 9] sampleEp openedBind =
  Some (Ok tt, [[1; 2]; [3]]).
Proof. by vm_compute. Qed.

Example too_many_buffers :
  let bufs := replicate 129 (mkGBuf [1] 1) in
  @Send true Linux (sampleKernel true true allWritten) bufs sampleEp openedBind = None /\
  @Send true OtherOS (sampleKernel true true allWritten) bufs sampleEp openedState = None.
Proof. by vm_compute. Qed.

(** An empty datagram takes the one behind it along. *)
Example empty_drops_next :
  @receiveIP true Linux true samplePool samplePool (Ok [mkIncoming [] [] sampleAddr; sampleRecv]) = Some (Ok []).
Proof. by vm_compute. Qed.

Lemma open_ports_witness :
  0 <= 51820 < 65536 /\
  @listenPacket (sampleKernel true true allWritten) 0 false 51820 = Ok 51820.
Proof.
  split; [lia|].
  apply (@open_ports OtherOS (sampleKernel true true allWritten) (sampleKernel_ports _ _ _) 51820 NewStdNetBind 0 1 51820 openedState);
    [lia|vm_compute; reflexivity].
Defined.
