(* ===== verification/PrConfig.v ===== *)
(** * The live tunnel's configuration
      ([src/awg-ios/cmd/persianray/config.go], [policy.go], [filterSame24] of [hop.go])

    The decoded JSON is the record [socksConfig]; its checks, the configuration
    text handed to the device, the endpoints of the inner hop, and the policy
    that decides what happens to a connection. *)

From stdpp Require Import base numbers list strings.
From Stdlib Require Import ZArith Lia.
From S2P Require Import Prelude GoStrings AllowedIPs NetIP Obf GoNet.

(** ** The configuration *)

Record socksConfig := mkConfig {
  cPrivateKey : list Z; cPeerPublicKey : list Z; cAddress : list Z; cEndpoint : list Z; cDNS : list Z;
  cJc : Z; cJmin : Z; cJmax : Z; cI1 : list Z; cI1Sni : list Z; cBind : list Z; cSocksPort : Z;
  cHop : bool; cHopShield : bool; cInnerPrivateKey : list Z; cInnerPeerPublicKey : list Z;
  cInnerAddress : list Z; cInnerEndpoint : list Z; cInnerEndpoints : list (list Z);
  cApplyPolicy : bool;
  cBlockAds : bool; cBlockAdult : bool; cSafeSearch : bool; cBypassLocal : bool; cBlockQuic : bool; cSafeSearchVIP : list Z;
  cAdExact : list (list Z); cAdSuffix : list (list Z); cAdultExact : list (list Z); cAdultSuffix : list (list Z);
  cLocalSuffix : list (list Z); cSafeSearchExact : list (list Z); cDoHExact : list (list Z); cDoHSuffix : list (list Z)
}.
#[global] Instance rebuild_socksConfig : Rebuild socksConfig := fun c => mkConfig
  (cPrivateKey c) (cPeerPublicKey c) (cAddress c) (cEndpoint c) (cDNS c) (cJc c) (cJmin c) (cJmax c) (cI1 c) (cI1Sni c)
  (cBind c) (cSocksPort c) (cHop c) (cHopShield c) (cInnerPrivateKey c) (cInnerPeerPublicKey c) (cInnerAddress c)
  (cInnerEndpoint c) (cInnerEndpoints c) (cApplyPolicy c) (cBlockAds c) (cBlockAdult c) (cSafeSearch c) (cBypassLocal c)
  (cBlockQuic c) (cSafeSearchVIP c) (cAdExact c) (cAdSuffix c) (cAdultExact c) (cAdultSuffix c) (cLocalSuffix c)
  (cSafeSearchExact c) (cDoHExact c) (cDoHSuffix c).

Inductive cfgError := ErrNeedsKeys | ErrSocksPort | ErrHopKeys | ErrKey | ErrI1.

Definition orDefault (s dflt : list Z) : list Z := if bool_decide (s = []) then dflt else s.

Definition defaultHopEndpoint : list Z := str "188.114.97.170:2408".

(** [parseConfigJSON] after [json.Unmarshal]. *)
Definition checkConfig (c : socksConfig) : result cfgError socksConfig :=
  if bool_decide (cPrivateKey c = []) || bool_decide (cPeerPublicKey c = []) || bool_decide (cEndpoint c = []) then Err ErrNeedsKeys
  else
    let c := c <| cAddress ::= (fun s => orDefault s (str "172.16.0.2/32")) |> in
    let c := c <| cDNS ::= (fun s => orDefault s (str "1.1.1.1")) |> in
    let c := c <| cBind ::= (fun s => orDefault s (str "127.0.0.1")) |> in
    if (cSocksPort c <? 0) || (65535 <? cSocksPort c) then Err ErrSocksPort
    else
      let c := if cJmax c <? cJmin c then c <| cJmax := cJmin c |> else c in
      let c := if bool_decide (trimSpace (cSafeSearchVIP c) = []) then c <| cSafeSearchVIP := str "216.239.38.120" |> else c in
      if cHop c then
        if bool_decide (cInnerPrivateKey c = []) || bool_decide (cInnerPeerPublicKey c = []) then Err ErrHopKeys
        else
          let c := c <| cInnerAddress ::= (fun s => orDefault s (str "172.16.0.2/32")) |> in
          Ok (if bool_decide (trimSpace (cInnerEndpoint c) = []) && (length (cInnerEndpoints c) =? 0)%nat
              then c <| cInnerEndpoint := defaultHopEndpoint |> else c)
      else Ok c.

(** ** Keys *)

(** [strings.ReplaceAll] of one byte by another. *)
Definition replaceByte (x y : Z) (s : list Z) : list Z := map (fun c => if c =? x then y else c) s.

(** The loop that appends [=] until the length is a multiple of four. *)
Definition padBase64 (s : list Z) : list Z := s ++ replicate ((4 - length s mod 4) mod 4) 61.

Definition keyToHex (b64 : list Z) : result cfgError (list Z) :=
  let s := trimSpace b64 in
  let s := replaceByte 45 43 s in
  let s := replaceByte 95 47 s in
  match b64Decode (padBase64 s) with
  | None => Err ErrKey
  | Some raw => if (length raw =? 32)%nat then Ok (hexEncode raw) else Err ErrKey
  end.

(** ** Endpoints of the inner hop *)

Definition normalizeEndpoint (s : list Z) : list Z :=
  let s := trimSpace s in
  if bool_decide (s = []) then []
  else if negb (containsByte s 58) then JoinHostPort s (str "2408")
  else match SplitHostPort s with
       | None => []
       | Some (host, port) => JoinHostPort host port
       end.

(** The closure [add] of [hopInnerHosts]; [seen] holds exactly what is in [out]. *)
Definition addHost (out : list (list Z)) (s : list Z) : list (list Z) :=
  let s := normalizeEndpoint s in
  if bool_decide (s = []) || bool_decide (s ∈ out) then out else out ++ [s].

Definition hopInnerHosts (c : socksConfig) : list (list Z) :=
  let out := addHost [] (cInnerEndpoint c) in
  let out := foldl addHost out (cInnerEndpoints c) in
  if (length out =? 0)%nat then addHost out defaultHopEndpoint else out.

(** ** What a ping probe runs with *)

Definition cloneForPing (c : socksConfig) (endpoint : list Z) : socksConfig :=
  c <| cEndpoint := endpoint |> <| cApplyPolicy := false |> <| cBlockAds := false |> <| cBlockAdult := false |>
    <| cSafeSearch := false |> <| cBypassLocal := false |> <| cBlockQuic := false |>
    <| cAdExact := [] |> <| cAdSuffix := [] |> <| cAdultExact := [] |> <| cAdultSuffix := [] |>
    <| cLocalSuffix := [] |> <| cSafeSearchExact := [] |> <| cDoHExact := [] |> <| cDoHSuffix := [] |>
    <| cSocksPort := 0 |> <| cBind := str "127.0.0.1" |> <| cHopShield := false |> <| cInnerEndpoints := [] |>.

(** ** The policy *)

Inductive policyAction := actTunnel | actDirect | actBlockAds | actBlock | actSafeSearch.

Definition policyOn (c : socksConfig) : bool :=
  if negb (cApplyPolicy c) then false
  else cBlockAds c || cBlockAdult c || cSafeSearch c || cBypassLocal c || cBlockQuic c.

Fixpoint matchSuffix (host : list Z) (suffix : list (list Z)) : bool :=
  match suffix with
  | [] => false
  | s :: suffix => if bool_decide (host = s) || hasSuffix host (46 :: s) then true else matchSuffix host suffix
  end.

Fixpoint matchHost (host : list Z) (exact suffix : list (list Z)) : bool :=
  match exact with
  | [] => matchSuffix host suffix
  | e :: exact => if bool_decide (host = e) then true else matchHost host exact suffix
  end.

Definition action (c : socksConfig) (host : list Z) (port : Z) : policyAction :=
  if negb (policyOn c) then actTunnel
  else
    let h := toLower (trimSuffix host [46]) in
    if cBlockAds c && matchHost h (cAdExact c) (cAdSuffix c) then actBlockAds
    else if cBlockAdult c && matchHost h (cAdultExact c) (cAdultSuffix c) then actBlock
    else if cSafeSearch c && (port =? 853) then actBlock
    else if cSafeSearch c && matchHost h (cDoHExact c) (cDoHSuffix c) then actBlock
    else if cSafeSearch c && matchHost h (cSafeSearchExact c) [] then actSafeSearch
    else if cBypassLocal c && matchHost h [] (cLocalSuffix c) then actDirect
    else actTunnel.

Definition dropQUIC (c : socksConfig) (port : Z) : bool :=
  if negb (cApplyPolicy c) then false else (cBlockQuic c || cSafeSearch c) && (port =? 443).

Definition joinHostPort (host : list Z) (port : Z) : list Z := JoinHostPort host (itoa port).

(** ** The inner hosts outside the outer endpoint's /24 *)

Definition is4 (a : ipAddr) : bool := ipLen a =? 4.

(** [Prefix.Contains] for two IPv4 addresses and 24 bits. *)
Definition same24 (a b : ipAddr) : bool := ipVal a / 256 =? ipVal b / 256.

Definition outerHost (outerEP : list Z) : list Z :=
  match SplitHostPort (normalizeEndpoint outerEP) with
  | Some (oh, _) => oh
  | None =>
      let oh := trimSpace (trimSuffix outerEP (str ":2408")) in
      match lastIndexByte outerEP 58 with
      | Some i => if (0 <? i)%nat && bool_decide (is_Some (ParseIP (take i outerEP))) then take i outerEP else oh
      | None => oh
      end
  end.

(** [netip.ParseAddr]; an address with a zone is not an IPv4 address. *)
Definition keepHost (oaddr : ipAddr) (h : list Z) : bool :=
  match SplitHostPort h with
  | None => true
  | Some (host, _) =>
      match ParseAddr host with
      | Some (a, _) => negb (is4 a) || negb (same24 oaddr a)
      | None => true
      end
  end.

Definition filterSame24 (hosts : list (list Z)) (outerEP : list Z) : list (list Z) :=
  match ParseAddr (outerHost outerEP) with
  | Some (oaddr, _) => if is4 oaddr then List.filter (keepHost oaddr) hosts else hosts
  | None => hosts
  end.
