(* ===== verification/PrConfigThm.v ===== *)
(** * Endpoints, host lists and the policy

    What [normalizeEndpoint], [hopInnerHosts], [filterSame24], [matchHost],
    [action] and [cloneForPing] come to. *)

From stdpp Require Import base numbers list sets strings.
From Stdlib Require Import ZArith Lia.
From S2P Require Import Prelude GoStrings AllowedIPs NetIP Obf GoNet PrConfig.

(** ** Trimming *)

Definition noSpace (s : list Z) : Prop := Forall (fun c => isSpace c = false) s.

Lemma trimLeftSpace_id s : noSpace s -> trimLeftSpace s = s.
Proof. intros H. destruct H as [|x s Hx Hs]; [done|]. cbn [trimLeftSpace]. by rewrite Hx. Qed.

Lemma trimSpace_id s : noSpace s -> trimSpace s = s.
Proof.
  intros H. unfold trimSpace. rewrite (trimLeftSpace_id s) by done. rewrite trimLeftSpace_id; [by rewrite reverse_involutive|].
  unfold noSpace. by apply Forall_reverse.
Qed.

Lemma trimLeftSpace_suffix s : exists pre, s = pre ++ trimLeftSpace s.
Proof.
  induction s as [|x s [pre IH]]; [by exists []|]. cbn [trimLeftSpace]. destruct (isSpace x); [|by exists []].
  exists (x :: pre). by rewrite IH at 1.
Qed.

Lemma trimSpace_infix s : exists pre post, s = pre ++ trimSpace s ++ post.
Proof.
  unfold trimSpace. destruct (trimLeftSpace_suffix s) as [pre E]. destruct (trimLeftSpace_suffix (reverse (trimLeftSpace s))) as [post E2].
  exists pre, (reverse post). rewrite E at 1. f_equal. rewrite <- reverse_app, <- E2. by rewrite reverse_involutive.
Qed.

(** ** Endpoints *)

Lemma JoinHostPort_colon h p : 58 ∈ JoinHostPort h p /\ JoinHostPort h p <> [].
Proof. unfold JoinHostPort. destruct (containsByte h 58); split; try set_solver; by destruct h. Qed.

Lemma portOk_2408 : portOk (str "2408").
Proof. unfold portOk. cbn. set_solver by lia. Qed.

(** The parts of a normalised endpoint. *)
Lemma normalizeEndpoint_parts s :
  normalizeEndpoint s <> [] -> 58 ∈ trimSpace s \/ hostOk (trimSpace s) ->
  exists h p, normalizeEndpoint s = JoinHostPort h p /\ hostOk h /\ portOk p.
Proof.
  unfold normalizeEndpoint. case_bool_decide as E; [done|]. destruct (containsByte (trimSpace s) 58) eqn:Ec; cbn [negb].
  - destruct (SplitHostPort (trimSpace s)) as [[h p]|] eqn:Es; [|done]. intros _ _. destruct (SplitHostPort_ok _ _ _ Es). by exists h, p.
  - intros _ [Hc|Hh]; [by apply containsByte_false in Ec|]. exists (trimSpace s), (str "2408"). split; [done|]. split; [done|apply portOk_2408].
Qed.

Lemma noSpace_app s1 s2 : noSpace (s1 ++ s2) <-> noSpace s1 /\ noSpace s2.
Proof. apply Forall_app. Qed.

Lemma noSpace_sub s1 s2 : (forall x, x ∈ s1 -> x ∈ s2) -> noSpace s2 -> noSpace s1.
Proof. unfold noSpace. rewrite !Forall_forall. auto. Qed.

Lemma SplitHostPort_sub s h p : SplitHostPort s = Some (h, p) -> (forall x, x ∈ h -> x ∈ s) /\ (forall x, x ∈ p -> x ∈ s).
Proof.
  unfold SplitHostPort. destruct (lastIndexByte s 58) as [i|]; [|done].
  assert (Ht : forall n x, x ∈ take n s -> x ∈ s) by (intros n x Hx; rewrite <- (take_drop n s); set_solver).
  assert (Hd : forall n x, x ∈ drop n s -> x ∈ s) by (intros n x Hx; rewrite <- (take_drop n s); set_solver).
  assert (Hs : forall a b x, x ∈ slice s a b -> x ∈ s).
  { intros a b x Hx. unfold slice in Hx. apply (Hd a). rewrite <- (take_drop (b - a) (drop a s)). set_solver. }
  set (o := match s with 91 :: _ => _ | _ => _ end).
  assert (Ho : forall h' j k, o = Some (h', j, k) -> forall x, x ∈ h' -> x ∈ s).
  { intros h' j k. unfold o. clear o.
    assert (Hplain : (if containsByte (take i s) 58 then None else Some (take i s, 0%nat, 0%nat)) = Some (h', j, k) -> forall x, x ∈ h' -> x ∈ s)
      by (destruct (containsByte _ _); [done|]; intros [= <- <- <-]; apply Ht).
    destruct s as [|z s']; [exact Hplain|]. destruct z as [|z|z]; try exact Hplain. do 7 (destruct z as [z|z|]; try exact Hplain).
    destruct (indexByte _ 93) as [e|]; [|done]. destruct (_ =? _)%nat; [|done]. intros [= <- <- <-]. apply Hs. }
  destruct o as [[[h' j] k]|]; [|done]. cbn [mbind option_bind]. destruct (_ || _); [done|]. intros [= <- <-].
  split; [by apply (Ho h' j k)|apply Hd].
Qed.

Lemma noSpace_join h p : noSpace h -> noSpace p -> noSpace (JoinHostPort h p).
Proof.
  intros Hh Hp. unfold JoinHostPort. destruct (containsByte h 58).
  - constructor; [done|]. apply noSpace_app. split; [done|]. by repeat constructor.
  - apply noSpace_app. split; [done|]. by constructor.
Qed.

(** Normalised endpoints are canonical.  An endpoint that [normalizeEndpoint]
    does not refuse becomes a host and a port joined so that [SplitHostPort]
    gives the same two back, and, without blanks inside, normalising it again
    changes nothing: the comparison of normalised endpoints in [hopInnerHosts] is
    one of hosts and ports. *)
Theorem normalize_endpoint_canonical s :
  normalizeEndpoint s <> [] -> 58 ∈ trimSpace s \/ hostOk (trimSpace s) ->
  exists h p, normalizeEndpoint s = JoinHostPort h p /\ SplitHostPort (normalizeEndpoint s) = Some (h, p) /\
    (noSpace s -> normalizeEndpoint (normalizeEndpoint s) = normalizeEndpoint s).
Proof.
  intros Hn Hs. destruct (normalizeEndpoint_parts s Hn Hs) as (h & p & E & Hh & Hp).
  assert (Es : SplitHostPort (JoinHostPort h p) = Some (h, p)) by by apply split_join.
  exists h, p. rewrite E. split; [done|]. split; [done|]. intros Hsp.
  assert (Hj : noSpace (JoinHostPort h p)).
  { rewrite <- E. unfold normalizeEndpoint. rewrite trimSpace_id by done. case_bool_decide; [constructor|].
    destruct (negb _); [apply noSpace_join; [done|by repeat constructor]|].
    destruct (SplitHostPort s) as [[h' p']|] eqn:E'; [|constructor]. destruct (SplitHostPort_sub _ _ _ E').
    apply noSpace_join; by eapply noSpace_sub. }
  unfold normalizeEndpoint at 1. rewrite trimSpace_id by done. destruct (JoinHostPort_colon h p) as [Hc Hne].
  rewrite bool_decide_eq_false_2 by done. replace (containsByte _ 58) with true by (symmetry; by apply bool_decide_eq_true).
  cbn [negb]. by rewrite Es.
Qed.

Lemma normalize_endpoint_canonical_witness :
  normalizeEndpoint (str "[188.114.97.170]:2408") = str "188.114.97.170:2408" /\
  normalizeEndpoint (normalizeEndpoint (str "[188.114.97.170]:2408")) = str "188.114.97.170:2408".
Proof.
  split; [reflexivity|].
  destruct (normalize_endpoint_canonical (str "[188.114.97.170]:2408")) as (h & p & _ & _ & H).
  - done.
  - left. apply (list_elem_of_lookup_2 _ 16). reflexivity.
  - rewrite H; [reflexivity|]. by repeat constructor.
Defined.

(** ** The inner hosts *)

Definition configuredHosts (c : socksConfig) : list (list Z) := map normalizeEndpoint (cInnerEndpoint c :: cInnerEndpoints c).

Lemma addHost_spec out s :
  NoDup out -> [] ∉ out ->
  NoDup (addHost out s) /\ [] ∉ addHost out s /\
  (forall h, h ∈ addHost out s <-> h ∈ out \/ h = normalizeEndpoint s /\ h <> []) /\ exists l, addHost out s = out ++ l.
Proof.
  intros Hn He. unfold addHost. case_bool_decide as E; [|case_bool_decide as E2]; cbn [orb].
  - split; [done|]. split; [done|]. split; [intros h; rewrite E; naive_solver|exists []; by rewrite app_nil_r].
  - split; [done|]. split; [done|]. split; [intros h; naive_solver|exists []; by rewrite app_nil_r].
  - split; [apply NoDup_app; split; [done|]; split; [set_solver|apply NoDup_singleton]|].
    split; [set_solver|]. split; [|eauto]. intros h. rewrite elem_of_app, list_elem_of_singleton. naive_solver.
Qed.

Lemma foldl_addHost l out :
  NoDup out -> [] ∉ out ->
  NoDup (foldl addHost out l) /\ [] ∉ foldl addHost out l /\
  (forall h, h ∈ foldl addHost out l <-> h ∈ out \/ h ∈ map normalizeEndpoint l /\ h <> []) /\ exists l', foldl addHost out l = out ++ l'.
Proof.
  revert out. induction l as [|s l IH]; intros out Hn He; cbn [foldl map].
  - split; [done|]. split; [done|]. split; [intros h; set_solver|exists []; by rewrite app_nil_r].
  - destruct (addHost_spec out s Hn He) as (A1 & A2 & A3 & l1 & A4). destruct (IH (addHost out s) A1 A2) as (B1 & B2 & B3 & l2 & B4).
    split; [done|]. split; [done|]. split; [|exists (l1 ++ l2); by rewrite B4, A4, app_assoc].
    intros h. rewrite B3, A3, elem_of_cons. naive_solver.
Qed.

Lemma defaultHop_normal : normalizeEndpoint defaultHopEndpoint = defaultHopEndpoint.
Proof. reflexivity. Qed.

(** The inner hop always has somewhere to go.  [hopInnerHosts] is a non-empty
    list without duplicates and without empty entries; it holds exactly the
    configured endpoints that normalise, the one of [inner_endpoint] first, and
    only when there is none the default endpoint. *)
Theorem hop_inner_hosts_spec c :
  NoDup (hopInnerHosts c) /\ hopInnerHosts c <> [] /\
  (forall h, h ∈ hopInnerHosts c <->
     h <> [] /\ (h ∈ configuredHosts c \/ h = defaultHopEndpoint /\ Forall (fun e => e = []) (configuredHosts c))) /\
  (normalizeEndpoint (cInnerEndpoint c) <> [] -> head (hopInnerHosts c) = Some (normalizeEndpoint (cInnerEndpoint c))).
Proof.
  unfold hopInnerHosts. destruct (addHost_spec [] (cInnerEndpoint c)) as (A1 & A2 & A3 & l1 & A4); [constructor|set_solver|].
  destruct (foldl_addHost (cInnerEndpoints c) (addHost [] (cInnerEndpoint c)) A1 A2) as (B1 & B2 & B3 & l2 & B4).
  set (out := foldl addHost _ _) in *.
  assert (Hin : forall h, h ∈ out <-> h <> [] /\ h ∈ configuredHosts c).
  { intros h. rewrite B3, A3. unfold configuredHosts. cbn [map]. rewrite elem_of_cons. set_solver. }
  assert (Hnil : out = [] <-> Forall (fun e => e = []) (configuredHosts c)).
  { rewrite Forall_forall. split.
    - intros E x Hx. destruct (decide (x = [])) as [|Hne]; [done|]. exfalso. assert (x ∈ out) by (by apply Hin). rewrite E in *. set_solver.
    - intros HF. destruct out as [|x out']; [done|]. exfalso. assert (Hx : x ∈ x :: out') by set_solver. apply Hin in Hx as [H1 H2]. by apply H1, HF. }
  destruct out as [|x out'] eqn:Eo; cbn [length Nat.eqb].
  - destruct (addHost_spec [] defaultHopEndpoint) as (D1 & D2 & D3 & _); [constructor|set_solver|].
    rewrite defaultHop_normal in D3. split; [done|]. split; [|split].
    + intros E. assert (H : defaultHopEndpoint ∈ addHost [] defaultHopEndpoint) by (apply D3; right; done). rewrite E in H. set_solver.
    + intros h. rewrite D3. assert (HF : Forall (fun e => e = []) (configuredHosts c)) by (by apply Hnil).
      rewrite Forall_forall in HF. split; [intros [H|[-> H]]; [set_solver|split; [done|right; by rewrite Forall_forall]]|].
      intros [Hne [Hc|[-> _]]]; [by apply HF in Hc|by right].
    + intros Hne. exfalso. apply Hne. assert (HF : Forall (fun e => e = []) (configuredHosts c)) by (by apply Hnil).
      unfold configuredHosts in HF. by apply Forall_cons in HF as [-> _].
  - split; [done|]. split; [done|]. split.
    + intros h. rewrite Hin. split; [naive_solver|]. intros [Hne [H|[-> HF]]]; [done|]. by apply Hnil in HF.
    + intros Hne. assert (Ea : addHost [] (cInnerEndpoint c) = [normalizeEndpoint (cInnerEndpoint c)]).
      { unfold addHost. rewrite bool_decide_eq_false_2 by done. cbn [orb]. by rewrite bool_decide_eq_false_2 by set_solver. }
      rewrite B4, Ea. done.
Qed.

(** ** Hosts and labels *)

Definition labels (s : list Z) : list (list Z) := splitByte 46 s.

Lemma splitByte_cut c a b : splitByte c (a ++ c :: b) = splitByte c a ++ splitByte c b.
Proof.
  induction a as [|x a IH]; cbn [splitByte app]; [by rewrite Z.eqb_refl|]. destruct (x =? c); [by rewrite IH|].
  rewrite IH. destruct (splitByte c a) as [|h t] eqn:E; [by apply splitByte_nonnil in E|done].
Qed.

Lemma joinByte_cons c x xs : xs <> [] -> joinByte c (x :: xs) = x ++ c :: joinByte c xs.
Proof. destruct xs as [|y xs]; [done|]. intros _. cbn. by rewrite app_comm_cons. Qed.

Lemma join_split c s : joinByte c (splitByte c s) = s.
Proof.
  induction s as [|x s IH]; [done|]. cbn [splitByte]. destruct (Z.eqb_spec x c) as [->|].
  - rewrite joinByte_cons by apply splitByte_nonnil. by rewrite IH.
  - destruct (splitByte c s) as [|h t] eqn:E; [by apply splitByte_nonnil in E|].
    destruct t as [|t ts]; [cbn in *; rewrite app_nil_r in *; by f_equal|].
    rewrite joinByte_cons in IH |- * by done. cbn. by f_equal.
Qed.

Lemma joinByte_app c xs ys : xs <> [] -> ys <> [] -> joinByte c (xs ++ ys) = joinByte c xs ++ c :: joinByte c ys.
Proof.
  intros Hx Hy. induction xs as [|x xs IH]; [done|]. destruct xs as [|x' xs].
  - cbn [app]. rewrite joinByte_cons by done. cbn. by rewrite app_nil_r.
  - cbn [app]. rewrite !(joinByte_cons c x) by done. cbn [app] in IH. rewrite IH by done. by rewrite <- app_assoc.
Qed.

Lemma hasSuffix_iff s p : hasSuffix s p = true <-> exists pre, s = pre ++ p.
Proof.
  unfold hasSuffix. rewrite andb_true_iff, Nat.leb_le, bool_decide_eq_true. split.
  - intros [Hl E]. exists (take (length s - length p) s). pose proof (take_drop (length s - length p) s) as H. by rewrite E in H.
  - intros [pre ->]. rewrite length_app. split; [lia|]. replace (length pre + length p - length p)%nat with (length pre) by lia.
    apply drop_app_length.
Qed.

Lemma suffix_labels host s : (host = s \/ hasSuffix host (46 :: s) = true) <-> labels s `suffix_of` labels host.
Proof.
  unfold labels. split.
  - intros [->|H]; [done|]. apply hasSuffix_iff in H as [pre ->]. rewrite splitByte_cut. by exists (splitByte 46 pre).
  - intros [k E]. destruct k as [|k ks]; cbn [app] in E.
    + left. rewrite <- (join_split 46 host), E. apply join_split.
    + right. apply hasSuffix_iff. exists (joinByte 46 (k :: ks)).
      rewrite <- (join_split 46 host), E, app_comm_cons, joinByte_app; [by rewrite join_split|done|apply splitByte_nonnil].
Qed.

Lemma matchSuffix_iff host suffix : matchSuffix host suffix = true <-> exists s, s ∈ suffix /\ labels s `suffix_of` labels host.
Proof.
  induction suffix as [|s suffix IH]; cbn [matchSuffix]; [split; [done|intros (s & H & _); set_solver]|].
  pose proof (suffix_labels host s) as Hs. destruct (bool_decide (host = s) || hasSuffix host (46 :: s)) eqn:E.
  - split; [|done]. intros _. exists s. split; [set_solver|]. apply Hs. apply orb_true_iff in E as [E%bool_decide_eq_true|E]; auto.
  - rewrite IH. split; [intros (s' & H1 & H2); exists s'; split; [set_solver|done]|].
    intros (s' & H1 & H2). apply elem_of_cons in H1 as [->|H1]; [|by exists s']. exfalso.
    apply orb_false_iff in E as [E1%bool_decide_eq_false E2]. apply Hs in H2 as [?|?]; congruence.
Qed.

Lemma matchHost_iff host exact suffix :
  matchHost host exact suffix = true <-> host ∈ exact \/ exists s, s ∈ suffix /\ labels s `suffix_of` labels host.
Proof.
  induction exact as [|e exact IH]; cbn [matchHost].
  - rewrite matchSuffix_iff. split; [by right|intros [H|H]; [set_solver|done]].
  - case_bool_decide as E; [subst; split; [left; set_solver|done]|]. rewrite IH. set_solver.
Qed.

(** The host as the policy looks at it. *)
Definition policyName (host : list Z) : list Z := toLower (trimSuffix host [46]).

(** The entry [s] covers the name: it or a domain below it. *)
Definition covers (exact suffix : list (list Z)) (h : list Z) : Prop :=
  h ∈ exact \/ exists s, s ∈ suffix /\ labels s `suffix_of` labels h.

(** The rules of the policy, each with the condition that makes it apply. *)
Section Rules.
Context (c : socksConfig) (h : list Z) (port : Z).

Definition adsRule : Prop := cBlockAds c = true /\ covers (cAdExact c) (cAdSuffix c) h.
Definition adultRule : Prop := cBlockAdult c = true /\ covers (cAdultExact c) (cAdultSuffix c) h.
Definition resolverRule : Prop := cSafeSearch c = true /\ (port = 853 \/ covers (cDoHExact c) (cDoHSuffix c) h).
Definition searchRule : Prop := cSafeSearch c = true /\ h ∈ cSafeSearchExact c.
Definition localRule : Prop := cBypassLocal c = true /\ covers [] (cLocalSuffix c) h.

(** The first rule that applies decides. *)
Inductive decides : policyAction -> Prop :=
  | byAds : adsRule -> decides actBlockAds
  | byAdult : ~ adsRule -> adultRule -> decides actBlock
  | byResolver : ~ adsRule -> ~ adultRule -> resolverRule -> decides actBlock
  | bySearch : ~ adsRule -> ~ adultRule -> ~ resolverRule -> searchRule -> decides actSafeSearch
  | byLocal : ~ adsRule -> ~ adultRule -> ~ resolverRule -> ~ searchRule -> localRule -> decides actDirect
  | byDefault : ~ adsRule -> ~ adultRule -> ~ resolverRule -> ~ searchRule -> ~ localRule -> decides actTunnel.

Lemma decides_fun a a' : decides a -> decides a' -> a = a'.
Proof. destruct 1, 1; done. Qed.
End Rules.

Lemma covers_iff exact suffix h : matchHost h exact suffix = true <-> covers exact suffix h.
Proof. apply matchHost_iff. Qed.

Lemma reflect_rule b m (P : Prop) : (m = true <-> P) -> reflect (b = true /\ P) (b && m).
Proof. intros H. apply iff_reflect. rewrite andb_true_iff. tauto. Qed.

Lemma action_decides c host port : policyOn c = true -> decides c (policyName host) port (action c host port).
Proof.
  intros Hp. unfold action. rewrite Hp. cbn [negb]. fold (policyName host). set (h := policyName host).
  destruct (reflect_rule (cBlockAds c) _ _ (covers_iff (cAdExact c) (cAdSuffix c) h)) as [H1|H1]; [by apply byAds|].
  destruct (reflect_rule (cBlockAdult c) _ _ (covers_iff (cAdultExact c) (cAdultSuffix c) h)) as [H2|H2]; [by apply byAdult|].
  assert (M4 : matchHost h (cSafeSearchExact c) [] = true <-> h ∈ cSafeSearchExact c) by (rewrite covers_iff; unfold covers; set_solver).
  destruct (reflect_rule (cSafeSearch c) _ _ (Z.eqb_eq port 853)) as [[H3 E]|H3]; [apply byResolver; [done..|]; by split; [|left]|].
  destruct (reflect_rule (cSafeSearch c) _ _ (covers_iff (cDoHExact c) (cDoHSuffix c) h)) as [[H4 E]|H4];
    [apply byResolver; [done..|]; by split; [|right]|].
  assert (Hr : ~ resolverRule c h port) by (unfold resolverRule; tauto).
  destruct (reflect_rule (cSafeSearch c) _ _ M4) as [H5|H5]; [by apply bySearch|].
  destruct (reflect_rule (cBypassLocal c) _ _ (covers_iff [] (cLocalSuffix c) h)) as [H6|H6]; [by apply byLocal|by apply byDefault].
Qed.

(** The policy by labels.  For a connection under the policy the verdict is
    that of the first rule that applies: ads, adult content, with Safe Search
    DNS over TLS and resolvers, then search engines, then local domains;
    otherwise the tunnel.  A list covers a host when, case and one final dot
    aside, the host is an exact entry or its labels end with those of a suffix
    entry, so [notexample.com] is not covered by [example.com].  Without the
    policy everything goes to the tunnel. *)
Theorem action_by_labels c host port a :
  action c host port = a <-> if policyOn c then decides c (policyName host) port a else a = actTunnel.
Proof.
  destruct (policyOn c) eqn:Hp.
  - split; [intros <-; by apply action_decides|]. intros H. by eapply decides_fun; [apply action_decides|].
  - unfold action. rewrite Hp. cbn [negb]. split; congruence.
Qed.

(** A ping probe runs without the policy: whatever the configuration it is
    derived from, no host is blocked, redirected or taken around the tunnel, no
    QUIC packet is dropped, the listener is a random port of the loopback
    address, and the keys, the address and the junk packets stay. *)
Theorem ping_without_policy c ep host port :
  let p := cloneForPing c ep in
  action p host port = actTunnel /\ dropQUIC p port = false /\ cEndpoint p = ep /\ cBind p = str "127.0.0.1" /\ cSocksPort p = 0 /\
  (cPrivateKey p, cPeerPublicKey p, cAddress p, cDNS p) = (cPrivateKey c, cPeerPublicKey c, cAddress c, cDNS c) /\
  (cJc p, cJmin p, cJmax p, cI1 p, cI1Sni p, cHop p) = (cJc c, cJmin c, cJmax c, cI1 c, cI1Sni c, cHop c).
Proof. repeat split. Qed.
