(* ===== verification/PrI1.v ===== *)
(** * The first packet of the live tunnel, and its configuration text
      ([src/awg-ios/cmd/persianray/i1.go], [uapiPeer] of [config.go])

    The packet that imitates another protocol, written as one element of an
    obfuscation chain, and the text [IpcSet] reads.  Random bytes are read from
    position [pos]; every builder returns the position after those it read. *)

From stdpp Require Import base numbers list strings.
From Stdlib Require Import ZArith Lia.
From S2P Require Import Prelude GoStrings AllowedIPs NetIP Obf GoNet PrConfig.

Definition CRLF : list Z := [13; 10].

(** [strings.Trim] with a one-byte cutset. *)
Fixpoint trimLeftByte (c : Z) (s : list Z) : list Z :=
  match s with
  | x :: s' => if x =? c then trimLeftByte c s' else s
  | [] => []
  end.
Definition trimByte (c : Z) (s : list Z) : list Z := reverse (trimLeftByte c (reverse (trimLeftByte c s))).

Section I1.
Context `{N : Entropy}.

Definition labelBytes (label : list Z) : list Z :=
  if (length label =? 0)%nat || (63 <? length label)%nat then [] else u8 (Z.of_nat (length label)) :: label.

Definition dnsQuery (name : list Z) (pos : nat) : list Z * nat :=
  (randRead 2 pos ++ [0x01; 0x00; 0x00; 0x01; 0x00; 0x00; 0x00; 0x00; 0x00; 0x00] ++
   concat (map labelBytes (splitByte 46 (trimByte 46 name))) ++ [0x00; 0x00; 0x01; 0x00; 0x01], (pos + 2)%nat).

Definition sipOptions (host : list Z) (pos : nat) : list Z * nat :=
  let tag := hexEncode (randRead 8 pos) in
  (str "OPTIONS sip:" ++ host ++ str " SIP/2.0" ++ CRLF ++
   str "Via: SIP/2.0/UDP 192.0.2.1:5060;branch=z9hG4bK" ++ take 8 tag ++ CRLF ++
   str "From: <sip:user@192.0.2.1>;tag=" ++ drop 8 tag ++ CRLF ++
   str "To: <sip:" ++ host ++ str ">" ++ CRLF ++
   str "Call-ID: " ++ tag ++ str "@192.0.2.1" ++ CRLF ++
   str "CSeq: 1 OPTIONS" ++ CRLF ++
   str "Contact: <sip:user@192.0.2.1:5060>" ++ CRLF ++
   str "Max-Forwards: 70" ++ CRLF ++
   str "Content-Length: 0" ++ CRLF ++ CRLF, (pos + 8)%nat).

Definition stunBinding (pos : nat) : list Z * nat :=
  ([0x00; 0x01] ++ be_bytes 2 0 ++ be_bytes 4 0x2112A442 ++ randRead 12 pos, (pos + 12)%nat).

Definition encodeVarint (n : Z) : list Z :=
  if n <? 64 then [u8 n]
  else if n <? 16384 then [u8 (Z.lor 0x40 (Z.shiftr n 8)); u8 n]
  else
    let v := u32 n in
    [u8 (Z.lor 0x80 (Z.shiftr v 24)); u8 (Z.shiftr v 16); u8 (Z.shiftr v 8); u8 v].

(** [byte(n>>8), byte(n)]. *)
Definition len2 (n : Z) : list Z := [u8 (Z.shiftr n 8); u8 n].

Definition extSNI (sni : list Z) : list Z :=
  let sniListLen := 3 + Z.of_nat (length sni) in
  let extBody := len2 sniListLen ++ [0x00] ++ len2 (Z.of_nat (length sni)) ++ sni in
  [0x00; 0x00] ++ len2 (Z.of_nat (length extBody)) ++ extBody.

Definition tlsClientHello (sni : list Z) (pos : nat) : list Z * nat :=
  let extensions := extSNI sni ++ [0x00; 0x2b; 0x00; 0x03; 0x02; 0x03; 0x04] in
  let session := [0x00] in
  let cipher := [0x00; 0x02; 0x13; 0x01] in
  let comp := [0x01; 0x00] in
  let body := [0x03; 0x03] ++ randRead 32 pos ++ session ++ cipher ++ comp ++ len2 (Z.of_nat (length extensions)) ++ extensions in
  let n := Z.of_nat (length body) in
  let hs := [0x01; u8 (Z.shiftr n 16); u8 (Z.shiftr n 8); u8 n] ++ body in
  ([0x16; 0x03; 0x01] ++ len2 (Z.of_nat (length hs)) ++ hs, (pos + 32)%nat).

Definition quicInitial (sni : list Z) (pos : nat) : list Z * nat :=
  let dcid := randRead 8 pos in
  let scid := randRead 8 (pos + 8) in
  let '(ch, pos) := tlsClientHello sni (pos + 16) in
  let payload := [0x06; 0x00] ++ encodeVarint (Z.of_nat (length ch)) ++ ch in
  let payload := payload ++ zeros (120 - length payload) in
  let pnAndPayload := 0x00 :: payload in
  let b := [0xC3; 0x00; 0x00; 0x00; 0x01; u8 (Z.of_nat (length dcid))] ++ dcid ++ [u8 (Z.of_nat (length scid))] ++ scid ++ [0x00] ++
           encodeVarint (Z.of_nat (length pnAndPayload)) ++ pnAndPayload in
  (if (1200 <? length b)%nat then take 1200 b else b, pos).

(** The packet of a kind; [None] where [buildI1] returns the empty string at once. *)
Definition i1Packet (kind sni : list Z) (pos : nat) : option (list Z * nat) :=
  if bool_decide (kind = []) || bool_decide (kind = str "none") then None
  else if bool_decide (kind = str "awg") then Some (quicInitial sni pos)
  else if bool_decide (kind = str "dns") then Some (dnsQuery sni pos)
  else if bool_decide (kind = str "sip") then Some (sipOptions sni pos)
  else if bool_decide (kind = str "stun") then Some (stunBinding pos)
  else if bool_decide (kind = str "quic") then Some (quicInitial sni pos)
  else None.

Definition buildI1 (kind sni : list Z) (pos : nat) : list Z * nat :=
  let kind := toLower (trimSpace kind) in
  let sni := orDefault (trimSpace sni) (str "www.cloudflare.com") in
  match i1Packet kind sni pos with
  | None => ([], pos)
  | Some (pkt, pos) =>
      if (length pkt =? 0)%nat then ([], pos) else (str "<b 0x" ++ hexEncode pkt ++ str ">", pos)
  end.

(** ** The configuration text *)

Definition line (key value : list Z) : list Z := key ++ 61 :: value ++ [10].

Definition uapiPeer (c : socksConfig) (privB64 pubB64 endpoint : list Z) (spoof : bool) (pos : nat)
    : result cfgError (list Z) * nat :=
  match keyToHex privB64 with
  | Err e => (Err e, pos)
  | Ok priv =>
      match keyToHex pubB64 with
      | Err e => (Err e, pos)
      | Ok pub =>
          let b := line (str "private_key") priv in
          let '(b, pos) :=
            if spoof then
              let b := if 0 <? cJc c
                       then b ++ line (str "jc") (itoa (cJc c)) ++ line (str "jmin") (itoa (cJmin c)) ++ line (str "jmax") (itoa (cJmax c))
                       else b in
              let '(i1, pos) := buildI1 (cI1 c) (cI1Sni c) pos in
              (if bool_decide (i1 = []) then b else b ++ line (str "i1") i1, pos)
            else (b, pos) in
          (Ok (b ++ line (str "public_key") pub ++ line (str "endpoint") endpoint ++
               line (str "allowed_ip") (str "0.0.0.0/0") ++ line (str "persistent_keepalive_interval") (str "25")), pos)
      end
  end.

Definition uapi (c : socksConfig) (pos : nat) : result cfgError (list Z) * nat :=
  uapiPeer c (cPrivateKey c) (cPeerPublicKey c) (cEndpoint c) true pos.
Definition innerUAPI (c : socksConfig) (endpoint : list Z) (pos : nat) : result cfgError (list Z) * nat :=
  uapiPeer c (cInnerPrivateKey c) (cInnerPeerPublicKey c) endpoint false pos.

End I1.
