(* ===== verification/PrSocks.v ===== *)
(** * The SOCKS5 server of the live tunnel ([src/awg-ios/cmd/persianray/socks.go])

    A client connection is the list of bytes the client sends before it closes;
    a read that runs past its end fails.  What the server does is a list of
    events.  The network behind it is the class [SocksNet]: whether dialling,
    listening and writing succeed. *)

From stdpp Require Import base numbers list strings.
From Stdlib Require Import ZArith Lia.
From S2P Require Import Prelude GoStrings AllowedIPs NetIP Obf GoNet PrConfig.

(** ** Addresses in requests *)

Inductive socksError := ErrShortRead | ErrAtyp.

(** [io.ReadFull] of [n] bytes: the bytes and the rest. *)
Definition readFull (n : nat) (r : list Z) : result socksError (list Z * list Z) :=
  if (length r <? n)%nat then Err ErrShortRead else Ok (take n r, drop n r).

Definition readSocksAddr (r : list Z) (atyp : Z) : result socksError (list Z * Z * list Z) :=
  if atyp =? 1 then
    try a <- readFull 6 r ;;
    Ok (ipString (take 4 a.1), be_val (drop 4 a.1), a.2)
  else if atyp =? 4 then
    try a <- readFull 18 r ;;
    Ok (ipString (take 16 a.1), be_val (drop 16 a.1), a.2)
  else if atyp =? 3 then
    try lb <- readFull 1 r ;;
    try rest <- readFull (Z.to_nat (nth 0 lb.1 0) + 2) lb.2 ;;
    let n := (length rest.1 - 2)%nat in
    Ok (take n rest.1, be_val (drop n rest.1), rest.2)
  else Err ErrAtyp.

Inductive udpError := ErrShort | ErrShortV4 | ErrShortV6 | ErrShortName | ErrShortName2 | ErrUdpAtyp.

Definition byteAt (b : list Z) (i : nat) : Z := nth i b 0.

Definition parseSocksUDP (b : list Z) : result udpError (list Z * Z * list Z) :=
  if (length b <? 4)%nat || negb (byteAt b 2 =? 0) then Err ErrShort
  else if byteAt b 3 =? 1 then
    if (length b <? 10)%nat then Err ErrShortV4
    else Ok (ipString (slice b 4 8), be_val (slice b 8 10), drop 10 b)
  else if byteAt b 3 =? 4 then
    if (length b <? 22)%nat then Err ErrShortV6
    else Ok (ipString (slice b 4 20), be_val (slice b 20 22), drop 22 b)
  else if byteAt b 3 =? 3 then
    if (length b <? 5)%nat then Err ErrShortName
    else
      let n := Z.to_nat (byteAt b 4) in
      if (length b <? 7 + n)%nat then Err ErrShortName2
      else Ok (slice b 5 (5 + n), be_val (slice b (5 + n) (7 + n)), drop (7 + n) b)
  else Err ErrUdpAtyp.

(** A [*net.UDPAddr]: the bytes of the address (4 or 16), the port, the zone. *)
Record udpAddr := mkUDPAddr { uaIP : list Z; uaPort : Z; uaZone : list Z }.

(** [UDPAddr.String]. *)
Definition udpAddrString (a : udpAddr) : list Z :=
  let ip := if bool_decide (uaIP a = []) then [] else ipString (uaIP a) in
  if bool_decide (uaZone a = []) then JoinHostPort ip (itoa (uaPort a))
  else JoinHostPort (ip ++ 37 :: uaZone a) (itoa (uaPort a)).

(** Errors of [SplitHostPort] and [Atoi] are ignored: the values are then empty
    and zero. *)
Definition encodeSocksUDP (from : udpAddr) (payload : list Z) : list Z :=
  let '(host, portStr) := default ([], []) (SplitHostPort (udpAddrString from)) in
  let port := match atoi portStr with Ok n => n | Err _ => 0 end in
  match ParseIP host with
  | None => payload
  | Some ip =>
      let addr := match To4 ip with Some v4 => 1 :: v4 | None => 4 :: ip end in
      [0; 0; 0] ++ addr ++ be_bytes 2 port ++ payload
  end.

(** ** A TCP connection *)

(** What the server does. *)
Inductive socksEvent :=
  | Reply (bs : list Z)                       (* bytes written to the client *)
  | DialTunnel (hostport : list Z)            (* [tnet.Dial] *)
  | DialDirect (hostport : list Z)            (* [net.Dial], outside the tunnel *)
  | Relay                                     (* the two copies between client and remote *)
  | AdBlocked                                 (* [adBlockPending.Add(1)] *)
  | AssociateUDP.                             (* the two UDP loops start *)

Class SocksNet := {
  dialTunnel : list Z -> bool;
  dialDirect : list Z -> bool;
  clientWrite : list Z -> bool;
  listenUDP : option Z;         (* the port of the socket on the loopback address *)
  listenTunUDP : bool
}.

Section Socks.
Context `{W : SocksNet}.

Definition socksFail (rep : Z) : list socksEvent := [Reply [5; rep; 0; 1; 0; 0; 0; 0; 0; 0]].

(** After a dial: the verdict goes to the client, then the bytes are relayed. *)
Definition relayOrFail (ok : bool) : list socksEvent :=
  if negb ok then socksFail 5
  else Reply [5; 0; 0; 1; 0; 0; 0; 0; 0; 0] ::
       (if clientWrite [5; 0; 0; 1; 0; 0; 0; 0; 0; 0] then [Relay] else []).

Definition proxyDirect (host : list Z) (port : Z) : list socksEvent :=
  let hp := joinHostPort host port in
  DialDirect hp :: relayOrFail (dialDirect hp).

Definition connectVia (host : list Z) (port : Z) : list socksEvent :=
  let hp := joinHostPort host port in
  DialTunnel hp :: relayOrFail (dialTunnel hp).

Definition proxyConnect (cfg : socksConfig) (host : list Z) (port : Z) : list socksEvent :=
  match action cfg host port with
  | actBlockAds => AdBlocked :: socksFail 2
  | actBlock => socksFail 2
  | actDirect => proxyDirect host port
  | actSafeSearch => connectVia (cSafeSearchVIP cfg) port
  | actTunnel => connectVia host port
  end.

Definition proxyUDP : list socksEvent :=
  match listenUDP with
  | None => socksFail 1
  | Some p =>
      let reply := [5; 0; 0; 1; 127; 0; 0; 1] ++ be_bytes 2 p in
      Reply reply :: (if clientWrite reply && listenTunUDP then [AssociateUDP] else [])
  end.

(** The request behind the greeting. *)
Definition handleRequest (cfg : socksConfig) (client : list Z) : list socksEvent :=
  match readFull 4 client with
  | Err _ => []
  | Ok (req, client) =>
      if negb (nth 0 req 0 =? 5) then []
      else
        match readSocksAddr client (nth 3 req 0) with
        | Err _ => []
        | Ok (host, port, _) =>
            if nth 1 req 0 =? 1 then proxyConnect cfg host port
            else if nth 1 req 0 =? 3 then proxyUDP
            else [Reply [5; 7; 0; 1; 0; 0; 0; 0; 0; 0]]
        end
  end.

Definition handleSocks (cfg : socksConfig) (client : list Z) : list socksEvent :=
  match readFull 2 client with
  | Err _ => []
  | Ok (hdr, client) =>
      if negb (nth 0 hdr 0 =? 5) then []
      else
        match readFull (Z.to_nat (nth 1 hdr 0)) client with
        | Err _ => []
        | Ok (_, client) =>
            Reply [5; 0] :: (if clientWrite [5; 0] then handleRequest cfg client else [])
        end
  end.

End Socks.

(** ** A UDP association *)

(** What the two loops share, and what they wrote.  [sending] is what the loop of
    the client's datagrams has accepted and not yet written. *)
Record udpState := mkUdp {
  clientAddr : option udpAddr;
  sending : option (list Z * list Z);      (* host and port, payload *)
  toTunnel : list (list Z * list Z);       (* resolved destination, payload *)
  toClient : list (udpAddr * list Z);
  adBlocks : Z
}.
#[global] Instance rebuild_udpState : Rebuild udpState := fun s =>
  mkUdp (clientAddr s) (sending s) (toTunnel s) (toClient s) (adBlocks s).

(** [net.ResolveUDPAddr], which asks the system resolver. *)
Class Resolver := resolveUDP : list Z -> option (list Z).

Section UDP.
Context `{R : Resolver}.

(** A datagram from the client, up to the section under the mutex. *)
Definition fromClient (cfg : socksConfig) (addr : udpAddr) (dgram : list Z) (s : udpState) : udpState :=
  match parseSocksUDP dgram with
  | Err _ => s
  | Ok (host, port, payload) =>
      if dropQUIC cfg port then s
      else
        match action cfg host port with
        | actBlockAds => s <| adBlocks ::= Z.succ |>
        | actBlock => s
        | actDirect | actSafeSearch => s
        | actTunnel => s <| clientAddr := Some addr |> <| sending := Some (joinHostPort host port, payload) |>
        end
  end.

(** The rest of that turn: the name is resolved, which may take its time. *)
Definition sendTunnel (s : udpState) : udpState :=
  match sending s with
  | None => s
  | Some (hostport, payload) =>
      let s := s <| sending := None |> in
      match resolveUDP hostport with
      | None => s
      | Some raddr => s <| toTunnel ::= (fun l => l ++ [(raddr, payload)]) |>
      end
  end.

(** A datagram from the tunnel. *)
Definition fromTunnel (from : udpAddr) (dgram : list Z) (s : udpState) : udpState :=
  match clientAddr s with
  | None => s
  | Some dst => s <| toClient ::= (fun l => l ++ [(dst, encodeSocksUDP from dgram)]) |>
  end.

Inductive udpEvent :=
  | FromClient (addr : udpAddr) (dgram : list Z)
  | Sent
  | FromTunnel (from : udpAddr) (dgram : list Z).

Definition udpInit : udpState := mkUdp None None [] [] 0.

(** The two loops run side by side; the client's reads no datagram before it has
    sent the last. *)
Inductive udpRuns (cfg : socksConfig) : list udpEvent -> udpState -> Prop :=
  | udpStart : udpRuns cfg [] udpInit
  | udpClient evs s addr dgram :
      udpRuns cfg evs s -> sending s = None -> udpRuns cfg (evs ++ [FromClient addr dgram]) (fromClient cfg addr dgram s)
  | udpSent evs s : udpRuns cfg evs s -> sending s <> None -> udpRuns cfg (evs ++ [Sent]) (sendTunnel s)
  | udpTunnel evs s from dgram : udpRuns cfg evs s -> udpRuns cfg (evs ++ [FromTunnel from dgram]) (fromTunnel from dgram s).

End UDP.
