(* ===== verification/PrSocksThm.v ===== *)
(** * What the SOCKS5 server lets through

    The two address parsers agree, answers from the tunnel read back as what they
    carry, and neither a connection nor a datagram reaches a host against the
    policy or leaves beside the tunnel. *)

From stdpp Require Import base numbers list sets strings.
From Stdlib Require Import ZArith Lia.
From S2P Require Import Prelude GoStrings AllowedIPs NetIP Obf GoNet GoNetThm PrConfig PrConfigThm PrSocks.

(** ** The address parsers *)

Lemma slice_take_drop {A} (l : list A) a b : slice l a b = take (b - a) (drop a l).
Proof. done. Qed.

Lemma drop_take_slice {A} (l : list A) a b : drop a (take b l) = slice l a b.
Proof.
  unfold slice. destruct (le_lt_dec a b).
  - rewrite skipn_firstn_comm. done.
  - rewrite drop_ge by (rewrite length_take; lia). by replace (b - a)%nat with O by lia.
Qed.

Lemma take_take_le {A} (l : list A) a b : (a <= b)%nat -> take a (take b l) = slice l 0 a.
Proof. intros H. rewrite take_take. unfold slice. rewrite drop_0. f_equal. lia. Qed.

Lemma slice_cons {A} (x : A) l a b : slice (x :: l) (S a) (S b) = slice l a b.
Proof. done. Qed.

Lemma ok_iff {E1 E2 A} (a b : A) : @Ok E1 A a = Ok b <-> @Ok E2 A a = Ok b.
Proof. split; intros [= ->]; done. Qed.

(** The parser of UDP datagrams and the reader of TCP requests read the same
    addresses: behind the reserved bytes and a zero fragment number, a datagram
    is accepted exactly when the reader accepts the bytes from the address on,
    with the same host and port, and its payload is what the reader leaves. *)
Theorem socks_parsers_agree x y atyp rest host port payload :
  parseSocksUDP (x :: y :: 0 :: atyp :: rest) = Ok (host, port, payload) <->
  readSocksAddr rest atyp = Ok (host, port, payload).
Proof.
  unfold parseSocksUDP, readSocksAddr, readFull, byteAt. cbn [length nth Nat.ltb Nat.leb negb Z.eqb orb].
  destruct (atyp =? 1).
  { destruct (length rest <=? 5)%nat eqn:E; [done|]. apply Nat.leb_gt in E. cbn [rbind fst snd].
    rewrite !slice_cons, take_take_le, drop_take_slice by lia. apply ok_iff. }
  destruct (atyp =? 4).
  { destruct (length rest <=? 17)%nat eqn:E; [done|]. apply Nat.leb_gt in E. cbn [rbind fst snd].
    rewrite !slice_cons, take_take_le, drop_take_slice by lia. apply ok_iff. }
  destruct (atyp =? 3); [|done].
  destruct rest as [|n rest]; [done|]. cbn [length Nat.ltb Nat.leb rbind fst snd nth take drop].
  set (m := Z.to_nat n). unfold byteAt. cbn [nth]. fold m. replace (m + 2)%nat with (S (S m)) by lia. cbn [Nat.leb].
  change (7 + m)%nat with (S (S (S (S (S (S (S m))))))). change (5 + m)%nat with (S (S (S (S (S m))))). rewrite !drop_0.
  destruct (Nat.leb_spec (length rest) (S m)) as [H|H]; [done|]. cbn [rbind fst snd].
  rewrite length_take_le by lia. replace (S (S m) - 2)%nat with m by lia.
  rewrite !slice_cons, take_take_le, drop_take_slice by lia. apply ok_iff.
Qed.

(** ** Containment *)

(** What an event may be, under the policy of [cfg]: a dial goes where the policy
    sends a host that is not blocked. *)
Definition eventAllowed (cfg : socksConfig) (ev : socksEvent) : Prop :=
  match ev with
  | DialTunnel hp => exists host port,
      action cfg host port = actTunnel /\ hp = joinHostPort host port \/
      action cfg host port = actSafeSearch /\ hp = joinHostPort (cSafeSearchVIP cfg) port
  | DialDirect hp => exists host port,
      action cfg host port = actDirect /\ hp = joinHostPort host port /\
      cApplyPolicy cfg = true /\ cBypassLocal cfg = true /\ covers [] (cLocalSuffix cfg) (policyName host)
  | AdBlocked => exists host port, action cfg host port = actBlockAds
  | _ => True
  end.

Lemma action_direct cfg host port :
  action cfg host port = actDirect ->
  cApplyPolicy cfg = true /\ cBypassLocal cfg = true /\ covers [] (cLocalSuffix cfg) (policyName host).
Proof.
  intros H. destruct (policyOn cfg) eqn:Hp.
  - pose proof (action_decides cfg host port Hp) as Hd. rewrite H in Hd. inversion Hd as [| | | |_ _ _ _ [H1 H2]|]; subst.
    split; [|done]. unfold policyOn in Hp. by destruct (cApplyPolicy cfg).
  - unfold action in H. by rewrite Hp in H.
Qed.

(** The number of dials. *)
Definition dials (evs : list socksEvent) : nat :=
  length (List.filter (fun ev => match ev with DialTunnel _ | DialDirect _ => true | _ => false end) evs).

Section Contained.
Context `{W : SocksNet}.

Lemma relayOrFail_allowed cfg ok : Forall (eventAllowed cfg) (relayOrFail ok) /\ dials (relayOrFail ok) = 0%nat.
Proof. unfold relayOrFail. destruct ok; cbn [negb]; [destruct (clientWrite _)|]; split; try done; by repeat constructor. Qed.

Lemma proxyConnect_allowed cfg host port :
  Forall (eventAllowed cfg) (proxyConnect cfg host port) /\ (dials (proxyConnect cfg host port) <= 1)%nat.
Proof.
  unfold proxyConnect. destruct (action cfg host port) eqn:E.
  - unfold connectVia. destruct (relayOrFail_allowed cfg (dialTunnel (joinHostPort host port))) as [H1 H2].
    split; [constructor; [exists host, port; by left|done]|]. unfold dials in *. cbn. by rewrite H2.
  - unfold proxyDirect. destruct (relayOrFail_allowed cfg (dialDirect (joinHostPort host port))) as [H1 H2].
    split; [constructor; [exists host, port; split; [done|split; [done|by eapply action_direct]]|done]|]. unfold dials in *. cbn. by rewrite H2.
  - split; [constructor; [by exists host, port|by repeat constructor]|cbn; lia].
  - split; [by repeat constructor|cbn; lia].
  - unfold connectVia. destruct (relayOrFail_allowed cfg (dialTunnel (joinHostPort (cSafeSearchVIP cfg) port))) as [H1 H2].
    split; [constructor; [exists host, port; by right|done]|]. unfold dials in *. cbn. by rewrite H2.
Qed.

Lemma handleRequest_allowed cfg client :
  Forall (eventAllowed cfg) (handleRequest cfg client) /\ (dials (handleRequest cfg client) <= 1)%nat.
Proof.
  unfold handleRequest. destruct (readFull 4 client) as [[req client']|]; [|split; [constructor|cbn; lia]].
  destruct (negb _); [split; [constructor|cbn; lia]|].
  destruct (readSocksAddr _ _) as [[[host port] r]|]; [|split; [constructor|cbn; lia]].
  destruct (_ =? 1); [apply proxyConnect_allowed|]. destruct (_ =? 3); [|split; [by repeat constructor|cbn; lia]].
  unfold proxyUDP. destruct listenUDP; [|split; [by repeat constructor|cbn; lia]].
  destruct (_ && _); (split; [by repeat constructor|cbn; lia]).
Qed.

(** C18: whatever bytes a client sends, a connection is dialled at most once, and
    only to where the policy sends a host it does not block: through the tunnel
    to the requested host, or to the Safe Search address for a search engine;
    and beside the tunnel only to a host of the local list, while the policy
    with that bypass is on.  Blocked hosts are never dialled. *)
Theorem socks_contained cfg client :
  Forall (eventAllowed cfg) (handleSocks cfg client) /\ (dials (handleSocks cfg client) <= 1)%nat.
Proof.
  unfold handleSocks. destruct (readFull 2 client) as [[hdr client1]|]; [|split; [constructor|cbn; lia]].
  destruct (negb _); [split; [constructor|cbn; lia]|].
  destruct (readFull _ client1) as [[ms client2]|]; [|split; [constructor|cbn; lia]].
  destruct (clientWrite _); [|split; [by repeat constructor|cbn; lia]].
  destruct (handleRequest_allowed cfg client2) as [H1 H2]. split; [by constructor|exact H2].
Qed.
End Contained.

Section UDPContained.
Context `{R : Resolver}.

(** Where a client's datagram is to go, when it may go into the tunnel. *)
Definition accepted (cfg : socksConfig) (dgram : list Z) : option (list Z * list Z) :=
  match parseSocksUDP dgram with
  | Ok (host, port, payload) =>
      if match action cfg host port with actTunnel => negb (dropQUIC cfg port) | _ => false end then Some (joinHostPort host port, payload) else None
  | Err _ => None
  end.

Definition acceptedFrom (cfg : socksConfig) (ev : udpEvent) : option (udpAddr * (list Z * list Z)) :=
  match ev with FromClient addr dgram => pair addr <$> accepted cfg dgram | _ => None end.

(** The clients of the accepted datagrams, and what is to be written for them. *)
Definition clientsOf (cfg : socksConfig) (evs : list udpEvent) : list udpAddr := (omap (acceptedFrom cfg) evs).*1.
Definition resolved (out : list Z * list Z) : option (list Z * list Z) := raddr ← resolveUDP out.1; Some (raddr, out.2).
Definition outgoing (cfg : socksConfig) (evs : list udpEvent) : list (list Z * list Z) := omap resolved (omap (acceptedFrom cfg) evs).*2.

Definition fromTunnelEv (ev : udpEvent) : bool := match ev with FromTunnel _ _ => true | _ => false end.

(** What an association has done so far. *)
Record udp_ok (cfg : socksConfig) (evs : list udpEvent) (s : udpState) : Prop := {
  uo_last : clientAddr s = last (clientsOf cfg evs);
  uo_tunnel : toTunnel s ++ omap resolved (option_list (sending s)) = outgoing cfg evs;
  uo_client dst frame : (dst, frame) ∈ toClient s ->
    exists before from dgram after, evs = before ++ FromTunnel from dgram :: after /\
      last (clientsOf cfg before) = Some dst /\ frame = encodeSocksUDP from dgram;
  uo_answered before from dgram after dst : evs = before ++ FromTunnel from dgram :: after ->
    last (clientsOf cfg before) = Some dst -> (dst, encodeSocksUDP from dgram) ∈ toClient s;
  uo_once : (length (toClient s) <= length (List.filter fromTunnelEv evs))%nat
}.

Lemma clientsOf_snoc cfg evs ev : clientsOf cfg (evs ++ [ev]) = clientsOf cfg evs ++ option_list (fst <$> acceptedFrom cfg ev).
Proof. unfold clientsOf. rewrite omap_app, fmap_app. cbn. by destruct (acceptedFrom cfg ev). Qed.

Lemma outgoing_snoc cfg evs ev : outgoing cfg (evs ++ [ev]) = outgoing cfg evs ++ omap resolved (option_list (snd <$> acceptedFrom cfg ev)).
Proof. unfold outgoing. rewrite omap_app, fmap_app, omap_app. cbn. by destruct (acceptedFrom cfg ev). Qed.

(** What a datagram does, by what is accepted of it. *)
Lemma fromClient_accepted cfg addr dgram s :
  fromClient cfg addr dgram s =
    match accepted cfg dgram with
    | Some out => s <| clientAddr := Some addr |> <| sending := Some out |>
    | None => s <| adBlocks := adBlocks (fromClient cfg addr dgram s) |>
    end.
Proof.
  unfold fromClient, accepted. destruct s. destruct (parseSocksUDP dgram) as [[[host port] payload]|]; [|done].
  by destruct (dropQUIC cfg port), (action cfg host port).
Qed.

(** The end of a list of events that is cut before an answer. *)
Lemma snoc_split {A} (evs before after : list A) ev x :
  evs ++ [ev] = before ++ x :: after -> (evs = before /\ ev = x /\ after = []) \/ exists after', after = after' ++ [ev] /\ evs = before ++ x :: after'.
Proof.
  destruct after as [|y after _] using rev_ind.
  - intros [-> [= ->]]%app_inj_tail. by left.
  - rewrite app_comm_cons, app_assoc. intros [-> [= ->]]%app_inj_tail. right. by exists after.
Qed.

(** An event that gives no answer. *)
Lemma udp_quiet cfg evs s ev s' :
  udp_ok cfg evs s -> fromTunnelEv ev = false -> toClient s' = toClient s ->
  clientAddr s' = last (clientsOf cfg (evs ++ [ev])) ->
  toTunnel s' ++ omap resolved (option_list (sending s')) = outgoing cfg (evs ++ [ev]) -> udp_ok cfg (evs ++ [ev]) s'.
Proof.
  intros [] Hev Hc Hlast Hout. split; [done|done|..]; rewrite ?Hc.
  - intros dst frame (before & from & dgram & after & -> & H)%uo_client0. exists before, from, dgram, (after ++ [ev]).
    by rewrite <- app_assoc.
  - intros before from dgram after dst [(_ & -> & _)|(after' & _ & ->)]%snoc_split; [done|]. by eapply uo_answered0.
  - rewrite List.filter_app, length_app. cbn. lia.
Qed.

(** C36: whatever datagrams the client and the tunnel send to a UDP association
    and however its loops interleave: what was written into the tunnel, with what
    is still to be resolved, is in order the payloads of the client's datagrams
    that the policy sends to the tunnel on a port on which QUIC is not dropped,
    each for the address its host and port resolve to; every answer carries a
    datagram that came from the tunnel, at most one each, and goes to the address
    of the last accepted datagram before it; and every datagram of the tunnel that
    came after an accepted one is answered so. *)
Theorem udp_contained cfg evs s : udpRuns cfg evs s -> udp_ok cfg evs s.
Proof.
  induction 1 as [|evs s addr dgram _ IH Hs|evs s _ IH Hs|evs s from dgram _ IH].
  - split; cbn; [done|done|by intros ? ? ?%not_elem_of_nil|intros [|? ?]; discriminate|lia].
  - rewrite fromClient_accepted. destruct (accepted cfg dgram) as [out|] eqn:Ea; eapply (udp_quiet _ _ s); try done.
    + rewrite clientsOf_snoc. cbn [acceptedFrom]. rewrite Ea. cbn. by rewrite last_snoc.
    + rewrite outgoing_snoc. cbn [acceptedFrom]. rewrite Ea, <- (uo_tunnel _ _ _ IH), Hs. cbn. by rewrite app_nil_r.
    + rewrite clientsOf_snoc. cbn [acceptedFrom]. rewrite Ea. cbn. by rewrite app_nil_r, (uo_last _ _ _ IH).
    + rewrite outgoing_snoc. cbn [acceptedFrom]. rewrite Ea. cbn. by rewrite app_nil_r, (uo_tunnel _ _ _ IH).
  - eapply (udp_quiet _ _ s); [done|done|..].
    + unfold sendTunnel. by repeat case_match.
    + rewrite clientsOf_snoc. cbn. rewrite app_nil_r, <- (uo_last _ _ _ IH). unfold sendTunnel. by repeat case_match.
    + rewrite outgoing_snoc. cbn. rewrite app_nil_r, <- (uo_tunnel _ _ _ IH). unfold sendTunnel.
      destruct (sending s) as [[hp payload]|]; [|done]. cbn. unfold resolved. cbn.
      destruct (resolveUDP hp); cbn; by rewrite ?app_nil_r.
  - destruct IH. assert (Hev : acceptedFrom cfg (FromTunnel from dgram) = None) by done.
    assert (Ht : toTunnel (fromTunnel from dgram s) = toTunnel s /\ sending (fromTunnel from dgram s) = sending s /\
                 clientAddr (fromTunnel from dgram s) = clientAddr s) by (unfold fromTunnel; by case_match).
    destruct Ht as (Ht & Hse & Hc). split; rewrite ?Ht, ?Hse, ?Hc.
    + by rewrite clientsOf_snoc, Hev, app_nil_r.
    + by rewrite outgoing_snoc, Hev, app_nil_r.
    + assert (Hold : forall dst frame, (dst, frame) ∈ toClient s -> exists before from' dgram' after,
        evs ++ [FromTunnel from dgram] = before ++ FromTunnel from' dgram' :: after /\
        last (clientsOf cfg before) = Some dst /\ frame = encodeSocksUDP from' dgram').
      { intros dst frame (before & f & d & after & -> & H)%uo_client0. exists before, f, d, (after ++ [FromTunnel from dgram]).
        by rewrite <- app_assoc. }
      unfold fromTunnel. destruct (clientAddr s) as [dst0|] eqn:E; [|exact Hold]. cbn. intros dst frame.
      rewrite elem_of_app, list_elem_of_singleton. intros [Hin|[= -> ->]]; [by apply Hold|].
      exists evs, from, dgram, []. by rewrite <- uo_last0.
    + intros before f d after dst [(-> & [= <- <-] & _)|(after' & _ & ->)]%snoc_split Hl.
      * unfold fromTunnel. rewrite uo_last0, Hl. cbn. rewrite elem_of_app. right. by apply list_elem_of_singleton.
      * assert (Hin : (dst, encodeSocksUDP f d) ∈ toClient s) by (by eapply uo_answered0).
        unfold fromTunnel. case_match; [|done]. cbn. rewrite elem_of_app. by left.
    + rewrite List.filter_app, length_app. cbn. unfold fromTunnel. case_match; cbn; rewrite ?length_app; cbn; lia.
Qed.
End UDPContained.

(** ** Answers from the tunnel *)

(** An answer from the tunnel reads back: the datagram the server writes for
    an answer from an IPv4 address (four bytes, or mapped into sixteen) parses to
    that address, that port and that payload. *)
Theorem udp_answer_roundtrip a b c d port payload ip :
  Forall is_u8 [a; b; c; d] -> 0 <= port < 65536 -> ip = [a; b; c; d] \/ ip = v4InV6Prefix ++ [a; b; c; d] ->
  parseSocksUDP (encodeSocksUDP (mkUDPAddr ip port []) payload) = Ok (formatIPv4 [a; b; c; d], port, payload).
Proof.
  intros HF Hp Hip. apply Forall_cons in HF as [Ha HF]. apply Forall_cons in HF as [Hb HF]. apply Forall_cons in HF as [Hc HF].
  apply Forall_cons in HF as [Hd _].
  assert (Es : ipString ip = formatIPv4 [a; b; c; d]) by (by destruct Hip as [->| ->]).
  unfold encodeSocksUDP, udpAddrString. cbn [uaIP uaPort uaZone]. rewrite (bool_decide_eq_false_2 (ip = [])) by (by destruct Hip as [->| ->]).
  rewrite bool_decide_eq_true_2 by done. rewrite Es.
  rewrite split_join; [|split; by apply IPv4_no_byte|apply portOk_itoa; lia]. cbn [from_option id].
  rewrite atoi_itoa, ParseIP_IPv4 by (done || lia).
  assert (Et : To4 (v4InV6Prefix ++ [a; b; c; d]) = Some [a; b; c; d]) by done. rewrite Et.
  assert (Ep : be_bytes 2 port = [port / 256 mod 256; port mod 256]) by reflexivity.
  rewrite Ep. unfold parseSocksUDP. cbn [app length Nat.ltb Nat.leb orb negb byteAt nth Z.eqb Pos.eqb slice drop Nat.sub take].
  assert (Ev : be_val [port / 256 mod 256; port mod 256] = port).
  { rewrite !be_val_cons. cbn. Z.div_mod_to_equations; lia. }
  rewrite <- Ev at 3. reflexivity.
Qed.

Lemma udp_answer_roundtrip_witness :
  parseSocksUDP (encodeSocksUDP (mkUDPAddr [8; 8; 4; 4] 53 []) [1; 2; 3]) = Ok (str "8.8.4.4", 53, [1; 2; 3]).
Proof.
  apply (udp_answer_roundtrip 8 8 4 4 53 [1; 2; 3] [8; 8; 4; 4]); [by repeat constructor|lia|by left].
Defined.

(** A look at a run: a blocked host, a local one, and a search engine. *)
Section Run.
#[local] Instance openNet : SocksNet := {|
  dialTunnel := fun _ => true; dialDirect := fun _ => true; clientWrite := fun _ => true; listenUDP := Some 4000; listenTunUDP := true |}.
#[local] Instance sampleResolver : Resolver := fun hp => Some hp.

Definition emptyConfig : socksConfig :=
  mkConfig [] [] [] [] [] 0 0 0 [] [] [] 0 false false [] [] [] [] [] false false false false false false [] [] [] [] [] [] [] [] [].
Definition policyConfig : socksConfig :=
  emptyConfig <| cApplyPolicy := true |> <| cBlockAds := true |> <| cAdSuffix := [str "ads.example"] |>
    <| cSafeSearch := true |> <| cSafeSearchVIP := str "216.239.38.120" |> <| cSafeSearchExact := [str "www.google.com"] |>
    <| cBypassLocal := true |> <| cLocalSuffix := [str "ir"] |>.

Definition request (host : string) : list Z :=
  [5; 1; 0; 5; 1; 0; 3; Z.of_nat (length (str host))] ++ str host ++ [1; 187].

Example run_requests :
  handleSocks policyConfig (request "x.Ads.example.") = [Reply [5; 0]; AdBlocked; Reply [5; 2; 0; 1; 0; 0; 0; 0; 0; 0]] /\
  head (drop 1 (handleSocks policyConfig (request "shop.ir"))) = Some (DialDirect (str "shop.ir:443")) /\
  head (drop 1 (handleSocks policyConfig (request "www.google.com"))) = Some (DialTunnel (str "216.239.38.120:443")) /\
  head (drop 1 (handleSocks policyConfig (request "badads.example"))) = Some (DialTunnel (str "badads.example:443")).
Proof. vm_compute. repeat split. Qed.

Definition dnsDatagram : list Z := [0; 0; 0; 1; 8; 8; 8; 8; 0; 53; 7].
Definition afterDNS : udpState :=
  fromTunnel (mkUDPAddr [8; 8; 8; 8] 53 []) [1; 2]
    (sendTunnel (fromClient policyConfig (mkUDPAddr [127; 0; 0; 1] 5000 []) dnsDatagram udpInit)).
Definition dnsEvents : list udpEvent :=
  [FromClient (mkUDPAddr [127; 0; 0; 1] 5000 []) dnsDatagram; Sent; FromTunnel (mkUDPAddr [8; 8; 8; 8] 53 []) [1; 2]].

Lemma udp_contained_witness :
  udp_ok policyConfig dnsEvents afterDNS /\ toTunnel afterDNS = [(str "8.8.8.8:53", [7])] /\
  toClient afterDNS = [(mkUDPAddr [127; 0; 0; 1] 5000 [], [0; 0; 0; 1; 8; 8; 8; 8; 0; 53; 1; 2])].
Proof.
  split; [|split; vm_compute; reflexivity]. apply udp_contained.
  apply (udpTunnel _ [_; _]), (udpSent _ [_]); [|vm_compute; discriminate]. apply (udpClient _ []); [apply udpStart|done].
Defined.
End Run.
