(* ===== verification/UsqueSocks.v ===== *)
(** * The SOCKS5 server of a MASQUE session ([src/usque-ios/mobile/mobile.go])

    The TCP side is a function of the bytes a client sends before it closes, as
    in [PrSocks]; writes to the client are not checked by the code.  The UDP side
    is a state shared by the goroutines of the server: frames that were read and
    wait for their handler, handlers that are about to write, flows and their
    connections of the session's network stack.  A section under the server's
    mutex is one step; a write to a connection and its closing, which the code does
    outside the mutex, are steps of their own.  A panic ends the process.  What the
    stack answers is the class [UsqueStack]. *)

From stdpp Require Import base numbers list gmap sets strings.
From Stdlib Require Import ZArith Lia.
From S2P Require Import Prelude GoStrings AllowedIPs NetIP Obf GoNet PrSocks.

(** [DialContext]: for UDP, [true] says that the context was cancelled. *)
Class UsqueStack := {
  stackDialTCP : list Z -> option (list Z);   (* the text of the local address *)
  stackDialUDP : bool -> list Z -> bool
}.
(** A dial whose context was cancelled fails. *)
Class UsqueStackLaws `{W : UsqueStack} : Prop := dial_cancelled : forall dst, stackDialUDP true dst = false.

(** ** Addresses *)

Definition readAddress (r : list Z) (atyp : Z) : result socksError (list Z * list Z) :=
  if atyp =? 1 then try a <- readFull 4 r ;; Ok (ipString a.1, a.2)
  else if atyp =? 4 then try a <- readFull 16 r ;; Ok (ipString a.1, a.2)
  else if atyp =? 3 then
    try n <- readFull 1 r ;;
    readFull (Z.to_nat (byteAt n.1 0)) n.2
  else Err ErrAtyp.

(** The host and the number of bytes read; [b[0]] of no bytes panics. *)
Definition addressFromBytes (atyp : Z) (b : list Z) : outcome (list Z * nat) :=
  if atyp =? 1 then
    if (length b <? 4)%nat then Failed else Done (ipString (take 4 b), 4%nat)
  else if atyp =? 4 then
    if (length b <? 16)%nat then Failed else Done (ipString (take 16 b), 16%nat)
  else if atyp =? 3 then
    match b with
    | [] => Panicked
    | n :: _ =>
        let n := Z.to_nat n in
        if (length b <? 1 + n)%nat then Failed else Done (slice b 1 (1 + n), (1 + n)%nat)
    end
  else Failed.

Definition encodeAddress (host : list Z) : list Z :=
  match ParseIP host with
  | Some ip => match To4 ip with Some v4 => 1 :: v4 | None => 4 :: ip end
  | None => 3 :: u8 (Z.of_nat (length host)) :: host
  end.

(** [strconv.Atoi] with its error dropped, on the ports of socket addresses. *)
Definition atoiOr0 (s : list Z) : Z := match atoi s with Ok n => n | Err _ => 0 end.

Definition replyBytes (status : Z) (addr : option (list Z)) : list Z :=
  let '(host, port) :=
    match addr ≫= SplitHostPort with
    | Some (h, p) => (h, atoiOr0 p)
    | None => (str "0.0.0.0", 0)
    end in
  [5; status; 0] ++ encodeAddress host ++ be_bytes 2 (u16 port).

(** ** A TCP connection *)

Inductive usqueEvent :=
  | UReply (bs : list Z)              (* bytes written to the client *)
  | UDial (hostport : list Z)         (* [stack.DialContext] *)
  | URelay                            (* the two copies *)
  | UHold.                            (* the connection of a UDP client is kept open *)

Section TCP.
Context `{W : UsqueStack}.
(** The configured credentials and the address of the UDP socket. *)
Variables user pass udpLocal : list Z.

Definition requiredMethod : Z := if bool_decide (user = [] /\ pass = []) then 0 else 2.

(** What is written, and the rest of the client's bytes when it succeeds. *)
Definition checkAuth (client : list Z) : list usqueEvent * option (list Z) :=
  match readFull 2 client with
  | Err _ => ([], None)
  | Ok (auth, client) =>
      if negb (byteAt auth 0 =? 1) then ([], None)
      else
        match readFull (Z.to_nat (byteAt auth 1)) client with
        | Err _ => ([], None)
        | Ok (u, client) =>
            match readFull 1 client with
            | Err _ => ([], None)
            | Ok (n, client) =>
                match readFull (Z.to_nat (byteAt n 0)) client with
                | Err _ => ([], None)
                | Ok (p, client) =>
                    if negb (bool_decide (u = user)) || negb (bool_decide (p = pass)) then ([UReply [1; 1]], None)
                    else ([UReply [1; 0]], Some client)
                end
            end
        end
  end.

Definition negotiate (client : list Z) : list usqueEvent * option (list Z) :=
  match readFull 2 client with
  | Err _ => ([], None)
  | Ok (h, client) =>
      if negb (byteAt h 0 =? 5) then ([], None)
      else
        match readFull (Z.to_nat (byteAt h 1)) client with
        | Err _ => ([], None)
        | Ok (methods, client) =>
            let required := requiredMethod in
            if negb (bool_decide (required ∈ methods)) then ([UReply [5; 0xff]], None)
            else if required =? 0 then ([UReply [5; required]], Some client)
            else let '(evs, rest) := checkAuth client in (UReply [5; required] :: evs, rest)
        end
  end.

Definition usqueRequest (client : list Z) : list usqueEvent :=
  match readFull 4 client with
  | Err _ => []
  | Ok (head, client) =>
      if negb (byteAt head 0 =? 5) then []
      else
        match readAddress client (byteAt head 3) with
        | Err _ => [UReply (replyBytes 8 None)]
        | Ok (host, client) =>
            match readFull 2 client with
            | Err _ => []
            | Ok (portBytes, _) =>
                let address := JoinHostPort host (itoa (be_val portBytes)) in
                if byteAt head 1 =? 1 then
                  UDial address ::
                  match stackDialTCP address with
                  | None => [UReply (replyBytes 5 None)]
                  | Some localAddr => [UReply (replyBytes 0 (Some localAddr)); URelay]
                  end
                else if byteAt head 1 =? 3 then [UReply (replyBytes 0 (Some udpLocal)); UHold]
                else [UReply (replyBytes 7 None)]
            end
        end
  end.

Definition handleTCP (client : list Z) : list usqueEvent :=
  let '(evs, rest) := negotiate client in
  evs ++ match rest with Some client => usqueRequest client | None => [] end.
End TCP.

(** ** UDP flows *)

(** Who asked for a connection of the stack, and what for. *)
Record flowOwner := mkOwner { owClient : list Z; owDst : list Z }.

(** [flows] is the server's map.  [owners] and [nextConn] name the connections
    that were ever dialled; [readers] are those whose reply loop still runs,
    [closing] those whose loop has left the map and not yet closed them.  A handler
    holds a slot of [udpSem] with its frame, and while it writes. *)
Record usqueUDP := mkUsqueUDP {
  flows : gmap (list Z) nat;
  owners : gmap nat flowOwner;
  nextConn : nat;
  openConns : gset nat;
  readers : gset nat;
  closing : gset nat;
  frames : list (list Z * list Z);                   (* client and frame *)
  writes : list (nat * list Z * list Z * list Z);    (* connection, client, destination, payload *)
  serverClosed : bool;
  panicked : option (list Z);                        (* the frame a handler panicked on *)
  toStack : list (nat * list Z * list Z * list Z);   (* connection, client, destination, payload *)
  toClients : list (nat * list Z * list Z * list Z)  (* connection, client, frame, payload *)
}.
#[global] Instance rebuild_usqueUDP : Rebuild usqueUDP := fun s =>
  mkUsqueUDP (flows s) (owners s) (nextConn s) (openConns s) (readers s) (closing s) (frames s) (writes s) (serverClosed s)
    (panicked s) (toStack s) (toClients s).

Definition maxFlows : nat := 256.
Definition udpSemCap : nat := 256.

Definition newUsqueUDP : usqueUDP := mkUsqueUDP ∅ ∅ 0 ∅ ∅ ∅ [] [] false None [] [].

Definition flowKey (client dst : list Z) : list Z := client ++ 124 :: dst.

(** The host, the port and the payload of a client's frame. *)
Definition parseFrame (frame : list Z) : outcome (list Z * Z * list Z) :=
  if (length frame <? 4)%nat || negb (byteAt frame 2 =? 0) then Failed
  else
    match addressFromBytes (byteAt frame 3) (drop 4 frame) with
    | Panicked => Panicked
    | Failed => Failed
    | Done (host, used) =>
        if (length frame <? 4 + used + 2)%nat then Failed
        else
          let pos := (4 + used)%nat in
          Done (host, be_val (slice frame pos (pos + 2)), drop (pos + 2) frame)
    end.

Definition replyFrame (host portText payload : list Z) : list Z :=
  [0; 0; 0] ++ encodeAddress host ++ be_bytes 2 (u16 (atoiOr0 portText)) ++ payload.

Section UDP.
Context `{W : UsqueStack}.

(** One turn of [serveUDP]: a datagram waits for its handler unless all slots
    are taken. *)
Definition serveUDP (client frame : list Z) (s : usqueUDP) : usqueUDP :=
  if (length (frames s) + length (writes s) <? udpSemCap)%nat then s <| frames ::= (fun l => l ++ [(client, frame)]) |> else s.

(** [forwardUDP] up to the write. *)
Definition forwardUDP (client frame : list Z) (s : usqueUDP) : usqueUDP :=
  match parseFrame frame with
  | Panicked => s <| panicked := Some frame |>
  | Failed => s
  | Done (host, port, payload) =>
      let dst := JoinHostPort host (itoa port) in
      let key := flowKey client dst in
      match flows s !! key with
      | Some c => s <| writes ::= (fun l => l ++ [(c, client, dst, payload)]) |>
      | None =>
          if (maxFlows <=? size (flows s))%nat then s
          else if stackDialUDP (serverClosed s) dst then
            let c := nextConn s in
            s <| nextConn ::= S |> <| owners ::= (fun m => <[c := mkOwner client dst]> m) |>
              <| openConns ::= (fun o => o ∪ {[c]}) |> <| readers ::= (fun o => o ∪ {[c]}) |>
              <| flows ::= (fun m => <[key := c]> m) |>
              <| writes ::= (fun l => l ++ [(c, client, dst, payload)]) |>
          else s
      end
  end.

(** Its [conn.Write]; a connection that was closed takes nothing. *)
Definition writeConn (c : nat) (client dst payload : list Z) (s : usqueUDP) : usqueUDP :=
  if bool_decide (c ∈ openConns s) then s <| toStack ::= (fun l => l ++ [(c, client, dst, payload)]) |> else s.

(** The deferred function of [readUDPReply]: its section under the mutex, and
    [conn.Close]. *)
Definition endReader (c : nat) (ow : flowOwner) (s : usqueUDP) : usqueUDP :=
  s <| flows ::= (fun m => delete (flowKey (owClient ow) (owDst ow)) m) |>
    <| readers ::= (fun o => o ∖ {[c]}) |> <| closing ::= (fun o => o ∪ {[c]}) |>.

Definition closeConn (c : nat) (s : usqueUDP) : usqueUDP :=
  s <| openConns ::= (fun o => o ∖ {[c]}) |> <| closing ::= (fun o => o ∖ {[c]}) |>.

(** One turn of [readUDPReply]: [None] is an error of the read; [sent] says
    whether the socket took the answer, which is not checked. *)
Definition readUDPReply (c : nat) (ow : flowOwner) (answer : option (list Z)) (sent : bool) (s : usqueUDP) : usqueUDP :=
  match answer with
  | None => endReader c ow s
  | Some payload =>
      match SplitHostPort (owDst ow) with
      | None => endReader c ow s
      | Some (host, portText) =>
          if sent then s <| toClients ::= (fun l => l ++ [(c, owClient ow, replyFrame host portText payload, payload)]) |> else s
      end
  end.

Definition closeServer (s : usqueUDP) : usqueUDP :=
  s <| serverClosed := true |>
    <| openConns ::= (fun o => o ∖ list_to_set (map_to_list (flows s)).*2) |> <| flows := ∅ |>.

(** The goroutines, side by side.  After [close] no datagram is read; a handler
    that holds a frame still runs; a closed connection only gives errors. *)
Inductive usqueUDPStep : usqueUDP -> usqueUDP -> Prop :=
  | usServe client frame s : serverClosed s = false -> 124 ∉ client -> usqueUDPStep s (serveUDP client frame s)
  | usForward client frame l1 l2 s :
      frames s = l1 ++ (client, frame) :: l2 -> usqueUDPStep s (forwardUDP client frame (s <| frames := l1 ++ l2 |>))
  | usWrite c client dst payload l1 l2 s :
      writes s = l1 ++ (c, client, dst, payload) :: l2 ->
      usqueUDPStep s (writeConn c client dst payload (s <| writes := l1 ++ l2 |>))
  | usAnswer c ow answer sent s :
      c ∈ readers s -> owners s !! c = Some ow -> (c ∈ openConns s \/ answer = None) ->
      usqueUDPStep s (readUDPReply c ow answer sent s)
  | usCloseConn c s : c ∈ closing s -> usqueUDPStep s (closeConn c s)
  | usClose s : usqueUDPStep s (closeServer s).

(** A panic is the end of the process. *)
Inductive usqueUDPReachable : usqueUDP -> Prop :=
  | usNew : usqueUDPReachable newUsqueUDP
  | usNext s s' : usqueUDPReachable s -> panicked s = None -> usqueUDPStep s s' -> usqueUDPReachable s'.
End UDP.
