(* ===== verification/UrBridge.v ===== *)
(** * The URnetwork bridge ([src/urnetwork_bridge.go])

    Starts and stops of the one session run concurrently under a mutex; the
    upstream proxy is a variable of the SDK that is written outside of it.  The
    SDK's manager and device are opened and closed only; the settings put on a
    device before it connects are not modelled.  The SOCKS server of the session is a
    function of the bytes a client sends. *)

From stdpp Require Import base numbers list countable gmap sets strings.
From Stdlib Require Import ZArith Lia.
From S2P Require Import Prelude Threads GoStrings GoNet PrSocks UsqueSocks.

(** ** State

    A session's manager, device, listener and context carry the manager's number. *)
Inductive urKind := UCtx | UListener | UDevice | UManager.
#[global] Instance urKind_eq_dec : EqDecision urKind.
Proof. solve_decision. Defined.
#[global] Instance urKind_countable : Countable urKind.
Proof.
  refine (inj_countable' (fun k => match k with UCtx => 0 | UListener => 1 | UDevice => 2 | UManager => 3 end%nat)
            (fun n => match n with O => UCtx | 1 => UListener | 2 => UDevice | _ => UManager end%nat) _).
  by intros [].
Defined.

Record urWorld := mkUrWorld {
  urLocked : bool; urCurrent : option nat; urUpstream : list Z; urOpened : gset (urKind * nat); urNext : nat
}.
#[global] Instance rebuild_urWorld : Rebuild urWorld := fun w =>
  mkUrWorld (urLocked w) (urCurrent w) (urUpstream w) (urOpened w) (urNext w).
Definition urWorld0 : urWorld := mkUrWorld false None [] ∅ 0.

Inductive urAction : Set -> Type :=
  | ULock : urAction unit
  | UUnlock (free : bool) : urAction unit          (* [free] says that no session is set; it has no effect *)
  | UIsRunning : urAction bool
  | USetUpstream (s : list Z) : urAction unit
  | UMkdirAll : urAction bool
  | UNewManager : urAction nat
  | ULoadInstance : urAction bool
  | UNewDevice (m : nat) : urAction bool
  | UProviders : urAction bool                     (* a provider was there before the time was up *)
  | UListen (m : nat) : urAction (option Z)
  | UPublish (m : nat) : urAction unit             (* the context, [urCurrent] and the accept loop *)
  | UTake : urAction (option nat)                  (* the locked section of a stop *)
  | UCloseOpened (k : urKind) (m : nat) : urAction unit   (* of a session that was not set *)
  | UClose (k : urKind) (m : nat) : urAction unit.

Record urAnswer := mkUrAnswer { uaOk : bool; uaPort : Z }.

Definition urPerform {X : Set} (ans : urAnswer) (w : urWorld) (a : urAction X) : option (urWorld * X) :=
  match a in urAction X return option (urWorld * X) with
  | ULock => if urLocked w then None else Some (w <| urLocked := true |>, tt)
  | UUnlock _ => Some (w <| urLocked := false |>, tt)
  | UIsRunning => Some (w, bool_decide (is_Some (urCurrent w)))
  | USetUpstream s => Some (w <| urUpstream := s |>, tt)
  | UMkdirAll | ULoadInstance | UProviders => Some (w, uaOk ans)
  | UNewManager =>
      let m := urNext w in Some (w <| urNext ::= S |> <| urOpened ::= union {[ (UManager, m) ]} |>, m)
  | UNewDevice m => if uaOk ans then Some (w <| urOpened ::= union {[ (UDevice, m) ]} |>, true) else Some (w, false)
  | UListen m =>
      if uaOk ans then Some (w <| urOpened ::= union {[ (UListener, m) ]} |>, Some (uaPort ans)) else Some (w, None)
  | UPublish m => Some (w <| urOpened ::= union {[ (UCtx, m) ]} |> <| urCurrent := Some m |>, tt)
  | UTake => if urLocked w then None else Some (w <| urCurrent := None |>, urCurrent w)
  | UCloseOpened k m | UClose k m => Some (w <| urOpened ::= (fun o => o ∖ {[ (k, m) ]}) |>, tt)
  end.
#[global] Instance urActions : Actions urAction urWorld urAnswer := {| perform := @urPerform |}.

(** ** Starting and stopping *)
Inductive urError := ErrDataDir | ErrAccount | ErrMkdir | ErrRunning | ErrOpen | ErrListen.

Record urStartRequest := mkUrStart {
  urDataDir : list Z; urNetworkJWT : list Z; urClientJWT : list Z; urUpstreamSocks : list Z; urSocksPort : Z
}.

Open Scope prog_scope.
Abbreviation act := (act (acts:=urAction)).

Definition urOpenedClose (m : nat) : prog urAction unit := act (UCloseOpened UDevice m) ;> act (UCloseOpened UManager m).

Definition urOpen : prog urAction (option nat) :=
  run m <- act UNewManager ;;
  run instance <- act ULoadInstance ;;
  if negb instance then act (UCloseOpened UManager m) ;> Ret None
  else
    run local <- act (UNewDevice m) ;;
    if negb local then act (UCloseOpened UManager m) ;> Ret None
    else
      run ready <- act UProviders ;;
      if ready then Ret (Some m) else urOpenedClose m ;> Ret None.

Definition urStart (req : urStartRequest) : prog urAction (result urError Z) :=
  if bool_decide (trimSpace (urDataDir req) = []) then Ret (Err ErrDataDir)
  else if bool_decide (trimSpace (urNetworkJWT req) = []) || bool_decide (trimSpace (urClientJWT req) = []) then Ret (Err ErrAccount)
  else
    run made <- act UMkdirAll ;;
    if negb made then Ret (Err ErrMkdir)
    else
      act ULock ;>
      run running <- act UIsRunning ;;
      if (running : bool) then act (UUnlock false) ;> Ret (Err ErrRunning)
      else
        act (USetUpstream (trimSpace (urUpstreamSocks req))) ;>
        run opened <- urOpen ;;
        match opened with
        | None => act (USetUpstream []) ;> act (UUnlock true) ;> Ret (Err ErrOpen)
        | Some m =>
            run port <- act (UListen m) ;;
            match port with
            | None => urOpenedClose m ;> act (USetUpstream []) ;> act (UUnlock true) ;> Ret (Err ErrListen)
            | Some port => act (UPublish m) ;> act (UUnlock false) ;> Ret (Ok port)
            end
        end.

Definition urStop : prog urAction (result urError Z) :=
  run session <- act UTake ;;
  match session with
  | None => act (USetUpstream []) ;> Ret (Ok 0)
  | Some m =>
      act (UClose UCtx m) ;> act (UClose UListener m) ;> act (UClose UDevice m) ;> act (UClose UManager m) ;>
      act (USetUpstream []) ;> Ret (Ok 0)
  end.

Inductive urEvent := UrStart (req : urStartRequest) | UrStop | UrRun (i : nat) (ans : urAnswer).
Abbreviation urState := (threads urWorld urAction (result urError Z)).
Definition urState0 : urState := mkThreads urWorld0 [].

Definition urApply (st : urState) (ev : urEvent) : urState :=
  match ev with UrStart req => spawn (urStart req) st | UrStop => spawn urStop st | UrRun i ans => runThread i ans st end.

Definition urReachable (st : urState) : Prop := exists evs, st = fold_left urApply evs urState0.

(** ** The SOCKS server of the session *)
Inductive urSocksEvent := UrReply (bs : list Z) | UrDial (hostport : list Z) | UrRelay.

(** Any method list is accepted. *)
Definition urSocksHandshake (client : list Z) : option (list Z) :=
  match readFull 2 client with
  | Err _ => None
  | Ok (buf, client) =>
      if negb (byteAt buf 0 =? 5) then None
      else
        match readFull (Z.to_nat (byteAt buf 1)) client with Err _ => None | Ok (_, client) => Some client end
  end.

Definition urSocksConnect (client : list Z) : result socksError (list Z * Z * list Z) :=
  try hdr <- readFull 4 client ;;
  let '(hdr, client) := hdr in
  if negb (byteAt hdr 0 =? 5) || negb (byteAt hdr 1 =? 1) then Err ErrAtyp
  else
    let atyp := byteAt hdr 3 in
    try host <- (if atyp =? 1 then try a <- readFull 4 client ;; Ok (ipString a.1, a.2)
                 else if atyp =? 3 then try n <- readFull 1 client ;; readFull (Z.to_nat (byteAt n.1 0)) n.2
                 else if atyp =? 4 then try a <- readFull 16 client ;; Ok (ipString a.1, a.2)
                 else Err ErrAtyp) ;;
    try pb <- readFull 2 host.2 ;;
    Ok (host.1, Z.lor (Z.shiftl (byteAt pb.1 0) 8) (byteAt pb.1 1), pb.2).

Definition urSocksReply (status : Z) : list Z := [5; status; 0; 1; 0; 0; 0; 0; 0; 0].

(** [dial] says whether the device reaches the address. *)
Definition urHandleSOCKS (dial : list Z -> bool) (client : list Z) : list urSocksEvent :=
  match urSocksHandshake client with
  | None => []
  | Some client =>
      UrReply [5; 0] ::
      match urSocksConnect client with
      | Err _ => [UrReply (urSocksReply 8)]
      | Ok (host, port, _) =>
          let address := JoinHostPort host (itoa port) in
          UrDial address :: if dial address then [UrReply (urSocksReply 0); UrRelay] else [UrReply (urSocksReply 5)]
      end
  end.

(** ** The identity of the instance

    [urLoadInstance]: the text of the file wins over the one passed; the identity
    in use is written back. *)
Class UrIds := { urId : Type; ParseId : list Z -> option urId; idString : urId -> list Z; NewId : urId }.

Definition urLoadInstance `{UrIds} (file : option (list Z)) (passed : list Z) (writeOk : bool) : option urId * option (list Z) :=
  let saved := match file with
               | Some raw => if bool_decide (trimSpace raw = []) then trimSpace passed else trimSpace raw
               | None => trimSpace passed
               end in
  let id := default NewId (if bool_decide (saved = []) then None else ParseId saved) in
  if writeOk then (Some id, Some (idString id)) else (None, file).

(** ** The URnetwork bridge keeps account of what it opens *)

(** ** Ownership *)
Inductive urToken :=
  | TLocked                            (* the mutex is held *)
  | TFree                              (* the mutex is held and no session is set *)
  | TStage (n m : nat)                 (* the first [n] parts of [m] are open: manager, device, listener *)
  | TOpen (k : urKind) (m : nat).      (* one part of a session that was taken *)

Definition rank (k : urKind) : nat := match k with UManager => 0 | UDevice => 1 | UListener => 2 | UCtx => 3 end.

#[global] Instance urSignature : Signature urAction urToken := {|
  consumes X a :=
    match a with
    | UUnlock free => [if free then TFree else TLocked]
    | UIsRunning => [TLocked]
    | UNewDevice m => [TStage 1 m]
    | UListen m => [TStage 2 m]
    | UPublish m => [TFree; TStage 3 m]
    | UCloseOpened k m => [TStage (S (rank k)) m]
    | UClose k m => [TOpen k m]
    | _ => []
    end;
  produces X a :=
    match a in urAction X return X -> list urToken with
    | ULock => fun _ => [TLocked]
    | UIsRunning => fun running : bool => [if running then TLocked else TFree]
    | UNewManager => fun m => [TStage 1 m]
    | UNewDevice m => fun ok : bool => [TStage (if ok then 2 else 1) m]
    | UListen m => fun port => [TStage (match port with Some _ => 3 | None => 2 end) m]
    | UPublish m => fun _ => [TLocked]
    | UTake => fun s => match s with Some m => [TOpen UCtx m; TOpen UListener m; TOpen UDevice m; TOpen UManager m] | None => [] end
    | UCloseOpened k m => fun _ => match rank k with O => [] | S n => [TStage (S n) m] end
    | _ => fun _ => []
    end;
  allowed X a := match a with UCloseOpened UCtx _ => False | _ => True end
|}.

Lemma urOpenedClose_typed m : typed [TStage 2 m] (urOpenedClose m) (fun _ => []).
Proof. unfold urOpenedClose. tpay (@nil urToken). by apply typed_last. Qed.

(** The last answer decides. *)
Ltac branch :=
  lazymatch goal with
  | |- context [if negb ?x then _ else _] => destruct x; cbn [negb]
  | |- context [if ?x then _ else _] => is_var x; destruct x
  | |- context [match ?x with Some _ => _ | None => _ end] => is_var x; destruct x
  end.

Lemma urOpen_typed : typed [] urOpen (fun o => match o with Some m => [TStage 2 m] | None => [] end).
Proof.
  unfold urOpen. tstep. tfree. branch; [|by tstep]. tstep. branch; [|by tstep].
  tfree. branch; [done|]. eapply typed_bind; [apply urOpenedClose_typed|done].
Qed.

Lemma urStart_typed req : typed [] (urStart req) (fun _ => []).
Proof.
  unfold urStart. case_bool_decide; [done|]. case_match; [done|]. tfree. branch; [|done]. tstep. tstep. branch; [by tstep|].
  tfree. eapply (typed_bind _ _ (fun o => (match o with Some m => [TStage 2 m] | None => [] end) ++ [TFree])).
  { exact (typed_frame [TFree] [] _ _ urOpen_typed). }
  intros [m|]; cbn [app]; [|by tfree; tstep].
  apply (typed_act _ _ [TFree]); [done|done|]. intros [port|]; cbn [produces app].
  - apply (typed_act _ _ []); [done|apply Permutation_swap|]. intros []. by tstep.
  - eapply (typed_bind _ _ (fun _ => [TFree])); [exact (typed_frame [TFree] _ _ _ (urOpenedClose_typed m))|].
    intros _. tfree. by tstep.
Qed.

Lemma urStop_typed : typed [] urStop (fun _ => []).
Proof.
  unfold urStop. tstep. branch; [|by tfree].
  tpay [TOpen UListener n; TOpen UDevice n; TOpen UManager n]. tpay [TOpen UDevice n; TOpen UManager n].
  tpay [TOpen UManager n]. tstep. by tfree.
Qed.

(** ** The accounting *)
Record urAcc (T : list urToken) (w : urWorld) : Prop := {
  ua_nodup : NoDup T;
  ua_lock : urLocked w = true <-> TLocked ∈ T \/ TFree ∈ T;
  ua_one : TLocked ∈ T -> TFree ∈ T -> False;
  ua_free : TFree ∈ T -> urCurrent w = None;
  ua_open : forall k m, (k, m) ∈ urOpened w <->
              TOpen k m ∈ T \/ (exists n, TStage n m ∈ T /\ (rank k < n)%nat) \/ urCurrent w = Some m;
  ua_stage : forall n n' m, TStage n m ∈ T -> TStage n' m ∈ T -> n = n';
  ua_excl : forall k n m, TStage n m ∈ T -> TOpen k m ∉ T;
  ua_current : forall m, urCurrent w = Some m -> (forall k, TOpen k m ∉ T) /\ (forall n, TStage n m ∉ T);
  ua_bound : forall m, (exists n, TStage n m ∈ T) \/ (exists k, TOpen k m ∈ T) \/ urCurrent w = Some m -> (m < urNext w)%nat
}.

Lemma urAcc_perm T T' w : T ≡ₚ T' -> urAcc T w -> urAcc T' w.
Proof.
  intros HT [A B C D F G H I J]. split; intros *.
  all: repeat setoid_rewrite <- HT; eauto.
Qed.

(** What the stage token of [m] excludes. *)
Lemma stage_alone n m F w :
  urAcc (TStage n m :: F) w -> (forall x, TStage x m ∉ F) /\ (forall k, TOpen k m ∉ F) /\ urCurrent w <> Some m.
Proof.
  intros [N _ _ _ _ S X C _]. apply NoDup_cons in N as [N _]. split_and!.
  - intros x Hx. assert (x = n) as -> by (eapply S; [by right|by left]). done.
  - intros k Hk. apply (X k n m); [by left|by right].
  - intros Hc. destruct (C m Hc) as [_ Hs]. apply (Hs n). by left.
Qed.

Definition stages (n m : nat) : list urToken := match n with O => [] | S _ => [TStage n m] end.

(** A session that was not set moves from one stage to another. *)
Lemma stage_acc n n' m F w open' :
  (forall k x, (k, x) ∈ open' <-> if decide (x = m) then (rank k < n')%nat else (k, x) ∈ urOpened w) ->
  urAcc (TStage n m :: F) w -> urAcc (stages n' m ++ F) (w <| urOpened := open' |>).
Proof.
  intros Hopen HA. destruct (stage_alone _ _ _ _ HA) as (Hs & Ho & Hc). destruct HA as [N L O Fr P S X C B].
  apply NoDup_cons in N as [N1 N2].
  assert (Hst : forall x y, TStage x y ∈ stages n' m ++ F <-> (x = n' /\ y = m /\ (0 < n')%nat) \/ TStage x y ∈ F).
  { intros x y. destruct n'; cbn [stages app]; rewrite ?elem_of_cons; split; [by right|intros [?|?]; [lia|done]| |].
    - intros [[= -> ->]|?]; [left; split_and!; [done|done|lia]|by right].
    - intros [(-> & -> & _)|?]; auto. }
  assert (Hot : forall t, (forall x y, t <> TStage x y) -> t ∈ stages n' m ++ F <-> t ∈ TStage n m :: F).
  { intros t Ht. destruct n'; cbn [stages app]; rewrite ?elem_of_cons; naive_solver. }
  split; cbn.
  - destruct n'; [done|]. cbn. by apply NoDup_cons.
  - by rewrite L, !Hot.
  - rewrite !Hot by done. exact O.
  - rewrite Hot by done. exact Fr.
  - intros k x. rewrite Hopen. case_decide as e.
    + subst x. rewrite Hot by done. split.
      * intros Hk. right; left. exists n'. rewrite Hst. split; [left; split_and!; [done|done|lia]|done].
      * intros [Hk|[(y & Hy & Hlt)|Hk]]; [|by apply Hst in Hy as [(-> & _ & _)|Hy]; [|by apply Hs in Hy]|done].
        apply elem_of_cons in Hk as [?|Hk]; [done|by apply Ho in Hk].
    + rewrite P, Hot by done. setoid_rewrite Hst. split; (intros [?|[(y & Hy & Hlt)|?]]; [by left| |by right; right]).
      * right; left. exists y. split; [|done]. apply elem_of_cons in Hy as [[= -> ->]|Hy]; [done|by right].
      * right; left. exists y. split; [|done]. destruct Hy as [(_ & ? & _)|Hy]; [done|by right].
  - intros a b x. rewrite !Hst. intros [(-> & -> & _)|Ha] [(-> & ? & _)|Hb]; try done; subst.
    + by apply Hs in Hb.
    + by apply Hs in Ha.
    + eapply S; by right.
  - intros k a x. rewrite Hst, Hot by done. intros [(-> & -> & _)|Ha].
    + intros [?|Hk]%elem_of_cons; [done|by apply Ho in Hk].
    + apply (X k a). by right.
  - intros x Hx. destruct (C x Hx) as [C1 C2]. split.
    + intros k. rewrite Hot by done. apply C1.
    + intros a. rewrite Hst. intros [(_ & -> & _)|Ha]; [done|]. apply (C2 a). by right.
  - intros x.
    intros [[a Ha]|[[k Hk]|Hx]]; apply B; [|right; left; exists k; by apply Hot in Hk|by right; right].
    left. apply Hst in Ha as [(_ & -> & _)|Ha]; [exists n; by left|exists a; by right].
Qed.

(** The mutex and the variable [urCurrent]. *)
Lemma lock_acc F w : urLocked w = false -> urAcc F w -> urAcc (TLocked :: F) (w <| urLocked := true |>).
Proof.
  intros Hl [N L O Fr P S X C B].
  assert (Hno : TLocked ∉ F /\ TFree ∉ F).
  { split; intros Hx; (assert (urLocked w = true); [|congruence]); apply L; auto. }
  split; cbn; [apply NoDup_cons; split; [apply Hno|done]|..]; intros *.
  all: repeat setoid_rewrite elem_of_cons; naive_solver.
Qed.

Lemma unlock_acc (free : bool) F w : urAcc ((if free then TFree else TLocked) :: F) w -> urAcc F (w <| urLocked := false |>).
Proof.
  intros [N L O Fr P S X C B]. apply NoDup_cons in N as [N1 N2].
  assert (Hno : TLocked ∉ F /\ TFree ∉ F).
  { destruct free; split; intros Hx; try done; apply O; by (left || right). }
  repeat setoid_rewrite elem_of_cons in L. repeat setoid_rewrite elem_of_cons in P.
  repeat setoid_rewrite elem_of_cons in S. repeat setoid_rewrite elem_of_cons in X.
  repeat setoid_rewrite elem_of_cons in C. repeat setoid_rewrite elem_of_cons in B.
  split; cbn; [done|naive_solver|naive_solver|naive_solver|..]; intros *; destruct free; naive_solver.
Qed.

Lemma running_acc F w :
  urAcc (TLocked :: F) w -> urAcc ((if bool_decide (is_Some (urCurrent w)) then TLocked else TFree) :: F) w.
Proof.
  intros HA. case_bool_decide as Hc; [done|]. apply eq_None_not_Some in Hc. destruct HA as [N L O Fr P S X C B].
  apply NoDup_cons in N as [N1 N2].
  assert (Hf : TFree ∉ F) by (intros Hf; apply O; [by left|by right]).
  assert (Hot : forall t, t <> TLocked -> t <> TFree -> t ∈ TFree :: F <-> t ∈ TLocked :: F).
  { intros t. rewrite !elem_of_cons. naive_solver. }
  split; [by apply NoDup_cons| |set_solver|done|..]; intros *.
  - rewrite L, !elem_of_cons. clear. tauto.
  - assert (Hn : forall n, TStage n m ∈ TFree :: F <-> TStage n m ∈ TLocked :: F) by (intros n; by apply Hot).
    rewrite P, (Hot (TOpen k m)) by done. by setoid_rewrite Hn.
  - rewrite !Hot by done. apply S.
  - rewrite !Hot by done. apply X.
  - intros Hm. congruence.
  - intros Hm. apply B. destruct Hm as [(n & Hn)|[(k & Hk)|Hm]]; [left; exists n|right; left; exists k|by right; right]; by apply Hot.
Qed.

Lemma manager_acc F w :
  urAcc F w -> urAcc (TStage 1 (urNext w) :: F) (w <| urNext ::= S |> <| urOpened ::= union {[ (UManager, urNext w) ]} |>).
Proof.
  intros [N L O Fr P S X C B]. set (m := urNext w).
  assert (Hno : (forall n, TStage n m ∉ F) /\ (forall k, TOpen k m ∉ F) /\ urCurrent w <> Some m).
  { split_and!; [intros n Hn|intros k Hk|intros Hm]; (assert (m < m)%nat; [|lia]); apply B; eauto. }
  destruct Hno as (H1 & H2 & H3).
  split; cbn; [apply NoDup_cons; split; [apply H1|done]|..]; intros *.
  - rewrite L, !elem_of_cons. naive_solver.
  - rewrite !elem_of_cons. naive_solver.
  - rewrite elem_of_cons. naive_solver.
  - rewrite elem_of_union, elem_of_singleton, P. setoid_rewrite elem_of_cons. split.
    + intros [[= -> ->]|[?|[(n & Hn & ?)|?]]]; [right; left; exists 1%nat; split; [by left|cbn; lia]|auto|right; left; exists n; auto|auto].
    + intros [[?|?]|[(n & [[= -> ->]|Hn] & Hlt)|?]]; [done|auto| |right; right; left; by exists n|auto].
      left. destruct k; cbn in Hlt; try lia. done.
  - rewrite !elem_of_cons. intros [[= -> ->]|Ha] [[= ->]|Hb]; try done; [by apply H1 in Hb|subst; by apply H1 in Ha|by eapply S].
  - rewrite !elem_of_cons. intros [[= -> ->]|Ha] [?|Hb]; try done; [by apply H2 in Hb|by eapply X].
  - intros Hm. destruct (C _ Hm) as [C1 C2]. split; intros *; rewrite elem_of_cons; [intros [?|Hx]; [done|by apply C1 in Hx]|].
    intros [[= -> ->]|Hx]; [done|by apply C2 in Hx].
  - repeat setoid_rewrite elem_of_cons. intros Hm. destruct (decide (m0 = m)) as [->|n]; [subst m; lia|].
    assert (m0 < m)%nat; [|subst m; lia]. apply B. naive_solver.
Qed.

Lemma publish_acc F w m :
  urAcc ([TFree; TStage 3 m] ++ F) w -> urAcc (TLocked :: F) (w <| urOpened ::= union {[ (UCtx, m) ]} |> <| urCurrent := Some m |>).
Proof.
  intros HA. assert (HA' : urAcc (TStage 3 m :: TFree :: F) w) by (eapply urAcc_perm; [apply Permutation_swap|exact HA]).
  destruct (stage_alone _ _ _ _ HA') as (Hs & Ho & Hc). clear HA'. destruct HA as [N L O Fr P S X C B].
  assert (Hcur : urCurrent w = None) by (apply Fr; by left).
  cbn [app] in *. apply NoDup_cons in N as [N1 [N2 N3]%NoDup_cons].
  assert (Hf : TLocked ∉ F) by (intros Hf; apply O; [set_solver|by left]).
  assert (Hff : TFree ∉ F) by set_solver.
  assert (Hst : forall x y, TStage x y ∈ F -> y <> m) by (intros x y Hxy ->; apply (Hs x); set_solver).
  assert (Hop : forall k x, TOpen k x ∈ F -> x <> m) by (intros k x Hkx ->; apply (Ho k); set_solver).
  split; cbn; [by apply NoDup_cons| |set_solver|set_solver|..]; intros *.
  - assert (urLocked w = true) as -> by (apply L; right; by left). rewrite elem_of_cons. naive_solver.
  - rewrite elem_of_union, elem_of_singleton, P, Hcur. repeat setoid_rewrite elem_of_cons. split.
    + intros [[= -> ->]|[[?|[?|?]]|[(n & [?|[[= -> ->]|Hn]] & ?)|?]]]; try done; auto. right; left. exists n; auto.
    + intros [[?|?]|[(n & [?|Hn] & ?)|[= <-]]]; try done; [auto|right; right; left; exists n; auto|].
      destruct (decide (k = UCtx)) as [->|Hk]; [by left|right; right; left; exists 3%nat; split; [auto|destruct k; cbn; lia || done]].
  - rewrite !elem_of_cons. intros [?|Ha] [?|Hb]; try done. eapply S; rewrite !elem_of_cons; eauto.
  - rewrite !elem_of_cons. intros [?|Ha] [?|Hb]; try done. eapply (X k n m0); rewrite !elem_of_cons; auto.
  - intros [= <-]. split; intros *; rewrite elem_of_cons; intros [?|Hx]; try done; [by apply Hop in Hx|by apply Hst in Hx].
  - repeat setoid_rewrite elem_of_cons. intros Hm. apply B. repeat setoid_rewrite elem_of_cons.
    destruct Hm as [(n & [?|Hn])|[(k & [?|Hk])|[= <-]]]; try done; [left; exists n; auto|right; left; exists k; auto|left; exists 3%nat; auto].
Qed.

Lemma taken_acc F w m :
  urLocked w = false -> urCurrent w = Some m -> urAcc F w ->
  urAcc ([TOpen UCtx m; TOpen UListener m; TOpen UDevice m; TOpen UManager m] ++ F) (w <| urCurrent := None |>).
Proof.
  intros Hl Hm [N L O Fr P S X C B]. destruct (C m Hm) as [C1 C2].
  assert (Hnof : TFree ∉ F) by (intros Hx; apply Fr in Hx; congruence).
  assert (Hin : forall t, t ∈ [TOpen UCtx m; TOpen UListener m; TOpen UDevice m; TOpen UManager m] ++ F <-> (exists k, t = TOpen k m) \/ t ∈ F).
  { intros t. cbn. rewrite !elem_of_cons. split; [naive_solver|]. intros [[[] ->]|?]; auto 6. }
  split; cbn [urLocked].
  - cbn [app]. rewrite !NoDup_cons, !elem_of_cons. pose proof (C1 UCtx). pose proof (C1 UListener). pose proof (C1 UDevice).
    pose proof (C1 UManager). naive_solver.
  - change (urLocked (w <| urCurrent := None |>)) with (urLocked w). rewrite L, !Hin. naive_solver.
  - rewrite !Hin. naive_solver.
  - done.
  - intros k x. change (urOpened (w <| urCurrent := None |>)) with (urOpened w). rewrite P, Hm, Hin. setoid_rewrite Hin. cbn.
    split; [|naive_solver]. intros [?|[(n & ? & ?)|[= ->]]]; [auto|right; left; exists n; auto|left; left; by exists k].
  - intros n n' x. rewrite !Hin. intros [[? ?]|Ha] [[? ?]|Hb]; try done. by eapply S.
  - intros k n x. rewrite !Hin. intros [[? ?]|Ha] [[k' [= -> ->]]|Hb]; try done; [by apply C2 in Ha|by eapply X].
  - done.
  - intros x. repeat setoid_rewrite Hin. cbn. intros Hx. apply B.
    destruct Hx as [(n & [[? ?]|?])|[(k & [[k' [= -> ->]]|?])|?]]; try done; [left; by exists n|by right; right|right; left; by exists k].
Qed.

Lemma closed_acc F w k m : urAcc (TOpen k m :: F) w -> urAcc F (w <| urOpened ::= (fun o => o ∖ {[ (k, m) ]}) |>).
Proof.
  intros [N L O Fr P S X C B]. apply NoDup_cons in N as [N1 N2].
  assert (Hs : forall n, TStage n m ∉ F) by (intros n Hn; eapply (X k n m); [by right|by left]).
  assert (Hc : urCurrent w <> Some m) by (intros Hc; destruct (C m Hc) as [C1 _]; apply (C1 k); by left).
  split; cbn; [done| | | |..]; intros *.
  - rewrite L, !elem_of_cons. naive_solver.
  - intros ? ?. by apply O; right.
  - intros ?. by apply Fr; right.
  - rewrite elem_of_difference, elem_of_singleton, P. setoid_rewrite elem_of_cons. naive_solver.
  - intros ? ?. eapply S; by right.
  - intros Ha Hb. eapply X; by right.
  - intros Hm. destruct (C _ Hm) as [C1 C2]. split; intros ? ?; [eapply C1|eapply C2]; by right.
  - intros Hm. apply B. setoid_rewrite elem_of_cons. naive_solver.
Qed.

(** ** The actions keep the account *)
Lemma stage_opened n m F w k : urAcc (TStage n m :: F) w -> (k, m) ∈ urOpened w <-> (rank k < n)%nat.
Proof.
  intros HA. destruct (stage_alone _ _ _ _ HA) as (Hs & Ho & Hc). rewrite (ua_open _ _ HA). split.
  - intros [[?|Hk]%elem_of_cons|[(x & [[= ->]|Hx]%elem_of_cons & ?)|?]]; try done; [by apply Ho in Hk|by apply Hs in Hx].
  - intros ?. right; left. exists n. split; [by left|done].
Qed.

Lemma rank_inj k k' : rank k = rank k' -> k = k'.
Proof. by destruct k, k'. Qed.

Lemma open_acc k m F w :
  urAcc (TStage (rank k) m :: F) w -> urAcc (TStage (S (rank k)) m :: F) (w <| urOpened ::= union {[ (k, m) ]} |>).
Proof.
  intros HA. apply (stage_acc (rank k) (S (rank k)) m F w ({[ (k, m) ]} ∪ urOpened w)); [|done]. intros k' x.
  rewrite elem_of_union, elem_of_singleton. case_decide as e; [subst x|by split; [intros [[= _ ->]|?]|auto]].
  rewrite (stage_opened _ _ _ _ _ HA). split; [intros [[= ->]|?]; lia|]. intros Hlt.
  destruct (decide (rank k' = rank k)) as [->%rank_inj|]; [by left|right; lia].
Qed.

Lemma closeOpened_acc k m F w :
  urAcc (TStage (S (rank k)) m :: F) w -> urAcc (stages (rank k) m ++ F) (w <| urOpened ::= (fun o => o ∖ {[ (k, m) ]}) |>).
Proof.
  intros HA. apply (stage_acc (S (rank k)) (rank k) m F w (urOpened w ∖ {[ (k, m) ]})); [|done]. intros k' x.
  rewrite elem_of_difference, elem_of_singleton. case_decide as e; [subst x|split; [by intros []|by intros ?; split; [|intros [= _ ->]]]].
  rewrite (stage_opened _ _ _ _ _ HA). split.
  - intros [Hlt Hne]. destruct (decide (rank k' = rank k)) as [->%rank_inj|]; [done|lia].
  - intros Hlt. split; [lia|]. intros [= ->]. lia.
Qed.

#[global] Instance urAccounting : Accounting urAcc.
Proof.
  split; [exact urAcc_perm|]. intros X a F ans w w' x Hal HA He.
  destruct a as [|free| |s| | | |m| |m|m| |k m|k m]; cbn [perform urActions urPerform consumes produces urSignature allowed] in *.
  all: cbn [app] in HA.
  - destruct (urLocked w) eqn:e; simplify_eq. by apply lock_acc.
  - simplify_eq. by eapply unlock_acc.
  - simplify_eq. by apply running_acc.
  - simplify_eq. destruct HA. by split.
  - by simplify_eq.
  - simplify_eq. by apply manager_acc.
  - by simplify_eq.
  - destruct (uaOk ans); simplify_eq; [by apply (open_acc UDevice)|done].
  - by simplify_eq.
  - destruct (uaOk ans); simplify_eq; [by apply (open_acc UListener)|done].
  - simplify_eq. by apply publish_acc.
  - destruct (urLocked w) eqn:e; simplify_eq. destruct (urCurrent w) eqn:ec; [by apply taken_acc|].
    by replace (w <| urCurrent := None |>) with w by (destruct w; cbn in *; by subst).
  - simplify_eq. apply closeOpened_acc in HA. by destruct k.
  - simplify_eq. by apply closed_acc.
Qed.

Lemma urAcc_init : urAcc [] urWorld0.
Proof. split; cbn; try constructor; set_solver. Qed.

Lemma urReachable_ok st : urReachable st -> PoolOk urAcc st.
Proof.
  intros (evs & ->). assert (H0 : PoolOk urAcc urState0) by (exists []; split; [constructor|exact urAcc_init]).
  revert H0. generalize urState0. induction evs as [|ev evs IH]; intros st Hst; [done|]. apply IH. destruct ev as [req| |i ans].
  - apply (PoolOk_spawn urAcc); [apply urStart_typed|done].
  - apply (PoolOk_spawn urAcc); [apply urStop_typed|done].
  - by apply (PoolOk_run urAcc).
Qed.

(** C28: however starts and stops of the URnetwork bridge interleave, and
    whatever the system answers them, all four parts of the session that is set
    (the context of its accept loop, the listener, the device and the manager) are
    open as long as it is set; the mutex is held only by a start that has not
    returned; and once every call has returned nothing is open but the session
    that is set, if there is one: a start that fails half way leaves nothing
    behind and a stop closes everything of the session it took. *)
Theorem ur_accounted st :
  urReachable st ->
  (forall m k, urCurrent (shared st) = Some m -> (k, m) ∈ urOpened (shared st)) /\
  (forallb finished (pool st) = true ->
   urLocked (shared st) = false /\ forall k m, (k, m) ∈ urOpened (shared st) <-> urCurrent (shared st) = Some m).
Proof.
  intros Hr. apply urReachable_ok in Hr. split.
  - destruct Hr as (Rs & _ & HA). intros m k Hm. apply (ua_open _ _ HA). by right; right.
  - intros Hfin. apply (PoolOk_done urAcc) in Hfin; [|done]. destruct Hfin as [_ L _ _ P _ _ _ _]. split.
    + destruct (urLocked (shared st)); [|done]. exfalso. set_solver.
    + intros k m. rewrite P. set_solver.
Qed.

(** ** Runs *)
Definition urSampleStart (upstream : list Z) : urStartRequest := mkUrStart (str "/d") (str "n") (str "c") upstream 0.
Definition urYes : urAnswer := mkUrAnswer true 1080.
Definition steps (i n : nat) (ans : urAnswer) : list urEvent := repeat (UrRun i ans) n.

(** A start that finds no provider, a start that succeeds, and a stop. *)
Definition urSampleRun : list urEvent :=
  [UrStart (urSampleStart []); UrStart (urSampleStart (str "p")); UrStop] ++
  steps 0 7 urYes ++ [UrRun 0 (mkUrAnswer false 0)] ++ steps 0 5 urYes ++ steps 1 12 urYes.

Lemma ur_accounted_witness :
  let st := fold_left urApply (urSampleRun ++ steps 2 6 urYes) urState0 in
  urReachable st /\ forallb finished (pool st) = true /\ forall k m, (k, m) ∉ urOpened (shared st).
Proof.
  cbv zeta. assert (Hr : urReachable (fold_left urApply (urSampleRun ++ steps 2 6 urYes) urState0)) by (eexists; reflexivity).
  split; [exact Hr|]. split; [vm_compute; reflexivity|]. intros k m Hk.
  apply (proj2 (ur_accounted _ Hr)) in Hk; [|vm_compute; reflexivity]. vm_compute in Hk. discriminate.
Defined.

(** The last thing a stop does is to clear the upstream proxy, and it does it
    without the mutex: the start of another session can come before it, and that
    session is left without the upstream proxy it asked for. *)
Example stop_clears_upstream :
  let st := fold_left urApply
              ([UrStart (urSampleStart []); UrStop; UrStart (urSampleStart (str "p"))] ++
               steps 0 12 urYes ++ steps 1 1 urYes ++ steps 2 12 urYes ++ steps 1 5 urYes) urState0 in
  forallb finished (pool st) = true /\ pool st !! 2%nat = Some (Ret (Ok 1080)) /\
  urCurrent (shared st) = Some 1%nat /\ urUpstream (shared st) = [].
Proof. vm_compute. split_and!; reflexivity. Qed.
