(* ===== verification/PsiphonBridge.v ===== *)
(** * The Psiphon bridge

    [src/psiphon_bridge.go] with the calls it makes of
    [src/psiphon-ios/MobileLibrary/psi/psi.go] ([Start], [Stop]) and of
    [src/psiphon-ios/psiphon/notice.go] (the notice writer and its receiver).
    Starts and stops run concurrently; the goroutines of Psiphon write notices at
    any time and the application polls.  Reading a configuration, opening the data
    store and building the controller are answers of the environment, decoding a
    notice is the class [NoticeEnv]. *)

From stdpp Require Import base numbers list gmap sets strings.
From Stdlib Require Import ZArith Lia.
From S2P Require Import Prelude Threads GoStrings GoNet.

(** [noticeType], [data.count] and [data.port] of a notice that decodes. *)
Record notice := mkNotice { noticeType : list Z; noticeCount : Z; noticePort : Z }.
Class NoticeEnv := { unmarshalNotice : list Z -> option notice }.

(** ** The bridge *)
Definition maxPsiphonNotices : nat := 512.

Record psiphonBridge := mkBridge { notices : list (list Z); socksPort : Z; httpPort : Z; connected : bool }.
#[global] Instance rebuild_psiphonBridge : Rebuild psiphonBridge := fun b =>
  mkBridge (notices b) (socksPort b) (httpPort b) (connected b).

Definition resetPsiphonBridgeState : psiphonBridge := mkBridge [] 0 0 false.

Definition noticeFields `{NoticeEnv} (noticeJSON : list Z) (b : psiphonBridge) : psiphonBridge :=
  match unmarshalNotice noticeJSON with
  | None => b
  | Some n =>
      if bool_decide (noticeType n = str "Tunnels") then b <| connected := 0 <? noticeCount n |>
      else if bool_decide (noticeType n = str "ListeningSocksProxyPort") then b <| socksPort := noticePort n |>
      else if bool_decide (noticeType n = str "ListeningHttpProxyPort") then b <| httpPort := noticePort n |>
      else if bool_decide (noticeType n = str "Exiting") then b <| connected := false |>
      else b
  end.

(** A full queue moves up by one and the last place gets the notice. *)
Definition queueNotice (noticeJSON : list Z) (queue : list (list Z)) : list (list Z) :=
  if (length queue =? maxPsiphonNotices)%nat then <[(length queue - 1)%nat := noticeJSON]> (copy_into queue (skipn 1 queue))
  else queue ++ [noticeJSON].

Definition Notice `{NoticeEnv} (noticeJSON : list Z) (b : psiphonBridge) : psiphonBridge :=
  noticeFields noticeJSON b <| notices ::= queueNotice noticeJSON |>.

Definition PRPsiphonNoticePoll (b : psiphonBridge) : psiphonBridge * option (list Z) :=
  match notices b with [] => (b, None) | n :: rest => (b <| notices := rest |>, Some n) end.

(** A Go [int] passed as a C [int]. *)
Definition cInt (n : Z) : Z := (n + 2^31) mod 2^32 - 2^31.
Definition PRPsiphonSocksPort (b : psiphonBridge) : Z := cInt (socksPort b).
Definition PRPsiphonHTTPPort (b : psiphonBridge) : Z := cInt (httpPort b).
Definition PRPsiphonIsConnected (b : psiphonBridge) : Z := if connected b then 1 else 0.

(** ** The receiver of notices

    Write: what was buffered and the bytes written; the first line is delivered,
    the rest stays in the buffer. *)
Definition receiverWrite (buffer p : list Z) : list Z * option (list Z) :=
  let buffer := buffer ++ p in
  match indexByte buffer 10 with
  | None => (buffer, None)
  | Some index => (if (index =? length buffer - 1)%nat then [] else skipn (S index) buffer, Some (firstn index buffer))
  end.

(** ** The engine *)
Record psiWorld := mkPsi {
  psiLocked : bool;                  (* controllerMutex *)
  psiController : bool;              (* the controller is set *)
  psiReceiver : option (list Z);     (* the writer set, with its buffer; none: stderr *)
  psiStore : bool;                   (* the data store is open *)
  psiBridge : psiphonBridge
}.
#[global] Instance rebuild_psiWorld : Rebuild psiWorld := fun w =>
  mkPsi (psiLocked w) (psiController w) (psiReceiver w) (psiStore w) (psiBridge w).
Definition psiWorld0 : psiWorld := mkPsi false false None false resetPsiphonBridgeState.

Definition outputNotice `{NoticeEnv} (p : list Z) (w : psiWorld) : psiWorld :=
  match psiReceiver w with
  | None => w
  | Some buffer =>
      let '(buffer, delivered) := receiverWrite buffer p in
      let w := w <| psiReceiver := Some buffer |> in
      match delivered with Some n => w <| psiBridge ::= Notice n |> | None => w end
  end.

(** ** Starting and stopping

    The marks of [KUnlock] and [KCloseStore] say whether the controller is set;
    they have no effect. *)
Inductive psiAction : Set -> Type :=
  | KReset : psiAction unit
  | KLock : psiAction unit
  | KUnlock (running : bool) : psiAction unit
  | KStarted : psiAction bool
  | KLoadConfig : psiAction bool
  | KCommit : psiAction bool
  | KSetNoticeWriter : psiAction bool
  | KOpenDataStore : psiAction bool
  | KNewController : psiAction bool        (* after the import of the embedded servers, or beside it *)
  | KStopController : psiAction unit       (* cancels and waits for the controller and the import *)
  | KCloseDataStore (running : bool) : psiAction unit
  | KClearController : psiAction unit
  | KResetNoticeWriter : psiAction unit.

Definition psiPerform {X : Set} (ok : bool) (w : psiWorld) (a : psiAction X) : option (psiWorld * X) :=
  match a in psiAction X return option (psiWorld * X) with
  | KReset => Some (w <| psiBridge := resetPsiphonBridgeState |>, tt)
  | KLock => if psiLocked w then None else Some (w <| psiLocked := true |>, tt)
  | KUnlock _ => Some (w <| psiLocked := false |>, tt)
  | KStarted => Some (w, psiController w)
  | KLoadConfig | KCommit => Some (w, ok)
  | KSetNoticeWriter =>
      match psiReceiver w with Some _ => Some (w, false) | None => Some (w <| psiReceiver := Some [] |>, true) end
  | KOpenDataStore => if ok then Some (w <| psiStore := true |>, true) else Some (w, false)
  | KNewController => Some (w <| psiController := ok |>, ok)
  | KStopController => Some (w, tt)
  | KCloseDataStore _ => Some (w <| psiStore := false |>, tt)
  | KClearController => Some (w <| psiController := false |>, tt)
  | KResetNoticeWriter => Some (w <| psiReceiver := None |>, tt)
  end.
#[global] Instance psiActions : Actions psiAction psiWorld bool := {| perform := @psiPerform |}.

Inductive psiError := ErrAlreadyStarted | ErrLoadConfig | ErrCommit | ErrNoticeWriter | ErrDataStore | ErrController.

Open Scope prog_scope.
Abbreviation act := (act (acts:=psiAction)).

Definition psiStart : prog psiAction (option psiError) :=
  act KLock ;>
  run started <- act KStarted ;;
  if (started : bool) then act (KUnlock true) ;> Ret (Some ErrAlreadyStarted)
  else
    run loaded <- act KLoadConfig ;;
    if negb loaded then act (KUnlock false) ;> Ret (Some ErrLoadConfig)
    else
      run committed <- act KCommit ;;
      if negb committed then act (KUnlock false) ;> Ret (Some ErrCommit)
      else
        run written <- act KSetNoticeWriter ;;
        if negb written then act (KUnlock false) ;> Ret (Some ErrNoticeWriter)
        else
          run opened <- act KOpenDataStore ;;
          if negb opened then act KResetNoticeWriter ;> act (KUnlock false) ;> Ret (Some ErrDataStore)
          else
            run created <- act KNewController ;;
            if (created : bool) then act (KUnlock true) ;> Ret None
            else
              act (KCloseDataStore false) ;> act KResetNoticeWriter ;> act (KUnlock false) ;> Ret (Some ErrController).

Definition psiStop : prog psiAction unit :=
  act KLock ;>
  run started <- act KStarted ;;
  if (started : bool) then
    act KStopController ;> act (KCloseDataStore true) ;> act KClearController ;> act KResetNoticeWriter ;>
    act (KUnlock false)
  else act (KUnlock false).

Definition PRPsiphonStart : prog psiAction (option psiError) := act KReset ;> psiStart.
Definition PRPsiphonStop : prog psiAction (option psiError) := psiStop ;> act KReset ;> Ret None.

(** ** Events *)
Inductive psiEvent := PsiStart | PsiStop | PsiRun (i : nat) (ok : bool) | PsiWrite (p : list Z) | PsiPoll.
Abbreviation psiState := (threads psiWorld psiAction (option psiError)).
Definition psiState0 : psiState := mkThreads psiWorld0 [].

Definition psiApply `{NoticeEnv} (st : psiState) (ev : psiEvent) : psiState :=
  match ev with
  | PsiStart => spawn PRPsiphonStart st
  | PsiStop => spawn PRPsiphonStop st
  | PsiRun i ok => runThread i ok st
  | PsiWrite p => mkThreads (outputNotice p (shared st)) (pool st)
  | PsiPoll => mkThreads (shared st <| psiBridge ::= (fun b => (PRPsiphonNoticePoll b).1) |>) (pool st)
  end.

Definition psiReachable `{NoticeEnv} (st : psiState) : Prop := exists evs, st = fold_left psiApply evs psiState0.

(** ** The Psiphon bridge: its lifecycle and its queue of notices *)

(** ** What the holder of the mutex knows *)
Inductive psiPhase := PLocked | PIdle | PWriter | PStore | PRunning | PClosing.

#[global] Instance psiSignature : Signature psiAction psiPhase := {|
  consumes X a :=
    match a with
    | KUnlock running => [if running then PRunning else PIdle]
    | KStarted => [PLocked]
    | KSetNoticeWriter => [PIdle]
    | KOpenDataStore => [PWriter]
    | KNewController => [PStore]
    | KStopController => [PRunning]
    | KCloseDataStore running => [if running then PRunning else PStore]
    | KClearController => [PClosing]
    | KResetNoticeWriter => [PWriter]
    | _ => []
    end;
  produces X a :=
    match a in psiAction X return X -> list psiPhase with
    | KLock => fun _ => [PLocked]
    | KStarted => fun started : bool => [if started then PRunning else PIdle]
    | KSetNoticeWriter => fun ok : bool => [if ok then PWriter else PIdle]
    | KOpenDataStore => fun ok : bool => [if ok then PStore else PWriter]
    | KNewController => fun ok : bool => [if ok then PRunning else PStore]
    | KStopController => fun _ => [PRunning]
    | KCloseDataStore running => fun _ => [if running then PClosing else PWriter]
    | KClearController => fun _ => [PWriter]
    | KResetNoticeWriter => fun _ => [PIdle]
    | _ => fun _ => []
    end;
  allowed X a := True
|}.

Definition writerSet (w : psiWorld) : bool := bool_decide (is_Some (psiReceiver w)).

Definition phaseOk (p : psiPhase) (w : psiWorld) : Prop :=
  match p with
  | PLocked => psiController w = writerSet w /\ writerSet w = psiStore w
  | PIdle => psiController w = false /\ writerSet w = false /\ psiStore w = false
  | PWriter => psiController w = false /\ writerSet w = true /\ psiStore w = false
  | PStore => psiController w = false /\ writerSet w = true /\ psiStore w = true
  | PRunning => psiController w = true /\ writerSet w = true /\ psiStore w = true
  | PClosing => psiController w = true /\ writerSet w = true /\ psiStore w = false
  end.

Definition psiAcc (T : list psiPhase) (w : psiWorld) : Prop :=
  match T with
  | [] => psiLocked w = false /\ phaseOk PLocked w
  | [p] => psiLocked w = true /\ phaseOk p w
  | _ => False
  end.

Ltac branch :=
  lazymatch goal with
  | |- context [if negb ?x then _ else _] => destruct x; cbn [negb]
  | |- context [if ?x then _ else _] => is_var x; destruct x
  end.

Lemma psiStart_typed : typed [] psiStart (fun _ => []).
Proof.
  unfold psiStart. tstep. tstep. branch; [by tstep|]. tfree. branch; [|by tstep]. tfree. branch; [|by tstep].
  tstep. branch; [|by tstep]. tstep. branch; [|tstep; by tstep]. tstep. branch; [by tstep|]. tstep. tstep. by tstep.
Qed.

Lemma psiStop_typed : typed [] psiStop (fun _ => []).
Proof. unfold psiStop. tstep. tstep. branch; [|by apply typed_last]. do 4 tstep. by apply typed_last. Qed.

Lemma PRPsiphonStart_typed : typed [] PRPsiphonStart (fun _ => []).
Proof. unfold PRPsiphonStart. tfree. exact psiStart_typed. Qed.

Lemma PRPsiphonStop_typed : typed [] PRPsiphonStop (fun _ => []).
Proof. unfold PRPsiphonStop. apply typed_bind_nil; [exact psiStop_typed|]. intros _. by tstep. Qed.

#[global] Instance psiAccounting : Accounting psiAcc.
Proof.
  split.
  - intros T T' w HT HA. destruct T as [|p [|]]; [symmetry in HT; by apply Permutation_nil_r in HT as ->|symmetry in HT; by apply Permutation_singleton_r in HT as ->|done].
  - intros X a F ans w w' x _ HA He. destruct w as [l c r s b].
    destruct a, F as [|? [|]]; cbn in HA, He; try done; unfold psiAcc, phaseOk, writerSet in *; cbn in *.
    all: repeat case_match; simplify_eq/=; naive_solver.
Qed.

Section Lifecycle.
Context `{NoticeEnv}.

Lemma outputNotice_engine p w :
  psiLocked (outputNotice p w) = psiLocked w /\ psiController (outputNotice p w) = psiController w /\
  writerSet (outputNotice p w) = writerSet w /\ psiStore (outputNotice p w) = psiStore w.
Proof.
  unfold outputNotice, writerSet. destruct (psiReceiver w) as [buf|] eqn:e; [|by rewrite e].
  destruct (receiverWrite buf p) as [buf' [n|]]; split_and!; cbn; try done; by repeat case_bool_decide.
Qed.

Lemma psiAcc_engine T w w' :
  psiLocked w' = psiLocked w -> psiController w' = psiController w -> writerSet w' = writerSet w -> psiStore w' = psiStore w ->
  psiAcc T w -> psiAcc T w'.
Proof.
  intros H1 H2 H3 H4. destruct T as [|p [|]]; [| |done]; unfold psiAcc, phaseOk; [by rewrite H1, H2, H3, H4|].
  rewrite H1. destruct p; by rewrite H2, H3, H4.
Qed.

Lemma psiReachable_ok st : psiReachable st -> PoolOk psiAcc st.
Proof.
  intros (evs & ->). assert (H0 : PoolOk psiAcc psiState0) by (exists []; by split; [constructor|]).
  revert H0. generalize psiState0. induction evs as [|ev evs IH]; intros st Hst; [done|]. apply IH.
  destruct ev as [| |i ok|p|]; cbn [psiApply].
  - apply (PoolOk_spawn psiAcc); [exact PRPsiphonStart_typed|done].
  - apply (PoolOk_spawn psiAcc); [exact PRPsiphonStop_typed|done].
  - by apply (PoolOk_run psiAcc).
  - apply (PoolOk_shared psiAcc); [|done]. intros T. destruct (outputNotice_engine p (shared st)) as (? & ? & ? & ?).
    by apply psiAcc_engine.
  - apply (PoolOk_shared psiAcc); [|done]. intros T. by apply psiAcc_engine.
Qed.

Lemma outputNotice_quiet p w : writerSet w = false -> outputNotice p w = w.
Proof. unfold writerSet, outputNotice. by destruct (psiReceiver w). Qed.

(** C30: however starts, stops, notices and polls of the Psiphon bridge
    interleave and whatever fails, a start that is about to take the notice writer
    finds it free; whenever no start or stop is under way inside the engine, the
    controller runs exactly when the bridge receives its notices and exactly when
    the data store is open, and without a controller nothing Psiphon still writes
    reaches the bridge; and when every call has returned no start or stop is under way. *)
Theorem psiphon_lifecycle st :
  psiReachable st ->
  (forall i k, pool st !! i = Some (Act KSetNoticeWriter k) -> psiReceiver (shared st) = None) /\
  (psiLocked (shared st) = false ->
   (psiController (shared st) = true <-> is_Some (psiReceiver (shared st))) /\
   psiStore (shared st) = psiController (shared st) /\
   (psiController (shared st) = false -> forall p, outputNotice p (shared st) = shared st)) /\
  (forallb finished (pool st) = true -> psiLocked (shared st) = false).
Proof.
  intros Hr. apply psiReachable_ok in Hr. split_and!.
  - intros i k Hi. destruct (PoolOk_head psiAcc _ _ _ _ _ Hr Hi) as (F & HA). cbn in HA. destruct F; [|done].
    destruct HA as (_ & _ & Hw & _). unfold writerSet in Hw. by destruct (psiReceiver (shared st)).
  - intros Hl. destruct Hr as (Rs & _ & HA). destruct (concat Rs) as [|p [|]]; [|by destruct HA; congruence|done].
    destruct HA as (_ & Hc & Hs). unfold phaseOk in *. split_and!.
    + rewrite Hc. unfold writerSet. by rewrite bool_decide_eq_true.
    + congruence.
    + intros Hf p. apply outputNotice_quiet. congruence.
  - intros Hfin. by apply (PoolOk_done psiAcc) in Hfin as [? _].
Qed.
End Lifecycle.

(** ** The queue

    Seen by one that polls: the notices of the session are a growing list, of
    which the oldest not yet seen are lost beyond 512. *)
Record queueSpec := mkSpec { specLog : list (list Z); specNext : nat }.
Inductive bridgeOp := OpLine (n : list Z) | OpPoll | OpReset.

Definition specStep (op : bridgeOp) (q : queueSpec) : queueSpec * option (list Z) :=
  match op with
  | OpLine n => (mkSpec (specLog q ++ [n]) (specNext q `max` (S (length (specLog q)) - maxPsiphonNotices)), None)
  | OpPoll =>
      match specLog q !! specNext q with Some n => (mkSpec (specLog q) (S (specNext q)), Some n) | None => (q, None) end
  | OpReset => (mkSpec [] 0, None)
  end.

(** A notice is written as a line. *)
Definition bridgeStep `{NoticeEnv} (op : bridgeOp) (w : psiWorld) : psiWorld * option (list Z) :=
  match op with
  | OpLine n => (outputNotice (n ++ [10]) w, None)
  | OpPoll => let '(b, n) := PRPsiphonNoticePoll (psiBridge w) in (w <| psiBridge := b |>, n)
  | OpReset => (w <| psiBridge := resetPsiphonBridgeState |>, None)
  end.

(** What is polled in a run, in order. *)
Fixpoint runOps {S} (step : bridgeOp -> S -> S * option (list Z)) (ops : list bridgeOp) (s : S) : S * list (list Z) :=
  match ops with
  | [] => (s, [])
  | op :: ops =>
      let '(s, out) := step op s in
      let '(s, outs) := runOps step ops s in
      (s, match out with Some n => n :: outs | None => outs end)
  end.

Definition lineOp (op : bridgeOp) : Prop := match op with OpLine n => 10 ∉ n | _ => True end.

Lemma indexByte_line n : 10 ∉ n -> indexByte (n ++ [10]) 10 = Some (length n).
Proof.
  induction n as [|x n IH]; [done|]. intros [Hx Hn]%not_elem_of_cons. cbn [app indexByte length].
  rewrite IH by done. destruct (x =? 10) eqn:e; [by apply Z.eqb_eq in e|done].
Qed.

(** A line written to an empty buffer is delivered whole. *)
Lemma receiverWrite_line n : 10 ∉ n -> receiverWrite [] (n ++ [10]) = ([], Some n).
Proof.
  intros Hn. unfold receiverWrite. cbn [app]. rewrite indexByte_line by done. rewrite length_app. cbn [length].
  rewrite Nat.add_sub, Nat.eqb_refl. by rewrite take_app_length.
Qed.

Lemma queueNotice_spec n q :
  (length q <= maxPsiphonNotices)%nat -> queueNotice n q = drop (S (length q) - maxPsiphonNotices) (q ++ [n]).
Proof.
  intros Hq. unfold queueNotice. destruct (Nat.eqb_spec (length q) maxPsiphonNotices) as [e|e].
  - rewrite e. replace (S maxPsiphonNotices - maxPsiphonNotices)%nat with 1%nat by lia.
    destruct q as [|x q]; [done|]. cbn [drop app length] in *. unfold copy_into. cbn [length]. rewrite <- e, !drop_0, take_ge by lia.
    assert (Hd : length (drop (length q) (x :: q)) = 1%nat) by (rewrite length_drop; cbn; lia).
    destruct (drop (length q) (x :: q)) as [|y [|]]; [done| |done].
    replace (S (length q) - 1)%nat with (length q + 0)%nat by lia. by rewrite insert_app_r.
  - by replace (S (length q) - maxPsiphonNotices)%nat with 0%nat by lia.
Qed.

(** ** The ports and the state of the tunnel *)
Definition noticeWith `{NoticeEnv} {A} (type : list Z) (f : notice -> A) (j : list Z) : option A :=
  match unmarshalNotice j with Some n => if bool_decide (noticeType n = type) then Some (f n) else None | None => None end.

(** The value the last notice of a type gave. *)
Definition lastNotice `{NoticeEnv} {A} (type : list Z) (f : notice -> A) (log : list (list Z)) : option A :=
  last (omap (noticeWith type f) log).

Definition connectedBy `{NoticeEnv} (j : list Z) : option bool :=
  match noticeWith (str "Tunnels") (fun n => 0 <? noticeCount n) j with
  | Some c => Some c
  | None => noticeWith (str "Exiting") (fun _ => false) j
  end.

Definition fieldsAt `{NoticeEnv} (b : psiphonBridge) (log : list (list Z)) : Prop :=
  socksPort b = default 0 (lastNotice (str "ListeningSocksProxyPort") noticePort log) /\
  httpPort b = default 0 (lastNotice (str "ListeningHttpProxyPort") noticePort log) /\
  connected b = default false (last (omap connectedBy log)).

Lemma omap_last_snoc {A B} (f : A -> option B) l x :
  last (omap f (l ++ [x])) = match f x with Some y => Some y | None => last (omap f l) end.
Proof.
  rewrite omap_app. cbn. destruct (f x); [by rewrite last_snoc|by rewrite app_nil_r].
Qed.

Lemma noticeFields_last `{NoticeEnv} j log b : fieldsAt b log -> fieldsAt (noticeFields j b) (log ++ [j]).
Proof.
  unfold fieldsAt, lastNotice. rewrite !omap_last_snoc. unfold noticeFields, connectedBy, noticeWith.
  destruct (unmarshalNotice j) as [n|]; [|done]. intros (H1 & H2 & H3).
  repeat case_bool_decide; try done.
  all: lazymatch goal with H1 : noticeType ?n = _, H2 : noticeType ?n = _ |- _ => rewrite H1 in H2; discriminate end.
Qed.

Section Fifo.
Context `{NoticeEnv}.

(** The engine is at the state of the specification. *)
Definition queueAt (w : psiWorld) (q : queueSpec) : Prop :=
  psiReceiver w = Some [] /\ (specNext q <= length (specLog q))%nat /\
  notices (psiBridge w) = drop (specNext q) (specLog q) /\ (length (notices (psiBridge w)) <= maxPsiphonNotices)%nat /\
  fieldsAt (psiBridge w) (specLog q).

Lemma bridgeStep_spec op w q :
  lineOp op -> queueAt w q ->
  queueAt (bridgeStep op w).1 (specStep op q).1 /\ (bridgeStep op w).2 = (specStep op q).2.
Proof.
  intros Hop (Hr & Hle & Hn & Hl & Hf). destruct op as [n| |]; cbn [bridgeStep specStep lineOp] in *.
  - split; [|done]. unfold outputNotice. rewrite Hr, receiverWrite_line by done. split; [done|].
    cbn [fst specLog specNext psiBridge update]. unfold Notice. cbn [notices update].
    assert (Hlen : length (notices (psiBridge w)) = (length (specLog q) - specNext q)%nat) by (by rewrite Hn, length_drop).
    assert (Hq : queueNotice n (notices (psiBridge w)) =
              drop (specNext q `max` (S (length (specLog q)) - maxPsiphonNotices)) (specLog q ++ [n])).
    { rewrite queueNotice_spec by done. rewrite Hlen, Hn. rewrite <- drop_app_le, drop_drop by done. f_equal. lia. }
    assert (Hsame : notices (noticeFields n (psiBridge w)) = notices (psiBridge w)).
    { unfold noticeFields. repeat case_match; done. }
    rewrite Hsame, Hq. split_and!; [|done|rewrite length_drop| ]; rewrite ?length_app; cbn [length]; [unfold maxPsiphonNotices; lia..|].
    exact (noticeFields_last n _ _ Hf).
  - unfold PRPsiphonNoticePoll. rewrite Hn in *. destruct (specLog q !! specNext q) as [n|] eqn:e.
    + rewrite (drop_S _ _ _ e) in Hl |- *. apply lookup_lt_Some in e. cbn in Hl. split; [|done]. unfold queueAt. by split_and!; cbn; try lia.
    + apply lookup_ge_None in e. rewrite drop_ge in * by done. split; [|done]. unfold queueAt. cbn.
      rewrite (drop_ge (specLog q)) by done. split_and!; try done. by rewrite Hn.
  - split; [|done]. split_and!; cbn; try done; lia.
Qed.

Lemma runOps_spec ops w q :
  Forall lineOp ops -> queueAt w q ->
  queueAt (runOps bridgeStep ops w).1 (runOps specStep ops q).1 /\ (runOps bridgeStep ops w).2 = (runOps specStep ops q).2.
Proof.
  intros Hops. revert w q. induction Hops as [|op ops Hop _ IH]; intros w q Hw; [done|]. cbn [runOps].
  destruct (bridgeStep_spec op w q Hop Hw) as [Hs Hout]. revert Hs Hout.
  destruct (bridgeStep op w) as [w1 o1], (specStep op q) as [q1 o2]. cbn [fst snd]. intros Hs ->.
  destruct (IH w1 q1 Hs) as [Hs' Hout']. revert Hs' Hout'.
  destruct (runOps bridgeStep ops w1) as [w2 o3], (runOps specStep ops q1) as [q2 o4]. cbn [fst snd]. by intros ? ->.
Qed.

(** C22: the queue of notices of the Psiphon bridge refines a list of notices of
    which the reader has seen a part: from the moment the engine takes the bridge
    as its writer, for all notices, polls and resets in any order, the polls return
    exactly what the list gives them, which is every notice in the order it was
    written, without repetition, save that when more than 512 are waiting the
    oldest are lost; the queue never holds more than 512; the ports are those of
    the last notice that announced them since the reset, and connected is what the
    last notice on tunnels or on the exit says.  A notice is one line. *)
Theorem notices_fifo ops w :
  Forall lineOp ops -> psiReceiver w = Some [] -> psiBridge w = resetPsiphonBridgeState ->
  let '(w', polled) := runOps bridgeStep ops w in
  let '(q, polled') := runOps specStep ops (mkSpec [] 0) in
  polled = polled' /\ notices (psiBridge w') = drop (specNext q) (specLog q) /\
  (length (notices (psiBridge w')) <= maxPsiphonNotices)%nat /\ fieldsAt (psiBridge w') (specLog q).
Proof.
  intros Hops Hr Hb. assert (Hw : queueAt w (mkSpec [] 0)).
  { unfold queueAt. rewrite Hb. split_and!; try done. cbn. lia. }
  destruct (runOps_spec ops w _ Hops Hw) as [(_ & _ & Hn & Hl & Hf) Hout]. revert Hn Hl Hf Hout.
  by destruct (runOps bridgeStep ops w) as [w' p], (runOps specStep ops (mkSpec [] 0)) as [q p'].
Qed.
End Fifo.

(** ** Runs *)
#[local] Instance sampleNotices : NoticeEnv := {|
  unmarshalNotice j :=
    if bool_decide (j = str "socks") then Some (mkNotice (str "ListeningSocksProxyPort") 0 1080)
    else if bool_decide (j = str "up") then Some (mkNotice (str "Tunnels") 1 0)
    else if bool_decide (j = str "exit") then Some (mkNotice (str "Exiting") 0 0)
    else None
|}.

Definition psiTaken : psiWorld := mkPsi true false (Some []) false resetPsiphonBridgeState.
Definition sampleOps : list bridgeOp :=
  [OpLine (str "old"); OpReset; OpLine (str "first"); OpLine (str "socks"); OpPoll] ++ replicate 512 (OpLine (str "up")) ++ [OpPoll].

(** The notice announcing the port is the one pushed out. *)
Lemma notices_fifo_witness :
  let '(w', polled) := runOps bridgeStep sampleOps psiTaken in
  polled = [str "first"; str "up"] /\ length (notices (psiBridge w')) = 511%nat /\
  fieldsAt (psiBridge w') (specLog (runOps specStep sampleOps (mkSpec [] 0)).1) /\ socksPort (psiBridge w') = 1080.
Proof.
  assert (Hops : Forall lineOp sampleOps).
  { unfold sampleOps. rewrite !Forall_app. split; [|split; [apply Forall_replicate|]].
    all: repeat constructor; cbn; set_solver. }
  pose proof (notices_fifo sampleOps psiTaken Hops eq_refl eq_refl) as Hf.
  assert (Hout : (runOps bridgeStep sampleOps psiTaken).2 = [str "first"; str "up"]) by (vm_compute; reflexivity).
  assert (Hlen : length (notices (psiBridge (runOps bridgeStep sampleOps psiTaken).1)) = 511%nat) by (vm_compute; reflexivity).
  assert (Hport : socksPort (psiBridge (runOps bridgeStep sampleOps psiTaken).1) = 1080) by (vm_compute; reflexivity).
  destruct (runOps bridgeStep sampleOps psiTaken) as [w' p], (runOps specStep sampleOps (mkSpec [] 0)) as [q p'].
  destruct Hf as (_ & _ & _ & Hfields). cbn [fst snd] in *. by split_and!.
Defined.

(** A start that cannot build the controller, a start that can, and a stop. *)
Definition samplePsiRun : list psiEvent :=
  [PsiStart; PsiStart; PsiStop] ++ repeat (PsiRun 0 true) 6 ++ repeat (PsiRun 1 true) 8 ++ [PsiRun 0 true; PsiRun 0 false] ++
  repeat (PsiRun 0 true) 3 ++ repeat (PsiRun 1 true) 8 ++ [PsiWrite (str "socks" ++ [10])] ++ repeat (PsiRun 2 true) 8.

Lemma psiphon_lifecycle_witness :
  let st := fold_left psiApply samplePsiRun psiState0 in
  psiReachable st /\ forallb finished (pool st) = true /\ psiStore (shared st) = false /\
  forall p, outputNotice p (shared st) = shared st.
Proof.
  cbv zeta. assert (Hr : psiReachable (fold_left psiApply samplePsiRun psiState0)) by (eexists; reflexivity).
  pose proof (psiphon_lifecycle _ Hr) as (_ & Hq & Hfin).
  assert (Hall : forallb finished (pool (fold_left psiApply samplePsiRun psiState0)) = true) by (vm_compute; reflexivity).
  assert (Hc : psiController (shared (fold_left psiApply samplePsiRun psiState0)) = false) by (vm_compute; reflexivity).
  destruct (Hq (Hfin Hall)) as (_ & Hs & Hquiet). split; [exact Hr|]. split; [exact Hall|].
  split; [by rewrite Hs|exact (Hquiet Hc)].
Defined.

(** The bridge is cleared before the engine says that it already runs: the
    session goes on, and its port is forgotten. *)
Example second_start_forgets :
  let st := fold_left psiApply
              ([PsiStart] ++ repeat (PsiRun 0 true) 9 ++ [PsiWrite (str "socks" ++ [10]); PsiStart] ++ repeat (PsiRun 1 true) 4) psiState0 in
  pool st !! 1%nat = Some (Ret (Some ErrAlreadyStarted)) /\ psiController (shared st) = true /\ socksPort (psiBridge (shared st)) = 0.
Proof. vm_compute. split_and!; reflexivity. Qed.
