(* ===== verification/UsqueSocksThm.v ===== *)
(** * What the MASQUE session's SOCKS5 server lets through

    No request is served over TCP without the configured credentials; the flows
    of UDP clients are kept apart and bounded, and every connection that is open
    has the loop that will close it; the answers carry the address that was asked
    for; both SOCKS servers of the core read the same addresses, but for the frame
    on which one of them panics. *)

From stdpp Require Import base numbers list gmap sets strings.
From Stdlib Require Import ZArith Lia.
From S2P Require Import Prelude GoStrings AllowedIPs NetIP Obf GoNet GoNetThm PrConfig PrConfigThm PrSocks PrSocksThm UsqueSocks.

(** ** Reading *)

Lemma readFull_ok n r a b : readFull n r = Ok (a, b) <-> r = a ++ b /\ length a = n.
Proof.
  unfold readFull. destruct (Nat.ltb_spec (length r) n) as [Hl|Hl].
  - split; [done|]. intros [-> <-]. rewrite length_app in Hl. lia.
  - split.
    + intros [= <- <-]. rewrite take_drop, length_take. split; [done|lia].
    + intros [-> <-]. by rewrite take_app_length, drop_app_length.
Qed.

Lemma readFull_exact n a b : length a = n -> readFull n (a ++ b) = Ok (a, b).
Proof. intros H. by apply readFull_ok. Qed.

(** ** Credentials *)

Section Auth.
Context `{W : UsqueStack}.
Variables user pass udpLocal : list Z.

(** The client's part of a negotiation with the given credentials. *)
Definition authMessage (methods rest : list Z) : list Z :=
  [5; Z.of_nat (length methods)] ++ methods ++ [1; Z.of_nat (length user)] ++ user ++ [Z.of_nat (length pass)] ++ pass ++ rest.

Definition onlyReplies (evs : list usqueEvent) : Prop := Forall (fun e => exists bs, e = UReply bs) evs.

Lemma byteAt_cons x l : byteAt (x :: l) 0 = x.
Proof. done. Qed.

Lemma checkAuth_cases client :
  bytes_ok client ->
  (exists rest, checkAuth user pass client = ([UReply [1; 0]], Some rest) /\
     client = [1; Z.of_nat (length user)] ++ user ++ [Z.of_nat (length pass)] ++ pass ++ rest) \/
  (checkAuth user pass client).2 = None /\ onlyReplies (checkAuth user pass client).1.
Proof.
  intros Hb. unfold checkAuth.
  destruct (readFull 2 client) as [[auth r1]|] eqn:E1; [|by right; split; [|constructor]].
  apply readFull_ok in E1 as [-> L1]. destruct auth as [|v [|n [|? ?]]]; try discriminate L1.
  change (byteAt [v; n] 0) with v. change (byteAt [v; n] 1) with n.
  destruct (Z.eqb_spec v 1) as [->|]; [|by right; split; [|constructor]]. cbn [negb].
  destruct (readFull (Z.to_nat n) r1) as [[u r2]|] eqn:E2; [|by right; split; [|constructor]].
  apply readFull_ok in E2 as [-> L2].
  destruct (readFull 1 r2) as [[m r3]|] eqn:E3; [|by right; split; [|constructor]].
  apply readFull_ok in E3 as [-> L3]. destruct m as [|m [|? ?]]; try discriminate L3. change (byteAt [m] 0) with m.
  destruct (readFull (Z.to_nat m) r3) as [[p r4]|] eqn:E4; [|by right; split; [|constructor]].
  apply readFull_ok in E4 as [-> L4].
  destruct (bool_decide (u = user)) eqn:Eu; cbn [negb orb]; [|right; split; [done|by apply Forall_singleton; eexists]].
  destruct (bool_decide (p = pass)) eqn:Ep; cbn [negb orb]; [|right; split; [done|by apply Forall_singleton; eexists]].
  apply bool_decide_eq_true in Eu, Ep. subst u p. left. exists r4. split; [done|].
  apply Forall_app in Hb as [H1 Hb]. apply Forall_app in Hb as [_ Hb]. apply Forall_app in Hb as [H2 _].
  apply Forall_cons in H1 as [_ [Hn _]%Forall_cons]. apply Forall_cons in H2 as [Hm _]. unfold is_u8 in *.
  rewrite L2, L4, !Z2Nat.id by lia. done.
Qed.

Lemma checkAuth_accepts rest :
  checkAuth user pass ([1; Z.of_nat (length user)] ++ user ++ [Z.of_nat (length pass)] ++ pass ++ rest) = ([UReply [1; 0]], Some rest).
Proof.
  unfold checkAuth. rewrite (readFull_exact 2 [1; _]) by done. cbn [byteAt nth Z.eqb Pos.eqb negb].
  rewrite Nat2Z.id, readFull_exact by done. rewrite (readFull_exact 1 [_]) by done. cbn [byteAt nth].
  rewrite Nat2Z.id, readFull_exact by done. by rewrite !bool_decide_eq_true_2.
Qed.

(** C17: with credentials configured, a client that offers the method, then sends
    exactly the user name and the password, gets its request served; any other
    client gets status replies only: nothing is dialled for it. *)
Theorem usque_authenticated client :
  bytes_ok client -> user <> [] \/ pass <> [] ->
  (exists methods rest, 2 ∈ methods /\ client = authMessage methods rest /\
     handleTCP user pass udpLocal client = [UReply [5; 2]; UReply [1; 0]] ++ usqueRequest udpLocal rest) \/
  (forall methods rest, 2 ∈ methods -> client <> authMessage methods rest) /\ onlyReplies (handleTCP user pass udpLocal client).
Proof.
  intros Hb Hcred. assert (Hreq : requiredMethod user pass = 2).
  { unfold requiredMethod. case_bool_decide as H; [|done]. destruct H, Hcred; done. }
  unfold handleTCP, negotiate. rewrite Hreq.
  assert (Hno : forall evs, onlyReplies evs -> (forall methods rest, 2 ∈ methods -> client <> authMessage methods rest) ->
    (exists methods rest, 2 ∈ methods /\ client = authMessage methods rest /\ evs ++ [] = [UReply [5; 2]; UReply [1; 0]] ++ usqueRequest udpLocal rest) \/
    (forall methods rest, 2 ∈ methods -> client <> authMessage methods rest) /\ onlyReplies (evs ++ [])).
  { intros evs H1 H2. right. by rewrite app_nil_r. }
  destruct (readFull 2 client) as [[h r1]|] eqn:E1.
  2: { apply Hno; [constructor|]. intros m r _ ->. unfold authMessage in E1. by rewrite readFull_exact in E1. }
  apply readFull_ok in E1 as [-> L1]. destruct h as [|v [|n [|? ?]]]; try discriminate L1.
  change (byteAt [v; n] 0) with v. change (byteAt [v; n] 1) with n.
  destruct (Z.eqb_spec v 5) as [->|Hv]; cbn [negb].
  2: { apply Hno; [constructor|]. intros m r _ [= E _ _]. done. }
  destruct (readFull (Z.to_nat n) r1) as [[ms r2]|] eqn:E2.
  2: { apply Hno; [constructor|]. intros m r _ [= -> ->]. by rewrite Nat2Z.id, readFull_exact in E2. }
  apply readFull_ok in E2 as [-> L2].
  assert (Hn : n = Z.of_nat (length ms)).
  { apply Forall_app in Hb as [Hb _]. apply Forall_cons in Hb as [_ [Hn _]%Forall_cons]. unfold is_u8 in Hn. lia. }
  assert (Hsame : forall m r, [5; n] ++ ms ++ r2 = authMessage m r ->
    m = ms /\ r2 = [1; Z.of_nat (length user)] ++ user ++ [Z.of_nat (length pass)] ++ pass ++ r).
  { intros m r E. unfold authMessage in E. injection E as En E. rewrite Hn in En. apply Nat2Z.inj in En.
    by apply app_inj_1 in E as [-> ->]. }
  destruct (bool_decide (2 ∈ ms)) eqn:Em; cbn [negb].
  2: { apply Hno; [by apply Forall_singleton; eexists|]. intros m r Hm [-> _]%Hsame. by apply bool_decide_eq_false in Em. }
  apply bool_decide_eq_true in Em. cbn [Z.eqb Pos.eqb].
  assert (Hb2 : bytes_ok r2) by (apply Forall_app in Hb as [_ Hb]; by apply Forall_app in Hb as [_ Hb]).
  destruct (checkAuth_cases r2 Hb2) as [(rest & Hc & ->)|[Hc He]].
  - rewrite Hc. left. exists ms, rest. split; [done|]. split; [by rewrite Hn|done].
  - destruct (checkAuth user pass r2) as [evs rest] eqn:E3. cbn [fst snd] in Hc, He. subst rest. apply Hno.
    + constructor; [by eexists|done].
    + intros m r Hm [_ ->]%Hsame. by rewrite checkAuth_accepts in E3.
Qed.
End Auth.

(** ** The address readers of both servers *)

Lemma to_nat_2 n : (n + 2 - 2)%nat = n.
Proof. lia. Qed.

(** An address and a port behind it, read from a stream. *)
Definition readsAs (rest : list Z) (atyp : Z) (host : list Z) (port : Z) (after : list Z) : Prop :=
  exists r pb, readAddress rest atyp = Ok (host, r) /\ readFull 2 r = Ok (pb, after) /\ port = be_val pb.

(** Reading [n] bytes and then two is reading [n + 2] and cutting them. *)
Lemma readFull_split n r p after :
  readFull (n + 2) r = Ok (p, after) <->
  exists r', readFull n r = Ok (take n p, r') /\ readFull 2 r' = Ok (drop n p, after) /\ length p = (n + 2)%nat.
Proof.
  rewrite readFull_ok. split.
  - intros [-> L]. exists (drop n p ++ after). rewrite !readFull_ok, app_assoc, take_drop, length_take, length_drop.
    split_and!; try done; lia.
  - intros (r' & [-> L1]%readFull_ok & [-> L2]%readFull_ok & L). by rewrite app_assoc, take_drop.
Qed.

Lemma readFull_pair n r a r' pb after :
  readFull n r = Ok (a, r') -> readFull 2 r' = Ok (pb, after) -> readFull (n + 2) r = Ok (a ++ pb, after).
Proof.
  intros [-> L1]%readFull_ok [-> L2]%readFull_ok. apply readFull_ok. rewrite length_app, app_assoc. split; [done|lia].
Qed.

Lemma readSocksAddr_readsAs rest atyp host port after :
  readSocksAddr rest atyp = Ok (host, port, after) <-> readsAs rest atyp host port after.
Proof.
  assert (Hfix : forall n, (try a <- readFull (n + 2) rest ;; Ok (ipString (take n a.1), be_val (drop n a.1), a.2)) = Ok (host, port, after) <->
    exists r pb, (try a <- readFull n rest ;; Ok (ipString a.1, a.2)) = Ok (host, r) /\ readFull 2 r = Ok (pb, after) /\ port = be_val pb).
  { intros n. split.
    - destruct (readFull (n + 2) rest) as [[p r]|] eqn:E; [|discriminate]. intros [= <- <- <-].
      apply readFull_split in E as (r' & E1 & E2 & _). exists r', (drop n p). by rewrite E1.
    - intros (r & pb & E1 & E2 & ->). destruct (readFull n rest) as [[a r']|] eqn:E; [|discriminate]. injection E1 as <- <-.
      rewrite (readFull_pair _ _ _ _ _ _ E E2). apply readFull_ok in E as [_ <-]. cbn [rbind fst snd].
      by rewrite take_app_length, drop_app_length. }
  unfold readsAs, readSocksAddr, readAddress.
  destruct (atyp =? 1); [exact (Hfix 4%nat)|]. destruct (atyp =? 4); [exact (Hfix 16%nat)|].
  destruct (atyp =? 3); [|split; [discriminate|intros (r & pb & ? & _); discriminate]].
  destruct (readFull 1 rest) as [[nb r1]|]; [|split; [discriminate|intros (r & pb & ? & _); discriminate]].
  cbn [rbind fst snd]. fold (byteAt nb 0). set (n := Z.to_nat (byteAt nb 0)). split.
  - destruct (readFull (n + 2) r1) as [[p r]|] eqn:E; [|discriminate]. intros [= <- <- <-].
    apply readFull_split in E as (r' & E1 & E2 & ->). replace (n + 2 - 2)%nat with n by lia. by exists r', (drop n p).
  - intros (r & pb & E1 & E2 & ->). rewrite (readFull_pair _ _ _ _ _ _ E1 E2). cbn [rbind fst snd].
    apply readFull_ok in E1 as [_ L1]. apply readFull_ok in E2 as [_ L2]. rewrite length_app, L1, L2.
    replace (n + 2 - 2)%nat with n by lia. by rewrite <- L1, take_app_length, drop_app_length.
Qed.

(** The reader of frames uses the bytes the stream reader takes. *)
Lemma addressFromBytes_read atyp b :
  match addressFromBytes atyp b with
  | Done (host, used) => readAddress b atyp = Ok (host, drop used b) /\ (used <= length b)%nat
  | Failed => ~ (atyp = 3 /\ b = []) /\ exists e, readAddress b atyp = Err e
  | Panicked => atyp = 3 /\ b = []
  end.
Proof.
  assert (Hfix : forall n, atyp <> 3 -> match (if (length b <? n)%nat then Failed else Done (ipString (take n b), n)) with
    | Done (host, used) => (try a <- readFull n b ;; Ok (ipString a.1, a.2)) = Ok (host, drop used b) /\ (used <= length b)%nat
    | Failed => ~ (atyp = 3 /\ b = []) /\ exists e, (try a <- readFull n b ;; Ok (ipString a.1, a.2)) = Err e
    | Panicked => atyp = 3 /\ b = []
    end).
  { intros n Hne. unfold readFull. destruct (Nat.ltb_spec (length b) n); [|done]. split; [tauto|by eexists]. }
  unfold addressFromBytes, readAddress.
  destruct (Z.eqb_spec atyp 1); [apply Hfix; lia|]. destruct (Z.eqb_spec atyp 4); [apply Hfix; lia|].
  destruct (Z.eqb_spec atyp 3); [|split; [tauto|by eexists]].
  destruct b as [|nb b]; [done|]. change (readFull 1 (nb :: b)) with (@Ok socksError _ ([nb], b)). cbn [rbind fst snd].
  change (byteAt [nb] 0) with nb. cbn zeta. set (m := Z.to_nat nb). unfold readFull.
  destruct (Nat.ltb_spec (length (nb :: b)) (1 + m)) as [Hl|Hl]; cbn [length] in Hl.
  - destruct (Nat.ltb_spec (length b) m); [|lia]. split; [by intros [_ ?]|by eexists].
  - destruct (Nat.ltb_spec (length b) m); [lia|]. split; [|cbn [length]; lia]. change (1 + m)%nat with (S m).
    rewrite slice_cons. unfold slice. rewrite drop_0. by replace (m - 0)%nat with m by lia.
Qed.

Lemma parseFrame_readsAs x y atyp rest host port after :
  parseFrame (x :: y :: 0 :: atyp :: rest) = Done (host, port, after) <-> readsAs rest atyp host port after.
Proof.
  unfold parseFrame, readsAs. change (byteAt (x :: y :: 0 :: atyp :: rest) 2) with 0.
  change (byteAt (x :: y :: 0 :: atyp :: rest) 3) with atyp. change (drop 4 (x :: y :: 0 :: atyp :: rest)) with rest.
  change ((length (x :: y :: 0%Z :: atyp :: rest) <? 4)%nat || negb (0 =? 0)) with false. cbn iota.
  pose proof (addressFromBytes_read atyp rest) as Hr. destruct (addressFromBytes atyp rest) as [[h used]| |].
  2: { destruct Hr as [_ [e' ->]]. split; [done|]. by intros (r & pb & [=] & _). }
  2: { destruct Hr as [-> ->]. split; [done|]. by intros (r & pb & [=] & _). }
  destruct Hr as [-> Hu]. cbn zeta.
  assert (Hs : slice (x :: y :: 0 :: atyp :: rest) (4 + used) (4 + used + 2) = take 2 (drop used rest)).
  { unfold slice. by replace (4 + used + 2 - (4 + used))%nat with 2%nat by lia. }
  assert (Hd : drop (4 + used + 2) (x :: y :: 0 :: atyp :: rest) = drop 2 (drop used rest)).
  { replace (4 + used + 2)%nat with (S (S (S (S (used + 2))))) by lia. cbn [drop]. by rewrite drop_drop. }
  rewrite Hs, Hd. destruct (Nat.ltb_spec (length (x :: y :: 0 :: atyp :: rest)) (4 + used + 2)) as [Hl|Hl]; cbn [length] in Hl.
  - split; [done|]. intros (r & pb & [= <- <-] & [E L]%readFull_ok & _).
    apply (f_equal length) in E. rewrite length_app, length_drop in E. lia.
  - split.
    + intros [= <- <- <-]. exists (drop used rest), (take 2 (drop used rest)). split; [done|]. split; [|done].
      apply readFull_ok. rewrite take_drop, length_take, length_drop. split; [done|lia].
    + intros (r & pb & [= <- <-] & [E L]%readFull_ok & ->). rewrite E. by rewrite <- L, take_app_length, drop_app_length.
Qed.

(** The frame that panics is the one of a domain without its length. *)
Lemma parseFrame_panics frame : parseFrame frame = Panicked <-> exists x y, frame = [x; y; 0; 3].
Proof.
  unfold parseFrame. destruct frame as [|x [|y [|z [|atyp rest]]]]; try (split; [done|by intros (? & ? & ?)]).
  change (byteAt (x :: y :: z :: atyp :: rest) 2) with z. change (byteAt (x :: y :: z :: atyp :: rest) 3) with atyp.
  change (drop 4 (x :: y :: z :: atyp :: rest)) with rest. change (length (x :: y :: z :: atyp :: rest) <? 4)%nat with false.
  cbn [orb]. destruct (Z.eqb_spec z 0) as [->|Hz]; cbn [negb]; [|split; [done|]; by intros (? & ? & [= -> -> -> -> ->])].
  pose proof (addressFromBytes_read atyp rest) as Hr. destruct (addressFromBytes atyp rest) as [[h used]| |].
  - destruct Hr as [Hr Hu]. split; [cbn zeta; by case_match|]. intros (? & ? & [= _ _ -> ->]). by cbn in Hr.
  - destruct Hr as [Hr _]. split; [done|]. intros (? & ? & [= _ _ -> ->]). by destruct Hr.
  - destruct Hr as [-> ->]. split; [|done]. intros _. by exists x, y.
Qed.

(** C40: the two SOCKS servers of the core, of the MASQUE session and of the live
    tunnel, read the same host and port from the same bytes and leave the same
    rest, in TCP requests and in UDP frames, and refuse the same bytes; only, a
    frame that ends where the length of a domain should be is an error for the live
    tunnel's server and a panic of the session's. *)
Theorem socks_servers_agree rest atyp x y host port after :
  (readSocksAddr rest atyp = Ok (host, port, after) <-> readsAs rest atyp host port after) /\
  (parseSocksUDP (x :: y :: 0 :: atyp :: rest) = Ok (host, port, after) <-> readsAs rest atyp host port after) /\
  (parseFrame (x :: y :: 0 :: atyp :: rest) = Done (host, port, after) <-> readsAs rest atyp host port after) /\
  (parseFrame (x :: y :: 0 :: atyp :: rest) = Panicked <-> atyp = 3 /\ rest = []) /\
  is_ok (parseSocksUDP [x; y; 0; 3]) = false.
Proof.
  assert (Hudp : forall atyp rest h p a, parseSocksUDP (x :: y :: 0 :: atyp :: rest) = Ok (h, p, a) <-> readsAs rest atyp h p a).
  { intros *. rewrite socks_parsers_agree. apply readSocksAddr_readsAs. }
  split_and!; [apply readSocksAddr_readsAs|apply Hudp|apply parseFrame_readsAs| |].
  - rewrite parseFrame_panics. split; [by intros (? & ? & [= _ _ -> ->])|]. intros [-> ->]. by exists x, y.
  - destruct (parseSocksUDP [x; y; 0; 3]) as [[[h p] a]|] eqn:E; [|done]. apply Hudp in E as (r & pb & E & _). by cbn in E.
Qed.

(** ** Answers *)

(** The host an answer shows for the one that was asked for: the same, an address
    in its usual spelling. *)
Definition spelled (host : list Z) : list Z :=
  match ParseIP host with Some ip => ipString ip | None => host end.

Lemma parseIPv4Loop_length s fs v n bs : parseIPv4Loop s fs v n = Some bs -> length bs = 4%nat.
Proof.
  revert fs v n. induction s as [|c s IH]; intros fs v n; cbn [parseIPv4Loop].
  - destruct (Nat.eqb_spec (length fs) 3) as [E|]; [|done]. destruct (negb _); [|done]. intros [= <-].
    rewrite length_reverse. cbn. lia.
  - destruct (isDigit c).
    + destruct (_ && _); [done|]. destruct (255 <? _); [done|]. apply IH.
    + destruct (c =? 46); [|done]. destruct (_ || _); [done|]. apply IH.
Qed.

Lemma parseIPv6Loop_length fuel s ip ell r :
  parseIPv6Loop fuel s ip ell = Some r -> (length ip + 2 * fuel <= 16)%nat -> (length r.1 <= 16)%nat.
Proof.
  revert s ip ell. induction fuel as [|f IH]; intros s ip ell; cbn [parseIPv6Loop].
  - destruct (length s =? 0)%nat; [|done]. intros [= <-]. cbn. lia.
  - destruct (hexGroup s 0 0) as [[[acc off] rest]|]; [|done]. cbn [mbind option_bind].
    destruct (off =? 0)%nat; [done|].
    assert (Hgo : forall s' ell', parseIPv6Loop f s' (ip ++ [acc / 256; acc mod 256]) ell' = Some r ->
      (length ip + 2 * S f <= 16)%nat -> (length r.1 <= 16)%nat).
    { intros s' ell' E Hl. eapply IH; [exact E|]. rewrite length_app. cbn. lia. }
    assert (Hend : forall ell', Some (ip ++ [acc / 256; acc mod 256], ell') = Some r ->
      (length ip + 2 * S f <= 16)%nat -> (length r.1 <= 16)%nat).
    { intros ell' [= <-] Hl. cbn [fst]. rewrite length_app. cbn. lia. }
    assert (Hv4 : forall b ell', b || (12 <? length ip)%nat = false -> (v4 ← parseIPv4 s; Some (ip ++ v4, ell')) = Some r ->
      (length ip + 2 * S f <= 16)%nat -> (length r.1 <= 16)%nat).
    { intros b ell' [_ Hb%Nat.ltb_ge]%orb_false_iff E Hl. destruct (parseIPv4 s) as [v4|] eqn:E4; [|done]. injection E as <-.
      apply parseIPv4Loop_length in E4. cbn [fst]. rewrite length_app, E4. lia. }
    repeat case_match; try done; try apply Hgo; try apply Hend; by eapply Hv4.
Qed.

Lemma parseIPv6_length s bs z : parseIPv6 s = Some (bs, z) -> length bs = 16%nat.
Proof.
  unfold parseIPv6. destruct (cutByte 37 s) as [[s' zone] found]. destruct (found && _); [done|].
  assert (Hm : forall o : option (list Z * option nat),
    (forall r, o = Some r -> (length r.1 <= 16)%nat) ->
    ('(ip, ell) ← o; if (length ip <? 16)%nat then e ← ell; Some (take e ip ++ zeros (16 - length ip) ++ drop e ip, found)
      else match ell with Some _ => None | None => Some (ip, found) end) = Some (bs, z) -> length bs = 16%nat).
  { intros o Ho. destruct o as [[ip ell]|]; [|done]. specialize (Ho _ eq_refl). cbn [mbind option_bind fst] in *.
    destruct (Nat.ltb_spec (length ip) 16) as [Hl|Hl].
    - destruct ell as [e|]; [|done]. intros [= <- _]. unfold zeros. rewrite !length_app, length_replicate, length_take, length_drop. lia.
    - destruct ell; [done|]. intros [= <- _]. lia. }
  assert (Hl : forall t e r, parseIPv6Loop 8 t [] e = Some r -> (length r.1 <= 16)%nat) by (intros t e r E; eapply parseIPv6Loop_length; [exact E|cbn; lia]).
  apply Hm. intros r. repeat case_match; try apply Hl. intros [= <-]. cbn. lia.
Qed.

Lemma ParseIP_length s ip : ParseIP s = Some ip -> length ip = 16%nat.
Proof.
  unfold ParseIP, ParseAddr. destruct (List.find _ s) as [c|]; [|done].
  assert (Hb : forall bs, length (be_bytes (Z.to_nat (ipLen (addrOfBytes bs))) (ipVal (addrOfBytes bs))) = length bs)
    by (intros bs; rewrite length_be_bytes; cbn; lia).
  destruct (c =? 46).
  - destruct (parseIPv4 s) as [bs|] eqn:E; [|done]. cbn [mbind option_bind]. rewrite Hb. apply parseIPv4Loop_length in E.
    rewrite E. pose proof (Hb bs) as Hbs. rewrite E in Hbs. destruct (be_bytes _ _) as [|? [|? [|? [|? [|? ?]]]]]; try discriminate Hbs. by intros [= <-].
  - destruct (c =? 58); [|done]. destruct (parseIPv6 s) as [[bs [|]]|] eqn:E; [done| |done]. cbn [mbind option_bind]. rewrite Hb.
    apply parseIPv6_length in E. rewrite E. cbn [Nat.eqb]. intros <-%Some_inj. by rewrite Hb.
Qed.

(** An encoded address reads back. *)
Lemma encodeAddress_read host rest :
  (length host <= 255)%nat ->
  exists atyp body, encodeAddress host ++ rest = atyp :: body ++ rest /\ readAddress (body ++ rest) atyp = Ok (spelled host, rest).
Proof.
  intros Hl. unfold encodeAddress, spelled. destruct (ParseIP host) as [ip|] eqn:E.
  - apply ParseIP_length in E. destruct (To4 ip) as [v4|] eqn:E4.
    + assert (H4 : length v4 = 4%nat).
      { unfold To4 in E4. rewrite E in E4. cbn [Nat.eqb andb] in E4. case_bool_decide; [|done]. injection E4 as <-. by rewrite length_drop, E. }
      exists 1, v4. split; [done|]. unfold readAddress. cbn [Z.eqb Pos.eqb]. rewrite readFull_exact by done. cbn [rbind fst snd].
      do 2 f_equal. unfold ipString. rewrite E4. unfold To4. by rewrite H4.
    + exists 4, ip. split; [done|]. unfold readAddress. cbn [Z.eqb Pos.eqb]. by rewrite readFull_exact.
  - exists 3, (u8 (Z.of_nat (length host)) :: host). split; [done|]. unfold readAddress. cbn [Z.eqb Pos.eqb].
    change (readFull 1 ((u8 (Z.of_nat (length host)) :: host) ++ rest)) with (@Ok socksError _ ([u8 (Z.of_nat (length host))], host ++ rest)).
    cbn [rbind fst snd]. change (byteAt [?x] 0) with x. unfold u8. rewrite Z.mod_small by lia. rewrite Nat2Z.id. by rewrite readFull_exact.
Qed.

(** The frame of an answer parses to the host and port that were asked for,
    an address in its usual spelling, and to the payload. *)
Theorem answer_roundtrip host port payload :
  hostOk host -> (length host <= 255)%nat -> 0 <= port < 65536 ->
  exists h portText, SplitHostPort (JoinHostPort host (itoa port)) = Some (h, portText) /\
    parseFrame (replyFrame h portText payload) = Done (spelled host, port, payload).
Proof.
  intros Hh Hl Hp. exists host, (itoa port). rewrite split_join by (done || (apply portOk_itoa; lia)). split; [done|].
  unfold replyFrame, atoiOr0. rewrite atoi_itoa by lia. cbn [app].
  destruct (encodeAddress_read host (be_bytes 2 (u16 port) ++ payload) Hl) as (atyp & body & -> & Hr).
  apply parseFrame_readsAs. exists (be_bytes 2 (u16 port) ++ payload), (be_bytes 2 (u16 port)). split; [done|]. split.
  - by apply readFull_exact.
  - rewrite be_val_be_bytes. change (256 ^ Z.of_nat 2) with 65536. unfold u16. rewrite (Z.mod_small port) by lia.
    by rewrite Z.mod_small by lia.
Qed.

(** ** Flows *)

Section Flows.
Context `{W : UsqueStack} `{!UsqueStackLaws}.

Record flows_ok (s : usqueUDP) : Prop := {
  (* the map holds the connections of its keys, one each *)
  fo_key : forall key c, flows s !! key = Some c -> exists ow, owners s !! c = Some ow /\ key = flowKey (owClient ow) (owDst ow);
  fo_size : (size (flows s) <= maxFlows)%nat;
  fo_frames : (length (frames s) + length (writes s) <= udpSemCap)%nat;
  fo_bar : Forall (fun f => 124 ∉ f.1) (frames s);
  fo_owner_bar : forall c ow, owners s !! c = Some ow -> 124 ∉ owClient ow;
  fo_fresh : forall c ow, owners s !! c = Some ow -> (c < nextConn s)%nat;
  (* the connections that are open have the loop that closes them *)
  fo_readers : openConns s ⊆ readers s ∪ closing s;
  fo_live : serverClosed s = false -> forall c ow, c ∈ readers s -> owners s !! c = Some ow -> flows s !! flowKey (owClient ow) (owDst ow) = Some c;
  fo_closed : serverClosed s = true -> openConns s ⊆ closing s /\ flows s = ∅;
  fo_known : forall c, c ∈ readers s -> is_Some (owners s !! c);
  (* everything that goes through a connection belongs to its owner *)
  fo_writes : Forall (fun '(c, client, dst, _) => owners s !! c = Some (mkOwner client dst)) (writes s);
  fo_stack : Forall (fun '(c, client, dst, _) => owners s !! c = Some (mkOwner client dst)) (toStack s);
  fo_clients : Forall (fun '(c, client, frame, payload) => exists ow h p, owners s !! c = Some ow /\ client = owClient ow /\
                         SplitHostPort (owDst ow) = Some (h, p) /\ frame = replyFrame h p payload) (toClients s);
  (* the one frame that ends the process *)
  fo_panicked : forall frame, panicked s = Some frame -> exists x y, frame = [x; y; 0; 3]
}.

Ltac udp_fields :=
  cbn [flows owners nextConn openConns readers closing frames writes serverClosed panicked toStack toClients update].

Lemma flowKey_inj c1 d1 c2 d2 : 124 ∉ c1 -> 124 ∉ c2 -> flowKey c1 d1 = flowKey c2 d2 -> c1 = c2 /\ d1 = d2.
Proof. apply sep_inj. Qed.

Lemma writeConn_ok c client dst payload s :
  flows_ok s -> owners s !! c = Some (mkOwner client dst) -> flows_ok (writeConn c client dst payload s).
Proof.
  intros [] Ho. unfold writeConn. destruct (bool_decide _); [|by split]. split; try done. apply Forall_app_2; [done|].
  by apply Forall_singleton.
Qed.

(** A handler keeps its slot when it is about to write. *)
Lemma addWrite_ok c client dst payload s :
  flows_ok s -> (length (frames s) + length (writes s) < udpSemCap)%nat -> owners s !! c = Some (mkOwner client dst) ->
  flows_ok (s <| writes ::= (fun l => l ++ [(c, client, dst, payload)]) |>).
Proof.
  intros [] Hl Ho. split; try done; udp_fields.
  - rewrite length_app. cbn. lia.
  - apply Forall_app_2; [done|]. by apply Forall_singleton.
Qed.

(** A new connection takes the next number. *)
Lemma newFlow_ok client dst s :
  flows_ok s -> serverClosed s = false -> 124 ∉ client -> (size (flows s) < maxFlows)%nat -> flows s !! flowKey client dst = None ->
  let c := nextConn s in
  flows_ok (s <| nextConn ::= S |> <| owners ::= (fun m => <[c := mkOwner client dst]> m) |>
              <| openConns ::= (fun o => o ∪ {[c]}) |> <| readers ::= (fun o => o ∪ {[c]}) |>
              <| flows ::= (fun m => <[flowKey client dst := c]> m) |>).
Proof.
  intros [] Hopen Hbar Hsize Hnone. cbn zeta. set (c := nextConn s).
  assert (Hfresh : owners s !! c = None).
  { destruct (owners s !! c) as [ow|] eqn:E; [|done]. apply fo_fresh0 in E. unfold c in E. lia. }
  assert (Hold : forall c' ow, owners s !! c' = Some ow -> <[c := mkOwner client dst]> (owners s) !! c' = Some ow).
  { intros c' ow E. rewrite lookup_insert_ne; [done|]. intros <-. congruence. }
  split; udp_fields.
  - intros key c'. destruct (decide (key = flowKey client dst)) as [->|Hk].
    + rewrite lookup_insert_eq. intros [= <-]. exists (mkOwner client dst). by rewrite lookup_insert_eq.
    + rewrite lookup_insert_ne by done. intros (ow & Ho & ->)%fo_key0. exists ow. by rewrite (Hold _ _ Ho).
  - rewrite map_size_insert_None by done. lia.
  - done.
  - done.
  - intros c' ow. destruct (decide (c' = c)) as [->|Hc]; [rewrite lookup_insert_eq; by intros [= <-]|].
    rewrite lookup_insert_ne by done. apply fo_owner_bar0.
  - intros c' ow. destruct (decide (c' = c)) as [->|Hc]; [unfold c; lia|].
    rewrite lookup_insert_ne by done. intros Hf%fo_fresh0. lia.
  - set_solver.
  - intros _ c' ow Hc' Ho. destruct (decide (c' = c)) as [->|Hc].
    + rewrite lookup_insert_eq in Ho. injection Ho as <-. by rewrite lookup_insert_eq.
    + rewrite lookup_insert_ne in Ho by done. pose proof (fo_live0 Hopen c' ow ltac:(set_solver) Ho) as Hl.
      rewrite lookup_insert_ne; [done|]. intros E. rewrite <- E in Hl. congruence.
  - congruence.
  - intros c'. destruct (decide (c' = c)) as [->|Hc]; [rewrite lookup_insert_eq; by eexists|].
    rewrite lookup_insert_ne by done. intros Hk. apply fo_known0. set_solver.
  - eapply Forall_impl; [exact fo_writes0|]. intros [[[c' cl] d] p]. apply Hold.
  - eapply Forall_impl; [exact fo_stack0|]. intros [[[c' cl] d] p]. apply Hold.
  - eapply Forall_impl; [exact fo_clients0|]. intros [[[c' cl] fr] pl] (ow & h & p & Ho & Hrest). exists ow, h, p. by rewrite (Hold _ _ Ho).
  - done.
Qed.

Lemma forwardUDP_ok client frame s :
  flows_ok s -> (length (frames s) + length (writes s) < udpSemCap)%nat -> 124 ∉ client -> flows_ok (forwardUDP client frame s).
Proof.
  intros Hok Hslot Hbar. unfold forwardUDP. destruct (parseFrame frame) as [[[host port] payload]| |] eqn:Ep; [|done|].
  2: { apply parseFrame_panics in Ep. destruct Hok. split; try done. by intros ? [= <-]. }
  cbn zeta. set (dst := JoinHostPort host (itoa port)).
  destruct (flows s !! flowKey client dst) as [c|] eqn:Ek.
  - apply addWrite_ok; [done|done|]. destruct (fo_key s Hok _ _ Ek) as ([cl d] & Ho & Hk).
    apply flowKey_inj in Hk as [-> ->]; [done|done|]. by apply (fo_owner_bar s Hok) in Ho.
  - destruct (Nat.leb_spec maxFlows (size (flows s))); [done|].
    destruct (serverClosed s) eqn:Ec; [by rewrite dial_cancelled|]. destruct (stackDialUDP false dst); [|done].
    apply addWrite_ok; [by apply newFlow_ok|done|]. cbn [owners update]. by rewrite lookup_insert_eq.
Qed.

Lemma endReader_ok c ow s : flows_ok s -> c ∈ readers s -> owners s !! c = Some ow -> flows_ok (endReader c ow s).
Proof.
  intros [] Hin Hc. unfold endReader. split; udp_fields; try done.
  - intros key c' [_ Hk]%lookup_delete_Some. by apply fo_key0.
  - rewrite map_size_delete. case_match; cbn [id]; lia.
  - intros x Hx. destruct (decide (x = c)) as [->|Hne]; set_solver.
  - intros Hopen c' ow' [Hc' Hne]%elem_of_difference Ho'. pose proof (fo_live0 Hopen c' ow' Hc' Ho') as Hl.
    rewrite lookup_delete_ne; [done|]. intros E. rewrite <- E, (fo_live0 Hopen c ow Hin Hc) in Hl. set_solver.
  - intros Hcl. destruct (fo_closed0 Hcl) as [Ho ->]. split; [set_solver|apply delete_empty].
  - intros c' Hk. apply fo_known0. set_solver.
Qed.

Lemma closeConn_ok c s : flows_ok s -> flows_ok (closeConn c s).
Proof.
  intros []. unfold closeConn. split; udp_fields; try done.
  - set_solver.
  - intros Hcl. destruct (fo_closed0 Hcl) as [Ho ->]. split; [set_solver|done].
Qed.

Lemma closeServer_ok s : flows_ok s -> flows_ok (closeServer s).
Proof.
  intros []. unfold closeServer. split; udp_fields; try done.
  - rewrite map_size_empty. unfold maxFlows. lia.
  - set_solver.
  - intros _. split; [|done]. destruct (serverClosed s) eqn:Ec; [destruct (fo_closed0 eq_refl); set_solver|].
    intros c [Hc Hn]%elem_of_difference. apply fo_readers0 in Hc as Hr. apply elem_of_union in Hr as [Hr|Hr]; [|done]. destruct Hn.
    destruct (fo_known0 c Hr) as [ow Ho]. pose proof (fo_live0 eq_refl c ow Hr Ho) as Hl.
    apply elem_of_list_to_set, list_elem_of_fmap. eexists (_, c). split; [done|]. by apply elem_of_map_to_list.
Qed.

Lemma usque_step_ok s s' : flows_ok s -> usqueUDPStep s s' -> flows_ok s'.
Proof.
  intros Hok Hs. destruct Hs as [client frame s _ Hbar|client frame l1 l2 s Hf|c client dst payload l1 l2 s Hf|c ow answer sent s Hr Ho Hopen|c s Hc|s].
  - unfold serveUDP. destruct (Nat.ltb_spec (length (frames s) + length (writes s)) udpSemCap); [|done]. destruct Hok. split; try done; udp_fields.
    + rewrite length_app. cbn. lia.
    + apply Forall_app_2; [done|by apply Forall_singleton].
  - pose proof (fo_bar s Hok) as Hb. rewrite Hf in Hb. apply Forall_app in Hb as [Hb1 [Hb Hb2]%Forall_cons].
    pose proof (fo_frames s Hok) as Hl. rewrite Hf, length_app in Hl. cbn [length] in Hl. apply forwardUDP_ok; [| |done].
    + destruct Hok. split; try done; udp_fields; [rewrite length_app; lia|by apply Forall_app_2].
    + udp_fields. rewrite length_app. lia.
  - pose proof (fo_writes s Hok) as Hw. rewrite Hf in Hw. apply Forall_app in Hw as [Hw1 [Hw Hw2]%Forall_cons].
    pose proof (fo_frames s Hok) as Hl. rewrite Hf, length_app in Hl. cbn [length] in Hl. apply writeConn_ok; [|done].
    destruct Hok. split; try done; udp_fields; [rewrite length_app; lia|by apply Forall_app_2].
  - unfold readUDPReply. destruct answer as [payload|]; [|by apply endReader_ok].
    destruct (SplitHostPort (owDst ow)) as [[h p]|] eqn:Ed; [|by apply endReader_ok]. destruct sent; [|done].
    destruct Hok. split; try done. udp_fields. apply Forall_app_2; [done|]. apply Forall_singleton. by exists ow, h, p.
  - by apply closeConn_ok.
  - by apply closeServer_ok.
Qed.

Lemma usque_reachable_ok s : usqueUDPReachable s -> flows_ok s.
Proof.
  induction 1 as [|s s' _ IH _ Hs]; [|by eapply usque_step_ok].
  split; cbn; try done; try (unfold maxFlows, udpSemCap; lia); try set_solver; try constructor.
  rewrite map_size_empty. unfold maxFlows. lia.
Qed.

(** C37: in every state of the UDP side, whatever order datagrams, handlers,
    writes, answers, errors and the closing come in: there are at most 256 flows
    and 256 handlers; what goes into a connection comes from the client and for the
    destination it was dialled for, and answers go back to that client, framed
    with that destination; every open connection has the loop that will close it;
    once the server is closed the map is empty, and a connection is open only when
    its loop has left the map and is about to close it; and the only frame that
    ends the process is one that stops where the length of a domain should be. *)
Theorem usque_udp_private s : usqueUDPReachable s -> flows_ok s.
Proof. apply usque_reachable_ok. Qed.
End Flows.

(** ** A run *)

Section Run.
#[local] Instance openStack : UsqueStack :=
  {| stackDialTCP := fun _ => Some (str "10.0.0.2:1000"); stackDialUDP := fun cancelled _ => negb cancelled |}.
#[local] Instance openStack_laws : UsqueStackLaws.
Proof. by intros dst. Qed.

Definition goodClient : list Z := Eval vm_compute in
  [5; 2; 0; 2; 1; 4] ++ str "user" ++ [6] ++ str "secret" ++ [5; 1; 0; 3; 7] ++ str "host.ir" ++ [1; 187].

Example auth_run :
  handleTCP (str "user") (str "secret") (str "127.0.0.1:1080") goodClient =
    [UReply [5; 2]; UReply [1; 0]; UDial (str "host.ir:443"); UReply [5; 0; 0; 1; 10; 0; 0; 2; 3; 232]; URelay] /\
  handleTCP (str "user") (str "Secret") (str "127.0.0.1:1080") goodClient = [UReply [5; 2]; UReply [1; 1]] /\
  handleTCP (str "user") (str "secret") (str "127.0.0.1:1080") [5; 1; 0; 5; 1; 0; 1; 8; 8; 8; 8; 0; 53] = [UReply [5; 255]].
Proof. by vm_compute. Qed.

Lemma usque_authenticated_witness :
  (exists methods rest, 2 ∈ methods /\ goodClient = authMessage (str "user") (str "secret") methods rest /\
     handleTCP (str "user") (str "secret") (str "127.0.0.1:1080") goodClient =
       [UReply [5; 2]; UReply [1; 0]] ++ usqueRequest (str "127.0.0.1:1080") rest) \/
  (forall methods rest, 2 ∈ methods -> goodClient <> authMessage (str "user") (str "secret") methods rest) /\
  onlyReplies (handleTCP (str "user") (str "secret") (str "127.0.0.1:1080") goodClient).
Proof.
  apply usque_authenticated; [|left; discriminate].
  unfold goodClient. repeat (apply Forall_cons; split; [unfold is_u8; lia|]). constructor.
Defined.

Lemma answer_roundtrip_witness :
  exists h portText, SplitHostPort (JoinHostPort (str "2001:db8::1") (itoa 53)) = Some (h, portText) /\
    parseFrame (replyFrame h portText [7; 7]) = Done (spelled (str "2001:db8::1"), 53, [7; 7]).
Proof.
  apply answer_roundtrip; [|vm_compute; lia|lia]. split; vm_compute; intros H; repeat (apply elem_of_cons in H as [H|H]; [discriminate H|]); by apply not_elem_of_nil in H.
Defined.

(** The credentials guard the TCP side only: a datagram of any client is
    forwarded, whether or not it was ever authenticated. *)
Definition strayClient : list Z := str "127.0.0.1:4242".
Definition strayFrame : list Z := [0; 0; 0; 1; 8; 8; 8; 8; 0; 53; 1; 2; 3].
Definition strayRun : usqueUDP :=
  writeConn 0 strayClient (str "8.8.8.8:53") [1; 2; 3]
    (forwardUDP strayClient strayFrame (serveUDP strayClient strayFrame newUsqueUDP <| frames := [] |>) <| writes := [] |>).

Lemma strayClient_bar : 124 ∉ strayClient.
Proof. intros H. vm_compute in H. repeat (apply elem_of_cons in H as [H|H]; [discriminate H|]). by apply not_elem_of_nil in H. Qed.

Lemma usque_udp_private_witness : flows_ok strayRun /\ toStack strayRun = [(0%nat, strayClient, str "8.8.8.8:53", [1; 2; 3])].
Proof.
  split; [|vm_compute; reflexivity]. apply usque_udp_private. eapply usNext; [| |eapply (usWrite _ _ _ _ [] []); vm_compute; reflexivity]; [|done].
  eapply usNext; [| |eapply (usForward strayClient strayFrame [] []); reflexivity]; [|done].
  eapply usNext; [apply usNew|done|]. apply usServe; [done|apply strayClient_bar].
Defined.

(** The loop of a connection takes it off the map before it closes it, so that
    [close] in between does not find it: it is open for a moment after [close]. *)
Example open_after_close :
  let s := closeServer (endReader 0 (mkOwner strayClient (str "8.8.8.8:53")) strayRun) in
  serverClosed s = true /\ openConns s = {[ 0%nat ]} /\ openConns (closeConn 0 s) = ∅.
Proof. by vm_compute. Qed.

(** Four bytes of any client end the process. *)
Example frame_panics : panicked (forwardUDP strayClient [0; 0; 0; 3] newUsqueUDP) = Some [0; 0; 0; 3].
Proof. by vm_compute. Qed.
End Run.
