(* ===== verification/UsqueConfig.v ===== *)
(** * The configuration of a MASQUE session ([src/usque-ios/mobile/mobile.go])

    The decoded JSON of a request is a record; its defaults, the endpoint, the
    tunnel's addresses and the checks before a session is created.  Credentials,
    the TLS configuration and the system resolver are the class [UsqueEnv]. *)

From stdpp Require Import base numbers list gmap strings.
From Stdlib Require Import ZArith Lia.
From S2P Require Import Prelude GoStrings AllowedIPs NetIP Obf GoNet.

Record AccountConfig := mkAccount {
  aPrivateKey : list Z; aEndpointV4 : list Z; aEndpointV6 : list Z; aEndpointH2V4 : list Z; aEndpointH2V6 : list Z;
  aEndpointPubKey : list Z; aID : list Z; aAccessToken : list Z; aIPv4 : list Z; aIPv6 : list Z
}.
#[global] Instance rebuild_AccountConfig : Rebuild AccountConfig := fun c =>
  mkAccount (aPrivateKey c) (aEndpointV4 c) (aEndpointV6 c) (aEndpointH2V4 c) (aEndpointH2V6 c) (aEndpointPubKey c)
    (aID c) (aAccessToken c) (aIPv4 c) (aIPv6 c).

Record StartRequest := mkStart {
  rID : list Z; rConfig : AccountConfig; rTransport : list Z; rUseIPv6 : bool; rConnectPort : Z; rBind : list Z;
  rSocksPort : Z; rUsername : list Z; rPassword : list Z; rDNS : list (list Z); rMTU : Z; rKeepaliveSeconds : Z;
  rReconnectMillis : Z; rUDPTimeoutSeconds : Z; rInsecure : bool; rSNI : list Z
}.
#[global] Instance rebuild_StartRequest : Rebuild StartRequest := fun r =>
  mkStart (rID r) (rConfig r) (rTransport r) (rUseIPv6 r) (rConnectPort r) (rBind r) (rSocksPort r) (rUsername r) (rPassword r)
    (rDNS r) (rMTU r) (rKeepaliveSeconds r) (rReconnectMillis r) (rUDPTimeoutSeconds r) (rInsecure r) (rSNI r).

Record hopRelayRequest := mkHopRelay { hrBind : list Z; hrRelayPort : Z; hrTargetHost : list Z; hrTargetPort : Z }.

Inductive usqueError :=
  | ErrInvalidRequest | ErrTransport | ErrCredentials | ErrTLS | ErrResolve | ErrFamily | ErrTunnelAddress | ErrDNSAddress
  | ErrNoAddresses | ErrNetstack | ErrListenSocks | ErrExists | ErrUnknown | ErrStopped | ErrReadiness | ErrProbe
  | ErrNotRunning | ErrStopping | ErrHopTarget | ErrHopListen | ErrConfigPath | ErrConfigRead | ErrConfigIncomplete
  | ErrDisappeared | ErrSplitHostPort
  | ErrAcceptTOS | ErrRegister | ErrKeyPair | ErrEnroll | ErrNoPeer | ErrDirectory | ErrWriteConfig | ErrCommitConfig.
#[global] Instance usqueError_eq_dec : EqDecision usqueError.
Proof. solve_decision. Defined.

(** [orDefault] is Go's [if v == zero { v = d }]. *)
Definition orDefaultZ (v d : Z) : Z := if v =? 0 then d else v.
Definition orDefaultS (v d : list Z) : list Z := if bool_decide (v = []) then d else v.

Definition applyDefaults (r : StartRequest) : StartRequest :=
  r <| rTransport ::= (fun v => orDefaultS v (str "h3")) |>
    <| rConnectPort ::= (fun v => orDefaultZ v 443) |>
    <| rBind ::= (fun v => orDefaultS v (str "127.0.0.1")) |>
    <| rMTU ::= (fun v => orDefaultZ v 1280) |>
    <| rKeepaliveSeconds ::= (fun v => orDefaultZ v 30) |>
    <| rReconnectMillis ::= (fun v => orDefaultZ v 1000) |>
    <| rUDPTimeoutSeconds ::= (fun v => orDefaultZ v 60) |>
    <| rDNS ::= (fun v => if (length v =? 0)%nat
                          then [str "1.1.1.1"; str "1.0.0.1"; str "2606:4700:4700::1111"; str "2606:4700:4700::1001"]
                          else v) |>.

Definition DefaultEndpointH2V4 : list Z := str "162.159.198.2".

(** A [net.TCPAddr] or [net.UDPAddr]. *)
Inductive netAddr := TCPAddrOf (ip : list Z) (port : Z) | UDPAddrOf (ip : list Z) (port : Z).

Class UsqueEnv := {
  credentialsOk : AccountConfig -> bool;                      (* keys parse, the certificate is made *)
  prepareTLS : AccountConfig -> list Z -> bool -> bool;       (* [api.PrepareTlsConfig] with this SNI *)
  lookupIPAddr : list Z -> option (list (list Z))             (* the addresses of a name *)
}.

Section Config.
Context `{E : UsqueEnv}.

(** The name or address the endpoint is made of. *)
Definition endpointName (r : StartRequest) : list Z :=
  let host := if rUseIPv6 r then aEndpointV6 (rConfig r) else aEndpointV4 (rConfig r) in
  if bool_decide (rTransport r = str "h2") then
    let host := if rUseIPv6 r then aEndpointH2V6 (rConfig r) else aEndpointH2V4 (rConfig r) in
    if bool_decide (host = []) && negb (rUseIPv6 r) then DefaultEndpointH2V4 else host
  else host.

Definition sameFamily (useIPv6 : bool) (ip : list Z) : bool :=
  Bool.eqb (match To4 ip with None => true | Some _ => false end) useIPv6.

Definition selectEndpoint (r : StartRequest) : result usqueError netAddr :=
  let host := endpointName r in
  try ip <- (match ParseIP host with
             | Some ip => Ok (Some ip)
             | None =>
                 match lookupIPAddr host with
                 | None => Err ErrResolve
                 | Some resolved => Ok (List.find (sameFamily (rUseIPv6 r)) resolved)
                 end
             end) ;;
  match ip with
  | None => Err ErrFamily
  | Some ip => Ok (if bool_decide (rTransport r = str "h2") then TCPAddrOf ip (rConnectPort r) else UDPAddrOf ip (rConnectPort r))
  end.

(** [strings.Split(value, "/")[0]]. *)
Definition beforeSlash (value : list Z) : list Z := default [] (head (splitByte 47 value)).

Fixpoint parseAddressesLoop (values : list (list Z)) (out : list ipAddr) : option (list ipAddr) :=
  match values with
  | [] => Some out
  | value :: values =>
      if bool_decide (value = []) then parseAddressesLoop values out
      else
        match ParseAddr (beforeSlash value) with
        | None => None
        | Some (a, _) => parseAddressesLoop values (out ++ [a])
        end
  end.

Definition parseAddresses (values : list (list Z)) : result usqueError (list ipAddr) :=
  match parseAddressesLoop values [] with
  | None => Err ErrTunnelAddress
  | Some [] => Err ErrNoAddresses
  | Some out => Ok out
  end.

Definition tunnelAddresses (c : AccountConfig) : result usqueError (list ipAddr) := parseAddresses [aIPv4 c; aIPv6 c].

Definition endpointHost (value : list Z) : result usqueError (list Z) :=
  match SplitHostPort value with Some (host, _) => Ok host | None => Err ErrSplitHostPort end.

Definition optionalEndpointHost (value : list Z) : result usqueError (list Z) :=
  if bool_decide (value = []) then Ok [] else endpointHost value.

Definition sniOf (r : StartRequest) : list Z := orDefaultS (rSNI r) (str "consumer-masque.cloudflareclient.com").

(** What [startWithContext] does before it creates anything: the request with
    its defaults, the endpoint, the tunnel's addresses and its resolvers. *)
Definition startChecks (req : StartRequest) : result usqueError (StartRequest * netAddr * list ipAddr * list ipAddr) :=
  let r := applyDefaults req in
  if negb (bool_decide (rTransport r = str "h2")) && negb (bool_decide (rTransport r = str "h3")) then Err ErrTransport
  else if negb (credentialsOk (rConfig r)) then Err ErrCredentials
  else if negb (prepareTLS (rConfig r) (sniOf r) (rInsecure r)) then Err ErrTLS
  else
    try endpoint <- selectEndpoint r ;;
    try local <- tunnelAddresses (rConfig r) ;;
    try dns <- match parseAddresses (rDNS r) with Ok d => Ok d | Err _ => Err ErrDNSAddress end ;;
    Ok (r, endpoint, local, dns).

(** [compatibilityStartRequest] on the decoded JSON: the configuration file is
    what [loadAccountConfig] makes of the path. *)
Record compatRequest := mkCompat {
  qConfigPath : list Z; qBind : list Z; qSocksPort : Z; qEndpointHost : list Z; qEndpointPort : Z; qSNI : list Z;
  qHTTP2 : bool; qInsecure : bool; qKeepaliveSeconds : Z; qHopRelay : option hopRelayRequest
}.

(** [file] is the content of the path, decoded: [None] when it cannot be read
    or decoded. *)
Definition loadAccountConfig (path : list Z) (file : option AccountConfig) : result usqueError AccountConfig :=
  if bool_decide (path = []) then Err ErrConfigPath
  else
    match file with
    | None => Err ErrConfigRead
    | Some cfg =>
        if bool_decide (aPrivateKey cfg = []) || bool_decide (aEndpointPubKey cfg = []) then Err ErrConfigIncomplete else Ok cfg
    end.

Definition compatibilityStartRequest (q : compatRequest) (file : option AccountConfig) :
    result usqueError (StartRequest * option hopRelayRequest) :=
  try cfg <- loadAccountConfig (qConfigPath q) file ;;
  let transport := if qHTTP2 q then str "h2" else str "h3" in
  let cfg := if bool_decide (qEndpointHost q = []) then cfg
             else if bool_decide (transport = str "h2") then cfg <| aEndpointH2V4 := qEndpointHost q |>
             else cfg <| aEndpointV4 := qEndpointHost q |> in
  Ok (mkStart [] cfg transport false (qEndpointPort q) (qBind q) (qSocksPort q) [] [] [] 0 (qKeepaliveSeconds q) 0 0
        (qInsecure q) (qSNI q), qHopRelay q).
End Config.

(** ** The probe's attempts

    [generate204WithRetries]: [outcomes] is what each attempt would give, and
    whether the context is done after it or during the pause behind it. *)
Inductive attemptEnd := CtxLive | CtxDoneAfter | CtxDoneInPause.

Fixpoint generate204Attempts (left_ : nat) (outcomes : list (result usqueError Z * attemptEnd)) : result usqueError Z :=
  match left_ with
  | O => Err ErrProbe
  | S left' =>
      match outcomes with
      | [] => Err ErrProbe
      | (Ok elapsed, _) :: _ => Ok elapsed
      | (Err _, CtxDoneAfter) :: _ => Err ErrReadiness
      | (Err _, CtxDoneInPause) :: rest => if (0 <? left')%nat then Err ErrReadiness else generate204Attempts left' rest
      | (Err _, CtxLive) :: rest => generate204Attempts left' rest
      end
  end.

Definition generate204WithRetries : list (result usqueError Z * attemptEnd) -> result usqueError Z := generate204Attempts 3.

(** ** Registration and the configuration file

    The enrolment's service is the class [RegisterEnv].  A file holds the
    configuration that is decoded from it, or bytes that are none. *)

Record RegisterRequest := mkRegister {
  gModel : list Z; gLocale : list Z; gDeviceName : list Z; gJWT : list Z; gAcceptTOS : bool
}.
Record enrolledPeer := mkEnrolledPeer { epPublicKey : list Z; epV4 : list Z; epV6 : list Z }.
Record enrolment := mkEnrolment { enID : list Z; enPeers : list enrolledPeer; enV4 : list Z; enV6 : list Z }.

Class RegisterEnv := {
  apiRegister : list Z -> list Z -> list Z -> option (list Z * list Z);               (* model, locale, JWT; the ID and the token *)
  generateKeyPair : option (list Z * list Z);                                         (* base64 of the private key, the public key *)
  enrollKey : list Z -> list Z -> list Z -> list Z -> option enrolment                (* ID, token, public key, device name *)
}.

Definition DefaultModel : list Z := str "PC".
Definition DefaultLocale : list Z := str "en_US".
Definition DefaultEndpointH2V6 : list Z := [].

Definition Register `{RegisterEnv} (req : RegisterRequest) : result usqueError AccountConfig :=
  if negb (gAcceptTOS req) then Err ErrAcceptTOS
  else
    match apiRegister (orDefaultS (gModel req) DefaultModel) (orDefaultS (gLocale req) DefaultLocale) (gJWT req) with
    | None => Err ErrRegister
    | Some (id, token) =>
        match generateKeyPair with
        | None => Err ErrKeyPair
        | Some (private, public) =>
            match enrollKey id token public (gDeviceName req) with
            | None => Err ErrEnroll
            | Some enrolled =>
                match enPeers enrolled with
                | [] => Err ErrNoPeer
                | peer :: _ =>
                    try v4 <- optionalEndpointHost (epV4 peer) ;;
                    try v6 <- optionalEndpointHost (epV6 peer) ;;
                    Ok (mkAccount private v4 v6 DefaultEndpointH2V4 DefaultEndpointH2V6 (epPublicKey peer) (enID enrolled)
                          token (enV4 enrolled) (enV6 enrolled))
                end
            end
        end
    end.

(** ** The configuration file *)
Inductive content := ConfigFile (c : AccountConfig) | OtherFile (bs : list Z).
Abbreviation files := (gmap (list Z) content).

Definition readConfig (fs : files) (path : list Z) : option AccountConfig :=
  match fs !! path with Some (ConfigFile c) => Some c | _ => None end.

(** What the file system answers: a write that fails leaves some bytes. *)
Record fileAnswers := mkFileAnswers { mkdirOk : bool; writeOk : bool; partial : list Z; renameOk : bool; removeOk : bool }.

Definition tmpOf (path : list Z) : list Z := path ++ str ".tmp".

(** The result, and the files after each call. *)
Definition saveConfig (ans : fileAnswers) (path : list Z) (cfg : AccountConfig) (fs : files) :
    result usqueError unit * list files :=
  if negb (mkdirOk ans) then (Err ErrDirectory, [fs])
  else
    let tmp := tmpOf path in
    if negb (writeOk ans) then (Err ErrWriteConfig, [fs; <[tmp := OtherFile (partial ans)]> fs])
    else
      let written := <[tmp := ConfigFile cfg]> fs in
      if renameOk ans then (Ok tt, [fs; written; <[path := ConfigFile cfg]> (delete tmp written)])
      else (Err ErrCommitConfig, [fs; written; if removeOk ans then delete tmp written else written]).

(** The method [register] of [Invoke]. *)
Definition invokeRegister `{RegisterEnv} (ans : fileAnswers) (path : list Z) (idempotent : bool) (fs : files) :
    result usqueError unit * list files :=
  if bool_decide (path = []) then (Err ErrConfigPath, [fs])
  else if idempotent && match loadAccountConfig path (readConfig fs path) with Ok _ => true | Err _ => false end then (Ok tt, [fs])
  else
    match Register (mkRegister [] [] [] [] true) with
    | Err e => (Err e, [fs])
    | Ok cfg => saveConfig ans path cfg fs
    end.

(** ** The file is replaced as a whole *)
Lemma tmpOf_ne path : tmpOf path <> path.
Proof. intros e%(f_equal length). unfold tmpOf in e. rewrite length_app in e. cbn in e. lia. Qed.

Lemma saveConfig_states ans path cfg fs fs' p :
  fs' ∈ (saveConfig ans path cfg fs).2 -> p <> tmpOf path ->
  fs' !! p = fs !! p \/ (p = path /\ fs' !! p = Some (ConfigFile cfg)).
Proof.
  intros Hin Hp. assert (Hp' := not_eq_sym Hp). unfold saveConfig in Hin. destruct (mkdirOk ans), (writeOk ans); [destruct (renameOk ans), (removeOk ans)|..];
    cbn [negb snd] in Hin; rewrite ?elem_of_cons, ?elem_of_nil in Hin;
    destruct_or? Hin; subst; try done; try (by left);
    try (left; by rewrite ?lookup_delete_ne, ?lookup_insert_ne by done).
  all: destruct (decide (p = path)) as [->|n]; [right; by rewrite lookup_insert_eq|left].
  all: by rewrite lookup_insert_ne, lookup_delete_ne, lookup_insert_ne by done.
Qed.

(** C39: registering never loses a configuration: at every moment, also when a
    call to the file system fails or the process ends in between, the file at the
    path is the one from before or the complete new configuration; no other file
    but the temporary one changes; and when the call succeeds with a new
    registration the complete configuration is there. *)
Theorem register_atomic `{RegisterEnv} ans path idempotent fs :
  let '(r, steps) := invokeRegister ans path idempotent fs in
  (forall fs' p, fs' ∈ steps -> p <> tmpOf path ->
     fs' !! p = fs !! p \/
     (p = path /\ exists cfg, Register (mkRegister [] [] [] [] true) = Ok cfg /\ fs' !! p = Some (ConfigFile cfg))) /\
  (r = Ok tt -> exists fs' cfg, last steps = Some fs' /\ readConfig fs' path = Some cfg).
Proof.
  unfold invokeRegister. case_bool_decide as Hpath.
  { split; [|done]. intros fs' p ->%list_elem_of_singleton _. by left. }
  destruct (idempotent && _) eqn:Hidem.
  { split; [intros fs' p ->%list_elem_of_singleton _; by left|]. intros _. exists fs.
    apply andb_prop in Hidem as [_ Hl]. unfold loadAccountConfig in Hl. rewrite bool_decide_false in Hl by done.
    destruct (readConfig fs path) as [c|]; [by exists c|done]. }
  destruct (Register _) as [cfg|e] eqn:Hreg.
  2: { split; [|done]. intros fs' p ->%list_elem_of_singleton _. by left. }
  destruct (saveConfig ans path cfg fs) as [r steps] eqn:Hs. split.
  - intros fs' p Hin Hp. assert (Hst := saveConfig_states ans path cfg fs fs' p). rewrite Hs in Hst.
    destruct (Hst Hin Hp) as [?|[-> ?]]; [by left|right]. split; [done|by exists cfg].
  - intros ->. unfold saveConfig in Hs. destruct (mkdirOk ans), (writeOk ans), (renameOk ans); try done.
    injection Hs as <-. eexists _, cfg. split; [done|]. unfold readConfig. by rewrite lookup_insert_eq.
Qed.
