(* ===== verification/UsqueSession.v ===== *)
(** * The sessions of the MASQUE client ([src/usque-ios/mobile/mobile.go])

    The exported calls run concurrently on a registry of sessions: they are
    programs ([Threads]) whose actions interleave in any order, with the callbacks
    of the tunnels.  The JSON of a request is taken decoded. *)

From stdpp Require Import base numbers list countable gmap sets strings.
From Stdlib Require Import ZArith Lia.
From S2P Require Import Prelude Threads GoStrings NetIP GoNet UsqueConfig.

(** ** State

    A device, its context, its SOCKS server and its session carry one number. *)
Inductive resKind := KCtx | KDev | KSocks.
#[global] Instance resKind_eq_dec : EqDecision resKind.
Proof. solve_decision. Defined.
#[global] Instance resKind_countable : Countable resKind.
Proof.
  refine (inj_countable' (fun k => match k with KCtx => 0%nat | KDev => 1%nat | KSocks => 2%nat end)
            (fun n => match n with O => KCtx | 1%nat => KDev | _ => KSocks end) _).
  by intros [].
Defined.

Record session := mkUSession {
  usId : list Z; usEndpoint : netAddr; usTransport : list Z; usPort : Z;
  usReady : bool; usStopped : bool; usLastErr : list Z; usRelay : option nat
}.
#[global] Instance rebuild_session : Rebuild session := fun s =>
  mkUSession (usId s) (usEndpoint s) (usTransport s) (usPort s) (usReady s) (usStopped s) (usLastErr s) (usRelay s).

Record uworld := mkUWorld {
  uRegistry : gmap (list Z) nat; uNextID : Z;
  uSessions : gmap nat session;
  uOpen : gset (resKind * nat);               (* contexts not cancelled, devices and servers not closed *)
  uRelays : gset nat;                         (* hop relays not closed *)
  uNextDev : nat; uNextRelay : nat
}.
#[global] Instance rebuild_uworld : Rebuild uworld := fun w =>
  mkUWorld (uRegistry w) (uNextID w) (uSessions w) (uOpen w) (uRelays w) (uNextDev w) (uNextRelay w).

Definition uworld0 : uworld := mkUWorld ∅ 0 ∅ ∅ ∅ 0 0.

(** ** Actions *)
Inductive action : Set -> Type :=
  | ACreateNetTUN : action (option nat)
  | AWithCancel (d : nat) : action unit
  | ACancel (d : nat) : action unit                                    (* the context of a device without a session *)
  | ACloseNetTUN (d : nat) : action unit
  | AAddNext : action Z
  | ANewSocksServer (d : nat) (s : session) : action bool              (* on success the session [s] has its server *)
  | AInsert (id : list Z) (s : nat) : action bool                      (* false: the ID exists *)
  | ADelete (id : list Z) : action (option nat)
  | ATake (p : list Z -> bool) : action (list nat)
  | ALookup (id : list Z) : action (option nat)
  | ASwapStopped (s : nat) : action bool
  | ALoadStopped (s : nat) : action bool
  | ALoadReady (s : nat) : action bool
  | AStoreReady (s : nat) (b : bool) : action unit
  | ALoadErr (s : nat) : action (list Z)
  | AFields (s : nat) : action (netAddr * list Z * Z)                  (* never written after the registration *)
  | ARelease (k : resKind) (s : nat) : action unit                     (* [s.cancel], [s.socks.close], [s.dev.Close] *)
  | ATakeRelay (s : nat) : action (option nat)
  | ANewUDPRelay : action (option nat)
  | ARelayPort (r : nat) : action Z
  | ASetRelay (s r : nat) : action (option (option nat))               (* [None]: the session is stopping *)
  | ACloseRelay (r : nat) : action unit
  | ATicks : action nat                                                (* ticks before a deadline *)
  | AAttempts : action (list (result usqueError Z * attemptEnd))       (* what the attempts of a probe give *)
  | AExchange : action (result usqueError (list Z)).                   (* what one dial, write and read give *)

(** What the environment answers where an action leaves it open. *)
Record answer := mkAnswer {
  ansOk : bool; ansPort : Z; ansTicks : nat; ansAttempts : list (result usqueError Z * attemptEnd);
  ansExchange : result usqueError (list Z)
}.

Definition updSession (s : nat) (f : session -> session) (w : uworld) : uworld := w <| uSessions ::= alter f s |>.
Definition sessionField {A} (w : uworld) (s : nat) (f : session -> A) (d : A) : A := from_option f d (uSessions w !! s).

Definition exec {X : Set} (ans : answer) (w : uworld) (a : action X) : uworld * X :=
  match a in action X return uworld * X with
  | ACreateNetTUN =>
      if ansOk ans then
        let d := uNextDev w in
        (w <| uNextDev ::= S |> <| uOpen ::= union {[ (KDev, d) ]} |>, Some d)
      else (w, None)
  | AWithCancel d => (w <| uOpen ::= union {[ (KCtx, d) ]} |>, tt)
  | ACancel d => (w <| uOpen ::= (fun o => o ∖ {[ (KCtx, d) ]}) |>, tt)
  | ACloseNetTUN d => (w <| uOpen ::= (fun o => o ∖ {[ (KDev, d) ]}) |>, tt)
  | AAddNext => let n := u64 (uNextID w + 1) in (w <| uNextID := n |>, n)
  | ANewSocksServer d s =>
      if ansOk ans then
        (w <| uOpen ::= union {[ (KSocks, d) ]} |> <| uSessions ::= <[d := s <| usPort := ansPort ans |> ]> |>, true)
      else (w, false)
  | AInsert id s =>
      if bool_decide (is_Some (uRegistry w !! id)) then (w, false) else (w <| uRegistry ::= <[id := s]> |>, true)
  | ADelete id => (w <| uRegistry ::= delete id |>, uRegistry w !! id)
  | ATake p =>
      (w <| uRegistry ::= filter (fun kv => p kv.1 = false) |>,
       (map_to_list (filter (fun kv => p kv.1 = true) (uRegistry w))).*2)
  | ALookup id => (w, uRegistry w !! id)
  | ASwapStopped s => (updSession s (fun x => x <| usStopped := true |>) w, sessionField w s usStopped true)
  | ALoadStopped s => (w, sessionField w s usStopped true)
  | ALoadReady s => (w, sessionField w s usReady false)
  | AStoreReady s b => (updSession s (fun x => x <| usReady := b |>) w, tt)
  | ALoadErr s => (w, sessionField w s usLastErr [])
  | AFields s => (w, sessionField w s (fun x => (usEndpoint x, usTransport x, usPort x)) (TCPAddrOf [] 0, [], 0))
  | ARelease k s => (w <| uOpen ::= (fun o => o ∖ {[ (k, s) ]}) |>, tt)
  | ATakeRelay s => (updSession s (fun x => x <| usRelay := None |>) w, sessionField w s usRelay None)
  | ANewUDPRelay =>
      if ansOk ans then
        let r := uNextRelay w in (w <| uNextRelay ::= S |> <| uRelays ::= union {[ r ]} |>, Some r)
      else (w, None)
  | ARelayPort r => (w, ansPort ans)
  | ASetRelay s r =>
      if sessionField w s usStopped true then (w, None)
      else (updSession s (fun x => x <| usRelay := Some r |>) w, Some (sessionField w s usRelay None))
  | ACloseRelay r => (w <| uRelays ::= (fun o => o ∖ {[ r ]}) |>, tt)
  | ATicks => (w, ansTicks ans)
  | AAttempts => (w, ansAttempts ans)
  | AExchange => (w, ansExchange ans)
  end.

#[global] Instance usqueActions : Actions action uworld answer := {| perform X ans w a := Some (exec ans w a) |}.

Abbreviation prog A := (prog action A).
Abbreviation act := (act (acts:=action)).
Open Scope prog_scope.

(** ** The answers of the calls *)
Inductive payload :=
  | PSnapshot (ready stopped : bool) (port : Z) (endpoint : netAddr) (transport lastErr : list Z)
  | PStoppedOne
  | PStoppedCount (n : nat)
  | POk
  | PLastError (e : list Z)
  | PRelayPort (port : Z)
  | PMs (elapsed : Z)
  | PProbe (socksPort relayPort : Z)
  | PReachable (response : list Z).

Inductive response :=
  | Success (id : list Z) (data : payload)
  | Failure (id : list Z) (e : usqueError).

Definition responseOK (r : response) : bool := match r with Success _ _ => true | Failure _ _ => false end.

(** ** Sessions *)
Definition closeSession (s : nat) : prog unit :=
  run stopped <- act (ASwapStopped s) ;;
  if stopped then Ret tt
  else
    act (AStoreReady s false) ;>
    act (ARelease KCtx s) ;>
    act (ARelease KSocks s) ;>
    run relay <- act (ATakeRelay s) ;;
    match relay with Some r => act (ACloseRelay r) | None => Ret tt end ;>
    act (ARelease KDev s).

Definition snapshot (s : nat) : prog payload :=
  run lastErr <- act (ALoadErr s) ;;
  run ready <- act (ALoadReady s) ;;
  run stopped <- act (ALoadStopped s) ;;
  run fields <- act (AFields s) ;;
  Ret (PSnapshot ready stopped fields.2 fields.1.1 fields.1.2 lastErr).

Section Calls.
Context `{E : UsqueEnv}.

(** The two goroutines of a new session only report: their callbacks are the
    steps of the tunnels below. *)
Definition startWithContext (req : StartRequest) : prog response :=
  match startChecks req with
  | Err e => Ret (Failure (rID req) e)
  | Ok (r, endpoint, local, dns) =>
      run dev <- act ACreateNetTUN ;;
      match dev with
      | None => Ret (Failure (rID r) ErrNetstack)
      | Some d =>
          act (AWithCancel d) ;>
          run id <- (if bool_decide (rID r = []) then run n <- act AAddNext ;; Ret (str "usque-" ++ itoa n) else Ret (rID r)) ;;
          run ok <- act (ANewSocksServer d (mkUSession id endpoint (rTransport r) 0 false false [] None)) ;;
          if negb ok then
            act (ACancel d) ;> act (ACloseNetTUN d) ;> Ret (Failure id ErrListenSocks)
          else
            run fresh <- act (AInsert id d) ;;
            if negb fresh then closeSession d ;> Ret (Failure id ErrExists)
            else run data <- snapshot d ;; Ret (Success id data)
      end
  end.

Definition Stop (id : list Z) : prog response :=
  run s <- act (ADelete id) ;;
  match s with
  | None => Ret (Failure id ErrUnknown)
  | Some s => closeSession s ;> Ret (Success id PStoppedOne)
  end.

Definition StopAll : prog response :=
  run all <- act (ATake (fun _ => true)) ;;
  forEach closeSession all ;> Ret (Success [] (PStoppedCount (length all))).

Definition Status (id : list Z) : prog response :=
  run s <- act (ALookup id) ;;
  match s with
  | None => Ret (Failure id ErrUnknown)
  | Some s => run data <- snapshot s ;; Ret (Success id data)
  end.

Definition IsReady (id : list Z) : prog bool :=
  run s <- act (ALookup id) ;;
  match s with None => Ret false | Some s => act (ALoadReady s) end.

Definition LastError (id : list Z) : prog response :=
  run s <- act (ALookup id) ;;
  match s with
  | None => Ret (Failure id ErrUnknown)
  | Some s => run e <- act (ALoadErr s) ;; Ret (Success id (PLastError e))
  end.

(** The deadline of the context comes after some number of ticks. *)
Fixpoint waitLoop (ticks : nat) (id : list Z) : prog (result usqueError unit) :=
  run s <- act (ALookup id) ;;
  match s with
  | None => Ret (Err ErrStopped)
  | Some s =>
      run ready <- act (ALoadReady s) ;;
      if ready then Ret (Ok tt)
      else
        match ticks with
        | O => act (ALoadErr s) ;> Ret (Err ErrReadiness)
        | S ticks => waitLoop ticks id
        end
  end.
Definition waitReadyContext (id : list Z) : prog (result usqueError unit) :=
  run ticks <- act ATicks ;; waitLoop ticks id.

(** The port of the new relay. *)
Definition setHopRelay (id : list Z) (req : hopRelayRequest) : prog (result usqueError Z) :=
  run s <- act (ALookup id) ;;
  match s with
  | None => Ret (Err ErrNotRunning)
  | Some s =>
      run stopped <- act (ALoadStopped s) ;;
      if (stopped : bool) then Ret (Err ErrStopping)
      else if (hrTargetPort req =? 0) || negb (bool_decide (is_Some (ParseIP (hrTargetHost req)))) then Ret (Err ErrHopTarget)
      else
        run relay <- act ANewUDPRelay ;;
        match relay with
        | None => Ret (Err ErrHopListen)
        | Some r =>
            run old <- act (ASetRelay s r) ;;
            match old with
            | None => act (ACloseRelay r) ;> Ret (Err ErrStopping)
            | Some old =>
                match old with Some o => act (ACloseRelay o) | None => Ret tt end ;>
                run port <- act (ARelayPort r) ;; Ret (Ok port)
            end
        end
  end.

(** [generate204WithRetries] once, or twice when the probe warms up first. *)
Definition runGenerate204Probe (warmup : bool) : prog (result usqueError Z) :=
  run first <- (if warmup then run xs <- act AAttempts ;; Ret (generate204WithRetries xs) else Ret (Ok 0)) ;;
  match first with
  | Err e => Ret (Err e)
  | Ok _ => run xs <- act AAttempts ;; Ret (generate204WithRetries xs)
  end.

(** ** The methods of [Invoke] *)
Definition defaultID : list Z := str "default".

Definition invokeStart (q : compatRequest) (file : option AccountConfig) : prog response :=
  match compatibilityStartRequest q file with
  | Err e => Ret (Failure defaultID e)
  | Ok (req, hop) =>
      let req := req <| rID := defaultID |> in
      run response <- startWithContext req ;;
      if negb (responseOK response) then Ret response
      else
        run wait <- waitReadyContext defaultID ;;
        match wait with
        | Err e => Stop defaultID ;> Ret (Failure defaultID e)
        | Ok _ =>
            match hop with
            | None => Status defaultID
            | Some hop =>
                run set <- setHopRelay defaultID hop ;;
                match set with
                | Err e => Stop defaultID ;> Ret (Failure defaultID e)
                | Ok _ => Status defaultID
                end
            end
        end
  end.

Definition invokeSetHopRelay (req : hopRelayRequest) : prog response :=
  run set <- setHopRelay defaultID req ;;
  match set with
  | Err e => Ret (Failure defaultID e)
  | Ok port => Ret (Success [] (PRelayPort port))
  end.

Definition invokeStop : prog response :=
  run exists_ <- act (ALookup defaultID) ;;
  match exists_ with None => Ret (Success [] POk) | Some _ => Stop defaultID end.

Definition abortProbes : prog response :=
  run probes <- act (ATake (fun id => hasPrefix id (str "probe-"))) ;;
  forEach closeSession probes ;> Ret (Success [] (PStoppedCount (length probes))).

(** [defer Stop(start.ID)] runs on every return behind the start. *)
Definition invokeProbe (q : compatRequest) (file : option AccountConfig) (warmup : bool) : prog response :=
  match compatibilityStartRequest q file with
  | Err e => Ret (Failure [] e)
  | Ok (start, _) =>
      run n <- act AAddNext ;;
      let id := str "probe-" ++ itoa n in
      run response <- startWithContext (start <| rID := id |> <| rSocksPort := 0 |>) ;;
      if negb (responseOK response) then Ret response
      else
        run answer <-
          (run wait <- waitReadyContext id ;;
           match wait with
           | Err e => Ret (Failure id e)
           | Ok _ =>
               run s <- act (ALookup id) ;;
               match s with
               | None => Ret (Failure id ErrDisappeared)
               | Some _ =>
                   run elapsed <- runGenerate204Probe warmup ;;
                   match elapsed with
                   | Err e => Ret (Failure id e)
                   | Ok ms => Ret (Success [] (PMs ms))
                   end
               end
           end) ;;
        Stop id ;> Ret answer
  end.

Definition invokeStartProbe (q : compatRequest) (file : option AccountConfig) : prog response :=
  match compatibilityStartRequest q file with
  | Err e => Ret (Failure [] e)
  | Ok (start, hop) =>
      run n <- act AAddNext ;;
      let id := str "probe-" ++ itoa n in
      run response <- startWithContext (start <| rID := id |> <| rSocksPort := 0 |>) ;;
      if negb (responseOK response) then Ret response
      else
        run wait <- waitReadyContext id ;;
        match wait with
        | Err e => Stop id ;> Ret (Failure id e)
        | Ok _ =>
            run s <- act (ALookup id) ;;
            match s with
            | None => Ret (Failure id ErrDisappeared)
            | Some s =>
                match hop with
                | None => run fields <- act (AFields s) ;; Ret (Success id (PProbe fields.2 0))
                | Some hop =>
                    run set <- setHopRelay id hop ;;
                    match set with
                    | Err e => Stop id ;> Ret (Failure id e)
                    | Ok port => run fields <- act (AFields s) ;; Ret (Success id (PProbe fields.2 port))
                    end
                end
            end
        end
  end.

(** [Probe]: one exchange over the session's stack. *)
Definition Probe (id network : list Z) : prog response :=
  run s <- act (ALookup id) ;;
  match s with
  | None => Ret (Failure id ErrUnknown)
  | Some s =>
      run ready <- act (ALoadReady s) ;;
      if negb ready then Ret (Failure id ErrReadiness)
      else if negb (bool_decide (network = str "tcp")) && negb (bool_decide (network = str "udp")) then Ret (Failure id ErrInvalidRequest)
      else
        run outcome <- act AExchange ;;
        match outcome with Err e => Ret (Failure id e) | Ok response => Ret (Success id (PReachable response)) end
  end.

(** ** Calls and their interleavings *)
Inductive call :=
  | CStart (req : StartRequest)
  | CStop (id : list Z)
  | CStopAll
  | CStatus (id : list Z)
  | CIsReady (id : list Z)
  | CLastError (id : list Z)
  | CProbe (id network : list Z)
  | CInvokeStart (q : compatRequest) (file : option AccountConfig)
  | CInvokeSetHopRelay (req : hopRelayRequest)
  | CInvokeStop
  | CInvokeAbortProbes
  | CInvokeProbe (q : compatRequest) (file : option AccountConfig) (warmup : bool)
  | CInvokeStartProbe (q : compatRequest) (file : option AccountConfig).

Definition program (c : call) : prog response :=
  match c with
  | CStart req => startWithContext req
  | CStop id => Stop id
  | CStopAll => StopAll
  | CStatus id => Status id
  | CIsReady id => run b <- IsReady id ;; Ret (if (b : bool) then Success id POk else Failure id ErrReadiness)
  | CLastError id => LastError id
  | CProbe id network => Probe id network
  | CInvokeStart q file => invokeStart q file
  | CInvokeSetHopRelay req => invokeSetHopRelay req
  | CInvokeStop => invokeStop
  | CInvokeAbortProbes => abortProbes
  | CInvokeProbe q file warmup => invokeProbe q file warmup
  | CInvokeStartProbe q file => invokeStartProbe q file
  end.

Abbreviation ustate := (threads uworld action response).
Definition ustate0 : ustate := mkThreads uworld0 [].

(** What happens next: a call arrives, a thread acts, or a goroutine of a
    session reports ([OnReady], [OnError], the error of [serve]). *)
Inductive event :=
  | ECall (c : call)
  | ERun (i : nat) (ans : answer)
  | EReady (s : nat)
  | ETunnelError (s : nat) (e : list Z)
  | ESocksError (s : nat) (e : list Z).

Definition uapply (st : ustate) (ev : event) : ustate :=
  match ev with
  | ECall c => spawn (program c) st
  | ERun i ans => runThread i ans st
  | EReady s => mkThreads (updSession s (fun x => x <| usReady := true |>) (shared st)) (pool st)
  | ETunnelError s e => mkThreads (updSession s (fun x => x <| usReady := false |> <| usLastErr := e |>) (shared st)) (pool st)
  | ESocksError s e => mkThreads (updSession s (fun x => x <| usLastErr := e |>) (shared st)) (pool st)
  end.

Definition ureachable (st : ustate) : Prop := exists evs, st = fold_left uapply evs ustate0.

End Calls.
