(* ===== verification/UsqueTyping.v ===== *)
(** * Ownership types for the programs of [UsqueSession]

    A token stands for the duty to release something: a device, a context, a
    server, a relay or a whole session.  Every action has a signature: the tokens
    it needs and the tokens it leaves for each of its answers.  A program is
    typed when it can pay for each of its actions and ends with the tokens of its
    type; the exported calls end with none. *)

From stdpp Require Import base numbers list countable gmap sets strings.
From Stdlib Require Import ZArith Lia.
From S2P Require Import Prelude Threads GoStrings NetIP GoNet UsqueConfig UsqueSession.

(** ** Tokens *)
Inductive token :=
  | TNew (d : nat)                    (* a device, nothing else yet *)
  | TCtx (d : nat)                    (* a device and a context *)
  | TSess (s : nat)                   (* a session that is not registered and not stopped *)
  | TRes (k : resKind) (s : nat)      (* one resource of a session being stopped *)
  | TTake (s : nat)                   (* the hop relay of a session being stopped *)
  | TRelay (r : nat).                 (* a hop relay that no session has *)
#[global] Instance token_eq_dec : EqDecision token.
Proof. solve_decision. Defined.

Definition needs {X : Set} (a : action X) : list token :=
  match a with
  | AWithCancel d | ACloseNetTUN d => [TNew d]
  | ACancel d | ANewSocksServer d _ => [TCtx d]
  | AInsert _ s | ASwapStopped s => [TSess s]
  | ARelease k s => [TRes k s]
  | ATakeRelay s => [TTake s]
  | ASetRelay _ r | ACloseRelay r => [TRelay r]
  | _ => []
  end.

Definition leaves {X : Set} (a : action X) : X -> list token :=
  match a in action X return X -> list token with
  | ACreateNetTUN => optToken TNew
  | AWithCancel d => fun _ => [TCtx d]
  | ACancel d => fun _ => [TNew d]
  | ANewSocksServer d _ => fun ok : bool => if ok then [TSess d] else [TCtx d]
  | AInsert _ s => fun fresh : bool => if fresh then [] else [TSess s]
  | ADelete _ => optToken TSess
  | ATake _ => map TSess
  | ASwapStopped s => fun stopped : bool => if stopped then [] else [TRes KCtx s; TRes KSocks s; TTake s; TRes KDev s]
  | ATakeRelay _ | ANewUDPRelay => optToken TRelay
  | ASetRelay _ r => fun old => match old with None => [TRelay r] | Some old => optToken TRelay old end
  | _ => fun _ => []
  end.

(** A session is made running and without a relay. *)
Definition startable {X : Set} (a : action X) : Prop :=
  match a with ANewSocksServer _ s => usStopped s = false /\ usRelay s = None | _ => True end.

#[global] Instance usqueSignature : Signature action token :=
  {| consumes := @needs; produces := @leaves; allowed := @startable |}.

(** ** The types of the functions *)
Lemma closeSession_typed s : typed [TSess s] (closeSession s) (fun _ => []).
Proof.
  unfold closeSession. tstep. case_match; [done|].
  tfree. apply (typed_act _ _ [TRes KSocks s; TTake s; TRes KDev s]); [done|done|intros []; cbn [produces app]].
  apply (typed_act _ _ [TTake s; TRes KDev s]); [done|done|intros []; cbn [produces app]].
  apply (typed_act _ _ [TRes KDev s]); [done|done|intros relay; cbn [produces app]].
  apply (typed_bind _ _ (fun _ => [TRes KDev s])).
  - destruct relay as [r|]; [|done]. apply (typed_act (ACloseRelay r) _ [TRes KDev s] Ret); done.
  - intros _. by apply typed_last.
Qed.

Lemma snapshot_typed s : typed [] (snapshot s) (fun _ => []).
Proof. unfold snapshot. by repeat tfree. Qed.

Section Functions.
Context `{E : UsqueEnv}.

Lemma startWithContext_typed req : typed [] (startWithContext req) (fun _ => []).
Proof.
  unfold startWithContext. destruct (startChecks req) as [[[[r endpoint] local] dns]|]; [|done].
  tstep. destruct x as [d|]; cbn [optToken]; [|done].
  tstep. apply (typed_bind _ _ (fun _ => [TCtx d])).
  { case_bool_decide; [tfree|]; done. }
  intros id. tstep. destruct x; cbn [negb].
  - tstep. destruct x; cbn [negb].
    + apply typed_bind_nil; [apply snapshot_typed|done].
    + eapply typed_bind; [apply closeSession_typed|done].
  - tstep. by tstep.
Qed.

Lemma Stop_typed id : typed [] (Stop id) (fun _ => []).
Proof.
  unfold Stop. tstep. destruct x; cbn [optToken]; [|done]. eapply typed_bind; [apply closeSession_typed|done].
Qed.

Lemma stopMany_typed p (f : list nat -> response) :
  typed [] (run all <- act (ATake p) ;; forEach closeSession all ;> Ret (f all)) (fun _ => []).
Proof. tstep. eapply typed_bind; [apply typed_forEach, closeSession_typed|done]. Qed.

Lemma StopAll_typed : typed [] StopAll (fun _ => []).
Proof. exact (stopMany_typed _ (fun all => Success [] (PStoppedCount (length all)))). Qed.

Lemma abortProbes_typed : typed [] abortProbes (fun _ => []).
Proof. exact (stopMany_typed _ (fun all => Success [] (PStoppedCount (length all)))). Qed.

Lemma Status_typed id : typed [] (Status id) (fun _ => []).
Proof. unfold Status. tstep. destruct x; [|done]. apply typed_bind_nil; [apply snapshot_typed|done]. Qed.

Lemma IsReady_typed id : typed [] (IsReady id) (fun _ => []).
Proof. unfold IsReady. tstep. destruct x; [by apply typed_last|done]. Qed.

Lemma waitReady_typed id : typed [] (waitReadyContext id) (fun _ => []).
Proof.
  unfold waitReadyContext. tfree. rename x into ticks. induction ticks as [|ticks IH]; cbn [waitLoop].
  all: tfree; destruct x; [|done]; tfree; case_match; [done|].
  - by tfree.
  - exact IH.
Qed.

Lemma setHopRelay_typed id req : typed [] (setHopRelay id req) (fun _ => []).
Proof.
  unfold setHopRelay. tfree. destruct x as [s|]; [|done]. tfree. case_match; [done|]. case_match; [done|].
  tstep. destruct x0 as [r|]; cbn [optToken]; [|done].
  tstep. destruct x0 as [old|]; [|by tstep].
  apply (typed_bind _ _ (fun _ => [])).
  - destruct old as [o|]; cbn [optToken]; [|done]. by apply typed_last.
  - intros _. by tfree.
Qed.

Lemma runProbe_typed warmup : typed [] (runGenerate204Probe warmup) (fun _ => []).
Proof.
  unfold runGenerate204Probe. apply typed_bind_nil.
  - destruct warmup; [by tfree|done].
  - intros [?|?]; [by tfree|done].
Qed.
End Functions.
Create HintDb usque.
#[export] Hint Resolve startWithContext_typed Stop_typed Status_typed waitReady_typed setHopRelay_typed runProbe_typed
  snapshot_typed StopAll_typed abortProbes_typed IsReady_typed : usque.

Section Calls.
Context `{E : UsqueEnv}.

(** A method of [Invoke] is made of typed calls and of actions without tokens. *)
Ltac tcall :=
  repeat first
    [ done
    | solve [auto with usque]
    | progress case_match
    | apply typed_bind_nil; [solve [auto with usque]|intros ?]
    | tfree ].

Lemma invokeStart_typed q file : typed [] (invokeStart q file) (fun _ => []).
Proof. unfold invokeStart. tcall. Qed.

Lemma invokeProbe_typed q file warmup : typed [] (invokeProbe q file warmup) (fun _ => []).
Proof.
  unfold invokeProbe. case_match; [|done]. case_match. tfree. cbv zeta.
  apply typed_bind_nil; [auto with usque|intros response]. case_match; [done|].
  apply (typed_bind _ _ (fun _ => [])); [tcall|]. intros answer. tcall.
Qed.

Lemma invokeStartProbe_typed q file : typed [] (invokeStartProbe q file) (fun _ => []).
Proof. unfold invokeStartProbe. tcall. Qed.

Lemma calls_typed_any c : typed [] (program c) (fun _ => []).
Proof.
  destruct c; cbn [program]; auto with usque.
  - tcall.
  - unfold LastError. tcall.
  - unfold Probe. tcall.
  - apply invokeStart_typed.
  - unfold invokeSetHopRelay. tcall.
  - unfold invokeStop. tcall.
  - apply invokeProbe_typed.
  - apply invokeStartProbe_typed.
Qed.

(** C6: every exported call is typed with no tokens before and after it: on
    every path, for every answer of the system and of the other calls, it
    releases, once each, the devices, contexts, servers, relays and sessions it
    opened or took out of the registry, or hands them to the registry. *)
Theorem calls_typed c : typed [] (program c) (fun _ => []).
Proof. apply calls_typed_any. Qed.
End Calls.
