(* ===== verification/UsqueSessionThm.v ===== *)
(** * Soundness of the ownership types, and what it gives for the sessions

    [Acc T w]: the tokens [T] of all programs account for everything that is open
    in the world [w] and is not a registered session's.  Every action of a typed
    program keeps it, so it holds in every reachable state. *)

From stdpp Require Import base numbers list countable gmap sets strings.
From Stdlib Require Import ZArith Lia.
From S2P Require Import Prelude Threads GoStrings NetIP GoNet UsqueConfig UsqueSession UsqueTyping.

(** ** The accounting *)
Definition flag (w : uworld) (s : nat) : option bool := usStopped <$> uSessions w !! s.
Definition relayOf (w : uworld) (s : nat) : option nat := uSessions w !! s ≫= usRelay.

Record AccReg (T : list token) (reg : gmap (list Z) nat) (fl : nat -> option bool) : Prop := mkAccReg {
  reg_live : forall id s, reg !! id = Some s -> fl s = Some false /\ TSess s ∉ T;
  reg_inj : forall id id' s, reg !! id = Some s -> reg !! id' = Some s -> id = id';
  sess_live : forall s, TSess s ∈ T -> fl s = Some false;
  live_owned : forall s, fl s = Some false -> TSess s ∈ T \/ exists id, reg !! id = Some s
}.

(** What a token says to be open. *)
Definition covered (T : list token) (k : resKind) (d : nat) : Prop :=
  TRes k d ∈ T \/ (TCtx d ∈ T /\ k <> KSocks) \/ (TNew d ∈ T /\ k = KDev).

Record AccOpen (T : list token) (open : gset (resKind * nat)) (fl : nat -> option bool) (next : nat) : Prop := mkAccOpen {
  open_iff : forall k d, (k, d) ∈ open <-> covered T k d \/ fl d = Some false;
  new_none : forall d, TNew d ∈ T \/ TCtx d ∈ T -> fl d = None;
  new_one : forall d, TNew d ∈ T -> TCtx d ∈ T -> False;
  res_stopped : forall k d, TRes k d ∈ T -> fl d = Some true;
  open_bound : forall d, (exists k, (k, d) ∈ open) \/ fl d <> None -> (d < next)%nat
}.

Record AccRelay (T : list token) (relays : gset nat) (rel : nat -> option nat) (fl : nat -> option bool) (next : nat) :
    Prop := mkAccRelay {
  relay_iff : forall r, r ∈ relays <-> TRelay r ∈ T \/ exists s, rel s = Some r;
  relay_excl : forall r s, TRelay r ∈ T -> rel s <> Some r;
  relay_inj : forall r s s', rel s = Some r -> rel s' = Some r -> s = s';
  relay_owned : forall r s, rel s = Some r -> fl s = Some false \/ TTake s ∈ T;
  take_stopped : forall s, TTake s ∈ T -> fl s = Some true;
  relay_bound : forall r, r ∈ relays -> (r < next)%nat
}.

Record Acc (T : list token) (w : uworld) : Prop := mkAcc {
  acc_nodup : NoDup T;
  acc_reg : AccReg T (uRegistry w) (flag w);
  acc_open : AccOpen T (uOpen w) (flag w) (uNextDev w);
  acc_relay : AccRelay T (uRelays w) (relayOf w) (flag w) (uNextRelay w)
}.

(** ** Views of an updated world *)
Lemma flag_upd f s w t :
  flag (updSession s f w) t = (if decide (s = t) then (fun x => usStopped (f x)) <$> uSessions w !! t else flag w t).
Proof.
  unfold flag, updSession. cbn. destruct (decide (s = t)) as [->|n].
  - rewrite lookup_alter_eq. by destruct (uSessions w !! t).
  - by rewrite lookup_alter_ne.
Qed.

Lemma relayOf_upd f s w t :
  relayOf (updSession s f w) t = (if decide (s = t) then uSessions w !! t ≫= (fun x => usRelay (f x)) else relayOf w t).
Proof.
  unfold relayOf, updSession. cbn. destruct (decide (s = t)) as [->|n].
  - rewrite lookup_alter_eq. by destruct (uSessions w !! t).
  - by rewrite lookup_alter_ne.
Qed.

(** An update that keeps the flag and the relay of a session. *)
Definition keepsFlags (f : session -> session) : Prop := forall x, usStopped (f x) = usStopped x /\ usRelay (f x) = usRelay x.

Lemma flag_keep f s w : keepsFlags f -> forall t, flag (updSession s f w) t = flag w t.
Proof.
  intros Hf t. rewrite flag_upd. case_decide as e; [|done]. unfold flag.
  destruct (uSessions w !! t) as [x|]; [|done]. cbn. by rewrite (proj1 (Hf x)).
Qed.
Lemma relayOf_keep f s w : keepsFlags f -> forall t, relayOf (updSession s f w) t = relayOf w t.
Proof.
  intros Hf t. rewrite relayOf_upd. case_decide as e; [|done]. unfold relayOf.
  destruct (uSessions w !! t) as [x|]; [|done]. cbn. apply (proj2 (Hf x)).
Qed.

(** ** A part whose tokens and views did not change *)
Lemma AccReg_keep T T' reg fl fl' :
  AccReg T reg fl -> (forall s, fl' s = fl s) -> (forall s, TSess s ∈ T' <-> TSess s ∈ T) -> AccReg T' reg fl'.
Proof.
  intros [A B C D] Hf Ht. split; intros *; rewrite ?Hf, ?Ht; eauto.
Qed.

Lemma AccOpen_keep T T' open fl fl' next :
  AccOpen T open fl next -> (forall s, fl' s = fl s) ->
  (forall k d, TRes k d ∈ T' <-> TRes k d ∈ T) -> (forall d, TCtx d ∈ T' <-> TCtx d ∈ T) -> (forall d, TNew d ∈ T' <-> TNew d ∈ T) ->
  AccOpen T' open fl' next.
Proof.
  intros [A B C D F] Hf H1 H2 H3.
  split; intros *; unfold covered in *; rewrite ?Hf, ?H1, ?H2, ?H3; eauto.
Qed.

Lemma AccRelay_keep T T' relays rel rel' fl fl' next :
  AccRelay T relays rel fl next -> (forall s, fl' s = fl s) -> (forall s, rel' s = rel s) ->
  (forall r, TRelay r ∈ T' <-> TRelay r ∈ T) -> (forall s, TTake s ∈ T' <-> TTake s ∈ T) ->
  AccRelay T' relays rel' fl' next.
Proof.
  intros [A B C D F G] Hf Hr H1 H2.
  split; intros *; rewrite ?Hf, ?Hr, ?H1, ?H2; eauto.
  rewrite A. split; (intros [?|[s Hs]]; [by left|right; exists s]); [by rewrite Hr|by rewrite <- Hr].
Qed.

Lemma Acc_keep T T' w w' :
  Acc T w -> T ≡ₚ T' -> uRegistry w' = uRegistry w -> uOpen w' = uOpen w -> uRelays w' = uRelays w ->
  uNextDev w' = uNextDev w -> uNextRelay w' = uNextRelay w -> (forall s, flag w' s = flag w s) ->
  (forall s, relayOf w' s = relayOf w s) -> Acc T' w'.
Proof.
  intros [N A B C] HT H1 H2 H3 H4 H5 Hf Hr. split; rewrite ?H1, ?H2, ?H3, ?H4, ?H5.
  - by rewrite <- HT.
  - eapply AccReg_keep; [exact A|done|]. intros s. by rewrite HT.
  - eapply AccOpen_keep; [exact B|done|..]; intros; by rewrite HT.
  - eapply AccRelay_keep; [exact C|done|done|..]; intros; by rewrite HT.
Qed.

Lemma Acc_permutes T T' w : T ≡ₚ T' -> Acc T w -> Acc T' w.
Proof. intros HT HA. by eapply Acc_keep. Qed.

Lemma Acc_callback f s T w : keepsFlags f -> Acc T w -> Acc T (updSession s f w).
Proof. intros Hf HA. eapply Acc_keep; try done; [by apply flag_keep|by apply relayOf_keep]. Qed.

(** ** Opening and closing *)

(** Membership in a list of tokens, and equalities between tokens. *)
Ltac tokens :=
  cbn [app map optToken] in *; rewrite ?elem_of_cons, ?elem_of_app, ?NoDup_cons in *; unfold covered in *;
  rewrite ?elem_of_cons in *.
Ltac keep_reg HA := eapply AccReg_keep; [exact HA|done|intros; clear; tokens; naive_solver].
Ltac keep_open HA := eapply AccOpen_keep; [exact HA|done|intros; clear; tokens; naive_solver..].
Ltac keep_relay HA := eapply AccRelay_keep; [exact HA|done|done|intros; clear; tokens; naive_solver..].

Lemma create_acc F w :
  Acc F w ->
  Acc (TNew (uNextDev w) :: F) (w <| uNextDev ::= S |> <| uOpen ::= union {[ (KDev, uNextDev w) ]} |>).
Proof.
  intros [N A [O1 O2 O3 O4 O5] C]. set (d := uNextDev w).
  assert (Hfl : flag w d = None).
  { destruct (flag w d) eqn:e; [|done]. assert (d < d)%nat; [|lia]. apply O5. right. by rewrite e. }
  assert (Hop : forall k, (k, d) ∉ uOpen w).
  { intros k Hk. assert (d < d)%nat; [|lia]. apply O5. left. by exists k. }
  assert (Hcov : forall k, ~ covered F k d).
  { intros k Hk. apply (Hop k), O1. by left. }
  split; cbn.
  - apply NoDup_cons. split; [|done]. intros Hd. apply (Hcov KDev). unfold covered. naive_solver.
  - keep_reg A.
  - split.
    + intros k x. change (flag _ x) with (flag w x). rewrite elem_of_union, elem_of_singleton, O1.
      unfold covered. rewrite !elem_of_cons. naive_solver.
    + intros x. change (flag _ x) with (flag w x). rewrite !elem_of_cons. naive_solver.
    + intros x. rewrite !elem_of_cons. intros [e|Hx] [?|Hx']; try done; [|by eapply O3].
      injection e as ->. apply (Hcov KDev). unfold covered. naive_solver.
    + intros k x. change (flag _ x) with (flag w x). rewrite elem_of_cons. intros [?|?]; [done|by eapply O4].
    + intros x. change (flag _ x) with (flag w x). intros [[k Hk]|Hx].
      * rewrite elem_of_union, elem_of_singleton in Hk. destruct Hk as [[= -> ->]|Hk]; [subst d; lia|].
        specialize (O5 x (or_introl (ex_intro _ k Hk))). subst d. lia.
      * specialize (O5 x (or_intror Hx)). subst d. lia.
  - keep_relay C.
Qed.

(** A token that holds one resource more or less of a device without a session. *)
Lemma context_acc F w d :
  Acc (TNew d :: F) w <-> Acc (TNew d :: F) w /\ (KCtx, d) ∉ uOpen w.
Proof.
  split; [|tauto]. intros HA. split; [done|]. destruct HA as [N A [O1 O2 O3 O4 O5] C].
  rewrite O1. unfold covered. rewrite !elem_of_cons.
  assert (Hd : flag w d = None) by (apply O2; left; left). rewrite Hd.
  intros [[[?|Hr]|[[[?|Hc] _]|[_ ?]]]|?]; try done.
  - assert (flag w d = Some true); [|congruence]. eapply O4. by right.
  - apply (O3 d); [by left|by right].
Qed.

Lemma withcontext_acc F w d :
  Acc (TNew d :: F) w -> Acc (TCtx d :: F) (w <| uOpen ::= union {[ (KCtx, d) ]} |>).
Proof.
  intros HA. pose proof (proj2 (proj1 (context_acc _ _ _) HA)) as Hop.
  destruct HA as [N A [O1 O2 O3 O4 O5] C]. tokens. destruct N as [N1 N2].
  assert (Hd : flag w d = None) by (apply O2; tokens; naive_solver).
  assert (Hc : TCtx d ∉ F) by (intros Hc; apply (O3 d); tokens; naive_solver).
  split; cbn.
  - by apply NoDup_cons.
  - keep_reg A.
  - split.
    + intros k x. change (flag _ x) with (flag w x). rewrite elem_of_union, elem_of_singleton, O1.
      unfold covered. rewrite !elem_of_cons. destruct k; naive_solver.
    + intros x. change (flag _ x) with (flag w x). specialize (O2 x). tokens. naive_solver.
    + intros x. specialize (O3 x). tokens. naive_solver.
    + intros k x. change (flag _ x) with (flag w x). specialize (O4 k x). tokens. naive_solver.
    + intros x. change (flag _ x) with (flag w x). specialize (O5 x). intros [[k Hk]|Hx]; [|by apply O5; right].
      rewrite elem_of_union, elem_of_singleton in Hk. destruct Hk as [[= -> ->]|Hk]; [|apply O5; left; by exists k].
      apply O5. left. exists KDev. apply O1. left. unfold covered. tokens. naive_solver.
  - keep_relay C.
Qed.

Lemma cancel_acc F w d :
  Acc (TCtx d :: F) w -> Acc (TNew d :: F) (w <| uOpen ::= (fun o => o ∖ {[ (KCtx, d) ]}) |>).
Proof.
  intros [N A [O1 O2 O3 O4 O5] C]. apply NoDup_cons in N as [N1 N2].
  assert (Hd : flag w d = None) by (apply O2; tokens; naive_solver).
  assert (Hn : TNew d ∉ F) by (intros Hn; apply (O3 d); tokens; naive_solver).
  assert (Hr : forall k, TRes k d ∉ F).
  { intros k Hr. assert (flag w d = Some true); [|congruence]. eapply O4. by right. }
  split; cbn.
  - by apply NoDup_cons.
  - keep_reg A.
  - split.
    + intros k x. change (flag _ x) with (flag w x). rewrite elem_of_difference, elem_of_singleton, O1.
      unfold covered. rewrite !elem_of_cons.
      destruct (decide (x = d)) as [->|]; [rewrite Hd|]; destruct k; naive_solver.
    + intros x. change (flag _ x) with (flag w x). specialize (O2 x). tokens. naive_solver.
    + intros x. specialize (O3 x). tokens. naive_solver.
    + intros k x. change (flag _ x) with (flag w x). specialize (O4 k x). tokens. naive_solver.
    + intros x. change (flag _ x) with (flag w x). intros [[k Hk]|Hx]; apply O5; [left; exists k; set_solver|by right].
  - keep_relay C.
Qed.

Lemma closetun_acc F w d :
  Acc (TNew d :: F) w -> Acc F (w <| uOpen ::= (fun o => o ∖ {[ (KDev, d) ]}) |>).
Proof.
  intros [N A [O1 O2 O3 O4 O5] C]. apply NoDup_cons in N as [N1 N2].
  assert (Hd : flag w d = None) by (apply O2; tokens; naive_solver).
  assert (Hn : TCtx d ∉ F) by (intros Hn; apply (O3 d); tokens; naive_solver).
  assert (Hr : forall k, TRes k d ∉ F).
  { intros k Hr. assert (flag w d = Some true); [|congruence]. eapply O4. by right. }
  split; cbn; [done|keep_reg A| |keep_relay C].
  split.
  - intros k x. change (flag _ x) with (flag w x). rewrite elem_of_difference, elem_of_singleton, O1.
    unfold covered. rewrite !elem_of_cons.
    destruct (decide (x = d)) as [->|]; [rewrite Hd|]; destruct k; naive_solver.
  - intros x. change (flag _ x) with (flag w x). specialize (O2 x). tokens. naive_solver.
  - intros x. specialize (O3 x). tokens. naive_solver.
  - intros k x. change (flag _ x) with (flag w x). specialize (O4 k x). tokens. naive_solver.
  - intros x. change (flag _ x) with (flag w x). intros [[k Hk]|Hx]; apply O5; [left; exists k; set_solver|by right].
Qed.

(** A new session: its server is open, it runs and no one else has it. *)
Lemma newsession_acc F w d x :
  usStopped x = false -> usRelay x = None -> Acc (TCtx d :: F) w ->
  Acc (TSess d :: F) (w <| uOpen ::= union {[ (KSocks, d) ]} |> <| uSessions ::= <[d := x]> |>).
Proof.
  intros Hx Hrel [N [A1 A2 A3 A4] [O1 O2 O3 O4 O5] [C1 C2 C3 C4 C5 C6]]. apply NoDup_cons in N as [N1 N2].
  set (w' := _ <| uSessions ::= _ |>).
  assert (Hd : flag w d = None) by (apply O2; tokens; naive_solver).
  assert (Hn : TNew d ∉ F) by (intros Hn; apply (O3 d); tokens; naive_solver).
  assert (Hr : forall k, TRes k d ∉ F).
  { intros k Hr. assert (flag w d = Some true); [|congruence]. eapply O4. by right. }
  assert (Hs : TSess d ∉ F).
  { intros Hs. assert (flag w d = Some false); [|congruence]. apply A3. by right. }
  assert (Hrd : relayOf w d = None).
  { unfold relayOf, flag in *. by destruct (uSessions w !! d). }
  assert (Hf : forall t, flag w' t = if decide (d = t) then Some false else flag w t).
  { intros t. unfold flag, w'. cbn. destruct (decide (d = t)) as [<-|n]; [by rewrite lookup_insert_eq; cbn; rewrite Hx|].
    by rewrite lookup_insert_ne. }
  assert (Hre : forall t, relayOf w' t = relayOf w t).
  { intros t. unfold relayOf, w'. cbn. destruct (decide (d = t)) as [<-|n]; [|by rewrite lookup_insert_ne].
    rewrite lookup_insert_eq. cbn. rewrite Hrel. symmetry. exact Hrd. }
  split.
  - by apply NoDup_cons.
  - change (uRegistry w') with (uRegistry w). split.
    + intros id s Hs'. destruct (A1 _ _ Hs') as [L1 L2]. rewrite Hf. case_decide; [congruence|]. tokens. naive_solver.
    + exact A2.
    + intros s. rewrite Hf. case_decide as e; [done|]. specialize (A3 s). tokens. naive_solver.
    + intros s. rewrite Hf. case_decide as e; [subst; by left; left|]. intros Hs'.
      destruct (A4 _ Hs') as [?|?]; [|by right]. left. tokens. naive_solver.
  - split.
    + intros k y. rewrite Hf. change (uOpen w') with ({[(KSocks, d)]} ∪ uOpen w).
      rewrite elem_of_union, elem_of_singleton, O1. unfold covered. rewrite !elem_of_cons.
      destruct (decide (d = y)) as [<-|n]; [rewrite Hd|]; destruct k; naive_solver.
    + intros y. rewrite Hf. specialize (O2 y). case_decide as e; [subst y|]; tokens; naive_solver.
    + intros y. specialize (O3 y). tokens. naive_solver.
    + intros k y. rewrite Hf. specialize (O4 k y). case_decide as e; [subst y|]; tokens; naive_solver.
    + intros y. rewrite Hf. change (uOpen w') with ({[(KSocks, d)]} ∪ uOpen w). change (uNextDev w') with (uNextDev w).
      assert (Hdn : (d < uNextDev w)%nat).
      { apply O5. left. exists KDev. apply O1. left. unfold covered. tokens. naive_solver. }
      case_decide as e; [by subst|]. intros [[k Hk]|Hy]; apply O5; [left; exists k; set_solver|by right].
  - split.
    + intros r. change (uRelays w') with (uRelays w). rewrite C1. setoid_rewrite Hre. tokens. naive_solver.
    + intros r s. rewrite Hre. specialize (C2 r s). tokens. naive_solver.
    + intros r s s'. rewrite !Hre. apply C3.
    + intros r s. rewrite Hre, Hf. intros Hs'. case_decide as e; [subst; congruence|].
      destruct (C4 _ _ Hs'); [by left|right]. tokens. naive_solver.
    + intros s. rewrite Hf. intros Hs'. case_decide as e.
      * subst. assert (flag w s = Some true); [|congruence]. apply C5. tokens. naive_solver.
      * apply C5. tokens. naive_solver.
    + exact C6.
Qed.

(** ** The registry *)
Lemma insert_acc F w id s :
  uRegistry w !! id = None -> Acc (TSess s :: F) w -> Acc F (w <| uRegistry ::= <[id := s]> |>).
Proof.
  intros Hid [N [A1 A2 A3 A4] B C]. apply NoDup_cons in N as [N1 N2].
  assert (Hno : forall id', uRegistry w !! id' <> Some s).
  { intros id' Hs. apply A1 in Hs as [_ Hs]. apply Hs. by left. }
  split; cbn; [done| |keep_open B|keep_relay C].
  split.
  - intros id' s' [[<- <-]|[n Hs']]%lookup_insert_Some; (split; [|]).
    + change (flag _ s) with (flag w s). apply A3. by left.
    + done.
    + by destruct (A1 _ _ Hs').
    + destruct (A1 _ _ Hs') as [_ Hn]. tokens. naive_solver.
  - intros i i' x [[<- <-]|[n Hs]]%lookup_insert_Some [[<- e]|[n' Hs']]%lookup_insert_Some; try done.
    + by destruct (Hno i').
    + subst. by destruct (Hno i).
    + by eapply A2.
  - intros s' Hs'. change (flag _ s') with (flag w s'). apply A3. by right.
  - intros s' Hs'. change (flag _ s') with (flag w s') in Hs'. destruct (A4 _ Hs') as [Hin|[i Hi]].
    + tokens. destruct Hin as [[= ->]|Hin]; [|by left]. right. exists id. by rewrite lookup_insert_eq.
    + right. exists i. rewrite lookup_insert_ne; [done|]. intros ->. congruence.
Qed.

Lemma elem_of_map_sess t l : t ∈ map TSess l <-> exists s, t = TSess s /\ s ∈ l.
Proof. rewrite list_elem_of_fmap. naive_solver. Qed.

(** The sessions [l] leave the registry. *)
Lemma remove_acc F w reg l :
  reg ⊆ uRegistry w -> NoDup l ->
  (forall s, s ∈ l <-> exists id, uRegistry w !! id = Some s /\ reg !! id = None) ->
  Acc F w -> Acc (map TSess l ++ F) (w <| uRegistry := reg |>).
Proof.
  intros Hsub Hl Hin [N [A1 A2 A3 A4] B C].
  assert (Hmem : forall s, TSess s ∈ map TSess l ++ F <-> s ∈ l \/ TSess s ∈ F).
  { intros s. rewrite elem_of_app, elem_of_map_sess. naive_solver. }
  assert (Hoth : forall t, (forall s, t <> TSess s) -> t ∈ map TSess l ++ F <-> t ∈ F).
  { intros t Ht. rewrite elem_of_app, elem_of_map_sess. naive_solver. }
  split; cbn.
  - apply NoDup_app. split; [|split; [|done]].
    + apply NoDup_fmap; [|done]. by intros ?? [= ->].
    + intros t (s & -> & Hs)%elem_of_map_sess. apply Hin in Hs as (id & Hid & _). by destruct (A1 _ _ Hid).
  - split.
    + intros id s Hs. assert (Hs' := lookup_weaken _ _ _ _ Hs Hsub). destruct (A1 _ _ Hs') as [L1 L2].
      split; [done|]. rewrite Hmem. intros [Hs2|Hs2]; [|done].
      apply Hin in Hs2 as (id' & Hid' & Hn). rewrite (A2 _ _ _ Hs' Hid') in Hs. congruence.
    + intros id id' s H1 H2. eapply A2; by eapply lookup_weaken.
    + intros s. rewrite Hmem. intros [Hs|Hs]; [|by apply A3]. apply Hin in Hs as (id & Hid & _). apply (A1 _ _ Hid).
    + intros s Hs. rewrite Hmem. destruct (A4 _ Hs) as [Hs'|[id Hid]]; [by left; right|].
      destruct (reg !! id) as [s'|] eqn:e.
      * right. exists id. rewrite e. rewrite (lookup_weaken _ _ _ _ e Hsub) in Hid. done.
      * left. left. apply Hin. by exists id.
  - eapply AccOpen_keep; [exact B|done|intros; by apply Hoth..].
  - eapply AccRelay_keep; [exact C|done|done|intros; by apply Hoth..].
Qed.

Lemma delete_acc F w id :
  Acc F w -> Acc (optToken TSess (uRegistry w !! id) ++ F) (w <| uRegistry ::= delete id |>).
Proof.
  intros HA. change (w <| uRegistry ::= delete id |>) with (w <| uRegistry := delete id (uRegistry w) |>).
  replace (optToken TSess (uRegistry w !! id)) with (map TSess (option_list (uRegistry w !! id)))
    by by destruct (uRegistry w !! id).
  apply remove_acc; [apply delete_subseteq| | |done].
  - destruct (uRegistry w !! id); cbn; [apply NoDup_singleton|constructor].
  - intros s. transitivity (uRegistry w !! id = Some s).
    { destruct (uRegistry w !! id); cbn; rewrite ?elem_of_cons, ?elem_of_nil; naive_solver. }
    split.
    + intros Hs. exists id. by rewrite lookup_delete_eq.
    + intros (id' & Hid' & [->|Hn]%lookup_delete_None); [done|congruence].
Qed.

Lemma take_acc p F w :
  Acc F w ->
  Acc (map TSess (map_to_list (filter (fun kv => p kv.1 = true) (uRegistry w))).*2 ++ F)
      (w <| uRegistry ::= filter (fun kv => p kv.1 = false) |>).
Proof.
  intros HA. apply (remove_acc F w (filter (fun kv => p kv.1 = false) (uRegistry w))); [apply map_filter_subseteq| | |done].
  - apply NoDup_fmap_2_strong; [|apply NoDup_map_to_list].
    intros [id s] [id' s']. rewrite !elem_of_map_to_list, !map_lookup_filter_Some. cbn.
    intros [H1 _] [H2 _] <-. f_equal. exact (reg_inj _ _ _ (acc_reg _ _ HA) _ _ _ H1 H2).
  - intros s. rewrite list_elem_of_fmap. split.
    + intros ([id s'] & -> & Hin). rewrite elem_of_map_to_list, map_lookup_filter_Some in Hin. cbn in *.
      exists id. split; [apply Hin|]. apply map_lookup_filter_None. right. intros x _. cbn. destruct Hin as [_ ->]. done.
    + intros (id & Hid & Hn). exists (id, s). split; [done|]. rewrite elem_of_map_to_list, map_lookup_filter_Some. cbn.
      split; [done|]. apply map_lookup_filter_None in Hn as [Hn|Hn]; [congruence|]. specialize (Hn _ Hid). cbn in Hn.
      by destruct (p id).
Qed.

(** ** Stopping a session *)
Lemma swap_acc F w s :
  Acc (TSess s :: F) w ->
  Acc ([TRes KCtx s; TRes KSocks s; TTake s; TRes KDev s] ++ F) (updSession s (fun x => x <| usStopped := true |>) w).
Proof.
  intros [N [A1 A2 A3 A4] [O1 O2 O3 O4 O5] [C1 C2 C3 C4 C5 C6]]. apply NoDup_cons in N as [N1 N2].
  assert (Hs : flag w s = Some false) by (apply A3; by left).
  assert (Hf : forall t, flag (updSession s (fun x => x <| usStopped := true |>) w) t = if decide (s = t) then Some true else flag w t).
  { intros t. rewrite flag_upd. case_decide as e; [subst t|done]. unfold flag in Hs. by destruct (uSessions w !! s). }
  assert (Hrel : forall t, relayOf (updSession s (fun x => x <| usStopped := true |>) w) t = relayOf w t).
  { intros t. rewrite relayOf_upd. case_decide as e; [subst t|]; done. }
  assert (Hr : forall k, TRes k s ∉ F).
  { intros k Hk. assert (flag w s = Some true); [|congruence]. eapply O4. by right. }
  assert (Ht : TTake s ∉ F).
  { intros Hk. assert (flag w s = Some true); [|congruence]. eapply C5. by right. }
  split; cbn [uRegistry uOpen uRelays uNextDev uNextRelay updSession].
  - cbn [app]. rewrite !NoDup_cons, !elem_of_cons. naive_solver.
  - clear O1 O2 O3 O4 O5 C1 C2 C3 C4 C5 C6. split.
    + intros id s' Hs'. destruct (A1 _ _ Hs') as [L1 L2]. rewrite Hf. case_decide as e.
      * subst s'. destruct L2. by left.
      * split; [done|]. cbn [app]. rewrite !elem_of_cons in *. naive_solver.
    + exact A2.
    + intros s'. rewrite Hf. intros Hs'. case_decide as e.
      * subst. tokens. naive_solver.
      * apply A3. tokens. naive_solver.
    + intros s'. rewrite Hf. case_decide as e; [done|]. intros Hs'. destruct (A4 _ Hs'); [left|by right]. tokens. naive_solver.
  - clear A1 A2 A3 A4 C1 C2 C3 C4 C5 C6. split.
    + intros k y. rewrite Hf. change (uOpen _) with (uOpen w). rewrite O1. unfold covered. cbn [app]. rewrite !elem_of_cons.
      destruct (decide (s = y)) as [<-|n]; [rewrite Hs; destruct k; naive_solver|]. naive_solver.
    + intros y. rewrite Hf. specialize (O2 y). case_decide as e; [subst y; rewrite Hs in O2|]; tokens; naive_solver.
    + intros y. specialize (O3 y). tokens. naive_solver.
    + intros k y. rewrite Hf. specialize (O4 k y). case_decide as e; [subst y; done|]; tokens; naive_solver.
    + intros y. rewrite Hf. intros Hy. apply O5. destruct Hy as [?|Hy]; [by left|right]. case_decide; [subst; by rewrite Hs|done].
  - clear A1 A2 A3 A4 O1 O2 O3 O4 O5. split.
    + intros r. change (uRelays _) with (uRelays w). rewrite C1. setoid_rewrite Hrel. tokens. naive_solver.
    + intros r s'. rewrite Hrel. specialize (C2 r s'). tokens. naive_solver.
    + intros r s' s''. rewrite !Hrel. apply C3.
    + intros r s' Hs'. rewrite Hrel in Hs'. rewrite Hf. case_decide as e; [subst; right|].
      * cbn [app]. rewrite !elem_of_cons. naive_solver.
      * destruct (C4 _ _ Hs'); [by left|right]. tokens. naive_solver.
    + intros s'. rewrite Hf. case_decide as e; [done|]. specialize (C5 s'). tokens. naive_solver.
    + exact C6.
Qed.

Lemma release_acc F w k s :
  Acc (TRes k s :: F) w -> Acc F (w <| uOpen ::= (fun o => o ∖ {[ (k, s) ]}) |>).
Proof.
  intros [N A [O1 O2 O3 O4 O5] C]. apply NoDup_cons in N as [N1 N2].
  assert (Hs : flag w s = Some true) by (apply (O4 k); by left).
  assert (Hn : TNew s ∉ F /\ TCtx s ∉ F).
  { split; intros Hn; (assert (flag w s = None); [|congruence]); apply O2; tokens; naive_solver. }
  split; cbn; [done|keep_reg A| |keep_relay C].
  split.
  - intros k' x. change (flag _ x) with (flag w x). rewrite elem_of_difference, elem_of_singleton, O1.
    unfold covered. rewrite !elem_of_cons. destruct (decide (s = x)) as [<-|n]; [rewrite Hs|]; naive_solver.
  - intros x. change (flag _ x) with (flag w x). specialize (O2 x). tokens. naive_solver.
  - intros x. specialize (O3 x). tokens. naive_solver.
  - intros k' x. change (flag _ x) with (flag w x). specialize (O4 k' x). tokens. naive_solver.
  - intros x. change (flag _ x) with (flag w x). intros [[k' Hk]|Hx]; apply O5; [left; exists k'; set_solver|by right].
Qed.

(** ** Hop relays *)
Lemma takerelay_acc F w s :
  Acc (TTake s :: F) w ->
  Acc (optToken TRelay (relayOf w s) ++ F) (updSession s (fun x => x <| usRelay := None |>) w).
Proof.
  intros [N A B [C1 C2 C3 C4 C5 C6]]. apply NoDup_cons in N as [N1 N2].
  set (w' := updSession _ _ _).
  assert (Hf : forall t, flag w' t = flag w t).
  { intros t. unfold w'. rewrite flag_upd. case_decide as e; [subst t|]; done. }
  assert (Hrel : forall t, relayOf w' t = if decide (s = t) then None else relayOf w t).
  { intros t. unfold w'. rewrite relayOf_upd. case_decide as e; [subst t|done]. by destruct (uSessions w !! s). }
  assert (Hmem : forall t, t ∈ optToken TRelay (relayOf w s) ++ F <-> (exists r, t = TRelay r /\ relayOf w s = Some r) \/ t ∈ F).
  { intros t. destruct (relayOf w s); cbn; rewrite ?elem_of_cons; naive_solver. }
  split.
  - destruct (relayOf w s) as [r|] eqn:e; cbn; [|done]. apply NoDup_cons. split; [|done].
    intros Hr. apply (C2 r s); [by right|done].
  - eapply AccReg_keep; [exact A|done|]. intros s'. rewrite Hmem, elem_of_cons. clear. naive_solver.
  - eapply AccOpen_keep; [exact B|done|intros; rewrite Hmem, elem_of_cons; clear; naive_solver..].
  - split.
    + intros r. change (uRelays w') with (uRelays w). rewrite C1, Hmem, elem_of_cons. split.
      * intros [[?|?]|[s' Hs']]; [done|by left; right|]. destruct (decide (s = s')) as [<-|n].
        -- left. left. by exists r.
        -- right. exists s'. rewrite Hrel. by rewrite decide_False.
      * intros [[(r' & [= <-] & Hr)|?]|[s' Hs']]; [by right; exists s|by left; right|].
        rewrite Hrel in Hs'. case_decide; [done|]. right. by exists s'.
    + intros r s'. rewrite Hmem, Hrel. intros Hr. case_decide as e; [done|].
      destruct Hr as [(r' & [= <-] & Hr)|Hr]; [|apply C2; by right]. intros Hs'. apply e. by eapply C3.
    + intros r s1 s2. rewrite !Hrel. do 2 case_decide; try done. apply C3.
    + intros r s'. rewrite Hrel, Hf, Hmem. case_decide as e; [done|]. intros Hs'.
      destruct (C4 _ _ Hs') as [?|Ht]; [by left|right; right]. apply elem_of_cons in Ht as [[= <-]|Ht]; done.
    + intros s'. rewrite Hmem, Hf. intros [(? & ? & _)|Ht]; [done|]. apply C5. by right.
    + exact C6.
Qed.

Lemma newrelay_acc F w :
  Acc F w -> Acc (TRelay (uNextRelay w) :: F) (w <| uNextRelay ::= S |> <| uRelays ::= union {[ uNextRelay w ]} |>).
Proof.
  intros [N A B [C1 C2 C3 C4 C5 C6]]. set (r := uNextRelay w).
  assert (Hr : r ∉ uRelays w) by (intros Hr; apply C6 in Hr; subst r; lia).
  assert (Hn : TRelay r ∉ F /\ forall s, relayOf w s <> Some r).
  { split; [intros H|intros s H]; apply Hr, C1; [by left|right; by exists s]. }
  split; cbn; [apply NoDup_cons; split; [apply Hn|done]|keep_reg A|keep_open B|].
  split.
  - intros x. rewrite elem_of_union, elem_of_singleton, C1, elem_of_cons.
    change (relayOf (_ <| uNextRelay ::= _ |> <| uRelays ::= _ |>)) with (relayOf w). naive_solver.
  - intros x s. change (relayOf _ s) with (relayOf w s). rewrite elem_of_cons. intros [[= ->]|Hx]; [apply Hn|by apply C2].
  - exact C3.
  - intros x s Hx. change (flag _ s) with (flag w s). destruct (C4 x s Hx); [by left|right; by right].
  - intros s. change (flag _ s) with (flag w s). rewrite elem_of_cons. intros [?|?]; [done|by apply C5].
  - intros x. rewrite elem_of_union, elem_of_singleton. intros [->|Hx%C6]; subst r; lia.
Qed.

Lemma setrelay_acc F w s r :
  flag w s = Some false -> Acc (TRelay r :: F) w ->
  Acc (optToken TRelay (relayOf w s) ++ F) (updSession s (fun x => x <| usRelay := Some r |>) w).
Proof.
  intros Hs [N A B [C1 C2 C3 C4 C5 C6]]. apply NoDup_cons in N as [N1 N2].
  set (w' := updSession _ _ _).
  assert (Hf : forall t, flag w' t = flag w t).
  { intros t. unfold w'. rewrite flag_upd. case_decide as e; [subst t|]; done. }
  assert (Hrel : forall t, relayOf w' t = if decide (s = t) then Some r else relayOf w t).
  { intros t. unfold w'. rewrite relayOf_upd. case_decide as e; [subst t|done]. unfold flag in Hs. by destruct (uSessions w !! s). }
  assert (Hmem : forall t, t ∈ optToken TRelay (relayOf w s) ++ F <-> (exists r, t = TRelay r /\ relayOf w s = Some r) \/ t ∈ F).
  { intros t. destruct (relayOf w s); cbn; rewrite ?elem_of_cons; naive_solver. }
  assert (Hno : forall s', relayOf w s' <> Some r) by (intros s'; apply C2; by left).
  split.
  - destruct (relayOf w s) as [o|] eqn:e; cbn; [|done]. apply NoDup_cons. split; [|done].
    intros Ho. apply (C2 o s); [by right|done].
  - eapply AccReg_keep; [exact A|done|]. intros s'. rewrite Hmem, elem_of_cons. clear. naive_solver.
  - eapply AccOpen_keep; [exact B|done|intros; rewrite Hmem, elem_of_cons; clear; naive_solver..].
  - split.
    + intros x. change (uRelays w') with (uRelays w). rewrite C1, Hmem, elem_of_cons. split.
      * intros [[[= ->]|?]|[s' Hs']]; [right; exists s; rewrite Hrel; by rewrite decide_True|by left; right|].
        destruct (decide (s = s')) as [<-|n]; [left; left; by exists x|].
        right. exists s'. rewrite Hrel. by rewrite decide_False.
      * intros [[(x' & [= <-] & Hx)|?]|[s' Hs']]; [by right; exists s|by left; right|].
        rewrite Hrel in Hs'. case_decide; [injection Hs' as ->; by left; left|]. right. by exists s'.
    + intros x s'. rewrite Hmem, Hrel. intros Hx. case_decide as e.
      * intros [= ->]. destruct Hx as [(x' & [= <-] & Hx)|Hx]; [by apply (Hno s)|done].
      * destruct Hx as [(x' & [= <-] & Hx)|Hx]; [|apply C2; by right]. intros Hs'. apply e. by eapply C3.
    + intros x s1 s2. rewrite !Hrel. destruct (decide (s = s1)) as [e1|], (decide (s = s2)) as [e2|]; [congruence| | |apply C3].
      * intros [= <-] Hx. by apply Hno in Hx.
      * intros Hx [= <-]. by apply Hno in Hx.
    + intros x s'. rewrite Hrel, Hf, Hmem. case_decide as e; [subst s'; by left|]. intros Hs'.
      destruct (C4 _ _ Hs') as [?|Ht]; [by left|right; right]. apply elem_of_cons in Ht as [?|Ht]; done.
    + intros s'. rewrite Hmem, Hf. intros [(? & ? & _)|Ht]; [done|]. apply C5. by right.
    + exact C6.
Qed.

Lemma closerelay_acc F w r : Acc (TRelay r :: F) w -> Acc F (w <| uRelays ::= (fun o => o ∖ {[ r ]}) |>).
Proof.
  intros [N A B [C1 C2 C3 C4 C5 C6]]. apply NoDup_cons in N as [N1 N2].
  assert (Hno : forall s', relayOf w s' <> Some r) by (intros s'; apply C2; by left).
  split; cbn; [done|keep_reg A|keep_open B|].
  split.
  - intros x. rewrite elem_of_difference, elem_of_singleton, C1, elem_of_cons.
    change (relayOf (_ <| uRelays ::= _ |>)) with (relayOf w). naive_solver.
  - intros x s. change (relayOf _ s) with (relayOf w s). intros Hx. apply C2. by right.
  - exact C3.
  - intros x s Hx. change (flag _ s) with (flag w s). destruct (C4 x s Hx) as [|Ht]; [by left|right].
    by apply elem_of_cons in Ht as [?|?].
  - intros s Ht. change (flag _ s) with (flag w s). apply C5. by right.
  - intros x. rewrite elem_of_difference. intros [Hx _]. by apply C6.
Qed.

(** ** One action of a typed program *)
Lemma sessionField_flag w s : sessionField w s usStopped true = false <-> flag w s = Some false.
Proof. unfold sessionField, flag. destruct (uSessions w !! s) as [x|]; cbn; split; congruence. Qed.

Lemma sessionField_relay w s : sessionField w s usRelay None = relayOf w s.
Proof. unfold sessionField, relayOf. by destruct (uSessions w !! s). Qed.

Lemma exec_acc {X : Set} ans F w (a : action X) :
  startable a -> Acc (needs a ++ F) w -> Acc (leaves a (exec ans w a).2 ++ F) (exec ans w a).1.
Proof.
  destruct a; cbn [startable needs leaves exec app]; intros Ha HA; try exact HA.
  - destruct (ansOk ans); cbn; [by apply create_acc|done].
  - by apply withcontext_acc.
  - by apply cancel_acc.
  - by apply closetun_acc.
  - cbn. by eapply Acc_keep.
  - destruct Ha as [H1 H2]. destruct (ansOk ans); cbn; [|done]. by apply newsession_acc.
  - case_bool_decide as Hid; cbn; [done|]. apply (insert_acc F w id s); [by apply eq_None_not_Some|done].
  - by apply delete_acc.
  - by apply take_acc.
  - cbn [fst snd]. assert (Hs : flag w s = Some false) by (apply (sess_live _ _ _ (acc_reg _ _ HA)); by left).
    rewrite (proj2 (sessionField_flag w s) Hs). by apply swap_acc.
  - by apply Acc_callback.
  - by apply release_acc.
  - cbn [fst snd]. rewrite sessionField_relay. by apply takerelay_acc.
  - destruct (ansOk ans); cbn; [by apply newrelay_acc|done].
  - destruct (sessionField w s usStopped true) eqn:e; cbn [fst snd]; [done|].
    rewrite sessionField_relay. apply setrelay_acc; [by apply sessionField_flag|done].
  - by apply closerelay_acc.
Qed.

#[global] Instance usqueAccounting : Accounting Acc.
Proof.
  split; [exact Acc_permutes|]. intros X a F ans w w' x Hal HA [= He].
  pose proof (exec_acc ans F w a Hal HA) as H. by rewrite He in H.
Qed.

Lemma Acc_init : Acc [] uworld0.
Proof.
  assert (Hf : forall s, flag uworld0 s = None) by done.
  assert (Hr : forall s, relayOf uworld0 s = None) by done.
  assert (Ht : forall t : token, t ∈ [] <-> False) by (intros t; by rewrite elem_of_nil).
  split; [constructor| | |].
  - split; intros *; rewrite ?Hf, ?Ht; done.
  - split; intros *; unfold covered; rewrite ?Hf, ?Ht; try done; [set_solver|].
    intros [[k Hk]|?]; [|done]. cbn in Hk. set_solver.
  - split; intros *; rewrite ?Hf, ?Ht, ?Hr; try done. cbn. setoid_rewrite Hr. set_solver.
Qed.

Section Reachable.
Context `{E : UsqueEnv}.

Lemma PoolOk_apply ev st : PoolOk Acc st -> PoolOk Acc (uapply st ev).
Proof.
  intros HP. destruct ev; cbn [uapply].
  - by apply PoolOk_spawn; [apply calls_typed_any|].
  - apply (PoolOk_run Acc). exact HP.
  - apply PoolOk_shared; [|done]. intros T. by apply Acc_callback.
  - apply PoolOk_shared; [|done]. intros T. by apply Acc_callback.
  - apply PoolOk_shared; [|done]. intros T. by apply Acc_callback.
Qed.

Lemma PoolOk_reachable st : ureachable st -> PoolOk Acc st.
Proof.
  intros [evs ->]. assert (H0 : PoolOk Acc ustate0) by (exists []; split; [constructor|apply Acc_init]).
  revert H0. generalize ustate0. induction evs as [|ev evs IH]; cbn [fold_left]; [done|].
  intros st H. by apply IH, PoolOk_apply.
Qed.

(** What is open when an action closes it. *)
Definition closesOpen {X : Set} (w : uworld) (a : action X) : Prop :=
  match a with
  | ACancel d => (KCtx, d) ∈ uOpen w
  | ACloseNetTUN d => (KDev, d) ∈ uOpen w
  | ARelease k s => (k, s) ∈ uOpen w
  | ACloseRelay r => r ∈ uRelays w
  | ASwapStopped s => flag w s = Some false
  | _ => True
  end.

Lemma closesOpen_acc {X : Set} F w (a : action X) : Acc (needs a ++ F) w -> closesOpen w a.
Proof.
  intros [N A B C]. destruct a; cbn [closesOpen needs app] in *; try done.
  - apply (open_iff _ _ _ _ B). left. unfold covered. tokens. naive_solver.
  - apply (open_iff _ _ _ _ B). left. unfold covered. tokens. naive_solver.
  - apply (sess_live _ _ _ A). by left.
  - apply (open_iff _ _ _ _ B). left. left. by left.
  - apply (relay_iff _ _ _ _ _ C). left. by left.
Qed.

(** C20: nothing is closed twice, in any interleaving of the exported calls: when
    a thread is about to cancel a context, to close a device, a SOCKS server or a
    hop relay, it is open, and when it is about to stop a session no one has
    stopped it, so the guard of [session.close] never finds [stopped] set. *)
Theorem closed_once st i (X : Set) (a : action X) k :
  ureachable st -> pool st !! i = Some (Act a k) -> closesOpen (shared st) a.
Proof. intros HP%PoolOk_reachable Hi. destruct (PoolOk_head _ _ _ _ _ _ HP Hi) as [F HA]. by apply (closesOpen_acc F). Qed.

(** C9: when every call has returned, what is open belongs to the sessions of the
    registry: the contexts, devices and SOCKS servers that are open are exactly
    theirs, the open hop relays are exactly theirs, each registered session is
    running, and no two IDs share one. *)
Theorem no_leak st :
  ureachable st -> forallb finished (pool st) = true ->
  (forall k s, (k, s) ∈ uOpen (shared st) <-> exists id, uRegistry (shared st) !! id = Some s) /\
  (forall r, r ∈ uRelays (shared st) <-> exists id s, uRegistry (shared st) !! id = Some s /\ relayOf (shared st) s = Some r) /\
  (forall id s, uRegistry (shared st) !! id = Some s -> flag (shared st) s = Some false) /\
  (forall id id' s, uRegistry (shared st) !! id = Some s -> uRegistry (shared st) !! id' = Some s -> id = id').
Proof.
  intros HP%PoolOk_reachable Hfin.
  destruct (PoolOk_done _ _ HP Hfin) as [_ [A1 A2 A3 A4] [O1 _ _ _ _] [C1 _ _ C4 _ _]].
  assert (Hno : forall t : token, t ∈ [] <-> False) by (intros t; by rewrite elem_of_nil).
  assert (Hlive : forall s, flag (shared st) s = Some false <-> exists id, uRegistry (shared st) !! id = Some s).
  { intros s. split; [|by intros [id [? _]%A1]]. intros Hs. destruct (A4 _ Hs) as [?%Hno|?]; done. }
  split_and!; [| |intros id s Hs; by apply (A1 id)|done].
  - intros k s. rewrite O1, Hlive. unfold covered. rewrite !Hno. naive_solver.
  - intros r. rewrite C1, Hno. split; [|intros (id & s & _ & Hr); right; by exists s].
    intros [?|[s Hr]]; [done|]. destruct (C4 _ _ Hr) as [[id Hid]%Hlive|?%Hno]; [|done]. by exists id, s.
Qed.
End Reachable.

(** ** Runs of the MASQUE sessions

    Concrete runs of the exported calls: the hypotheses of the theorems of
    [UsqueSessionThm] hold in them, and one run shows a start that stops the
    session of another start. *)

(** Credentials that parse and a resolver that knows nothing. *)
#[local] Instance sampleEnv : UsqueEnv :=
  {| credentialsOk := fun _ => true; prepareTLS := fun _ _ _ => true; lookupIPAddr := fun _ => None |}.

Definition sampleAccount : AccountConfig := Eval vm_compute in
  mkAccount (str "key") (str "162.159.198.1") [] [] [] (str "pem") [] [] (str "172.16.0.2/32") (str "2606:4700::2/128").
Definition sampleStart (id : list Z) : StartRequest :=
  mkStart id sampleAccount [] false 0 [] 1080 [] [] [] 0 0 0 0 false [].
Definition sampleCompat (hop : option hopRelayRequest) : compatRequest :=
  mkCompat (str "/config") [] 1080 [] 0 [] false false 0 hop.
Definition sampleHop : hopRelayRequest := mkHopRelay [] 0 (str "10.0.0.1") 51820.

(** Everything succeeds; a deadline comes after one tick. *)
Definition fine : answer := mkAnswer true 1080 1 [(Ok 20, CtxLive)] (Ok []).
Definition refused : answer := mkAnswer false 0 0 [] (Err ErrProbe).
Definition runs (i n : nat) (ans : answer) : list event := repeat (ERun i ans) n.

(** Two starts of the same ID, the second fails; the session gets its relay. *)
Definition sampleEvents : list event :=
  [ECall (CStart (sampleStart defaultID)); ECall (CStart (sampleStart defaultID))] ++
  runs 0 3 fine ++ runs 1 3 fine ++ runs 0 20 fine ++ runs 1 20 fine ++
  [EReady 0; ECall (CInvokeSetHopRelay sampleHop)] ++ runs 2 20 fine.
Definition sampleState : threads uworld action response := fold_left uapply sampleEvents ustate0.

Lemma no_leak_witness :
  forallb finished (pool sampleState) = true /\ uRegistry (shared sampleState) = {[ defaultID := 0%nat ]} /\
  uRelays (shared sampleState) = {[ 0%nat ]} /\
  (forall k s, (k, s) ∈ uOpen (shared sampleState) <-> exists id, uRegistry (shared sampleState) !! id = Some s).
Proof.
  split; [vm_compute; reflexivity|]. split; [vm_compute; reflexivity|]. split; [vm_compute; reflexivity|].
  apply no_leak; [by exists sampleEvents|vm_compute; reflexivity].
Defined.

(** The second start has lost the ID and is about to close its device. *)
Definition lostState : threads uworld action response :=
  fold_left uapply
    ([ECall (CStart (sampleStart defaultID)); ECall (CStart (sampleStart defaultID))] ++
     runs 0 3 fine ++ runs 1 3 fine ++ runs 0 20 fine ++ runs 1 6 fine) ustate0.

Definition headReleases (p : prog response) : option (resKind * nat) :=
  match p with Act (ARelease k s) _ => Some (k, s) | _ => None end.

Lemma closed_once_witness :
  (pool lostState !! 1%nat ≫= headReleases) = Some (KDev, 1%nat) /\ (KDev, 1%nat) ∈ uOpen (shared lostState).
Proof.
  split; [vm_compute; reflexivity|].
  assert (Hk : exists k, pool lostState !! 1%nat = Some (Act (ARelease KDev 1) k)).
  { eexists. vm_compute. reflexivity. }
  destruct Hk as [k Hk]. apply (closed_once lostState 1 unit (ARelease KDev 1) k); [by eexists|exact Hk].
Defined.

(** A start waits for its session; the session is stopped and another start
    makes a new one under the same ID.  The deadline of the first start then
    stops the session of the second. *)
Definition staleEvents : list event :=
  [ECall (CInvokeStart (sampleCompat None) (Some sampleAccount))] ++ runs 0 12 fine ++
  [ECall CInvokeStop] ++ runs 1 12 fine ++
  [ECall (CInvokeStart (sampleCompat None) (Some sampleAccount))] ++ runs 2 12 fine ++
  runs 0 20 fine.
Definition staleState : threads uworld action response := fold_left uapply staleEvents ustate0.

Example stale_start_stops_other :
  uRegistry (shared staleState) = ∅ /\ flag (shared staleState) 1 = Some true /\
  pool staleState !! 0%nat = Some (Ret (Failure defaultID ErrReadiness)) /\
  (finished <$> pool staleState !! 2%nat) = Some false.
Proof. vm_compute. repeat split. Qed.
