(* ===== verification/UsqueRelay.v ===== *)
(** * The hop relay of a MASQUE session ([udpRelay] in [src/usque-ios/mobile/mobile.go])

    One goroutine serves the local socket, one per flow reads the replies.  A
    section under the relay's mutex is one step; [close] is its two parts, the
    cancel with the closing of the socket and the closing of the flows. *)

From stdpp Require Import base numbers list gmap sets strings.
From Stdlib Require Import ZArith Lia.
From S2P Require Import Prelude GoStrings NetIP GoNet UsqueSocks.

(** Where [serve] is. *)
Inductive serving :=
  | Reading
  | HasDatagram (client data : list Z)
  | Writing (c : nat) (client data : list Z)
  | ServeEnded.

Record udpRelay := mkUdpRelay {
  rlTarget : list Z;
  rlFlows : gmap (list Z) nat;                  (* client -> connection *)
  rlClient : gmap nat (list Z);                 (* the client a connection was made for *)
  rlNext : nat;
  rlOpen : gset nat;                            (* connections not closed *)
  rlReaders : gset nat;                         (* goroutines of [readReplies] *)
  rlServing : serving;
  rlCancelled : bool; rlDrained : bool;
  rlToTarget : list (nat * list Z * list Z);    (* connection, client, payload *)
  rlToClients : list (nat * list Z * list Z)
}.
#[global] Instance rebuild_udpRelay : Rebuild udpRelay := fun r =>
  mkUdpRelay (rlTarget r) (rlFlows r) (rlClient r) (rlNext r) (rlOpen r) (rlReaders r) (rlServing r) (rlCancelled r)
    (rlDrained r) (rlToTarget r) (rlToClients r).

Definition newUDPRelay (targetHost : list Z) (targetPort : Z) : udpRelay :=
  mkUdpRelay (JoinHostPort targetHost (itoa targetPort)) ∅ ∅ 0 ∅ ∅ Reading false false [] [].

Section Relay.
Context `{W : UsqueStack}.

(** [serve], from one read to the next: the read, the flow, the write.  A failed
    write is not looked at. *)
Definition relayRead (datagram : option (list Z * list Z)) (r : udpRelay) : udpRelay :=
  match datagram with
  | None => r <| rlServing := ServeEnded |>
  | Some (client, data) => r <| rlServing := HasDatagram client data |>
  end.

Definition relayFlow (client data : list Z) (r : udpRelay) : udpRelay :=
  match rlFlows r !! client with
  | Some c => r <| rlServing := Writing c client data |>
  | None =>
      if stackDialUDP (rlCancelled r) (rlTarget r) then
        let c := rlNext r in
        r <| rlNext ::= S |> <| rlClient ::= <[c := client]> |> <| rlOpen ::= (fun o => o ∪ {[c]}) |>
          <| rlReaders ::= (fun o => o ∪ {[c]}) |> <| rlFlows ::= <[client := c]> |>
          <| rlServing := Writing c client data |>
      else r <| rlServing := Reading |>
  end.

Definition relayWrite (c : nat) (client data : list Z) (r : udpRelay) : udpRelay :=
  let r := if bool_decide (c ∈ rlOpen r) then r <| rlToTarget ::= (fun l => l ++ [(c, client, data)]) |> else r in
  r <| rlServing := Reading |>.

(** The deferred function of [readReplies]. *)
Definition endReplies (c : nat) (client : list Z) (r : udpRelay) : udpRelay :=
  r <| rlFlows ::= delete client |> <| rlOpen ::= (fun o => o ∖ {[c]}) |> <| rlReaders ::= (fun o => o ∖ {[c]}) |>.

(** One turn of [readReplies]: the read, then the write to the local socket,
    which a closed socket refuses. *)
Definition readReplies (c : nat) (client : list Z) (answer : option (list Z)) (written : bool) (r : udpRelay) : udpRelay :=
  match answer with
  | None => endReplies c client r
  | Some payload =>
      if written && negb (rlCancelled r) then r <| rlToClients ::= (fun l => l ++ [(c, client, payload)]) |>
      else endReplies c client r
  end.

Definition relayCancel (r : udpRelay) : udpRelay := r <| rlCancelled := true |>.
Definition relayDrain (r : udpRelay) : udpRelay :=
  r <| rlOpen ::= (fun o => o ∖ list_to_set (map_to_list (rlFlows r)).*2) |> <| rlFlows := ∅ |> <| rlDrained := true |>.

Inductive relayStep : udpRelay -> udpRelay -> Prop :=
  | rsRead datagram r :
      rlServing r = Reading -> (rlCancelled r = true -> datagram = None) -> relayStep r (relayRead datagram r)
  | rsFlow client data r : rlServing r = HasDatagram client data -> relayStep r (relayFlow client data r)
  | rsWrite c client data r : rlServing r = Writing c client data -> relayStep r (relayWrite c client data r)
  | rsReply c client answer written r :
      c ∈ rlReaders r -> rlClient r !! c = Some client -> (c ∈ rlOpen r \/ answer = None) ->
      relayStep r (readReplies c client answer written r)
  | rsCancel r : relayStep r (relayCancel r)
  | rsDrain r : rlCancelled r = true -> relayStep r (relayDrain r).

Inductive relayReachable : udpRelay -> Prop :=
  | rrNew host port : relayReachable (newUDPRelay host port)
  | rrNext r r' : relayReachable r -> relayStep r r' -> relayReachable r'.

(** ** Invariant *)
Record relay_ok (r : udpRelay) : Prop := mkRelayOk {
  rk_flow : forall client c, rlFlows r !! client = Some c -> rlClient r !! c = Some client /\ c ∈ rlOpen r /\ c ∈ rlReaders r;
  rk_open : forall c, c ∈ rlOpen r -> exists client, rlFlows r !! client = Some c;
  rk_reader : forall client c, c ∈ rlReaders r -> rlClient r !! c = Some client -> rlFlows r !! client = Some c \/ rlDrained r = true;
  rk_serving : forall c client data, rlServing r = Writing c client data -> rlClient r !! c = Some client;
  rk_fresh : forall c client, rlClient r !! c = Some client -> (c < rlNext r)%nat;
  rk_sent : forall c client data, (c, client, data) ∈ rlToTarget r \/ (c, client, data) ∈ rlToClients r -> rlClient r !! c = Some client;
  rk_drained : rlDrained r = true -> rlCancelled r = true /\ rlFlows r = ∅
}.

Lemma relayFlow_ok client data r :
  (forall dst, stackDialUDP true dst = false) -> relay_ok r -> relay_ok (relayFlow client data r).
Proof.
  intros Hdial [A B K C D F G]. unfold relayFlow. destruct (rlFlows r !! client) as [c|] eqn:e.
  { split; cbn; try done. intros ? ? ? [= <- <- <-]. apply (A _ _ e). }
  destruct (stackDialUDP (rlCancelled r) (rlTarget r)) eqn:ed; [|by split].
  set (n := rlNext r).
  assert (Hn : forall x y, rlClient r !! x = Some y -> x <> n) by (intros x y Hx%D ->; subst n; lia).
  split; cbn.
  - intros cl c [[<- <-]|[Hne Hc]]%lookup_insert_Some.
    + rewrite lookup_insert_eq. set_solver.
    + destruct (A _ _ Hc) as (H1 & H2 & H3). rewrite lookup_insert_ne by (specialize (Hn _ _ H1); congruence). set_solver.
  - intros c [Hc|Hc]%elem_of_union.
    + destruct (B _ Hc) as [cl Hcl]. exists cl. rewrite lookup_insert_ne; [done|]. intros <-. congruence.
    + apply elem_of_singleton in Hc as ->. exists client. by rewrite lookup_insert_eq.
  - intros cl c [Hc|Hc%elem_of_singleton]%elem_of_union.
    + intros [[<- <-]|[Hne Hcl]]%lookup_insert_Some; [left; by rewrite lookup_insert_eq|].
      destruct (K _ _ Hc Hcl) as [Hf|Hf]; [left|by right]. rewrite lookup_insert_ne; [done|]. intros <-. congruence.
    + subst c. rewrite lookup_insert_eq. intros [= <-]. left. by rewrite lookup_insert_eq.
  - intros ? ? ? [= <- <- <-]. by rewrite lookup_insert_eq.
  - intros c cl [[<- <-]|[Hne Hc]]%lookup_insert_Some; [subst n; lia|]. apply D in Hc. lia.
  - intros c cl d Hd. apply F in Hd. rewrite lookup_insert_ne; [done|]. specialize (Hn _ _ Hd). congruence.
  - intros Hd. destruct (G Hd) as [Hc _]. by rewrite Hc, Hdial in ed.
Qed.

Lemma endReplies_ok c client r :
  relay_ok r -> c ∈ rlReaders r -> rlClient r !! c = Some client -> relay_ok (endReplies c client r).
Proof.
  intros [A B K C D F G] Hr Hc.
  assert (Hown : forall c', rlFlows r !! client = Some c' -> c' = c).
  { intros c' Hc'. destruct (K _ _ Hr Hc) as [?|Hd]; [congruence|]. destruct (G Hd) as [_ e]. by rewrite e in Hc'. }
  split; cbn; try done.
  - intros cl c' [Hne Hc']%lookup_delete_Some. destruct (A _ _ Hc') as (H1 & H2 & H3). split; [done|].
    assert (c' <> c) by congruence. set_solver.
  - intros c' [Hc' Hne]%elem_of_difference. destruct (B _ Hc') as [cl Hcl]. exists cl.
    rewrite lookup_delete_ne; [done|]. intros <-. apply Hne, elem_of_singleton. by apply Hown.
  - intros cl c' [Hc' Hne]%elem_of_difference Hcl. destruct (K _ _ Hc' Hcl) as [Hf|Hf]; [left|by right].
    rewrite lookup_delete_ne; [done|]. intros <-. apply Hne, elem_of_singleton. by apply Hown.
  - intros Hd. destruct (G Hd) as [H1 ->]. split; [done|]. by rewrite delete_empty.
Qed.

Lemma relayDrain_ok r : relay_ok r -> rlCancelled r = true -> relay_ok (relayDrain r).
Proof.
  intros [A B K C D F G] Hc. split; cbn; try done.
  - intros c [Hc' Hne]%elem_of_difference. destruct (B _ Hc') as [cl Hcl]. destruct Hne.
    apply elem_of_list_to_set, list_elem_of_fmap. exists (cl, c). by rewrite elem_of_map_to_list.
  - intros cl c Hr Hcl. by right.
Qed.

Lemma relayStep_ok r r' : (forall dst, stackDialUDP true dst = false) -> relay_ok r -> relayStep r r' -> relay_ok r'.
Proof.
  intros Hdial HR Hst. destruct Hst as [[[client data]|] r Hs Hdg|client data r Hs|c client data r Hs|c client answer written r Hr Hc Ha|r|r Hc].
  - destruct HR. by split.
  - destruct HR. by split.
  - by apply relayFlow_ok.
  - destruct HR as [A B K C D F G]. unfold relayWrite. case_bool_decide; (split; cbn; try done).
    intros c' cl d [[Hd|[= -> -> ->]%list_elem_of_singleton]%elem_of_app|Hd]; [apply (F _ _ d); by left| |apply (F _ _ d); by right].
    by eapply C.
  - unfold readReplies. destruct answer as [payload|]; [|by apply endReplies_ok].
    destruct (written && negb (rlCancelled r)); [|by apply endReplies_ok].
    destruct HR as [A B K C D F G]. split; cbn; try done.
    intros c' cl d [Hd|[Hd|[= -> -> ->]%list_elem_of_singleton]%elem_of_app]; [apply (F _ _ d); by left|apply (F _ _ d); by right|done].
  - destruct HR as [A B K C D F G]. split; cbn; try done. intros Hd. by destruct (G Hd).
  - by apply relayDrain_ok.
Qed.

Lemma relay_reachable_ok r : (forall dst, stackDialUDP true dst = false) -> relayReachable r -> relay_ok r.
Proof.
  intros Hdial. induction 1 as [host port|r r' _ IH Hst]; [|by eapply relayStep_ok].
  split; cbn; set_solver.
Qed.

(** The hop relay keeps its clients apart and closes what it opened, in any
    interleaving of its goroutines with [close]: a payload sent over a connection
    came from the client the connection was made for, a reply goes to that
    client only, every open connection is the flow of some client, and after
    [close] no connection is open or will be opened. *)
Theorem relay_private `{!UsqueStackLaws} r :
  relayReachable r ->
  (forall c client data, (c, client, data) ∈ rlToTarget r \/ (c, client, data) ∈ rlToClients r -> rlClient r !! c = Some client) /\
  (forall c, c ∈ rlOpen r -> exists client, rlFlows r !! client = Some c) /\
  (rlDrained r = true -> rlOpen r = ∅).
Proof.
  intros Hr. destruct (relay_reachable_ok r dial_cancelled Hr) as [A B K C D F G]. split_and!; [exact F|exact B|].
  intros Hd. apply set_eq. intros c. split; [|set_solver]. intros Hc. destruct (B _ Hc) as [cl Hcl].
  destruct (G Hd) as [_ e]. by rewrite e in Hcl.
Qed.
End Relay.

(** ** A run: two clients, one reply, the close *)
#[local] Instance sampleStack : UsqueStack :=
  {| stackDialTCP := fun _ => None; stackDialUDP := fun cancelled _ => negb cancelled |}.
#[local] Instance sampleStackLaws : UsqueStackLaws.
Proof. done. Qed.

Definition alice : list Z := str "127.0.0.1:1".
Definition bob : list Z := str "127.0.0.1:2".
Definition served (client data : list Z) (c : nat) (r : udpRelay) : udpRelay :=
  relayWrite c client data (relayFlow client data (relayRead (Some (client, data)) r)).
Definition relayRun : udpRelay :=
  relayDrain (relayCancel (readReplies 1 bob (Some [9]) true
    (served bob [2] 1 (served alice [1] 0 (newUDPRelay (str "10.0.0.1") 51820))))).

Lemma relay_private_witness :
  rlToTarget relayRun = [(0%nat, alice, [1]); (1%nat, bob, [2])] /\ rlToClients relayRun = [(1%nat, bob, [9])] /\
  rlOpen relayRun = ∅.
Proof.
  split; [vm_compute; reflexivity|]. split; [vm_compute; reflexivity|].
  apply (relay_private relayRun); [|vm_compute; reflexivity].
  unfold relayRun, served.
  repeat first
    [ apply rrNew
    | eapply rrNext; [|first
        [ apply rsDrain; vm_compute; reflexivity | apply rsCancel
        | apply rsReply; [vm_compute; reflexivity|vm_compute; reflexivity|left; vm_compute; reflexivity]
        | apply rsWrite; vm_compute; reflexivity | apply rsFlow; vm_compute; reflexivity
        | apply rsRead; vm_compute; [reflexivity|discriminate] ]] ].
Defined.
