(* ===== verification/UsqueTunnel.v ===== *)
(** * The tunnel of a MASQUE session ([src/usque-ios/api/tunnel.go], [masque.go])

    [MaintainTunnel] connects, starts two pumps, waits for the first error and
    connects again, until its context ends.  It and its pumps are programs of
    [Threads]; a pump starts some time after its [go] statement.  What the
    libraries of QUIC, HTTP/3, HTTP/2 and CONNECT-IP do, and what the device
    delivers, are answers of the environment.  The QUIC connection lives on its
    socket; hooks and log lines are left out.

    In HTTP/2 mode a connection has a client of its own, whose transport calls the
    dial function it was given whenever it wants a connection, on a goroutine of
    its own.  What a dial returns belongs to the transport, which may close it at
    any time; the code keeps no handle of it.

    A loop has fuel; a thread whose fuel is used up takes no further step, so that
    every finite run of the loop is a run of the model. *)

From stdpp Require Import base numbers list countable gmap sets.
From Stdlib Require Import ZArith Lia.
From S2P Require Import Prelude Threads.

(** ** State *)
Inductive part := PUDP | PTransport | PIP.
Inductive pumpKind := FromDevice | ToDevice.
#[global] Instance part_eq_dec : EqDecision part.
Proof. solve_decision. Defined.
#[global] Instance part_countable : Countable part.
Proof.
  refine (inj_countable' (fun p => match p with PUDP => 0 | PTransport => 1 | PIP => 2 end%nat)
            (fun n => match n with O => PUDP | 1 => PTransport | _ => PIP end%nat) _).
  by intros [].
Defined.
#[global] Instance pumpKind_eq_dec : EqDecision pumpKind.
Proof. solve_decision. Defined.
#[global] Instance pumpKind_countable : Countable pumpKind.
Proof.
  refine (inj_countable' (fun k => match k with FromDevice => true | ToDevice => false end)
            (fun b : bool => if b then FromDevice else ToDevice) _).
  by intros [].
Defined.

(** A pump: its [go] statement is still to come, it may start, it runs, it has
    sent its error, it has returned. *)
Inductive pumpState := PumpGo | PumpPending | PumpRunning | PumpSent | PumpDone.

Record mworld := mkMWorld {
  mCtxDone : bool;                               (* the context of the session *)
  mMaintaining : bool;                           (* MaintainTunnel has begun and has not returned *)
  mOpen : gset (part * nat);                     (* by connection *)
  mLive : option nat;                            (* the connection whose pumps are not cancelled *)
  mReady : bool;                                 (* what OnReady and OnError tell the session *)
  mPumps : gmap (pumpKind * nat) pumpState;
  mErrs : gmap nat (list pumpKind);              (* errChan of the connection: who sent *)
  mReadMu : gset nat;
  mBufs : nat;                                   (* buffers taken from the pool *)
  mClients : gmap nat bool;                      (* the HTTP/2 clients, and whether they go through a proxy *)
  mDialled : gset nat;                           (* TCP connections in the hands of a dial function *)
  mPooled : gmap nat nat;                        (* those its client's transport was given and has not closed *)
  mNext : nat
}.
#[global] Instance rebuild_mworld : Rebuild mworld := fun w =>
  mkMWorld (mCtxDone w) (mMaintaining w) (mOpen w) (mLive w) (mReady w) (mPumps w) (mErrs w) (mReadMu w) (mBufs w)
    (mClients w) (mDialled w) (mPooled w) (mNext w).
Definition mworld0 : mworld := mkMWorld false false ∅ None false ∅ ∅ ∅ 0 ∅ ∅ ∅ 0.

Definition errsOf (w : mworld) (c : nat) : list pumpKind := default [] (mErrs w !! c).

(** What [MaintainTunnel] holds of a connection: its handles, how far its pumps
    are, and whether the session was told to be ready. *)
Inductive pumpStage := NoPumps | LivePumps | EndedPumps.
Record held := mkHeld { hId : nat; hUDP : bool; hTransport : bool; hIP : bool; hPumps : pumpStage; hReady : bool }.
#[global] Instance rebuild_held : Rebuild held := fun h => mkHeld (hId h) (hUDP h) (hTransport h) (hIP h) (hPumps h) (hReady h).

Inductive dialError := AccessDenied | Retryable | OtherDial.

(** The arguments of type [held] say what is held when the action is done; they
    have no effect beyond the number of the connection. *)
Inductive maction : Set -> Type :=
  | ABegin : maction unit
  | AReturn : maction unit
  | APark : maction Empty_set
  | ACtxErr : maction bool
  | ASleepCtx : maction bool                                        (* it was cut short; when the time is over too, either wins *)
  | AListenUDP : maction (option nat)
  | AQuicDial : maction (option dialError)
  | ANewTransport (h : held) : maction unit
  | ADialIP (h : held) : maction (result dialError Z)               (* the status of the response *)
  | AProxyFromEnv : maction bool
  | ANewClient (proxied : bool) : maction nat
  | ADialTCP : maction (option nat)
  | AHandshake (conn : nat) : maction bool
  | AHandOver (client conn : nat) : maction unit                    (* what the dial function returns *)
  | ACloseTCP (conn : nat) : maction unit
  | ADialH2 (client : nat) : maction (result dialError (nat * Z))
  | AClose (p : part) (h : held) : maction unit
  | AOnReady (h : held) : maction unit
  | AOnError (h : option held) : maction unit
  | ANewPumps (h : held) : maction unit                             (* errChan, pumpCtx and the wait group *)
  | AGo (k : pumpKind) (c : nat) : maction unit
  | ARecvErr (c : nat) : maction unit
  | ACancelPumps (h : held) : maction unit
  | AWaitPumps (c : nat) : maction unit                             (* done, or the time of grace is over *)
  | AStartPump (k : pumpKind) (c : nat) : maction unit
  | APumpCtxErr (c : nat) : maction bool
  | ASendErr (k : pumpKind) (c : nat) : maction unit
  | AWgDone (k : pumpKind) (c : nat) (sent : bool) : maction unit
  | AGetBuf : maction unit
  | APutBuf : maction unit
  | ALockRead (c : nat) : maction unit
  | AUnlockRead (c : nat) : maction unit
  | AReadDevice : maction (option (list Z))
  | AWriteDevice (pkt : list Z) : maction (option bool)             (* an error, and whether it is a CloseError *)
  | AWritePacket (c : nat) (pkt : list Z) : maction (result bool (list Z))   (* the ICMP answer *)
  | AReadPacket (c : nat) : maction (result bool (list Z)).

Record manswer := mkMAnswer {
  anOk : bool; anDial : dialError; anStatus : Z; anPacket : list Z; anClose : bool
}.

Definition closePart (p : part) (c : nat) (w : mworld) : mworld := w <| mOpen ::= (fun o => o ∖ {[ (p, c) ]}) |>.
(** A request needs a connection of the client's transport. *)
Definition hasConn (client : nat) (w : mworld) : bool := existsb (fun p => (p.2 =? client)%nat) (map_to_list (mPooled w)).
Definition setPump (k : pumpKind) (c : nat) (s : pumpState) (w : mworld) : mworld := w <| mPumps ::= insert (k, c) s |>.

(** The channel of errors has room for two. *)
Definition errChanCap : nat := 2.

Definition mPerform {X : Set} (ans : manswer) (w : mworld) (a : maction X) : option (mworld * X) :=
  match a in maction X return option (mworld * X) with
  | ABegin => if mMaintaining w then None else Some (w <| mMaintaining := true |>, tt)
  | AReturn => Some (w <| mMaintaining := false |>, tt)
  | APark => None
  | ACtxErr => Some (w, mCtxDone w)
  | ASleepCtx => Some (w, mCtxDone w && anOk ans)
  | AListenUDP =>
      let c := mNext w in
      if anOk ans then Some (w <| mNext ::= S |> <| mOpen ::= union {[ (PUDP, c) ]} |>, Some c) else Some (w, None)
  | AQuicDial => Some (w, if anOk ans then None else Some (anDial ans))
  | ANewTransport h => Some (w <| mOpen ::= union {[ (PTransport, hId h) ]} |>, tt)
  | ADialIP h =>
      if anOk ans then Some (w <| mOpen ::= union {[ (PIP, hId h) ]} |>, Ok (anStatus ans)) else Some (w, Err (anDial ans))
  | AProxyFromEnv => Some (w, anOk ans)
  | ANewClient proxied => let c := mNext w in Some (w <| mNext ::= S |> <| mClients ::= insert c proxied |>, c)
  | ADialTCP =>
      let c := mNext w in
      if anOk ans then Some (w <| mNext ::= S |> <| mDialled ::= union {[ c ]} |>, Some c) else Some (w, None)
  | AHandshake _ => Some (w, anOk ans)
  | AHandOver client c => Some (w <| mDialled ::= (fun s => s ∖ {[ c ]}) |> <| mPooled ::= insert c client |>, tt)
  | ACloseTCP c => Some (w <| mDialled ::= (fun s => s ∖ {[ c ]}) |>, tt)
  | ADialH2 client =>
      let c := mNext w in
      if anOk ans && hasConn client w then Some (w <| mNext ::= S |> <| mOpen ::= union {[ (PIP, c) ]} |>, Ok (c, anStatus ans))
      else Some (w, Err (anDial ans))
  | AClose p h => Some (closePart p (hId h) w, tt)
  | AOnReady h => Some (w <| mReady := true |>, tt)
  | AOnError h => Some (w <| mReady := false |>, tt)
  | ANewPumps h =>
      let c := hId h in
      Some (setPump FromDevice c PumpGo (setPump ToDevice c PumpGo w) <| mLive := Some c |> <| mErrs ::= insert c [] |>, tt)
  | AGo k c => Some (setPump k c PumpPending w, tt)
  | ARecvErr c => match errsOf w c with [] => None | _ :: rest => Some (w <| mErrs ::= insert c rest |>, tt) end
  | ACancelPumps h => Some (w <| mLive := None |>, tt)
  | AWaitPumps c =>
      match mPumps w !! (FromDevice, c), mPumps w !! (ToDevice, c) with
      | Some PumpDone, Some PumpDone => Some (w, tt)
      | _, _ => if anOk ans then Some (w, tt) else None
      end
  | AStartPump k c => match mPumps w !! (k, c) with Some PumpPending => Some (setPump k c PumpRunning w, tt) | _ => None end
  | APumpCtxErr c => Some (w, mCtxDone w || negb (bool_decide (mLive w = Some c)))
  | ASendErr k c =>
      if (length (errsOf w c) <? errChanCap)%nat
      then Some (setPump k c PumpSent w <| mErrs ::= insert c (errsOf w c ++ [k]) |>, tt) else None
  | AWgDone k c _ => Some (setPump k c PumpDone w, tt)
  | AGetBuf => Some (w <| mBufs ::= S |>, tt)
  | APutBuf => Some (w <| mBufs ::= pred |>, tt)
  | ALockRead c => if decide (c ∈ mReadMu w) then None else Some (w <| mReadMu ::= union {[ c ]} |>, tt)
  | AUnlockRead c => Some (w <| mReadMu ::= (fun s => s ∖ {[ c ]}) |>, tt)
  | AReadDevice => Some (w, if anOk ans then Some (anPacket ans) else None)
  | AWriteDevice _ => Some (w, if anOk ans then None else Some (anClose ans))
  | AWritePacket _ _ | AReadPacket _ => Some (w, if anOk ans then Ok (anPacket ans) else Err (anClose ans))
  end.
#[global] Instance mActions : Actions maction mworld manswer := {| perform := @mPerform |}.

Open Scope prog_scope.
Abbreviation act := (act (acts:=maction)).

Definition park {A} : prog maction A := Act APark (fun e : Empty_set => match e with end).

(** ** Connecting *)

(** The handles [ConnectTunnel] returns, of one connection: which are not nil. *)
Record tunnelConn := mkTunnelConn { tcId : nat; tcUDP : bool; tcTransport : bool; tcIP : bool }.
Definition noConn : tunnelConn := mkTunnelConn 0 false false false.

Definition connectTunnelHTTP3 : prog maction (tunnelConn * result dialError Z) :=
  run udp <- act AListenUDP ;;
  match udp with
  | None => Ret (noConn, Err OtherDial)
  | Some c =>
      let h := mkHeld c true false false NoPumps false in
      run err <- act AQuicDial ;;
      match err with
      | Some e => act (AClose PUDP h) ;> Ret (noConn, Err e)
      | None =>
          act (ANewTransport h) ;>
          let h := h <| hTransport := true |> in
          run rsp <- act (ADialIP h) ;;
          match rsp with
          | Err e => act (AClose PTransport h) ;> act (AClose PUDP (h <| hTransport := false |>)) ;> Ret (noConn, Err e)
          | Ok status => Ret (mkTunnelConn c true true true, Ok status)
          end
      end
  end.

(** Two attempts; the second only after a failure that is worth it. *)
Fixpoint connectHTTP3 (attempts : nat) (lastErr : dialError) : prog maction (tunnelConn * result dialError Z) :=
  match attempts with
  | O => Ret (noConn, Err lastErr)
  | S attempts =>
      run r <- connectTunnelHTTP3 ;;
      match r.2 with
      | Ok status => Ret r
      | Err AccessDenied => Ret (noConn, Err AccessDenied)
      | Err Retryable => connectHTTP3 attempts Retryable
      | Err e => Ret (noConn, Err e)
      end
  end.

(** The client of a connection over HTTP/2, with its transport. *)
Definition newHTTP2Client : prog maction nat :=
  run proxied <- act AProxyFromEnv ;; act (ANewClient proxied).

(** The dial functions of its transport; the plain one is only there when the
    connection goes through a proxy. *)
Definition dialContext (client : nat) : prog maction unit :=
  run conn <- act ADialTCP ;;
  match conn with None => Ret tt | Some conn => act (AHandOver client conn) end.

Definition dialTLSContext (client : nat) : prog maction unit :=
  run conn <- act ADialTCP ;;
  match conn with
  | None => Ret tt
  | Some conn =>
      run ok <- act (AHandshake conn) ;;
      if (ok : bool) then act (AHandOver client conn) else act (ACloseTCP conn)
  end.

Definition ConnectTunnel (useHTTP2 endpointTCP : bool) : prog maction (tunnelConn * result dialError Z) :=
  if useHTTP2 then
    if negb endpointTCP then Ret (noConn, Err OtherDial)
    else
      run client <- newHTTP2Client ;;
      run r <- act (ADialH2 client) ;;
      match r with Ok (c, status) => Ret (mkTunnelConn c false false true, Ok status) | Err e => Ret (noConn, Err e) end
  else if endpointTCP then Ret (noConn, Err OtherDial)
  else connectHTTP3 2 OtherDial.

(** ** The pumps *)
Fixpoint deviceLoop (fuel c : nat) : prog maction unit :=
  match fuel with
  | O => park
  | S fuel =>
      run stop <- act (APumpCtxErr c) ;;
      if (stop : bool) then act (AWgDone FromDevice c false)
      else
        act AGetBuf ;> act (ALockRead c) ;>
        run packet <- act AReadDevice ;;
        act (AUnlockRead c) ;>
        match packet with
        | None => act APutBuf ;> act (ASendErr FromDevice c) ;> act (AWgDone FromDevice c true)
        | Some packet =>
            run stop <- act (APumpCtxErr c) ;;
            if (stop : bool) then act APutBuf ;> act (AWgDone FromDevice c false)
            else
              run icmp <- act (AWritePacket c packet) ;;
              match icmp with
              | Err close =>
                  act APutBuf ;>
                  if (close : bool) then act (ASendErr FromDevice c) ;> act (AWgDone FromDevice c true) else deviceLoop fuel c
              | Ok icmp =>
                  act APutBuf ;>
                  if bool_decide (icmp = []) then deviceLoop fuel c
                  else
                    run err <- act (AWriteDevice icmp) ;;
                    match err with
                    | Some true => act (ASendErr FromDevice c) ;> act (AWgDone FromDevice c true)
                    | _ => deviceLoop fuel c
                    end
              end
        end
  end.

Fixpoint connLoop (useHTTP2 : bool) (fuel c : nat) : prog maction unit :=
  match fuel with
  | O => park
  | S fuel =>
      run packet <- act (AReadPacket c) ;;
      match packet with
      | Err close =>
          if useHTTP2 || close then act (ASendErr ToDevice c) ;> act (AWgDone ToDevice c true) else connLoop useHTTP2 fuel c
      | Ok packet =>
          run err <- act (AWriteDevice packet) ;;
          match err with
          | Some _ => act (ASendErr ToDevice c) ;> act (AWgDone ToDevice c true)
          | None => connLoop useHTTP2 fuel c
          end
      end
  end.

Definition pump (useHTTP2 : bool) (k : pumpKind) (fuel c : nat) : prog maction unit :=
  act (AStartPump k c) ;> match k with FromDevice => deviceLoop fuel c | ToDevice => connLoop useHTTP2 fuel c end.

(** ** MaintainTunnel *)
Record MaintainTunnelConfig := mkMaintain { AlwaysReconnect : bool; UseHTTP2 : bool; endpointTCP : bool }.

Definition holding (t : tunnelConn) (stage : pumpStage) (ready : bool) : held :=
  mkHeld (tcId t) (tcUDP t) (tcTransport t) (tcIP t) stage ready.

Definition noIP (t : tunnelConn) : tunnelConn := mkTunnelConn (tcId t) (tcUDP t) (tcTransport t) false.
Definition noTransport (t : tunnelConn) : tunnelConn := mkTunnelConn (tcId t) (tcUDP t) false (tcIP t).

(** The handles that are not nil are closed in this order. *)
Definition closeIP (stage : pumpStage) (t : tunnelConn) : prog maction unit :=
  if tcIP t then act (AClose PIP (holding t stage false)) else Ret tt.

Definition closeTransport (stage : pumpStage) (t : tunnelConn) : prog maction unit :=
  (if tcTransport t then act (AClose PTransport (holding t stage false)) else Ret tt) ;>
  if tcUDP t then act (AClose PUDP (holding (noTransport t) stage false)) else Ret tt.

Definition sleepThen (again : prog maction unit) : prog maction unit :=
  run cut <- act ASleepCtx ;;
  if (cut : bool) then act AReturn else again.

(** One turn of the loop after the check of the context; [again] is the next. *)
Definition maintainTurn (cfg : MaintainTunnelConfig) (again : prog maction unit) : prog maction unit :=
  run r <- ConnectTunnel (UseHTTP2 cfg) (endpointTCP cfg) ;;
  let '(t, rsp) := r in
  let h := if tcIP t || tcTransport t || tcUDP t then Some (holding t NoPumps false) else None in
  match rsp with
  | Err e =>
      act (AOnError h) ;>
      closeIP NoPumps t ;> closeTransport NoPumps (noIP t) ;> sleepThen again
  | Ok status =>
      if negb (tcIP t) then park                                     (* a response comes with its connection *)
      else if negb (status =? 200) then
        act (AOnError h) ;>
        closeIP NoPumps t ;> closeTransport NoPumps (noIP t) ;> sleepThen again
      else
        act (AOnReady (holding t NoPumps false)) ;>
        act (ANewPumps (holding t NoPumps true)) ;>
        act (AGo FromDevice (tcId t)) ;> act (AGo ToDevice (tcId t)) ;>
        act (ARecvErr (tcId t)) ;>
        act (AOnError (Some (holding t LivePumps true))) ;>
        act (ACancelPumps (holding t LivePumps false)) ;>
        closeIP EndedPumps t ;>
        act (AWaitPumps (tcId t)) ;>
        closeTransport EndedPumps (noIP t) ;> sleepThen again
  end.

Fixpoint maintainLoop (cfg : MaintainTunnelConfig) (turns : nat) : prog maction unit :=
  match turns with
  | O => park
  | S turns =>
      run cancelled <- act ACtxErr ;;
      if (cancelled : bool) then act AReturn
      else if negb (AlwaysReconnect cfg) then
        act AGetBuf ;>
        run packet <- act AReadDevice ;;
        match packet with
        | None =>
            act APutBuf ;> sleepThen (maintainLoop cfg turns)
        | Some _ => act APutBuf ;> maintainTurn cfg (maintainLoop cfg turns)
        end
      else maintainTurn cfg (maintainLoop cfg turns)
  end.

Definition MaintainTunnel (cfg : MaintainTunnelConfig) (turns : nat) : prog maction unit :=
  act ABegin ;>
  if negb (eqb (UseHTTP2 cfg) (endpointTCP cfg)) then act (AOnError None) ;> act AReturn else maintainLoop cfg turns.

(** ** Runs *)
Inductive mevent :=
  | MMaintain (turns : nat)
  | MPump (k : pumpKind) (fuel c : nat)
  | MCancel
  | MDial (client : nat) (tls : bool)              (* the transport of a client wants a connection *)
  | MTransportClose (conn : nat)
  | MRun (i : nat) (ans : manswer).
Abbreviation mstate := (threads mworld maction unit).
Definition mstate0 : mstate := mkThreads mworld0 [].

Definition mApply (cfg : MaintainTunnelConfig) (st : mstate) (ev : mevent) : mstate :=
  match ev with
  | MMaintain turns => spawn (MaintainTunnel cfg turns) st
  | MPump k fuel c => spawn (pump (UseHTTP2 cfg) k fuel c) st
  | MCancel => mkThreads (shared st <| mCtxDone := true |>) (pool st)
  | MDial client tls =>
      match mClients (shared st) !! client with
      | Some proxied => if tls || proxied then spawn (if tls then dialTLSContext client else dialContext client) st else st
      | None => st
      end
  | MTransportClose c => mkThreads (shared st <| mPooled ::= delete c |>) (pool st)
  | MRun i ans => runThread i ans st
  end.

Definition mReachable (cfg : MaintainTunnelConfig) (st : mstate) : Prop := exists evs, st = fold_left (mApply cfg) evs mstate0.

(** ** Ownership *)
Inductive mtoken :=
  | TSup (h : option held)                               (* what MaintainTunnel holds, once it has begun *)
  | TPump (k : pumpKind) (c : nat) (s : pumpState)       (* a pump to start, to end, or to send its error *)
  | TRead (c : nat)
  | TDial (conn : nat)                                   (* a connection a dial function has not returned *)
  | TBuf.

Definition hasPart (p : part) (h : held) : bool := match p with PUDP => hUDP h | PTransport => hTransport h | PIP => hIP h end.
Definition dropPart (p : part) (h : held) : option held :=
  let h := match p with
           | PUDP => h <| hUDP := false |>
           | PTransport => h <| hTransport := false |>
           | PIP => h <| hIP := false |>
           end in
  if hUDP h || hTransport h || hIP h then Some h else None.
Definition told (b : bool) (h : held) : held := h <| hReady := b |>.

#[global] Instance mSignature : Signature maction mtoken := {|
  consumes X a :=
    match a with
    | AReturn | AListenUDP | ADialH2 _ => [TSup None]
    | AHandOver _ c | ACloseTCP c => [TDial c]
    | ANewTransport h | ADialIP h | AClose _ h | AOnReady h | ANewPumps h | ACancelPumps h => [TSup (Some h)]
    | AOnError h => [TSup h]
    | AGo k c => [TPump k c PumpGo]
    | ASendErr k c => [TPump k c PumpRunning]
    | AWgDone k c sent => [TPump k c (if sent then PumpSent else PumpRunning)]
    | APutBuf => [TBuf]
    | AUnlockRead c => [TRead c]
    | _ => []
    end;
  produces X a :=
    match a in maction X return X -> list mtoken with
    | ABegin => fun _ => [TSup None]
    | AListenUDP => fun o => [TSup (match o with Some c => Some (mkHeld c true false false NoPumps false) | None => None end)]
    | ANewTransport h => fun _ => [TSup (Some (h <| hTransport := true |>))]
    | ADialIP h => fun r => [TSup (Some (match r with Ok _ => h <| hIP := true |> | Err _ => h end))]
    | ADialTCP => fun o => optToken TDial o
    | ADialH2 _ => fun r => [TSup (match r with Ok (c, _) => Some (mkHeld c false false true NoPumps false) | Err _ => None end)]
    | AClose p h => fun _ => [TSup (dropPart p h)]
    | AOnReady h => fun _ => [TSup (Some (told true h))]
    | AOnError h => fun _ => [TSup (told false <$> h)]
    | ANewPumps h => fun _ =>
        [TSup (Some (h <| hPumps := LivePumps |>)); TPump FromDevice (hId h) PumpGo; TPump ToDevice (hId h) PumpGo]
    | ACancelPumps h => fun _ => [TSup (Some (h <| hPumps := EndedPumps |>))]
    | AStartPump k c => fun _ => [TPump k c PumpRunning]
    | ASendErr k c => fun _ => [TPump k c PumpSent]
    | AGetBuf => fun _ => [TBuf]
    | ALockRead c => fun _ => [TRead c]
    | _ => fun _ => []
    end;
  allowed X a :=
    match a with
    | AClose p h => hasPart p h = true /\ hPumps h <> LivePumps /\ hReady h = false
    | ADialIP h | ANewTransport h => hPumps h = NoPumps
    | AOnReady h => hIP h = true
    | ANewPumps h => hIP h = true /\ hPumps h = NoPumps
    | _ => True
    end
|}.

(** The handles of a connection as a token. *)
Definition connHeld (stage : pumpStage) (t : tunnelConn) : option held :=
  if tcIP t || tcTransport t || tcUDP t then Some (holding t stage false) else None.

Lemma park_typed {A} R (Q : A -> list mtoken) : typed R park Q.
Proof. split; [done|]. exists R. split; [done|]. intros []. Qed.
#[local] Hint Resolve park_typed : core.

(** A failed attempt holds nothing. *)
Lemma connectTunnelHTTP3_typed :
  typed [TSup None] connectTunnelHTTP3 (fun r => [TSup (match r.2 with Ok _ => connHeld NoPumps r.1 | Err _ => None end)]).
Proof.
  unfold connectTunnelHTTP3. tstep. destruct x as [c|]; [|done]. tfree. destruct x as [e|]; [by tstep|].
  tstep. apply (typed_act _ _ []); [done|done|]. intros [st|e]; [done|]. cbn [produces app].
  apply (typed_act _ _ []); [done|done|]. intros []. by tstep.
Qed.

Lemma connectHTTP3_typed n e :
  typed [TSup None] (connectHTTP3 n e) (fun r => [TSup (connHeld NoPumps r.1)]).
Proof.
  revert e. induction n as [|n IH]; intros e; cbn [connectHTTP3]; [done|].
  eapply typed_bind; [apply connectTunnelHTTP3_typed|]. intros [t [st|[]]]; cbn [snd fst]; [done..| |done]. apply IH.
Qed.

Lemma newHTTP2Client_typed : typed [] newHTTP2Client (fun _ => []).
Proof. unfold newHTTP2Client. tfree. by apply typed_last. Qed.

Lemma ConnectTunnel_typed h2 tcp : typed [TSup None] (ConnectTunnel h2 tcp) (fun r => [TSup (connHeld NoPumps r.1)]).
Proof.
  unfold ConnectTunnel. destruct h2; [|destruct tcp; [done|apply connectHTTP3_typed]]. destruct tcp; cbn [negb]; [|done].
  apply typed_bind_nil; [apply newHTTP2Client_typed|]. intros client. tstep. by destruct x as [[c st]|e].
Qed.

Lemma dialTLSContext_typed client : typed [] (dialTLSContext client) (fun _ => []).
Proof. unfold dialTLSContext. tfree. destruct x as [c|]; [|done]. tfree. destruct x; by apply typed_last. Qed.

Lemma dialContext_typed client : typed [] (dialContext client) (fun _ => []).
Proof. unfold dialContext. tfree. destruct x as [c|]; [|done]. by apply typed_last. Qed.

Lemma sendEnd_typed k c : typed [TPump k c PumpRunning] (act (ASendErr k c) ;> act (AWgDone k c true)) (fun _ => []).
Proof. tstep. by apply typed_last. Qed.

Lemma putThen_typed {A} R (p : prog maction A) Q : typed R p Q -> typed (TBuf :: R) (act APutBuf ;> p) Q.
Proof. intros Hp. apply (typed_act _ _ R); [done|done|]. by intros []. Qed.

Lemma deviceLoop_typed fuel c : typed [TPump FromDevice c PumpRunning] (deviceLoop fuel c) (fun _ => []).
Proof.
  induction fuel as [|fuel IH]; cbn [deviceLoop]; [apply park_typed|].
  tfree. destruct x; [by apply typed_last|]. tfree. tfree. tfree. tpay [TBuf; TPump FromDevice c PumpRunning].
  change (produces _ _ ++ ?R) with R. destruct x as [packet|]; [|apply putThen_typed, sendEnd_typed].
  tfree. destruct x; [apply putThen_typed; by apply typed_last|]. tfree. destruct x as [icmp|close]; apply putThen_typed.
  - case_bool_decide; [exact IH|]. tfree. destruct x as [[]|]; [apply sendEnd_typed|exact IH..].
  - destruct close; [apply sendEnd_typed|exact IH].
Qed.

Lemma connLoop_typed h2 fuel c : typed [TPump ToDevice c PumpRunning] (connLoop h2 fuel c) (fun _ => []).
Proof.
  induction fuel as [|fuel IH]; cbn [connLoop]; [apply park_typed|].
  tfree. destruct x as [packet|close]; [|destruct (h2 || close); [apply sendEnd_typed|exact IH]].
  tfree. destruct x; [apply sendEnd_typed|exact IH].
Qed.

Lemma pump_typed h2 k fuel c : typed [] (pump h2 k fuel c) (fun _ => []).
Proof. unfold pump. tfree. destruct k; [apply deviceLoop_typed|apply connLoop_typed]. Qed.

Lemma sleepThen_typed again : typed [TSup None] again (fun _ => []) -> typed [TSup None] (sleepThen again) (fun _ => []).
Proof. intros Ha. unfold sleepThen. tfree. destruct x; [by apply typed_last|exact Ha]. Qed.

(** Closing what is left of a connection. *)
Lemma closeIP_typed stage t :
  stage <> LivePumps -> typed [TSup (connHeld stage t)] (closeIP stage t) (fun _ => [TSup (connHeld stage (noIP t))]).
Proof.
  intros Hs. destruct t as [c u tr i]. unfold closeIP. cbn [tcIP]. destruct i; [|done].
  apply typed_last; [done|done|]. intros []. by destruct u, tr.
Qed.

Lemma closeTransport_typed stage t :
  stage <> LivePumps -> typed [TSup (connHeld stage (noIP t))] (closeTransport stage (noIP t)) (fun _ => [TSup None]).
Proof.
  intros Hs. destruct t as [c u tr i]. unfold closeTransport, noIP. cbn [tcTransport tcUDP].
  eapply (typed_bind _ _ (fun _ => [TSup (connHeld stage (mkTunnelConn c u false false))])).
  - destruct tr; [|done]. apply typed_last; [done|done|]. intros []. by destruct u.
  - intros []. destruct u; [|done]. by apply typed_last.
Qed.

Lemma closeAll_typed again t :
  typed [TSup None] again (fun _ => []) ->
  typed [TSup (connHeld NoPumps t)] (closeIP NoPumps t ;> closeTransport NoPumps (noIP t) ;> sleepThen again) (fun _ => []).
Proof.
  intros Ha. eapply typed_bind; [by apply closeIP_typed|]. intros [].
  eapply typed_bind; [by apply closeTransport_typed|]. intros []. by apply sleepThen_typed.
Qed.

Lemma maintainTurn_typed cfg again :
  typed [TSup None] again (fun _ => []) -> typed [TSup None] (maintainTurn cfg again) (fun _ => []).
Proof.
  intros Ha. unfold maintainTurn. eapply typed_bind; [apply ConnectTunnel_typed|]. intros [t rsp]. cbn [fst].
  change (if tcIP t || tcTransport t || tcUDP t then Some (holding t NoPumps false) else None) with (connHeld NoPumps t).
  assert (Herr : typed [TSup (connHeld NoPumps t)]
            (act (AOnError (connHeld NoPumps t)) ;> closeIP NoPumps t ;> closeTransport NoPumps (noIP t) ;> sleepThen again) (fun _ => [])).
  { apply (typed_act _ _ []); [done|done|]. intros []. cbn [produces app].
    apply (typed_perm [TSup (connHeld NoPumps t)]); [|by apply closeAll_typed]. unfold connHeld. by destruct (_ || _). }
  destruct rsp as [st|e]; [|exact Herr]. destruct (tcIP t) eqn:e; [|apply park_typed]. cbn [negb].
  destruct (st =? 200); cbn [negb]; [|exact Herr].
  assert (Hc : forall stage, connHeld stage t = Some (holding t stage false)) by (intros stage; unfold connHeld; by rewrite e).
  rewrite Hc. apply (typed_act _ _ []); [done|done|]. intros [].
  apply (typed_act _ _ []); [by split|done|]. intros [].
  apply (typed_act _ _ [TSup (Some (holding t LivePumps true)); TPump ToDevice (tcId t) PumpGo]); [done|by apply Permutation_swap|]. intros [].
  apply (typed_act _ _ [TSup (Some (holding t LivePumps true))]); [done|apply Permutation_swap|]. intros [].
  apply (typed_act _ _ [TSup (Some (holding t LivePumps true))]); [done|done|]. intros [].
  apply (typed_act _ _ []); [done|done|]. intros []. apply (typed_act _ _ []); [done|done|]. intros [].
  eapply typed_bind; [eapply typed_perm; [|by apply (closeIP_typed EndedPumps t)]; by rewrite Hc|]. intros [].
  apply (typed_act _ _ [TSup (connHeld EndedPumps (noIP t))]); [done|done|]. intros [].
  eapply typed_bind; [by apply closeTransport_typed|]. intros []. by apply sleepThen_typed.
Qed.

Lemma maintainLoop_typed cfg turns : typed [TSup None] (maintainLoop cfg turns) (fun _ => []).
Proof.
  induction turns as [|turns IH]; cbn [maintainLoop]; [apply park_typed|].
  tfree. destruct x; [by apply typed_last|]. destruct (negb _); [|by apply maintainTurn_typed].
  tfree. tfree. destruct x; apply putThen_typed; [by apply maintainTurn_typed|by apply sleepThen_typed].
Qed.

Lemma MaintainTunnel_typed cfg turns : typed [] (MaintainTunnel cfg turns) (fun _ => []).
Proof.
  unfold MaintainTunnel. tfree. destruct (negb _); [|apply maintainLoop_typed].
  apply (typed_act _ _ []); [done|done|]. intros []. by apply typed_last.
Qed.

(** ** The accounting *)
Definition sups (T : list mtoken) : list (option held) := omap (fun t => match t with TSup h => Some h | _ => None end) T.
Definition pumpsOf (T : list mtoken) : list (pumpKind * nat * pumpState) :=
  omap (fun t => match t with TPump k c s => Some (k, c, s) | _ => None end) T.
Definition readsOf (T : list mtoken) : list nat := omap (fun t => match t with TRead c => Some c | _ => None end) T.
Definition dialsOf (T : list mtoken) : list nat := omap (fun t => match t with TDial c => Some c | _ => None end) T.
Definition bufsOf (T : list mtoken) : list unit := omap (fun t => match t with TBuf => Some tt | _ => None end) T.

(** The world is what is held of the connection. *)
Definition heldOk (h : option held) (w : mworld) : Prop :=
  match h with
  | None => mOpen w = ∅ /\ mLive w = None /\ mReady w = false
  | Some h =>
      (forall p c, (p, c) ∈ mOpen w <-> c = hId h /\ hasPart p h = true) /\
      mLive w = (match hPumps h with LivePumps => Some (hId h) | _ => None end) /\ mReady w = hReady h /\
      (hReady h = true \/ hPumps h = LivePumps -> hIP h = true) /\ (hId h < mNext w)%nat /\
      (hPumps h = NoPumps -> forall k, mPumps w !! (k, hId h) = None)
  end.

Definition SupAcc (l : list (option held)) (w : mworld) : Prop :=
  exists h, l = (if mMaintaining w then [h] else []) /\ heldOk (if mMaintaining w then h else None) w.

Definition withToken (s : pumpState) : bool := match s with PumpGo | PumpRunning | PumpSent => true | _ => false end.

Record PumpAcc (l : list (pumpKind * nat * pumpState)) (w : mworld) : Prop := {
  pa_nodup : NoDup l.*1;
  pa_tokens : forall k c s, (k, c, s) ∈ l <-> mPumps w !! (k, c) = Some s /\ withToken s = true;
  pa_bound : forall k c s, mPumps w !! (k, c) = Some s -> (c < mNext w)%nat;
  pa_errs_nodup : forall c, NoDup (errsOf w c);
  pa_errs : forall c k, k ∈ errsOf w c -> mPumps w !! (k, c) = Some PumpSent \/ mPumps w !! (k, c) = Some PumpDone
}.

Record DialAcc (l : list nat) (w : mworld) : Prop := {
  da_nodup : NoDup l;
  da_tokens : forall c, c ∈ l <-> c ∈ mDialled w;
  da_bound : forall c, c ∈ mDialled w \/ is_Some (mPooled w !! c) -> (c < mNext w)%nat;
  da_apart : forall c, c ∈ mDialled w -> mPooled w !! c = None
}.

Record mAcc (T : list mtoken) (w : mworld) : Prop := {
  ma_sup : SupAcc (sups T) w;
  ma_pumps : PumpAcc (pumpsOf T) w;
  ma_reads_nodup : NoDup (readsOf T);
  ma_reads : forall c, c ∈ readsOf T <-> c ∈ mReadMu w;
  ma_bufs : length (bufsOf T) = mBufs w;
  ma_dials : DialAcc (dialsOf T) w
}.

Lemma mAcc_perm T T' w : T ≡ₚ T' -> mAcc T w -> mAcc T' w.
Proof.
  intros HT [(h & Hs & Hh) [P1 P2 P3 P4 P5] R1 R2 B D].
  assert (Hsup : sups T ≡ₚ sups T') by (unfold sups; by rewrite HT).
  assert (Hp : pumpsOf T ≡ₚ pumpsOf T') by (unfold pumpsOf; by rewrite HT).
  assert (Hr : readsOf T ≡ₚ readsOf T') by (unfold readsOf; by rewrite HT).
  assert (Hb : bufsOf T ≡ₚ bufsOf T') by (unfold bufsOf; by rewrite HT).
  assert (Hd : dialsOf T ≡ₚ dialsOf T') by (unfold dialsOf; by rewrite HT).
  split.
  - exists h. split; [|done]. rewrite Hs in Hsup. destruct (mMaintaining w).
    + symmetry in Hsup. by apply Permutation_singleton_r in Hsup.
    + symmetry in Hsup. by apply Permutation_nil_r in Hsup.
  - split; try done; [by rewrite <- Hp|]. intros k c s. by rewrite <- Hp.
  - by rewrite <- Hr.
  - intros c. by rewrite <- Hr.
  - by rewrite <- Hb.
  - destruct D as [D1 D2 D3 D4]. split; [by rewrite <- Hd| |done..]. intros c. by rewrite <- Hd.
Qed.

(** *** What a part of the world does not see *)
Lemma SupAcc_keep l w w' :
  mMaintaining w' = mMaintaining w -> mOpen w' = mOpen w -> mLive w' = mLive w -> mReady w' = mReady w ->
  (mNext w <= mNext w')%nat -> (forall k c, (c < mNext w)%nat -> mPumps w !! (k, c) = None -> mPumps w' !! (k, c) = None) ->
  SupAcc l w -> SupAcc l w'.
Proof.
  intros H1 H2 H3 H4 H5 H6 (h & Hl & Hh). exists h. rewrite H1. split; [done|]. unfold heldOk in *. rewrite H2, H3, H4.
  destruct (if mMaintaining w then h else None); [|done]. destruct Hh as (? & ? & ? & ? & ? & ?).
  split_and!; try done; [lia|]. auto.
Qed.

Lemma PumpAcc_keep l w w' :
  mPumps w' = mPumps w -> mErrs w' = mErrs w -> (mNext w <= mNext w')%nat -> PumpAcc l w -> PumpAcc l w'.
Proof.
  intros H1 H2 H3 [A B C D E]. unfold errsOf in *. split; intros *; unfold errsOf; rewrite ?H1, ?H2; [exact A|apply B| |apply D|apply E].
  intros Hs. apply C in Hs. lia.
Qed.

Lemma DialAcc_keep l w w' :
  mDialled w' = mDialled w -> mPooled w' = mPooled w -> (mNext w <= mNext w')%nat -> DialAcc l w -> DialAcc l w'.
Proof.
  intros H1 H2 H3 [A B C D]. split; [done|intros c; by rewrite H1| |intros c; rewrite H1, H2; apply D].
  intros c. rewrite H1, H2. intros Hc. apply C in Hc. lia.
Qed.

(** MaintainTunnel has exactly one token. *)
Lemma SupAcc_head h l w : SupAcc (h :: l) w -> mMaintaining w = true /\ l = [] /\ heldOk h w.
Proof.
  intros (h' & Hl & Hh). destruct (mMaintaining w); [|done]. by simplify_eq.
Qed.

Lemma SupAcc_one h w : mMaintaining w = true -> heldOk h w -> SupAcc [h] w.
Proof. intros Hm Hh. exists h. by rewrite Hm. Qed.

(** *** The steps of a pump *)
Lemma PumpAcc_step k c s s' l w w' (es : list pumpKind) :
  PumpAcc ((k, c, s) :: l) w -> mPumps w' = <[(k, c) := s']> (mPumps w) -> mNext w' = mNext w ->
  (forall c', errsOf w' c' = if decide (c' = c) then es else errsOf w c') ->
  NoDup es -> (forall k', k' ∈ es -> k' = k /\ (s' = PumpSent \/ s' = PumpDone) \/ k' <> k /\ k' ∈ errsOf w c) ->
  PumpAcc (if withToken s' then (k, c, s') :: l else l) w'.
Proof.
  intros [A B C D E] Hp Hn He Hes Hin. apply NoDup_cons in A as [A1 A2].
  assert (Hs : mPumps w !! (k, c) = Some s) by (apply B; by left).
  assert (Hl : forall s0, (k, c, s0) ∉ l) by (intros s0 H0; apply A1, list_elem_of_fmap; by exists (k, c, s0)).
  split; rewrite ?Hn.
  - destruct (withToken s'); [|done]. by apply NoDup_cons.
  - intros k' c' s''. rewrite Hp, lookup_insert_Some.
    destruct (decide ((k', c') = (k, c))) as [[= -> ->]|Hne].
    + destruct (withToken s') eqn:e; split.
      * intros [[= ->]|H0]%elem_of_cons; [by auto|by apply Hl in H0].
      * intros [[[_ ->]|[? _]] _]; [by left|done].
      * intros H0. by apply Hl in H0.
      * intros [[[_ ->]|[? _]] Ht]; congruence.
    + assert (Hrest : (k', c', s'') ∈ (if withToken s' then (k, c, s') :: l else l) <-> (k', c', s'') ∈ (k, c, s) :: l).
      { destruct (withToken s'); rewrite ?elem_of_cons; (split; [intros H0; right|intros [?|H0]]); try done; try congruence.
        - destruct H0; [congruence|done].
        - by right. }
      rewrite Hrest, B. split; [intros [H0 Ht]; split; [by right|done]|intros [[[? _]|[_ H0]] Ht]; [congruence|done]].
  - intros k' c' s''. rewrite Hp, lookup_insert_Some. intros [[[= -> ->] _]|[_ H0]]; by eapply C.
  - intros c'. rewrite He. by case_decide.
  - intros c' k'. rewrite He, Hp. case_decide as e.
    + subst c'. intros Hk. apply Hin in Hk as [[-> Hs']|[Hne Hk]].
      * rewrite lookup_insert_eq. naive_solver.
      * rewrite lookup_insert_ne by congruence. by apply E.
    + rewrite lookup_insert_ne by congruence. apply E.
Qed.

Lemma mAcc_sup h h' F w w' :
  mPumps w' = mPumps w -> mErrs w' = mErrs w -> mReadMu w' = mReadMu w -> mBufs w' = mBufs w -> (mNext w <= mNext w')%nat ->
  mMaintaining w' = mMaintaining w -> mDialled w' = mDialled w -> mPooled w' = mPooled w -> (heldOk h w -> heldOk h' w') -> mAcc (TSup h :: F) w -> mAcc (TSup h' :: F) w'.
Proof.
  intros H1 H2 H3 H4 H5 H6 H7 H8 Hh [A P R1 R2 B D]. destruct (SupAcc_head h (sups F) w A) as (Hm & HF & Hk). split.
  - change (SupAcc (h' :: sups F) w'). rewrite HF. apply SupAcc_one; [congruence|by apply Hh].
  - by eapply PumpAcc_keep.
  - exact R1.
  - intros c. rewrite H3. apply R2.
  - by rewrite H4.
  - by eapply DialAcc_keep.
Qed.

(** A pump moves on. *)
Lemma mAcc_pump k c s s' F w w' es :
  mPumps w' = <[(k, c) := s']> (mPumps w) -> mNext w' = mNext w -> mReadMu w' = mReadMu w -> mBufs w' = mBufs w ->
  mMaintaining w' = mMaintaining w -> mOpen w' = mOpen w -> mLive w' = mLive w -> mReady w' = mReady w ->
  mDialled w' = mDialled w -> mPooled w' = mPooled w ->
  (forall c', errsOf w' c' = if decide (c' = c) then es else errsOf w c') -> NoDup es ->
  (forall k', k' ∈ es -> k' = k /\ (s' = PumpSent \/ s' = PumpDone) \/ k' <> k /\ k' ∈ errsOf w c) ->
  mAcc (TPump k c s :: F) w -> mAcc (if withToken s' then TPump k c s' :: F else F) w'.
Proof.
  intros H1 H2 H3 H4 H5 H6 H7 H8 H9 H10 He Hes Hin [A P R1 R2 B D].
  assert (Hs : mPumps w !! (k, c) = Some s) by (apply (pa_tokens _ _ P); by left).
  assert (Hsup : SupAcc (sups F) w').
  { eapply (SupAcc_keep _ w); try done; [by rewrite H2|]. intros k' c' _ Hnone. rewrite H1, lookup_insert_ne by congruence. done. }
  assert (HP : PumpAcc (if withToken s' then (k, c, s') :: pumpsOf F else pumpsOf F) w') by (by eapply PumpAcc_step).
  assert (HD : DialAcc (dialsOf F) w') by (eapply (DialAcc_keep _ w); [done..|by rewrite H2|exact D]).
  destruct (withToken s'); (split; [exact Hsup|exact HP|exact R1|intros c'; rewrite H3; apply R2|by rewrite H4|exact HD]).
Qed.

(** Nothing was sent by a pump before its error. *)
Lemma not_sent k c s F w :
  mAcc (TPump k c s :: F) w -> s <> PumpSent -> k ∉ errsOf w c.
Proof.
  intros [_ [_ P2 _ _ P5] _ _ _ _] Hne Hk. assert (Hs : mPumps w !! (k, c) = Some s) by (apply P2; by left).
  apply P5 in Hk. rewrite Hs in Hk. destruct Hk as [[= ->]|[= ->]]; [done|].
  assert (Ht : withToken PumpDone = true) by (apply (P2 k c); by left). done.
Qed.

(** A pump that changes its state and leaves the channel alone. *)
Lemma mAcc_move k c s s' F w :
  (s <> PumpSent \/ s' = PumpDone) -> mAcc (TPump k c s :: F) w ->
  mAcc (if withToken s' then TPump k c s' :: F else F) (setPump k c s' w).
Proof.
  intros Hs HA. apply (mAcc_pump k c s s' F w (setPump k c s' w) (errsOf w c)); try done.
  - intros c'. cbn. by case_decide as e; [subst c'|].
  - apply (ma_pumps _ _ HA).
  - intros k' Hk. destruct (decide (k' = k)) as [->|]; [|by right]. destruct Hs as [Hs|Hs]; [|by left; auto].
    by apply (not_sent _ _ _ _ _ HA Hs) in Hk.
Qed.

(** *** What is held, step by step *)
Ltac held_fields := unfold heldOk in *; cbn in *.

Lemma held_open p h w w' :
  hPumps h = NoPumps ->
  mOpen w' = {[ (p, hId h) ]} ∪ mOpen w -> mLive w' = mLive w -> mReady w' = mReady w -> mNext w' = mNext w -> mPumps w' = mPumps w ->
  heldOk (Some h) w ->
  heldOk (Some (match p with PUDP => h <| hUDP := true |> | PTransport => h <| hTransport := true |> | PIP => h <| hIP := true |> end)) w'.
Proof.
  intros Hst Ho Hl Hr Hn Hpu (A & B & C & D & E & F). unfold heldOk. rewrite Ho, Hl, Hr, Hn, Hpu.
  assert (Hopen : forall q c, (q, c) ∈ {[ (p, hId h) ]} ∪ mOpen w <-> c = hId h /\ (q = p \/ hasPart q h = true)).
  { intros q c. rewrite elem_of_union, elem_of_singleton, A. naive_solver. }
  destruct p; cbn; (split_and!; [|done|done|by intros; auto|done|done]); intros q c; rewrite Hopen; destruct q; cbn in *; naive_solver.
Qed.

Lemma held_new p c w w' :
  mNext w' = S c -> mNext w = c -> mOpen w' = {[ (p, c) ]} ∪ mOpen w -> mLive w' = mLive w -> mReady w' = mReady w -> mPumps w' = mPumps w ->
  (forall k, mPumps w !! (k, c) = None) -> heldOk None w ->
  heldOk (Some (mkHeld c (bool_decide (p = PUDP)) (bool_decide (p = PTransport)) (bool_decide (p = PIP)) NoPumps false)) w'.
Proof.
  intros Hn Hc Ho Hl Hr Hpu Hno (A & B & C). unfold heldOk. rewrite Ho, Hl, Hr, Hn, Hpu, A, B, C. cbn. split_and!; try done; [|naive_solver|lia].
  intros q x. rewrite elem_of_union, elem_of_singleton. destruct p, q; cbn; set_solver.
Qed.

Lemma held_close p h w :
  hasPart p h = true -> hPumps h <> LivePumps -> hReady h = false -> heldOk (Some h) w -> heldOk (dropPart p h) (closePart p (hId h) w).
Proof.
  intros Hp Hs Hr (A & B & C & D & E & F).
  assert (Hopen : forall q c, (q, c) ∈ mOpen (closePart p (hId h) w) <-> c = hId h /\ hasPart q h = true /\ q <> p).
  { intros q c. cbn. rewrite elem_of_difference, elem_of_singleton, A. naive_solver. }
  unfold dropPart. destruct (_ || _) eqn:e.
  - unfold heldOk. split_and!; [|by destruct p|by destruct p| |by destruct p|by destruct p].
    + intros q c. rewrite Hopen. destruct p, q; cbn in *; naive_solver.
    + destruct p; cbn; intros [?|?]; congruence.
  - unfold heldOk. split_and!.
    + apply set_eq. intros [q c]. rewrite Hopen. split; [|set_solver]. intros (_ & Hq & Hne). exfalso.
      destruct p, q; cbn in *; try done; rewrite Hq, ?orb_true_r in e; done.
    + cbn. rewrite B. by destruct (hPumps h).
    + cbn. by rewrite C.
Qed.

(** The [go] statements of a connection without pumps. *)
Lemma new_pumps_acc h F w :
  hIP h = true -> hPumps h = NoPumps -> mAcc (TSup (Some h) :: F) w ->
  mAcc ([TSup (Some (h <| hPumps := LivePumps |>)); TPump FromDevice (hId h) PumpGo; TPump ToDevice (hId h) PumpGo] ++ F)
    (setPump FromDevice (hId h) PumpGo (setPump ToDevice (hId h) PumpGo w) <| mLive := Some (hId h) |> <| mErrs ::= insert (hId h) [] |>).
Proof.
  intros HIP Hst [A [P1 P2 P3 P4 P5] R1 R2 B D]. set (c := hId h) in *.
  destruct (SupAcc_head (Some h) (sups F) w A) as (Hm & HF & H1 & H2 & H3 & H4 & H5 & H6). specialize (H6 Hst).
  assert (Hno : forall k s, (k, c, s) ∉ pumpsOf F).
  { intros k s Hk. change (pumpsOf (TSup (Some h) :: F)) with (pumpsOf F) in P2. apply P2 in Hk as [Hk _]. by rewrite H6 in Hk. }
  assert (Hkeys : forall k, (k, c) ∉ (pumpsOf F).*1).
  { intros k ([[k' c'] s] & [= <- <-] & Hk)%list_elem_of_fmap. by apply Hno in Hk. }
  split; [| |exact R1|intros c'; apply R2|exact B|by apply (DialAcc_keep _ w)].
  - cbn [app]. change (SupAcc (Some (h <| hPumps := LivePumps |>) :: sups F)
      (setPump FromDevice c PumpGo (setPump ToDevice c PumpGo w) <| mLive := Some c |> <| mErrs ::= insert c [] |>)).
    rewrite HF. apply SupAcc_one; [done|]. unfold heldOk. cbn. by split_and!.
  - change (PumpAcc ((FromDevice, c, PumpGo) :: (ToDevice, c, PumpGo) :: pumpsOf F)
      (setPump FromDevice c PumpGo (setPump ToDevice c PumpGo w) <| mLive := Some c |> <| mErrs ::= insert c [] |>)).
    split.
    + cbn. apply NoDup_cons. split; [rewrite elem_of_cons; intros [?|Hk]; [done|by apply Hkeys in Hk]|].
      apply NoDup_cons. by split; [apply Hkeys|].
    + intros k c' s. cbn. rewrite !elem_of_cons, !lookup_insert_Some. change (pumpsOf F) with (pumpsOf (TSup (Some h) :: F)). rewrite P2.
      destruct (decide (c' = c)) as [->|Hne].
      * rewrite H6. destruct k; (split; [intros [[= ->]|[[= ->]|[? _]]]; try done|intros [[[_ <-]|[Hn [[_ <-]|[Hn' ?]]]] _]]);
          try done; auto 6.
      * split; [intros [[= _ ?]|[[= _ ?]|[? ?]]]; try done; split; [right; split; [congruence|right; split; [congruence|done]]|done]|].
        intros [[[[= _ ?] _]|[_ [[[= _ ?] _]|[_ ?]]]] ?]; try done. auto.
    + intros k c' s. cbn. rewrite !lookup_insert_Some. intros [[[= _ <-] _]|[_ [[[= _ <-] _]|[_ Hk]]]]; [done..|by eapply P3].
    + intros c'. unfold errsOf. cbn. destruct (decide (c' = c)) as [->|]; [rewrite lookup_insert_eq; constructor|].
      rewrite lookup_insert_ne by done. apply P4.
    + intros c' k. unfold errsOf. cbn. destruct (decide (c' = c)) as [->|]; [rewrite lookup_insert_eq; by intros ?%not_elem_of_nil|].
      rewrite lookup_insert_ne by done. intros Hk. rewrite !lookup_insert_ne by congruence. by apply P5.
Qed.

(** A part of the world no account looks at. *)
Lemma mAcc_same T w w' :
  mPumps w' = mPumps w -> mErrs w' = mErrs w -> mReadMu w' = mReadMu w -> mBufs w' = mBufs w -> mNext w' = mNext w ->
  mMaintaining w' = mMaintaining w -> mOpen w' = mOpen w -> mLive w' = mLive w -> mReady w' = mReady w ->
  mDialled w' = mDialled w -> mPooled w' = mPooled w -> mAcc T w -> mAcc T w'.
Proof.
  intros H1 H2 H3 H4 H5 H6 H7 H8 H9 H10 H11 [A P R1 R2 B D].
  split; [|apply (PumpAcc_keep _ w); [done|done|by rewrite H5|exact P]|exact R1|by rewrite H3|by rewrite H4|by apply (DialAcc_keep _ w); [..|rewrite H5|]].
  eapply (SupAcc_keep _ w); try done; [by rewrite H5|]. intros k c _ Hn. by rewrite H1.
Qed.

(** A receive takes the first error. *)
Lemma recv_acc c k es T w : errsOf w c = k :: es -> mAcc T w -> mAcc T (w <| mErrs ::= insert c es |>).
Proof.
  intros He [A [P1 P2 P3 P4 P5] R1 R2 B D].
  assert (Hes : forall c', errsOf (w <| mErrs ::= insert c es |>) c' = if decide (c' = c) then es else errsOf w c').
  { intros c'. unfold errsOf. cbn. case_decide as e; [subst c'; by rewrite lookup_insert_eq|by rewrite lookup_insert_ne]. }
  split; [by eapply (SupAcc_keep _ w)| |exact R1|exact R2|exact B|by apply (DialAcc_keep _ w)]. split; try done.
  - intros c'. rewrite Hes. case_decide as e; [|apply P4]. specialize (P4 c). rewrite He in P4. by apply NoDup_cons in P4 as [_ ?].
  - intros c' k'. rewrite Hes. case_decide as e; [subst c'|apply P5]. intros Hk. apply P5. rewrite He. by right.
Qed.

(** A pump starts. *)
Lemma start_acc k c F w :
  mPumps w !! (k, c) = Some PumpPending -> mAcc F w -> mAcc (TPump k c PumpRunning :: F) (setPump k c PumpRunning w).
Proof.
  intros Hp [A [P1 P2 P3 P4 P5] R1 R2 B D].
  assert (Hno : forall s, (k, c, s) ∉ pumpsOf F).
  { intros s Hs. apply P2 in Hs as [Hs Ht]. rewrite Hp in Hs. by simplify_eq. }
  split; [| |exact R1|exact R2|exact B|by apply (DialAcc_keep _ w)].
  - eapply (SupAcc_keep _ w); try done. intros k' c' _ Hn. cbn. by rewrite lookup_insert_ne by congruence.
  - change (PumpAcc ((k, c, PumpRunning) :: pumpsOf F) (setPump k c PumpRunning w)). split; [| | |exact P4|].
    + cbn. apply NoDup_cons. split; [|done]. intros ([[k' c'] s] & [= <- <-] & Hk)%list_elem_of_fmap. by apply Hno in Hk.
    + intros k' c' s. cbn. rewrite elem_of_cons, lookup_insert_Some, P2. split.
      * intros [[= -> -> ->]|[Hs Ht]]; [by auto|]. split; [right; split; [|done]|done]. intros [= <- <-]. rewrite Hp in Hs. by simplify_eq.
      * intros [[[[= <- <-] <-]|[_ Hs]] Ht]; auto.
    + intros k' c' s. cbn. rewrite lookup_insert_Some. intros [[[= <- <-] _]|[_ Hs]]; by eapply P3.
    + intros c' k' Hk. apply P5 in Hk. cbn. rewrite lookup_insert_ne; [done|]. intros [= <- <-]. rewrite Hp in Hk. by destruct Hk.
Qed.

Lemma length_errs k c F w : mAcc (TPump k c PumpRunning :: F) w -> (length (errsOf w c) < errChanCap)%nat.
Proof.
  intros HA. assert (Hk : k ∉ errsOf w c) by (by eapply not_sent). pose proof (pa_errs_nodup _ _ (ma_pumps _ _ HA) c) as Hn.
  unfold errChanCap. destruct (errsOf w c) as [|k1 [|k2 l]]; cbn; [lia..|]. exfalso.
  apply NoDup_cons in Hn as [Hn _]. apply not_elem_of_cons in Hk as [? Hk]. apply not_elem_of_cons in Hk as [? _].
  apply not_elem_of_cons in Hn as [? _]. by destruct k, k1, k2.
Qed.

Lemma send_acc k c F w :
  mAcc (TPump k c PumpRunning :: F) w ->
  mAcc (TPump k c PumpSent :: F) (setPump k c PumpSent w <| mErrs ::= insert c (errsOf w c ++ [k]) |>).
Proof.
  intros HA. assert (Hk : k ∉ errsOf w c) by (by eapply not_sent).
  apply (mAcc_pump k c PumpRunning PumpSent F w _ (errsOf w c ++ [k])); try done.
  - intros c'. unfold errsOf. cbn. case_decide as e; [subst c'; by rewrite lookup_insert_eq|by rewrite lookup_insert_ne].
  - apply NoDup_app. split_and!; [apply (ma_pumps _ _ HA)|intros k' Hk' ->%list_elem_of_singleton; by apply Hk|apply NoDup_singleton].
  - intros k' [Hk'|Hk'%list_elem_of_singleton]%elem_of_app; [|subst k'; left; auto]. right. split; [by intros ->|done].
Qed.

Lemma lock_read_acc c F w : c ∉ mReadMu w -> mAcc F w -> mAcc (TRead c :: F) (w <| mReadMu ::= union {[ c ]} |>).
Proof.
  intros Hc [A P R1 R2 B D]. split; [apply (SupAcc_keep _ w); [done|done|done|done|done|done|exact A]|apply (PumpAcc_keep _ w); [done|done|done|exact P]|..|exact B|by apply (DialAcc_keep _ w)].
  - change (NoDup (c :: readsOf F)). apply NoDup_cons. by rewrite R2.
  - intros c'. change (c' ∈ c :: readsOf F <-> c' ∈ {[ c ]} ∪ mReadMu w). by rewrite elem_of_cons, elem_of_union, elem_of_singleton, R2.
Qed.

Lemma unlock_read_acc c F w : mAcc (TRead c :: F) w -> mAcc F (w <| mReadMu ::= (fun s => s ∖ {[ c ]}) |>).
Proof.
  intros [A P R1 R2 B D]. change (NoDup (c :: readsOf F)) in R1. apply NoDup_cons in R1 as [R0 R1].
  split; [apply (SupAcc_keep _ w); [done|done|done|done|done|done|exact A]|apply (PumpAcc_keep _ w); [done|done|done|exact P]|exact R1|..|exact B|by apply (DialAcc_keep _ w)].
  intros c'. change (c' ∈ readsOf F <-> c' ∈ mReadMu w ∖ {[ c ]}). rewrite elem_of_difference, elem_of_singleton, <- R2.
  change (readsOf (TRead c :: F)) with (c :: readsOf F). rewrite elem_of_cons. split; [|tauto].
  intros Hc'. split; [by right|]. by intros ->.
Qed.

(** A dial function holds a connection until it closes it or returns it. *)
Lemma dial_acc F w :
  mAcc F w -> mAcc (TDial (mNext w) :: F) (w <| mNext ::= S |> <| mDialled ::= union {[ mNext w ]} |>).
Proof.
  intros [A P R1 R2 B [D1 D2 D3 D4]]. split; [|by apply (PumpAcc_keep _ w); [..|cbn; lia|]|exact R1|exact R2|exact B|].
  - apply (SupAcc_keep _ w); try done. cbn. lia.
  - change (DialAcc (mNext w :: dialsOf F) (w <| mNext ::= S |> <| mDialled ::= union {[ mNext w ]} |>)). split; cbn.
    + apply NoDup_cons. split; [|done]. intros Hc. apply D2 in Hc. specialize (D3 (mNext w) (or_introl Hc)). lia.
    + intros c. by rewrite elem_of_cons, elem_of_union, elem_of_singleton, D2.
    + intros c. rewrite elem_of_union, elem_of_singleton. intros [[->|Hc]|Hc]; [lia| |]; (enough (c < mNext w)%nat by lia); apply D3; auto.
    + intros c. rewrite elem_of_union, elem_of_singleton. intros [->|Hc]; [|by apply D4].
      destruct (mPooled w !! mNext w) eqn:e; [|done]. specialize (D3 (mNext w) (or_intror (mk_is_Some _ _ e))). lia.
Qed.

Lemma end_dial_acc c F w w' :
  w' = w <| mDialled ::= (fun s => s ∖ {[ c ]}) |> \/ (exists client, w' = w <| mDialled ::= (fun s => s ∖ {[ c ]}) |> <| mPooled ::= insert c client |>) ->
  mAcc (TDial c :: F) w -> mAcc F w'.
Proof.
  intros Hw [A P R1 R2 B [D1 D2 D3 D4]]. change (dialsOf (TDial c :: F)) with (c :: dialsOf F) in *.
  apply NoDup_cons in D1 as [D0 D1]. assert (Hc : c ∈ mDialled w) by (apply D2; by left).
  assert (Hd : forall x, x ∈ dialsOf F <-> x ∈ mDialled w ∖ {[ c ]}).
  { intros x. rewrite elem_of_difference, elem_of_singleton, <- D2, elem_of_cons. split; [|tauto].
    intros Hx. split; [by right|]. by intros ->. }
  assert (Hrest : SupAcc (sups F) w' /\ PumpAcc (pumpsOf F) w' /\ mReadMu w' = mReadMu w /\ mBufs w' = mBufs w).
  { destruct Hw as [->|[client ->]]; (split_and!; [by apply (SupAcc_keep _ w)|by apply (PumpAcc_keep _ w)|done..]). }
  destruct Hrest as (HS & HP & HR & HB). split; [done|done|exact R1|intros x; rewrite HR; apply R2|by rewrite HB|].
  destruct Hw as [->|[client ->]]; split; cbn; try done.
  - intros x [Hx|Hx]; apply D3; [left; set_solver|by right].
  - intros x Hx. apply D4. set_solver.
  - intros x Hx. apply D3. destruct Hx as [Hx|Hx]; [left; set_solver|]. destruct (decide (x = c)) as [->|Hne]; [by left|].
    right. by rewrite lookup_insert_ne in Hx.
  - intros x Hx. rewrite lookup_insert_ne by set_solver. apply D4. set_solver.
Qed.

(** The transport closes a connection. *)
Lemma transport_close_acc c T w : mAcc T w -> mAcc T (w <| mPooled ::= delete c |>).
Proof.
  intros [A P R1 R2 B [D1 D2 D3 D4]]. split; [by apply (SupAcc_keep _ w)|by apply (PumpAcc_keep _ w)|exact R1|exact R2|exact B|].
  split; cbn; try done.
  - intros x [Hx|[cl Hx]]; apply D3; [by left|]. right. apply lookup_delete_Some in Hx as [_ Hx]. by eexists.
  - intros x Hx. apply lookup_delete_None. right. by apply D4.
Qed.

#[global] Instance mAccounting : Accounting mAcc.
Proof.
  split; [exact mAcc_perm|]. intros X a F ans w w' x Hal HA He.
  assert (Hno : forall k, mPumps w !! (k, mNext w) = None).
  { intros k. destruct (mPumps w !! (k, mNext w)) eqn:e; [|done]. apply (pa_bound _ _ (ma_pumps _ _ HA)) in e. lia. }
  destruct a; cbn [perform mActions mPerform consumes produces mSignature allowed] in *; cbn [app] in HA |- *.
  - (* ABegin *) destruct (mMaintaining w) eqn:e; simplify_eq. destruct HA as [(h & Hs & Hh) P R1 R2 B D]. rewrite e in Hs, Hh.
    split; [|apply (PumpAcc_keep _ w); [done|done|done|exact P]|exact R1|exact R2|exact B|by apply (DialAcc_keep _ w)]. change (SupAcc (None :: sups F) (w <| mMaintaining := true |>)).
    rewrite Hs. by apply SupAcc_one.
  - (* AReturn *) simplify_eq. destruct HA as [A P R1 R2 B D]. destruct (SupAcc_head None (sups F) w A) as (Hm & HF & Hh).
    split; [|apply (PumpAcc_keep _ w); [done|done|done|exact P]|exact R1|exact R2|exact B|by apply (DialAcc_keep _ w)]. by exists None.
  - done.
  - by simplify_eq.
  - by simplify_eq.
  - (* AListenUDP *) destruct (anOk ans); simplify_eq; [|done]. eapply (mAcc_sup None); [..|exact HA]; try done; [cbn; lia|].
    by apply (held_new PUDP).
  - by simplify_eq.
  - (* ANewTransport *) simplify_eq. eapply (mAcc_sup (Some h)); [..|exact HA]; try done. by apply (held_open PTransport).
  - (* ADialIP *) destruct (anOk ans); simplify_eq; [|done]. eapply (mAcc_sup (Some h)); [..|exact HA]; try done. by apply (held_open PIP).
  - (* AProxyFromEnv *) by simplify_eq.
  - (* ANewClient *) simplify_eq. destruct HA as [A P R1 R2 B D].
    split; [|apply (PumpAcc_keep _ w); [done|done|cbn; lia|exact P]|exact R1|exact R2|exact B|apply (DialAcc_keep _ w); [done|done|cbn; lia|exact D]].
    apply (SupAcc_keep _ w); try done. cbn. lia.
  - (* ADialTCP *) destruct (anOk ans); simplify_eq; [|done]. by apply dial_acc.
  - by simplify_eq.
  - (* AHandOver *) simplify_eq. eapply end_dial_acc; [|exact HA]. right. by eexists.
  - (* ACloseTCP *) simplify_eq. eapply end_dial_acc; [|exact HA]. by left.
  - (* ADialH2 *) destruct (anOk ans && hasConn client w); simplify_eq; [|done]. eapply (mAcc_sup None); [..|exact HA]; try done; [cbn; lia|].
    by apply (held_new PIP).
  - (* AClose *) simplify_eq. destruct Hal as (H1 & H2 & H3). eapply (mAcc_sup (Some h)); [..|exact HA]; try done. by apply held_close.
  - (* AOnReady *) simplify_eq. eapply (mAcc_sup (Some h)); [..|exact HA]; try done. intros (? & ? & ? & ? & ? & ?).
    unfold heldOk, told. cbn. by split_and!.
  - (* AOnError *) simplify_eq. eapply (mAcc_sup h); [..|exact HA]; try done. destruct h as [h|]; [|by intros (? & ? & ?)].
    intros (? & ? & ? & Hi & ? & ?). unfold heldOk, told. cbn. split_and!; try done. intros [?|?]; [done|auto].
  - (* ANewPumps *) simplify_eq. destruct Hal as [H1 H2]. by apply new_pumps_acc.
  - (* AGo *) simplify_eq. apply (mAcc_move k c PumpGo PumpPending F w); [by left|done].
  - (* ARecvErr *) destruct (errsOf w c) as [|k es] eqn:e; simplify_eq. by eapply recv_acc.
  - (* ACancelPumps *) simplify_eq. eapply (mAcc_sup (Some h)); [..|exact HA]; try done. intros (? & ? & ? & Hi & ? & ?).
    unfold heldOk. cbn. split_and!; try done. intros [?|?]; [auto|done].
  - (* AWaitPumps *) assert (w' = w) as -> by (repeat case_match; by simplify_eq). done.
  - (* AStartPump *) destruct (mPumps w !! (k, c)) as [[]|] eqn:e; simplify_eq. by apply start_acc.
  - by simplify_eq.
  - (* ASendErr *) destruct (_ <? _)%nat; simplify_eq. by apply send_acc.
  - (* AWgDone *) simplify_eq. apply (mAcc_move k c (if sent then PumpSent else PumpRunning) PumpDone F w); [by right|done].
  - (* AGetBuf *) simplify_eq. destruct HA as [A P R1 R2 B D].
    split; [apply (SupAcc_keep _ w); [done|done|done|done|done|done|exact A]|apply (PumpAcc_keep _ w); [done|done|done|exact P]|exact R1|exact R2|cbn; by f_equal|by apply (DialAcc_keep _ w)].
  - (* APutBuf *) simplify_eq. destruct HA as [A P R1 R2 B D].
    split; [apply (SupAcc_keep _ w); [done|done|done|done|done|done|exact A]|apply (PumpAcc_keep _ w); [done|done|done|exact P]|exact R1|exact R2| |by apply (DialAcc_keep _ w)]. cbn. by rewrite <- B.
  - (* ALockRead *) destruct (decide _); simplify_eq. by apply lock_read_acc.
  - (* AUnlockRead *) simplify_eq. by apply unlock_read_acc.
  - by simplify_eq.
  - by simplify_eq.
  - by simplify_eq.
  - by simplify_eq.
Qed.

Lemma mReachable_ok cfg st : mReachable cfg st -> PoolOk mAcc st.
Proof.
  intros (evs & ->). assert (H0 : PoolOk mAcc mstate0).
  { exists []. split; [constructor|]. split; [by exists None| |constructor|set_solver|done|].
    2: { split; [constructor|set_solver|intros c [?|[? ?]]; set_solver|set_solver]. }
    split; [constructor|set_solver|done|intros c; constructor|intros c k Hk; set_solver]. }
  revert H0. generalize mstate0. induction evs as [|ev evs IH]; intros st Hst; [done|]. apply IH.
  destruct ev as [turns|k fuel c| |client tls|c|i ans]; cbn [mApply].
  - apply (PoolOk_spawn mAcc); [apply MaintainTunnel_typed|done].
  - apply (PoolOk_spawn mAcc); [apply pump_typed|done].
  - apply (PoolOk_shared mAcc); [|done]. intros T. by apply mAcc_same.
  - destruct (mClients (shared st) !! client) as [proxied|]; [|done]. destruct (tls || proxied); [|done].
    apply (PoolOk_spawn mAcc); [destruct tls; [apply dialTLSContext_typed|apply dialContext_typed]|done].
  - apply (PoolOk_shared mAcc); [|done]. intros T. by apply transport_close_acc.
  - by apply (PoolOk_run mAcc).
Qed.

(** C21: whatever the network, the device, the libraries and the scheduler do to a
    tunnel that is maintained, the handles MaintainTunnel has are of one connection
    at a time; the session is ready only while a CONNECT-IP connection is open, and
    the context of a connection's pumps is not cancelled only while that connection
    is; a pump that has an error to report finds room in the channel, so that none
    blocks; once MaintainTunnel has returned each of its handles is closed, the
    session is not ready and the pumps' context is cancelled, though a pump may
    still be parked in a read.  A connection that a dial of the HTTP/2 client made
    is held by that dial until it is closed or returned to the transport, never
    both, and when all calls, pumps and dials have returned none is held, every
    buffer is back in the pool and every lock free.  What the transport was given
    is not closed by MaintainTunnel. *)
Theorem tunnel_accounted cfg st :
  mReachable cfg st ->
  (forall p c p' c', (p, c) ∈ mOpen (shared st) -> (p', c') ∈ mOpen (shared st) -> c = c') /\
  (mReady (shared st) = true -> exists c, (PIP, c) ∈ mOpen (shared st)) /\
  (forall c, mLive (shared st) = Some c -> (PIP, c) ∈ mOpen (shared st)) /\
  (forall i k c cont, pool st !! i = Some (Act (ASendErr k c) cont) -> (length (errsOf (shared st) c) < errChanCap)%nat) /\
  (mMaintaining (shared st) = false -> mOpen (shared st) = ∅ /\ mReady (shared st) = false /\ mLive (shared st) = None) /\
  (forall c, c ∈ mDialled (shared st) -> mPooled (shared st) !! c = None) /\
  (forallb finished (pool st) = true -> mBufs (shared st) = 0%nat /\ mReadMu (shared st) = ∅ /\ mDialled (shared st) = ∅).
Proof.
  intros Hr. apply mReachable_ok in Hr. assert (HA : exists T, mAcc T (shared st)) by (destruct Hr as (Rs & _ & HA); by eexists).
  destruct HA as (T & [(h & _ & Hh) _ _ _ _ HD]). set (w := shared st) in *.
  assert (Hcase : heldOk None w \/ exists h, heldOk (Some h) w) by (destruct (mMaintaining w); [destruct h|]; eauto).
  split_and!.
  - intros p c p' c'. destruct Hcase as [(-> & _)|(h' & Hopen & _)]; [set_solver|]. rewrite !Hopen. by intros [-> _] [-> _].
  - destruct Hcase as [(_ & _ & ->)|(h' & Hopen & _ & -> & Hi & _)]; [done|]. intros Hrd. exists (hId h'). apply Hopen. split; [done|].
    apply Hi. by left.
  - intros c. destruct Hcase as [(_ & -> & _)|(h' & Hopen & -> & _ & Hi & _)]; [done|]. destruct (hPumps h') eqn:e; intros [= <-].
    apply Hopen. split; [done|]. apply Hi. by right.
  - intros i k c cont Hi. destruct (PoolOk_head mAcc _ _ _ _ _ Hr Hi) as (F & HF). exact (length_errs k c F w HF).
  - intros Hm. rewrite Hm in Hh. by destruct Hh as (? & ? & ?).
  - apply (da_apart _ _ HD).
  - intros Hfin. apply (PoolOk_done mAcc) in Hfin; [|done]. destruct Hfin as [_ _ _ HR HB [_ HT _ _]]. subst w.
    split_and!; [by rewrite <- HB|apply set_eq; intros c; rewrite <- HR; set_solver|apply set_eq; intros c; rewrite <- HT; set_solver].
Qed.

(** ** Runs *)
Definition h3Config : MaintainTunnelConfig := mkMaintain true false false.
Definition sure : manswer := mkMAnswer true OtherDial 200 [1] true.
Definition lost : manswer := mkMAnswer false OtherDial 200 [] true.
Definition steps (i n : nat) (ans : manswer) : list mevent := repeat (MRun i ans) n.

(** A connection whose pumps run, lost and not made again. *)
Definition connected : list mevent :=
  [MMaintain 2] ++ steps 0 10 sure ++ [MPump FromDevice 5 0; MPump ToDevice 5 0] ++ steps 1 1 sure ++ steps 2 1 sure.
Definition mSampleRun : list mevent :=
  connected ++ steps 1 8 sure ++ steps 1 4 sure ++ steps 2 3 lost ++ steps 0 3 sure ++ [MCancel] ++ steps 1 7 lost ++ steps 0 9 sure.

Lemma tunnel_accounted_witness :
  let st := fold_left (mApply h3Config) mSampleRun mstate0 in
  mReachable h3Config st /\ forallb finished (pool st) = true /\ mOpen (shared st) = ∅ /\ mBufs (shared st) = 0%nat.
Proof.
  cbv zeta. assert (Hr : mReachable h3Config (fold_left (mApply h3Config) mSampleRun mstate0)) by (eexists; reflexivity).
  pose proof (tunnel_accounted _ _ Hr) as (_ & _ & _ & _ & Hret & _ & Hfin).
  assert (Hall : forallb finished (pool (fold_left (mApply h3Config) mSampleRun mstate0)) = true) by (vm_compute; reflexivity).
  assert (Hm : mMaintaining (shared (fold_left (mApply h3Config) mSampleRun mstate0)) = false) by (vm_compute; reflexivity).
  split; [exact Hr|]. split; [exact Hall|]. split; [exact (proj1 (Hret Hm))|exact (proj1 (Hfin Hall))].
Defined.

(** A pump that sees the end of the context before its next read returns without
    an error; MaintainTunnel, which waits for an error only, keeps the connection
    open until the other pump fails. *)
Example cancelled_tunnel_waits :
  let st := fold_left (mApply h3Config) (connected ++ steps 1 5 sure ++ [MCancel] ++ steps 1 3 sure) mstate0 in
  mCtxDone (shared st) = true /\ pool st !! 1%nat = Some (Ret tt) /\ (forall ans, runThread 0 ans st = st) /\
  (PIP, 0%nat) ∈ mOpen (shared st).
Proof. vm_compute. split_and!; reflexivity. Qed.

(** Each connection has a mutex of its own, so that a reader of the last
    connection and one of the next can be in [ReadPacket] together. *)
Definition twoReaders : list mevent :=
  connected ++ steps 1 3 sure ++ steps 2 3 lost ++ steps 0 8 sure ++ steps 0 11 sure ++ [MPump FromDevice 5 1] ++ steps 3 4 sure.
Definition reading (p : prog maction unit) : bool := match p with Act AReadDevice _ => true | _ => false end.

Example stale_reader_overlaps :
  let st := fold_left (mApply h3Config) twoReaders mstate0 in reading <$> pool st = [false; true; false; true].
Proof. vm_compute. reflexivity. Qed.

(** Over HTTP/2: the client dials, the request succeeds, the connection is lost and
    MaintainTunnel returns.  The TLS connection stays with the transport of a
    client nothing refers to, until the peer or the transport ends it. *)
Definition h2Config : MaintainTunnelConfig := mkMaintain true true true.
Definition h2Run : list mevent :=
  [MMaintain 2] ++ steps 0 4 sure ++ [MDial 0 true] ++ steps 1 3 sure ++ steps 0 6 sure ++
  [MPump FromDevice 5 2; MPump ToDevice 5 2] ++ steps 2 1 sure ++ steps 3 1 sure ++ steps 3 3 lost ++ steps 0 3 sure ++
  [MCancel] ++ steps 2 9 lost ++ steps 0 9 sure.

Example h2_connection_left :
  let st := fold_left (mApply h2Config) h2Run mstate0 in
  forallb finished (pool st) = true /\ mMaintaining (shared st) = false /\ mOpen (shared st) = ∅ /\
  mPooled (shared st) = {[ 1%nat := 0%nat ]}.
Proof. vm_compute. split_and!; reflexivity. Qed.

(** A handshake that fails closes what was dialled. *)
Example failed_handshake_closes :
  let st := fold_left (mApply h2Config) ([MMaintain 1] ++ steps 0 4 sure ++ [MDial 0 true] ++ steps 1 1 sure ++ steps 1 2 lost) mstate0 in
  mDialled (shared st) = ∅ /\ mPooled (shared st) = ∅.
Proof. vm_compute. split_and!; reflexivity. Qed.
