(* ===== verification/PrHop.v ===== *)
(** * The socket of the inner hop ([src/awg-ios/cmd/persianray/hopbind.go])

    The [conn.Bind] of the inner device: one packet connection of the outer
    device's network stack.  The connections of that stack that are open are a
    set; whether it can open one, on which port, whether a write succeeds, what a
    read returns and its resolver are the class [HopNet].  The mutex makes every
    method one step. *)

From stdpp Require Import base numbers list gmap sets strings.
From Stdlib Require Import ZArith Lia.
From S2P Require Import Prelude GoStrings AllowedIPs NetIP GoNet GoNetThm PrConfig PrSocks PrSocksThm.

(** [netip.AddrPort]. *)
Record hopEndpoint := mkHopEndpoint { heAddr : ipAddr; hePort : Z }.

(** The endpoints a caller may pass: one of this bind, or one of another. *)
Inductive anyEndpoint := HopEp (ep : hopEndpoint) | OtherEp.

Inductive hopError := ErrBindAlreadyOpen | ErrClosed | ErrWrongEndpointType | ErrListen | ErrIO | ErrPort | ErrNoAddresses | ErrParseAddr.

(** [tnet] and [local] stay as they are; [opened] is the set of the stack's open
    connections of this bind. *)
Record hopBind := mkHopBind { pc : option nat; bindClosed : bool; opened : gset nat; wire : list (list Z * hopEndpoint) }.
#[global] Instance rebuild_hopBind : Rebuild hopBind := fun b => mkHopBind (pc b) (bindClosed b) (opened b) (wire b).

Class HopNet := {
  listenUDPAddrPort : Z -> option Z;                       (* the port that was bound *)
  closeConn : bool;
  writeTo : list Z -> hopEndpoint -> bool;
  readFrom : option (list Z * option udpAddr);             (* the datagram, the sender when it is a UDP address *)
  lookupHost : list Z -> option (list (list Z))
}.

(** [AddrPort.String] for an address without zone that is not mapped. *)
Definition addrText (a : ipAddr) : list Z :=
  let bs := be_bytes (Z.to_nat (ipLen a)) (ipVal a) in
  if ipLen a =? 4 then formatIPv4 bs else formatIPv6 bs.
Definition DstToString (e : hopEndpoint) : list Z := JoinHostPort (addrText (heAddr e)) (itoa (hePort e)).

Section Bind.
Context `{H : HopNet}.

Abbreviation HM A := (ste hopBind hopError A).

Definition hopOpen (port : Z) : HM Z := fun b =>
  match pc b with
  | Some _ => (Err ErrBindAlreadyOpen, b)
  | None =>
      match listenUDPAddrPort port with
      | None => (Err ErrListen, b)
      | Some actual =>
          let c := base.fresh (opened b) in
          (Ok (u16 actual), b <| pc := Some c |> <| bindClosed := false |> <| opened ::= (fun s => s ∪ {[c]}) |>)
      end
  end.

(** The datagram, and the endpoint when the sender has an address. *)
Definition hopReceive : HM (list Z * option hopEndpoint) := fun b =>
  match pc b with
  | None => (Err ErrClosed, b)
  | Some _ =>
      if bindClosed b then (Err ErrClosed, b)
      else match readFrom with
      | None => (Err ErrIO, b)
      | Some (dgram, None) => (Ok (dgram, None), b)
      | Some (dgram, Some ua) =>
          match AddrFromSlice (uaIP ua) with
          | None => (Ok (dgram, None), b)
          | Some ip => (Ok (dgram, Some (mkHopEndpoint (Unmap ip) (u16 (uaPort ua)))), b)
          end
      end
  end.

Definition hopClose : HM unit := fun b =>
  let b := b <| bindClosed := true |> in
  match pc b with
  | Some c => (if closeConn then Ok tt else Err ErrIO, b <| opened ::= (fun s => s ∖ {[c]}) |> <| pc := None |>)
  | None => (Ok tt, b)
  end.

(** The loop over the buffers stops at the first that cannot be written. *)
Fixpoint hopWrite (bufs : list (list Z)) (e : hopEndpoint) : HM unit := fun b =>
  match bufs with
  | [] => (Ok tt, b)
  | buf :: bufs =>
      if writeTo buf e then hopWrite bufs e (b <| wire ::= (fun l => l ++ [(buf, e)]) |>)
      else (Err ErrIO, b)
  end.

Definition hopSend (bufs : list (list Z)) (ep : anyEndpoint) : HM unit := fun b =>
  match ep with
  | OtherEp => (Err ErrWrongEndpointType, b)
  | HopEp e => match pc b with None => (Err ErrClosed, b) | Some _ => hopWrite bufs e b end
  end.

(** The text of an endpoint; a port beyond 16 bits is cut. *)
Definition hopParseEndpoint (s : list Z) : result hopError hopEndpoint :=
  let '(host, portStr) := default (s, str "2408") (SplitHostPort s) in
  match atoi portStr with
  | Err _ => Err ErrPort
  | Ok port =>
      match ParseIP host with
      | Some ip => Ok (mkHopEndpoint (Unmap (default zeroAddr (AddrFromSlice ip))) (u16 port))
      | None =>
          match lookupHost host with
          | None | Some [] => Err ErrNoAddresses
          | Some (a :: _) =>
              match ParseAddr a with
              | None => Err ErrParseAddr
              | Some (addr, _) => Ok (mkHopEndpoint (Unmap addr) (u16 port))
              end
          end
      end
  end.

Definition hopSetMark (mark : Z) : HM unit := fun b => (Ok tt, b).
Definition hopBatchSize : nat := 1.

(** ** The life of a bind *)

Inductive hopStep : hopBind -> hopBind -> Prop :=
  | hopStepOpen port b : hopStep b (hopOpen port b).2
  | hopStepReceive b : hopStep b (hopReceive b).2
  | hopStepSend bufs ep b : hopStep b (hopSend bufs ep b).2
  | hopStepSetMark mark b : hopStep b (hopSetMark mark b).2
  | hopStepClose b : hopStep b (hopClose b).2.

Definition newHopBind : hopBind := mkHopBind None false ∅ [].

Inductive hopReachable : hopBind -> Prop :=
  | hopNew : hopReachable newHopBind
  | hopNext b b' : hopReachable b -> hopStep b b' -> hopReachable b'.

End Bind.

(** ** The inner hop's socket: one connection at a time, and endpoints read back *)

Section Thm.
Context `{H : HopNet}.

(** The connection of the bind is the only one open. *)
Definition connections (o : option nat) : gset nat := match o with Some c => {[c]} | None => ∅ end.

Definition hop_ok (b : hopBind) : Prop := opened b = connections (pc b) /\ (is_Some (pc b) -> bindClosed b = false).

Lemma hopWrite_keeps bufs e b : let b' := (hopWrite bufs e b).2 in opened b' = opened b /\ pc b' = pc b /\ bindClosed b' = bindClosed b.
Proof.
  revert b. induction bufs as [|buf bufs IH]; intros b; cbn [hopWrite]; [done|]. destruct (writeTo buf e); [|done].
  exact (IH (b <| wire ::= (fun l => l ++ [(buf, e)]) |>)).
Qed.

Lemma hopReceive_keeps b : (hopReceive b).2 = b.
Proof. unfold hopReceive. destruct (pc b), (bindClosed b), readFrom as [[dgram [ua|]]|]; try done. by destruct (AddrFromSlice _). Qed.

Lemma hop_step_ok b b' : hop_ok b -> hopStep b b' -> hop_ok b'.
Proof.
  intros [Ho Hc] Hs. destruct Hs as [port b|b|bufs ep b|mark b|b].
  - unfold hopOpen. destruct (pc b) as [c|] eqn:Ep; [by split; cbn [snd]; rewrite ?Ep|].
    destruct (listenUDPAddrPort port); [|by split; cbn [snd]; rewrite ?Ep]. split; [|done]. cbn. rewrite Ho. apply union_empty_l_L.
  - by rewrite hopReceive_keeps.
  - unfold hopSend. destruct ep as [e|]; [|done]. destruct (pc b) as [c|] eqn:Ep; [|by split; cbn [snd]; rewrite ?Ep].
    destruct (hopWrite_keeps bufs e b) as (E1 & E2 & E3). split; [by rewrite E1, E2, Ho, Ep|rewrite E2, E3, Ep; exact Hc].
  - done.
  - unfold hopClose. change (pc (b <| bindClosed := true |>)) with (pc b). destruct (pc b) as [c|] eqn:Ep.
    + split; [|by intros []]. cbn. rewrite Ho. apply difference_diag_L.
    + split; [cbn; by rewrite Ho, Ep|]. cbn. rewrite Ep. by intros [].
Qed.

Lemma hop_reachable_ok b : hopReachable b -> hop_ok b.
Proof. induction 1 as [|b b' _ IH Hs]; [split; [done|by intros []]|by eapply hop_step_ok]. Qed.

(** The bind of the inner hop has at most one connection of the outer stack.
    In every state its methods reach, the open connections are exactly the one it
    holds; while it holds one, another open is refused, and while it holds none,
    nothing is sent or received; closing leaves none open, also when the close
    itself reports an error, and after it the bind can be opened again. *)
Theorem hop_bind_single b :
  hopReachable b ->
  opened b = connections (pc b) /\
  (forall port, is_Some (pc b) -> hopOpen port b = (Err ErrBindAlreadyOpen, b)) /\
  (forall bufs e, pc b = None -> hopSend bufs (HopEp e) b = (Err ErrClosed, b) /\ hopReceive b = (Err ErrClosed, b)) /\
  let b' := (hopClose b).2 in
  opened b' = ∅ /\ wire b' = wire b /\
  forall port actual, listenUDPAddrPort port = Some actual -> (hopOpen port b').1 = Ok (u16 actual).
Proof.
  intros Hr. destruct (hop_reachable_ok b Hr) as [Ho Hc]. split; [exact Ho|]. split.
  { intros port [c Ep]. unfold hopOpen. by rewrite Ep. }
  split. { intros bufs e Ep. unfold hopSend, hopReceive. by rewrite Ep. }
  assert (Hok : hop_ok (hopClose b).2) by (apply (hop_step_ok b); [by split|apply hopStepClose]).
  assert (Hp : pc (hopClose b).2 = None /\ wire (hopClose b).2 = wire b).
  { unfold hopClose. change (pc (b <| bindClosed := true |>)) with (pc b). destruct (pc b) eqn:Ep; [done|]. by split. }
  destruct Hp as [Hp Hw]. cbv zeta. split; [rewrite (proj1 Hok), Hp; done|]. split; [exact Hw|].
  intros port actual Hl. unfold hopOpen. by rewrite Hp, Hl.
Qed.

(** The endpoint of an IPv4 address. *)
Definition endpoint4 (a b c d port : Z) : hopEndpoint := mkHopEndpoint (mkIP 4 (be_val [a; b; c; d])) port.

Lemma unmap_mapped a b c d : is_u8 a -> is_u8 b -> is_u8 c -> is_u8 d ->
  Unmap (addrOfBytes (v4InV6Prefix ++ [a; b; c; d])) = mkIP 4 (be_val [a; b; c; d]).
Proof.
  intros Ha Hb Hc Hd. set (v := be_val [a; b; c; d]).
  assert (Hv : 0 <= v < 2 ^ 32).
  { unfold v. rewrite !be_val_cons. unfold is_u8 in *. cbn. lia. }
  assert (E : be_val (v4InV6Prefix ++ [a; b; c; d]) = 0xffff * 2 ^ 32 + v).
  { unfold v, v4InV6Prefix. cbn [app]. rewrite !be_val_cons. cbn. lia. }
  unfold Unmap, addrOfBytes. rewrite E. cbn [ipLen ipVal].
  replace (Z.shiftr (0xffff * 2 ^ 32 + v) 32) with 0xffff by (rewrite Z.shiftr_div_pow2 by lia; Z.div_mod_to_equations; lia).
  change (Z.of_nat (length (v4InV6Prefix ++ [a; b; c; d])) =? 16) with true. change (0xffff =? 0xffff) with true. cbn [andb].
  f_equal. unfold u32. Z.div_mod_to_equations; lia.
Qed.

Lemma addrText_4 a b c d port : is_u8 a -> is_u8 b -> is_u8 c -> is_u8 d ->
  DstToString (endpoint4 a b c d port) = JoinHostPort (formatIPv4 [a; b; c; d]) (itoa port).
Proof.
  intros Ha Hb Hc Hd. unfold DstToString, endpoint4, addrText. cbn [heAddr hePort ipLen ipVal].
  change (Z.to_nat 4) with 4%nat. change (4 =? 4) with true. cbv iota.
  assert (Eb : be_bytes 4 (be_val [a; b; c; d]) = [a; b; c; d])
    by (apply (be_bytes_be_val [a; b; c; d]); unfold bytes_ok; by rewrite !Forall_cons, Forall_nil).
  by rewrite Eb.
Qed.

Lemma parse_endpoint4 a b c d port : is_u8 a -> is_u8 b -> is_u8 c -> is_u8 d -> 0 <= port < 65536 ->
  hopParseEndpoint (JoinHostPort (formatIPv4 [a; b; c; d]) (itoa port)) = Ok (endpoint4 a b c d port).
Proof.
  intros Ha Hb Hc Hd Hp. unfold hopParseEndpoint.
  rewrite split_join; [|split; by apply IPv4_no_byte|apply portOk_itoa; lia]. cbn [from_option id].
  rewrite atoi_itoa by lia. rewrite ParseIP_IPv4 by done.
  change (AddrFromSlice (v4InV6Prefix ++ [a; b; c; d])) with (Some (addrOfBytes (v4InV6Prefix ++ [a; b; c; d]))). cbn [from_option id].
  rewrite unmap_mapped by done. unfold endpoint4. do 2 f_equal. unfold u16. apply Z.mod_small. lia.
Qed.

(** Endpoints of the inner hop read back.  The text of an endpoint with an
    IPv4 address parses to the same endpoint, and so does the endpoint [receive]
    makes of an IPv4 sender, whether the stack gives its address in four bytes or
    mapped into sixteen: answers are recognised as coming from the configured
    peer, and the resolver is not asked. *)
Theorem hop_endpoint_roundtrip a b c d port bs dgram st :
  Forall is_u8 [a; b; c; d] -> 0 <= port < 65536 -> bs = [a; b; c; d] \/ bs = v4InV6Prefix ++ [a; b; c; d] ->
  is_Some (pc st) -> bindClosed st = false -> readFrom = Some (dgram, Some (mkUDPAddr bs port [])) ->
  hopParseEndpoint (DstToString (endpoint4 a b c d port)) = Ok (endpoint4 a b c d port) /\
  hopReceive st = (Ok (dgram, Some (endpoint4 a b c d port)), st).
Proof.
  intros HF Hp Hbs [c0 Hpc] Hcl Hrd. rewrite !Forall_cons in HF. destruct HF as (Ha & Hb & Hc & Hd & _).
  split; [rewrite addrText_4 by done; by apply parse_endpoint4|].
  unfold hopReceive. rewrite Hpc, Hcl, Hrd. cbn [uaIP uaPort].
  assert (Hu : u16 port = port) by (apply Z.mod_small; lia). rewrite Hu.
  destruct Hbs as [->| ->]; [done|].
  change (AddrFromSlice (v4InV6Prefix ++ [a; b; c; d])) with (Some (addrOfBytes (v4InV6Prefix ++ [a; b; c; d]))). cbv iota beta.
  by rewrite unmap_mapped.
Qed.
End Thm.

(** ** A run *)

Definition sampleHopNet : HopNet := {|
  listenUDPAddrPort p := Some (if p =? 0 then 40000 else p);
  closeConn := false;
  writeTo _ _ := true;
  readFrom := Some ([1; 2], Some (mkUDPAddr (v4InV6Prefix ++ [188; 114; 97; 170]) 2408 []));
  lookupHost _ := None
|}.
#[local] Existing Instance sampleHopNet.

Definition openedBind : hopBind := (hopOpen 0 newHopBind).2.
Definition sentBind : hopBind := (hopSend [[7]; [8]] (HopEp (endpoint4 188 114 97 170 2408)) openedBind).2.

Lemma hop_bind_single_witness :
  opened sentBind = {[0%nat]} /\ length (wire sentBind) = 2%nat /\ hopOpen 5 sentBind = (Err ErrBindAlreadyOpen, sentBind) /\
  opened (hopClose sentBind).2 = ∅ /\ (hopOpen 5 (hopClose sentBind).2).1 = Ok 5.
Proof.
  assert (Hr : hopReachable sentBind).
  { apply hopNext with openedBind; [apply hopNext with newHopBind; [apply hopNew|apply hopStepOpen]|apply hopStepSend]. }
  destruct (hop_bind_single sentBind Hr) as (H1 & H2 & _ & H4 & _ & H5).
  split; [exact H1|]. split; [vm_compute; reflexivity|]. split; [apply H2; exists 0%nat; vm_compute; reflexivity|].
  split; [exact H4|]. exact (H5 5 5 eq_refl).
Defined.

Lemma hop_endpoint_roundtrip_witness :
  hopParseEndpoint (str "188.114.97.170:2408") = Ok (endpoint4 188 114 97 170 2408) /\
  (hopReceive openedBind).1 = Ok ([1; 2], Some (endpoint4 188 114 97 170 2408)).
Proof.
  destruct (hop_endpoint_roundtrip 188 114 97 170 2408 (v4InV6Prefix ++ [188; 114; 97; 170]) [1; 2] openedBind) as [H1 H2].
  - rewrite !Forall_cons. unfold is_u8. split; [lia|]. split; [lia|]. split; [lia|]. split; [lia|constructor].
  - lia.
  - by right.
  - exists 0%nat. vm_compute. reflexivity.
  - vm_compute. reflexivity.
  - reflexivity.
  - split; [exact H1|]. rewrite H2. reflexivity.
Defined.

(** A port beyond 16 bits is not refused but cut. *)
Example port_is_cut : hopParseEndpoint (str "188.114.97.170:67944") = Ok (endpoint4 188 114 97 170 2408).
Proof. vm_compute. reflexivity. Qed.
