(* ===== verification/PrPing.v ===== *)
(** * Pings ([src/awg-ios/cmd/persianray/ping.go])

    The defaults of a request, and the client that asks for a page through the
    SOCKS server of the probe's own tunnel.  A conversation of the client is what
    it writes and, from the bytes the server sends, what comes of it; writes of
    the client succeed (their failure ends the probe like a failing read).  The
    tunnels of the probes are in [PrEngine] ([pingOpen], [pingClose]); the pool of
    goroutines and the clock are not modelled. *)

From stdpp Require Import base numbers list strings.
From Stdlib Require Import ZArith Lia.
From S2P Require Import Prelude GoStrings AllowedIPs Obf NetIP GoNet GoNetThm PrConfig PrConfigThm PrI1 PrSocks PrSocksThm.

(** ** The request *)

Record pingRequest := mkPing {
  pgParallel : Z; pgTimeoutMs : Z; pgHost : list Z; pgPort : Z; pgPath : list Z; pgIdentity : socksConfig;
  pgProbes : list (list Z * list Z)       (* id, endpoint *)
}.
#[global] Instance rebuild_pingRequest : Rebuild pingRequest := fun r =>
  mkPing (pgParallel r) (pgTimeoutMs r) (pgHost r) (pgPort r) (pgPath r) (pgIdentity r) (pgProbes r).

(** The head of [runPing], after [json.Unmarshal]. *)
Definition checkPing (r : pingRequest) : option pingRequest :=
  let r := if pgParallel r <? 1 then r <| pgParallel := 1 |> else r in
  let r := if 8 <? pgParallel r then r <| pgParallel := 8 |> else r in
  let r := if pgTimeoutMs r <? 250 then r <| pgTimeoutMs := 8000 |> else r in
  let r := r <| pgHost ::= (fun s => orDefault s (str "www.gstatic.com")) |> in
  let r := if pgPort r =? 0 then r <| pgPort := 80 |> else r in
  let r := r <| pgPath ::= (fun s => orDefault s (str "/generate_204")) |> in
  if bool_decide (cPrivateKey (pgIdentity r) = []) || bool_decide (cPeerPublicKey (pgIdentity r) = []) then None else Some r.

(** ** The client *)

Inductive pingError := PingShort | PingGreeting | PingConnect | PingAtyp | PingStatus.

(** [strings.Contains]. *)
Fixpoint containsStr (s sub : list Z) : bool :=
  hasPrefix s sub || match s with [] => false | _ :: s => containsStr s sub end.

(** [ReadString] of a newline: the line with it. *)
Fixpoint readLine (s : list Z) : option (list Z) :=
  match s with
  | [] => None
  | c :: s => if c =? 10 then Some [c] else cons c <$> readLine s
  end.

Definition pingGreeting : list Z := [5; 1; 0].
(** The length of the host is cut to a byte. *)
Definition pingConnect (host : list Z) (port : Z) : list Z :=
  [5; 1; 0; 3; u8 (Z.of_nat (length host))] ++ host ++ be_bytes 2 (u16 port).
Definition pingHTTP (host path : list Z) : list Z :=
  str "GET " ++ path ++ str " HTTP/1.1" ++ CRLF ++ str "Host: " ++ host ++ CRLF ++
  str "User-Agent: persianray-ios-awg-ping/1.0" ++ CRLF ++ str "Accept: */*" ++ CRLF ++ str "Connection: close" ++ CRLF ++ CRLF.

Definition pread (n : nat) (r : list Z) : result pingError (list Z * list Z) :=
  if (length r <? n)%nat then Err PingShort else Ok (take n r, drop n r).

(** The bound address of the reply, which is dropped. *)
Definition skipBound (atyp : Z) (r : list Z) : result pingError (list Z) :=
  try r <- (if atyp =? 1 then try a <- pread 4 r ;; Ok a.2
            else if atyp =? 4 then try a <- pread 16 r ;; Ok a.2
            else if atyp =? 3 then try lb <- pread 1 r ;; try a <- pread (Z.to_nat (nth 0 lb.1 0)) lb.2 ;; Ok a.2
            else Err PingAtyp) ;;
  try a <- pread 2 r ;; Ok a.2.

(** [socksGenerate204]: what the client writes, and whether the page answered. *)
Definition socksGenerate204 (host : list Z) (port : Z) (path server : list Z) : list (list Z) * result pingError unit :=
  match pread 2 server with
  | Err e => ([pingGreeting], Err e)
  | Ok (greet, server) =>
      if negb (nth 0 greet 0 =? 5) || negb (nth 1 greet 0 =? 0) then ([pingGreeting], Err PingGreeting)
      else
        let sent := [pingGreeting; pingConnect host port] in
        match pread 4 server with
        | Err e => (sent, Err e)
        | Ok (head, server) =>
            if negb (nth 0 head 0 =? 5) || negb (nth 1 head 0 =? 0) then (sent, Err PingConnect)
            else match skipBound (nth 3 head 0) server with
            | Err e => (sent, Err e)
            | Ok server =>
                let sent := sent ++ [pingHTTP host path] in
                match readLine server with
                | None => (sent, Err PingShort)
                | Some line =>
                    if containsStr (trimSpace line) (str " 204") then (sent, Ok tt) else (sent, Err PingStatus)
                end
            end
        end
  end.

(** ** A ping talks to the server of its own tunnel

    The conversation of [socksGenerate204] with [handleSocks]. *)

Lemma readFull_app n a b : length a = n -> readFull n (a ++ b) = Ok (a, b).
Proof.
  intros <-. unfold readFull. rewrite length_app. destruct (Nat.ltb_spec (length a + length b) (length a)); [lia|].
  by rewrite take_app_length, drop_app_length.
Qed.

Lemma pread_app n a b : length a = n -> pread n (a ++ b) = Ok (a, b).
Proof.
  intros <-. unfold pread. rewrite length_app. destruct (Nat.ltb_spec (length a + length b) (length a)); [lia|].
  by rewrite take_app_length, drop_app_length.
Qed.

(** The bytes the server writes to the client. *)
Definition replies (evs : list socksEvent) : list Z :=
  concat (map (fun ev => match ev with Reply bs => bs | _ => [] end) evs).

Definition replyOk : list Z := [5; 0; 0; 1; 0; 0; 0; 0; 0; 0].
Definition replyFail : list Z := [5; 5; 0; 1; 0; 0; 0; 0; 0; 0].

(** What the answer of the page comes to. *)
Definition pageResult (answer : list Z) : result pingError unit :=
  match readLine answer with
  | None => Err PingShort
  | Some line => if containsStr (trimSpace line) (str " 204") then Ok tt else Err PingStatus
  end.

Section Ping.
Context `{W : SocksNet}.

(** The address of a domain name. *)
Lemma readSocksAddr_name host port rest :
  (length host <= 255)%nat -> 0 <= port < 65536 ->
  readSocksAddr (u8 (Z.of_nat (length host)) :: host ++ be_bytes 2 port ++ rest) 3 = Ok (host, port, rest).
Proof.
  intros Hl Hp. unfold readSocksAddr. cbn [Z.eqb Pos.eqb].
  assert (E1 : readFull 1 (u8 (Z.of_nat (length host)) :: host ++ be_bytes 2 port ++ rest) =
    Ok ([u8 (Z.of_nat (length host))], host ++ be_bytes 2 port ++ rest)) by exact (readFull_app 1 [_] _ eq_refl).
  rewrite E1. cbn [rbind fst snd nth].
  assert (Eu : Z.to_nat (u8 (Z.of_nat (length host))) = length host) by (unfold u8; rewrite Z.mod_small; lia).
  rewrite Eu, app_assoc, readFull_app by (by rewrite length_app, length_be_bytes). cbn [rbind fst snd].
  rewrite length_app, length_be_bytes. replace (length host + 2 - 2)%nat with (length host) by lia.
  rewrite take_app_length, drop_app_length. rewrite be_val_be_bytes, Z.mod_small by lia. done.
Qed.

(** The server's side of the conversation. *)
Lemma server_side cfg host port :
  (length host <= 255)%nat -> (forall bs, clientWrite bs = true) -> policyOn cfg = false ->
  let hp := joinHostPort host (u16 port) in
  handleSocks cfg (pingGreeting ++ pingConnect host port) =
    Reply [5; 0] :: DialTunnel hp :: (if dialTunnel hp then [Reply replyOk; Relay] else [Reply replyFail]).
Proof.
  intros Hl Hw Hp. cbv zeta. unfold handleSocks. change (pingGreeting ++ pingConnect host port) with ([5; 1] ++ [0] ++ pingConnect host port).
  rewrite readFull_app by done. cbn [nth Z.eqb Pos.eqb negb]. change (Z.to_nat 1) with 1%nat. rewrite readFull_app, Hw by done. f_equal.
  unfold handleRequest, pingConnect. change ([5; 1; 0; 3; u8 (Z.of_nat (length host))]) with ([5; 1; 0; 3] ++ [u8 (Z.of_nat (length host))]).
  rewrite <- app_assoc, readFull_app by done. cbn [nth Z.eqb Pos.eqb negb app].
  rewrite <- (app_nil_r (be_bytes 2 (u16 port))), readSocksAddr_name by (done || unfold u16; apply Z.mod_pos_bound; lia).
  unfold proxyConnect, action. rewrite Hp. cbn [negb]. unfold connectVia, relayOrFail. f_equal.
  destruct (dialTunnel _); cbn [negb]; [by rewrite Hw|done].
Qed.

(** The client's side. *)
Lemma client_ok host port path answer :
  socksGenerate204 host port path ([5; 0] ++ replyOk ++ answer) =
    ([pingGreeting; pingConnect host port; pingHTTP host path], pageResult answer).
Proof.
  unfold socksGenerate204, pageResult. rewrite pread_app by done. cbn [nth Z.eqb Pos.eqb negb orb].
  change (replyOk ++ answer) with ([5; 0; 0; 1] ++ [0; 0; 0; 0] ++ [0; 0] ++ answer). rewrite pread_app by done. cbn [nth Z.eqb Pos.eqb negb orb].
  unfold skipBound. cbn [Z.eqb Pos.eqb]. rewrite pread_app by done. cbn [rbind snd]. rewrite pread_app by done. cbn [rbind snd].
  destruct (readLine answer); [|done]. by destruct (containsStr _ _).
Qed.

Lemma client_fail host port path :
  socksGenerate204 host port path ([5; 0] ++ replyFail) = ([pingGreeting; pingConnect host port], Err PingConnect).
Proof. done. Qed.

(** A ping reaches its page through its own tunnel.  The client of a probe
    and the server of the tunnel opened for it understand each other: for a host
    of at most 255 bytes, what the client writes makes the server dial exactly
    that host and port through the tunnel, whatever the policy of the
    configuration the probe is derived from; when the dial succeeds the client
    then writes its request and judges the first line of the answer, and when it
    fails the client reports it. *)
Theorem ping_conversation c ep host port path answer :
  (length host <= 255)%nat -> (forall bs, clientWrite bs = true) ->
  let hp := joinHostPort host (u16 port) in
  let evs := handleSocks (cloneForPing c ep) (pingGreeting ++ pingConnect host port) in
  evs = Reply [5; 0] :: DialTunnel hp :: (if dialTunnel hp then [Reply replyOk; Relay] else [Reply replyFail]) /\
  (if dialTunnel hp
   then socksGenerate204 host port path (replies evs ++ answer) =
        ([pingGreeting; pingConnect host port; pingHTTP host path], pageResult answer)
   else socksGenerate204 host port path (replies evs) = ([pingGreeting; pingConnect host port], Err PingConnect)).
Proof.
  intros Hl Hw. cbv zeta. rewrite server_side by done. split; [done|]. destruct (dialTunnel _); [|apply client_fail].
  change (replies _) with ([5; 0] ++ replyOk). rewrite <- app_assoc. apply client_ok.
Qed.

End Ping.

(** ** A run *)

#[local] Instance pingNet : SocksNet := {|
  dialTunnel := fun _ => true; dialDirect := fun _ => true; clientWrite := fun _ => true; listenUDP := None; listenTunUDP := true |}.

Lemma ping_conversation_witness :
  handleSocks (cloneForPing policyConfig []) (pingGreeting ++ pingConnect (str "x.ads.example") 80) =
    [Reply [5; 0]; DialTunnel (str "x.ads.example:80"); Reply replyOk; Relay] /\
  (socksGenerate204 (str "x.ads.example") 80 (str "/") ([5; 0] ++ replyOk ++ str "HTTP/1.1 204 No Content" ++ CRLF)).2 = Ok tt.
Proof.
  destruct (ping_conversation policyConfig [] (str "x.ads.example") 80 (str "/") (str "HTTP/1.1 204 No Content" ++ CRLF)) as [H1 H2].
  - vm_compute. lia.
  - intros bs. reflexivity.
  - split; [exact H1|]. change (if dialTunnel _ then ?A else ?B) with A in H2. rewrite H1 in H2.
    change (replies _ ++ ?x) with ([5; 0] ++ replyOk ++ x) in H2. rewrite H2. vm_compute. reflexivity.
Defined.
