(* ===== verification/Uapi.v ===== *)
(** * The configuration protocol ([src/awg-ios/device/uapi.go])

    [IpcSetOperation] over the lines of its input.  The settings that are checked
    together (headers, paddings, header protection key) are gathered in an
    [ipcSetDevice] and merged into the device at the end.  [IpcGetOperation] is
    in [UapiGet]; [IpcHandle], which reads the requests off a socket, is not modelled. *)

From stdpp Require Import base numbers list gmap strings.
From Stdlib Require Import ZArith Lia.
From S2P Require Import Prelude GoStrings NoiseTypes Crypto Replay RateLimiter Tai64n AllowedIPs NetIP Obf DeviceTypes Messages Noise Timers Cookie Packet Send Receive Lifecycle.

Inductive ipcError := IpcErrorIO | IpcErrorProtocol | IpcErrorInvalid | IpcErrorPortInUse.

Record ipcSetDevice := mkIpcDevice { idHeaders : PerType; idPaddings : PerType; idHeaderKey : list Z }.
#[global] Instance rebuild_ipcSetDevice : Rebuild ipcSetDevice := fun d =>
  mkIpcDevice (idHeaders d) (idPaddings d) (idHeaderKey d).

(** The peer being configured: none yet, a placeholder, or one of the device. *)
Inductive ipcTarget := IpcNone | IpcDummy (P : Peer) | IpcPeer (p : nat).

Record ipcSetPeer := mkIpcPeer { ipTarget : ipcTarget; ipCreated : bool; pkaOn : bool }.
#[global] Instance rebuild_ipcSetPeer : Rebuild ipcSetPeer := fun p => mkIpcPeer (ipTarget p) (ipCreated p) (pkaOn p).

(** What the operation keeps between two lines. *)
Record ipcState := mkIpcState { ipcDev : ipcSetDevice; ipcPeerS : ipcSetPeer; deviceConfig : bool }.
#[global] Instance rebuild_ipcState : Rebuild ipcState := fun s => mkIpcState (ipcDev s) (ipcPeerS s) (deviceConfig s).

Section Uapi.
Context `{C : Crypto} `{N : Entropy} `{B : Bind}.

Definition fromDevice (d : Device) : ipcSetDevice := mkIpcDevice (headers d) (paddings d) (headerProtectionKey d).

Definition noOverlap (h : PerType) : bool :=
  negb (rangeOverlap (tInit h) (tResponse h)) && negb (rangeOverlap (tInit h) (tCookie h)) &&
  negb (rangeOverlap (tInit h) (tTransport h)) && negb (rangeOverlap (tResponse h) (tCookie h)) &&
  negb (rangeOverlap (tResponse h) (tTransport h)) && negb (rangeOverlap (tCookie h) (tTransport h)).

Definition paddingsHoldSalt (p : PerType) : bool :=
  let n := Z.of_nat HeaderCipherNonceSize in
  (n <=? tInit p) && (n <=? tResponse p) && (n <=? tCookie p) && (n <=? tTransport p).

(** The headers are stored before the paddings are checked. *)
Definition mergeWithDevice (i : ipcSetDevice) (d : Device) : result ipcError unit * Device :=
  if negb (noOverlap (idHeaders i)) then (Err IpcErrorInvalid, d)
  else
    let d := d <| headers := idHeaders i |> in
    if negb (keyIsZero (idHeaderKey i)) && negb (paddingsHoldSalt (idPaddings i)) then (Err IpcErrorInvalid, d)
    else (Ok tt, d <| paddings := idPaddings i |> <| headerProtectionKey := idHeaderKey i |>).

(** ** Device lines *)

Abbreviation DL := (ste (ipcSetDevice * Device) ipcError unit).

Definition invalid {A E} (m : result E A) : ste (ipcSetDevice * Device) ipcError A :=
  slift (match m with Ok a => Ok a | Err _ => Err IpcErrorInvalid end).
Definition onDevice (f : Device -> Device) : DL := smod (fun s => (s.1, f s.2)).
Definition onIpc (f : ipcSetDevice -> ipcSetDevice) : DL := smod (fun s => (f s.1, s.2)).
Definition orPortInUse (m : M unit) : DL := fun s =>
  match m s.2 with (Ok _, d) => (Ok tt, (s.1, d)) | (Err _, d) => (Err IpcErrorPortInUse, (s.1, d)) end.
Definition must (b : bool) : DL := if b then sret tt else sfail IpcErrorInvalid.

Definition uintLine (bits : Z) (set : Z -> DL) (value : list Z) : DL :=
  do n <- invalid (parseUint value bits) ;; set n.
Definition rangeLine (set : Z -> DL) (value : list Z) : DL :=
  do r <- invalid (rangeFromString value) ;; set r.
Definition boolLine (set : bool -> DL) (value : list Z) : DL :=
  do b <- invalid (parseBool value) ;; set b.
Definition ipacketLine (i : nat) (value : list Z) : DL :=
  do c <- invalid (newObfChain value) ;; onDevice (fun d => d <| ipackets ::= <[i := c]> |>).

(** The cases of [switch key], in order: the interface, the obfuscation, the
    tunables. *)
Definition interfaceKeys : list (string * (list Z -> DL)) := [
  ("private_key", fun value =>
     do sk <- invalid (privateKeyFromMaybeZeroHex value) ;; onDevice (SetPrivateKey sk));
  ("listen_port", uintLine 16 (fun n =>
     onDevice (fun d => d <| net ::= (fun s => s <| port := n |>) |>) >>> orPortInUse BindUpdate));
  ("fwmark", uintLine 32 (fun n => orPortInUse (BindSetMark n)));
  ("replace_peers", fun value => must (bool_decide (value = str "true")) >>> onDevice RemoveAllPeers)
]%string.

Definition obfuscationKeys : list (string * (list Z -> DL)) := [
  ("jc", uintLine 32 (fun n => onDevice (fun d => d <| junk ::= (fun j => j <| junkCount := n |>) |>)));
  ("jmin", uintLine 32 (fun n => onDevice (fun d => d <| junk ::= (fun j => j <| junkMin := n |>) |>)));
  ("jmax", uintLine 32 (fun n => onDevice (fun d => d <| junk ::= (fun j => j <| junkMax := n |>) |>)));
  ("s1", uintLine 16 (fun n => onIpc (fun i => i <| idPaddings ::= (fun p => p <| tInit := n |>) |>)));
  ("s2", uintLine 16 (fun n => onIpc (fun i => i <| idPaddings ::= (fun p => p <| tResponse := n |>) |>)));
  ("s3", uintLine 16 (fun n => onIpc (fun i => i <| idPaddings ::= (fun p => p <| tCookie := n |>) |>)));
  ("s4", uintLine 16 (fun n => onIpc (fun i => i <| idPaddings ::= (fun p => p <| tTransport := n |>) |>)));
  ("h1", rangeLine (fun r => onIpc (fun i => i <| idHeaders ::= (fun h => h <| tInit := r |>) |>)));
  ("h2", rangeLine (fun r => onIpc (fun i => i <| idHeaders ::= (fun h => h <| tResponse := r |>) |>)));
  ("h3", rangeLine (fun r => onIpc (fun i => i <| idHeaders ::= (fun h => h <| tCookie := r |>) |>)));
  ("h4", rangeLine (fun r => onIpc (fun i => i <| idHeaders ::= (fun h => h <| tTransport := r |>) |>)));
  ("i1", ipacketLine 0); ("i2", ipacketLine 1); ("i3", ipacketLine 2); ("i4", ipacketLine 3); ("i5", ipacketLine 4);
  ("header_protection_key", fun value =>
     do key <- invalid (keyFromHex value) ;; onIpc (fun i => i <| idHeaderKey := key |>))
]%string.

Definition tunableKeys : list (string * (list Z -> DL)) := [
  ("content_padding_addition", rangeLine (fun r => onDevice (fun d => d <| contentPaddingAddition := r |>)));
  ("rekey_after_time", rangeLine (fun r => onDevice (fun d => d <| timings ::= (fun t => t <| rekeyAfterTimeSec := r |>) |>)));
  ("rekey_timeout", rangeLine (fun r => onDevice (fun d => d <| timings ::= (fun t => t <| rekeyTimeoutSec := r |>) |>)));
  ("reject_after_time", rangeLine (fun r => onDevice (fun d => d <| timings ::= (fun t => t <| rejectAfterTimeSec := r |>) |>)));
  ("keepalive_timeout", rangeLine (fun r => onDevice (fun d => d <| timings ::= (fun t => t <| keepaliveTimeoutSec := r |>) |>)));
  ("max_handshake_attempts", rangeLine (fun r => onDevice (fun d => d <| timings ::= (fun t => t <| maxHandshakeAttempsR := r |>) |>)));
  ("random_trailers", boolLine (fun b => onDevice (fun d => d <| randomTrailers := b |>)));
  ("disable_cookies", boolLine (fun b => onDevice (fun d => d <| disableCookies := b |>)))
]%string.

Definition deviceKeys : list (string * (list Z -> DL)) := interfaceKeys ++ obfuscationKeys ++ tunableKeys.

(** [switch key]. *)
Fixpoint switchKey {A} (key : list Z) (cases : list (string * A)) (dflt : A) : A :=
  match cases with
  | [] => dflt
  | (k, a) :: cases => if bool_decide (key = str k) then a else switchKey key cases dflt
  end.

Definition handleDeviceLine (key value : list Z) : DL :=
  switchKey key deviceKeys (fun _ => sfail IpcErrorInvalid) value.

(** ** Peer lines *)

(** A change to the record of the peer being configured. *)
Definition modTarget (f : Peer -> Peer) (s : ipcSetPeer) (d : Device) : ipcSetPeer * Device :=
  match ipTarget s with
  | IpcNone => (s, d)
  | IpcDummy P => (s <| ipTarget := IpcDummy (f P) |>, d)
  | IpcPeer p => (s, modPeer p f d)
  end.

Definition targetPeer (s : ipcSetPeer) (d : Device) : Peer :=
  match ipTarget s with IpcNone => zeroPeer | IpcDummy P => P | IpcPeer p => peerOf d p end.

Definition handlePostConfig (s : ipcSetPeer) (d : Device) : Device :=
  match ipTarget s with
  | IpcNone | IpcDummy _ => d
  | IpcPeer p =>
      let d := if ipCreated s then
                 modPeer p (fun P => P <| endpoint ::= (fun e =>
                   e <| disableRoaming := brokenRoaming (net d) && bool_decide (is_Some (epVal e)) |>) |>) d
               else d in
      if isUp d then
        let d := Start p d in
        let d := if pkaOn s then SendKeepalive p d else d in
        SendStagedPackets p d
      else d
  end.

Abbreviation PL := (ste (ipcSetPeer * Device) ipcError unit).

(** [pkaOn] is not reset for the next peer. *)
Definition handlePublicKeyLine (value : list Z) : PL := fun '(s, d) =>
  match keyFromHex value with
  | Err _ => (Err IpcErrorInvalid, (s, d))
  | Ok pk =>
      if bool_decide (publicKeyOf d = pk) then (Ok tt, (s <| ipTarget := IpcDummy zeroPeer |> <| ipCreated := false |>, d))
      else
        match LookupPeer d pk with
        | Some p => (Ok tt, (s <| ipTarget := IpcPeer p |> <| ipCreated := false |>, d))
        | None =>
            match NewPeer pk d with
            | (Ok p, d) => (Ok tt, (s <| ipTarget := IpcPeer p |> <| ipCreated := true |>, d))
            | (Err _, d) => (Err IpcErrorInvalid, (s <| ipTarget := IpcNone |> <| ipCreated := true |>, d))
            end
        end
  end.

Definition pmust (b : bool) : PL := if b then sret tt else sfail IpcErrorInvalid.
Definition plift {A E} (m : result E A) : ste (ipcSetPeer * Device) ipcError A :=
  slift (match m with Ok a => Ok a | Err _ => Err IpcErrorInvalid end).
Definition pmod (f : ipcSetPeer -> Device -> ipcSetPeer * Device) : PL := smod (fun s => f s.1 s.2).

(** The selected peer leaves the device, a placeholder takes its place. *)
Definition dropTarget (s : ipcSetPeer) (d : Device) : ipcSetPeer * Device :=
  let d := match ipTarget s with IpcPeer p => RemovePeer (remoteStatic (hsOf d p)) d | _ => d end in
  (s <| ipTarget := IpcDummy zeroPeer |>, d).

Definition isTrue (value : list Z) : bool := bool_decide (value = str "true").

(** [allowed_ip]: a minus sign removes the prefix. *)
Definition allowedIpLine (value : list Z) : PL :=
  let '(add, value) := match value with 45 :: v => (false, v) | _ => (true, value) end in
  do prefix <- plift (match ParsePrefix value with Some p => Ok p | None => Err tt end) ;;
  pmod (fun s d =>
    match ipTarget s with
    | IpcPeer p =>
        let t := if add : bool then Insert (allowedips d) prefix p else Remove (allowedips d) prefix p in
        (s, d <| allowedips := default (allowedips d) t |>)
    | _ => (s, d)
    end).

Definition peerKeys : list (string * (list Z -> PL)) := [
  ("update_only", fun value => pmust (isTrue value) >>>
     pmod (fun s d => match ipTarget s with IpcPeer _ => if ipCreated s then dropTarget s d else (s, d) | _ => (s, d) end));
  ("remove", fun value => pmust (isTrue value) >>> pmod dropTarget);
  ("preshared_key", fun value =>
     do psk <- plift (keyFromHex value) ;;
     pmod (modTarget (fun P => P <| handshake ::= (fun h => h <| presharedKey := psk |>) |>)));
  ("endpoint", fun value => fun '(s, d) =>
     match parseEndpoint d value with
     | None => (Err IpcErrorInvalid, (s, d))
     | Some ep => (Ok tt, modTarget (fun P => P <| endpoint ::= (fun e => e <| epVal := Some ep |>) |>) s d)
     end);
  ("persistent_keepalive_interval", fun value =>
     do r <- plift (rangeFromString value) ;;
     pmod (fun s d =>
       let old := persistentKeepaliveInterval (targetPeer s d) in
       let '(s, d) := modTarget (fun P => P <| persistentKeepaliveInterval := r |>) s d in
       (s <| pkaOn := rangeIsZero old && negb (rangeIsZero r) |>, d)));
  ("replace_allowed_ips", fun value => pmust (isTrue value) >>>
     pmod (fun s d => match ipTarget s with
                      | IpcPeer p => (s, d <| allowedips := default (allowedips d) (RemoveByPeer (allowedips d) p) |>)
                      | _ => (s, d)
                      end));
  ("allowed_ip", allowedIpLine);
  ("protocol_version", fun value => pmust (bool_decide (value = str "1")))
]%string.

Definition handlePeerLine (key value : list Z) : PL :=
  switchKey key peerKeys (fun _ => sfail IpcErrorInvalid) value.

(** ** The operation *)

Definition onPeerState (m : PL) : ste (ipcState * Device) ipcError unit := fun '(st, d) =>
  let '(r, (s, d)) := m (ipcPeerS st, d) in (r, (st <| ipcPeerS := s |>, d)).
Definition onDeviceState (m : DL) : ste (ipcState * Device) ipcError unit := fun '(st, d) =>
  let '(r, (i, d)) := m (ipcDev st, d) in (r, (st <| ipcDev := i |>, d)).

Definition handleLine (line : list Z) : ste (ipcState * Device) ipcError unit :=
  let '(key, value, ok) := cutByte 61 line in
  if negb ok then sfail IpcErrorProtocol
  else if bool_decide (key = str "public_key") then
    smod (fun '(st, d) => (st <| deviceConfig := false |>, handlePostConfig (ipcPeerS st) d)) >>>
    onPeerState (handlePublicKeyLine value)
  else fun '(st, d) =>
    if deviceConfig st then onDeviceState (handleDeviceLine key value) (st, d)
    else onPeerState (handlePeerLine key value) (st, d).

(** The end of the operation, at a blank line or at the end of the input. *)
Definition finishIpc (st : ipcState) (d : Device) : result ipcError unit * Device :=
  match mergeWithDevice (ipcDev st) d with
  | (Err e, d) => (Err e, d)
  | (Ok _, d) => (Ok tt, handlePostConfig (ipcPeerS st) d)
  end.

(** The loop over the lines and what follows it.  At the end of the input the
    scanner's error is looked at last, after the merge; at a blank line it is not. *)
Fixpoint ipcLines (tooLong : bool) (lines : list (list Z)) (st : ipcState) (d : Device) : result ipcError unit * Device :=
  match lines with
  | [] =>
      match finishIpc st d with
      | (Err e, d) => (Err e, d)
      | (Ok _, d) => (if tooLong then Err IpcErrorIO else Ok tt, d)
      end
  | [] :: _ => finishIpc st d
  | line :: lines =>
      match handleLine line (st, d) with
      | (Err e, (_, d)) => (Err e, d)
      | (Ok _, (st, d)) => ipcLines tooLong lines st d
      end
  end.

Definition ipcStart (d : Device) : ipcState :=
  mkIpcState (fromDevice d) (mkIpcPeer IpcNone false false) true.

(** [bufio.Scanner] with its default split function: the lines before the first one
    that does not fit its buffer of [MaxScanTokenSize] bytes with the newline, and
    whether there is such a line. *)
Definition dropCR (line : list Z) : list Z :=
  match reverse line with 13 :: l => reverse l | _ => line end.

Definition MaxScanTokenSize : Z := 65536.
Definition fitsScanner (line : list Z) : bool := Z.of_nat (length line) <? MaxScanTokenSize.

Fixpoint scanParts (parts : list (list Z)) : list (list Z) * bool :=
  match parts with
  | [] => ([], false)
  | p :: parts =>
      if fitsScanner p then let '(lines, tooLong) := scanParts parts in (dropCR p :: lines, tooLong)
      else ([], true)
  end.

Definition scanLines (s : list Z) : list (list Z) * bool :=
  let parts := splitByte 10 s in
  scanParts (match reverse parts with [] :: l => reverse l | _ => parts end).

Definition IpcSet (uapiConf : list Z) (d : Device) : result ipcError unit * Device :=
  let '(lines, tooLong) := scanLines uapiConf in
  ipcLines tooLong lines (ipcStart d) d.

End Uapi.
