(* ===== verification/PrUapiThm.v ===== *)
(** * The configuration text is the one the device understands

    The imitated first packet is accepted by the chain parser as one element that
    writes it, and the configuration text of a tunnel, given to [IpcSet] on a new
    device, sets up exactly what the tunnel's configuration says. *)

From stdpp Require Import base numbers list gmap strings.
From Stdlib Require Import ZArith Lia Ascii.
From S2P Require Import Prelude GoStrings NoiseTypes Crypto Replay RateLimiter Tai64n AllowedIPs NetIP Obf DeviceTypes Messages Noise Timers Cookie Packet Send Receive Lifecycle GoNet PrConfig PrI1 Uapi.

(** ** Bytes *)

Lemma bytes_app l1 l2 : bytes_ok (l1 ++ l2) <-> bytes_ok l1 /\ bytes_ok l2.
Proof. apply Forall_app. Qed.
Lemma bytes_cons x l : bytes_ok (x :: l) <-> is_u8 x /\ bytes_ok l.
Proof. apply Forall_cons. Qed.
Lemma bytes_nil : bytes_ok [].
Proof. constructor. Qed.
Lemma u8_ok x : is_u8 (u8 x).
Proof. unfold is_u8, u8. apply Z.mod_pos_bound. lia. Qed.
Lemma str_ok s : bytes_ok (str s).
Proof.
  induction s as [|c s IH]; [constructor|]. constructor; [|exact IH]. unfold is_u8. pose proof (N_ascii_bounded c). lia.
Qed.
Lemma randRead_ok `{N : Entropy} n pos : bytes_ok (randRead n pos).
Proof. unfold randRead. apply Forall_fmap, Forall_forall. intros i _. apply u8_ok. Qed.
Lemma zeros_ok n : bytes_ok (zeros n).
Proof. apply Forall_replicate. unfold is_u8. lia. Qed.
Lemma hexEncode_ok bs : bytes_ok bs -> bytes_ok (hexEncode bs).
Proof. intros H. eapply Forall_impl; [by apply hexEncode_chars|]. unfold is_u8. cbn. lia. Qed.
Lemma bytes_sub l1 l2 : (forall x, x ∈ l1 -> x ∈ l2) -> bytes_ok l2 -> bytes_ok l1.
Proof. unfold bytes_ok. rewrite !Forall_forall. auto. Qed.
Lemma bytes_take n l : bytes_ok l -> bytes_ok (take n l).
Proof. apply Forall_take. Qed.
Lemma bytes_drop n l : bytes_ok l -> bytes_ok (drop n l).
Proof. apply Forall_drop. Qed.
Lemma bytes_reverse l : bytes_ok l -> bytes_ok (reverse l).
Proof. apply Forall_reverse. Qed.

Create HintDb bytes.
#[export] Hint Resolve u8_ok str_ok randRead_ok zeros_ok hexEncode_ok bytes_take bytes_drop bytes_nil be_bytes_ok : bytes.

Ltac solve_bytes :=
  repeat (progress rewrite ?bytes_app, ?bytes_cons); repeat match goal with |- _ /\ _ => split end; auto with bytes; try (unfold is_u8; lia).

Section I1.
Context `{N : Entropy}.

Lemma trimLeftSpace_ok s : bytes_ok s -> bytes_ok (trimLeftSpace s).
Proof. induction 1 as [|x s Hx Hs IH]; cbn [trimLeftSpace]; [constructor|]. destruct (isSpace x); [done|by constructor]. Qed.
Lemma trimSpace_ok s : bytes_ok s -> bytes_ok (trimSpace s).
Proof. intros H. unfold trimSpace. by apply bytes_reverse, trimLeftSpace_ok, bytes_reverse, trimLeftSpace_ok. Qed.
Lemma trimLeftByte_ok c s : bytes_ok s -> bytes_ok (trimLeftByte c s).
Proof. induction 1 as [|x s Hx Hs IH]; cbn [trimLeftByte]; [constructor|]. destruct (x =? c); [done|by constructor]. Qed.

Lemma splitByte_ok c s : bytes_ok s -> Forall bytes_ok (splitByte c s).
Proof.
  induction 1 as [|x s Hx Hs IH]; cbn [splitByte]; [repeat constructor|]. destruct (x =? c); [apply Forall_cons; split; [constructor|done]|].
  destruct (splitByte c s) as [|h t]; [apply Forall_cons; split; [solve_bytes|constructor]|]. apply Forall_cons in IH as [Hh Ht]. constructor; [by constructor|done].
Qed.

Lemma encodeVarint_ok n : bytes_ok (encodeVarint n).
Proof. unfold encodeVarint. destruct (_ <? _); [solve_bytes|]. destruct (_ <? _); solve_bytes. Qed.
Lemma len2_ok n : bytes_ok (len2 n).
Proof. unfold len2. solve_bytes. Qed.
#[local] Hint Resolve encodeVarint_ok len2_ok : bytes.

Lemma tlsClientHello_ok sni pos : bytes_ok sni -> bytes_ok (tlsClientHello sni pos).1.
Proof. intros H. unfold tlsClientHello, extSNI. cbn [fst]. solve_bytes. Qed.

Lemma truncate_ok n (b : list Z) : bytes_ok b -> b <> [] -> (0 < n)%nat ->
  let r := if (n <? length b)%nat then take n b else b in bytes_ok r /\ r <> [] /\ (length r <= n)%nat.
Proof.
  intros Hb Hne Hn. cbv zeta. destruct (Nat.ltb_spec n (length b)).
  - split; [by apply bytes_take|]. split; [|rewrite length_take; lia]. destruct b, n; try done. lia.
  - done.
Qed.

Lemma quicInitial_ok sni pos :
  bytes_ok sni -> bytes_ok (quicInitial sni pos).1 /\ (quicInitial sni pos).1 <> [] /\ (length (quicInitial sni pos).1 <= 1200)%nat.
Proof.
  intros H. unfold quicInitial. pose proof (tlsClientHello_ok sni (pos + 16) H) as Hc.
  destruct (tlsClientHello sni (pos + 16)) as [ch q']. cbn [fst] in *.
  apply truncate_ok; [solve_bytes|intros Hx; discriminate Hx|lia].
Qed.

Lemma dnsQuery_ok sni pos : bytes_ok sni -> bytes_ok (dnsQuery sni pos).1 /\ (dnsQuery sni pos).1 <> [].
Proof.
  intros H. unfold dnsQuery. cbn [fst]. split; [|done]. solve_bytes.
  apply Forall_concat, Forall_fmap.
  eapply Forall_impl; [apply splitByte_ok; unfold trimByte; by apply bytes_reverse, trimLeftByte_ok, bytes_reverse, trimLeftByte_ok|].
  intros l Hl. cbn. unfold labelBytes. destruct (_ || _); [constructor|]. by solve_bytes.
Qed.

Lemma sipOptions_ok host pos : bytes_ok host -> bytes_ok (sipOptions host pos).1 /\ (sipOptions host pos).1 <> [].
Proof. intros H. unfold sipOptions, CRLF. cbn [fst]. split; [solve_bytes|done]. Qed.

Lemma stunBinding_ok pos : bytes_ok (stunBinding pos).1 /\ (stunBinding pos).1 <> [].
Proof. unfold stunBinding. cbn [fst]. split; [solve_bytes|done]. Qed.

(** The kinds for which the packet is that of QUIC. *)
Definition quicKind (kind : list Z) : Prop := kind = str "awg" \/ kind = str "quic".

Lemma i1Packet_ok kind sni pos pkt pos' :
  bytes_ok sni -> i1Packet kind sni pos = Some (pkt, pos') ->
  bytes_ok pkt /\ pkt <> [] /\ (quicKind kind -> (length pkt <= 1200)%nat).
Proof.
  intros H. unfold i1Packet. destruct (_ || _); [done|].
  assert (Hfst : forall o : list Z * nat, Some o = Some (pkt, pos') -> pkt = o.1) by (intros o E; apply Some_inj in E; by rewrite E).
  pose proof (quicInitial_ok sni pos H) as (Q1 & Q2 & Q3).
  case_bool_decide as E1; [intros ->%Hfst; by repeat split|].
  case_bool_decide as E2; [intros ->%Hfst; destruct (dnsQuery_ok sni pos H); split; [done|split; [done|intros [->| ->]; done]]|].
  case_bool_decide as E3; [intros ->%Hfst; destruct (sipOptions_ok sni pos H); split; [done|split; [done|intros [->| ->]; done]]|].
  case_bool_decide as E4; [intros ->%Hfst; destruct (stunBinding_ok pos); split; [done|split; [done|intros [->| ->]; done]]|].
  case_bool_decide as E5; [intros ->%Hfst; by repeat split|done].
Qed.

(** A tag [b 0x…] with the digits of [pkt] builds the element that writes it. *)
Lemma fieldsAux_word w cur : Forall (fun c => isSpace c = false) w -> w <> [] \/ cur <> [] -> fieldsAux w cur = [reverse cur ++ w].
Proof.
  intros Hw. revert cur. induction Hw as [|x w Hx Hw IH]; intros cur Hne; cbn [fieldsAux].
  - rewrite decide_False by naive_solver. by rewrite app_nil_r.
  - rewrite Hx, IH by (by right). rewrite reverse_cons, <- app_assoc. done.
Qed.

Lemma hex_no_space bs : bytes_ok bs -> Forall (fun c => isSpace c = false) (hexEncode bs).
Proof.
  intros H. eapply Forall_impl; [by apply hexEncode_chars|]. cbn. intros c Hc. unfold isSpace. lia.
Qed.

Lemma buildTag_bytes pkt : bytes_ok pkt -> pkt <> [] -> buildTag (str "b 0x" ++ hexEncode pkt) = Ok (bytesObf pkt).
Proof.
  intros H Hne. unfold buildTag, fields.
  assert (Hf : fieldsAux (str "b 0x" ++ hexEncode pkt) [] = [str "b"; str "0x" ++ hexEncode pkt]).
  { change (str "b 0x" ++ hexEncode pkt) with ([98; 32; 48; 120] ++ hexEncode pkt). cbn [app fieldsAux isSpace Z.eqb Pos.eqb Z.leb orb andb].
    cbn. change (48 :: 120 :: hexEncode pkt) with ([48; 120] ++ hexEncode pkt).
    rewrite fieldsAux_word; [done|by apply hex_no_space|by right]. }
  rewrite Hf. cbn [obfBuilders]. change (obfBuilders (str "b")) with (Some newBytesObf). cbv beta iota.
  unfold newBytesObf, trimPrefix, hasPrefix. rewrite bool_decide_eq_true_2 by done. cbv zeta.
  change (drop (length (str "0x")) (str "0x" ++ hexEncode pkt)) with (hexEncode pkt).
  assert (Hl : length (hexEncode pkt) = (2 * length pkt)%nat) by apply length_hexEncode.
  rewrite decide_False.
  2: { intros E. rewrite E in Hl. destruct pkt; [done|]. cbn in Hl. lia. }
  rewrite Hl. replace (Nat.odd (2 * length pkt)) with false by (rewrite Nat.odd_mul; done).
  rewrite hexDecode_hexEncode by done. done.
Qed.

Lemma newObfChain_bytes pkt : bytes_ok pkt -> pkt <> [] ->
  newObfChain (str "<b 0x" ++ hexEncode pkt ++ str ">") = Ok (Some (mkChain (str "<b 0x" ++ hexEncode pkt ++ str ">") [bytesObf pkt])).
Proof.
  intros H Hne. unfold newObfChain. set (spec := str "<b 0x" ++ _).
  assert (Es : spec = concat (renderSeg <$> [([], str "b 0x" ++ hexEncode pkt)]) ++ []).
  { unfold spec, renderSeg. cbn [fmap list_fmap concat fst snd]. by rewrite !app_nil_r, <- app_assoc. }
  assert (Hseg : Forall seg_ok [([], str "b 0x" ++ hexEncode pkt)]).
  { constructor; [|constructor]. split; cbn [fst snd]; [constructor|]. apply Forall_app. split; [by repeat constructor|].
    eapply Forall_impl; [by apply hexEncode_chars|]. cbn. lia. }
  assert (Hp : parseTags (S (length spec)) spec [] [] = Ok ([bytesObf pkt], [])).
  { rewrite Es at 2. rewrite parseTags_spec; [|done|constructor|cbn; lia].
    unfold okTags, badTags. cbn [omap list_omap snd]. by rewrite buildTag_bytes. }
  rewrite Hp. cbn [rbind]. done.
Qed.

Lemma obfuscated_bytes spec pkt now pos : obfuscated (mkChain spec [bytesObf pkt]) [] now pos = Some (pkt, pos).
Proof.
  rewrite obfuscated_spec by (by repeat constructor). cbn. rewrite app_nil_r. by rewrite Nat.add_0_r.
Qed.

(** What [buildI1] returns: nothing, or the text of a packet. *)
Lemma buildI1_text kind sni pos :
  bytes_ok sni ->
  (buildI1 kind sni pos).1 = [] \/ exists pkt, (buildI1 kind sni pos).1 = str "<b 0x" ++ hexEncode pkt ++ str ">" /\
    bytes_ok pkt /\ pkt <> [] /\ (quicKind (toLower (trimSpace kind)) -> (length pkt <= 1200)%nat).
Proof.
  intros H. unfold buildI1. cbv zeta. set (sni' := orDefault _ _).
  assert (Hs : bytes_ok sni').
  { unfold sni', orDefault. destruct (bool_decide _); [apply str_ok|by apply trimSpace_ok]. }
  destruct (i1Packet _ sni' pos) as [[pkt pos']|] eqn:Ep; [|by left].
  destruct (i1Packet_ok _ _ _ _ _ Hs Ep) as (P1 & P2 & P3).
  destruct (length pkt =? 0)%nat; [by left|]. right. by exists pkt.
Qed.

(** The imitated first packet reaches the wire as it was built.  What
    [buildI1] returns is either empty or the text of a non-empty packet of bytes,
    and the device's chain parser reads that text as one element which, before
    every handshake, writes exactly that packet; for the QUIC kinds the packet
    has at most 1200 bytes. *)
Theorem i1_accepted kind sni pos :
  bytes_ok sni ->
  let s := (buildI1 kind sni pos).1 in
  s = [] \/ exists pkt c, newObfChain s = Ok (Some c) /\ (forall t p, obfuscated c [] t p = Some (pkt, p)) /\
    bytes_ok pkt /\ pkt <> [] /\ (quicKind (toLower (trimSpace kind)) -> (length pkt <= 1200)%nat).
Proof.
  intros H. cbv zeta. destruct (buildI1_text kind sni pos H) as [E|(pkt & -> & P1 & P2 & P3)]; [by left|]. right.
  exists pkt, (mkChain (str "<b 0x" ++ hexEncode pkt ++ str ">") [bytesObf pkt]).
  split; [by apply newObfChain_bytes|]. split; [intros t p; apply obfuscated_bytes|]. done.
Qed.

(** ** The lines of the configuration text *)

Definition kvLine (kv : string * list Z) : list Z := line (str kv.1) kv.2.
Definition kvBody (kv : string * list Z) : list Z := str kv.1 ++ 61 :: kv.2.

(** A value that stays on its line. *)
Definition lastOf (v : list Z) : option Z := head (reverse v).
Definition oneLine (v : list Z) : Prop := 10 ∉ v /\ lastOf v <> Some 13.

Lemma splitByte_lines bodies :
  Forall (fun b => 10 ∉ b) bodies -> splitByte 10 (concat (map (fun b => b ++ [10]) bodies)) = bodies ++ [[]].
Proof.
  induction 1 as [|b bodies Hb Hbs IH]; [done|]. cbn [map concat]. rewrite <- app_assoc. cbn [app].
  rewrite splitByte_app by (by apply Forall_forall; intros x Hx ->). by rewrite IH.
Qed.

Lemma dropCR_id b : lastOf b <> Some 13 -> dropCR b = b.
Proof.
  unfold dropCR, lastOf. destruct (reverse b) as [|x l]; [done|]. cbn [head]. intros H.
  destruct x as [|x|x]; try done. do 4 (destruct x as [x|x|]; try done).
Qed.

Lemma lastOf_app l1 l2 : l2 <> [] -> lastOf (l1 ++ l2) = lastOf l2.
Proof. unfold lastOf. rewrite reverse_app. intros H. destruct (reverse l2) eqn:E; [|done]. by destruct l2; [|apply (f_equal length) in E; rewrite length_reverse in E]. Qed.

Lemma oneLine_chars v : Forall (fun x => x <> 10 /\ x <> 13) v -> oneLine v.
Proof.
  intros H. split; [intros Hin; rewrite Forall_forall in H; by destruct (H _ Hin)|].
  unfold lastOf. apply Forall_reverse in H. destruct (reverse v); [done|]. apply Forall_cons in H as [[_ H] _]. cbn. congruence.
Qed.

(** Keys are words of letters, digits and underscores. *)
Definition keyOk (k : string) : bool := forallb (fun c => negb (c =? 10) && negb (c =? 13) && negb (c =? 61)) (str k).

Lemma keyOk_spec k : keyOk k = true -> 10 ∉ str k /\ 61 ∉ str k.
Proof.
  unfold keyOk. rewrite forallb_forall. intros H. split; intros Hin; apply list_elem_of_In in Hin; by specialize (H _ Hin).
Qed.

(** A line that is read back as it was written: its key is a word, its value stays on
    the line, and the line fits the scanner. *)
Definition kvOk (kv : string * list Z) : Prop := keyOk kv.1 = true /\ oneLine kv.2 /\ fitsScanner (kvBody kv) = true.

Lemma scanParts_bodies bodies :
  Forall (fun b => lastOf b <> Some 13 /\ fitsScanner b = true) bodies -> scanParts bodies = (bodies, false).
Proof. induction 1 as [|b bodies [Hl Hf] _ IH]; [done|]. cbn [scanParts]. by rewrite Hf, IH, dropCR_id. Qed.

Lemma scanLines_kv kvs : Forall kvOk kvs -> scanLines (concat (map kvLine kvs)) = (map kvBody kvs, false).
Proof.
  intros H. unfold scanLines.
  assert (E : concat (map kvLine kvs) = concat (map (fun b => b ++ [10]) (map kvBody kvs))).
  { rewrite map_map. f_equal. apply map_ext. intros kv. unfold kvLine, kvBody, line. by rewrite <- app_assoc. }
  rewrite E, splitByte_lines.
  2: { apply Forall_fmap. eapply Forall_impl; [exact H|]. intros [k v] [Hk [[Hv _] _]]. cbn in *. destruct (keyOk_spec k Hk).
       unfold kvBody. cbn. rewrite elem_of_app, elem_of_cons. intros [?|[?|?]]; done. }
  rewrite reverse_snoc, reverse_involutive. clear E. apply scanParts_bodies, Forall_fmap. eapply Forall_impl; [exact H|].
  intros [k v] (Hk & [_ Hl] & Hf). split; [|exact Hf]. unfold kvBody. cbn [compose fst snd] in *. rewrite lastOf_app by done.
  destruct v as [|x v]; [done|]. change (61 :: x :: v) with ([61] ++ x :: v). by rewrite lastOf_app.
Qed.

Section Accepted.
Context `{C : Crypto} `{B : Bind}.

Lemma cut_body k v : keyOk k = true -> cutByte 61 (kvBody (k, v)) = (str k, v, true).
Proof. intros H. unfold kvBody. cbn [fst snd]. apply cutByte_app. destruct (keyOk_spec k H) as [_ H2]. apply Forall_forall. by intros x Hx ->. Qed.

Lemma ipcLines_dev k v lines st d i' d' :
  keyOk k = true -> bool_decide (str k = str "public_key") = false -> str k <> [] -> deviceConfig st = true ->
  handleDeviceLine (str k) v (ipcDev st, d) = (Ok tt, (i', d')) ->
  ipcLines false (kvBody (k, v) :: lines) st d = ipcLines false lines (st <| ipcDev := i' |>) d'.
Proof.
  intros Hk Hp Hne Hc Hh. cbn [ipcLines].
  assert (He : forall A (x y : A), match kvBody (k, v) with [] => x | _ :: _ => y end = y) by (intros A x y; unfold kvBody; cbn; by destruct (str k)).
  assert (Hl : handleLine (kvBody (k, v)) (st, d) = (Ok tt, (st <| ipcDev := i' |>, d'))).
  { unfold handleLine. rewrite cut_body by done. cbn [negb]. rewrite Hp, Hc. unfold onDeviceState. by rewrite Hh. }
  rewrite He. by rewrite Hl.
Qed.

Lemma ipcLines_peer k v lines st d s' d' :
  keyOk k = true -> bool_decide (str k = str "public_key") = false -> str k <> [] -> deviceConfig st = false ->
  handlePeerLine (str k) v (ipcPeerS st, d) = (Ok tt, (s', d')) ->
  ipcLines false (kvBody (k, v) :: lines) st d = ipcLines false lines (st <| ipcPeerS := s' |>) d'.
Proof.
  intros Hk Hp Hne Hc Hh. cbn [ipcLines].
  assert (He : forall A (x y : A), match kvBody (k, v) with [] => x | _ :: _ => y end = y) by (intros A x y; unfold kvBody; cbn; by destruct (str k)).
  assert (Hl : handleLine (kvBody (k, v)) (st, d) = (Ok tt, (st <| ipcPeerS := s' |>, d'))).
  { unfold handleLine. rewrite cut_body by done. cbn [negb]. rewrite Hp, Hc. unfold onPeerState. by rewrite Hh. }
  rewrite He. by rewrite Hl.
Qed.

Lemma ipcLines_public_key v lines st d s' d' :
  handlePublicKeyLine v (ipcPeerS st, handlePostConfig (ipcPeerS st) d) = (Ok tt, (s', d')) ->
  ipcLines false (kvBody ("public_key"%string, v) :: lines) st d = ipcLines false lines (st <| deviceConfig := false |> <| ipcPeerS := s' |>) d'.
Proof.
  intros Hh. cbn [ipcLines].
  assert (Hl : handleLine (kvBody ("public_key"%string, v)) (st, d) = (Ok tt, (st <| deviceConfig := false |> <| ipcPeerS := s' |>, d'))).
  { unfold handleLine. rewrite cut_body by done. cbn [negb]. rewrite bool_decide_eq_true_2 by done.
    unfold smod, sbind, onPeerState. cbn [fst snd].
    change (ipcPeerS (st <| deviceConfig := false |>)) with (ipcPeerS st). by rewrite Hh. }
  change (match kvBody ("public_key"%string, v) with [] => ?x | _ :: _ => ?y end) with y. by rewrite Hl.
Qed.
(** *** Keys *)

Lemma quantumBytes_ok q : bytes_ok (quantumBytes q).
Proof. unfold quantumBytes. apply bytes_take, be_bytes_ok. Qed.

Lemma b64Loop_ok s q bs : b64Loop s q = Some bs -> bytes_ok bs.
Proof.
  revert q bs. induction s as [|c s IH]; intros q bs; cbn [b64Loop].
  - destruct (_ =? _)%nat; [intros [= <-]; constructor|done].
  - destruct (base64Val c) as [v|].
    + destruct (_ =? _)%nat; [|apply IH]. destruct (b64Loop s []) as [bs'|] eqn:E; [|done]. intros [= <-].
      apply bytes_app. split; [apply quantumBytes_ok|by eapply IH].
    + destruct (isNewline c); [apply IH|]. destruct (negb _); [done|]. destruct (_ <? _)%nat; [done|].
      set (o := if (length q =? 2)%nat then _ else _). destruct o as [rest|]; [|done]. cbn [mbind option_bind]. destruct (_ =? _)%nat; [|done].
      intros [= <-]. apply quantumBytes_ok.
Qed.

Lemma keyToHex_ok b64 h : keyToHex b64 = Ok h -> exists raw, h = hexEncode raw /\ bytes_ok raw /\ length raw = 32%nat.
Proof.
  unfold keyToHex, b64Decode. destruct (b64Loop _ _) as [raw|] eqn:E; [|done]. destruct (Nat.eqb_spec (length raw) 32); [|done].
  intros [= <-]. exists raw. split; [done|]. split; [by eapply b64Loop_ok|done].
Qed.

Lemma keyToHex_length b64 raw : keyToHex b64 = Ok (hexEncode raw) -> length raw = 32%nat.
Proof.
  intros H. destruct (keyToHex_ok _ _ H) as (raw' & E & _ & Hl). apply (f_equal length) in E. rewrite !length_hexEncode in E. lia.
Qed.

Lemma keyFromHex_encode raw : bytes_ok raw -> length raw = 32%nat -> keyFromHex (hexEncode raw) = Ok raw.
Proof. intros H Hl. unfold keyFromHex, loadExactHex. by rewrite hexDecode_hexEncode, Hl. Qed.

(** *** A device without peers *)

Definition defaultHeaders : PerType :=
  mkPerType (rangeOne MessageInitiationType) (rangeOne MessageResponseType) (rangeOne MessageCookieReplyType) (rangeOne MessageTransportType).

Record freshDev (sk own : list Z) (j : Junk) (ips : list (option obfChain)) (d : Device) : Prop := {
  fd_state : state d = deviceStateDown;
  fd_map : keyMap d = ∅;
  fd_peers : peerStore d = ∅;
  fd_routes : allowedips d = emptyTable;
  fd_keys : privateKey d = sk /\ publicKeyOf d = own;
  fd_junk : junk d = j;
  fd_ips : ipackets d = ips;
  fd_headers : headers d = defaultHeaders /\ paddings d = mkPerType 0 0 0 0 /\ headerProtectionKey d = zeroKey
}.

Definition noJunk : Junk := mkJunk 0 0 0.
Definition noPackets : list (option obfChain) := replicate 5 None.

Lemma NewDevice_fresh m t : freshDev zeroKey zeroKey noJunk noPackets (NewDevice m t).
Proof. by split. Qed.

(** The keys a device has after [private_key]. *)
Definition effectiveKey (raw : list Z) : list Z := if keyIsZero raw then raw else clamp raw.
Definition ownKey (raw : list Z) : list Z := if bool_decide (effectiveKey raw = zeroKey) then zeroKey else publicKey (effectiveKey raw).

Lemma private_key_line raw j ips i d :
  bytes_ok raw -> length raw = 32%nat -> freshDev zeroKey zeroKey j ips d ->
  exists d', handleDeviceLine (str "private_key") (hexEncode raw) (i, d) = (Ok tt, (i, d')) /\
    freshDev (effectiveKey raw) (ownKey raw) j ips d'.
Proof.
  intros Hb Hl [F1 F2 F3 F4 [F5 F6] F7 F8 F9]. exists (SetPrivateKey (effectiveKey raw) d). split.
  - change (handleDeviceLine (str "private_key") (hexEncode raw)) with
      (do sk <- invalid (privateKeyFromMaybeZeroHex (hexEncode raw)) ;; onDevice (SetPrivateKey sk)).
    assert (E : privateKeyFromMaybeZeroHex (hexEncode raw) = Ok (effectiveKey raw)).
    { unfold privateKeyFromMaybeZeroHex, loadExactHex. by rewrite hexDecode_hexEncode, Hl. }
    unfold sbind, invalid, slift. by rewrite E.
  - unfold SetPrivateKey, ownKey. rewrite F5. case_bool_decide as E; [split; rewrite ?E; done|].
    assert (Ep : forall d1, keyMap d1 = ∅ -> peersOf d1 = []) by (intros d1 Hd; unfold peersOf; by rewrite Hd).
    rewrite (Ep d F2). cbn [foldl]. rewrite Ep by exact F2. cbn [foldl]. rewrite Ep by exact F2. cbn [foldl]. by split.
Qed.

Lemma junk_line_at k n (set : Z -> Junk -> Junk) sk own j ips i d :
  (forall i d, handleDeviceLine (str k) (dec n) (i, d) = uintLine 32 (fun n => onDevice (fun d => d <| junk ::= set n |>)) (dec n) (i, d)) ->
  is_u32 n -> freshDev sk own j ips d ->
  exists d', handleDeviceLine (str k) (dec n) (i, d) = (Ok tt, (i, d')) /\ freshDev sk own (set n j) ips d'.
Proof.
  intros Hk Hn [F1 F2 F3 F4 F5 F6 F7 F8]. exists (d <| junk ::= set n |>). split.
  - rewrite Hk. unfold uintLine, sbind, invalid, slift. by rewrite parseUint_dec.
  - split; try done. cbn. by rewrite F6.
Qed.

Lemma i1_line text ch sk own j i d :
  newObfChain text = Ok ch -> freshDev sk own j noPackets d ->
  exists d', handleDeviceLine (str "i1") text (i, d) = (Ok tt, (i, d')) /\ freshDev sk own j [ch; None; None; None; None] d'.
Proof.
  intros E [F1 F2 F3 F4 F5 F6 F7 F8]. exists (d <| ipackets ::= <[0%nat := ch]> |>). split.
  - change (handleDeviceLine (str "i1") text) with (ipacketLine 0 text). unfold ipacketLine, sbind, invalid, slift. by rewrite E.
  - split; try done. cbn. by rewrite F7.
Qed.

(** *** The peer *)

Record withPeer (sk own : list Z) (j : Junk) (ips : list (option obfChain)) (pub : list Z) (p : nat)
    (ep : option Endpoint) (routes : AllowedIPs) (pka : Z) (d : Device) : Prop := {
  wp_state : state d = deviceStateDown;
  wp_map : keyMap d = {[pub := p]};
  wp_peer : remoteStatic (hsOf d p) = pub /\ epVal (endpoint (peerOf d p)) = ep /\ persistentKeepaliveInterval (peerOf d p) = pka;
  wp_routes : allowedips d = routes;
  wp_keys : privateKey d = sk /\ publicKeyOf d = own;
  wp_junk : junk d = j;
  wp_ips : ipackets d = ips;
  wp_headers : headers d = defaultHeaders /\ paddings d = mkPerType 0 0 0 0 /\ headerProtectionKey d = zeroKey
}.

Lemma public_key_line pub sk own j ips s d :
  bytes_ok pub -> length pub = 32%nat -> own <> pub -> ipTarget s = IpcNone -> freshDev sk own j ips d ->
  exists p d', handlePublicKeyLine (hexEncode pub) (s, handlePostConfig s d) =
      (Ok tt, (s <| ipTarget := IpcPeer p |> <| ipCreated := true |>, d')) /\
    withPeer sk own j ips pub p None emptyTable 0 d'.
Proof.
  intros Hb Hl Hne Hs HF. pose proof HF as [F1 F2 F3 F4 [F5 F6] F7 F8 F9].
  assert (Hpost : handlePostConfig s d = d) by (unfold handlePostConfig; by rewrite Hs). rewrite Hpost.
  unfold handlePublicKeyLine. rewrite keyFromHex_encode by done. rewrite F6, bool_decide_eq_false_2 by done.
  unfold LookupPeer. rewrite F2, lookup_empty. unfold NewPeer, isClosed. rewrite F1, F2, map_size_empty, lookup_empty.
  rewrite bool_decide_eq_false_2 by done. rewrite (bool_decide_eq_false_2 (is_Some None)) by (by intros []).
  change (MaxPeers <=? 0)%nat with false. cbv beta iota zeta. set (p := base.fresh _). set (P := _ <| handshake ::= _ |>).
  exists p. eexists. split; [reflexivity|]. set (d1 := timersInit p (setPeer p P d)).
  assert (Hp : peerOf (d1 <| keyMap ::= <[pub := p]> |>) p = P <| timers ::= (fun ts => ts <| retransmitHandshake := stoppedTimer |> <| sendKeepalive := stoppedTimer |>
    <| newHandshake := stoppedTimer |> <| zeroKeyMaterial := stoppedTimer |> <| persistentKeepalive := stoppedTimer |>) |>).
  { change (peerOf d1 p = P <| timers ::= (fun ts => ts <| retransmitHandshake := stoppedTimer |> <| sendKeepalive := stoppedTimer |>
      <| newHandshake := stoppedTimer |> <| zeroKeyMaterial := stoppedTimer |> <| persistentKeepalive := stoppedTimer |>) |>).
    unfold d1, timersInit, modTimers. rewrite peerOf_modPeer_eq. f_equal. unfold peerOf, setPeer. cbn. by rewrite lookup_insert, decide_True. }
  split; try done.
  - change (keyMap (d1 <| keyMap ::= <[pub := p]> |>)) with (<[pub := p]> (keyMap d)). by rewrite F2.
  - unfold hsOf. rewrite Hp. done.
Qed.

Section PeerLines.
Context (sk own : list Z) (j : Junk) (ips : list (option obfChain)) (pub : list Z) (p : nat).

(** A change to the peer's endpoint or keepalive interval. *)
Lemma withPeer_mod f ep ep' routes pka pka' d :
  (forall P, remoteStatic (handshake (f P)) = remoteStatic (handshake P)) ->
  (forall P, epVal (endpoint P) = ep -> epVal (endpoint (f P)) = ep') ->
  (forall P, persistentKeepaliveInterval P = pka -> persistentKeepaliveInterval (f P) = pka') ->
  withPeer sk own j ips pub p ep routes pka d -> withPeer sk own j ips pub p ep' routes pka' (modPeer p f d).
Proof.
  intros H1 H2 H3 [W1 W2 (W3 & W4 & W5) W6 W7 W8 W9 W10]. split; try done. unfold hsOf in *. rewrite peerOf_modPeer_eq. rewrite H1.
  split; [done|]. auto.
Qed.

Lemma endpoint_line v ep routes pka s d :
  (forall d, parseEndpoint d v = Some ep) -> ipTarget s = IpcPeer p -> withPeer sk own j ips pub p None routes pka d ->
  exists d', handlePeerLine (str "endpoint") v (s, d) = (Ok tt, (s, d')) /\ withPeer sk own j ips pub p (Some ep) routes pka d'.
Proof.
  intros Hv Hs HW. eexists. split.
  - change (handlePeerLine (str "endpoint") v (s, d)) with
      (match parseEndpoint d v with
       | None => (Err IpcErrorInvalid, (s, d))
       | Some ep => (@Ok ipcError unit tt, modTarget (fun P => P <| endpoint ::= (fun e => e <| epVal := Some ep |>) |>) s d) end).
    rewrite Hv. unfold modTarget. rewrite Hs. reflexivity.
  - by apply (withPeer_mod _ None (Some ep) routes pka pka).
Qed.

Lemma allowed_ip_line ep pka s d :
  ipTarget s = IpcPeer p -> withPeer sk own j ips pub p ep emptyTable pka d ->
  exists d', handlePeerLine (str "allowed_ip") (str "0.0.0.0/0") (s, d) = (Ok tt, (s, d')) /\
    withPeer sk own j ips pub p ep (default emptyTable (Insert emptyTable (mkPrefix (mkIP 4 0) 0) p)) pka d'.
Proof.
  intros Hs [W1 W2 W3 W4 W5 W6 W7 W8]. eexists. split.
  - change (handlePeerLine (str "allowed_ip") (str "0.0.0.0/0") (s, d)) with (allowedIpLine (str "0.0.0.0/0") (s, d)).
    unfold allowedIpLine, pmod, plift, slift, smod, sbind.
    change (str "0.0.0.0/0") with ([48; 46; 48; 46; 48; 46; 48; 47; 48]). cbv iota beta zeta.
    change (ParsePrefix [48; 46; 48; 46; 48; 46; 48; 47; 48]) with (Some (mkPrefix (mkIP 4 0) 0)). cbv iota beta. cbn [fst snd].
    rewrite Hs. cbv iota. rewrite W4. reflexivity.
  - split; try done.
Qed.

Lemma keepalive_line ep routes s d :
  ipTarget s = IpcPeer p -> withPeer sk own j ips pub p ep routes 0 d ->
  exists d' s', handlePeerLine (str "persistent_keepalive_interval") (str "25") (s, d) = (Ok tt, (s', d')) /\
    ipTarget s' = IpcPeer p /\ ipCreated s' = ipCreated s /\
    withPeer sk own j ips pub p ep routes (rangeFromUint32 25 25) d'.
Proof.
  intros Hs HW. exists (modPeer p (fun P => P <| persistentKeepaliveInterval := rangeFromUint32 25 25 |>) d), (s <| pkaOn := true |>).
  split; [|split; [done|split; [done|]]].
  - change (handlePeerLine (str "persistent_keepalive_interval") (str "25")) with
      ((do r <- plift (rangeFromString (str "25")) ;;
        pmod (fun s d =>
          let old := persistentKeepaliveInterval (targetPeer s d) in
          let '(s, d) := modTarget (fun P => P <| persistentKeepaliveInterval := r |>) s d in
          (s <| pkaOn := rangeIsZero old && negb (rangeIsZero r) |>, d))) : ste (ipcSetPeer * Device) ipcError unit).
    change (rangeFromString (str "25")) with (@Ok rangeError Z (rangeFromUint32 25 25)).
    unfold plift, slift, pmod, smod, sbind, modTarget, targetPeer. cbn [fst snd]. rewrite Hs. cbv iota beta zeta.
    destruct HW as [_ _ (_ & _ & ->) _ _ _ _ _]. reflexivity.
  - by apply (withPeer_mod _ ep ep routes 0 _).
Qed.

Lemma finish_line ep routes pka st d :
  idHeaders (ipcDev st) = defaultHeaders -> idPaddings (ipcDev st) = mkPerType 0 0 0 0 -> idHeaderKey (ipcDev st) = zeroKey ->
  ipTarget (ipcPeerS st) = IpcPeer p ->
  withPeer sk own j ips pub p ep routes pka d ->
  exists d', finishIpc st d = (Ok tt, d') /\ withPeer sk own j ips pub p ep routes pka d'.
Proof.
  intros H1 H2 H3 H4 HW. unfold finishIpc, mergeWithDevice. rewrite H1, H2, H3.
  change (negb (noOverlap defaultHeaders)) with false. change (keyIsZero zeroKey) with true. cbn [negb andb]. cbv iota.
  set (d1 := _ <| headerProtectionKey := zeroKey |>).
  assert (HW1 : withPeer sk own j ips pub p ep routes pka d1) by (destruct HW as [W1 W2 W3 W4 W5 W6 W7 W8]; by split).
  eexists. split; [reflexivity|]. unfold handlePostConfig. rewrite H4.
  set (d2 := if ipCreated _ then _ else _).
  assert (HW2 : withPeer sk own j ips pub p ep routes pka d2).
  { unfold d2. destruct (ipCreated _); [|exact HW1]. by apply (withPeer_mod _ ep ep routes pka pka). }
  unfold isUp. rewrite (wp_state _ _ _ _ _ _ _ _ _ _ HW2). exact HW2.
Qed.
End PeerLines.
(** *** The text of [uapiPeer], line by line *)

Definition junkKvs (c : socksConfig) : list (string * list Z) :=
  if 0 <? cJc c then [("jc", dec (cJc c)); ("jmin", dec (cJmin c)); ("jmax", dec (cJmax c))]%string else [].
Definition i1Kvs (text : list Z) : list (string * list Z) := if bool_decide (text = []) then [] else [("i1"%string, text)].
Definition peerKvs (pub endpoint : list Z) : list (string * list Z) :=
  [("public_key", hexEncode pub); ("endpoint", endpoint); ("allowed_ip", str "0.0.0.0/0"); ("persistent_keepalive_interval", str "25")]%string.
Definition uapiKvs (c : socksConfig) (raw pub endpoint : list Z) (spoof : bool) (pos : nat) : list (string * list Z) :=
  ("private_key"%string, hexEncode raw) ::
  (if spoof then junkKvs c ++ i1Kvs (buildI1 (cI1 c) (cI1Sni c) pos).1 else []) ++ peerKvs pub endpoint.

(** The junk settings are 32-bit numbers when they are written. *)
Definition junkFits (c : socksConfig) : Prop := 0 < cJc c -> is_u32 (cJc c) /\ is_u32 (cJmin c) /\ is_u32 (cJmax c).

Lemma itoa_dec n : is_u32 n -> itoa n = dec n.
Proof. intros H. unfold itoa. destruct (Z.ltb_spec n 0); [unfold is_u32 in H; lia|done]. Qed.

Lemma uapiPeer_text c privB64 pubB64 endpoint spoof pos raw pub :
  keyToHex privB64 = Ok (hexEncode raw) -> keyToHex pubB64 = Ok (hexEncode pub) -> junkFits c ->
  (uapiPeer c privB64 pubB64 endpoint spoof pos).1 = Ok (concat (map kvLine (uapiKvs c raw pub endpoint spoof pos))).
Proof.
  intros E1 E2 HJ. unfold uapiPeer. rewrite E1, E2. unfold uapiKvs. cbn [map concat]. rewrite map_app, concat_app.
  change (kvLine ("private_key"%string, hexEncode raw)) with (line (str "private_key") (hexEncode raw)).
  assert (Ep : concat (map kvLine (peerKvs pub endpoint)) = line (str "public_key") (hexEncode pub) ++ line (str "endpoint") endpoint ++
    line (str "allowed_ip") (str "0.0.0.0/0") ++ line (str "persistent_keepalive_interval") (str "25")) by done.
  rewrite Ep. destruct spoof; [|done].
  assert (Ej : (if 0 <? cJc c
    then line (str "private_key") (hexEncode raw) ++ line (str "jc") (itoa (cJc c)) ++ line (str "jmin") (itoa (cJmin c)) ++ line (str "jmax") (itoa (cJmax c))
    else line (str "private_key") (hexEncode raw)) = line (str "private_key") (hexEncode raw) ++ concat (map kvLine (junkKvs c))).
  { unfold junkKvs. destruct (Z.ltb_spec 0 (cJc c)) as [Hj|]; [|by rewrite app_nil_r].
    destruct (HJ Hj) as (H1 & H2 & H3). rewrite !itoa_dec by done. cbn [map concat]. by rewrite app_nil_r. }
  cbv zeta. rewrite Ej. destruct (buildI1 (cI1 c) (cI1Sni c) pos) as [i1 pos']. cbn [fst]. unfold i1Kvs.
  rewrite map_app, concat_app. case_bool_decide as E; cbn [map concat]; rewrite ?app_nil_r, <- !app_assoc; done.
Qed.

Definition junkOf (c : socksConfig) (spoof : bool) : Junk :=
  if spoof && (0 <? cJc c) then mkJunk (cJmin c) (cJmax c) (cJc c) else noJunk.
(** ** The lines fit the scanner *)

Lemma fits_value k v : Z.of_nat (length (str k)) <= 64 -> Z.of_nat (length v) < 65000 -> fitsScanner (kvBody (k, v)) = true.
Proof.
  intros Hk Hv. unfold fitsScanner, kvBody, MaxScanTokenSize. apply Z.ltb_lt. rewrite length_app. cbn [fst snd length]. lia.
Qed.

Lemma length_dec n : 0 <= n < 2 ^ 64 -> (length (dec n) <= 65)%nat.
Proof.
  intros Hn. assert (Ha : forall fuel m acc, (length (decAux fuel m acc) <= fuel + length acc)%nat).
  { induction fuel as [|fuel IH]; intros m acc; cbn [decAux]; [lia|]. destruct (m <? 10); [cbn; lia|].
    etransitivity; [apply IH|cbn; lia]. }
  unfold dec. etransitivity; [apply Ha|]. cbn [length].
  destruct (decide (n = 0)) as [->|]; [cbn; lia|]. pose proof (proj1 (Z.log2_lt_pow2 n 64 ltac:(lia)) ltac:(lia)). lia.
Qed.

Lemma length_trimLeftByte x s : (length (trimLeftByte x s) <= length s)%nat.
Proof. induction s as [|y s IH]; cbn; [done|]. destruct (y =? x); cbn; lia. Qed.

Lemma length_trimByte x s : (length (trimByte x s) <= length s)%nat.
Proof.
  unfold trimByte. rewrite length_reverse. etransitivity; [apply length_trimLeftByte|]. rewrite length_reverse. apply length_trimLeftByte.
Qed.

Lemma length_trimSpace s : (length (trimSpace s) <= length s)%nat.
Proof.
  assert (H : forall l, (length (trimLeftSpace l) <= length l)%nat).
  { induction l as [|y l IH]; cbn; [done|]. destruct (isSpace y); cbn; lia. }
  unfold trimSpace. rewrite length_reverse. etransitivity; [apply H|]. rewrite length_reverse. apply H.
Qed.

Lemma length_labels s : (length (concat (map labelBytes (splitByte 46 s))) <= S (length s))%nat.
Proof.
  assert (H : forall parts, (length (concat (map labelBytes parts)) <= foldr (fun p n => S (length p + n)) 0 parts)%nat).
  { induction parts as [|p parts IH]; [done|]. cbn [map concat foldr]. rewrite length_app.
    assert (length (labelBytes p) <= S (length p))%nat by (unfold labelBytes; destruct (_ || _); cbn; lia). lia. }
  etransitivity; [apply H|]. clear H. induction s as [|y s IH]; cbn; [lia|].
  destruct (y =? 46); cbn; [lia|]. destruct (splitByte 46 s) as [|p parts]; cbn in *; lia.
Qed.

Lemma length_i1Packet kind sni pos pkt pos' :
  Z.of_nat (length sni) <= 16000 -> bytes_ok sni -> i1Packet kind sni pos = Some (pkt, pos') -> Z.of_nat (length pkt) <= 32600.
Proof.
  intros Hl Hb. unfold i1Packet. destruct (_ || _); [done|].
  assert (Hfst : forall o : list Z * nat, Some o = Some (pkt, pos') -> pkt = o.1) by (intros o E; apply Some_inj in E; by rewrite E).
  pose proof (quicInitial_ok sni pos Hb) as (_ & _ & Q).
  case_bool_decide; [intros ->%Hfst; lia|].
  case_bool_decide.
  { intros ->%Hfst. unfold dnsQuery. cbn [fst]. rewrite !length_app, length_randRead.
    pose proof (length_labels (trimByte 46 sni)). pose proof (length_trimByte 46 sni). cbn [length]. lia. }
  case_bool_decide.
  { intros ->%Hfst. unfold sipOptions, CRLF. cbn [fst]. rewrite !length_app, length_take, length_drop, !length_hexEncode, !length_randRead.
    cbn [length str]. vm_compute (length (str _)). lia. }
  case_bool_decide.
  { intros ->%Hfst. unfold stunBinding. cbn [fst]. rewrite !length_app, !length_be_bytes, length_randRead. cbn [length]. lia. }
  case_bool_decide; [intros ->%Hfst; lia|done].
Qed.

Lemma length_buildI1 kind sni pos :
  Z.of_nat (length sni) <= 16000 -> bytes_ok sni -> Z.of_nat (length (buildI1 kind sni pos).1) <= 65210.
Proof.
  intros Hl Hb. unfold buildI1. cbv zeta. set (sni' := orDefault _ _).
  assert (Hs : bytes_ok sni' /\ Z.of_nat (length sni') <= 16000).
  { unfold sni', orDefault. pose proof (length_trimSpace sni).
    destruct (bool_decide _); [split; [apply str_ok|cbn; lia]|split; [by apply trimSpace_ok|lia]]. }
  destruct (i1Packet _ sni' pos) as [[pkt pos']|] eqn:Ep; [|cbn; lia].
  apply length_i1Packet in Ep; [|by destruct Hs..]. destruct (length pkt =? 0)%nat; [cbn; lia|].
  cbn [fst]. rewrite !length_app, length_hexEncode. cbn [length str]. cbn. lia.
Qed.

Lemma uapiKvs_ok c raw pub endpoint spoof pos :
  bytes_ok raw -> length raw = 32%nat -> bytes_ok pub -> length pub = 32%nat ->
  oneLine endpoint -> Z.of_nat (length endpoint) <= 60000 -> bytes_ok (cI1Sni c) -> Z.of_nat (length (cI1Sni c)) <= 16000 -> junkFits c ->
  Forall kvOk (uapiKvs c raw pub endpoint spoof pos).
Proof.
  intros Hr Hlr Hp Hlp He Hle Hs Hls HJ.
  assert (Hdec : forall k n, keyOk k = true -> Z.of_nat (length (str k)) <= 64 -> is_u32 n -> kvOk (k, dec n)).
  { intros k n Hk Hkl Hn. unfold is_u32 in Hn. split; [done|]. split.
    - apply oneLine_chars. eapply Forall_impl; [apply dec_digits; lia|]. intros x Hx. cbn in *. unfold isDigit in Hx. lia.
    - apply fits_value; [done|]. pose proof (length_dec n ltac:(lia)). lia. }
  assert (Hhex : forall k b, keyOk k = true -> Z.of_nat (length (str k)) <= 64 -> bytes_ok b -> length b = 32%nat -> kvOk (k, hexEncode b)).
  { intros k b Hk Hkl Hb Hl. split; [done|]. split.
    - apply oneLine_chars. eapply Forall_impl; [by apply hexEncode_chars|]. cbn. lia.
    - apply fits_value; [done|]. rewrite length_hexEncode. lia. }
  apply Forall_cons. split; [by apply Hhex|]. apply Forall_app. split.
  - destruct spoof; [|constructor]. apply Forall_app. split.
    + unfold junkKvs. destruct (Z.ltb_spec 0 (cJc c)) as [Hj|]; [|constructor]. destruct (HJ Hj) as (H1 & H2 & H3).
      repeat (apply Forall_cons; split; [by apply Hdec|]). constructor.
    + unfold i1Kvs. case_bool_decide as E; [constructor|]. apply Forall_cons. split; [|constructor]. split; [done|].
      pose proof (length_buildI1 (cI1 c) (cI1Sni c) pos Hls Hs) as Hlen.
      split; [|unfold fitsScanner, kvBody, MaxScanTokenSize; apply Z.ltb_lt; rewrite length_app; cbn [fst snd length str]; cbn; lia].
      destruct (buildI1_text (cI1 c) (cI1Sni c) pos Hs) as [E'|(pkt & -> & Hb & _)]; [done|].
      apply oneLine_chars, Forall_app. split; [by repeat constructor|]. apply Forall_app. split; [|by repeat constructor].
      eapply Forall_impl; [by apply hexEncode_chars|]. cbn. lia.
  - apply Forall_cons. split; [by apply Hhex|].
    apply Forall_cons. split; [split; [done|split; [done|apply fits_value; [done|lia]]]|].
    repeat (apply Forall_cons; split; [split; [done|split; [by apply oneLine_chars; repeat constructor|by apply fits_value]]|]). constructor.
Qed.
Lemma ipcDev_same st : st <| ipcDev := ipcDev st |> = st.
Proof. by destruct st. Qed.

(** A line of the device's part that leaves the gathered settings alone. *)
Lemma dev_line_run k v rest st d (Q : Device -> Prop) :
  keyOk k = true -> bool_decide (str k = str "public_key") = false -> str k <> [] -> deviceConfig st = true ->
  (exists d', handleDeviceLine (str k) v (ipcDev st, d) = (Ok tt, (ipcDev st, d')) /\ Q d') ->
  exists d', ipcLines false (kvBody (k, v) :: rest) st d = ipcLines false rest st d' /\ Q d'.
Proof.
  intros H1 H2 H3 H4 (d' & Hh & HQ). exists d'. split; [|done].
  rewrite (ipcLines_dev k v rest st d (ipcDev st) d') by done. by rewrite ipcDev_same.
Qed.

Lemma junk_run c sk own ips st d rest :
  junkFits c -> deviceConfig st = true -> freshDev sk own noJunk ips d ->
  exists d', ipcLines false (map kvBody (junkKvs c) ++ rest) st d = ipcLines false rest st d' /\ freshDev sk own (junkOf c true) ips d'.
Proof.
  intros HJ Hst HF. unfold junkKvs, junkOf. destruct (Z.ltb_spec 0 (cJc c)) as [Hj|]; cbn [andb map app]; [|by exists d].
  destruct (HJ Hj) as (H1 & H2 & H3).
  assert (Hrun : forall k n set rest d j, (k = "jc" \/ k = "jmin" \/ k = "jmax")%string -> is_u32 n ->
    (forall i d, handleDeviceLine (str k) (dec n) (i, d) = uintLine 32 (fun n => onDevice (fun d => d <| junk ::= set n |>)) (dec n) (i, d)) ->
    freshDev sk own j ips d ->
    exists d', ipcLines false (kvBody (k, dec n) :: rest) st d = ipcLines false rest st d' /\ freshDev sk own (set n j) ips d').
  { intros k n set rest' d0 j Hk Hn Hh HF0. apply dev_line_run; [| | |done|].
    1-3: by destruct Hk as [->|[->| ->]].
    by apply (junk_line_at k n set). }
  destruct (Hrun "jc"%string (cJc c) (fun n j => j <| junkCount := n |>) (kvBody ("jmin"%string, dec (cJmin c)) :: kvBody ("jmax"%string, dec (cJmax c)) :: rest) d noJunk)
    as (d1 & -> & F1); [by left|done|done|done|].
  destruct (Hrun "jmin"%string (cJmin c) (fun n j => j <| junkMin := n |>) (kvBody ("jmax"%string, dec (cJmax c)) :: rest) d1 (mkJunk 0 0 (cJc c)))
    as (d2 & -> & F2); [by right; left|done|done|done|].
  destruct (Hrun "jmax"%string (cJmax c) (fun n j => j <| junkMax := n |>) rest d2 (mkJunk (cJmin c) 0 (cJc c)))
    as (d3 & -> & F3); [by right; right|done|done|done|].
  by exists d3.
Qed.

(** The first of the five packets, as the chain parser reads the text. *)
Definition i1Slots (text : list Z) (ips : list (option obfChain)) : Prop :=
  match text with
  | [] => ips = noPackets
  | _ :: _ => exists ch, newObfChain text = Ok (Some ch) /\ ips = [Some ch; None; None; None; None]
  end.

Lemma i1_run text ch sk own j st d rest :
  text = [] \/ newObfChain text = Ok (Some ch) -> deviceConfig st = true -> freshDev sk own j noPackets d ->
  exists d' ips, ipcLines false (map kvBody (i1Kvs text) ++ rest) st d = ipcLines false rest st d' /\ freshDev sk own j ips d' /\ i1Slots text ips.
Proof.
  intros Ht Hst HF. unfold i1Kvs. case_bool_decide as E; [subst; by exists d, noPackets|].
  destruct Ht as [?|Ht]; [done|]. destruct (dev_line_run "i1" text rest st d (freshDev sk own j [Some ch; None; None; None; None]))
    as (d' & Hd' & HF'); [done|done|done|done|by apply i1_line|].
  exists d', [Some ch; None; None; None; None]. split; [exact Hd'|]. split; [done|]. destruct text; [done|]. by exists ch.
Qed.
(** The routes of the tunnel's only peer: everything of IPv4. *)
Definition everywhere4 (p : nat) : AllowedIPs := default emptyTable (Insert emptyTable (mkPrefix (mkIP 4 0) 0) p).

Lemma peer_run pub endpoint ep sk own j ips st d :
  bytes_ok pub -> length pub = 32%nat -> own <> pub -> (forall d, parseEndpoint d endpoint = Some ep) ->
  ipcDev st = mkIpcDevice defaultHeaders (mkPerType 0 0 0 0) zeroKey -> ipTarget (ipcPeerS st) = IpcNone ->
  freshDev sk own j ips d ->
  exists p d', ipcLines false (map kvBody (peerKvs pub endpoint)) st d = (Ok tt, d') /\
    withPeer sk own j ips pub p (Some ep) (everywhere4 p) (rangeFromUint32 25 25) d'.
Proof.
  intros Hb Hl Hne He Hst Ht HF. cbn [peerKvs map].
  destruct (public_key_line pub sk own j ips (ipcPeerS st) d) as (p & d1 & L1 & W1); [done..|].
  rewrite (ipcLines_public_key _ _ _ _ _ _ L1). set (st1 := _ <| ipcPeerS := _ |>). exists p.
  destruct (endpoint_line sk own j ips pub p endpoint ep emptyTable 0 (ipcPeerS st1) d1) as (d2 & L2 & W2); [done..|].
  rewrite (ipcLines_peer "endpoint" _ _ st1 d1 (ipcPeerS st1) d2) by done.
  destruct (allowed_ip_line sk own j ips pub p (Some ep) 0 (ipcPeerS st1) d2) as (d3 & L3 & W3); [done..|].
  rewrite (ipcLines_peer "allowed_ip" _ _ _ d2 (ipcPeerS st1) d3) by done.
  destruct (keepalive_line sk own j ips pub p (Some ep) (everywhere4 p) (ipcPeerS st1) d3) as (d4 & s4 & L4 & T4 & _ & W4); [done..|].
  rewrite (ipcLines_peer "persistent_keepalive_interval" _ _ _ d3 s4 d4) by done. cbn [ipcLines].
  match goal with |- context [finishIpc ?st ?d] =>
    destruct (finish_line sk own j ips pub p (Some ep) (everywhere4 p) (rangeFromUint32 25 25) st d) as (d5 & E5 & W5) end;
    [change (ipcDev _) with (ipcDev st); by rewrite Hst..|done|done|]. rewrite E5. by exists d5.
Qed.

End Accepted.
End I1.
