(* ===== verification/UapiGet.v ===== *)
(** * The dump of a device ([IpcGetOperation] of [src/awg-ios/device/uapi.go])

    The lines the operation prints, as keys with values.  The order in which Go
    ranges over the map of peers is an argument; the text of an endpoint comes
    from its implementation ([DstToString]).  The error of the writer is not
    modelled. *)

From stdpp Require Import base numbers list gmap strings.
From Stdlib Require Import ZArith Lia.
From S2P Require Import Prelude GoStrings NoiseTypes Crypto Replay RateLimiter Tai64n AllowedIPs NetIP Obf DeviceTypes Messages Noise Timers Lifecycle GoNet.

Class EndpointText := dstToString : Endpoint -> list Z.

(** ** Texts *)

(** [netip.Addr.String]: an IPv4 address mapped into IPv6 keeps its prefix. *)
Definition addrString (bs : list Z) : list Z :=
  if (length bs =? 4)%nat then formatIPv4 bs
  else match To4 bs with Some v4 => str "::ffff:" ++ formatIPv4 v4 | None => formatIPv6 bs end.

(** [netip.Prefix.String]. *)
Definition prefixString (p : Prefix) : list Z :=
  addrString (be_bytes (Z.to_nat (ipLen (pAddr p))) (ipVal (pAddr p))) ++ 47 :: dec (pBits p).

(** ** Lines *)

(** [sendf], [keyf] and [boolf] print one line each. *)
Definition sendf (kv : string * list Z) : list Z := str kv.1 ++ 61 :: kv.2 ++ [10].
Definition boolText (b : bool) : list Z := if b then str "1" else str "0".

(** A line printed under a condition. *)
Definition when (b : bool) (key : string) (value : list Z) : list (string * list Z) := if b then [(key, value)] else [].
Definition keyf (key : string) (k : list Z) : list (string * list Z) := when (negb (keyIsZero k)) key (hexEncode k).
Definition intf (key : string) (n : Z) : list (string * list Z) := when (negb (n =? 0)) key (dec n).
Definition rangef (key : string) (r : Z) : list (string * list Z) := when (negb (rangeIsZero r)) key (rangeToString r).
Definition chainf (key : string) (c : option obfChain) : list (string * list Z) :=
  match c with Some c => [(key, Spec c)] | None => [] end.

Definition ipacketNames : list string := ["i1"; "i2"; "i3"; "i4"; "i5"]%string.

(** What is printed of the device. *)
Definition getDevice (d : Device) : list (string * list Z) :=
  keyf "private_key" (privateKey d) ++
  intf "listen_port" (port (net d)) ++
  intf "fwmark" (fwmark (net d)) ++
  intf "jc" (junkCount (junk d)) ++
  intf "jmin" (junkMin (junk d)) ++
  intf "jmax" (junkMax (junk d)) ++
  intf "s1" (tInit (paddings d)) ++
  intf "s2" (tResponse (paddings d)) ++
  intf "s3" (tCookie (paddings d)) ++
  intf "s4" (tTransport (paddings d)) ++
  rangef "h1" (tInit (headers d)) ++
  rangef "h2" (tResponse (headers d)) ++
  rangef "h3" (tCookie (headers d)) ++
  rangef "h4" (tTransport (headers d)) ++
  concat (zip_with chainf ipacketNames (ipackets d)) ++
  keyf "header_protection_key" (headerProtectionKey d) ++
  rangef "content_padding_addition" (contentPaddingAddition d) ++
  rangef "rekey_after_time" (rekeyAfterTimeSec (timings d)) ++
  rangef "rekey_timeout" (rekeyTimeoutSec (timings d)) ++
  rangef "reject_after_time" (rejectAfterTimeSec (timings d)) ++
  rangef "keepalive_timeout" (keepaliveTimeoutSec (timings d)) ++
  rangef "max_handshake_attempts" (maxHandshakeAttempsR (timings d)) ++
  [("random_trailers", boolText (randomTrailers d)); ("disable_cookies", boolText (disableCookies d))]%string.

Section Get.
Context `{T : EndpointText}.

(** What is printed of a peer. *)
Definition getPeer (d : Device) (p : nat) : list (string * list Z) :=
  let P := peerOf d p in
  let nano := lastHandshakeNano P in
  [("public_key", hexEncode (remoteStatic (handshake P)));
   ("preshared_key", hexEncode (presharedKey (handshake P)));
   ("protocol_version", str "1")]%string ++
  match epVal (endpoint P) with Some ep => [("endpoint"%string, dstToString ep)] | None => [] end ++
  [("last_handshake_time_sec", itoa (Z.quot nano Second));
   ("last_handshake_time_nsec", itoa (Z.rem nano Second));
   ("tx_bytes", dec (txBytes P));
   ("rx_bytes", dec (rxBytes P))]%string ++
  rangef "persistent_keepalive_interval" (persistentKeepaliveInterval P) ++
  map (fun pre => ("allowed_ip"%string, prefixString pre)) (default [] (EntriesForPeer (allowedips d) p)).

(** [order] is the order of the range over [device.peers.keyMap]. *)
Definition IpcGet (order : list nat) (d : Device) : list Z :=
  concat (map sendf (getDevice d ++ concat (map (getPeer d) order))).

End Get.
