(* ===== verification/UapiGetThm.v ===== *)
(** * What the dump prints, the configuration reads

    The device's part of what [IpcGet] prints, given to [IpcSet] on a new device,
    reproduces its settings. *)

From stdpp Require Import base numbers list gmap strings.
From Stdlib Require Import ZArith Lia.
From S2P Require Import Prelude GoStrings NoiseTypes Crypto Replay RateLimiter Tai64n AllowedIPs NetIP Obf DeviceTypes Messages Noise Timers Cookie Packet PacketThm Send Receive Lifecycle GoNet PrConfig PrI1 Uapi PrUapiThm UapiGet.

Section Roundtrip.
Context `{C : Crypto} `{N : Entropy} `{B : Bind}.

(** ** The settings *)

Record Settings := mkSettings {
  sKeys : list Z * list Z; sPort : Z; sMark : Z; sJunk : Junk; sIps : list (option obfChain); sAddition : Z;
  sTimings : Timings; sTrailers : bool; sCookies : bool; sHeaders : PerType; sPaddings : PerType; sHeaderKey : list Z
}.
#[local] Instance rebuild_Settings : Rebuild Settings := fun s =>
  mkSettings (sKeys s) (sPort s) (sMark s) (sJunk s) (sIps s) (sAddition s) (sTimings s) (sTrailers s) (sCookies s)
    (sHeaders s) (sPaddings s) (sHeaderKey s).

(** In the middle of an operation, headers, paddings and the header key are in
    the part that is merged at its end. *)
Definition settingsAt (i : ipcSetDevice) (d : Device) : Settings :=
  mkSettings (privateKey d, publicKeyOf d) (port (net d)) (fwmark (net d)) (junk d) (ipackets d) (contentPaddingAddition d)
    (timings d) (randomTrailers d) (disableCookies d) (idHeaders i) (idPaddings i) (idHeaderKey i).
Definition settingsOf (d : Device) : Settings := settingsAt (fromDevice d) d.

(** A device that is down and has no peers. *)
Definition bare (d : Device) : Prop := state d = deviceStateDown /\ keyMap d = ∅.

(** ** Lines *)

(** An operation on the device and what is gathered changes the settings by [f]. *)
Definition does (m : ste (ipcSetDevice * Device) ipcError unit) (f : Settings -> Settings) : Prop :=
  forall i d, bare d -> exists i' d', m (i, d) = (Ok tt, (i', d')) /\ bare d' /\ settingsAt i' d' = f (settingsAt i d).

Lemma does_onDevice f g :
  (forall d, bare d -> bare (f d)) -> (forall i d, bare d -> settingsAt i (f d) = g (settingsAt i d)) -> does (onDevice f) g.
Proof. intros H1 H2 i d Hd. exists i, (f d). split; [done|]. split; [by apply H1|by apply H2]. Qed.

Lemma does_onIpc f g : (forall i d, settingsAt (f i) d = g (settingsAt i d)) -> does (onIpc f) g.
Proof. intros H i d Hd. exists (f i), d. split; [done|]. split; [done|apply H]. Qed.

Lemma does_ext m m' f : (forall s, m s = m' s) -> does m' f -> does m f.
Proof. intros E H i d Hd. rewrite E. by apply H. Qed.

Definition lineSets (k : string) (v : list Z) (f : Settings -> Settings) : Prop := does (handleDeviceLine (str k) v) f.

(** Lines at the start of the input take the settings from [s] to [s']. *)
Definition leads (kvs : list (string * list Z)) (s s' : Settings) : Prop :=
  forall st d rest, bare d -> deviceConfig st = true -> settingsAt (ipcDev st) d = s ->
  exists st' d', ipcLines false (map kvBody kvs ++ rest) st d = ipcLines false rest st' d' /\ bare d' /\ deviceConfig st' = true /\
    ipcPeerS st' = ipcPeerS st /\ settingsAt (ipcDev st') d' = s'.

Lemma leads_nil s : leads [] s s.
Proof. intros st d rest Hb Hc Hs. by exists st, d. Qed.

Lemma leads_app a b s1 s2 s3 : leads a s1 s2 -> leads b s2 s3 -> leads (a ++ b) s1 s3.
Proof.
  intros Ha Hb st d rest Hd Hc Hs. rewrite map_app, <- app_assoc.
  destruct (Ha st d (map kvBody b ++ rest) Hd Hc Hs) as (st1 & d1 & -> & A1 & A2 & A3 & A4).
  destruct (Hb st1 d1 rest A1 A2 A4) as (st2 & d2 & -> & B1 & B2 & B3 & B4).
  exists st2, d2. split; [done|]. split; [done|]. split; [done|]. split; [congruence|done].
Qed.

Lemma leads_eq a s s1 s2 : leads a s s1 -> s1 = s2 -> leads a s s2.
Proof. by intros H ->. Qed.

(** Device keys are words, and not the one that starts a peer. *)
Definition deviceKey (k : string) : bool :=
  keyOk k && negb (bool_decide (str k = str "public_key")) && negb (bool_decide (str k = [])).

Lemma leads_line k v f s : deviceKey k = true -> lineSets k v f -> leads [(k, v)] s (f s).
Proof.
  intros Hk Hl st d rest Hd Hc <-. unfold deviceKey in Hk. rewrite !andb_true_iff, !negb_true_iff in Hk. destruct Hk as [[K1 K2] K3].
  apply bool_decide_eq_false in K3. destruct (Hl (ipcDev st) d Hd) as (i' & d' & Hh & H1 & H2).
  exists (st <| ipcDev := i' |>), d'. split; [by apply ipcLines_dev|]. split; [exact H1|]. split; [exact Hc|]. split; [done|exact H2].
Qed.

(** A line that is left out because it would change nothing. *)
Lemma leads_when b k v f s :
  deviceKey k = true -> (b = true -> lineSets k v f) -> (b = false -> f s = s) -> leads (when b k v) s (f s).
Proof. intros Hk Hl Hn. destruct b; [exact (leads_line _ _ _ s Hk (Hl eq_refl))|rewrite Hn by done; apply leads_nil]. Qed.

(** ** Each kind of line *)

Lemma uintLine_dec bits n set s : 0 <= n < 2 ^ bits -> uintLine bits set (dec n) s = set n s.
Proof. intros H. unfold uintLine, sbind, invalid, slift. destruct s. by rewrite parseUint_dec. Qed.

Lemma rangeLine_string r set s : range_wf r -> rangeLine set (rangeToString r) s = set r s.
Proof. intros H. unfold rangeLine, sbind, invalid, slift. destruct s. by rewrite rangeFromString_toString. Qed.

Lemma boolLine_text b set s : boolLine set (boolText b) s = set b s.
Proof. unfold boolLine, sbind, invalid, slift. destruct s. by destruct b. Qed.

Lemma hexLine_encode key (set : list Z -> ste (ipcSetDevice * Device) ipcError unit) s : bytes_ok key -> length key = 32%nat ->
  (do k <- invalid (keyFromHex (hexEncode key)) ;; set k) s = set key s.
Proof. intros Hb Hl. unfold sbind, invalid, slift. destruct s. by rewrite keyFromHex_encode. Qed.

Lemma ipacketLine_spec i c s : newObfChain (Spec c) = Ok (Some c) ->
  ipacketLine i (Spec c) s = onDevice (fun d => d <| ipackets ::= <[i := Some c]> |>) s.
Proof. intros H. unfold ipacketLine, sbind, invalid, slift. destruct s. by rewrite H. Qed.

(** ** What can be printed *)

Definition chain_ok (o : option obfChain) : Prop :=
  match o with Some c => newObfChain (Spec c) = Ok (Some c) /\ oneLine (Spec c) /\ Z.of_nat (length (Spec c)) < 65000 | None => True end.

(** What the device can print and read back: values of their widths, ranges that
    are ranges, a private key as it is stored, chains that come from their text
    of less than 65000 bytes, and no header that is zero. *)
Record printable (d : Device) : Prop := {
  pr_key : bytes_ok (privateKey d) /\ length (privateKey d) = 32%nat /\ effectiveKey (privateKey d) = privateKey d;
  pr_own : publicKeyOf d = ownKey (privateKey d);
  pr_port : 0 <= port (net d) < 2 ^ 16;
  pr_mark : is_u32 (fwmark (net d));
  pr_junk : is_u32 (junkCount (junk d)) /\ is_u32 (junkMin (junk d)) /\ is_u32 (junkMax (junk d));
  pr_paddings : Forall (fun n => 0 <= n < 2 ^ 16) [tInit (paddings d); tResponse (paddings d); tCookie (paddings d); tTransport (paddings d)];
  pr_headers : Forall (fun r => range_wf r /\ r <> 0) [tInit (headers d); tResponse (headers d); tCookie (headers d); tTransport (headers d)];
  pr_chains : exists a b c e f, ipackets d = [a; b; c; e; f] /\
    Forall chain_ok [a; b; c; e; f];
  pr_headerKey : bytes_ok (headerProtectionKey d) /\ length (headerProtectionKey d) = 32%nat;
  pr_addition : range_wf (contentPaddingAddition d);
  pr_timings : Forall range_wf [rekeyAfterTimeSec (timings d); rekeyTimeoutSec (timings d); rejectAfterTimeSec (timings d);
    keepaliveTimeoutSec (timings d); maxHandshakeAttempsR (timings d)]
}.


Lemma int_leads k bits n (m : Z -> ste (ipcSetDevice * Device) ipcError unit) f s :
  deviceKey k = true -> 0 <= n < 2 ^ bits -> (forall v x, handleDeviceLine (str k) v x = uintLine bits m v x) ->
  does (m n) f -> (n = 0 -> f s = s) -> leads (intf k n) s (f s).
Proof.
  intros Hk Hn Hh Hm H0. apply leads_when; [done| |].
  - intros _. eapply does_ext; [|exact Hm]. intros x. by rewrite Hh, uintLine_dec.
  - intros E. apply H0. by destruct (Z.eqb_spec n 0).
Qed.

Lemma range_leads k r (m : Z -> ste (ipcSetDevice * Device) ipcError unit) f s :
  deviceKey k = true -> range_wf r -> (forall v x, handleDeviceLine (str k) v x = rangeLine m v x) ->
  does (m r) f -> (r = 0 -> f s = s) -> leads (rangef k r) s (f s).
Proof.
  intros Hk Hr Hh Hm H0. apply leads_when; [done| |].
  - intros _. eapply does_ext; [|exact Hm]. intros x. by rewrite Hh, rangeLine_string.
  - intros E. apply H0. unfold rangeIsZero in E. by destruct (Z.eqb_spec r 0).
Qed.

Lemma bool_leads k b (m : bool -> ste (ipcSetDevice * Device) ipcError unit) f s :
  deviceKey k = true -> (forall v x, handleDeviceLine (str k) v x = boolLine m v x) ->
  does (m b) f -> leads [(k, boolText b)] s (f s).
Proof.
  intros Hk Hh Hm. apply leads_line; [done|]. eapply does_ext; [|exact Hm]. intros x. by rewrite Hh, boolLine_text.
Qed.

Lemma chain_leads k i c s :
  deviceKey k = true -> chain_ok c ->
  (forall v x, handleDeviceLine (str k) v x = ipacketLine i v x) ->
  sIps s !! i = Some None ->
  leads (chainf k c) s (s <| sIps ::= <[i := c]> |>).
Proof.
  intros Hk Hc Hh Hn. destruct c as [c|]; cbn [chainf].
  - apply (leads_line k (Spec c) (fun s => s <| sIps ::= <[i := Some c]> |>)); [done|].
    eapply does_ext; [intros x; rewrite Hh; apply ipacketLine_spec, Hc|]. by apply does_onDevice.
  - assert (E : s <| sIps ::= <[i := None]> |> = s).
    { clear Hh. destruct s as [a1 a2 a3 a4 l a6 a7 a8 a9 a10 a11 a12]. cbn in Hn.
      change (mkSettings a1 a2 a3 a4 (<[i := None]> l) a6 a7 a8 a9 a10 a11 a12 = mkSettings a1 a2 a3 a4 l a6 a7 a8 a9 a10 a11 a12).
      by rewrite list_insert_id. }
    rewrite E. apply leads_nil.
Qed.

(** *** The groups of lines *)

(** One line of a group: its setting is written to the state in [f]. *)
Ltac one_line tac :=
  lazymatch goal with
  | |- leads (_ ++ _) _ _ => eapply leads_app; [tac|]
  | |- _ => eapply leads_eq; [tac|reflexivity]
  end.
Ltac line_side := [> reflexivity|assumption|intros; reflexivity|by apply does_onDevice || by apply does_onIpc|intros ->; reflexivity].
Ltac int_line k bits f := one_line ltac:(eapply (int_leads k bits _ _ f); line_side).
Ltac range_line k f := one_line ltac:(eapply (range_leads k _ _ f); line_side).

Ltac nonzero_line k f := one_line ltac:(eapply (range_leads k _ _ f); [reflexivity|assumption|intros; reflexivity|by apply does_onIpc|congruence]).
Ltac chain_line k i := one_line ltac:(apply (chain_leads k i); [reflexivity|assumption|reflexivity|reflexivity]).

Lemma junk_leads j s :
  is_u32 (junkCount j) -> is_u32 (junkMin j) -> is_u32 (junkMax j) -> sJunk s = mkJunk 0 0 0 ->
  leads (intf "jc" (junkCount j) ++ intf "jmin" (junkMin j) ++ intf "jmax" (junkMax j)) s (s <| sJunk := j |>).
Proof.
  destruct j as [mi ma co], s as [a1 a2 a3 a4 a5 a6 a7 a8 a9 a10 a11 a12]. cbn. intros Hc Hm Hx ->.
  int_line "jc"%string 32 (fun s => s <| sJunk ::= (fun j => j <| junkCount := co |>) |>).
  int_line "jmin"%string 32 (fun s => s <| sJunk ::= (fun j => j <| junkMin := mi |>) |>).
  int_line "jmax"%string 32 (fun s => s <| sJunk ::= (fun j => j <| junkMax := ma |>) |>).
Qed.

Lemma paddings_leads p s :
  Forall (fun n => 0 <= n < 2 ^ 16) [tInit p; tResponse p; tCookie p; tTransport p] -> sPaddings s = mkPerType 0 0 0 0 ->
  leads (intf "s1" (tInit p) ++ intf "s2" (tResponse p) ++ intf "s3" (tCookie p) ++ intf "s4" (tTransport p)) s (s <| sPaddings := p |>).
Proof.
  rewrite !Forall_cons. intros (H1 & H2 & H3 & H4 & _).
  destruct p as [x y z w], s as [a1 a2 a3 a4 a5 a6 a7 a8 a9 a10 a11 a12]. cbn in *. intros ->.
  int_line "s1"%string 16 (fun s => s <| sPaddings ::= (fun p => p <| tInit := x |>) |>).
  int_line "s2"%string 16 (fun s => s <| sPaddings ::= (fun p => p <| tResponse := y |>) |>).
  int_line "s3"%string 16 (fun s => s <| sPaddings ::= (fun p => p <| tCookie := z |>) |>).
  int_line "s4"%string 16 (fun s => s <| sPaddings ::= (fun p => p <| tTransport := w |>) |>).
Qed.

Lemma timings_leads t s :
  Forall range_wf [rekeyAfterTimeSec t; rekeyTimeoutSec t; rejectAfterTimeSec t; keepaliveTimeoutSec t; maxHandshakeAttempsR t] ->
  sTimings s = mkTimings 0 0 0 0 0 ->
  leads (rangef "rekey_after_time" (rekeyAfterTimeSec t) ++ rangef "rekey_timeout" (rekeyTimeoutSec t) ++
    rangef "reject_after_time" (rejectAfterTimeSec t) ++ rangef "keepalive_timeout" (keepaliveTimeoutSec t) ++
    rangef "max_handshake_attempts" (maxHandshakeAttempsR t)) s (s <| sTimings := t |>).
Proof.
  rewrite !Forall_cons. intros (H1 & H2 & H3 & H4 & H5 & _).
  destruct t as [x y z w v], s as [a1 a2 a3 a4 a5 a6 a7 a8 a9 a10 a11 a12]. cbn in *. intros ->.
  range_line "rekey_after_time"%string (fun s => s <| sTimings ::= (fun t => t <| rekeyAfterTimeSec := x |>) |>).
  range_line "rekey_timeout"%string (fun s => s <| sTimings ::= (fun t => t <| rekeyTimeoutSec := y |>) |>).
  range_line "reject_after_time"%string (fun s => s <| sTimings ::= (fun t => t <| rejectAfterTimeSec := z |>) |>).
  range_line "keepalive_timeout"%string (fun s => s <| sTimings ::= (fun t => t <| keepaliveTimeoutSec := w |>) |>).
  range_line "max_handshake_attempts"%string (fun s => s <| sTimings ::= (fun t => t <| maxHandshakeAttempsR := v |>) |>).
Qed.

Lemma headers_leads h s :
  Forall (fun r => range_wf r /\ r <> 0) [tInit h; tResponse h; tCookie h; tTransport h] ->
  leads (rangef "h1" (tInit h) ++ rangef "h2" (tResponse h) ++ rangef "h3" (tCookie h) ++ rangef "h4" (tTransport h)) s (s <| sHeaders := h |>).
Proof.
  rewrite !Forall_cons. intros ([H1 N1] & [H2 N2] & [H3 N3] & [H4 N4] & _).
  destruct h as [x y z w], s as [a1 a2 a3 a4 a5 a6 a7 a8 a9 a10 a11 a12]. cbn in *.
  nonzero_line "h1"%string (fun s => s <| sHeaders ::= (fun h => h <| tInit := x |>) |>).
  nonzero_line "h2"%string (fun s => s <| sHeaders ::= (fun h => h <| tResponse := y |>) |>).
  nonzero_line "h3"%string (fun s => s <| sHeaders ::= (fun h => h <| tCookie := z |>) |>).
  nonzero_line "h4"%string (fun s => s <| sHeaders ::= (fun h => h <| tTransport := w |>) |>).
Qed.

Lemma chains_leads a b c e f s :
  Forall chain_ok [a; b; c; e; f] -> sIps s = noPackets ->
  leads (concat (zip_with chainf ipacketNames [a; b; c; e; f])) s (s <| sIps := [a; b; c; e; f] |>).
Proof.
  rewrite !Forall_cons. intros (H1 & H2 & H3 & H4 & H5 & _). destruct s as [a1 a2 a3 a4 l a6 a7 a8 a9 a10 a11 a12]. cbn [sIps]. intros ->.
  change (concat (zip_with chainf ipacketNames [a; b; c; e; f])) with
    (chainf "i1" a ++ chainf "i2" b ++ chainf "i3" c ++ chainf "i4" e ++ chainf "i5" f ++ []). rewrite app_nil_r.
  chain_line "i1"%string 0%nat. chain_line "i2"%string 1%nat. chain_line "i3"%string 2%nat. chain_line "i4"%string 3%nat. chain_line "i5"%string 4%nat.
Qed.

(** *** The interface *)

Definition setKeys (raw : list Z) (ks : list Z * list Z) : list Z * list Z :=
  if bool_decide (raw = ks.1) then ks else (raw, publicKey raw).

Lemma peersOf_bare d : bare d -> peersOf d = [].
Proof. intros [_ H]. unfold peersOf. by rewrite H. Qed.

Lemma setKeys_at i d raw k own : setKeys raw (privateKey d, publicKeyOf d) = (k, own) ->
  settingsAt i d <| sKeys ::= setKeys raw |> = mkSettings (k, own) (port (net d)) (fwmark (net d)) (junk d) (ipackets d) (contentPaddingAddition d)
    (timings d) (randomTrailers d) (disableCookies d) (idHeaders i) (idPaddings i) (idHeaderKey i).
Proof. intros <-. done. Qed.

Lemma SetPrivateKey_bare raw d : bare d ->
  bare (SetPrivateKey raw d) /\ forall i, settingsAt i (SetPrivateKey raw d) = settingsAt i d <| sKeys ::= setKeys raw |>.
Proof.
  intros Hb. unfold SetPrivateKey. case_bool_decide as E.
  - split; [done|]. intros i. erewrite setKeys_at; [reflexivity|]. unfold setKeys. cbn. by rewrite bool_decide_eq_true_2.
  - rewrite (peersOf_bare d Hb). cbn [foldl]. set (d1 := d <| privateKey := raw |> <| publicKeyOf := _ |> <| cookieChecker ::= _ |>).
    assert (Hb1 : bare d1) by exact Hb. rewrite (peersOf_bare d1 Hb1). cbn [foldl]. rewrite (peersOf_bare d1 Hb1).
    split; [done|]. intros i. erewrite setKeys_at; [reflexivity|]. unfold setKeys. cbn. by rewrite bool_decide_eq_false_2.
Qed.

Lemma private_key_does raw : bytes_ok raw -> length raw = 32%nat -> effectiveKey raw = raw ->
  lineSets "private_key" (hexEncode raw) (fun s => s <| sKeys ::= setKeys raw |>).
Proof.
  intros Hb Hl He. apply (does_ext _ (onDevice (SetPrivateKey raw))).
  - intros s. change (handleDeviceLine (str "private_key") (hexEncode raw) s) with
      ((do sk <- invalid (privateKeyFromMaybeZeroHex (hexEncode raw)) ;; onDevice (SetPrivateKey sk)) s).
    assert (E : privateKeyFromMaybeZeroHex (hexEncode raw) = Ok raw).
    { transitivity (@Ok unit _ (effectiveKey raw)); [|by rewrite He]. unfold privateKeyFromMaybeZeroHex, loadExactHex. by rewrite hexDecode_hexEncode, Hl. }
    unfold sbind, invalid, slift. rewrite E. by destruct s.
  - apply does_onDevice; [intros d Hd|intros i d Hd]; by apply (SetPrivateKey_bare raw).
Qed.

(** A bind closes when it is asked to. *)
Context (closes : forall d, closeResult d = true).

Lemma listen_port_does n : does (onDevice (fun d => d <| net ::= (fun s => s <| port := n |>) |>) >>> orPortInUse BindUpdate) (fun s => s <| sPort := n |>).
Proof.
  intros i d [Hs Hk]. eexists i, (d <| net ::= (fun s => s <| port := n |>) |> <| net ::= (fun s => s <| bindOpen := false |>) |>).
  split; [|done]. unfold sbind, onDevice, smod, orPortInUse, BindUpdate, closeBindLocked. cbn [fst snd]. rewrite closes. cbn [negb].
  unfold isUp. replace (state _) with deviceStateDown by (symmetry; exact Hs). done.
Qed.

Lemma fwmark_does n : does (orPortInUse (BindSetMark n)) (fun s => s <| sMark := n |>).
Proof.
  intros i d Hb. unfold orPortInUse, BindSetMark. cbn [snd fst]. destruct (Z.eqb_spec (fwmark (net d)) n) as [E|E].
  - exists i, d. split; [done|]. split; [done|]. rewrite <- E. by destruct d.
  - set (d1 := d <| net ::= _ |>). assert (Hb1 : bare d1) by exact Hb. unfold isUp. destruct Hb1 as [Hs Hk]. rewrite Hs. cbn [andb].
    unfold clearSources. rewrite peersOf_bare by done. cbn [foldl]. by exists i, d1.
Qed.

(** ** The whole dump *)

Definition initialSettings : Settings :=
  mkSettings (zeroKey, zeroKey) 0 0 noJunk noPackets 0 (mkTimings 0 0 0 0 0) false false defaultHeaders (mkPerType 0 0 0 0) zeroKey.

(** The lines by groups. *)
Lemma getDevice_groups d : getDevice d =
  keyf "private_key" (privateKey d) ++ intf "listen_port" (port (net d)) ++ intf "fwmark" (fwmark (net d)) ++
  (intf "jc" (junkCount (junk d)) ++ intf "jmin" (junkMin (junk d)) ++ intf "jmax" (junkMax (junk d))) ++
  (intf "s1" (tInit (paddings d)) ++ intf "s2" (tResponse (paddings d)) ++ intf "s3" (tCookie (paddings d)) ++ intf "s4" (tTransport (paddings d))) ++
  (rangef "h1" (tInit (headers d)) ++ rangef "h2" (tResponse (headers d)) ++ rangef "h3" (tCookie (headers d)) ++ rangef "h4" (tTransport (headers d))) ++
  concat (zip_with chainf ipacketNames (ipackets d)) ++ keyf "header_protection_key" (headerProtectionKey d) ++
  rangef "content_padding_addition" (contentPaddingAddition d) ++
  (rangef "rekey_after_time" (rekeyAfterTimeSec (timings d)) ++ rangef "rekey_timeout" (rekeyTimeoutSec (timings d)) ++
   rangef "reject_after_time" (rejectAfterTimeSec (timings d)) ++ rangef "keepalive_timeout" (keepaliveTimeoutSec (timings d)) ++
   rangef "max_handshake_attempts" (maxHandshakeAttempsR (timings d))) ++
  [("random_trailers", boolText (randomTrailers d))]%string ++ [("disable_cookies", boolText (disableCookies d))]%string.
Proof. unfold getDevice. by rewrite <- !app_assoc. Qed.

Lemma setKeys_own d : printable d -> setKeys (privateKey d) (zeroKey, zeroKey) = (privateKey d, publicKeyOf d).
Proof.
  intros H. destruct (pr_key d H) as (_ & _ & He). rewrite (pr_own d H). unfold setKeys, ownKey. rewrite He. cbn [fst].
  case_bool_decide as E; [by rewrite E|done].
Qed.

Lemma leads_upd a s f s' : leads a s (f s) -> f s = s' -> leads a s s'.
Proof. by intros H <-. Qed.

Lemma dump_leads d : printable d -> leads (getDevice d) initialSettings (settingsOf d).
Proof.
  intros H. rewrite getDevice_groups. pose proof H as [(K1 & K2 & K3) _ Hp Hm (J1 & J2 & J3) Hs Hh (a & b & c & e & f & Ei & Hi) [G1 G2] Ha Ht].
  eapply leads_app.
  { apply leads_when with (f := fun s => s <| sKeys ::= setKeys (privateKey d) |>); [done|intros _; by apply private_key_does|].
    intros E. apply negb_false_iff, bool_decide_eq_true in E. rewrite E. reflexivity. }
  eapply leads_app; [eapply (int_leads "listen_port" 16 _ _ (fun s => s <| sPort := port (net d) |>));
    [done|done|intros; reflexivity|apply listen_port_does|intros ->; reflexivity]|].
  eapply leads_app; [eapply (int_leads "fwmark" 32 _ _ (fun s => s <| sMark := fwmark (net d) |>));
    [done|done|intros; reflexivity|apply fwmark_does|intros ->; reflexivity]|].
  eapply leads_app; [by apply junk_leads|]. eapply leads_app; [by apply paddings_leads|]. eapply leads_app; [by apply headers_leads|].
  eapply leads_app; [rewrite Ei; by apply chains_leads|].
  eapply leads_app.
  { apply leads_when with (f := fun s => s <| sHeaderKey := headerProtectionKey d |>); [done| |].
    - intros _. eapply does_ext; [|by apply does_onIpc with (f := fun i => i <| idHeaderKey := headerProtectionKey d |>)].
      intros x. by apply (hexLine_encode (headerProtectionKey d) (fun key => onIpc (fun i => i <| idHeaderKey := key |>))).
    - intros E. apply negb_false_iff, bool_decide_eq_true in E. rewrite E. reflexivity. }
  eapply leads_app; [eapply (range_leads "content_padding_addition" _ _ (fun s => s <| sAddition := contentPaddingAddition d |>)); line_side|].
  eapply leads_app; [by apply timings_leads|].
  eapply leads_app; [eapply (bool_leads "random_trailers" _ _ (fun s => s <| sTrailers := randomTrailers d |>)); [done|intros; reflexivity|by apply does_onDevice]|].
  eapply leads_upd; [eapply (bool_leads "disable_cookies" _ _ (fun s => s <| sCookies := disableCookies d |>)); [done|intros; reflexivity|by apply does_onDevice]|].
  unfold settingsOf, settingsAt. rewrite Ei, <- setKeys_own by done. reflexivity.
Qed.

(** *** Every line stays on its line *)

Definition valueOk (v : list Z) : Prop := oneLine v /\ Z.of_nat (length v) < 65000.

Lemma value_ok k v : keyOk k = true -> Z.of_nat (length (str k)) <= 64 -> valueOk v -> kvOk (k, v).
Proof. intros Hk Hl [Hv Hn]. split; [done|]. split; [done|by apply fits_value]. Qed.

Lemma when_ok b k v : keyOk k = true -> Z.of_nat (length (str k)) <= 64 -> valueOk v -> Forall kvOk (when b k v).
Proof. intros Hk Hl Hv. destruct b; [apply Forall_cons; split; [by apply value_ok|constructor]|constructor]. Qed.

Lemma dec_oneLine n : 0 <= n < 2 ^ 64 -> valueOk (dec n).
Proof.
  intros Hn. split; [|pose proof (length_dec n Hn); lia].
  apply oneLine_chars. eapply Forall_impl; [apply dec_digits; lia|]. intros x Hx. cbn in Hx. unfold isDigit in Hx. lia.
Qed.

Lemma hex_oneLine k : bytes_ok k -> length k = 32%nat -> valueOk (hexEncode k).
Proof.
  intros Hb Hl. split; [|rewrite length_hexEncode; lia].
  apply oneLine_chars. eapply Forall_impl; [by apply hexEncode_chars|]. cbn. lia.
Qed.

Lemma range_oneLine r : valueOk (rangeToString r).
Proof.
  pose proof (rangeLo_u32 r) as Hlo. pose proof (rangeHi_u32 r) as Hhi. unfold is_u32 in *.
  pose proof (length_dec (rangeLo r) ltac:(lia)). pose proof (length_dec (rangeHi r) ltac:(lia)).
  assert (Hd : forall n, 0 <= n -> Forall (fun x => x <> 10 /\ x <> 13) (dec n)).
  { intros n Hn. eapply Forall_impl; [by apply dec_digits|]. intros x Hx. cbn in Hx. unfold isDigit in Hx. lia. }
  unfold rangeToString. destruct (_ =? _).
  - split; [apply oneLine_chars, Hd; lia|lia].
  - split; [|rewrite !length_app; change (length (str "-")) with 1%nat; lia].
    apply oneLine_chars, Forall_app. split; [apply Hd; lia|]. apply Forall_app. split; [by repeat constructor|apply Hd; lia].
Qed.

Lemma bool_oneLine b : valueOk (boolText b).
Proof. split; [apply oneLine_chars|]; destruct b; first [done|apply Forall_singleton; split; discriminate]. Qed.

Lemma getDevice_ok d : printable d -> Forall kvOk (getDevice d).
Proof.
  intros [(K1 & K2 & _) _ Hp Hm (J1 & J2 & J3) Hs _ (a & b & c & e & f & Ei & Hi) [G1 G2] _ _]. unfold getDevice.
  rewrite !Forall_cons in Hs. destruct Hs as (S1 & S2 & S3 & S4 & _). unfold is_u32 in *.
  rewrite Ei. rewrite !Forall_cons in Hi. destruct Hi as (I1 & I2 & I3 & I4 & I5 & _).
  assert (Hch : forall k o, keyOk k = true -> Z.of_nat (length (str k)) <= 64 -> chain_ok o -> Forall kvOk (chainf k o)).
  { intros k [ch|] Hk Hl Ho; [|constructor]. apply Forall_cons. split; [apply value_ok; [done..|apply Ho]|constructor]. }
  repeat (apply Forall_app; split);
    try (apply when_ok; [reflexivity|done|first [by apply hex_oneLine|apply range_oneLine|apply dec_oneLine; lia]]).
  all: try (by apply Hch); try exact (Forall_nil_2 kvOk).
  apply Forall_cons; split; [apply value_ok; [done..|apply bool_oneLine]|].
  apply Forall_cons; split; [apply value_ok; [done..|apply bool_oneLine]|constructor].
Qed.

(** The checks of the merge pass on settings that satisfy the invariant. *)
Lemma config_noOverlap d : config_ok d -> noOverlap (headers d) = true.
Proof. intros [_ (D1 & D2 & D3 & D4 & D5 & D6) _ _]. unfold noOverlap. by rewrite D1, D2, D3, D4, D5, D6. Qed.

Lemma config_holdsSalt d : config_ok d -> negb (keyIsZero (headerProtectionKey d)) && negb (paddingsHoldSalt (paddings d)) = false.
Proof.
  intros [_ _ _ Hs]. destruct (keyIsZero _); [done|]. destruct (Hs eq_refl) as (S1 & S2 & S3 & S4).
  cbn [negb andb]. apply negb_false_iff. unfold paddingsHoldSalt. change (Z.of_nat HeaderCipherNonceSize) with 12. rewrite !andb_true_iff, !Z.leb_le. done.
Qed.

(** C16: what a device prints, another reads.  For a device whose settings can be
    printed (ranges, keys and numbers of their widths, chains that come from
    their text and shorter than a line of the scanner, no header range 0-0) and
    satisfy the invariant of the configuration, [IpcSet] accepts the device's part
    of what [IpcGet] prints, on any new device whose socket closes without error,
    and the new device then has the same keys, port, mark, junk,
    paddings, headers, header key, packet chains, content padding, timings and
    switches. *)
Theorem dump_roundtrip d mtu t0 :
  printable d -> config_ok d ->
  exists d', IpcSet (concat (map sendf (getDevice d))) (NewDevice mtu t0) = (Ok tt, d') /\ settingsOf d' = settingsOf d /\ bare d'.
Proof.
  intros H Hc. assert (E : map sendf (getDevice d) = map kvLine (getDevice d)) by done. rewrite E. clear E.
  unfold IpcSet. rewrite scanLines_kv by (by apply getDevice_ok). set (d0 := NewDevice mtu t0).
  destruct (dump_leads d H (ipcStart d0) d0 []) as (st & d1 & Hrun & Hb & _ & Hpeer & Hs); [done|done|done|].
  rewrite app_nil_r in Hrun. rewrite Hrun. cbn [ipcLines]. unfold finishIpc, mergeWithDevice.
  assert (Hh : idHeaders (ipcDev st) = headers d) by exact (f_equal sHeaders Hs).
  assert (Hp : idPaddings (ipcDev st) = paddings d) by exact (f_equal sPaddings Hs).
  assert (Hk : idHeaderKey (ipcDev st) = headerProtectionKey d) by exact (f_equal sHeaderKey Hs).
  rewrite Hh, Hp, Hk, (config_noOverlap d Hc), (config_holdsSalt d Hc). cbn [negb]. rewrite Hpeer.
  eexists. split; [reflexivity|]. split; [|exact Hb].
  transitivity (settingsAt (ipcDev st) d1); [|exact Hs]. unfold settingsOf, settingsAt, fromDevice. cbn. by rewrite Hh, Hp, Hk.
Qed.
End Roundtrip.
