(* ===== verification/GoUrl.v ===== *)
(** * The functions of [net/url] the share links use

    Escaping for three of its encodings, query strings, and URLs without a path:
    [URL.String] and [url.Parse] (zones of IPv6 literals are left out).  The first
    part is the code, the second its round trips. *)

From stdpp Require Import base numbers list gmap sorting strings.
From Stdlib Require Import ZArith Lia.
From S2P Require Import Prelude GoStrings NetIP GoNet GoNetThm.

(** ** Escaping *)
Inductive encoding := encodeQueryComponent | encodeUserPassword | encodeFragment | encodeHost | encodePath.
#[global] Instance encoding_eq_dec : EqDecision encoding.
Proof. solve_decision. Defined.

Definition isAlnum (c : Z) : bool :=
  ((97 <=? c) && (c <=? 122)) || ((65 <=? c) && (c <=? 90)) || isDigit c.

Definition oneOf (s : string) (c : Z) : bool := bool_decide (c ∈ str s).

(** [shouldEscape]. *)
Definition shouldEscape (mode : encoding) (c : Z) : bool :=
  if isAlnum c then false
  else if bool_decide (mode = encodeHost) && (oneOf "!$&'()*+,;=:[]<>" c || (c =? 34)) then false
  else if oneOf "-_.~" c then false
  else if oneOf "$&+,/:;=?@" c then
    match mode with
    | encodeQueryComponent => true
    | encodeUserPassword => oneOf "@/?:" c
    | encodeFragment => false
    | encodeHost => true
    | encodePath => c =? 63
    end
  else if bool_decide (mode = encodeFragment) && oneOf "!()*" c then false
  else true.

Definition upperHex (n : Z) : Z := if n <? 10 then 48 + n else 55 + n.

(** [escape]. *)
Definition escapeByte (mode : encoding) (c : Z) : list Z :=
  if shouldEscape mode c then
    if (c =? 32) && bool_decide (mode = encodeQueryComponent) then [43] else [37; upperHex (c / 16); upperHex (c mod 16)]
  else [c].
Definition escape (mode : encoding) (s : list Z) : list Z := s ≫= escapeByte mode.

Definition QueryEscape : list Z -> list Z := escape encodeQueryComponent.

(** [unescape]; in a host only bytes that are not ASCII and the percent sign may
    be escaped. *)
Fixpoint unescape (mode : encoding) (s : list Z) : option (list Z) :=
  match s with
  | [] => Some []
  | 37 :: h :: l :: s' =>
      match hexVal h, hexVal l with
      | Some h, Some l =>
          if bool_decide (mode = encodeHost) && (h <? 8) && negb ((h =? 2) && (l =? 5)) then None else cons (h * 16 + l) <$> unescape mode s'
      | _, _ => None
      end
  | 37 :: _ => None
  | c :: s' =>
      if (c =? 43) && bool_decide (mode = encodeQueryComponent) then cons 32 <$> unescape mode s'
      else if bool_decide (mode = encodeHost) && (c <? 128) && shouldEscape mode c then None
      else cons c <$> unescape mode s'
  end.
Definition QueryUnescape : list Z -> option (list Z) := unescape encodeQueryComponent.

(** ** Query strings

    [Values]: the values of each key, in order.  Keys are compared byte by byte. *)
Abbreviation Values := (gmap (list Z) (list (list Z))).

Definition valuesAdd (k v : list Z) (q : Values) : Values := <[k := default [] (q !! k) ++ [v]]> q.
Definition valuesGet (q : Values) (k : list Z) : list Z := default [] (q !! k ≫= head).

Definition cutEq (s : list Z) : list Z * list Z := let '(k, v, _) := cutByte 61 s in (k, v).

(** [ParseQuery] goes on after a pair it cannot read and reports the first error. *)
Definition parsePair (s : list Z) : option (list Z * list Z) :=
  let '(k, v) := cutEq s in
  if containsByte s 59 then None else k ← QueryUnescape k; v ← QueryUnescape v; Some (k, v).

Fixpoint parsePairs (parts : list (list Z)) (q : Values) (ok : bool) : Values * bool :=
  match parts with
  | [] => (q, ok)
  | s :: parts =>
      if bool_decide (s = []) then parsePairs parts q ok
      else
        match parsePair s with
        | Some (k, v) => parsePairs parts (valuesAdd k v q) ok
        | None => parsePairs parts q false
        end
  end.
Definition ParseQuery (s : list Z) : Values * bool := parsePairs (splitByte 38 s) ∅ true.

(** Byte order of strings. *)
Fixpoint strLe (a b : list Z) : bool :=
  match a, b with
  | [], _ => true
  | _ :: _, [] => false
  | x :: a, y :: b => (x <? y) || ((x =? y) && strLe a b)
  end.

(** [Values.Encode]: by key. *)
Definition sortedKeys (q : Values) : list (list Z) := merge_sort strLe (map_to_list q).*1.
Definition encodePairs (q : Values) : list (list Z * list Z) :=
  sortedKeys q ≫= fun k => (fun v => (k, v)) <$> default [] (q !! k).
Definition pairText (kv : list Z * list Z) : list Z := QueryEscape kv.1 ++ 61 :: QueryEscape kv.2.
Definition Encode (q : Values) : list Z := joinByte 38 (map pairText (encodePairs q)).

(** ** URLs *)
Record Userinfo := mkUser { uiUsername : list Z; uiPassword : option (list Z) }.
Record URL := mkURL {
  uScheme : list Z; uOpaque : list Z; uUser : option Userinfo; uHost : list Z; uRawQuery : list Z; uFragment : list Z
}.
#[global] Instance rebuild_URL : Rebuild URL := fun u =>
  mkURL (uScheme u) (uOpaque u) (uUser u) (uHost u) (uRawQuery u) (uFragment u).
Definition emptyURL : URL := mkURL [] [] None [] [] [].

Definition userString (u : Userinfo) : list Z :=
  escape encodeUserPassword (uiUsername u) ++
  match uiPassword u with Some p => 58 :: escape encodeUserPassword p | None => [] end.

(** [URL.String] for a URL with a scheme and no path. *)
Definition urlString (u : URL) : list Z :=
  uScheme u ++ 58 ::
  (if negb (bool_decide (uOpaque u = [])) then uOpaque u
   else match uUser u with
        | None => if bool_decide (uHost u = []) then [] else str "//" ++ escape encodeHost (uHost u)
        | Some i => str "//" ++ userString i ++ 64 :: escape encodeHost (uHost u)
        end) ++
  (if bool_decide (uRawQuery u = []) then [] else 63 :: uRawQuery u) ++
  (if bool_decide (uFragment u = []) then [] else 35 :: escape encodeFragment (uFragment u)).

(** [getScheme]: the scheme in lower case and the rest; [None] for an error. *)
Fixpoint getScheme (i : nat) (s all acc : list Z) : option (list Z * list Z) :=
  match s with
  | [] => Some ([], all)
  | c :: s =>
      if ((97 <=? c) && (c <=? 122)) || ((65 <=? c) && (c <=? 90)) then getScheme (S i) s all (acc ++ [c])
      else if isDigit c || oneOf "+-." c then
        if (i =? 0)%nat then Some ([], all) else getScheme (S i) s all (acc ++ [c])
      else if c =? 58 then if (i =? 0)%nat then None else Some (toLower acc, s)
      else Some ([], all)
  end.

Definition validUserinfo (s : list Z) : bool := forallb (fun c => isAlnum c || oneOf "-._:~!$&'()*+,;=%@" c) s.

(** A port that may be missing, with its colon. *)
Definition validOptionalPort (s : list Z) : bool :=
  match s with [] => true | c :: p => (c =? 58) && forallb isDigit p end.

(** [parseHost]: a bracketed host is an IPv6 address, any other has one colon. *)
Definition parseHost (h : list Z) : option (list Z) :=
  match lastIndexByte h 91 with
  | Some (S _) => None
  | Some O =>
      i ← lastIndexByte h 93;
      if negb (validOptionalPort (skipn (S i) h)) then None
      else
        port ← unescape encodeHost (skipn (S i) h);
        name ← unescape encodeHost (firstn (i - 1) (skipn 1 h));
        _ ← parseIPv6 name;
        Some (91 :: name ++ 93 :: port)
  | None =>
      match indexByte h 58 with
      | Some i => if negb (validOptionalPort (skipn i h)) then None else unescape encodeHost h
      | None => unescape encodeHost h
      end
  end.

Definition parseUserinfo (s : list Z) : option Userinfo :=
  if negb (validUserinfo s) then None
  else
    match cutByte 58 s with
    | (name, pw, true) =>
        name ← unescape encodeUserPassword name; pw ← unescape encodeUserPassword pw; Some (mkUser name (Some pw))
    | (name, _, false) => name ← unescape encodeUserPassword name; Some (mkUser name None)
    end.

Definition parseAuthority (s : list Z) : option (option Userinfo * list Z) :=
  match lastIndexByte s 64 with
  | None => h ← parseHost s; Some (None, h)
  | Some i =>
      h ← parseHost (skipn (S i) s);
      u ← parseUserinfo (firstn i s);
      Some (Some u, h)
  end.

Definition isCTL (c : Z) : bool := (c <? 32) || (c =? 127).

(** The part before the fragment.  The path of the result is not kept; a URL
    without a scheme is refused, since none of the callers accepts one. *)
Definition parseURL (s : list Z) : option URL :=
  if existsb isCTL s then None
  else
    match getScheme 0 s s [] with
    | None | Some ([], _) => None
    | Some (scheme, rest) =>
        let '(rest, query) :=
          if hasSuffix rest [63] && (length (List.filter (Z.eqb 63) rest) =? 1)%nat then (trimSuffix rest [63], [])
          else let '(rest, query, _) := cutByte 63 rest in (rest, query) in
        if negb (hasPrefix rest [47]) then Some (mkURL scheme rest None [] query [])
        else if hasPrefix rest (str "//") then
          let '(authority, path) :=
            match indexByte (skipn 2 rest) 47 with
            | Some i => (firstn i (skipn 2 rest), skipn i (skipn 2 rest))
            | None => (skipn 2 rest, [])
            end in
          uh ← parseAuthority authority;
          _ ← unescape encodePath path;
          Some (mkURL scheme [] uh.1 uh.2 query [])
        else
          _ ← unescape encodePath rest;
          Some (mkURL scheme [] None [] query [])
    end.

(** [url.Parse]. *)
Definition Parse (s : list Z) : option URL :=
  let '(s, frag, _) := cutByte 35 s in
  u ← parseURL s;
  f ← unescape encodeFragment frag;
  Some (u <| uFragment := f |>).

(** [URL.Hostname] and [URL.Port]. *)
Definition splitHostPort (h : list Z) : list Z * list Z :=
  let '(host, port) :=
    match lastIndexByte h 58 with
    | Some i => if validOptionalPort (skipn i h) then (firstn i h, skipn (S i) h) else (h, [])
    | None => (h, [])
    end in
  (if hasPrefix host [91] && hasSuffix host [93] then firstn (length host - 2) (skipn 1 host) else host, port).
Definition Hostname (u : URL) : list Z := (splitHostPort (uHost u)).1.
Definition Port (u : URL) : list Z := (splitHostPort (uHost u)).2.
Definition Query (u : URL) : Values := (ParseQuery (uRawQuery u)).1.

(** ** Round trips of escaping *)
Lemma upperHex_val n : 0 <= n < 16 -> hexVal (upperHex n) = Some n.
Proof.
  intros Hn. unfold upperHex, hexVal, isDigit. destruct (Z.ltb_spec n 10).
  - rewrite (proj2 (Z.leb_le 48 (48 + n))), (proj2 (Z.leb_le (48 + n) 57)) by lia. cbn. f_equal. lia.
  - rewrite (proj2 (Z.leb_le 48 (55 + n))), (proj2 (Z.leb_gt (55 + n) 57)) by lia. cbn.
    rewrite (proj2 (Z.leb_gt 97 (55 + n))) by lia. cbn.
    rewrite (proj2 (Z.leb_le 65 (55 + n))), (proj2 (Z.leb_le (55 + n) 70)) by lia. cbn. f_equal. lia.
Qed.

(** A byte that is left alone is none of those with a meaning. *)
Lemma plain_byte mode c : shouldEscape mode c = false -> c <> 37 /\ (mode = encodeQueryComponent -> c <> 43).
Proof. intros H. split; [intros ->; by destruct mode|by intros -> ->]. Qed.

Lemma unescape_plain mode c t :
  mode <> encodeHost -> shouldEscape mode c = false -> unescape mode (c :: t) = cons c <$> unescape mode t.
Proof.
  intros Hm H. destruct (plain_byte _ _ H) as [H1 H2].
  assert (Hc : (c =? 43) && bool_decide (mode = encodeQueryComponent) = false).
  { case_bool_decide as e; [|by rewrite andb_false_r]. rewrite andb_true_r. apply Z.eqb_neq. by apply H2. }
  assert (Hgen : unescape mode (c :: t) =
            if (c =? 43) && bool_decide (mode = encodeQueryComponent) then cons 32 <$> unescape mode t
            else if bool_decide (mode = encodeHost) && (c <? 128) && shouldEscape mode c then None
            else cons c <$> unescape mode t).
  { cbn [unescape]. destruct c as [|p|p]; try done. repeat (destruct p as [p|p|]; try done). }
  by rewrite Hgen, Hc, bool_decide_eq_false_2 by done.
Qed.

Lemma unescape_hex mode c t :
  mode <> encodeHost -> is_u8 c -> unescape mode (37 :: upperHex (c / 16) :: upperHex (c mod 16) :: t) = cons c <$> unescape mode t.
Proof.
  intros Hm Hc. unfold is_u8 in Hc. cbn [unescape]. rewrite !upperHex_val by (Z.div_mod_to_equations; lia).
  rewrite bool_decide_eq_false_2 by done. cbn. f_equal. f_equal. Z.div_mod_to_equations. lia.
Qed.

Lemma unescape_escape mode s : mode <> encodeHost -> bytes_ok s -> unescape mode (escape mode s) = Some s.
Proof.
  intros Hm. induction s as [|c s IH]; [done|]. intros [Hc Hs]%Forall_cons. unfold escape. cbn [mbind list_bind].
  fold (escape mode s). unfold escapeByte. destruct (shouldEscape mode c) eqn:e.
  - case_match eqn:e2.
    + apply andb_prop in e2 as [->%Z.eqb_eq H2]. apply bool_decide_eq_true in H2 as ->. cbn. rewrite IH by done. done.
    + cbn [app]. rewrite unescape_hex, IH by done. done.
  - cbn [app]. rewrite unescape_plain, IH by done. done.
Qed.

(** *** The bytes of escaped text *)
Definition plainFor (mode : encoding) (c : Z) : bool :=
  negb (shouldEscape mode c) || (c =? 37) || ((c =? 43) && bool_decide (mode = encodeQueryComponent)).

Lemma upperHex_alnum n : 0 <= n < 16 -> isAlnum (upperHex n) = true.
Proof.
  intros Hn. assert (Hin : n ∈ seqZ 0 16) by (apply elem_of_seqZ; lia).
  assert (Hall : Forall (fun m => isAlnum (upperHex m) = true) (seqZ 0 16)) by (vm_compute; repeat constructor).
  by eapply Forall_forall in Hin; [|exact Hall].
Qed.

Lemma alnum_plain mode c : isAlnum c = true -> plainFor mode c = true.
Proof. intros H. unfold plainFor, shouldEscape. by rewrite H. Qed.

Lemma escape_plain mode s : bytes_ok s -> Forall (fun c => plainFor mode c = true) (escape mode s).
Proof.
  intros Hs. induction Hs as [|c s Hc _ IH]; [constructor|]. unfold escape. cbn [mbind list_bind].
  apply Forall_app. split; [|exact IH]. unfold escapeByte. unfold is_u8 in Hc. destruct (shouldEscape mode c) eqn:e.
  - case_match eqn:e2.
    + apply andb_prop in e2 as [_ H2]. apply bool_decide_eq_true in H2 as ->. by repeat constructor.
    + repeat constructor; [|apply alnum_plain, upperHex_alnum; Z.div_mod_to_equations; lia..].
      unfold plainFor. by rewrite orb_true_r.
  - repeat constructor. unfold plainFor. by rewrite e.
Qed.

(** A byte that escaped text does not hold. *)
Lemma escape_no_byte mode c s : bytes_ok s -> plainFor mode c = false -> c ∉ escape mode s.
Proof. intros Hs Hc Hin. eapply Forall_forall in Hin; [|by apply escape_plain]. cbn in Hin. congruence. Qed.

Lemma escape_nil mode s : escape mode s = [] -> s = [].
Proof.
  destruct s as [|c s]; [done|]. unfold escape. cbn [mbind list_bind]. unfold escapeByte. by repeat case_match.
Qed.

(** ** Round trips of query strings *)
Definition textsOk (q : Values) : Prop := map_Forall (fun k vs => bytes_ok k /\ vs <> [] /\ Forall bytes_ok vs) q.

Lemma splitByte_joinByte c parts :
  parts <> [] -> Forall (fun p => c ∉ p) parts -> splitByte c (joinByte c parts) = parts.
Proof.
  intros Hne Hp. destruct parts as [|p parts]; [done|]. clear Hne. revert p Hp.
  induction parts as [|p2 parts IH]; intros p [Hp Hps]%Forall_cons.
  - unfold joinByte. cbn. rewrite app_nil_r. apply splitByte_none. by apply not_elem_Forall.
  - assert (He : joinByte c (p :: p2 :: parts) = p ++ c :: joinByte c (p2 :: parts)) by done.
    rewrite He, splitByte_app by (by apply not_elem_Forall). f_equal. by apply IH.
Qed.

Lemma parsePair_text k v : bytes_ok k -> bytes_ok v -> parsePair (pairText (k, v)) = Some (k, v).
Proof.
  intros Hk Hv. unfold parsePair, pairText, cutEq. cbn [fst snd].
  assert (Hno : forall c s, bytes_ok s -> plainFor encodeQueryComponent c = false -> c ∉ QueryEscape s) by (intros; by apply escape_no_byte).
  rewrite cutByte_app by (apply not_elem_Forall; by apply Hno).
  assert (Hsemi : containsByte (QueryEscape k ++ 61 :: QueryEscape v) 59 = false).
  { apply containsByte_false. rewrite elem_of_app, elem_of_cons. intros [H|[H|H]]; [|done|]; by eapply Hno in H. }
  rewrite Hsemi. unfold QueryUnescape, QueryEscape. rewrite !unescape_escape by done. done.
Qed.

Lemma pairText_ok kv : bytes_ok kv.1 -> bytes_ok kv.2 -> 38 ∉ pairText kv /\ pairText kv <> [] /\ Forall (fun c => plainFor encodeQueryComponent c = true \/ c = 61) (pairText kv).
Proof.
  intros Hk Hv. unfold pairText. split_and!.
  - rewrite elem_of_app, elem_of_cons. intros [H|[H|H]]; [|done|]; by apply escape_no_byte in H.
  - by destruct (QueryEscape kv.1).
  - apply Forall_app. split; [|constructor; [by right|]]; eapply Forall_impl; try (by apply escape_plain); by left.
Qed.

Definition addPairs (l : list (list Z * list Z)) (q : Values) : Values := foldl (fun q kv => valuesAdd kv.1 kv.2 q) q l.

Lemma parsePairs_text l q :
  Forall (fun kv => bytes_ok kv.1 /\ bytes_ok kv.2) l -> parsePairs (map pairText l) q true = (addPairs l q, true).
Proof.
  intros Hl. revert q. induction Hl as [|[k v] l [Hk Hv] _ IH]; intros q; [done|]. cbn [map parsePairs].
  rewrite bool_decide_eq_false_2 by (by apply pairText_ok). by rewrite parsePair_text, IH by done.
Qed.

(** Adding the values of one key, then those of others. *)
Lemma addPairs_key k vs q k' :
  addPairs ((fun v => (k, v)) <$> vs) q !! k' =
  if decide (k' = k) then (match vs with [] => q !! k | _ => Some (default [] (q !! k) ++ vs) end) else q !! k'.
Proof.
  revert q. induction vs as [|v vs IH]; intros q; cbn; [by case_decide; subst|]. unfold addPairs in IH. rewrite IH. unfold valuesAdd.
  case_decide as e; [subst k'|by rewrite lookup_insert_ne]. rewrite !lookup_insert_eq. destruct vs; [done|]. cbn. by rewrite <- app_assoc.
Qed.

Lemma addPairs_app l1 l2 q : addPairs (l1 ++ l2) q = addPairs l2 (addPairs l1 q).
Proof. apply foldl_app. Qed.

Lemma addPairs_keys (f : list Z -> list (list Z)) ks q k' :
  NoDup ks -> (forall k, k ∈ ks -> f k <> [] /\ q !! k = None) ->
  addPairs (ks ≫= fun k => (fun v => (k, v)) <$> f k) q !! k' = if decide (k' ∈ ks) then Some (f k') else q !! k'.
Proof.
  intros Hnd. revert q. induction Hnd as [|k ks Hk Hnd IH]; intros q Hf; [by case_decide; [set_solver|]|].
  cbn [mbind list_bind]. rewrite addPairs_app, IH.
  - destruct (Hf k) as [Hfk Hqk]; [by left|]. rewrite addPairs_key. destruct (decide (k' = k)) as [->|Hne].
    + rewrite decide_False by done. rewrite decide_True by (by left). rewrite Hqk. by destruct (f k).
    + by repeat case_decide; set_solver.
  - intros k2 Hk2. destruct (Hf k2) as [H1 H2]; [by right|]. split; [done|]. rewrite addPairs_key, decide_False; [done|]. by intros ->.
Qed.

Lemma sortedKeys_perm q : sortedKeys q ≡ₚ (map_to_list q).*1.
Proof. apply merge_sort_Permutation. Qed.

Lemma elem_of_sortedKeys q k : k ∈ sortedKeys q <-> is_Some (q !! k).
Proof.
  rewrite sortedKeys_perm, list_elem_of_fmap. split.
  - intros ([k' vs] & -> & H%elem_of_map_to_list). by exists vs.
  - intros [vs H]. exists (k, vs). by rewrite elem_of_map_to_list.
Qed.

Lemma addPairs_encodePairs q : textsOk q -> addPairs (encodePairs q) ∅ = q.
Proof.
  intros Hq. apply map_eq. intros k. unfold encodePairs. rewrite addPairs_keys.
  - case_decide as e; [apply elem_of_sortedKeys in e as [vs ->]; done|].
    rewrite lookup_empty. destruct (q !! k) eqn:ek; [|done]. exfalso. apply e, elem_of_sortedKeys. by exists l.
  - rewrite sortedKeys_perm. apply NoDup_fst_map_to_list.
  - intros k' [vs Hk]%elem_of_sortedKeys. rewrite Hk. split; [|apply lookup_empty]. by apply (Hq k' vs Hk).
Qed.

Lemma encodePairs_ok q : textsOk q -> Forall (fun kv => bytes_ok kv.1 /\ bytes_ok kv.2) (encodePairs q).
Proof.
  intros Hq. apply Forall_forall. intros [k v] (k' & Hv & [vs Hk]%elem_of_sortedKeys)%list_elem_of_bind.
  apply list_elem_of_fmap in Hv as (v' & [= -> ->] & Hv). rewrite Hk in Hv. destruct (Hq _ _ Hk) as (H1 & _ & H2).
  split; [done|]. eapply Forall_forall in H2; done.
Qed.

Lemma ParseQuery_Encode q : textsOk q -> ParseQuery (Encode q) = (q, true).
Proof.
  intros Hq. unfold ParseQuery, Encode. pose proof (encodePairs_ok q Hq) as Hl.
  rewrite <- (addPairs_encodePairs q Hq) at 2. destruct (encodePairs q) as [|kv l] eqn:e; [done|]. rewrite <- e in *.
  rewrite splitByte_joinByte; [by apply parsePairs_text|by rewrite e|].
  apply Forall_map. eapply Forall_impl; [exact Hl|]. intros kv' [H1 H2]. by apply pairText_ok.
Qed.

Lemma Encode_bytes q c : textsOk q -> plainFor encodeQueryComponent c = false -> c <> 61 -> c <> 38 -> c ∉ Encode q.
Proof.
  intros Hq Hc H1 H2. unfold Encode. pose proof (encodePairs_ok q Hq) as Hl. induction Hl as [|kv l [Hk Hv] Hl IH]; [apply not_elem_of_nil|].
  assert (Hp : c ∉ pairText kv).
  { intros Hin. destruct (pairText_ok kv Hk Hv) as (_ & _ & Hf). eapply Forall_forall in Hf; [|exact Hin]. cbn in Hf. destruct Hf; congruence. }
  destruct l as [|kv2 l]; [unfold joinByte; cbn; by rewrite app_nil_r|].
  assert (He : joinByte 38 (map pairText (kv :: kv2 :: l)) = pairText kv ++ 38 :: joinByte 38 (map pairText (kv2 :: l))) by done.
  rewrite He, elem_of_app, elem_of_cons. intros [?|[?|?]]; [done|congruence|by apply IH].
Qed.

Lemma valuesAdd_ok k v q : bytes_ok k -> bytes_ok v -> textsOk q -> textsOk (valuesAdd k v q).
Proof.
  intros Hk Hv Hq. apply map_Forall_insert_2; [|done]. split; [done|]. split; [by destruct (default [] (q !! k))|].
  apply Forall_app. split; [|by constructor]. destruct (q !! k) eqn:e; [|constructor]. by apply (Hq _ _ e).
Qed.

Lemma valuesGet_add k v q k' :
  valuesGet (valuesAdd k v q) k' = if decide (k' = k) then (match q !! k with Some (x :: _) => x | _ => v end) else valuesGet q k'.
Proof.
  unfold valuesGet, valuesAdd. case_decide as e; [subst k'; rewrite lookup_insert_eq|by rewrite lookup_insert_ne].
  by destruct (q !! k) as [[|]|].
Qed.

(** ** Round trips of URLs *)
Definition isLower (c : Z) : bool := (97 <=? c) && (c <=? 122).
Definition schemeByte (c : Z) : bool := isLower c || isDigit c.
Definition schemeOk (s : list Z) : Prop := is_Some (List.find isLower (firstn 1 s)) /\ Forall (fun c => schemeByte c = true) s.

(** Text that ends nothing and is no control character. *)
Definition authorityOk (s : list Z) : Prop := Forall (fun c => isCTL c = false /\ c <> 35 /\ c <> 63 /\ c <> 47) s.

Definition afterAuthority (q frag : list Z) : list Z :=
  (if bool_decide (q = []) then [] else 63 :: q) ++ (if bool_decide (frag = []) then [] else 35 :: escape encodeFragment frag).

Lemma schemeByte_range c : schemeByte c = true -> 48 <= c <= 57 \/ 97 <= c <= 122.
Proof. unfold schemeByte, isLower, isDigit. rewrite orb_true_iff, !andb_true_iff, !Z.leb_le. lia. Qed.

Lemma getScheme_rest sch rest all i acc :
  Forall (fun c => schemeByte c = true) sch -> i <> O -> getScheme i (sch ++ 58 :: rest) all acc = Some (toLower (acc ++ sch), rest).
Proof.
  intros Hs. revert i acc. induction Hs as [|c sch Hc Hs IH]; intros i acc Hi; cbn [app getScheme].
  - cbn. destruct i; [done|]. by rewrite app_nil_r.
  - unfold schemeByte, isLower in Hc. destruct ((97 <=? c) && (c <=? 122)); cbn [orb] in *; [by rewrite IH, <- app_assoc by lia|].
    rewrite Hc. cbn [orb]. replace ((65 <=? c) && (c <=? 90)) with false by (unfold isDigit in Hc; lia).
    rewrite (proj2 (Nat.eqb_neq i 0)) by done. by rewrite IH, <- app_assoc by lia.
Qed.

Lemma getScheme_text sch rest all : schemeOk sch -> getScheme 0 (sch ++ 58 :: rest) all [] = Some (toLower sch, rest).
Proof.
  intros [Hh Hs]. destruct Hs as [|c sch Hc Hs]; [by destruct Hh|]. cbn in Hh. unfold isLower in Hh. cbn [app getScheme].
  destruct ((97 <=? c) && (c <=? 122)); [|by destruct Hh]. cbn [orb]. by rewrite getScheme_rest.
Qed.

Lemma toLower_lower s : Forall (fun c => schemeByte c = true) s -> toLower s = s.
Proof.
  intros Hs. unfold toLower. induction Hs as [|c s Hc Hs IH]; [done|]. cbn. rewrite IH. f_equal.
  apply schemeByte_range in Hc. destruct (Z.leb_spec 65 c), (Z.leb_spec c 90); cbn; lia.
Qed.

Lemma cutByte_no c s : c ∉ s -> cutByte c s = (s, [], false).
Proof. intros H. unfold cutByte. by rewrite indexByte_none by (by apply not_elem_Forall). Qed.

Lemma hasSuffix_no c s : c ∉ s -> hasSuffix s [c] = false.
Proof.
  intros H. unfold hasSuffix. cbn [length]. apply andb_false_iff. right. apply bool_decide_eq_false_2. intros He. apply H.
  rewrite <- (take_drop (length s - 1) s), He. apply elem_of_app. right. by left.
Qed.

Lemma no_CTL s : Forall (fun c => isCTL c = false) s -> existsb isCTL s = false.
Proof. intros Hs. induction Hs as [|c s Hc _ IH]; [done|]. cbn. by rewrite Hc. Qed.

Lemma parseURL_text sch A q u h :
  schemeOk sch -> authorityOk A -> 63 ∉ q -> Forall (fun c => isCTL c = false) q -> parseAuthority A = Some (u, h) ->
  parseURL (sch ++ 58 :: str "//" ++ A ++ (if bool_decide (q = []) then [] else 63 :: q)) = Some (mkURL sch [] u h q []).
Proof.
  intros [Hs1 Hs2] HA Hq Hqc Hp. set (qt := if bool_decide (q = []) then [] else 63 :: q).
  assert (HA2 : forall c, c ∈ A -> isCTL c = false /\ c <> 35 /\ c <> 63 /\ c <> 47) by (by apply Forall_forall).
  assert (Hctl : existsb isCTL (sch ++ 58 :: str "//" ++ A ++ qt) = false).
  { apply no_CTL, Forall_app. split; [|constructor; [done|do 2 (constructor; [done|])]].
    - eapply Forall_impl; [exact Hs2|]. intros c Hc%schemeByte_range. unfold isCTL.
      destruct (Z.ltb_spec c 32), (Z.eqb_spec c 127); done || lia.
    - apply Forall_app. split; [apply Forall_forall; intros c Hc; by apply HA2|]. unfold qt. case_bool_decide; by constructor. }
  unfold parseURL. rewrite Hctl, getScheme_text by done. rewrite toLower_lower by done. destruct sch as [|c0 sch]; [by destruct Hs1|].
  assert (H63 : 63 ∉ str "//" ++ A).
  { assert (H0 : 63 ∉ str "//") by (apply (bool_decide_unpack (63 ∉ str "//")); exact I).
    rewrite elem_of_app. intros [H|H]; [done|]. by apply HA2 in H as (_ & _ & ? & _). }
  assert (Hsuf : hasSuffix (str "//" ++ A ++ qt) [63] = false).
  { unfold qt. case_bool_decide as e; [rewrite app_nil_r; by apply hasSuffix_no|].
    unfold hasSuffix. apply andb_false_iff. right. apply bool_decide_eq_false_2. intros He. apply Hq. cbn [length] in He.
    assert (Hlast : last (str "//" ++ A ++ 63 :: q) = Some 63).
    { rewrite <- (take_drop (length (str "//" ++ A ++ 63 :: q) - 1) (str "//" ++ A ++ 63 :: q)), He. by apply last_snoc. }
    rewrite app_assoc, last_app in Hlast. destruct q as [|x q]; [done|]. rewrite last_cons_cons in Hlast.
    assert (Hin : last (x :: q) = Some 63) by (by destruct (last (x :: q)) eqn:el; [rewrite <- Hlast|apply last_None in el]).
    apply last_Some in Hin as [l' ->]. apply elem_of_app. right. by left. }
  rewrite Hsuf. cbn [andb].
  assert (Hcut : (let '(rest, query, _) := cutByte 63 (str "//" ++ A ++ qt) in (rest, query)) = (str "//" ++ A, q)).
  { unfold qt. case_bool_decide as e; [rewrite app_nil_r, cutByte_no by done; by subst|].
    rewrite app_assoc, cutByte_app by (by apply not_elem_Forall). done. }
  rewrite Hcut. cbn [negb].
  assert (H47 : indexByte A 47 = None).
  { apply indexByte_none, Forall_forall. intros c Hc ->. by apply HA2 in Hc as (_ & _ & _ & ?). }
  change (hasPrefix (str "//" ++ A) [47]) with true. change (hasPrefix (str "//" ++ A) (str "//")) with true.
  cbn [negb]. change (drop 2 (str "//" ++ A)) with A. rewrite H47, Hp. done.
Qed.

Lemma Parse_text sch A q frag u h :
  schemeOk sch -> authorityOk A -> 63 ∉ q -> 35 ∉ q -> Forall (fun c => isCTL c = false) q -> bytes_ok frag ->
  parseAuthority A = Some (u, h) ->
  Parse (sch ++ 58 :: str "//" ++ A ++ afterAuthority q frag) = Some (mkURL sch [] u h q frag).
Proof.
  intros Hs HA Hq Hq35 Hqc Hf Hp. unfold Parse, afterAuthority. set (qt := if bool_decide (q = []) then [] else 63 :: q).
  assert (H35 : 35 ∉ sch ++ 58 :: str "//" ++ A ++ qt).
  { assert (H0 : 35 ∉ 58 :: str "//") by (apply (bool_decide_unpack (35 ∉ 58 :: str "//")); exact I).
    change (58 :: str "//" ++ A ++ qt) with ((58 :: str "//") ++ A ++ qt). rewrite !elem_of_app. intros [H|[H|[H|H]]]; [|done| |].
    - destruct Hs as [_ Hs]. eapply Forall_forall in Hs; [|exact H]. done.
    - eapply Forall_forall in HA; [|exact H]. by destruct HA as (_ & ? & _).
    - unfold qt in H. case_bool_decide; [by apply not_elem_of_nil in H|]. by apply elem_of_cons in H as [?|?]. }
  assert (Hcut : cutByte 35 (sch ++ 58 :: str "//" ++ A ++ qt ++ (if bool_decide (frag = []) then [] else 35 :: escape encodeFragment frag)) =
                 (sch ++ 58 :: str "//" ++ A ++ qt, escape encodeFragment frag, negb (bool_decide (frag = [])))).
  { case_bool_decide as e; [subst frag; rewrite app_nil_r; by apply cutByte_no|].
    replace (sch ++ 58 :: str "//" ++ A ++ qt ++ 35 :: escape encodeFragment frag)
      with ((sch ++ 58 :: str "//" ++ A ++ qt) ++ 35 :: escape encodeFragment frag) by (by rewrite <- !app_assoc; cbn; rewrite <- !app_assoc).
    by rewrite cutByte_app by (by apply not_elem_Forall). }
  rewrite Hcut. unfold qt. rewrite (parseURL_text sch A q u h) by done. cbn [mbind option_bind].
  by rewrite unescape_escape by done.
Qed.

(** *** Hosts *)
Definition hostByte (c : Z) : bool := negb (shouldEscape encodeHost c) && (c <? 128) && negb (c =? 37).

Lemma unescape_host h : Forall (fun c => hostByte c = true) h -> unescape encodeHost h = Some h.
Proof.
  intros Hh. induction Hh as [|c h Hc Hh IH]; [done|]. unfold hostByte in Hc.
  apply andb_prop in Hc as [[H1%negb_true_iff H2]%andb_prop H3%negb_true_iff]. apply Z.eqb_neq in H3.
  assert (Hgen : unescape encodeHost (c :: h) =
            if (c =? 43) && bool_decide (encodeHost = encodeQueryComponent) then cons 32 <$> unescape encodeHost h
            else if bool_decide (encodeHost = encodeHost) && (c <? 128) && shouldEscape encodeHost c then None
            else cons c <$> unescape encodeHost h).
  { cbn [unescape]. destruct c as [|p|p]; try done. repeat (destruct p as [p|p|]; try done). }
  rewrite Hgen, H1, !andb_false_r, IH. done.
Qed.

Lemma escape_host h : Forall (fun c => hostByte c = true) h -> escape encodeHost h = h.
Proof.
  intros Hh. induction Hh as [|c h Hc Hh IH]; [done|]. unfold escape in *. cbn [mbind list_bind]. unfold hostByte in Hc.
  apply andb_prop in Hc as [[H1%negb_true_iff _]%andb_prop _]. unfold escapeByte at 1. rewrite H1. cbn. by rewrite IH.
Qed.

(** A host name or an address, with its brackets, that a URL carries as it is. *)
Definition hostNameOk (h : list Z) : Prop :=
  Forall (fun c => isAlnum c || oneOf "-_.~" c = true) h \/
  exists t, h = 91 :: t ++ [93] /\ Forall (fun c => isAlnum c || oneOf "-_.~:" c = true) t /\ is_Some (parseIPv6 t).

Lemma digits_host n : 0 <= n -> Forall (fun c => isDigit c = true) (itoa n).
Proof. intros Hn. unfold itoa. destruct (Z.ltb_spec n 0); [lia|]. by apply dec_digits. Qed.

Lemma hostName_bytes h n : hostNameOk h -> 0 <= n -> Forall (fun c => hostByte c = true) (h ++ 58 :: itoa n).
Proof.
  intros Hh Hn. assert (Hal : forall c, isAlnum c || oneOf "-_.~:" c = true -> hostByte c = true).
  { intros c Hc. unfold hostByte, shouldEscape. destruct (isAlnum c) eqn:e.
    - unfold isAlnum, isDigit in e. rewrite !orb_true_iff, !andb_true_iff, !Z.leb_le in e. cbn.
      rewrite (proj2 (Z.ltb_lt c 128)), (proj2 (Z.eqb_neq c 37)) by lia. done.
    - cbn in Hc. unfold oneOf in Hc. apply bool_decide_eq_true in Hc. repeat (apply elem_of_cons in Hc as [->|Hc]; [done|]). by apply not_elem_of_nil in Hc. }
  assert (Hal2 : forall c, isAlnum c || oneOf "-_.~" c = true -> hostByte c = true).
  { intros c Hc. apply Hal. apply orb_true_iff in Hc as [->|Hc]; [done|]. apply orb_true_iff. right. unfold oneOf in *.
    apply bool_decide_eq_true in Hc. apply bool_decide_eq_true. change (str "-_.~:") with (str "-_.~" ++ [58]). apply elem_of_app. by left. }
  apply Forall_app. split; [|constructor; [done|]].
  - destruct Hh as [Hh|(t & -> & Ht & _)]; [by eapply Forall_impl|]. constructor; [done|]. apply Forall_app. split; [by eapply Forall_impl|by constructor].
  - eapply Forall_impl; [by apply digits_host|]. intros c Hc. apply Hal2. unfold isAlnum. cbn in Hc. rewrite Hc. by rewrite !orb_true_r.
Qed.

(** A byte that host names do not hold. *)
Lemma nameByte_no x h cs : Forall (fun c => isAlnum c || oneOf cs c = true) h -> isAlnum x || oneOf cs x = false -> x ∉ h.
Proof. intros Hh Hx Hin. eapply Forall_forall in Hin; [|exact Hh]. cbn in Hin. congruence. Qed.

Lemma validOptionalPort_text n : 0 <= n -> validOptionalPort (58 :: itoa n) = true.
Proof.
  intros Hn. cbn. apply forallb_forall. intros c Hc%list_elem_of_In. assert (Hd := digits_host n Hn). by eapply Forall_forall in Hd.
Qed.

Lemma parseHost_text h n : hostNameOk h -> 0 <= n -> parseHost (h ++ 58 :: itoa n) = Some (h ++ 58 :: itoa n).
Proof.
  intros Hh Hn. assert (Hb := hostName_bytes h n Hh Hn). assert (Hport := validOptionalPort_text n Hn). unfold parseHost.
  assert (Hno : forall c, isDigit c = false -> c <> 58 -> c ∉ 58 :: itoa n).
  { intros c H1 H2 [?|Hin]%elem_of_cons; [done|]. by eapply itoa_no_byte in Hin. }
  destruct Hh as [Hh|(t & -> & Ht & [a Ha])].
  - rewrite lastIndexByte_none; [|rewrite elem_of_app; intros [H|H]; [by eapply nameByte_no in H|by apply Hno in H]].
    rewrite indexByte_app by (apply not_elem_Forall; by eapply nameByte_no).
    rewrite drop_app_length, Hport. by apply unescape_host.
  - assert (Hlast : lastIndexByte ((91 :: t ++ [93]) ++ 58 :: itoa n) 91 = Some O).
    { apply (lastIndexByte_app []). rewrite !elem_of_app, list_elem_of_singleton. intros [[H|H]|H]; [by eapply nameByte_no in H|done|by apply Hno in H]. }
    rewrite Hlast. replace ((91 :: t ++ [93]) ++ 58 :: itoa n) with ((91 :: t) ++ 93 :: 58 :: itoa n) in * by (cbn; by rewrite <- app_assoc).
    rewrite lastIndexByte_app by (by apply Hno). cbn [mbind option_bind].
    replace (drop (S (length (91 :: t))) ((91 :: t) ++ 93 :: 58 :: itoa n)) with (58 :: itoa n).
    + rewrite Hport. cbn [negb]. apply Forall_app in Hb as [[_ Hb1]%Forall_cons [_ Hb2]%Forall_cons].
      rewrite (unescape_host _ Hb2). cbn [mbind option_bind].
      replace (take (length (91 :: t) - 1) (drop 1 ((91 :: t) ++ 93 :: 58 :: itoa n))) with t
        by (cbn [length app drop]; by rewrite Nat.sub_succ, Nat.sub_0_r, drop_0, take_app_length).
      rewrite (unescape_host _ Hb1). cbn [mbind option_bind]. by rewrite Ha.
    + change (93 :: 58 :: itoa n) with ([93] ++ 58 :: itoa n). rewrite app_assoc.
      replace (S (length (91 :: t))) with (length ((91 :: t) ++ [93])) by (rewrite length_app; cbn; lia). by rewrite drop_app_length.
Qed.

(** *** User information *)
Definition userByte (c : Z) : Prop := plainFor encodeUserPassword c = true.

Lemma userByte_cases c : userByte c -> isAlnum c = true \/ oneOf "-_.~$&+,;=%" c = true.
Proof.
  unfold userByte, plainFor, shouldEscape. intros H. destruct (isAlnum c); [by left|right]. cbn in H.
  destruct (oneOf "-_.~" c) eqn:e1.
  { unfold oneOf in *. apply bool_decide_eq_true in e1. apply bool_decide_eq_true.
    change (str "-_.~$&+,;=%") with (str "-_.~" ++ str "$&+,;=%"). apply elem_of_app. by left. }
  destruct (oneOf "$&+,/:;=?@" c) eqn:e2.
  - unfold oneOf in e2. apply bool_decide_eq_true in e2.
    repeat (apply elem_of_cons in e2 as [->|e2]; [done|]). by apply not_elem_of_nil in e2.
  - cbn in H. rewrite andb_false_r, orb_false_r in H. apply Z.eqb_eq in H as ->. done.
Qed.

Lemma userByte_valid c : userByte c -> isAlnum c || oneOf "-._:~!$&'()*+,;=%@" c = true.
Proof.
  intros [->|H]%userByte_cases; [done|]. apply orb_true_iff. right. unfold oneOf in *. apply bool_decide_eq_true in H.
  apply bool_decide_eq_true. repeat (apply elem_of_cons in H as [->|H]; [vm_compute; by repeat constructor|]). by apply not_elem_of_nil in H.
Qed.

Lemma userText_no x s : Forall userByte s -> isAlnum x || oneOf "-_.~$&+,;=%" x = false -> x ∉ s.
Proof.
  intros Hs Hx Hin. eapply Forall_forall in Hin; [|exact Hs]. apply userByte_cases in Hin.
  apply orb_false_iff in Hx as [H1 H2]. destruct Hin; congruence.
Qed.

Lemma validUserinfo_text s : Forall userByte s -> validUserinfo s = true.
Proof. intros Hs. apply forallb_forall. intros c Hc%list_elem_of_In. eapply Forall_forall in Hc; [|exact Hs]. by apply userByte_valid. Qed.

Lemma parseUserinfo_name s n : Forall userByte s -> unescape encodeUserPassword s = Some n -> parseUserinfo s = Some (mkUser n None).
Proof.
  intros Hs Hn. unfold parseUserinfo. rewrite validUserinfo_text, cutByte_no by (done || by eapply userText_no). cbn. by rewrite Hn.
Qed.

Lemma parseUserinfo_pair s p n pw :
  Forall userByte s -> Forall userByte p -> unescape encodeUserPassword s = Some n -> unescape encodeUserPassword p = Some pw ->
  parseUserinfo (s ++ 58 :: p) = Some (mkUser n (Some pw)).
Proof.
  intros Hs Hp Hn Hpw. unfold parseUserinfo.
  assert (Hv : validUserinfo (s ++ 58 :: p) = true).
  { unfold validUserinfo. rewrite forallb_app. apply andb_true_intro. split; [by apply validUserinfo_text|]. by apply (validUserinfo_text p). }
  rewrite Hv, cutByte_app by (apply not_elem_Forall; by eapply userText_no). cbn. by rewrite Hn, Hpw.
Qed.

Lemma parseAuthority_text ui u h n :
  parseUserinfo ui = Some u -> hostNameOk h -> 0 <= n -> parseAuthority (ui ++ 64 :: h ++ 58 :: itoa n) = Some (Some u, h ++ 58 :: itoa n).
Proof.
  intros Hu Hh Hn. unfold parseAuthority. rewrite lastIndexByte_app.
  - replace (drop (S (length ui)) (ui ++ 64 :: h ++ 58 :: itoa n)) with (h ++ 58 :: itoa n).
    + rewrite parseHost_text by done. cbn. by rewrite take_app_length, Hu.
    + change (64 :: h ++ 58 :: itoa n) with ([64] ++ h ++ 58 :: itoa n). rewrite app_assoc.
      replace (S (length ui)) with (length (ui ++ [64])) by (rewrite length_app; cbn; lia). by rewrite drop_app_length.
  - intros H. pose proof (hostName_bytes h n Hh Hn) as Hb. eapply Forall_forall in Hb; [|exact H]. done.
Qed.

Lemma parseAuthority_host h n : hostNameOk h -> 0 <= n -> parseAuthority (h ++ 58 :: itoa n) = Some (None, h ++ 58 :: itoa n).
Proof.
  intros Hh Hn. unfold parseAuthority. rewrite lastIndexByte_none.
  - by rewrite parseHost_text.
  - intros H. pose proof (hostName_bytes h n Hh Hn) as Hb. eapply Forall_forall in Hb; [|exact H]. done.
Qed.

(** The host without brackets, and the port. *)
Definition bareHost (h : list Z) : list Z :=
  if hasPrefix h [91] && hasSuffix h [93] then firstn (length h - 2) (skipn 1 h) else h.

Lemma splitHostPort_text h n : 0 <= n -> splitHostPort (h ++ 58 :: itoa n) = (bareHost h, itoa n).
Proof.
  intros Hn. unfold splitHostPort. rewrite lastIndexByte_app by (by apply itoa_no_byte).
  rewrite drop_app_length, validOptionalPort_text, take_app_length by done.
  replace (drop (S (length h)) (h ++ 58 :: itoa n)) with (itoa n); [done|].
  change (58 :: itoa n) with ([58] ++ itoa n). rewrite app_assoc.
  replace (S (length h)) with (length (h ++ [58])) by (rewrite length_app; cbn; lia). by rewrite drop_app_length.
Qed.

Lemma bareHost_bracket t : bareHost (91 :: t ++ [93]) = t.
Proof.
  assert (Hl : length (91 :: t ++ [93]) = (length t + 2)%nat) by (cbn; rewrite length_app; cbn; lia).
  assert (Hs : hasSuffix (91 :: t ++ [93]) [93] = true).
  { unfold hasSuffix. rewrite Hl. apply andb_true_intro. split; [apply Nat.leb_le; cbn; lia|]. apply bool_decide_eq_true_2.
    change (length [93]) with 1%nat. replace (length t + 2 - 1)%nat with (length (91 :: t)) by (cbn; lia). exact (drop_app_length (91 :: t) [93]). }
  assert (Hp : hasPrefix (91 :: t ++ [93]) [91] = true) by (unfold hasPrefix; by apply bool_decide_eq_true_2).
  unfold bareHost. rewrite Hs, Hp, Hl. cbn [andb drop].
  replace (length t + 2 - 2)%nat with (length t) by lia. apply take_app_length.
Qed.

Lemma bareHost_name h cs : Forall (fun c => isAlnum c || oneOf cs c = true) h -> oneOf cs 91 = false -> bareHost h = h.
Proof.
  intros Hh Hcs. unfold bareHost. assert (Hp : hasPrefix h [91] = false); [|by rewrite Hp].
  unfold hasPrefix. apply bool_decide_eq_false_2. destruct h as [|c h]; [done|]. cbn. intros [= ->].
  apply Forall_inv in Hh. cbn in Hh. congruence.
Qed.

(** *** [Parse] inverts [URL.String] on these texts *)
Lemma authorityOk_app A B : authorityOk A -> authorityOk B -> authorityOk (A ++ B).
Proof. intros HA HB. by apply Forall_app. Qed.

Lemma alnum_range c : isAlnum c = true -> 48 <= c <= 57 \/ 65 <= c <= 90 \/ 97 <= c <= 122.
Proof. unfold isAlnum, isDigit. rewrite !orb_true_iff, !andb_true_iff, !Z.leb_le. lia. Qed.

Lemma userByte_authority c : userByte c -> isCTL c = false /\ c <> 35 /\ c <> 63 /\ c <> 47.
Proof.
  intros [H%alnum_range|H]%userByte_cases.
  - split; [|lia]. unfold isCTL. apply orb_false_iff. split; [apply Z.ltb_ge|apply Z.eqb_neq]; lia.
  - unfold oneOf in H. apply bool_decide_eq_true in H. repeat (apply elem_of_cons in H as [->|H]; [done|]). by apply not_elem_of_nil in H.
Qed.

#[local] Ltac plain_bytes := cbn; repeat (apply Forall_cons; split; [split_and!; [done|lia..]|]); constructor.

Lemma authorityOk_host h n : hostNameOk h -> 0 <= n -> authorityOk (h ++ 58 :: itoa n).
Proof.
  intros Hh Hn. assert (Hal : forall c cs, isAlnum c || oneOf cs c = true -> Forall (fun c => isCTL c = false /\ c <> 35 /\ c <> 63 /\ c <> 47) (str cs) ->
    isCTL c = false /\ c <> 35 /\ c <> 63 /\ c <> 47).
  { intros c cs [H%alnum_range|H]%orb_true_iff Hcs.
    - split; [|lia]. unfold isCTL. apply orb_false_iff. split; [apply Z.ltb_ge|apply Z.eqb_neq]; lia.
    - unfold oneOf in H. apply bool_decide_eq_true in H. rewrite Forall_forall in Hcs. by apply Hcs. }
  apply Forall_app. split; [|constructor; [done|]].
  - destruct Hh as [Hh|(t & -> & Ht & _)].
    + eapply Forall_impl; [exact Hh|]. intros c Hc. apply (Hal c "-_.~" Hc). by plain_bytes.
    + constructor; [done|]. apply Forall_app. split; [|by plain_bytes].
      eapply Forall_impl; [exact Ht|]. intros c Hc. apply (Hal c "-_.~:" Hc). by plain_bytes.
  - eapply Forall_impl; [by apply digits_host|]. intros c Hc. apply (Hal c "" ltac:(unfold isAlnum; by rewrite Hc, !orb_true_r)). constructor.
Qed.
