(* ===== verification/Share.v ===== *)
(** * Share links of [src/libxray/share]: outbounds to links and back

    A string is its bytes.  The settings of an outbound and the headers of a
    transport, which the code keeps as raw JSON, are kept decoded, with the fields
    that links carry (for text that is valid UTF-8 the encoding in between loses
    nothing); JSON that links carry as text is read and written through
    [ShareJson]. *)

From stdpp Require Import base numbers list gmap strings.
From Stdlib Require Import ZArith Lia.
From S2P Require Import Prelude GoStrings NetIP GoNet Obf GoUrl.

(** ** Data *)
Abbreviation bytes := (list Z).
Definition nonEmpty (s : bytes) : bool := negb (bool_decide (s = [])).

(** [net.Address] of Xray. *)
Inductive netAddress := ipv4Address (ip : bytes) | ipv6Address (ip : bytes) | domainAddress (domain : bytes).

(** The client settings of all protocols; each reads and writes its own fields. *)
Record clientSettings := mkSettings {
  csVersion : Z; csAddress : option netAddress; csPort : Z; csMethod : bytes; csPassword : bytes; csId : bytes;
  csSecurity : bytes; csFlow : bytes; csEncryption : bytes; csUser : bytes; csPass : bytes
}.
#[global] Instance rebuild_settings : Rebuild clientSettings := fun c =>
  mkSettings (csVersion c) (csAddress c) (csPort c) (csMethod c) (csPassword c) (csId c) (csSecurity c) (csFlow c) (csEncryption c) (csUser c) (csPass c).
Definition emptySettings : clientSettings := mkSettings 0 None 0 [] [] [] [] [] [] [] [].

Record tlsConfig := mkTLS {
  tlsServerName : bytes; tlsALPN : option (list bytes); tlsFingerprint : bytes; tlsECHConfigList : bytes;
  tlsPinnedPeerCertSha256 : bytes; tlsVerifyPeerCertByName : bytes; tlsAllowInsecure : bool
}.
#[global] Instance rebuild_tls : Rebuild tlsConfig := fun t =>
  mkTLS (tlsServerName t) (tlsALPN t) (tlsFingerprint t) (tlsECHConfigList t) (tlsPinnedPeerCertSha256 t) (tlsVerifyPeerCertByName t) (tlsAllowInsecure t).

Record realityConfig := mkReality {
  rlFingerprint : bytes; rlServerName : bytes; rlPassword : bytes; rlPublicKey : bytes; rlShortId : bytes;
  rlMldsa65Verify : bytes; rlSpiderX : bytes
}.

(** [XrayRawSettingsHeader]. *)
Record rawRequest := mkRequest { rqPath : list bytes; rqHost : option (list bytes) }.
Record rawHeader := mkRawHeader { rhType : bytes; rhRequest : option rawRequest }.

(** A raw JSON header: absent, or read as its type ([None] when it cannot be). *)
Definition tcpConfig := option (option rawHeader).
Record kcpConfig := mkKCP { kcpHeader : option (option bytes); kcpSeed : option bytes }.
Record hostPath := mkHostPath { hpHost : bytes; hpPath : bytes }.
Record grpcConfig := mkGRPC { gcAuthority : bytes; gcServiceName : bytes; gcMultiMode : bool }.
Record splitHTTPConfig := mkSplitHTTP { shHost : bytes; shPath : bytes; shMode : bytes; shExtra : option bytes }.
Record hysteriaConfig := mkHysteria { hyVersion : Z; hyAuth : bytes }.

Record int32Range := mkRange { rgLeft : Z; rgRight : Z; rgFrom : Z; rgTo : Z }.
Definition portList := list (Z * Z).
Record udpHop := mkHop { hopPorts : portList; hopInterval : int32Range }.
Record quicParams := mkQuic { qpCongestion : bytes; qpBrutalUp : bytes; qpBrutalDown : bytes; qpUdpHop : udpHop }.
Record mask := mkMask { mkType : bytes; mkSettingsJson : option bytes }.
Record finalMask := mkFinalMask { fmTcp : list mask; fmUdp : list mask; fmQuicParams : option quicParams }.

Record streamConfig := mkStream {
  scNetwork : option bytes; scSecurity : bytes; scFinalMask : option finalMask; scTLS : option tlsConfig;
  scREALITY : option realityConfig; scRAW : option tcpConfig; scXHTTP : option splitHTTPConfig; scKCP : option kcpConfig;
  scGRPC : option grpcConfig; scWS : option hostPath; scHTTPUPGRADE : option hostPath; scHysteria : option hysteriaConfig
}.
#[global] Instance rebuild_stream : Rebuild streamConfig := fun s =>
  mkStream (scNetwork s) (scSecurity s) (scFinalMask s) (scTLS s) (scREALITY s) (scRAW s) (scXHTTP s) (scKCP s) (scGRPC s) (scWS s) (scHTTPUPGRADE s) (scHysteria s).
Definition emptyStream : streamConfig := mkStream None [] None None None None None None None None None None.

(** [settings]: [None] when missing, null or not of the protocol's type. *)
Record outbound := mkOutbound {
  obProtocol : bytes; obSendThrough : option bytes; obTag : bytes; obSettings : option clientSettings; obStream : option streamConfig
}.

(** [vmessQrCode]; the port as [fmt] prints it. *)
Record vmessQrCode := mkQr {
  qrPs : bytes; qrAdd : bytes; qrPort : bytes; qrId : bytes; qrScy : bytes; qrNet : bytes; qrType : bytes; qrHost : bytes;
  qrPath : bytes; qrTls : bytes; qrSni : bytes; qrAlpn : bytes; qrFp : bytes
}.

(** JSON that is read or written as text, and what the share code calls outside
    this package: the environment of port lists, the Clash reader, and the builder
    of Xray, which says whether an outbound is valid.  [extraText] reads the extra
    settings of XHTTP and writes them again. *)
Class ShareJson := {
  extraText : bytes -> option bytes;
  marshalFinalMask : finalMask -> bytes;
  unmarshalFinalMask : bytes -> option (option finalMask);
  marshalSalamander : bytes -> bytes;
  unmarshalSalamander : bytes -> option bytes;
  unmarshalQrCode : bytes -> option vmessQrCode;
  unmarshalOutbounds : bytes -> option (list outbound);
  readClash : bytes -> option (list outbound);
  envFlag : bytes -> bytes;
  builds : outbound -> bool
}.

(** ** Addresses *)
Definition isAlphaNum (c : Z) : bool := isAlnum c.

Definition IPAddress (ip : bytes) : netAddress :=
  if (length ip =? 4)%nat then ipv4Address ip
  else if bool_decide (take 12 ip = v4InV6Prefix) then ipv4Address (skipn 12 ip) else ipv6Address ip.

Definition ParseAddress (addr : bytes) : netAddress :=
  let addr := if bool_decide (head addr = Some 91 /\ last addr = Some 93) then firstn (length addr - 2) (skipn 1 addr) else addr in
  let addr := if nonEmpty addr && (negb (isAlphaNum (default 0 (head addr))) || negb (isAlphaNum (default 0 (last addr))))
              then trimSpace addr else addr in
  match ParseIP addr with Some ip => IPAddress ip | None => domainAddress addr end.

Definition addressString (a : netAddress) : bytes :=
  match a with
  | ipv4Address ip => ipString ip
  | ipv6Address ip => 91 :: ipString ip ++ [93]
  | domainAddress d => d
  end.

(** [%s] of a pointer that may be nil. *)
Definition addressText (a : option netAddress) : bytes := match a with Some a => addressString a | None => str "<nil>" end.

(** [getOutboundName], [setOutboundName]. *)
Definition getOutboundName (ob : outbound) : bytes :=
  match obSendThrough ob with
  | Some name => if nonEmpty name then name else if nonEmpty (obTag ob) then obTag ob else obProtocol ob
  | None => if nonEmpty (obTag ob) then obTag ob else obProtocol ob
  end.
Definition parseAddress (addr : bytes) : option netAddress := Some (ParseAddress addr).

(** ** [encoding/base64.StdEncoding], and [decodeBase64Text] *)
Fixpoint b64Encode (bs : bytes) : bytes :=
  match bs with
  | a :: b :: c :: rest =>
      base64Char (a / 4) :: base64Char (a mod 4 * 16 + b / 16) :: base64Char (b mod 16 * 4 + c / 64) :: base64Char (c mod 64) :: b64Encode rest
  | [a; b] => [base64Char (a / 4); base64Char (a mod 4 * 16 + b / 16); base64Char (b mod 16 * 4); 61]
  | [a] => [base64Char (a / 4); base64Char (a mod 4 * 16); 61; 61]
  | [] => []
  end.

Definition urlToStd (c : Z) : Z := if c =? 45 then 43 else if c =? 95 then 47 else c.
Definition b64DecodeURL (s : bytes) : option bytes :=
  if containsByte s 43 || containsByte s 47 then None else b64Decode (map urlToStd s).

Definition decodeBase64Text (text : bytes) : option bytes :=
  let text := trimSpace text in
  if bool_decide (text = []) then None
  else
    match b64Decode text with
    | Some b => Some b
    | None =>
        match b64DecodeURL text with
        | Some b => Some b
        | None =>
            let s := map urlToStd text in
            let pad := (length s mod 4)%nat in
            b64Decode (if (pad =? 0)%nat then s else s ++ replicate (4 - pad) 61)
        end
    end.

(** ** From an outbound to its link *)
Definition addQuery (rawQuery : bytes) (key : string) (value : bytes) : bytes :=
  match ParseQuery rawQuery with
  | (q, true) => Encode (valuesAdd (str key) value q)
  | (_, false) =>
      let newPart := str key ++ 61 :: QueryEscape value in
      if bool_decide (rawQuery = []) then newPart else rawQuery ++ 38 :: newPart
  end.

(** [if len(value) > 0 { query = addQuery(query, key, value) }]. *)
Definition addText (key : string) (value query : bytes) : bytes := if nonEmpty value then addQuery query key value else query.
Definition addList (key : string) (values : list bytes) (query : bytes) : bytes :=
  if bool_decide (values = []) then query else addQuery query key (joinByte 44 values).

Definition isShadowsocksAEAD2022 (cipher : bytes) : bool :=
  bool_decide (toLower cipher ∈ [str "2022-blake3-aes-128-gcm"; str "2022-blake3-aes-256-gcm"; str "2022-blake3-chacha20-poly1305"]).
Definition escapeShadowsocksUserInfo (value : bytes) : bytes :=
  QueryEscape value ≫= fun c => if c =? 43 then str "%20" else [c].

(** The part the six functions share: name, scheme and host. *)
Definition linkTo (scheme : string) (ob : outbound) (cs : clientSettings) : URL :=
  mkURL (str scheme) [] None (addressText (csAddress cs) ++ 58 :: itoa (csPort cs)) [] (getOutboundName ob).
Definition urlUser (username : bytes) : option Userinfo := Some (mkUser username None).

Definition shadowsocksLink (ob : outbound) : option URL :=
  cs ← obSettings ob;
  let link := linkTo "ss" ob cs in
  Some (if isShadowsocksAEAD2022 (csMethod cs) then
          let userInfo := escapeShadowsocksUserInfo (csMethod cs) ++ 58 :: escapeShadowsocksUserInfo (csPassword cs) in
          link <| uOpaque := str "//" ++ userInfo ++ 64 :: uHost link |> <| uHost := [] |>
        else link <| uUser := urlUser (b64Encode (csMethod cs ++ 58 :: csPassword cs)) |>).

Definition vmessLink (ob : outbound) : option URL :=
  cs ← obSettings ob;
  Some (linkTo "vmess" ob cs <| uUser := urlUser (csId cs) |> <| uRawQuery ::= addText "encryption" (csSecurity cs) |>).

Definition vlessLink (ob : outbound) : option URL :=
  cs ← obSettings ob;
  Some (linkTo "vless" ob cs <| uUser := urlUser (csId cs) |> <| uRawQuery ::= addText "flow" (csFlow cs) |>
        <| uRawQuery ::= addText "encryption" (csEncryption cs) |>).

Definition socksLink (ob : outbound) : option URL :=
  cs ← obSettings ob;
  Some (linkTo "socks" ob cs <| uUser := urlUser (b64Encode (csUser cs ++ 58 :: csPass cs)) |>).

Definition trojanLink (ob : outbound) : option URL :=
  cs ← obSettings ob; Some (linkTo "trojan" ob cs <| uUser := urlUser (csPassword cs) |>).

Definition hysteriaLink (ob : outbound) : option URL :=
  cs ← obSettings ob;
  let link := linkTo "hysteria2" ob cs in
  Some (match obStream ob ≫= scHysteria with Some hy => link <| uUser := urlUser (hyAuth hy) |> | None => link end).

(** The TLS parameters both branches of [streamSettingsQuery] add. *)
Definition tlsRestQuery (t : tlsConfig) (query : bytes) : bytes :=
  let query := match tlsALPN t with Some alpn => addList "alpn" alpn query | None => query end in
  let query := addText "ech" (tlsECHConfigList t) query in
  let query := addText "pcs" (tlsPinnedPeerCertSha256 t) query in
  let query := addText "vcn" (tlsVerifyPeerCertByName t) query in
  if tlsAllowInsecure t then addQuery query "insecure" (str "1") else query.

(** [PortRange.String], [PortList.String]. *)
Definition portRangeString (p : Z * Z) : bytes := if p.1 =? p.2 then itoa p.1 else itoa p.1 ++ 45 :: itoa p.2.
Definition portListString (l : portList) : bytes := joinByte 44 (map portRangeString l).

Section share.
Context `{ShareJson}.

Definition quicQuery (qp : quicParams) (query : bytes) : bytes :=
  let query := addText "up" (qpBrutalUp qp) query in
  let query := addText "down" (qpBrutalDown qp) query in
  let query := if bool_decide (hopPorts (qpUdpHop qp) = []) then query
               else addQuery query "ports" (portListString (hopPorts (qpUdpHop qp))) in
  let iv := hopInterval (qpUdpHop qp) in
  if negb (rgFrom iv =? 0) || negb (rgTo iv =? 0) then addQuery query "hop-interval" (itoa (rgFrom iv)) else query.

Definition salamanderQuery (udp : list mask) (query : bytes) : bytes :=
  match udp with
  | m :: _ =>
      match mkSettingsJson m ≫= unmarshalSalamander with
      | Some password => addQuery (addQuery query "obfs" (str "salamander")) "obfs-password" password
      | None => query
      end
  | [] => query
  end.

Definition hysteriaQuery (ss : streamConfig) (query : bytes) : bytes :=
  let query := match scTLS ss with
               | Some t => tlsRestQuery t (addText "fp" (tlsFingerprint t) (addText "sni" (tlsServerName t) query))
               | None => query
               end in
  let query := match scFinalMask ss ≫= fmQuicParams with Some qp => quicQuery qp query | None => query end in
  match scFinalMask ss with Some fm => salamanderQuery (fmUdp fm) query | None => query end.

Definition rawQuery (c : tcpConfig) (query : bytes) : bytes :=
  match c with
  | Some (Some header) =>
      if nonEmpty (rhType header) then
        let query := addQuery query "headerType" (rhType header) in
        match rhRequest header with
        | Some request =>
            let query := addList "path" (rqPath request) query in
            match rqHost request with Some host => addList "host" host query | None => query end
        | None => query
        end
      else query
  | _ => query
  end.

Definition kcpQuery (c : kcpConfig) (query : bytes) : bytes :=
  let query := match kcpSeed c with Some seed => addText "seed" seed query | None => query end in
  match kcpHeader c with Some (Some headerType) => addText "headerType" headerType query | _ => query end.

Definition grpcQuery (c : grpcConfig) (query : bytes) : bytes :=
  let query := addQuery query "mode" (str (if gcMultiMode c then "multi" else "gun")) in
  addText "authority" (gcAuthority c) (addText "serviceName" (gcServiceName c) query).

Definition xhttpQuery (c : splitHTTPConfig) (query : bytes) : bytes :=
  let query := addText "mode" (shMode c) (addText "path" (shPath c) (addText "host" (shHost c) query)) in
  match shExtra c ≫= extraText with Some extra => addQuery query "extra" extra | None => query end.

Definition onSome {A} (o : option A) (f : A -> bytes -> bytes) (query : bytes) : bytes :=
  match o with Some a => f a query | None => query end.

(** [switch network]. *)
Definition networkQuery (network : bytes) (ss : streamConfig) : bytes -> bytes :=
  if bool_decide (network = str "raw") then onSome (scRAW ss) rawQuery
  else if bool_decide (network = str "kcp") then onSome (scKCP ss) kcpQuery
  else if bool_decide (network = str "ws") then onSome (scWS ss) (fun c q => addText "host" (hpHost c) (addText "path" (hpPath c) q))
  else if bool_decide (network = str "grpc") then onSome (scGRPC ss) grpcQuery
  else if bool_decide (network = str "httpupgrade") then
    onSome (scHTTPUPGRADE ss) (fun c q => addText "path" (hpPath c) (addText "host" (hpHost c) q))
  else if bool_decide (network = str "xhttp") then onSome (scXHTTP ss) xhttpQuery
  else id.

(** [switch streamSettings.Security]. *)
Definition securityQuery (security : bytes) (ss : streamConfig) : bytes -> bytes :=
  if bool_decide (security = str "tls") then
    onSome (scTLS ss) (fun t q => tlsRestQuery t (addText "sni" (tlsServerName t) (addText "fp" (tlsFingerprint t) q)))
  else if bool_decide (security = str "reality") then
    onSome (scREALITY ss) (fun r q =>
      addText "spx" (rlSpiderX r) (addText "pqv" (rlMldsa65Verify r) (addText "sid" (rlShortId r) (addText "pbk" (rlPassword r)
        (addText "sni" (rlServerName r) (addText "fp" (rlFingerprint r) q))))))
  else id.

Definition streamSettingsQuery (ob : outbound) (link : URL) : URL :=
  match obStream ob with
  | None => link
  | Some ss =>
      let query := uRawQuery link in
      let network := default (str "raw") (scNetwork ss) in
      if bool_decide (network = str "hysteria") then link <| uRawQuery := hysteriaQuery ss query |>
      else
        let query := addQuery query "type" network in
        let security := if bool_decide (scSecurity ss = []) then str "none" else scSecurity ss in
        let query := addQuery query "security" security in
        let query := securityQuery security ss (networkQuery network ss query) in
        link <| uRawQuery := onSome (scFinalMask ss) (fun fm q => addQuery q "fm" (marshalFinalMask fm)) query |>
  end.

Definition shareLink (ob : outbound) : option URL :=
  link ←
    (if bool_decide (obProtocol ob = str "shadowsocks") then shadowsocksLink ob
     else if bool_decide (obProtocol ob = str "vmess") then vmessLink ob
     else if bool_decide (obProtocol ob = str "vless") then vlessLink ob
     else if bool_decide (obProtocol ob = str "socks") then socksLink ob
     else if bool_decide (obProtocol ob = str "trojan") then trojanLink ob
     else if bool_decide (obProtocol ob = str "hysteria") then hysteriaLink ob
     else None);
  Some (streamSettingsQuery ob link).

(** [ConvertXrayJsonToShareLinks], after the JSON is read. *)
Definition ConvertXrayJsonToShareLinks (outbounds : list outbound) : option bytes :=
  let links := List.filter nonEmpty (omap (fun ob => urlString <$> shareLink ob) outbounds) in
  if bool_decide (links = []) then None else Some (joinByte 10 links).

(** ** From a link to its outbound *)

(** The network names of [TransportProtocol.Build]. *)
Definition networkBuild (p : bytes) : option bytes :=
  let p := toLower p in
  if bool_decide (p ∈ [str "raw"; str "tcp"]) then Some (str "tcp")
  else if bool_decide (p ∈ [str "xhttp"; str "splithttp"]) then Some (str "splithttp")
  else if bool_decide (p ∈ [str "kcp"; str "mkcp"]) then Some (str "mkcp")
  else if bool_decide (p = str "grpc") then Some p
  else if bool_decide (p ∈ [str "ws"; str "websocket"]) then Some (str "websocket")
  else if bool_decide (p ∈ [str "httpupgrade"; str "hysteria"]) then Some p
  else None.

Record shareTransportFields := mkFields {
  tfNetwork : bytes; tfHeaderType : bytes; tfPath : bytes; tfHost : bytes; tfSeed : bytes; tfGrpcAuthority : bytes;
  tfGrpcServiceName : bytes; tfGrpcMultiMode : bool; tfXHTTPMode : bytes; tfExtraJSON : bytes; tfFMJSON : bytes
}.
Definition orRaw (network : bytes) : bytes := if bool_decide (network = []) then str "raw" else network.

Definition transportFieldsFromURLQuery (q : Values) : shareTransportFields :=
  let get k := valuesGet q (str k) in
  mkFields (orRaw (get "type"%string)) (get "headerType"%string) (get "path"%string) (get "host"%string) (get "seed"%string)
    (get "authority"%string) (get "serviceName"%string) (bool_decide (get "mode"%string = str "multi")) (get "mode"%string)
    (get "extra"%string) (get "fm"%string).

Definition transportFieldsFromVmessQR (p : vmessQrCode) : shareTransportFields :=
  let network := orRaw (qrNet p) in
  let isGrpc := bool_decide (network ∈ [str "grpc"; str "gun"]) in
  mkFields network (qrType p) (qrPath p) (qrHost p)
    (if bool_decide (network ∈ [str "kcp"; str "mkcp"]) then qrPath p else [])
    [] (if isGrpc then qrPath p else []) (isGrpc && bool_decide (qrType p = str "multi"))
    (if bool_decide (network ∈ [str "xhttp"; str "splithttp"]) then qrType p else []) [] [].

Definition splitNonEmpty (s : bytes) : list bytes := if nonEmpty s then splitByte 44 s else [].

Definition buildRaw (t : shareTransportFields) : option tcpConfig :=
  if bool_decide (tfHeaderType t = str "http") then
    Some (Some (Some (mkRawHeader (tfHeaderType t)
      (Some (mkRequest (splitNonEmpty (tfPath t)) (if nonEmpty (tfHost t) then Some (splitByte 44 (tfHost t)) else None))))))
  else None.
Definition buildKcp (t : shareTransportFields) : kcpConfig :=
  mkKCP (if nonEmpty (tfHeaderType t) then Some (Some (tfHeaderType t)) else None) (Some (tfSeed t)).
Definition buildXhttp (t : shareTransportFields) : outcome splitHTTPConfig :=
  extra ← (if nonEmpty (tfExtraJSON t) then Some <$> orFail (extraText (tfExtraJSON t)) else Done None);
  Done (mkSplitHTTP (tfHost t) (tfPath t) (tfXHTTPMode t) extra).

(** [switch network]. *)
Definition buildTransport (network : bytes) (t : shareTransportFields) : outcome streamConfig :=
  let ss := emptyStream <| scNetwork := Some network |> in
  if bool_decide (network ∈ [str "raw"; str "tcp"]) then Done (ss <| scRAW := buildRaw t |>)
  else if bool_decide (network ∈ [str "kcp"; str "mkcp"]) then Done (ss <| scKCP := Some (buildKcp t) |>)
  else if bool_decide (network ∈ [str "ws"; str "websocket"]) then Done (ss <| scWS := Some (mkHostPath (tfHost t) (tfPath t)) |>)
  else if bool_decide (network ∈ [str "grpc"; str "gun"]) then
    Done (ss <| scGRPC := Some (mkGRPC (tfGrpcAuthority t) (tfGrpcServiceName t) (tfGrpcMultiMode t)) |>)
  else if bool_decide (network = str "httpupgrade") then Done (ss <| scHTTPUPGRADE := Some (mkHostPath (tfHost t) (tfPath t)) |>)
  else if bool_decide (network ∈ [str "xhttp"; str "splithttp"]) then x ← buildXhttp t; Done (ss <| scXHTTP := Some x |>)
  else Done ss.

Definition buildStreamFromTransportFields (t : shareTransportFields) : outcome streamConfig :=
  ss ← buildTransport (orRaw (tfNetwork t)) t;
  if nonEmpty (tfFMJSON t) then fm ← orFail (unmarshalFinalMask (tfFMJSON t)); Done (ss <| scFinalMask := fm |>) else Done ss.

(** The end of [parseSecurityFromURL] and of [vmessQrCode.parseSecurity]: a
    WebSocket without server name takes its host. *)
Definition websocketName (ss : streamConfig) (network : bytes) (t : tlsConfig) : tlsConfig :=
  match scWS ss with
  | Some ws => if bool_decide (network = str "websocket") && bool_decide (tlsServerName t = []) && nonEmpty (hpHost ws)
               then t <| tlsServerName := hpHost ws |> else t
  | None => t
  end.
Definition splitALPN (alpn : bytes) : option (list bytes) := if nonEmpty alpn then Some (splitByte 44 alpn) else None.

Definition parseSecurityFromURL (link : URL) (ss : streamConfig) : outcome streamConfig :=
  let get k := valuesGet (Query link) (str k) in
  let tls := mkTLS (get "sni"%string) (splitALPN (get "alpn"%string)) (get "fp"%string) (get "ech"%string) (get "pcs"%string)
               (get "vcn"%string) (bool_decide (get "insecure"%string = str "1")) in
  let reality := mkReality (get "fp"%string) (get "sni"%string) (get "pbk"%string) (get "pbk"%string) (get "sid"%string)
                   (get "pqv"%string) (get "spx"%string) in
  let security := if nonEmpty (get "security"%string) then get "security"%string else str "none" in
  let security := if bool_decide (uScheme link ∈ [str "trojan"; str "hysteria2"; str "hy2"]) && bool_decide (security = str "none")
                  then str "tls" else security in
  network ← orFail (scNetwork ss ≫= networkBuild);
  let tls := websocketName ss network tls in
  let ss := ss <| scSecurity := security |> in
  Done (if bool_decide (security = str "tls") then ss <| scTLS := Some tls |>
        else if bool_decide (security = str "reality") then ss <| scREALITY := Some reality |> else ss).

Definition streamSettings (link : URL) : outcome (option streamConfig) :=
  let query := Query link in
  if bool_decide (query = ∅) then Done None
  else
    ss ← buildStreamFromTransportFields (transportFieldsFromURLQuery query);
    Some <$> parseSecurityFromURL link ss.

(** [strconv.Atoi] of the port and its conversion to [uint16]. *)
Definition atoiPort (s : bytes) : outcome Z := match atoi s with Ok n => Done (n mod 2 ^ 16) | Err _ => Failed end.

(** [User.String()], which follows the pointer. *)
Definition linkUserString (link : URL) : outcome bytes :=
  match uUser link with Some u => Done (userString u) | None => Panicked end.

Definition named (protocol : string) (name : bytes) (cs : clientSettings) (ss : option streamConfig) : outbound :=
  mkOutbound (str protocol) (Some name) [] (Some cs) ss.
Definition hostSettings (link : URL) (port : Z) : clientSettings :=
  emptySettings <| csAddress := parseAddress (Hostname link) |> <| csPort := port |>.

Definition parseShadowsocksUserInfo (user : option Userinfo) : outcome (bytes * bytes) :=
  match user with
  | None => Failed
  | Some u =>
      match uiPassword u with
      | Some password => if bool_decide (uiUsername u = []) then Failed else Done (uiUsername u, password)
      | None =>
          decoded ← orFail (decodeBase64Text (userString u));
          let '(cipher, password, ok) := cutByte 58 decoded in
          if negb ok || bool_decide (cipher = []) then Failed else Done (cipher, password)
      end
  end.

Definition shadowsocksOutbound (link : URL) : outcome outbound :=
  port ← atoiPort (Port link);
  '(cipher, password) ← parseShadowsocksUserInfo (uUser link);
  ss ← streamSettings link;
  Done (named "shadowsocks" (uFragment link) (hostSettings link port <| csMethod := cipher |> <| csPassword := password |>) ss).

Definition qrParseSecurity (p : vmessQrCode) (ss : streamConfig) : outcome streamConfig :=
  let tls := mkTLS (qrSni p) (splitALPN (qrAlpn p)) (qrFp p) [] [] [] false in
  let security := if bool_decide (qrTls p = []) then str "none" else qrTls p in
  network ← orFail (scNetwork ss ≫= networkBuild);
  let ss := ss <| scSecurity := security |> in
  Done (if bool_decide (security = str "tls") then ss <| scTLS := Some (websocketName ss network tls) |> else ss).

Definition qrOutbound (p : vmessQrCode) : outcome outbound :=
  port ← atoiPort (qrPort p);
  ss ← buildStreamFromTransportFields (transportFieldsFromVmessQR p);
  ss ← qrParseSecurity p ss;
  Done (named "vmess" (qrPs p)
          (emptySettings <| csAddress := parseAddress (qrAdd p) |> <| csPort := port |> <| csId := qrId p |> <| csSecurity := qrScy p |>) (Some ss)).

Definition parseVMessQrCode (text : bytes) : outcome outbound := qr ← orFail (unmarshalQrCode text); qrOutbound qr.

(** [strings.ReplaceAll(s, p, "")]; [skip] bytes of a match are still to drop. *)
Fixpoint removeAll (p s : bytes) (skip : nat) : bytes :=
  match s, skip with
  | [], _ => []
  | _ :: s', S skip => removeAll p s' skip
  | c :: s', O => if hasPrefix s p then removeAll p s' (length p - 1) else c :: removeAll p s' O
  end.

Definition vmessOutbound (link : URL) (rawText : bytes) : outcome outbound :=
  match decodeBase64Text (removeAll (str "vmess://") rawText 0) with
  | Some base64Text => parseVMessQrCode base64Text
  | None =>
      port ← atoiPort (Port link);
      user ← linkUserString link;
      id ← orFail (QueryUnescape user);
      ss ← streamSettings link;
      Done (named "vmess" (uFragment link)
              (hostSettings link port <| csId := id |> <| csSecurity := valuesGet (Query link) (str "encryption") |>) ss)
  end.

Definition vlessOutbound (link : URL) : outcome outbound :=
  port ← atoiPort (Port link);
  user ← linkUserString link;
  id ← orFail (QueryUnescape user);
  let enc := valuesGet (Query link) (str "encryption") in
  ss ← streamSettings link;
  Done (named "vless" (uFragment link)
          (hostSettings link port <| csId := id |> <| csFlow := valuesGet (Query link) (str "flow") |>
           <| csEncryption := if nonEmpty enc then enc else str "none" |>) ss).

Definition socksOutbound (link : URL) : outcome outbound :=
  port ← atoiPort (Port link);
  userPassword ← linkUserString link;
  '(user, pass) ←
    (if nonEmpty userPassword then
       passwordText ← orFail (decodeBase64Text userPassword);
       let '(user, pass, ok) := cutByte 58 passwordText in if negb ok then Failed else Done (user, pass)
     else Done ([], []));
  ss ← streamSettings link;
  Done (named "socks" (uFragment link) (hostSettings link port <| csUser := user |> <| csPass := pass |>) ss).

Definition trojanOutbound (link : URL) : outcome outbound :=
  port ← atoiPort (Port link);
  user ← linkUserString link;
  password ← orFail (QueryUnescape user);
  ss ← streamSettings link;
  Done (named "trojan" (uFragment link) (hostSettings link port <| csPassword := password |>) ss).

(** [parseIntPort], [parseStringPort] and [PortList.UnmarshalJSON] on a string. *)
Definition PortFromString (s : bytes) : option Z :=
  match parseUint s 32 with Ok n => if n <=? 65535 then Some n else None | Err _ => None end.
Definition parseIntPort (s : bytes) : option Z :=
  if bool_decide (s = str "null") then Some 0
  else if hasPrefix s [48] && (1 <? length s)%nat then None else PortFromString s.
Definition parseStringPort (s : bytes) : option (Z * Z) :=
  let s := if hasPrefix s (str "env:") then envFlag (skipn 4 s) else s in
  match cutByte 45 s with
  | (from, to, true) => from ← PortFromString from; to ← PortFromString to; Some (from, to)
  | (port, _, false) => port ← PortFromString port; Some (port, port)
  end.
Fixpoint contains (s p : bytes) : bool :=
  hasPrefix s p || match s with [] => false | _ :: s' => contains s' p end.
Definition parseRange (s : bytes) : option (Z * Z) :=
  if containsByte s 45 || contains s (str "env:") then parseStringPort s
  else port ← parseIntPort s; Some (port, port).
Definition parsePortList (s : bytes) : option portList :=
  mapM parseRange (List.filter nonEmpty (map trimSpace (splitByte 44 s))).

Definition parseInt32 (s : bytes) : option Z :=
  match atoi s with Ok n => if (- 2 ^ 31 <=? n) && (n <? 2 ^ 31) then Some n else None | Err _ => None end.

Definition pointRange (hop : option Z) : int32Range :=
  match hop with Some i => mkRange i i i i | None => mkRange 0 0 0 0 end.
Definition buildHy2FinalMask (up down ports : bytes) (hop : option Z) (obfsType obfsPassword : bytes) : option (option finalMask) :=
  quic ←
    (if nonEmpty up || nonEmpty down || nonEmpty ports then
       udp ← (if nonEmpty ports then l ← parsePortList ports; Some (mkHop l (pointRange hop)) else Some (mkHop [] (pointRange None)));
       Some (Some (mkQuic (if nonEmpty up || nonEmpty down then str "brutal" else []) up down udp))
     else Some None);
  let udpMasks := if bool_decide (obfsType = str "salamander") && nonEmpty obfsPassword
                  then [mkMask (str "salamander") (Some (marshalSalamander obfsPassword))] else [] in
  Some (match quic, udpMasks with None, [] => None | _, _ => Some (mkFinalMask [] udpMasks quic) end).

Definition hysteriaOutbound (link : URL) : outcome outbound :=
  port ← atoiPort (Port link);
  user ← linkUserString link;
  auth ← orFail (QueryUnescape user);
  let get k := valuesGet (Query link) (str k) in
  hop ← (if nonEmpty (get "hop-interval"%string) then Some <$> orFail (parseInt32 (get "hop-interval"%string)) else Done None);
  fm ← orFail (buildHy2FinalMask (get "up"%string) (get "down"%string) (get "ports"%string) hop (get "obfs"%string) (get "obfs-password"%string));
  let ss := emptyStream <| scNetwork := Some (str "hysteria") |> <| scHysteria := Some (mkHysteria 2 auth) |> <| scFinalMask := fm |> in
  ss ← parseSecurityFromURL link ss;
  Done (named "hysteria" (uFragment link) (hostSettings link port <| csVersion := 2 |>) (Some ss)).

(** [xrayShareLink.outbound]. *)
Definition linkOutbound (link : URL) (rawText : bytes) : outcome outbound :=
  if bool_decide (uScheme link = str "ss") then shadowsocksOutbound link
  else if bool_decide (uScheme link = str "vmess") then vmessOutbound link rawText
  else if bool_decide (uScheme link = str "vless") then vlessOutbound link
  else if bool_decide (uScheme link = str "socks") then socksOutbound link
  else if bool_decide (uScheme link = str "trojan") then trojanOutbound link
  else if bool_decide (uScheme link ∈ [str "hysteria2"; str "hy2"]) then hysteriaOutbound link
  else Failed.

(** One line of [parsePlainShareLines]: an error skips it. *)
Definition parseLine (raw : bytes) : outcome (option outbound) :=
  let line := trimSpace raw in
  if bool_decide (line = []) then Done None
  else
    match Parse line with
    | None => Done None
    | Some link => match linkOutbound link line with Done ob => Done (Some ob) | Failed => Done None | Panicked => Panicked end
    end.
Fixpoint parseLines (lines : list bytes) : outcome (list outbound) :=
  match lines with
  | [] => Done []
  | raw :: lines => ob ← parseLine raw; obs ← parseLines lines; Done (match ob with Some ob => ob :: obs | None => obs end)
  end.
Definition parsePlainShareLines (text : bytes) : outcome (list outbound) :=
  obs ← parseLines (splitByte 10 text);
  if bool_decide (obs = []) then Failed else Done obs.

Definition shareSchemes : list bytes :=
  [str "vless://"; str "vmess://"; str "socks://"; str "ss://"; str "trojan://"; str "hysteria2://"; str "hy2://"].
Definition hasShareSchemeLine (text : bytes) : bool :=
  existsb (fun raw => existsb (hasPrefix (trimSpace raw)) shareSchemes) (splitByte 10 text).

Definition trimRightBlank (s : bytes) : bytes := reverse ((fix go s := match s with c :: s' => if (c =? 32) || (c =? 9) then go s' else s | [] => [] end) (reverse s)).
Definition hasTopLevelClashProxiesKey (text : bytes) : bool :=
  existsb (fun raw => let line := trimRightBlank raw in let trimmed := trimSpace line in
             negb (bool_decide (trimmed = []) || bool_decide (trimmed = str "---") || hasPrefix trimmed [35]) && hasPrefix line (str "proxies:"))
    (splitByte 10 text).

Fixpoint FixWindowsReturn (s : bytes) : bytes :=
  match s with
  | 13 :: ((10 :: _) as s') => FixWindowsReturn s'
  | c :: s' => c :: FixWindowsReturn s'
  | [] => []
  end.

(** [convertShareLinksToXrayJson]; base64 is undone at most once. *)
Definition convertText (links : bytes) (base64 : bytes -> option (outcome (list outbound))) : outcome (list outbound) :=
  let text := trimSpace (FixWindowsReturn links) in
  if bool_decide (text = []) then Failed
  else if hasPrefix text [123] then
    obs ← orFail (unmarshalOutbounds text); if bool_decide (obs = []) then Failed else Done obs
  else if hasShareSchemeLine text then parsePlainShareLines text
  else
    match base64 text with
    | Some r => r
    | None => if hasTopLevelClashProxiesKey text then orFail (readClash text) else Failed
    end.
Definition convertShareLinksToXrayJson (links : bytes) : outcome (list outbound) :=
  convertText links (fun text => decoded ← decodeBase64Text text; Some (convertText decoded (fun _ => None))).

(** [filterBuildableOutbounds]. *)
Definition filterBuildableOutbounds (obs : list outbound) : outcome (list outbound) :=
  let valid := List.filter (fun ob => builds (mkOutbound (obProtocol ob) None (obTag ob) (obSettings ob) (obStream ob))) obs in
  if bool_decide (valid = []) then Failed else Done valid.

Definition ConvertShareLinksToXrayJson (links : bytes) : outcome (list outbound) :=
  obs ← convertShareLinksToXrayJson links; filterBuildableOutbounds obs.
End share.

(** [KCPConfig.Build] of Xray refuses a header or a seed. *)
Definition kcpBuilds (c : kcpConfig) : bool := negb (bool_decide (is_Some (kcpHeader c)) || bool_decide (is_Some (kcpSeed c))).
