(* ===== verification/ShareThm.v ===== *)
(** * Texts of share links, and what a link carries

    The round trips of base64, user information, addresses and queries, the
    outbound [carried ob] that the link of [ob] stands for, and the query that
    [streamSettingsQuery] writes. *)

From stdpp Require Import base numbers list gmap strings.
From Stdlib Require Import ZArith Lia Ascii.
From S2P Require Import Prelude GoStrings NetIP GoNet GoNetThm Obf PrConfigThm PrUapiThm GoUrl Share.

(** ** Queries as lists of pairs *)
Definition pairsOk (l : list (bytes * bytes)) : Prop := Forall (fun kv => bytes_ok kv.1 /\ bytes_ok kv.2) l.
Definition Enc (l : list (bytes * bytes)) : bytes := Encode (addPairs l ∅).
Definition optPair (k : string) (v : bytes) : list (bytes * bytes) := if nonEmpty v then [(str k, v)] else [].

Fixpoint getKey (k : bytes) (l : list (bytes * bytes)) : bytes :=
  match l with
  | [] => []
  | (k', v) :: l => if bool_decide (k' = k) then v else getKey k l
  end.

Lemma textsOk_addPairs l q : pairsOk l -> textsOk q -> textsOk (addPairs l q).
Proof.
  intros Hl. revert q. induction Hl as [|[k v] l [Hk Hv] _ IH]; intros q Hq; [done|]. apply IH. by apply valuesAdd_ok.
Qed.

Lemma textsOk_pairs l : pairsOk l -> textsOk (addPairs l ∅).
Proof. intros Hl. apply textsOk_addPairs; [done|]. apply map_Forall_empty. Qed.

Lemma ParseQuery_Enc l : pairsOk l -> ParseQuery (Enc l) = (addPairs l ∅, true).
Proof. intros Hl. by apply ParseQuery_Encode, textsOk_pairs. Qed.

Lemma addQuery_Enc l k v : pairsOk l -> addQuery (Enc l) k v = Enc (l ++ [(str k, v)]).
Proof. intros Hl. unfold addQuery, Enc. rewrite ParseQuery_Encode by (by apply textsOk_pairs). by rewrite addPairs_app. Qed.

Lemma addText_Enc l k v : pairsOk l -> addText k v (Enc l) = Enc (l ++ optPair k v).
Proof.
  intros Hl. unfold addText, optPair. destruct (nonEmpty v); [by apply addQuery_Enc|by rewrite app_nil_r].
Qed.

Lemma pairsOk_opt k v : bytes_ok v -> pairsOk (optPair k v).
Proof. intros Hv. unfold optPair. destruct (nonEmpty v); [|constructor]. constructor; [|constructor]. split; [apply str_ok|done]. Qed.

Lemma valuesGet_addPairs l q k :
  valuesGet (addPairs l q) k = match q !! k with Some (x :: _) => x | _ => getKey k l end.
Proof.
  revert q. induction l as [|[k' v] l IH]; intros q; cbn [addPairs foldl getKey].
  - unfold valuesGet. cbn. by destruct (q !! k) as [[|]|].
  - etrans; [exact (IH (valuesAdd k' v q))|]. unfold valuesAdd. case_bool_decide as e.
    + subst k'. rewrite lookup_insert_eq. by destruct (q !! k) as [[|]|].
    + by rewrite lookup_insert_ne.
Qed.

Lemma getKey_app k l1 l2 : k ∉ l1.*1 -> getKey k (l1 ++ l2) = getKey k l2.
Proof.
  induction l1 as [|[k' v] l1 IH]; [done|]. cbn. rewrite not_elem_of_cons. intros [H1 H2].
  rewrite bool_decide_eq_false_2 by congruence. by apply IH.
Qed.

Lemma getKey_opt k k' v l : getKey k (optPair k' v ++ l) = if bool_decide (str k' = k) && nonEmpty v then v else getKey k l.
Proof. unfold optPair. destruct (nonEmpty v); cbn; [|by rewrite andb_false_r]. by rewrite andb_true_r. Qed.

Lemma getKey_cons k k' v l : getKey k ((k', v) :: l) = if bool_decide (k' = k) then v else getKey k l.
Proof. done. Qed.

Lemma addPairs_nil l : addPairs l ∅ = ∅ -> l = [].
Proof.
  destruct l as [|[k v] l]; [done|]. intros He. exfalso.
  assert (Hs : forall l q, is_Some (q !! k) -> is_Some (addPairs l q !! k)).
  { clear. induction l as [|[k' v'] l IH]; intros q Hq; [done|]. apply (IH (valuesAdd k' v' q)). unfold valuesAdd.
    destruct (decide (k' = k)) as [->|]; [by rewrite lookup_insert_eq|by rewrite lookup_insert_ne]. }
  assert (H : is_Some (addPairs ((k, v) :: l) ∅ !! k)) by (apply (Hs l (valuesAdd k v ∅)); unfold valuesAdd; by rewrite lookup_insert_eq).
  rewrite He, lookup_empty in H. by destruct H.
Qed.

(** ** Bytes of links *)
Definition visible (c : Z) : Prop := 33 <= c <= 126.

Lemma oneOf_visible cs c : Forall visible (str cs) -> oneOf cs c = true -> visible c.
Proof. intros Hcs H. unfold oneOf in H. apply bool_decide_eq_true in H. by eapply Forall_forall in Hcs. Qed.

#[local] Ltac visible_str := cbn; repeat (apply Forall_cons; split; [unfold visible; lia|]); constructor.

Lemma plain_visible mode c : mode <> encodeHost -> plainFor mode c = true -> visible c.
Proof.
  intros Hm H. unfold plainFor in H. apply orb_prop in H as [[H|H]%orb_prop|H].
  - apply negb_true_iff in H. unfold shouldEscape in H.
    destruct (isAlnum c) eqn:e; [apply alnum_range in e; unfold visible; lia|]. rewrite bool_decide_eq_false_2 in H by done. cbn in H.
    destruct (oneOf "-_.~" c) eqn:e1; [eapply oneOf_visible; [|exact e1]; visible_str|].
    destruct (oneOf "$&+,/:;=?@" c) eqn:e2; [eapply oneOf_visible; [|exact e2]; visible_str|].
    destruct (bool_decide (mode = encodeFragment) && oneOf "!()*" c) eqn:e3; [|done].
    apply andb_prop in e3 as [_ e3]. eapply oneOf_visible; [|exact e3]; visible_str.
  - apply Z.eqb_eq in H. unfold visible. lia.
  - apply andb_prop in H as [H%Z.eqb_eq _]. unfold visible. lia.
Qed.

Lemma escape_visible mode s : mode <> encodeHost -> bytes_ok s -> Forall visible (escape mode s).
Proof. intros Hm Hs. eapply Forall_impl; [by apply escape_plain|]. intros c Hc. by eapply plain_visible. Qed.

Lemma joinByte_Forall (P : Z -> Prop) c parts : P c -> Forall (Forall P) parts -> Forall P (joinByte c parts).
Proof.
  intros Hc Hp. destruct Hp as [|p parts Hp Hps]; [constructor|]. cbn. apply Forall_app. split; [done|].
  induction Hps as [|p2 parts Hp2 _ IH]; [constructor|]. cbn. constructor; [done|]. apply Forall_app. by split.
Qed.

Lemma Enc_visible l : pairsOk l -> Forall visible (Enc l).
Proof.
  intros Hl. unfold Enc, Encode. apply joinByte_Forall; [unfold visible; lia|]. apply Forall_map.
  eapply Forall_impl; [by apply encodePairs_ok, textsOk_pairs|]. intros kv [Hk Hv]. unfold pairText.
  apply Forall_app. split; [|constructor; [unfold visible; lia|]]; by apply escape_visible.
Qed.

Lemma Enc_no c l : pairsOk l -> plainFor encodeQueryComponent c = false -> c <> 61 -> c <> 38 -> c ∉ Enc l.
Proof. intros Hl. by apply Encode_bytes, textsOk_pairs. Qed.

(** ** Base64 *)
Lemma base64Char_visible i : 0 <= i < 64 -> isAlnum (base64Char i) = true \/ base64Char i = 43 \/ base64Char i = 47.
Proof.
  intros Hi. unfold base64Char, isAlnum, isDigit. destruct (Z.ltb_spec i 26); [left; lia|].
  destruct (Z.ltb_spec i 52); [left; lia|]. destruct (Z.ltb_spec i 62); [left; lia|]. destruct (Z.eqb_spec i 62); auto.
Qed.

Lemma be_three a b c : is_u8 a -> is_u8 b -> is_u8 c -> be_bytes 3 (be_val [a; b; c]) = [a; b; c].
Proof. intros Ha Hb Hc. apply (be_bytes_be_val [a; b; c]). unfold bytes_ok. by rewrite !Forall_cons, Forall_nil. Qed.

Lemma quantum_three a b c : is_u8 a -> is_u8 b -> is_u8 c ->
  quantumBytes [a / 4; a mod 4 * 16 + b / 16; b mod 16 * 4 + c / 64; c mod 64] = [a; b; c].
Proof.
  intros Ha Hb Hc. unfold is_u8 in *. unfold quantumBytes. cbn [length app foldl Nat.sub].
  change (zeros 0) with (@nil Z). cbn [app foldl].
  replace ((((0 * 64 + a / 4) * 64 + (a mod 4 * 16 + b / 16)) * 64 + (b mod 16 * 4 + c / 64)) * 64 + c mod 64) with (be_val [a; b; c]).
  - by rewrite (be_three a b c).
  - cbn. Z.div_mod_to_equations. lia.
Qed.

Lemma quantum_two a b : is_u8 a -> is_u8 b -> quantumBytes [a / 4; a mod 4 * 16 + b / 16; b mod 16 * 4] = [a; b].
Proof.
  intros Ha Hb. unfold is_u8 in *. unfold quantumBytes. cbn [length app foldl Nat.sub].
  replace (zeros 1) with [0] by done. cbn [app foldl].
  replace ((((0 * 64 + a / 4) * 64 + (a mod 4 * 16 + b / 16)) * 64 + b mod 16 * 4) * 64 + 0) with (be_val [a; b; 0]).
  - by rewrite (be_three a b 0).
  - cbn. Z.div_mod_to_equations. lia.
Qed.

Lemma quantum_one a : is_u8 a -> quantumBytes [a / 4; a mod 4 * 16] = [a].
Proof.
  intros Ha. unfold is_u8 in *. unfold quantumBytes. cbn [length app foldl Nat.sub].
  replace (zeros 2) with [0; 0] by done. cbn [app foldl].
  replace ((((0 * 64 + a / 4) * 64 + a mod 4 * 16) * 64 + 0) * 64 + 0) with (be_val [a; 0; 0]).
  - by rewrite (be_three a 0 0).
  - cbn. Z.div_mod_to_equations. lia.
Qed.

Lemma b64Loop_char v s q : 0 <= v < 64 ->
  b64Loop (base64Char v :: s) q =
  if (length q =? 3)%nat then bs ← b64Loop s []; Some (quantumBytes (q ++ [v]) ++ bs) else b64Loop s (q ++ [v]).
Proof. intros Hv. cbn [b64Loop]. by rewrite base64Val_Char. Qed.

Lemma b64Loop_pad2 q : length q = 2%nat -> b64Loop [61; 61] q = Some (quantumBytes q).
Proof. intros Hq. cbn [b64Loop]. change (base64Val 61) with (@None Z). cbn [isNewline Z.eqb Pos.eqb orb negb]. by rewrite Hq. Qed.

Lemma b64Loop_pad1 q : length q = 3%nat -> b64Loop [61] q = Some (quantumBytes q).
Proof. intros Hq. cbn [b64Loop]. change (base64Val 61) with (@None Z). cbn [isNewline Z.eqb Pos.eqb orb negb]. by rewrite Hq. Qed.

Lemma b64_round n bs : (length bs <= n)%nat -> bytes_ok bs -> b64Loop (b64Encode bs) [] = Some bs.
Proof.
  assert (Hv : forall a b c : Z, is_u8 a -> is_u8 b -> is_u8 c -> 0 <= a / 4 < 64 /\ 0 <= a mod 4 * 16 + b / 16 < 64 /\ 0 <= b mod 16 * 4 + c / 64 < 64 /\ 0 <= c mod 64 < 64).
  { intros a b c Ha Hb Hc. unfold is_u8 in *. split_and!; Z.div_mod_to_equations; lia. }
  assert (H0 : is_u8 0) by (unfold is_u8; lia).
  revert bs. induction n as [|n IH]; intros bs Hl Hb; destruct bs as [|a [|b [|c bs]]]; cbn in Hl; try lia; try done.
  - apply Forall_cons in Hb as [Ha _]. destruct (Hv a 0 0 Ha H0 H0) as (H1 & H2 & _ & _). rewrite Z.add_0_r in H2.
    cbn [b64Encode]. rewrite b64Loop_char by done. cbn [length Nat.eqb app]. rewrite b64Loop_char by done.
    cbn [length Nat.eqb app]. by rewrite b64Loop_pad2, quantum_one.
  - apply Forall_cons in Hb as [Ha Hb]. apply Forall_cons in Hb as [Hb _]. destruct (Hv a b 0 Ha Hb H0) as (H1 & H2 & H3 & _). rewrite Z.add_0_r in H3.
    cbn [b64Encode]. do 3 (rewrite b64Loop_char by done; cbn [length Nat.eqb app]). by rewrite b64Loop_pad1, quantum_two.
  - apply Forall_cons in Hb as [Ha Hb]. apply Forall_cons in Hb as [Hb Hc]. apply Forall_cons in Hc as [Hc Hbs].
    destruct (Hv a b c Ha Hb Hc) as (H1 & H2 & H3 & H4). cbn [b64Encode].
    do 4 (rewrite b64Loop_char by done; cbn [length Nat.eqb app]). rewrite IH by (done || lia). cbn [mbind option_bind].
    by rewrite quantum_three.
Qed.

Lemma b64Decode_Encode bs : bytes_ok bs -> b64Decode (b64Encode bs) = Some bs.
Proof. intros Hb. by apply (b64_round (length bs)). Qed.

(** The bytes of base64 text. *)
Definition b64Byte (c : Z) : Prop := isAlnum c = true \/ c = 43 \/ c = 47 \/ c = 61.

Lemma b64Encode_bytes bs : bytes_ok bs -> Forall b64Byte (b64Encode bs).
Proof.
  assert (Hc : forall v, 0 <= v < 64 -> b64Byte (base64Char v)) by (intros v Hv; unfold b64Byte; destruct (base64Char_visible v Hv) as [?|[?|?]]; auto).
  assert (H61 : b64Byte 61) by (unfold b64Byte; auto).
  assert (Hs : forall n bs, (length bs <= n)%nat -> bytes_ok bs -> Forall b64Byte (b64Encode bs)); [|by apply (Hs (length bs))].
  induction n as [|n IH]; intros l Hl Hb; destruct l as [|a [|b [|c l]]]; cbn in Hl; try lia; try (by constructor); cbn [b64Encode];
    repeat (apply Forall_cons in Hb as [? Hb]); unfold is_u8 in *;
    repeat (apply Forall_cons; split; [first [exact H61|apply Hc; Z.div_mod_to_equations; lia]|]); [constructor|constructor|].
  apply IH; [lia|done].
Qed.

Lemma b64Byte_visible c : b64Byte c -> visible c.
Proof. intros [H%alnum_range|[->|[->| ->]]]; unfold visible; lia. Qed.

Lemma visible_noSpace s : Forall visible s -> noSpace s.
Proof. intros Hs. eapply Forall_impl; [exact Hs|]. intros c Hc. unfold visible in Hc. unfold isSpace. lia. Qed.

Lemma b64Encode_nil bs : b64Encode bs = [] -> bs = [].
Proof. by destruct bs as [|a [|b [|c bs]]]. Qed.

Lemma decodeBase64Text_Encode bs : bytes_ok bs -> bs <> [] -> decodeBase64Text (b64Encode bs) = Some bs.
Proof.
  intros Hb Hne. unfold decodeBase64Text. rewrite trimSpace_id by (apply visible_noSpace; eapply Forall_impl; [by apply b64Encode_bytes|exact b64Byte_visible]).
  rewrite bool_decide_eq_false_2 by (intros ?%b64Encode_nil; done). by rewrite b64Decode_Encode.
Qed.

(** Text with a byte of no alphabet is not base64. *)
Definition noBase64 (z : Z) : Prop := base64Val z = None /\ isNewline z = false /\ z <> 61 /\ isSpace z = false /\ urlToStd z = z.

Lemma skipNewlines_in c s : isNewline c = false -> c ∈ s -> c ∈ skipNewlines s.
Proof.
  intros Hc. induction s as [|x s IH]; [done|]. cbn. intros Hin. destruct (isNewline x) eqn:e; [|done].
  apply IH. apply elem_of_cons in Hin as [->|Hin]; [congruence|done].
Qed.

Lemma b64Loop_bad z s q : noBase64 z -> z ∈ s -> b64Loop s q = None.
Proof.
  intros (Hz & Hnl & H61 & _). revert q. induction s as [|x s IH]; intros q Hin; [by apply not_elem_of_nil in Hin|]. cbn [b64Loop].
  destruct (base64Val x) as [v|] eqn:ev.
  - assert (Hs : z ∈ s) by (apply elem_of_cons in Hin as [E|Hin]; [congruence|done]). case_match; rewrite !IH by done; done.
  - destruct (isNewline x) eqn:en; [apply IH; apply elem_of_cons in Hin as [E|Hin]; [congruence|done]|].
    destruct (Z.eqb_spec x 61) as [->|Hx]; [|done]. cbn [negb]. case_match; [done|].
    assert (Hs : z ∈ s) by (by apply elem_of_cons in Hin as [?|Hin]).
    assert (Hrest : forall rest, z ∈ rest -> (length (skipNewlines rest) =? 0)%nat = false).
    { intros rest Hr. apply Nat.eqb_neq. apply (skipNewlines_in z) in Hr; [|done]. destruct (skipNewlines rest); [by apply not_elem_of_nil in Hr|done]. }
    destruct (length q =? 2)%nat; cbn [mbind option_bind]; [|by rewrite Hrest].
    pose proof (skipNewlines_in z s Hnl Hs) as Hsk. destruct (skipNewlines s) as [|y rest]; [done|].
    destruct (decide (y = 61)) as [->|Hy].
    + cbn. apply elem_of_cons in Hsk as [?|Hsk]; [done|]. by rewrite Hrest.
    + destruct y as [|p|p]; try done. repeat (destruct p as [p|p|]; try done).
Qed.

Lemma trimLeftSpace_in c s : isSpace c = false -> c ∈ s -> c ∈ trimLeftSpace s.
Proof.
  intros Hc. induction s as [|x s IH]; [done|]. cbn. intros Hin. destruct (isSpace x) eqn:e; [|done].
  apply IH. apply elem_of_cons in Hin as [->|Hin]; [congruence|done].
Qed.

Lemma trimSpace_in c s : isSpace c = false -> c ∈ s -> c ∈ trimSpace s.
Proof.
  intros Hc Hin. unfold trimSpace. rewrite elem_of_reverse. apply trimLeftSpace_in; [done|].
  rewrite elem_of_reverse. by apply trimLeftSpace_in.
Qed.

Lemma decodeBase64Text_bad z text : noBase64 z -> z ∈ text -> decodeBase64Text text = None.
Proof.
  intros Hz Hin. pose proof Hz as (_ & _ & _ & Hsp & Hurl). apply (trimSpace_in z) in Hin; [|done]. unfold decodeBase64Text. case_bool_decide as e; [done|].
  assert (Hmap : z ∈ map urlToStd (trimSpace text)) by (rewrite <- Hurl; by apply list_elem_of_fmap_2).
  assert (Hno : forall s, z ∈ s -> b64Decode s = None) by (intros s Hs; by apply (b64Loop_bad z)).
  unfold b64DecodeURL. rewrite !Hno; [by destruct (_ || _)| |done..]. case_match; [done|]. apply elem_of_app. by left.
Qed.

Lemma removeAll_in c p s skip : p <> [] -> c ∉ p -> c ∈ drop skip s -> c ∈ removeAll p s skip.
Proof.
  intros Hne Hp. revert skip. induction s as [|x s IH]; intros skip Hin; [by rewrite drop_nil in Hin|].
  destruct skip as [|skip]; cbn [removeAll]; [|by apply IH]. cbn [drop] in Hin.
  destruct (hasPrefix (x :: s) p) eqn:e.
  - apply IH. unfold hasPrefix in e. apply bool_decide_eq_true in e.
    rewrite <- (take_drop (length p) (x :: s)), e, elem_of_app in Hin. destruct Hin as [?|Hin]; [done|].
    destruct p as [|y p]; [done|]. cbn in Hin |- *. by rewrite Nat.sub_0_r.
  - apply elem_of_cons in Hin as [->|Hin]; [by left|]. right. by apply IH.
Qed.

(** ** User information *)
Lemma unescape_other mode c t :
  mode <> encodeHost -> c <> 37 -> (mode = encodeQueryComponent -> c <> 43) -> unescape mode (c :: t) = cons c <$> unescape mode t.
Proof.
  intros Hm H1 H2.
  assert (Hc : (c =? 43) && bool_decide (mode = encodeQueryComponent) = false).
  { case_bool_decide as e; [|by rewrite andb_false_r]. rewrite andb_true_r. apply Z.eqb_neq. by apply H2. }
  assert (Hgen : unescape mode (c :: t) =
            if (c =? 43) && bool_decide (mode = encodeQueryComponent) then cons 32 <$> unescape mode t
            else if bool_decide (mode = encodeHost) && (c <? 128) && shouldEscape mode c then None
            else cons c <$> unescape mode t).
  { cbn [unescape]. destruct c as [|p|p]; try done. repeat (destruct p as [p|p|]; try done). }
  by rewrite Hgen, Hc, bool_decide_eq_false_2 by done.
Qed.

Lemma escape_cons mode c s : escape mode (c :: s) = escapeByte mode c ++ escape mode s.
Proof. done. Qed.

(** [QueryUnescape] of a user name's text turns a plus sign into a space; without
    one it is the name. *)
Lemma QueryUnescape_user s : bytes_ok s -> 43 ∉ s -> QueryUnescape (escape encodeUserPassword s) = Some s.
Proof.
  intros Hs Hp. induction Hs as [|c s Hc Hs IH]; [done|]. apply not_elem_of_cons in Hp as [Hc43 Hp]. specialize (IH Hp).
  unfold QueryUnescape in *. rewrite escape_cons. unfold escapeByte. destruct (shouldEscape encodeUserPassword c) eqn:e.
  - rewrite andb_false_r. cbn [app]. by rewrite unescape_hex, IH by done.
  - cbn [app]. rewrite unescape_other, IH; [done|done| |by intros _ ->]. by apply (plain_byte encodeUserPassword).
Qed.

Lemma QueryUnescape_plus t : QueryUnescape (escape encodeUserPassword (43 :: t)) = cons 32 <$> QueryUnescape (escape encodeUserPassword t).
Proof. done. Qed.

Lemma escSS_cons c s : escapeShadowsocksUserInfo (c :: s) = (escapeByte encodeQueryComponent c ≫= fun c => if c =? 43 then str "%20" else [c]) ++ escapeShadowsocksUserInfo s.
Proof. unfold escapeShadowsocksUserInfo, QueryEscape. by rewrite escape_cons, bind_app. Qed.

Lemma escSS_byte c : is_u8 c ->
  exists t, (escapeByte encodeQueryComponent c ≫= fun c => if c =? 43 then str "%20" else [c]) = t /\
    Forall userByte t /\ forall r, unescape encodeUserPassword (t ++ r) = cons c <$> unescape encodeUserPassword r.
Proof.
  intros Hc. eexists. split; [done|]. unfold escapeByte. destruct (shouldEscape encodeQueryComponent c) eqn:e.
  - destruct (Z.eqb_spec c 32) as [->|Hne]; cbn [andb bool_decide].
    + rewrite bool_decide_eq_true_2 by done. split; [by repeat constructor|]. intros r. done.
    + assert (Hu : forall n, 0 <= n < 16 -> upperHex n <> 43 /\ userByte (upperHex n)).
      { intros n Hn. pose proof (upperHex_alnum n Hn) as Ha. split; [|by apply alnum_plain].
        intros E. by rewrite E in Ha. }
      assert (H1 : 0 <= c / 16 < 16) by (unfold is_u8 in Hc; Z.div_mod_to_equations; lia).
      assert (H2 : 0 <= c mod 16 < 16) by (Z.div_mod_to_equations; lia).
      destruct (Hu _ H1) as [Hu1 Hu2], (Hu _ H2) as [Hu3 Hu4].
      assert (Hb : ([37; upperHex (c / 16); upperHex (c mod 16)] ≫= fun c => if c =? 43 then str "%20" else [c]) = [37; upperHex (c / 16); upperHex (c mod 16)]).
      { cbn. by rewrite !(proj2 (Z.eqb_neq _ 43)). }
      rewrite Hb. split; [by repeat constructor|]. intros r. cbn [app]. by apply unescape_hex.
  - destruct (plain_byte _ _ e) as [H37 H43]. cbn. rewrite (proj2 (Z.eqb_neq c 43)) by auto. cbn.
    split; [|intros r; apply unescape_other; auto; done].
    constructor; [|constructor]. unfold userByte, plainFor. apply orb_true_iff. left. apply orb_true_iff. left. apply negb_true_iff.
    unfold shouldEscape in *. destruct (isAlnum c); [done|]. rewrite bool_decide_eq_false_2 in * by done. cbn in *.
    destruct (oneOf "-_.~" c); [done|]. by destruct (oneOf "$&+,/:;=?@" c).
Qed.

Lemma escSS_ok s : bytes_ok s ->
  Forall userByte (escapeShadowsocksUserInfo s) /\ unescape encodeUserPassword (escapeShadowsocksUserInfo s) = Some s.
Proof.
  intros Hs. induction Hs as [|c s Hc Hs [IH1 IH2]]; [done|]. rewrite escSS_cons. destruct (escSS_byte c Hc) as (t & -> & Ht & Hu).
  split; [by apply Forall_app|]. by rewrite Hu, IH2.
Qed.

(** Base64 text without slashes is a user name as it is. *)
Lemma escape_b64 s : Forall b64Byte s -> 47 ∉ s -> escape encodeUserPassword s = s.
Proof.
  intros Hs Hn. induction Hs as [|c s Hc Hs IH]; [done|]. apply not_elem_of_cons in Hn as [Hc47 Hn].
  rewrite escape_cons, IH by done. unfold escapeByte.
  assert (He : shouldEscape encodeUserPassword c = false); [|by rewrite He].
  destruct Hc as [Hc|[->|[->| ->]]]; [unfold shouldEscape; by rewrite Hc|done..].
Qed.

(** ** Addresses *)
Definition nameText (d : bytes) : Prop := Forall (fun c => isAlnum c || oneOf "-_.~" c = true) d.
Definition addrOk (a : netAddress) : Prop :=
  match a with
  | ipv4Address ip => bytes_ok ip /\ length ip = 4%nat
  | ipv6Address ip => bytes_ok ip /\ length ip = 16%nat /\ take 12 ip <> v4InV6Prefix
  | domainAddress d => nameText d /\ ParseIP d = None
  end.

Lemma nameText_noSpace d : Forall (fun c => isAlnum c || oneOf "-_.~:" c = true) d -> noSpace d.
Proof.
  intros Hd. apply visible_noSpace. eapply Forall_impl; [exact Hd|]. intros c [H%alnum_range|H]%orb_prop; [unfold visible; lia|].
  eapply oneOf_visible; [|exact H]. visible_str.
Qed.

Lemma name_colon c : isAlnum c || oneOf "-_.~" c = true -> isAlnum c || oneOf "-_.~:" c = true.
Proof.
  intros [->|H]%orb_prop; [done|]. apply orb_true_iff. right. unfold oneOf in *. apply bool_decide_eq_true in H. apply bool_decide_eq_true.
  change (str "-_.~:") with (str "-_.~" ++ [58]). apply elem_of_app. by left.
Qed.

Lemma ParseAddress_plain t : Forall (fun c => isAlnum c || oneOf "-_.~:" c = true) t ->
  ParseAddress t = match ParseIP t with Some ip => IPAddress ip | None => domainAddress t end.
Proof.
  intros Ht. unfold ParseAddress. assert (Hh : bool_decide (head t = Some 91 /\ last t = Some 93) = false).
  { apply bool_decide_eq_false_2. intros [H _]. destruct t as [|c t]; [done|]. injection H as ->. by apply Forall_inv in Ht. }
  rewrite Hh. rewrite (trimSpace_id t) by (by apply nameText_noSpace). by destruct (_ && _).
Qed.

Lemma dec_text n : 0 <= n -> Forall (fun c => isAlnum c || oneOf "-_.~" c = true) (dec n).
Proof. intros Hn. eapply Forall_impl; [by apply dec_digits|]. intros c Hc. unfold isAlnum. cbn in Hc. by rewrite Hc, !orb_true_r. Qed.

Lemma formatIPv4_text ip : bytes_ok ip -> nameText (formatIPv4 ip).
Proof.
  intros Hip. apply joinByte_Forall; [done|]. apply Forall_map. eapply Forall_impl; [exact Hip|]. intros b Hb.
  apply dec_text. unfold is_u8 in Hb. lia.
Qed.

Lemma formatIPv6_text ip : bytes_ok ip -> length ip = 16%nat -> Forall (fun c => isAlnum c || oneOf "-_.~:" c = true) (formatIPv6 ip).
Proof.
  intros Hip Hl. eapply Forall_impl; [by apply formatIPv6_bytes|]. intros c [->|(d & Hd & ->)]; [done|].
  apply orb_true_iff. left. unfold hexDigit, isAlnum, isDigit. destruct (Z.ltb_spec d 10); lia.
Qed.

Lemma address_text a : addrOk a -> hostNameOk (addressString a) /\ ParseAddress (bareHost (addressString a)) = a.
Proof.
  destruct a as [ip|ip|d]; cbn [addrOk addressString].
  - intros [Hb Hl]. assert (E4 : ipString ip = formatIPv4 ip) by (unfold ipString, To4; by rewrite Hl). rewrite E4.
    pose proof (formatIPv4_text ip Hb) as Ht. split; [by left|]. rewrite (bareHost_name _ "-_.~") by done.
    rewrite ParseAddress_plain by (eapply Forall_impl; [exact Ht|exact name_colon]).
    do 4 (destruct ip as [|? ip]; [done|]). destruct ip; [|done]. unfold bytes_ok in Hb. rewrite !Forall_cons in Hb. destruct Hb as (? & ? & ? & ? & _).
    by rewrite ParseIP_IPv4.
  - intros (Hb & Hl & Hne). assert (E6 : ipString ip = formatIPv6 ip) by (unfold ipString; by rewrite To4_IPv6). rewrite E6.
    pose proof (formatIPv6_text ip Hb Hl) as Ht. split.
    + right. exists (formatIPv6 ip). split; [done|]. split; [done|]. rewrite parse_format_IPv6 by done. by eexists.
    + rewrite bareHost_bracket, ParseAddress_plain, ParseIP_IPv6 by done. unfold IPAddress. rewrite Hl. cbn [Nat.eqb].
      by rewrite bool_decide_eq_false_2.
  - intros [Hd HN]. split; [by left|]. rewrite (bareHost_name _ "-_.~") by done.
    rewrite ParseAddress_plain by (eapply Forall_impl; [exact Hd|exact name_colon]). by rewrite HN.
Qed.

(** ** What a link carries

    [carried ob] is the outbound that the link of [ob] stands for: its name, the
    fields of its protocol, its transport under the network's own name, and its
    security.  [linkable ob] bounds the texts that links carry faithfully. *)
Section carried.
Context `{ShareJson}.

Definition carriedSettings (protocol : bytes) (cs : clientSettings) : clientSettings :=
  let base := emptySettings <| csAddress := csAddress cs |> <| csPort := csPort cs |> in
  if bool_decide (protocol = str "shadowsocks") then base <| csMethod := csMethod cs |> <| csPassword := csPassword cs |>
  else if bool_decide (protocol = str "vmess") then base <| csId := csId cs |> <| csSecurity := csSecurity cs |>
  else if bool_decide (protocol = str "vless") then
    base <| csId := csId cs |> <| csFlow := csFlow cs |>
         <| csEncryption := if bool_decide (csEncryption cs = []) then str "none" else csEncryption cs |>
  else if bool_decide (protocol = str "socks") then base <| csUser := csUser cs |> <| csPass := csPass cs |>
  else if bool_decide (protocol = str "trojan") then base <| csPassword := csPassword cs |>
  else base <| csVersion := 2 |>.

Definition someList (l : option (list bytes)) : option (list bytes) := match l with Some [] => None | _ => l end.
Definition emptyTLS : tlsConfig := mkTLS [] None [] [] [] [] false.
Definition carriedTLS (t : option tlsConfig) : tlsConfig :=
  match t with Some t => t <| tlsALPN ::= someList |> | None => emptyTLS end.
Definition carriedReality (r : option realityConfig) : realityConfig :=
  match r with
  | Some r => mkReality (rlFingerprint r) (rlServerName r) (rlPassword r) (rlPassword r) (rlShortId r) (rlMldsa65Verify r) (rlSpiderX r)
  | None => mkReality [] [] [] [] [] [] []
  end.

(** Only an HTTP header survives. *)
Definition carriedRaw (c : option tcpConfig) : option tcpConfig :=
  match c with
  | Some (Some (Some h)) =>
      if bool_decide (rhType h = str "http") then
        let request := default (mkRequest [] None) (rhRequest h) in
        Some (Some (Some (mkRawHeader (rhType h) (Some (mkRequest (rqPath request) (someList (rqHost request)))))))
      else None
  | _ => None
  end.
Definition carriedKcp (c : option kcpConfig) : kcpConfig :=
  let header := c ≫= kcpHeader in
  mkKCP (match header with Some (Some t) => if bool_decide (t = []) then None else header | _ => None end)
    (Some (default [] (c ≫= kcpSeed))).
Definition carriedXhttp (c : option splitHTTPConfig) : splitHTTPConfig :=
  match c with
  | Some c => mkSplitHTTP (shHost c) (shPath c) (shMode c) (shExtra c ≫= extraText)
  | None => mkSplitHTTP [] [] [] None
  end.

(** The settings of the other names of a transport are not in the link. *)
Definition carriedTransport (network : bytes) (ss : streamConfig) : streamConfig :=
  let out := emptyStream <| scNetwork := Some network |> in
  let isName name := bool_decide (network = str name) in
  if isName "raw"%string then out <| scRAW := carriedRaw (scRAW ss) |>
  else if isName "kcp"%string then out <| scKCP := Some (carriedKcp (scKCP ss)) |>
  else if isName "mkcp"%string then out <| scKCP := Some (carriedKcp None) |>
  else if isName "ws"%string then out <| scWS := Some (default (mkHostPath [] []) (scWS ss)) |>
  else if isName "websocket"%string then out <| scWS := Some (mkHostPath [] []) |>
  else if isName "grpc"%string then out <| scGRPC := Some (default (mkGRPC [] [] false) (scGRPC ss)) |>
  else if isName "httpupgrade"%string then out <| scHTTPUPGRADE := Some (default (mkHostPath [] []) (scHTTPUPGRADE ss)) |>
  else if isName "xhttp"%string then out <| scXHTTP := Some (carriedXhttp (scXHTTP ss)) |>
  else if isName "splithttp"%string then out <| scXHTTP := Some (carriedXhttp None) |>
  else out.

Definition withHost (ws : option hostPath) (t : tlsConfig) : tlsConfig :=
  match ws with
  | Some ws => if bool_decide (tlsServerName t = []) then t <| tlsServerName := hpHost ws |> else t
  | None => t
  end.

(** [protocol]: Trojan has no link without TLS. *)
Definition carriedStream (protocol : bytes) (ss : streamConfig) : streamConfig :=
  let out := carriedTransport (default (str "raw") (scNetwork ss)) ss <| scFinalMask := scFinalMask ss |> in
  let written := if bool_decide (scSecurity ss = []) then str "none" else scSecurity ss in
  let security := if bool_decide (protocol = str "trojan") && bool_decide (written = str "none") then str "tls" else written in
  let out := out <| scSecurity := security |> in
  if bool_decide (security = str "tls") then
    out <| scTLS := Some (withHost (scWS out) (carriedTLS (if bool_decide (written = str "tls") then scTLS ss else None))) |>
  else if bool_decide (security = str "reality") then out <| scREALITY := Some (carriedReality (scREALITY ss)) |>
  else out.

Definition carriedQuic (qp : quicParams) : option quicParams :=
  let hop := qpUdpHop qp in
  let some s := negb (bool_decide (s = [])) in
  let rate := some (qpBrutalUp qp) || some (qpBrutalDown qp) in
  if rate || negb (bool_decide (hopPorts hop = [])) then
    Some (mkQuic (if rate then str "brutal" else []) (qpBrutalUp qp) (qpBrutalDown qp)
      (mkHop (hopPorts hop) (if bool_decide (hopPorts hop = []) then pointRange None else pointRange (Some (rgFrom (hopInterval hop))))))
  else None.
Definition carriedMasks (udp : list mask) : list mask :=
  match (head udp ≫= mkSettingsJson) ≫= unmarshalSalamander with
  | Some password => [mkMask (str "salamander") (Some (marshalSalamander password))]
  | None => []
  end.
Definition carriedFinalMask (fm : option finalMask) : option finalMask :=
  fm ← fm;
  match fmQuicParams fm ≫= carriedQuic, carriedMasks (fmUdp fm) with
  | None, [] => None
  | quic, masks => Some (mkFinalMask [] masks quic)
  end.
Definition carriedHysteria (ss : streamConfig) : streamConfig :=
  emptyStream <| scNetwork := Some (str "hysteria") |> <| scSecurity := str "tls" |> <| scTLS := Some (carriedTLS (scTLS ss)) |>
    <| scFinalMask := carriedFinalMask (scFinalMask ss) |> <| scHysteria := mkHysteria 2 ∘ hyAuth <$> scHysteria ss |>.

(** Without stream settings a link still has those of its query. *)
Definition queried (ob : outbound) (cs : clientSettings) : bool :=
  (bool_decide (obProtocol ob = str "vmess") && negb (bool_decide (csSecurity cs = []))) ||
  (bool_decide (obProtocol ob = str "vless") && negb (bool_decide (csFlow cs = []) && bool_decide (csEncryption cs = []))).

Definition carried (ob : outbound) : outbound :=
  let cs := default emptySettings (obSettings ob) in
  mkOutbound (obProtocol ob) (Some (getOutboundName ob)) [] (Some (carriedSettings (obProtocol ob) cs))
    (match obStream ob with
     | Some ss => Some (if bool_decide (obProtocol ob = str "hysteria") then carriedHysteria ss else carriedStream (obProtocol ob) ss)
     | None => if queried ob cs then Some (carriedStream (obProtocol ob) emptyStream) else None
     end).

(** *** Texts that links carry *)
Definition listOk (l : list bytes) : Prop := Forall (fun s => bytes_ok s /\ 44 ∉ s) l /\ l <> [[]].
Definition optOk {A} (P : A -> Prop) (o : option A) : Prop := match o with Some a => P a | None => True end.
Definition tlsOk (t : tlsConfig) : Prop :=
  bytes_ok (tlsServerName t) /\ bytes_ok (tlsFingerprint t) /\ bytes_ok (tlsECHConfigList t) /\ bytes_ok (tlsPinnedPeerCertSha256 t) /\
  bytes_ok (tlsVerifyPeerCertByName t) /\ optOk listOk (tlsALPN t).
Definition realityOk (r : realityConfig) : Prop :=
  bytes_ok (rlFingerprint r) /\ bytes_ok (rlServerName r) /\ bytes_ok (rlPassword r) /\ bytes_ok (rlShortId r) /\
  bytes_ok (rlMldsa65Verify r) /\ bytes_ok (rlSpiderX r).
Definition rawOk (h : rawHeader) : Prop :=
  bytes_ok (rhType h) /\ optOk (fun r => listOk (rqPath r) /\ optOk listOk (rqHost r)) (rhRequest h).
Definition hostPathOk (c : hostPath) : Prop := bytes_ok (hpHost c) /\ bytes_ok (hpPath c).
Definition kcpOk (c : kcpConfig) : Prop := optOk bytes_ok (kcpSeed c) /\ optOk (optOk bytes_ok) (kcpHeader c).
Definition grpcOk (c : grpcConfig) : Prop := bytes_ok (gcAuthority c) /\ bytes_ok (gcServiceName c).
(** JSON that was read and written reads as itself. *)
Definition xhttpOk (c : splitHTTPConfig) : Prop :=
  bytes_ok (shHost c) /\ bytes_ok (shPath c) /\ bytes_ok (shMode c) /\
  optOk (fun t => bytes_ok t /\ t <> [] /\ extraText t = Some t) (shExtra c ≫= extraText).
Definition finalMaskOk (fm : finalMask) : Prop :=
  bytes_ok (marshalFinalMask fm) /\ marshalFinalMask fm <> [] /\ unmarshalFinalMask (marshalFinalMask fm) = Some (Some fm).

Definition streamOk (ss : streamConfig) : Prop :=
  let network := default (str "raw") (scNetwork ss) in
  bytes_ok network /\ is_Some (networkBuild network) /\ network <> str "hysteria" /\ bytes_ok (scSecurity ss) /\
  optOk tlsOk (scTLS ss) /\ optOk realityOk (scREALITY ss) /\ optOk (optOk (optOk rawOk)) (scRAW ss) /\ optOk kcpOk (scKCP ss) /\
  optOk hostPathOk (scWS ss) /\ optOk grpcOk (scGRPC ss) /\ optOk hostPathOk (scHTTPUPGRADE ss) /\ optOk xhttpOk (scXHTTP ss) /\
  optOk finalMaskOk (scFinalMask ss).
End carried.

(** ** Queries of fixed keys

    [Q kvs] is the query with those of the pairs that have a value. *)
Abbreviation keyVals := (list (string * bytes)).
Definition optPairs (kvs : keyVals) : list (bytes * bytes) := kvs ≫= fun kv => optPair kv.1 kv.2.
Definition Q (kvs : keyVals) : bytes := Enc (optPairs kvs).
Definition kvsOk (kvs : keyVals) : Prop := Forall (fun kv => bytes_ok kv.2) kvs.
Fixpoint find (k : string) (kvs : keyVals) : bytes :=
  match kvs with
  | [] => []
  | (k', v) :: kvs => if String.eqb k' k && nonEmpty v then v else find k kvs
  end.

Lemma str_inj a b : str a = str b -> a = b.
Proof.
  revert b. induction a as [|c a IH]; intros [|d b]; try done. cbn. intros [= H1 H2].
  apply N2Z.inj in H1. apply (f_equal ascii_of_N) in H1. rewrite !ascii_N_embedding in H1. by rewrite H1, (IH b).
Qed.

Lemma optPairs_app a b : optPairs (a ++ b) = optPairs a ++ optPairs b.
Proof. apply bind_app. Qed.

Lemma pairsOk_kvs kvs : kvsOk kvs -> pairsOk (optPairs kvs).
Proof. intros Hk. induction Hk as [|[k v] kvs Hv _ IH]; [constructor|]. cbn. apply Forall_app. split; [by apply pairsOk_opt|done]. Qed.

Lemma getKey_find k kvs : getKey (str k) (optPairs kvs) = find k kvs.
Proof.
  induction kvs as [|[k' v] kvs IH]; [done|]. cbn [optPairs mbind list_bind find fst snd]. rewrite getKey_opt. fold (optPairs kvs).
  rewrite <- IH. destruct (String.eqb_spec k' k) as [->|Hne]; [by rewrite bool_decide_eq_true_2|].
  rewrite bool_decide_eq_false_2; [done|]. by intros ?%str_inj.
Qed.

Lemma find_app k a b : find k (a ++ b) = if nonEmpty (find k a) then find k a else find k b.
Proof. induction a as [|[k' v] a IH]; [done|]. cbn. destruct (String.eqb k' k); cbn; [|done]. by destruct (nonEmpty v) eqn:e; cbn; rewrite ?e. Qed.

Lemma find_app_none k a b : find k a = [] -> find k (a ++ b) = find k b.
Proof. intros Ha. by rewrite find_app, Ha. Qed.

Lemma find_app_last k a b : find k b = [] -> find k (a ++ b) = find k a.
Proof. intros Hb. rewrite find_app, Hb. unfold nonEmpty. by case_bool_decide. Qed.

Lemma ne_id (s : bytes) : (if nonEmpty s then s else []) = s.
Proof. unfold nonEmpty. by case_bool_decide. Qed.

Lemma addText_Q k v kvs : kvsOk kvs -> addText k v (Q kvs) = Q (kvs ++ [(k, v)]).
Proof. intros Hk. unfold Q. rewrite addText_Enc by (by apply pairsOk_kvs). rewrite optPairs_app. cbn. by rewrite app_nil_r. Qed.

Lemma addQuery_Q k v kvs : kvsOk kvs -> v <> [] -> addQuery (Q kvs) k v = Q (kvs ++ [(k, v)]).
Proof.
  intros Hk Hv. rewrite <- addText_Q by done. unfold addText, nonEmpty. by rewrite bool_decide_eq_false_2.
Qed.

Lemma kvsOk_app a b : kvsOk a -> kvsOk b -> kvsOk (a ++ b).
Proof. intros. by apply Forall_app. Qed.
Lemma kvsOk_one k v : bytes_ok v -> kvsOk [(k, v)].
Proof. intros. by repeat constructor. Qed.

Lemma valuesGet_Q k kvs : valuesGet (addPairs (optPairs kvs) ∅) (str k) = find k kvs.
Proof. rewrite valuesGet_addPairs, lookup_empty. apply getKey_find. Qed.

Lemma Query_Q link kvs : kvsOk kvs -> uRawQuery link = Q kvs -> Query link = addPairs (optPairs kvs) ∅.
Proof. intros Hk Hq. unfold Query. rewrite Hq. unfold Q. by rewrite ParseQuery_Enc by (by apply pairsOk_kvs). Qed.

(** A function on queries adds these pairs. *)
Definition adds (f : bytes -> bytes) (new : keyVals) : Prop := kvsOk new /\ forall kvs, kvsOk kvs -> f (Q kvs) = Q (kvs ++ new).

Lemma adds_id : adds (fun q => q) [].
Proof. split; [constructor|]. intros kvs _. by rewrite app_nil_r. Qed.
Lemma adds_text k v : bytes_ok v -> adds (addText k v) [(k, v)].
Proof. intros Hv. split; [by apply kvsOk_one|]. intros. by apply addText_Q. Qed.
Lemma adds_query k v : bytes_ok v -> v <> [] -> adds (fun q => addQuery q k v) [(k, v)].
Proof. intros Hv Hne. split; [by apply kvsOk_one|]. intros. by apply addQuery_Q. Qed.
Lemma adds_comp f g a b : adds f a -> adds g b -> adds (fun q => g (f q)) (a ++ b).
Proof.
  intros [Ha Hf] [Hb Hg]. split; [by apply kvsOk_app|]. intros kvs Hk. by rewrite Hf, Hg, <- app_assoc by (done || by apply kvsOk_app).
Qed.

(** *** Lists joined by commas *)
Lemma joinByte_ok c l : is_u8 c -> Forall bytes_ok l -> bytes_ok (joinByte c l).
Proof. intros Hc Hl. by apply joinByte_Forall. Qed.

Lemma listOk_bytes l : listOk l -> bytes_ok (joinByte 44 l).
Proof. intros [Hl _]. apply joinByte_ok; [done|]. eapply Forall_impl; [exact Hl|]. by intros s [? _]. Qed.

Lemma joinByte_nil l : listOk l -> joinByte 44 l = [] -> l = [].
Proof.
  intros [_ Hne] He. destruct l as [|s [|s2 l]]; [done| |].
  - unfold joinByte in He. cbn in He. rewrite app_nil_r in He. by subst.
  - unfold joinByte in He. cbn in He. by apply app_eq_nil in He as [_ ?].
Qed.

Lemma splitALPN_join l : listOk l -> splitALPN (joinByte 44 l) = someList (Some l).
Proof.
  intros Hl. unfold splitALPN, nonEmpty. case_bool_decide as e.
  - by apply joinByte_nil in e as ->.
  - destruct l as [|s l]; [done|]. cbn [negb someList]. f_equal. apply splitByte_joinByte; [done|].
    destruct Hl as [Hl _]. eapply Forall_impl; [exact Hl|]. by intros x [_ ?].
Qed.

Lemma splitNonEmpty_join l : listOk l -> splitNonEmpty (joinByte 44 l) = l.
Proof.
  intros Hl. unfold splitNonEmpty, nonEmpty. case_bool_decide as e; cbn [negb].
  - by apply joinByte_nil in e as ->.
  - destruct l as [|s l]; [done|]. apply splitByte_joinByte; [done|]. destruct Hl as [Hl _].
    eapply Forall_impl; [exact Hl|]. by intros x [_ ?].
Qed.

Lemma adds_list k l : listOk l -> adds (addList k l) [(k, joinByte 44 l)].
Proof.
  intros Hl. split; [by apply kvsOk_one, listOk_bytes|]. intros kvs Hk. unfold addList. case_bool_decide as e.
  - subst l. unfold Q. rewrite optPairs_app. cbn. by rewrite !app_nil_r.
  - apply addQuery_Q; [done|]. by intros ?%joinByte_nil.
Qed.

Lemma adds_ext f g a : (forall q, f q = g q) -> adds f a -> adds g a.
Proof. intros He [Ha Hf]. split; [done|]. intros kvs Hk. by rewrite <- He, Hf. Qed.

(** A missing part adds pairs without value. *)
Lemma adds_empty f new : adds f [] -> Forall (fun kv => kv.2 = []) new -> adds f new.
Proof.
  intros [_ Hf] Hn. split; [eapply Forall_impl; [exact Hn|]; intros kv ->; constructor|]. intros kvs Hk. rewrite Hf, app_nil_r by done.
  unfold Q. rewrite optPairs_app. replace (optPairs new) with (@nil (bytes * bytes)); [by rewrite app_nil_r|].
  symmetry. clear Hf. induction Hn as [|[k v] new Hv _ IH]; [done|]. cbn in Hv. subst v. exact IH.
Qed.

Definition joined (l : option (list bytes)) : bytes := joinByte 44 (default [] l).

Lemma Q_empty k kvs : Q (kvs ++ [(k, [])]) = Q kvs.
Proof. unfold Q. rewrite optPairs_app. cbn. by rewrite app_nil_r. Qed.

Lemma joined_ok l : optOk listOk l -> bytes_ok (joined l).
Proof. destruct l as [l|]; [apply listOk_bytes|constructor]. Qed.

Lemma optList_Q k o kvs : optOk listOk o -> kvsOk kvs -> match o with Some l => addList k l (Q kvs) | None => Q kvs end = Q (kvs ++ [(k, joined o)]).
Proof. intros Ho Hk. destruct o as [l|]; [by apply adds_list|by rewrite Q_empty]. Qed.

Lemma optText_Q k o kvs : kvsOk kvs -> match o with Some v => addText k v (Q kvs) | None => Q kvs end = Q (kvs ++ [(k, default [] o)]).
Proof. intros Hk. destruct o as [v|]; [by apply addText_Q|by rewrite Q_empty]. Qed.

Lemma flag_Q (b : bool) k v kvs : kvsOk kvs -> v <> [] -> (if b then addQuery (Q kvs) k v else Q kvs) = Q (kvs ++ [(k, if b then v else [])]).
Proof. intros Hk Hv. destruct b; [by apply addQuery_Q|by rewrite Q_empty]. Qed.

Ltac kvs_ok := repeat first [assumption | apply kvsOk_app | apply kvsOk_one | apply str_ok | apply joined_ok | apply Forall_cons; split | apply Forall_nil_2].
Ltac q_steps :=
  repeat first [rewrite addText_Q by kvs_ok | rewrite optList_Q by kvs_ok | rewrite optText_Q by kvs_ok
               | rewrite flag_Q by (done || kvs_ok) | rewrite addQuery_Q by (done || kvs_ok)];
  by rewrite <- ?app_assoc.

(** ** The query of the stream settings *)
Section stream.
Context `{ShareJson}.

Definition restKvs (t : tlsConfig) : keyVals :=
  [("alpn", joined (tlsALPN t)); ("ech", tlsECHConfigList t); ("pcs", tlsPinnedPeerCertSha256 t);
   ("vcn", tlsVerifyPeerCertByName t); ("insecure", if tlsAllowInsecure t then str "1" else [])]%string.
Definition rawKvs (c : tcpConfig) : keyVals :=
  match c with
  | Some (Some h) =>
      if nonEmpty (rhType h) then
        [("headerType", rhType h); ("path", joined (rqPath <$> rhRequest h)); ("host", joined (rhRequest h ≫= rqHost))]%string
      else []
  | _ => []
  end.
Definition kcpKvs (c : kcpConfig) : keyVals :=
  [("seed", default [] (kcpSeed c)); ("headerType", match kcpHeader c with Some (Some t) => t | _ => [] end)]%string.
Definition grpcKvs (c : grpcConfig) : keyVals :=
  [("mode", str (if gcMultiMode c then "multi" else "gun")); ("serviceName", gcServiceName c); ("authority", gcAuthority c)]%string.
Definition xhttpKvs (c : splitHTTPConfig) : keyVals :=
  [("host", shHost c); ("path", shPath c); ("mode", shMode c); ("extra", default [] (shExtra c ≫= extraText))]%string.
Definition hostKvs (c : hostPath) : keyVals := [("host", hpHost c); ("path", hpPath c)]%string.
Definition pathKvs (c : hostPath) : keyVals := [("path", hpPath c); ("host", hpHost c)]%string.

Definition optKvs {A} (o : option A) (f : A -> keyVals) : keyVals := match o with Some a => f a | None => [] end.
Definition netKvs (network : bytes) (ss : streamConfig) : keyVals :=
  if bool_decide (network = str "raw") then optKvs (scRAW ss) rawKvs
  else if bool_decide (network = str "kcp") then optKvs (scKCP ss) kcpKvs
  else if bool_decide (network = str "ws") then optKvs (scWS ss) pathKvs
  else if bool_decide (network = str "grpc") then optKvs (scGRPC ss) grpcKvs
  else if bool_decide (network = str "httpupgrade") then optKvs (scHTTPUPGRADE ss) hostKvs
  else if bool_decide (network = str "xhttp") then optKvs (scXHTTP ss) xhttpKvs
  else [].
Definition tlsKvs (t : tlsConfig) : keyVals := [("fp", tlsFingerprint t); ("sni", tlsServerName t)]%string ++ restKvs t.
Definition realityKvs (r : realityConfig) : keyVals :=
  [("fp", rlFingerprint r); ("sni", rlServerName r); ("pbk", rlPassword r); ("sid", rlShortId r); ("pqv", rlMldsa65Verify r); ("spx", rlSpiderX r)]%string.
Definition secKvs (security : bytes) (ss : streamConfig) : keyVals :=
  if bool_decide (security = str "tls") then optKvs (scTLS ss) tlsKvs
  else if bool_decide (security = str "reality") then optKvs (scREALITY ss) realityKvs
  else [].
Definition fmKvs (fm : option finalMask) : keyVals := optKvs fm (fun fm => [("fm"%string, marshalFinalMask fm)]).
Definition writtenSecurity (ss : streamConfig) : bytes := if bool_decide (scSecurity ss = []) then str "none" else scSecurity ss.
Definition netOf (ss : streamConfig) : bytes := default (str "raw") (scNetwork ss).
Definition streamKvs (ss : streamConfig) : keyVals :=
  [("type"%string, netOf ss); ("security"%string, writtenSecurity ss)] ++ netKvs (netOf ss) ss ++ secKvs (writtenSecurity ss) ss ++ fmKvs (scFinalMask ss).

Lemma adds_onSome {A} (P : A -> Prop) o f g : optOk P o -> (forall a, P a -> adds (f a) (g a)) -> adds (onSome o f) (optKvs o g).
Proof. intros Ho Hf. destruct o as [a|]; [by apply Hf|apply adds_id]. Qed.

Lemma adds_rest t : tlsOk t -> adds (tlsRestQuery t) (restKvs t).
Proof.
  intros (_ & _ & He & Hp & Hv & Hl). split; [unfold restKvs; kvs_ok; destruct (tlsAllowInsecure t); kvs_ok|].
  intros kvs Hk. unfold tlsRestQuery, restKvs. q_steps.
Qed.

Lemma adds_tls t : tlsOk t ->
  adds (fun q => tlsRestQuery t (addText "sni" (tlsServerName t) (addText "fp" (tlsFingerprint t) q))) (tlsKvs t).
Proof.
  intros Ht. pose proof Ht as (Hs & Hf & _). destruct (adds_rest t Ht) as [Hr1 Hr2]. split; [unfold tlsKvs; kvs_ok|].
  intros kvs Hk. rewrite !addText_Q, Hr2 by kvs_ok. unfold tlsKvs. by rewrite <- !app_assoc.
Qed.

Lemma adds_reality r : realityOk r ->
  adds (fun q => addText "spx" (rlSpiderX r) (addText "pqv" (rlMldsa65Verify r) (addText "sid" (rlShortId r) (addText "pbk" (rlPassword r)
        (addText "sni" (rlServerName r) (addText "fp" (rlFingerprint r) q)))))) (realityKvs r).
Proof. intros (? & ? & ? & ? & ? & ?). split; [unfold realityKvs; kvs_ok|]. intros kvs Hk. unfold realityKvs. q_steps. Qed.

Lemma adds_security security ss : optOk tlsOk (scTLS ss) -> optOk realityOk (scREALITY ss) -> adds (securityQuery security ss) (secKvs security ss).
Proof.
  intros Ht Hr. unfold securityQuery, secKvs. case_bool_decide; [by apply (adds_onSome tlsOk); [|apply adds_tls]|].
  case_bool_decide; [by apply (adds_onSome realityOk); [|apply adds_reality]|apply adds_id].
Qed.

Lemma adds_raw c : optOk (optOk rawOk) c -> adds (rawQuery c) (rawKvs c).
Proof.
  destruct c as [[h|]|]; cbn [optOk]; intros Hc; [|apply adds_id..]. unfold rawQuery, rawKvs. destruct Hc as [Ht Hr].
  destruct (nonEmpty (rhType h)) eqn:e; [|apply adds_id]. unfold nonEmpty in e. apply negb_true_iff, bool_decide_eq_false in e.
  destruct (rhRequest h) as [r|]; cbn [fmap option_fmap option_map mbind option_bind].
  - destruct Hr as [Hp Hh]. split; [kvs_ok; by apply joined_ok|]. intros kvs Hk.
    rewrite addQuery_Q, (proj2 (adds_list "path" _ Hp)), optList_Q by (done || kvs_ok; by apply listOk_bytes). by rewrite <- !app_assoc.
  - split; [kvs_ok; constructor|]. intros kvs Hk. rewrite addQuery_Q by done.
    rewrite <- (Q_empty "path" (kvs ++ _)), <- (Q_empty "host" ((kvs ++ _) ++ _)). by rewrite <- !app_assoc.
Qed.

Lemma adds_kcp c : kcpOk c -> adds (kcpQuery c) (kcpKvs c).
Proof.
  intros [Hs Hh]. unfold kcpQuery, kcpKvs. split.
  - apply Forall_cons; split; [destruct (kcpSeed c); [done|constructor]|]. apply kvsOk_one. destruct (kcpHeader c) as [[|]|]; [done|constructor..].
  - intros kvs Hk. rewrite optText_Q by done. assert (Hk2 : kvsOk (kvs ++ [("seed"%string, default [] (kcpSeed c))])).
    { kvs_ok. destruct (kcpSeed c); [done|constructor]. }
    destruct (kcpHeader c) as [[t|]|]; [by rewrite addText_Q, <- app_assoc|..]; rewrite <- (Q_empty "headerType" (kvs ++ _)); by rewrite <- app_assoc.
Qed.

Lemma adds_xhttp c : xhttpOk c -> adds (xhttpQuery c) (xhttpKvs c).
Proof.
  intros (Hh & Hp & Hm & Hx). unfold xhttpQuery, xhttpKvs. destruct (shExtra c ≫= extraText) as [e|].
  - destruct Hx as (? & ? & _). split; [kvs_ok|]. intros kvs Hk. q_steps.
  - split; [kvs_ok; constructor|]. intros kvs Hk. rewrite !addText_Q by kvs_ok. rewrite <- (Q_empty "extra" (((kvs ++ _) ++ _) ++ _)). by rewrite <- !app_assoc.
Qed.

Lemma adds_hosts c : hostPathOk c ->
  adds (fun q => addText "host" (hpHost c) (addText "path" (hpPath c) q)) (pathKvs c) /\
  adds (fun q => addText "path" (hpPath c) (addText "host" (hpHost c) q)) (hostKvs c).
Proof. intros [Hh Hp]. split; (split; [unfold pathKvs, hostKvs; kvs_ok|]; intros kvs Hk; unfold pathKvs, hostKvs; q_steps). Qed.

Lemma adds_grpc c : grpcOk c -> adds (grpcQuery c) (grpcKvs c).
Proof.
  intros [Ha Hs]. split; [unfold grpcKvs; kvs_ok|]. intros kvs Hk. unfold grpcQuery, grpcKvs.
  rewrite addQuery_Q by (done || by destruct (gcMultiMode c)). rewrite !addText_Q by kvs_ok. by rewrite <- !app_assoc.
Qed.

Lemma adds_network network ss : streamOk ss -> adds (networkQuery network ss) (netKvs network ss).
Proof.
  intros (_ & _ & _ & _ & _ & _ & Hraw & Hkcp & Hws & Hgrpc & Hhu & Hx & _). unfold networkQuery, netKvs.
  repeat (case_bool_decide; [eapply adds_onSome; [eassumption|]|]);
    [exact adds_raw|exact adds_kcp|apply adds_hosts|exact adds_grpc|apply adds_hosts|exact adds_xhttp|apply adds_id].
Qed.

Lemma writtenSecurity_ne ss : writtenSecurity ss <> [].
Proof. unfold writtenSecurity. by case_bool_decide. Qed.

Lemma netOf_ne ss : streamOk ss -> netOf ss <> [].
Proof. intros (_ & [n Hn] & _) He. unfold netOf in He. by rewrite He in Hn. Qed.

(** [streamSettingsQuery] on a link whose query is [Q kvs]. *)
Lemma streamSettingsQuery_Q ob ss link kvs :
  obStream ob = Some ss -> streamOk ss -> kvsOk kvs -> uRawQuery link = Q kvs ->
  streamSettingsQuery ob link = link <| uRawQuery := Q (kvs ++ streamKvs ss) |> /\ kvsOk (streamKvs ss).
Proof.
  intros Hob Hss Hk Hq. unfold streamSettingsQuery. rewrite Hob. fold (netOf ss). fold (writtenSecurity ss).
  pose proof Hss as (Hn & _ & Hh & Hsec & Ht & Hr & _ & _ & _ & _ & _ & _ & Hfm). rewrite bool_decide_eq_false_2 by done.
  assert (Hadds : adds (fun q => onSome (scFinalMask ss) (fun fm q => addQuery q "fm" (marshalFinalMask fm))
    (securityQuery (writtenSecurity ss) ss (networkQuery (netOf ss) ss (addQuery (addQuery q "type" (netOf ss)) "security" (writtenSecurity ss)))))
    (streamKvs ss)).
  { destruct (adds_network (netOf ss) ss Hss) as [Hn1 Hn2], (adds_security (writtenSecurity ss) ss Ht Hr) as [Hs1 Hs2].
    assert (Hw : bytes_ok (writtenSecurity ss)) by (unfold writtenSecurity; case_bool_decide; [apply str_ok|done]).
    assert (Hf : adds (onSome (scFinalMask ss) (fun fm q => addQuery q "fm" (marshalFinalMask fm))) (fmKvs (scFinalMask ss))).
    { eapply adds_onSome; [exact Hfm|]. intros fm (? & ? & _). by apply adds_query. }
    destruct Hf as [Hf1 Hf2]. split; [unfold streamKvs; kvs_ok|]. intros l Hl.
    rewrite (addQuery_Q "type"), (addQuery_Q "security") by (kvs_ok || apply writtenSecurity_ne || by apply netOf_ne).
    rewrite Hn2, Hs2, Hf2 by kvs_ok. unfold streamKvs. by rewrite <- !app_assoc. }
  destruct Hadds as [Hok Hadds]. rewrite Hq, Hadds by done. done.
Qed.
End stream.
