(* ===== verification/ShareRound.v ===== *)
(** * A share link carries its outbound

    Reading the queries back, the six protocols, whole texts ([links_roundtrip]),
    and the texts on which reading panics ([share_lines_panic]). *)

From stdpp Require Import base numbers list gmap strings.
From Stdlib Require Import ZArith Lia Ascii.
From S2P Require Import Prelude GoStrings NetIP GoNet GoNetThm Obf PrConfigThm PrUapiThm GoUrl Share ShareThm.

Section parse.
Context `{ShareJson}.

(** ** Reading the query back *)
Definition keysIn (keys : list string) (kvs : keyVals) : Prop := Forall (fun kv => kv.1 ∈ keys) kvs.

Lemma find_none k keys kvs : keysIn keys kvs -> bool_decide (k ∈ keys) = false -> find k kvs = [].
Proof.
  intros Hk Hn. apply bool_decide_eq_false in Hn. induction Hk as [|[k' v] kvs Hk' _ IH]; [done|]. cbn in *.
  destruct (String.eqb_spec k' k) as [->|]; [done|]. exact IH.
Qed.

Definition netKeys : list string := ["headerType"; "path"; "host"; "seed"; "authority"; "serviceName"; "mode"; "extra"]%string.
Definition secKeys : list string := ["fp"; "sni"; "alpn"; "ech"; "pcs"; "vcn"; "insecure"; "pbk"; "sid"; "pqv"; "spx"]%string.
Definition baseKeys : list string := ["flow"; "encryption"]%string.

#[local] Ltac keys_in := repeat first [apply Forall_nil_2 | apply Forall_cons; split; [apply (bool_decide_unpack _); exact I|]].

Lemma netKvs_keys network ss : keysIn netKeys (netKvs network ss).
Proof.
  unfold netKvs. repeat case_bool_decide; unfold optKvs; try case_match; try keys_in.
  unfold rawKvs. repeat case_match; keys_in.
Qed.

Lemma secKvs_keys security ss : keysIn secKeys (secKvs security ss).
Proof. unfold secKvs. repeat case_bool_decide; unfold optKvs; try case_match; keys_in. Qed.

Lemma fmKvs_keys fm : keysIn ["fm"%string] (fmKvs fm).
Proof. destruct fm; keys_in. Qed.

Lemma keys_apart (k : string) (keys others : list string) : bool_decide (k ∈ keys) = true ->
  forallb (fun x => negb (bool_decide (x ∈ keys))) others = true -> bool_decide (k ∈ others) = false.
Proof.
  intros Hk Ha. apply bool_decide_eq_false_2. intros Hin%list_elem_of_In. rewrite forallb_forall in Ha.
  apply Ha in Hin. by rewrite Hk in Hin.
Qed.

Lemma ne_false (s : bytes) : s <> [] -> nonEmpty s = true.
Proof. intros Hs. unfold nonEmpty. by rewrite bool_decide_eq_false_2. Qed.

Section finds.
Context (base : keyVals) (ss : streamConfig) (Hbase : keysIn baseKeys base).
#[local] Abbreviation kvs := (base ++ streamKvs ss).

Lemma find_type : netOf ss <> [] -> find "type" kvs = netOf ss.
Proof. intros Hn. rewrite find_app_none by (by eapply find_none). cbn. by rewrite ne_false. Qed.

Lemma find_security : find "security" kvs = writtenSecurity ss.
Proof. rewrite find_app_none by (by eapply find_none). cbn. by rewrite ne_false by apply writtenSecurity_ne. Qed.

Lemma find_net k : bool_decide (k ∈ netKeys) = true -> find k kvs = find k (netKvs (netOf ss) ss).
Proof.
  intros Hk. pose proof (fun keys => keys_apart k netKeys keys Hk) as Hd.
  rewrite find_app_none by (eapply find_none; [exact Hbase|by apply Hd]). unfold streamKvs.
  rewrite find_app_none by (apply (find_none _ ["type"; "security"]%string); [keys_in|by apply Hd]).
  apply find_app_last. rewrite find_app_none by (eapply find_none; [apply secKvs_keys|by apply Hd]).
  eapply find_none; [apply fmKvs_keys|by apply Hd].
Qed.

Lemma find_sec k : bool_decide (k ∈ secKeys) = true -> find k kvs = find k (secKvs (writtenSecurity ss) ss).
Proof.
  intros Hk. pose proof (fun keys => keys_apart k secKeys keys Hk) as Hd.
  rewrite find_app_none by (eapply find_none; [exact Hbase|by apply Hd]). unfold streamKvs.
  rewrite find_app_none by (apply (find_none _ ["type"; "security"]%string); [keys_in|by apply Hd]).
  rewrite find_app_none by (eapply find_none; [apply netKvs_keys|by apply Hd]).
  apply find_app_last. eapply find_none; [apply fmKvs_keys|by apply Hd].
Qed.

Lemma find_fm : find "fm" kvs = find "fm" (fmKvs (scFinalMask ss)).
Proof.
  rewrite find_app_none by (by eapply find_none). unfold streamKvs.
  rewrite find_app_none by (by apply (find_none _ ["type"; "security"]%string); [keys_in|]).
  rewrite find_app_none by (by eapply find_none; [apply netKvs_keys|]).
  by rewrite find_app_none by (by eapply find_none; [apply secKvs_keys|]).
Qed.

Lemma find_base k : bool_decide (k ∈ baseKeys) = true -> find k kvs = find k base.
Proof.
  intros Hk. pose proof (fun keys => keys_apart k baseKeys keys Hk) as Hd.
  apply find_app_last. unfold streamKvs.
  rewrite find_app_none by (apply (find_none _ ["type"; "security"]%string); [keys_in|by apply Hd]).
  rewrite find_app_none by (eapply find_none; [apply netKvs_keys|by apply Hd]).
  rewrite find_app_none by (eapply find_none; [apply secKvs_keys|by apply Hd]). eapply find_none; [apply fmKvs_keys|by apply Hd].
Qed.
End finds.

(** ** The transport *)
Definition fieldsOf (network : bytes) (kvs : keyVals) (fm : bytes) : shareTransportFields :=
  mkFields network (find "headerType" kvs) (find "path" kvs) (find "host" kvs) (find "seed" kvs) (find "authority" kvs)
    (find "serviceName" kvs) (bool_decide (find "mode" kvs = str "multi")) (find "mode" kvs) (find "extra" kvs) fm.

Lemma orRaw_ne n : n <> [] -> orRaw n = n.
Proof. intros Hn. unfold orRaw. by rewrite bool_decide_eq_false_2. Qed.

Lemma fields_read base ss : keysIn baseKeys base -> netOf ss <> [] ->
  transportFieldsFromURLQuery (addPairs (optPairs (base ++ streamKvs ss)) ∅) =
  fieldsOf (netOf ss) (netKvs (netOf ss) ss) (find "fm" (fmKvs (scFinalMask ss))).
Proof.
  intros Hb Hn. unfold transportFieldsFromURLQuery, fieldsOf. rewrite !valuesGet_Q, find_type, find_fm, !find_net by done.
  f_equal. by apply orRaw_ne.
Qed.

Lemma buildRaw_read c fm : optOk (optOk (optOk rawOk)) c ->
  buildRaw (fieldsOf (str "raw") (optKvs c rawKvs) fm) = carriedRaw c.
Proof.
  intros Hc. destruct c as [[[h|]|]|]; try done. destruct Hc as [Ht Hr]. unfold buildRaw, carriedRaw, fieldsOf. cbn [optKvs rawKvs].
  destruct (nonEmpty (rhType h)) eqn:e; cbn [find String.eqb Ascii.eqb Bool.eqb andb tfHeaderType tfPath tfHost].
  - rewrite !ne_id. case_bool_decide as eh; [|done]. do 4 f_equal.
    destruct (rhRequest h) as [r|]; cbn [default fmap option_fmap option_map mbind option_bind rqPath rqHost]; [|done].
    destruct Hr as [Hp Hh]. do 2 f_equal; [by apply splitNonEmpty_join|]. cbn [id].
    destruct (rqHost r) as [l|]; [|done]. pose proof (splitALPN_join l Hh) as Hl. exact Hl.
  - rewrite bool_decide_eq_false_2 by done. unfold nonEmpty in e. apply negb_false_iff, bool_decide_eq_true in e. by rewrite e.
Qed.

Lemma buildKcp_read c fm : buildKcp (fieldsOf (str "kcp") (optKvs c kcpKvs) fm) = carriedKcp c.
Proof.
  destruct c as [c|]; [|done]. unfold buildKcp, carriedKcp, fieldsOf, kcpKvs. cbn [optKvs mbind option_bind].
  cbn [find String.eqb Ascii.eqb Bool.eqb andb tfHeaderType tfSeed]. rewrite !ne_id. f_equal.
  destruct (kcpHeader c) as [[t|]|]; [|done..]. unfold nonEmpty. by case_bool_decide.
Qed.

Lemma buildXhttp_read c fm : optOk xhttpOk c -> buildXhttp (fieldsOf (str "xhttp") (optKvs c xhttpKvs) fm) = Done (carriedXhttp c).
Proof.
  intros Hc. destruct c as [c|]; [|done]. destruct Hc as (_ & _ & _ & Hx). unfold buildXhttp, carriedXhttp, fieldsOf, xhttpKvs. cbn [optKvs].
  cbn [find String.eqb Ascii.eqb Bool.eqb andb tfExtraJSON tfHost tfPath tfXHTTPMode]. rewrite !ne_id.
  destruct (shExtra c ≫= extraText) as [e|]; [|done]. destruct Hx as (_ & Hne & Hid). cbn [default id]. rewrite ne_false, Hid by done. done.
Qed.

Lemma host_read c : 
  mkHostPath (find "host" (optKvs c pathKvs)) (find "path" (optKvs c pathKvs)) = default (mkHostPath [] []) c /\
  mkHostPath (find "host" (optKvs c hostKvs)) (find "path" (optKvs c hostKvs)) = default (mkHostPath [] []) c.
Proof. destruct c as [[h p]|]; [|done]. cbn. by rewrite !ne_id. Qed.

Lemma grpc_read c : mkGRPC (find "authority" (optKvs c grpcKvs)) (find "serviceName" (optKvs c grpcKvs))
  (bool_decide (find "mode" (optKvs c grpcKvs) = str "multi")) = default (mkGRPC [] [] false) c.
Proof. destruct c as [[a s m]|]; [|done]. cbn. rewrite !ne_id. by destruct m. Qed.

Lemma build_transport ss fm : streamOk ss ->
  buildTransport (netOf ss) (fieldsOf (netOf ss) (netKvs (netOf ss) ss) fm) = Done (carriedTransport (netOf ss) ss).
Proof.
  intros (_ & [p Hp] & _ & _ & _ & _ & Hraw & Hkcp & Hws & Hgrpc & Hhu & Hx & _). fold (netOf ss) in Hp. revert Hp. generalize (netOf ss). intros n Hp.
  destruct (decide (n = str "raw")) as [->|H1].
  { transitivity (Done (emptyStream <| scNetwork := Some (str "raw") |> <| scRAW := buildRaw (fieldsOf (str "raw") (optKvs (scRAW ss) rawKvs) fm) |>)); [reflexivity|].
    by rewrite buildRaw_read. }
  destruct (decide (n = str "tcp")) as [->|H2]; [done|].
  destruct (decide (n = str "kcp")) as [->|H3].
  { transitivity (Done (emptyStream <| scNetwork := Some (str "kcp") |> <| scKCP := Some (buildKcp (fieldsOf (str "kcp") (optKvs (scKCP ss) kcpKvs) fm)) |>)); [reflexivity|].
    by rewrite buildKcp_read. }
  destruct (decide (n = str "mkcp")) as [->|H4]; [done|].
  destruct (decide (n = str "ws")) as [->|H5].
  { transitivity (Done (emptyStream <| scNetwork := Some (str "ws") |> <| scWS := Some (mkHostPath (find "host" (optKvs (scWS ss) pathKvs)) (find "path" (optKvs (scWS ss) pathKvs))) |>)); [reflexivity|].
    by rewrite (proj1 (host_read _)). }
  destruct (decide (n = str "websocket")) as [->|H6]; [done|].
  destruct (decide (n = str "grpc")) as [->|H7].
  { transitivity (let K := optKvs (scGRPC ss) grpcKvs in Done (emptyStream <| scNetwork := Some (str "grpc") |>
      <| scGRPC := Some (mkGRPC (find "authority" K) (find "serviceName" K) (bool_decide (find "mode" K = str "multi"))) |>)); [reflexivity|].
    cbv zeta. by rewrite grpc_read. }
  destruct (decide (n = str "httpupgrade")) as [->|H8].
  { transitivity (Done (emptyStream <| scNetwork := Some (str "httpupgrade") |> <| scHTTPUPGRADE := Some (mkHostPath (find "host" (optKvs (scHTTPUPGRADE ss) hostKvs)) (find "path" (optKvs (scHTTPUPGRADE ss) hostKvs))) |>)); [reflexivity|].
    by rewrite (proj2 (host_read _)). }
  destruct (decide (n = str "xhttp")) as [->|H9].
  { transitivity (x ← buildXhttp (fieldsOf (str "xhttp") (optKvs (scXHTTP ss) xhttpKvs) fm); Done (emptyStream <| scNetwork := Some (str "xhttp") |> <| scXHTTP := Some x |>)); [reflexivity|].
    by rewrite buildXhttp_read. }
  destruct (decide (n = str "splithttp")) as [->|H10]; [done|].
  assert (H11 : n <> str "gun") by (intros ->; done).
  unfold buildTransport, carriedTransport.
  repeat (rewrite bool_decide_eq_false_2; [|first [done|rewrite !not_elem_of_cons; split_and!; [done..|apply not_elem_of_nil]]]). done.
Qed.

Lemma carriedTransport_parts n ss :
  scNetwork (carriedTransport n ss) = Some n /\ scFinalMask (carriedTransport n ss) = None /\
  (scWS (carriedTransport n ss) = None \/ n = str "ws" \/ n = str "websocket").
Proof. unfold carriedTransport. repeat case_bool_decide; split_and!; try done; auto. Qed.

Lemma set_fm_same s : scFinalMask s = None -> s <| scFinalMask := None |> = s.
Proof. intros Hs. destruct s. cbn in Hs. by subst. Qed.

Lemma build_stream base ss : keysIn baseKeys base -> streamOk ss ->
  buildStreamFromTransportFields (transportFieldsFromURLQuery (addPairs (optPairs (base ++ streamKvs ss)) ∅)) =
  Done (carriedTransport (netOf ss) ss <| scFinalMask := scFinalMask ss |>).
Proof.
  intros Hb Hs. pose proof (netOf_ne ss Hs) as Hn. rewrite fields_read by done. unfold buildStreamFromTransportFields.
  change (tfNetwork (fieldsOf (netOf ss) (netKvs (netOf ss) ss) (find "fm" (fmKvs (scFinalMask ss))))) with (netOf ss).
  rewrite orRaw_ne, build_transport by done. cbn [mbind outcome_bind].
  unfold fieldsOf. cbn [tfFMJSON]. do 12 apply proj2 in Hs. rename Hs into Hfm.
  destruct (scFinalMask ss) as [fm|]; cbn [fmKvs optKvs find String.eqb].
  - destruct Hfm as (_ & Hne & Hun). cbn [Ascii.eqb Bool.eqb andb]. rewrite ne_id, ne_false, Hun by done. done.
  - cbn. rewrite set_fm_same; [done|]. apply carriedTransport_parts.
Qed.

(** ** The security *)
Definition tlsRead (kvs : keyVals) : tlsConfig :=
  mkTLS (find "sni" kvs) (splitALPN (find "alpn" kvs)) (find "fp" kvs) (find "ech" kvs) (find "pcs" kvs) (find "vcn" kvs)
    (bool_decide (find "insecure" kvs = str "1")).
Definition realityRead (kvs : keyVals) : realityConfig :=
  mkReality (find "fp" kvs) (find "sni" kvs) (find "pbk" kvs) (find "pbk" kvs) (find "sid" kvs) (find "pqv" kvs) (find "spx" kvs).

Lemma joined_split o : optOk listOk o -> splitALPN (joined o) = someList o.
Proof. destruct o as [l|]; [apply splitALPN_join|done]. Qed.

Lemma tls_read t : optOk tlsOk t -> tlsRead (optKvs t tlsKvs) = carriedTLS t.
Proof.
  destruct t as [t|]; [|done]. intros (_ & _ & _ & _ & _ & Hl). unfold tlsRead. cbn. rewrite !ne_id, joined_split by done.
  destruct t as [sn al fp ec pc vc ins]. cbn. by destruct ins.
Qed.

Lemma reality_read r : realityRead (optKvs r realityKvs) = carriedReality r.
Proof. destruct r as [r|]; [|done]. unfold realityRead. cbn. by rewrite !ne_id. Qed.

Lemma websocketName_host ss p t : (scWS ss = None \/ p = str "websocket") -> websocketName ss p t = withHost (scWS ss) t.
Proof.
  intros Hp. unfold websocketName, withHost. destruct (scWS ss) as [ws|]; [|done]. destruct Hp as [?| ->]; [done|].
  rewrite bool_decide_eq_true_2 by done. cbn [andb]. case_bool_decide as e; cbn [andb]; [|done].
  unfold nonEmpty. case_bool_decide as e2; cbn; [|done]. rewrite e2. destruct t. cbn in e. by subst.
Qed.

(** [security], as [parseSecurityFromURL] and the model of a link set it. *)
Definition secured (trojan : bool) (ss s : streamConfig) : streamConfig :=
  let written := writtenSecurity ss in
  let security := if trojan && bool_decide (written = str "none") then str "tls" else written in
  let s := s <| scSecurity := security |> in
  if bool_decide (security = str "tls") then
    s <| scTLS := Some (withHost (scWS s) (carriedTLS (if bool_decide (written = str "tls") then scTLS ss else None))) |>
  else if bool_decide (security = str "reality") then s <| scREALITY := Some (carriedReality (scREALITY ss)) |>
  else s.

Lemma carriedStream_secured protocol ss :
  carriedStream protocol ss =
  secured (bool_decide (protocol = str "trojan")) ss (carriedTransport (netOf ss) ss <| scFinalMask := scFinalMask ss |>).
Proof. done. Qed.

Lemma security_read link base ss s p :
  keysIn baseKeys base -> streamOk ss -> Query link = addPairs (optPairs (base ++ streamKvs ss)) ∅ ->
  scNetwork s = Some (netOf ss) -> networkBuild (netOf ss) = Some p -> (scWS s = None \/ p = str "websocket") ->
  parseSecurityFromURL link s =
  Done (secured (bool_decide (uScheme link ∈ [str "trojan"; str "hysteria2"; str "hy2"])) ss s).
Proof.
  intros Hb Hs Hq Hn Hp Hws. unfold parseSecurityFromURL. rewrite Hq, !valuesGet_Q, find_security by done.
  rewrite (ne_false (writtenSecurity ss)) by apply writtenSecurity_ne. rewrite Hn. cbn [mbind option_bind]. rewrite Hp.
  cbn [orFail mbind outcome_bind]. rewrite !find_sec by done. rewrite websocketName_host by done.
  fold (tlsRead (secKvs (writtenSecurity ss) ss)). fold (realityRead (secKvs (writtenSecurity ss) ss)).
  unfold secured. pose proof Hs as (_ & _ & _ & _ & Ht & _).
  assert (Htls : tlsRead (secKvs (writtenSecurity ss) ss) = carriedTLS (if bool_decide (writtenSecurity ss = str "tls") then scTLS ss else None) \/ writtenSecurity ss = str "reality").
  { unfold secKvs. case_bool_decide; [left; by apply tls_read|]. case_bool_decide; [by right|by left]. }
  set (sec := if _ && _ then str "tls" else writtenSecurity ss).
  destruct (bool_decide (sec = str "tls")) eqn:e1; [|destruct (bool_decide (sec = str "reality")) eqn:e2; [|done]].
  - destruct Htls as [-> |Hr]; [done|]. exfalso. apply bool_decide_eq_true in e1. unfold sec in e1. rewrite Hr in e1.
    by rewrite andb_false_r in e1.
  - apply bool_decide_eq_true in e2. assert (Hr : writtenSecurity ss = str "reality").
    { unfold sec in e2. by destruct (_ && _). }
    rewrite Hr. change (secKvs (str "reality") ss) with (optKvs (scREALITY ss) realityKvs). by rewrite reality_read.
Qed.
End parse.

Section link.
Context `{ShareJson}.

(** ** Stream settings of a link *)
Lemma stream_read link base ss protocol :
  keysIn baseKeys base -> kvsOk base -> streamOk ss -> uRawQuery link = Q (base ++ streamKvs ss) -> kvsOk (streamKvs ss) ->
  bool_decide (uScheme link ∈ [str "trojan"; str "hysteria2"; str "hy2"]) = bool_decide (protocol = str "trojan") ->
  streamSettings link = Done (Some (carriedStream protocol ss)).
Proof.
  intros Hb Hbo Hs Hq Hso Hsch. assert (HQ : Query link = addPairs (optPairs (base ++ streamKvs ss)) ∅) by (apply Query_Q; [by apply kvsOk_app|done]).
  unfold streamSettings. rewrite bool_decide_eq_false_2.
  2:{ intros He. pose proof (valuesGet_Q "type" (base ++ streamKvs ss)) as Hv. rewrite <- HQ, He, find_type in Hv; [|done|by apply netOf_ne].
      unfold valuesGet in Hv. rewrite lookup_empty in Hv. symmetry in Hv. by apply netOf_ne in Hv. }
  rewrite HQ, build_stream by done. cbn [mbind outcome_bind]. destruct (carriedTransport_parts (netOf ss) ss) as (Hn & Hf & Hw).
  pose proof Hs as (_ & [p Hp] & _). rewrite (security_read link base ss _ p); try done.
  - cbn [fmap outcome_fmap]. by rewrite carriedStream_secured, Hsch.
  - fold (netOf ss) in Hp. destruct Hw as [Hw|Hw]; [by left|right].
    destruct Hw as [Hw|Hw]; rewrite Hw in Hp; vm_compute in Hp; by injection Hp as <-.
Qed.

Lemma stream_read_none link : uRawQuery link = [] -> streamSettings link = Done None.
Proof. intros Hq. unfold streamSettings, Query. by rewrite Hq. Qed.

(** A query with the protocol's own keys only. *)
Lemma stream_read_base link base :
  keysIn baseKeys base -> kvsOk base -> uRawQuery link = Q base -> optPairs base <> [] ->
  bool_decide (uScheme link ∈ [str "trojan"; str "hysteria2"; str "hy2"]) = false ->
  streamSettings link = Done (Some (carriedStream [] emptyStream)).
Proof.
  intros Hb Hbo Hq Hne Hsch. assert (HQ := Query_Q link base Hbo Hq). unfold streamSettings.
  rewrite HQ, bool_decide_eq_false_2 by (by intros ?%addPairs_nil).
  assert (Hf : forall k, bool_decide (k ∈ baseKeys) = false -> find k base = []) by (intros k Hk; by eapply find_none).
  unfold transportFieldsFromURLQuery. rewrite !valuesGet_Q, !Hf by done.
  transitivity (Some <$> parseSecurityFromURL link (carriedTransport (str "raw") emptyStream)); [reflexivity|].
  unfold parseSecurityFromURL. rewrite HQ, Hsch. rewrite !valuesGet_Q, !Hf by done. reflexivity.
Qed.

(** ** The text of a link *)
Definition hostText (cs : clientSettings) : bytes := addressText (csAddress cs) ++ 58 :: itoa (csPort cs).
Definition linkText (sch ui : bytes) (cs : clientSettings) (kvs : keyVals) (name : bytes) : bytes :=
  sch ++ 58 :: str "//" ++ (ui ++ 64 :: hostText cs) ++ afterAuthority (Q kvs) name.

Definition csOk (cs : clientSettings) : Prop := optOk addrOk (csAddress cs) /\ is_Some (csAddress cs) /\ 0 <= csPort cs < 2 ^ 16.

Lemma hostText_ok cs : csOk cs -> hostNameOk (addressText (csAddress cs)).
Proof. intros (Ha & [a E] & _). rewrite E in *. cbn. by apply address_text. Qed.

Lemma parse_link sch ui user cs kvs name :
  schemeOk sch -> csOk cs -> Forall userByte ui \/ (exists s p, ui = s ++ 58 :: p /\ Forall userByte s /\ Forall userByte p) ->
  parseUserinfo ui = Some user -> kvsOk kvs -> bytes_ok name ->
  Parse (linkText sch ui cs kvs name) = Some (mkURL sch [] (Some user) (hostText cs) (Q kvs) name).
Proof.
  intros Hsch Hcs Hui Hu Hk Hname. pose proof (hostText_ok cs Hcs) as Hh. destruct Hcs as (_ & _ & Hport).
  assert (Hp := pairsOk_kvs kvs Hk). unfold linkText. apply Parse_text; try done.
  - apply authorityOk_app; [|constructor; [done|apply authorityOk_host; [done|lia]]].
    assert (Hall : forall s, Forall userByte s -> authorityOk s) by (intros s Hs; eapply Forall_impl; [exact Hs|exact userByte_authority]).
    destruct Hui as [Hui|(s & p & -> & Hs & Hp2)]; [by apply Hall|]. apply authorityOk_app; [by apply Hall|]. constructor; [done|by apply Hall].
  - by apply Enc_no.
  - by apply Enc_no.
  - eapply Forall_impl; [by apply Enc_visible|]. intros c Hc. unfold visible in Hc. unfold isCTL. lia.
  - apply parseAuthority_text; [done|done|lia].
Qed.

Lemma user_string u h n sch q f : hostNameOk h -> 0 <= n ->
  urlString (mkURL sch [] (Some u) (h ++ 58 :: itoa n) q f) = sch ++ 58 :: str "//" ++ (userString u ++ 64 :: h ++ 58 :: itoa n) ++ afterAuthority q f.
Proof.
  intros Hh Hn. unfold urlString, afterAuthority. cbn [uScheme uOpaque uUser uHost uRawQuery uFragment].
  rewrite bool_decide_eq_true_2 by done. cbn [negb]. rewrite escape_host by (by apply hostName_bytes). by rewrite <- !app_assoc.
Qed.

(** What the parser of each protocol reads first. *)
Lemma link_host sch user cs q f : csOk cs ->
  let link := mkURL sch [] user (hostText cs) q f in
  atoiPort (Port link) = Done (csPort cs) /\ parseAddress (Hostname link) = csAddress cs.
Proof.
  intros Hcs. pose proof Hcs as (Ha & [a E] & Hp). cbv zeta. unfold Port, Hostname, hostText. cbn [uHost].
  rewrite splitHostPort_text by lia. cbn [fst snd]. split.
  - unfold atoiPort. rewrite atoi_itoa by lia. by rewrite Z.mod_small.
  - rewrite E in *. cbn [addressText]. unfold parseAddress. by rewrite (proj2 (address_text a Ha)).
Qed.

(** *** Its bytes *)
Lemma linkText_visible sch ui cs kvs name :
  schemeOk sch -> csOk cs -> Forall visible ui -> kvsOk kvs -> bytes_ok name -> Forall visible (linkText sch ui cs kvs name).
Proof.
  intros [_ Hsch] Hcs Hui Hk Hname. pose proof (hostText_ok cs Hcs) as Hh. destruct Hcs as (_ & _ & Hport). unfold linkText.
  assert (Hv : forall c, 33 <= c <= 126 -> visible c) by done.
  apply Forall_app. split.
  { eapply Forall_impl; [exact Hsch|]. intros c Hc%schemeByte_range. unfold visible. lia. }
  constructor; [by apply Hv|]. apply Forall_app. split; [repeat (constructor; [by apply Hv|]); constructor|].
  apply Forall_app. split; [apply Forall_app; split; [done|]; constructor; [by apply Hv|]|].
  - unfold hostText. eapply Forall_impl; [apply (hostName_bytes _ (csPort cs) Hh); lia|]. intros c Hc. unfold hostByte in Hc.
    rewrite !andb_true_iff in Hc. destruct Hc as [[Hc _] _]. apply negb_true_iff in Hc. unfold shouldEscape in Hc.
    destruct (isAlnum c) eqn:e; [apply alnum_range in e; unfold visible; lia|]. rewrite bool_decide_eq_true_2 in Hc by done. cbn [andb] in Hc.
    destruct (oneOf "!$&'()*+,;=:[]<>" c || (c =? 34)) eqn:e1.
    { apply orb_prop in e1 as [e1|e1%Z.eqb_eq]; [|unfold visible; lia]. eapply oneOf_visible; [|exact e1].
      cbn. repeat (constructor; [by apply Hv|]). constructor. }
    destruct (oneOf "-_.~" c) eqn:e2; [eapply oneOf_visible; [|exact e2]; cbn; repeat (constructor; [by apply Hv|]); constructor|].
    destruct (oneOf "$&+,/:;=?@" c); done.
  - unfold afterAuthority. apply Forall_app. split; case_bool_decide; [constructor| |constructor|];
      (constructor; [by apply Hv|]); [by apply Enc_visible, pairsOk_kvs|by apply escape_visible].
Qed.
End link.

(** ** Port lists *)
Lemma log2_div10 n : 10 <= n -> Z.log2 (n / 10) < Z.log2 n.
Proof.
  intros Hn. apply Z.lt_le_trans with (Z.succ (Z.log2 (n / 10))); [lia|]. rewrite <- Z.log2_double by (Z.div_mod_to_equations; lia).
  apply Z.log2_le_mono. Z.div_mod_to_equations. lia.
Qed.

Lemma decAux_head fuel n acc : 0 < n -> (Z.to_nat (Z.log2 n) < fuel)%nat -> exists d t, decAux fuel n acc = d :: t /\ 49 <= d.
Proof.
  revert n acc. induction fuel as [|fuel IH]; intros n acc Hn Hf; [lia|]. cbn [decAux]. destruct (Z.ltb_spec n 10).
  - exists (48 + n), acc. split; [done|lia].
  - apply IH; [Z.div_mod_to_equations; lia|]. pose proof (log2_div10 n). pose proof (Z.log2_nonneg (n / 10)). lia.
Qed.

Definition portNumber (n : Z) : Prop := 0 <= n <= 65535.

Lemma itoa_noLetter c n : 0 <= n -> isDigit c = false -> c ∉ itoa n.
Proof. apply itoa_no_byte. Qed.

Lemma PortFromString_itoa n : portNumber n -> PortFromString (itoa n) = Some n.
Proof.
  intros Hn. unfold portNumber in Hn. unfold PortFromString, itoa. rewrite (proj2 (Z.ltb_ge n 0)) by lia.
  rewrite parseUint_dec by lia. by rewrite (proj2 (Z.leb_le n 65535)) by lia.
Qed.

Lemma parseIntPort_itoa n : portNumber n -> parseIntPort (itoa n) = Some n.
Proof.
  intros Hn. unfold parseIntPort. rewrite bool_decide_eq_false_2.
  2:{ intros E. assert (Hin : 110 ∈ itoa n) by (rewrite E; by left). unfold portNumber in Hn. by apply itoa_no_byte in Hin; [|lia|]. }
  destruct (decide (n = 0)) as [->|Hz]; [done|].
  assert (Hh : hasPrefix (itoa n) [48] = false).
  { unfold portNumber in Hn. unfold itoa. rewrite (proj2 (Z.ltb_ge n 0)) by lia. unfold dec.
    destruct (decAux_head (S (Z.to_nat (Z.log2 n))) n []) as (d & t & -> & Hd); [lia|lia|]. unfold hasPrefix. apply bool_decide_eq_false_2.
    cbn. intros [= ->]. lia. }
  rewrite Hh. cbn [andb]. by apply PortFromString_itoa.
Qed.

Lemma contains_false c s p : c ∉ s -> c ∈ p -> contains s p = false.
Proof.
  intros Hs Hp. induction s as [|x s IH]; cbn [contains].
  - unfold hasPrefix. rewrite bool_decide_eq_false_2; [done|]. rewrite take_nil. intros <-. by apply not_elem_of_nil in Hp.
  - rewrite IH by (intros Hin; apply Hs; by right). rewrite orb_false_r. unfold hasPrefix. apply bool_decide_eq_false_2.
    intros E. rewrite <- E in Hp. by apply not_elem_take in Hp.
Qed.

Definition portPair (p : Z * Z) : Prop := portNumber p.1 /\ portNumber p.2.

Section hysteria.
Context `{ShareJson}.

Lemma parseRange_text p : portPair p -> parseRange (portRangeString p) = Some p.
Proof.
  destruct p as [a b]. intros [Ha Hb]. cbn [fst snd] in *. unfold portRangeString, parseRange. cbn [fst snd].
  pose proof Ha as Ha2. pose proof Hb as Hb2. unfold portNumber in Ha2, Hb2.
  assert (Hno : forall n c, 0 <= n -> isDigit c = false -> containsByte (itoa n) c = false) by (intros; apply containsByte_false; by apply itoa_no_byte).
  destruct (Z.eqb_spec a b) as [->|Hne].
  - rewrite Hno, (contains_false 101) by (done || lia || (by apply itoa_no_byte; [lia|]) || (by left)). cbn [orb].
    by rewrite parseIntPort_itoa.
  - rewrite containsByte_app, containsByte_cons. cbn [Z.eqb Pos.eqb orb]. rewrite orb_true_r. cbn [orb]. unfold parseStringPort.
    assert (Hp : hasPrefix (itoa a ++ 45 :: itoa b) (str "env:") = false).
    { unfold hasPrefix. apply bool_decide_eq_false_2. intros E.
      assert (Hin : 101 ∈ take (length (str "env:")) (itoa a ++ 45 :: itoa b)) by (rewrite E; by left).
      apply not_elem_take in Hin; [done|]. rewrite elem_of_app, elem_of_cons. intros [Hx|[?|Hx]]; [|done|]; by apply itoa_no_byte in Hx; [|lia|]. }
    rewrite Hp, cutByte_app by (apply not_elem_Forall; apply itoa_no_byte; [lia|done]).
    cbn. by rewrite !PortFromString_itoa.
Qed.

Lemma portRange_bytes p : portPair p -> Forall (fun c => isDigit c = true \/ c = 45) (portRangeString p).
Proof.
  intros [Ha Hb]. unfold portNumber in *. assert (Hd : forall n, 0 <= n -> Forall (fun c => isDigit c = true \/ c = 45) (itoa n)).
  { intros n Hn. eapply Forall_impl; [by apply digits_host|]. by left. }
  unfold portRangeString. destruct (_ =? _); [apply Hd; lia|]. apply Forall_app. split; [apply Hd; lia|]. constructor; [by right|apply Hd; lia].
Qed.

Lemma portRange_no p c : portPair p -> isDigit c = false -> c <> 45 -> c ∉ portRangeString p.
Proof. intros Hp H1 H2 Hin. eapply Forall_forall in Hin; [|by apply portRange_bytes]. destruct Hin; congruence. Qed.

Lemma portRange_ne p : portRangeString p <> [].
Proof.
  assert (Hn : forall n, itoa n <> []).
  { intros n. unfold itoa. destruct (n <? 0); [done|]. by apply decAux_nonnil. }
  unfold portRangeString. destruct (_ =? _); [done|]. by destruct (itoa p.1).
Qed.

Lemma portList_bytes l : Forall portPair l -> bytes_ok (portListString l).
Proof.
  intros Hl. unfold portListString. apply joinByte_ok; [done|]. apply Forall_map. eapply Forall_impl; [exact Hl|]. intros p Hp.
  eapply Forall_impl; [by apply portRange_bytes|]. intros c [Hc| ->]; [unfold isDigit in Hc; unfold is_u8; lia|done].
Qed.

Lemma portList_ne l : l <> [] -> portListString l <> [].
Proof.
  destruct l as [|p l]; [done|]. intros _ E. unfold portListString, joinByte in E. cbn in E. apply app_eq_nil in E as [E _].
  by apply portRange_ne in E.
Qed.

Lemma parsePortList_text l : l <> [] -> Forall portPair l -> parsePortList (portListString l) = Some l.
Proof.
  intros Hne Hl. unfold parsePortList, portListString. rewrite splitByte_joinByte.
  - assert (Ht : map trimSpace (map portRangeString l) = map portRangeString l).
    { rewrite map_map. apply map_ext_in. intros p Hp%list_elem_of_In. eapply Forall_forall in Hp; [|exact Hl]. apply trimSpace_id.
      eapply Forall_impl; [by apply portRange_bytes|]. intros c [Hc| ->]; [unfold isDigit in Hc; unfold isSpace; lia|done]. }
    rewrite Ht. clear Hne Ht. induction Hl as [|p l Hp Hl IH]; [done|]. cbn [map List.filter]. rewrite ne_false by apply portRange_ne.
    cbn [mapM]. rewrite parseRange_text by done. cbn. by rewrite IH.
  - by destruct l.
  - apply Forall_map. eapply Forall_impl; [exact Hl|]. intros p Hp. by apply portRange_no.
Qed.

Lemma parseInt32_itoa n : 0 <= n < 2 ^ 31 -> parseInt32 (itoa n) = Some n.
Proof. intros Hn. unfold parseInt32. rewrite atoi_itoa by lia. replace ((- 2 ^ 31 <=? n) && (n <? 2 ^ 31)) with true by lia. done. Qed.

(** ** The query of a Hysteria outbound *)
Definition quicOk (qp : quicParams) : Prop :=
  bytes_ok (qpBrutalUp qp) /\ bytes_ok (qpBrutalDown qp) /\ Forall portPair (hopPorts (qpUdpHop qp)) /\
  0 <= rgFrom (hopInterval (qpUdpHop qp)) < 2 ^ 31.
Definition masksOk (udp : list mask) : Prop :=
  optOk (fun p => bytes_ok p /\ p <> []) ((head udp ≫= mkSettingsJson) ≫= unmarshalSalamander).
Definition hyMaskOk (fm : finalMask) : Prop := optOk quicOk (fmQuicParams fm) /\ masksOk (fmUdp fm).
Definition hysteriaOk (ss : streamConfig) : Prop :=
  scNetwork ss = Some (str "hysteria") /\ optOk tlsOk (scTLS ss) /\ optOk hyMaskOk (scFinalMask ss) /\
  exists hy, scHysteria ss = Some hy /\ bytes_ok (hyAuth hy) /\ 43 ∉ hyAuth hy.

Definition hyTlsKvs (t : tlsConfig) : keyVals := [("sni", tlsServerName t); ("fp", tlsFingerprint t)]%string ++ restKvs t.
Definition hopText (iv : int32Range) : bytes := if negb (rgFrom iv =? 0) || negb (rgTo iv =? 0) then itoa (rgFrom iv) else [].
Definition quicKvs (qp : quicParams) : keyVals :=
  [("up", qpBrutalUp qp); ("down", qpBrutalDown qp); ("ports", portListString (hopPorts (qpUdpHop qp)));
   ("hop-interval", hopText (hopInterval (qpUdpHop qp)))]%string.
Definition maskKvs (udp : list mask) : keyVals :=
  optKvs ((head udp ≫= mkSettingsJson) ≫= unmarshalSalamander) (fun p => [("obfs", str "salamander"); ("obfs-password", p)]%string).
Definition hyKvs (ss : streamConfig) : keyVals :=
  optKvs (scTLS ss) hyTlsKvs ++ optKvs (scFinalMask ss ≫= fmQuicParams) quicKvs ++ optKvs (scFinalMask ss) (fun fm => maskKvs (fmUdp fm)).

Lemma itoa_ok n : 0 <= n -> bytes_ok (itoa n).
Proof. intros Hn. eapply Forall_impl; [by apply digits_host|]. intros c Hc. cbn in Hc. unfold isDigit in Hc. unfold is_u8. lia. Qed.

Lemma itoa_ne n : 0 <= n -> itoa n <> [].
Proof. intros Hn. unfold itoa. rewrite (proj2 (Z.ltb_ge n 0)) by lia. by apply decAux_nonnil. Qed.

Lemma adds_quic qp : quicOk qp -> adds (quicQuery qp) (quicKvs qp).
Proof.
  intros (Hu & Hd & Hp & Hf). assert (Hh : bytes_ok (hopText (hopInterval (qpUdpHop qp)))).
  { unfold hopText. case_match; [apply itoa_ok; lia|constructor]. }
  assert (Hpl := portList_bytes _ Hp). split; [unfold quicKvs; kvs_ok|]. intros kvs Hk. unfold quicQuery, quicKvs.
  rewrite !addText_Q by kvs_ok.
  assert (E : forall kvs, kvsOk kvs -> (if bool_decide (hopPorts (qpUdpHop qp) = []) then Q kvs else
     addQuery (Q kvs) "ports" (portListString (hopPorts (qpUdpHop qp)))) = Q (kvs ++ [("ports"%string, portListString (hopPorts (qpUdpHop qp)))])).
  { intros l Hl. case_bool_decide as e; [rewrite e; cbn; by rewrite Q_empty|]. apply addQuery_Q; [done|by apply portList_ne]. }
  rewrite E by kvs_ok. unfold hopText in *. destruct (_ || _).
  - rewrite addQuery_Q by (kvs_ok || (apply itoa_ne; lia)). by rewrite <- !app_assoc.
  - rewrite <- (Q_empty "hop-interval" (((kvs ++ _) ++ _) ++ _)). by rewrite <- !app_assoc.
Qed.

Lemma adds_mask udp : masksOk udp -> adds (salamanderQuery udp) (maskKvs udp).
Proof.
  unfold masksOk, maskKvs. destruct udp as [|m udp]; [intros _; apply adds_id|]. cbn [head mbind option_bind]. unfold salamanderQuery.
  destruct (mkSettingsJson m ≫= unmarshalSalamander) as [p|]; [|intros _; apply adds_id]. intros [Hp Hne]. cbn [optKvs].
  split; [kvs_ok|]. intros kvs Hk. rewrite !addQuery_Q by (done || kvs_ok). by rewrite <- app_assoc.
Qed.

Lemma hysteriaQuery_Q ss kvs : hysteriaOk ss -> kvsOk kvs -> hysteriaQuery ss (Q kvs) = Q (kvs ++ hyKvs ss) /\ kvsOk (hyKvs ss).
Proof.
  intros (_ & Ht & Hfm & _) Hk. unfold hysteriaQuery, hyKvs.
  assert (H1 : adds (fun q => match scTLS ss with Some t => tlsRestQuery t (addText "fp" (tlsFingerprint t) (addText "sni" (tlsServerName t) q)) | None => q end)
                 (optKvs (scTLS ss) hyTlsKvs)).
  { destruct (scTLS ss) as [t|]; [|apply adds_id]. pose proof Ht as (? & ? & _). destruct (adds_rest t Ht) as [Hr1 Hr2].
    split; [cbn [optKvs]; unfold hyTlsKvs; kvs_ok|]. intros l Hl. rewrite !addText_Q, Hr2 by kvs_ok. cbn [optKvs]. unfold hyTlsKvs. by rewrite <- !app_assoc. }
  assert (H2 : adds (fun q => match scFinalMask ss ≫= fmQuicParams with Some qp => quicQuery qp q | None => q end)
                 (optKvs (scFinalMask ss ≫= fmQuicParams) quicKvs)).
  { destruct (scFinalMask ss) as [fm|]; [|apply adds_id]. destruct Hfm as [Hq _]. cbn [mbind option_bind].
    destruct (fmQuicParams fm); [by apply adds_quic|apply adds_id]. }
  assert (H3 : adds (fun q => match scFinalMask ss with Some fm => salamanderQuery (fmUdp fm) q | None => q end)
                 (optKvs (scFinalMask ss) (fun fm => maskKvs (fmUdp fm)))).
  { destruct (scFinalMask ss) as [fm|]; [|apply adds_id]. by apply adds_mask, Hfm. }
  destruct H1 as [Hk1 H1], H2 as [Hk2 H2], H3 as [Hk3 H3]. split; [|by kvs_ok].
  rewrite H1, H2, H3 by kvs_ok. by rewrite <- !app_assoc.
Qed.
End hysteria.

Section hysteria.
Context `{ShareJson}.

(** *** Reading it back *)
Definition quicKeys : list string := ["up"; "down"; "ports"; "hop-interval"]%string.
Definition obfsKeys : list string := ["obfs"; "obfs-password"]%string.

#[local] Ltac keys_in := repeat first [apply Forall_nil_2 | apply Forall_cons; split; [apply (bool_decide_unpack _); exact I|]].

Section finds.
Context (ss : streamConfig).
Lemma hyKvs_keys : keysIn secKeys (optKvs (scTLS ss) hyTlsKvs) /\ keysIn quicKeys (optKvs (scFinalMask ss ≫= fmQuicParams) quicKvs) /\
  keysIn obfsKeys (optKvs (scFinalMask ss) (fun fm => maskKvs (fmUdp fm))).
Proof.
  split_and!; [destruct (scTLS ss); keys_in|destruct (scFinalMask ss ≫= fmQuicParams); keys_in|].
  destruct (scFinalMask ss) as [fm|]; [|keys_in]. cbn [optKvs]. unfold maskKvs, optKvs. case_match; keys_in.
Qed.

Lemma find_hy_sec k : bool_decide (k ∈ secKeys) = true -> find k (hyKvs ss) = find k (optKvs (scTLS ss) hyTlsKvs).
Proof.
  intros Hk. pose proof (fun keys => keys_apart k secKeys keys Hk) as Hd. destruct hyKvs_keys as (_ & H2 & H3). unfold hyKvs.
  apply find_app_last. rewrite find_app_none by (eapply find_none; [exact H2|by apply Hd]). eapply find_none; [exact H3|by apply Hd].
Qed.

Lemma find_hy_quic k : bool_decide (k ∈ quicKeys) = true -> find k (hyKvs ss) = find k (optKvs (scFinalMask ss ≫= fmQuicParams) quicKvs).
Proof.
  intros Hk. pose proof (fun keys => keys_apart k quicKeys keys Hk) as Hd. destruct hyKvs_keys as (H1 & _ & H3). unfold hyKvs.
  rewrite find_app_none by (eapply find_none; [exact H1|by apply Hd]). apply find_app_last. eapply find_none; [exact H3|by apply Hd].
Qed.

Lemma find_hy_obfs k : bool_decide (k ∈ obfsKeys) = true ->
  find k (hyKvs ss) = find k (optKvs (scFinalMask ss) (fun fm => maskKvs (fmUdp fm))).
Proof.
  intros Hk. pose proof (fun keys => keys_apart k obfsKeys keys Hk) as Hd. destruct hyKvs_keys as (H1 & H2 & _). unfold hyKvs.
  rewrite find_app_none by (eapply find_none; [exact H1|by apply Hd]). apply find_app_none. eapply find_none; [exact H2|by apply Hd].
Qed.

Lemma find_hy_other k : bool_decide (k ∈ secKeys ++ quicKeys ++ obfsKeys) = false -> find k (hyKvs ss) = [].
Proof.
  intros Hk%bool_decide_eq_false. rewrite !not_elem_of_app in Hk. destruct Hk as (K1 & K2 & K3), hyKvs_keys as (H1 & H2 & H3). unfold hyKvs.
  rewrite find_app_none by (eapply find_none; [exact H1|by apply bool_decide_eq_false_2]).
  rewrite find_app_none by (eapply find_none; [exact H2|by apply bool_decide_eq_false_2]). eapply find_none; [exact H3|by apply bool_decide_eq_false_2].
Qed.
End finds.

Lemma hyTls_read t : optOk tlsOk t -> tlsRead (optKvs t hyTlsKvs) = carriedTLS t.
Proof.
  destruct t as [t|]; [|done]. intros (_ & _ & _ & _ & _ & Hl). unfold tlsRead. cbn. rewrite !ne_id, joined_split by done.
  destruct t as [sn al fp ec pc vc ins]. cbn. by destruct ins.
Qed.

(** The masks of the link: the salamander password, the rates and the hops. *)
Lemma hop_read iv : 0 <= rgFrom iv < 2 ^ 31 -> exists hop,
  (if nonEmpty (hopText iv) then Some <$> orFail (parseInt32 (hopText iv)) else Done None) = Done hop /\ pointRange hop = pointRange (Some (rgFrom iv)).
Proof.
  intros Hf. unfold hopText. destruct (Z.eqb_spec (rgFrom iv) 0) as [E|E]; [destruct (Z.eqb_spec (rgTo iv) 0) as [E2|E2]|].
  - exists None. by rewrite E.
  - cbn [negb orb]. exists (Some (rgFrom iv)). rewrite ne_false by (apply itoa_ne; lia). by rewrite parseInt32_itoa.
  - cbn [negb orb]. exists (Some (rgFrom iv)). rewrite ne_false by (apply itoa_ne; lia). by rewrite parseInt32_itoa.
Qed.

Lemma masks_read udp : masksOk udp ->
  (if bool_decide (find "obfs" (maskKvs udp) = str "salamander") && nonEmpty (find "obfs-password" (maskKvs udp))
   then [mkMask (str "salamander") (Some (marshalSalamander (find "obfs-password" (maskKvs udp))))] else []) = carriedMasks udp.
Proof.
  unfold masksOk, maskKvs, carriedMasks. destruct ((head udp ≫= mkSettingsJson) ≫= unmarshalSalamander) as [p|]; [|done].
  intros [_ Hne]. cbn [optKvs find String.eqb Ascii.eqb Bool.eqb andb]. rewrite !ne_id, (ne_false p) by done. done.
Qed.

Definition hyHop (ss : streamConfig) : outcome (option Z) :=
  if nonEmpty (find "hop-interval" (hyKvs ss)) then Some <$> orFail (parseInt32 (find "hop-interval" (hyKvs ss))) else Done None.

Lemma mask_read ss : optOk hyMaskOk (scFinalMask ss) -> exists hop, hyHop ss = Done hop /\
  buildHy2FinalMask (find "up" (hyKvs ss)) (find "down" (hyKvs ss)) (find "ports" (hyKvs ss)) hop (find "obfs" (hyKvs ss))
    (find "obfs-password" (hyKvs ss)) = Some (carriedFinalMask (scFinalMask ss)).
Proof.
  intros Hfm. unfold hyHop. rewrite !find_hy_quic, !find_hy_obfs by done. destruct (scFinalMask ss) as [fm|]; [|by exists None].
  destruct Hfm as [Hq Hm]. cbn [optKvs mbind option_bind]. unfold buildHy2FinalMask, carriedFinalMask. cbn [mbind option_bind].
  rewrite (masks_read _ Hm). destruct (fmQuicParams fm) as [qp|].
  - destruct Hq as (_ & _ & Hp & Hf). destruct (hop_read (hopInterval (qpUdpHop qp)) Hf) as (hop & Hh1 & Hh2). exists hop. unfold quicKvs. cbn [optKvs].
    cbn [find String.eqb Ascii.eqb Bool.eqb andb]. rewrite !ne_id. split; [exact Hh1|]. unfold carriedQuic. cbn [mbind option_bind].
    destruct (decide (hopPorts (qpUdpHop qp) = [])) as [e|e].
    + rewrite e. cbn [portListString]. change (nonEmpty (portListString [])) with false. unfold nonEmpty. cbn [negb].
      repeat case_bool_decide; by destruct (carriedMasks (fmUdp fm)).
    + rewrite (ne_false (portListString _)) by (by apply portList_ne). rewrite (bool_decide_eq_false_2 (hopPorts (qpUdpHop qp) = [])) by done.
      rewrite parsePortList_text by done. cbn [negb]. rewrite !orb_true_r. cbn [mbind option_bind]. rewrite Hh2. unfold nonEmpty. done.
  - exists None. split; [done|]. cbn. by destruct (carriedMasks (fmUdp fm)).
Qed.
End hysteria.

Section protocols.
Context `{ShareJson}.

(** ** The texts that a link carries faithfully *)
Definition settingsOk (cs : clientSettings) : Prop :=
  csOk cs /\ Forall bytes_ok [csMethod cs; csPassword cs; csId cs; csSecurity cs; csFlow cs; csEncryption cs; csUser cs; csPass cs].

(** Identifiers without plus sign; pairs whose base64 has no slash. *)
Definition userOk (ob : outbound) (cs : clientSettings) : Prop :=
  let for_ p := obProtocol ob = str p in
  (for_ "shadowsocks"%string /\
    (isShadowsocksAEAD2022 (csMethod cs) = true \/
     (csMethod cs <> [] /\ 58 ∉ csMethod cs /\ 47 ∉ b64Encode (csMethod cs ++ 58 :: csPassword cs)))) \/
  (for_ "vmess"%string /\ 43 ∉ csId cs) \/ (for_ "vless"%string /\ 43 ∉ csId cs) \/
  (for_ "socks"%string /\ 58 ∉ csUser cs /\ 47 ∉ b64Encode (csUser cs ++ 58 :: csPass cs)) \/
  (for_ "trojan"%string /\ 43 ∉ csPassword cs) \/
  (for_ "hysteria"%string /\ exists ss, obStream ob = Some ss /\ hysteriaOk ss).

Definition linkable (ob : outbound) : Prop :=
  exists cs, obSettings ob = Some cs /\ settingsOk cs /\ bytes_ok (getOutboundName ob) /\ userOk ob cs /\
    (obProtocol ob = str "hysteria" \/ optOk streamOk (obStream ob)).

Definition tlsScheme (link : URL) : bool := bool_decide (uScheme link ∈ [str "trojan"; str "hysteria2"; str "hy2"]).

Lemma set_query_same u q : uRawQuery u = q -> u = u <| uRawQuery := q |>.
Proof. destruct u. cbn. by intros ->. Qed.

Lemma stream_link ob u0 base :
  keysIn baseKeys base -> kvsOk base -> uRawQuery u0 = Q base -> optOk streamOk (obStream ob) ->
  (obProtocol ob = str "trojan" -> base = []) ->
  exists kvs, kvsOk kvs /\ streamSettingsQuery ob u0 = u0 <| uRawQuery := Q kvs |> /\
    forall link, uRawQuery link = Q kvs -> tlsScheme link = bool_decide (obProtocol ob = str "trojan") ->
      streamSettings link = Done (match obStream ob with
                                  | Some ss => Some (carriedStream (obProtocol ob) ss)
                                  | None => if bool_decide (optPairs base = []) then None else Some (carriedStream [] emptyStream)
                                  end) /\
      forall k, bool_decide (k ∈ baseKeys) = true -> valuesGet (Query link) (str k) = find k base.
Proof.
  intros Hb Hbo Hq Hs Htr. destruct (obStream ob) as [ss|] eqn:e.
  - destruct (streamSettingsQuery_Q ob ss u0 base e Hs Hbo Hq) as [Hsq Hso]. exists (base ++ streamKvs ss).
    split; [by apply kvsOk_app|]. split; [exact Hsq|]. intros link Hl Hsch. split.
    + by apply (stream_read link base).
    + intros k Hk. rewrite (Query_Q link (base ++ streamKvs ss)), valuesGet_Q by (done || by apply kvsOk_app). by apply find_base.
  - exists base. split; [done|]. split; [unfold streamSettingsQuery; rewrite e; by apply set_query_same|]. intros link Hl Hsch. split.
    + destruct (bool_decide (optPairs base = [])) eqn:eb; [apply bool_decide_eq_true in eb|apply bool_decide_eq_false in eb].
      * apply stream_read_none. rewrite Hl. unfold Q. by rewrite eb.
      * apply (stream_read_base link base); try done. fold (tlsScheme link). rewrite Hsch. apply bool_decide_eq_false_2.
        intros Ht. apply Htr in Ht. by subst base.
    + intros k Hk. by rewrite (Query_Q link base), valuesGet_Q.
Qed.

(** What is shown of each protocol: the text of its link, and what its parser
    makes of the link that the text reads as. *)
Definition carriedBy (ob : outbound) (sch : string) (cs : clientSettings) (ui : bytes) (user : Userinfo) (kvs : keyVals) : Prop :=
  urlString <$> shareLink ob = Some (linkText (str sch) ui cs kvs (getOutboundName ob)) /\
  (Forall userByte ui \/ exists s p, ui = s ++ 58 :: p /\ Forall userByte s /\ Forall userByte p) /\
  parseUserinfo ui = Some user /\ kvsOk kvs /\
  forall rawText, decodeBase64Text (removeAll (str "vmess://") rawText 0) = None ->
    linkOutbound (mkURL (str sch) [] (Some user) (hostText cs) (Q kvs) (getOutboundName ob)) rawText = Done (carried ob).

Lemma userText_escape n : bytes_ok n -> Forall userByte (userString (mkUser n None)) /\ parseUserinfo (userString (mkUser n None)) = Some (mkUser n None).
Proof.
  intros Hn. unfold userString. cbn [uiUsername uiPassword]. rewrite app_nil_r. pose proof (escape_plain encodeUserPassword n Hn) as Hp.
  split; [exact Hp|]. apply parseUserinfo_name; [exact Hp|by apply unescape_escape].
Qed.

Lemma unescape_user n : bytes_ok n -> 43 ∉ n -> QueryUnescape (userString (mkUser n None)) = Some n.
Proof. intros Hn Hp. unfold userString. cbn [uiUsername uiPassword]. rewrite app_nil_r. by apply QueryUnescape_user. Qed.

Lemma user_link ob sch cs n u0 base kvs :
  csOk cs -> u0 = mkURL (str sch) [] (urlUser n) (hostText cs) (Q base) (getOutboundName ob) ->
  streamSettingsQuery ob u0 = u0 <| uRawQuery := Q kvs |> ->
  urlString (streamSettingsQuery ob u0) = linkText (str sch) (userString (mkUser n None)) cs kvs (getOutboundName ob).
Proof.
  intros Hcs -> ->. pose proof (hostText_ok cs Hcs) as Hh. destruct Hcs as (_ & _ & Hp). unfold linkText, hostText. cbn.
  apply (user_string (mkUser n None)); [done|lia].
Qed.

Definition baseStream (ob : outbound) (base : keyVals) : option streamConfig :=
  match obStream ob with
  | Some ss => Some (carriedStream (obProtocol ob) ss)
  | None => if bool_decide (optPairs base = []) then None else Some (carriedStream [] emptyStream)
  end.

Lemma carried_named p ob cs base :
  obProtocol ob = str p -> str p <> str "hysteria" -> obSettings ob = Some cs ->
  queried ob cs = negb (bool_decide (optPairs base = [])) -> (str p = str "trojan" -> base = []) ->
  carried ob = named p (getOutboundName ob) (carriedSettings (str p) cs) (baseStream ob base).
Proof.
  intros Hp Hh Hset Hq Ht. unfold carried, named, baseStream. rewrite Hset. cbn [default id]. rewrite Hq, Hp.
  destruct (obStream ob); [by rewrite (bool_decide_eq_false_2 (str p = str "hysteria"))|].
  destruct (bool_decide (optPairs base = [])) eqn:e; cbn [negb]; [done|]. rewrite !carriedStream_secured.
  rewrite (bool_decide_eq_false_2 (str p = str "trojan")); [done|]. intros E. apply Ht in E. subst base. done.
Qed.

(** A protocol whose link has a user name. *)
Definition userURL (sch : string) (ob : outbound) (cs : clientSettings) (n : bytes) (kvs : keyVals) : URL :=
  mkURL (str sch) [] (urlUser n) (hostText cs) (Q kvs) (getOutboundName ob).

Definition parses (sch p : string) (ob : outbound) (cs : clientSettings) (user : Userinfo) (base : keyVals) : Prop :=
  forall kvs ss rawText, let link := mkURL (str sch) [] (Some user) (hostText cs) (Q kvs) (getOutboundName ob) in
  streamSettings link = Done ss -> (forall k, bool_decide (k ∈ baseKeys) = true -> valuesGet (Query link) (str k) = find k base) ->
  atoiPort (Port link) = Done (csPort cs) -> parseAddress (Hostname link) = csAddress cs ->
  decodeBase64Text (removeAll (str "vmess://") rawText 0) = None ->
  linkOutbound link rawText = Done (named p (getOutboundName ob) (carriedSettings (str p) cs) ss).

Lemma user_protocol ob p sch cs n base :
  obProtocol ob = str p -> str p <> str "hysteria" -> obSettings ob = Some cs -> csOk cs -> bytes_ok n ->
  keysIn baseKeys base -> kvsOk base -> optOk streamOk (obStream ob) -> (str p = str "trojan" -> base = []) ->
  queried ob cs = negb (bool_decide (optPairs base = [])) ->
  bool_decide (str sch ∈ [str "trojan"; str "hysteria2"; str "hy2"]) = bool_decide (str p = str "trojan") ->
  shareLink ob = Some (streamSettingsQuery ob (userURL sch ob cs n base)) -> parses sch p ob cs (mkUser n None) base ->
  exists ui user kvs, carriedBy ob sch cs ui user kvs.
Proof.
  intros Hp Hh Hset Hcs Hn Hb Hbo Hs Htr Hq Hsch Hlink Hparse. destruct (userText_escape n Hn) as [Hub Hu].
  destruct (stream_link ob (userURL sch ob cs n base) base) as (kvs & Hk & Hsq & Hread); [done..|by rewrite Hp|].
  exists (userString (mkUser n None)), (mkUser n None), kvs. split; [|split; [by left|split; [done|split; [done|]]]].
  - rewrite Hlink. cbn [fmap option_fmap option_map]. f_equal. by apply (user_link ob sch cs n (userURL sch ob cs n base) base kvs).
  - intros rawText Hraw. destruct (link_host (str sch) (Some (mkUser n None)) cs (Q kvs) (getOutboundName ob) Hcs) as [Hport Hhost].
    destruct (Hread (mkURL (str sch) [] (Some (mkUser n None)) (hostText cs) (Q kvs) (getOutboundName ob)) eq_refl) as [Hst Hget].
    { rewrite Hp. exact Hsch. }
    rewrite (carried_named p ob cs base) by done. by apply Hparse.
Qed.

#[local] Ltac texts H := repeat (apply Forall_cons in H as [? H]).
#[local] Ltac base_keys := repeat first [apply Forall_nil_2 | apply Forall_cons; split; [apply (bool_decide_unpack _); exact I|]].

Lemma optPairs_nil kvs : bool_decide (optPairs kvs = []) = forallb (fun kv => negb (nonEmpty kv.2)) kvs.
Proof.
  induction kvs as [|[k v] kvs IH]; [done|]. cbn [forallb snd]. rewrite <- IH. unfold optPairs. cbn [mbind list_bind fst snd]. unfold optPair.
  destruct (nonEmpty v); [by rewrite bool_decide_eq_false_2|done].
Qed.

Lemma vless_carried ob cs :
  obProtocol ob = str "vless" -> obSettings ob = Some cs -> settingsOk cs -> 43 ∉ csId cs -> optOk streamOk (obStream ob) ->
  exists ui user kvs, carriedBy ob "vless" cs ui user kvs.
Proof.
  intros Hpr Hset [Hcs Htexts] Hplus Hs. texts Htexts.
  set (base := [("flow", csFlow cs); ("encryption", csEncryption cs)]%string). assert (Hbo : kvsOk base) by (unfold base; kvs_ok).
  apply (user_protocol ob "vless" "vless" cs (csId cs) base); try done; [base_keys| | |].
  - unfold queried. rewrite Hpr, optPairs_nil. unfold base, nonEmpty. cbn [forallb snd]. rewrite andb_true_r, !negb_involutive.
    reflexivity.
  - unfold shareLink. rewrite Hpr. transitivity (link ← vlessLink ob; Some (streamSettingsQuery ob link)); [reflexivity|].
    assert (EQ : addText "encryption" (csEncryption cs) (addText "flow" (csFlow cs) (Q [])) = Q base) by (by rewrite !addText_Q by kvs_ok).
    unfold userURL. rewrite <- EQ. unfold vlessLink. by rewrite Hset.
  - intros kvs ss rawText link Hst Hget Hport Hhost _. transitivity (vlessOutbound link); [reflexivity|]. unfold vlessOutbound.
    rewrite Hport. cbn [mbind outcome_bind]. change (linkUserString link) with (Done (userString (mkUser (csId cs) None))). cbn [mbind outcome_bind].
    rewrite unescape_user by done. cbn [mbind outcome_bind orFail]. rewrite Hst. cbn [mbind outcome_bind]. rewrite !Hget by done.
    unfold hostSettings. rewrite Hhost. do 2 f_equal. unfold base. cbn [find String.eqb Ascii.eqb Bool.eqb andb]. rewrite !ne_id.
    unfold nonEmpty. transitivity (emptySettings <| csAddress := csAddress cs |> <| csPort := csPort cs |> <| csId := csId cs |> <| csFlow := csFlow cs |>
      <| csEncryption := if bool_decide (csEncryption cs = []) then str "none" else csEncryption cs |>); [|reflexivity].
    by case_bool_decide.
Qed.

Lemma vmess_carried ob cs :
  obProtocol ob = str "vmess" -> obSettings ob = Some cs -> settingsOk cs -> 43 ∉ csId cs -> optOk streamOk (obStream ob) ->
  exists ui user kvs, carriedBy ob "vmess" cs ui user kvs.
Proof.
  intros Hpr Hset [Hcs Htexts] Hplus Hs. texts Htexts.
  set (base := [("encryption", csSecurity cs)]%string). assert (Hbo : kvsOk base) by (unfold base; kvs_ok).
  apply (user_protocol ob "vmess" "vmess" cs (csId cs) base); try done; [base_keys| | |].
  - unfold queried. rewrite Hpr, optPairs_nil. unfold base, nonEmpty. cbn [forallb snd]. rewrite andb_true_r, !negb_involutive.
    by rewrite orb_false_r.
  - unfold shareLink. rewrite Hpr. transitivity (link ← vmessLink ob; Some (streamSettingsQuery ob link)); [reflexivity|].
    assert (EQ : addText "encryption" (csSecurity cs) (Q []) = Q base) by (by rewrite !addText_Q by kvs_ok).
    unfold userURL. rewrite <- EQ. unfold vmessLink. by rewrite Hset.
  - intros kvs ss rawText link Hst Hget Hport Hhost Hraw. transitivity (vmessOutbound link rawText); [reflexivity|]. unfold vmessOutbound.
    rewrite Hraw, Hport. cbn [mbind outcome_bind]. change (linkUserString link) with (Done (userString (mkUser (csId cs) None))). cbn [mbind outcome_bind].
    rewrite unescape_user by done. cbn [mbind outcome_bind orFail]. rewrite Hst. cbn [mbind outcome_bind]. rewrite !Hget by done.
    unfold hostSettings. rewrite Hhost. do 2 f_equal. unfold base. cbn [find String.eqb Ascii.eqb Bool.eqb andb]. by rewrite !ne_id.
Qed.

Lemma queried_none ob cs p : obProtocol ob = str p -> str p <> str "vmess" -> str p <> str "vless" ->
  queried ob cs = negb (bool_decide (optPairs [] = [])).
Proof. intros Hp H1 H2. unfold queried. rewrite Hp, (bool_decide_eq_false_2 _ H1), (bool_decide_eq_false_2 _ H2). done. Qed.

Lemma trojan_carried ob cs :
  obProtocol ob = str "trojan" -> obSettings ob = Some cs -> settingsOk cs -> 43 ∉ csPassword cs -> optOk streamOk (obStream ob) ->
  exists ui user kvs, carriedBy ob "trojan" cs ui user kvs.
Proof.
  intros Hpr Hset [Hcs Htexts] Hplus Hs. texts Htexts.
  apply (user_protocol ob "trojan" "trojan" cs (csPassword cs) []); try done; [constructor|constructor|by apply (queried_none _ _ "trojan")| |].
  - unfold shareLink. rewrite Hpr. transitivity (link ← trojanLink ob; Some (streamSettingsQuery ob link)); [reflexivity|].
    unfold trojanLink. by rewrite Hset.
  - intros kvs ss rawText link Hst Hget Hport Hhost Hraw. transitivity (trojanOutbound link); [reflexivity|]. unfold trojanOutbound.
    rewrite Hport. cbn [mbind outcome_bind]. change (linkUserString link) with (Done (userString (mkUser (csPassword cs) None))). cbn [mbind outcome_bind].
    rewrite unescape_user by done. cbn [mbind outcome_bind orFail]. rewrite Hst. cbn [mbind outcome_bind].
    unfold hostSettings. by rewrite Hhost.
Qed.

(** A pair in base64. *)
Lemma b64_user a b : bytes_ok a -> bytes_ok b -> 47 ∉ b64Encode (a ++ 58 :: b) ->
  bytes_ok (b64Encode (a ++ 58 :: b)) /\
  linkUserString (mkURL [] [] (Some (mkUser (b64Encode (a ++ 58 :: b)) None)) [] [] []) = Done (b64Encode (a ++ 58 :: b)) /\
  userString (mkUser (b64Encode (a ++ 58 :: b)) None) = b64Encode (a ++ 58 :: b) /\
  decodeBase64Text (b64Encode (a ++ 58 :: b)) = Some (a ++ 58 :: b).
Proof.
  intros Ha Hb Hn. assert (Hp : bytes_ok (a ++ 58 :: b)) by (apply Forall_app; split; [done|by constructor]).
  pose proof (b64Encode_bytes _ Hp) as Hb64.
  assert (Hu : userString (mkUser (b64Encode (a ++ 58 :: b)) None) = b64Encode (a ++ 58 :: b)).
  { unfold userString. cbn [uiUsername uiPassword]. rewrite app_nil_r. by apply escape_b64. }
  split_and!; [|by unfold linkUserString; cbn [uUser]; rewrite Hu|done|apply decodeBase64Text_Encode; [done|by destruct a]].
  eapply Forall_impl; [exact Hb64|]. intros c Hc. apply b64Byte_visible in Hc. unfold visible in Hc. unfold is_u8. lia.
Qed.

Lemma socks_carried ob cs :
  obProtocol ob = str "socks" -> obSettings ob = Some cs -> settingsOk cs -> 58 ∉ csUser cs ->
  47 ∉ b64Encode (csUser cs ++ 58 :: csPass cs) -> optOk streamOk (obStream ob) ->
  exists ui user kvs, carriedBy ob "socks" cs ui user kvs.
Proof.
  intros Hpr Hset [Hcs Htexts] Hcolon Hslash Hs. texts Htexts.
  destruct (b64_user (csUser cs) (csPass cs)) as (Hb1 & _ & Hb2 & Hb3); [done..|].
  apply (user_protocol ob "socks" "socks" cs (b64Encode (csUser cs ++ 58 :: csPass cs)) []); try done;
    [constructor|constructor|by apply (queried_none _ _ "socks")| |].
  - unfold shareLink. rewrite Hpr. transitivity (link ← socksLink ob; Some (streamSettingsQuery ob link)); [reflexivity|].
    unfold socksLink. by rewrite Hset.
  - intros kvs ss rawText link Hst Hget Hport Hhost Hraw. transitivity (socksOutbound link); [reflexivity|]. unfold socksOutbound.
    rewrite Hport. cbn [mbind outcome_bind].
    change (linkUserString link) with (Done (userString (mkUser (b64Encode (csUser cs ++ 58 :: csPass cs)) None))). cbn [mbind outcome_bind].
    rewrite Hb2, ne_false, Hb3. 2: { intros E%b64Encode_nil. by destruct (csUser cs). }
    cbn [mbind outcome_bind orFail]. rewrite cutByte_app by (by apply not_elem_Forall). cbn [negb mbind outcome_bind].
    rewrite Hst. cbn [mbind outcome_bind]. unfold hostSettings. by rewrite Hhost.
Qed.

Lemma ss_carried ob cs :
  obProtocol ob = str "shadowsocks" -> obSettings ob = Some cs -> settingsOk cs -> isShadowsocksAEAD2022 (csMethod cs) = false ->
  csMethod cs <> [] -> 58 ∉ csMethod cs -> 47 ∉ b64Encode (csMethod cs ++ 58 :: csPassword cs) -> optOk streamOk (obStream ob) ->
  exists ui user kvs, carriedBy ob "ss" cs ui user kvs.
Proof.
  intros Hpr Hset [Hcs Htexts] Hold Hne Hcolon Hslash Hs. texts Htexts.
  destruct (b64_user (csMethod cs) (csPassword cs)) as (Hb1 & _ & Hb2 & Hb3); [done..|].
  apply (user_protocol ob "shadowsocks" "ss" cs (b64Encode (csMethod cs ++ 58 :: csPassword cs)) []); try done;
    [constructor|constructor|by apply (queried_none _ _ "shadowsocks")| |].
  - unfold shareLink. rewrite Hpr. transitivity (link ← shadowsocksLink ob; Some (streamSettingsQuery ob link)); [reflexivity|].
    unfold shadowsocksLink. rewrite Hset. cbn [mbind option_bind]. by rewrite Hold.
  - intros kvs ss rawText link Hst Hget Hport Hhost Hraw. transitivity (shadowsocksOutbound link); [reflexivity|]. unfold shadowsocksOutbound.
    rewrite Hport. cbn [mbind outcome_bind].
    transitivity ('(cipher, password) ←
      (decoded ← orFail (decodeBase64Text (userString (mkUser (b64Encode (csMethod cs ++ 58 :: csPassword cs)) None)));
       let '(cipher, password, ok) := cutByte 58 decoded in if negb ok || bool_decide (cipher = []) then Failed else Done (cipher, password));
      ss ← streamSettings link;
      Done (named "shadowsocks" (getOutboundName ob) (hostSettings link (csPort cs) <| csMethod := cipher |> <| csPassword := password |>) ss)); [reflexivity|].
    rewrite Hb2, Hb3. cbn [mbind outcome_bind orFail]. rewrite cutByte_app by (by apply not_elem_Forall).
    rewrite bool_decide_eq_false_2 by done. cbn [negb orb mbind outcome_bind]. rewrite Hst. cbn [mbind outcome_bind].
    unfold hostSettings. by rewrite Hhost.
Qed.

(** The plain form of the 2022 ciphers. *)
Lemma ss2022_carried ob cs :
  obProtocol ob = str "shadowsocks" -> obSettings ob = Some cs -> settingsOk cs -> isShadowsocksAEAD2022 (csMethod cs) = true ->
  optOk streamOk (obStream ob) -> exists ui user kvs, carriedBy ob "ss" cs ui user kvs.
Proof.
  intros Hpr Hset [Hcs Htexts] Hnew Hs. texts Htexts. set (name := getOutboundName ob).
  set (ui := escapeShadowsocksUserInfo (csMethod cs) ++ 58 :: escapeShadowsocksUserInfo (csPassword cs)).
  destruct (escSS_ok (csMethod cs)) as [Hm1 Hm2]; [done|]. destruct (escSS_ok (csPassword cs)) as [Hp1 Hp2]; [done|].
  set (u0 := mkURL (str "ss") (str "//" ++ ui ++ 64 :: hostText cs) None [] (Q []) name).
  destruct (stream_link ob u0 []) as (kvs & Hk & Hsq & Hread); [constructor|constructor|done|done|by rewrite Hpr|].
  set (user := mkUser (csMethod cs) (Some (csPassword cs))). set (link := mkURL (str "ss") [] (Some user) (hostText cs) (Q kvs) name).
  exists ui, user, kvs. split; [|split; [right; by eexists _, _|split; [by apply parseUserinfo_pair|split; [done|]]]].
  - assert (E : shareLink ob = Some (streamSettingsQuery ob u0)).
    { unfold shareLink. rewrite Hpr. transitivity (link ← shadowsocksLink ob; Some (streamSettingsQuery ob link)); [reflexivity|].
      unfold shadowsocksLink. rewrite Hset. cbn [mbind option_bind]. by rewrite Hnew. }
    rewrite E, Hsq. cbn [fmap option_fmap option_map]. f_equal.
  - intros rawText _. destruct (Hread link eq_refl) as [Hst Hget]; [by rewrite Hpr|].
    destruct (link_host (str "ss") (Some user) cs (Q kvs) name Hcs) as [Hport Hhost]. fold link in Hport, Hhost.
    rewrite (carried_named "shadowsocks" ob cs []) by (done || by apply (queried_none _ _ "shadowsocks")).
    transitivity (shadowsocksOutbound link); [reflexivity|]. unfold shadowsocksOutbound. rewrite Hport. cbn [mbind outcome_bind].
    change (uUser link) with (Some user). unfold parseShadowsocksUserInfo. cbn [user uiPassword uiUsername].
    rewrite (bool_decide_eq_false_2 (csMethod cs = [])) by (by intros E; rewrite E in Hnew). cbn [mbind outcome_bind]. rewrite Hst. cbn [mbind outcome_bind].
    unfold hostSettings. by rewrite Hhost.
Qed.

Lemma hysteria_security link ss s : kvsOk (hyKvs ss) -> optOk tlsOk (scTLS ss) -> uRawQuery link = Q (hyKvs ss) -> uScheme link = str "hysteria2" ->
  scNetwork s = Some (str "hysteria") -> scWS s = None ->
  parseSecurityFromURL link s = Done (s <| scSecurity := str "tls" |> <| scTLS := Some (carriedTLS (scTLS ss)) |>).
Proof.
  intros Hk Ht Hq Hsch Hn Hw. unfold parseSecurityFromURL. rewrite (Query_Q link _ Hk Hq), !valuesGet_Q.
  rewrite (find_hy_other ss "security") by done. rewrite Hn, Hsch. cbn [mbind option_bind].
  change (networkBuild (str "hysteria")) with (Some (str "hysteria")). cbn [orFail mbind outcome_bind].
  rewrite !find_hy_sec by done. fold (tlsRead (optKvs (scTLS ss) hyTlsKvs)). rewrite hyTls_read by done.
  unfold websocketName. rewrite Hw. reflexivity.
Qed.

Lemma hysteria_carried ob cs ss :
  obProtocol ob = str "hysteria" -> obSettings ob = Some cs -> settingsOk cs -> obStream ob = Some ss -> hysteriaOk ss ->
  exists ui user kvs, carriedBy ob "hysteria2" cs ui user kvs.
Proof.
  intros Hpr Hset [Hcs _] Hst Hss. pose proof Hss as (Hnet & Ht & Hfm & hy & Hhy & Hauth & Hplus). set (name := getOutboundName ob).
  destruct (hysteriaQuery_Q ss [] Hss) as [HQ Hk]; [constructor|]. cbn [app] in HQ.
  set (u0 := userURL "hysteria2" ob cs (hyAuth hy) []). destruct (userText_escape (hyAuth hy) Hauth) as [Hub Hu].
  set (user := mkUser (hyAuth hy) None). set (link := mkURL (str "hysteria2") [] (Some user) (hostText cs) (Q (hyKvs ss)) name).
  exists (userString user), user, (hyKvs ss). split; [|split; [by left|split; [done|split; [done|]]]].
  - assert (Hsq : streamSettingsQuery ob u0 = u0 <| uRawQuery := Q (hyKvs ss) |>).
    { unfold streamSettingsQuery. rewrite Hst, Hnet. cbn [default id]. rewrite (bool_decide_eq_true_2 (str "hysteria" = str "hysteria")) by done.
      by rewrite <- HQ. }
    assert (E : shareLink ob = Some (streamSettingsQuery ob u0)).
    { unfold shareLink. rewrite Hpr. transitivity (link ← hysteriaLink ob; Some (streamSettingsQuery ob link)); [reflexivity|].
      unfold hysteriaLink. rewrite Hset, Hst. cbn [mbind option_bind]. by rewrite Hhy. }
    rewrite E. cbn [fmap option_fmap option_map]. f_equal. by apply (user_link ob "hysteria2" cs (hyAuth hy) u0 [] (hyKvs ss)).
  - intros rawText _. destruct (link_host (str "hysteria2") (Some user) cs (Q (hyKvs ss)) name Hcs) as [Hport Hhost]. fold link in Hport, Hhost.
    destruct (mask_read ss Hfm) as (hop & Hhop & Hmask).
    transitivity (hysteriaOutbound link); [reflexivity|]. unfold hysteriaOutbound. rewrite Hport. cbn [mbind outcome_bind].
    change (linkUserString link) with (Done (userString user)). cbn [mbind outcome_bind]. unfold user. rewrite unescape_user by done.
    cbn [mbind outcome_bind orFail]. rewrite (Query_Q link (hyKvs ss)) by done. rewrite !valuesGet_Q. fold (hyHop ss). rewrite Hhop.
    cbn [mbind outcome_bind]. rewrite Hmask. cbn [mbind outcome_bind orFail].
    rewrite (hysteria_security link ss) by done. cbn [mbind outcome_bind].
    unfold carried, named, hostSettings. rewrite Hset, Hst, Hpr, Hhost. cbn [default id].
    rewrite (bool_decide_eq_true_2 (str "hysteria" = str "hysteria")) by done. unfold carriedHysteria. rewrite Hhy. reflexivity.
Qed.

(** Every linkable outbound. *)
Lemma protocol_carried ob cs : obSettings ob = Some cs -> settingsOk cs -> userOk ob cs ->
  (obProtocol ob = str "hysteria" \/ optOk streamOk (obStream ob)) ->
  exists sch ui user kvs, carriedBy ob sch cs ui user kvs /\ sch ∈ ["ss"; "vmess"; "vless"; "socks"; "trojan"; "hysteria2"]%string.
Proof.
  intros Hset Hcs Hu Hs.
  assert (Hs2 : forall p, obProtocol ob = str p -> str p <> str "hysteria" -> optOk streamOk (obStream ob)).
  { intros p Hp Hne. destruct Hs as [Hs|Hs]; [congruence|done]. }
  assert (Hin : forall sch : string, bool_decide (sch ∈ ["ss"; "vmess"; "vless"; "socks"; "trojan"; "hysteria2"]%string) = true ->
    (exists ui user kvs, carriedBy ob sch cs ui user kvs) ->
    exists sch ui user kvs, carriedBy ob sch cs ui user kvs /\ sch ∈ ["ss"; "vmess"; "vless"; "socks"; "trojan"; "hysteria2"]%string).
  { intros sch Hb%bool_decide_eq_true (ui & user & kvs & Hc). by exists sch, ui, user, kvs. }
  destruct Hu as [[Hp [Hm|(H1 & H2 & H3)]]|[[Hp H1]|[[Hp H1]|[(Hp & H1 & H2)|[[Hp H1]|(Hp & ss & Hst & Hss)]]]]].
  - apply (Hin "ss"%string eq_refl). apply ss2022_carried; try done. by apply (Hs2 "shadowsocks"%string).
  - apply (Hin "ss"%string eq_refl). specialize (Hs2 "shadowsocks"%string Hp ltac:(done)).
    destruct (isShadowsocksAEAD2022 (csMethod cs)) eqn:e; [by apply ss2022_carried|by apply ss_carried].
  - apply (Hin "vmess"%string eq_refl). apply vmess_carried; try done. by apply (Hs2 "vmess"%string).
  - apply (Hin "vless"%string eq_refl). apply vless_carried; try done. by apply (Hs2 "vless"%string).
  - apply (Hin "socks"%string eq_refl). apply socks_carried; try done. by apply (Hs2 "socks"%string).
  - apply (Hin "trojan"%string eq_refl). apply trojan_carried; try done. by apply (Hs2 "trojan"%string).
  - apply (Hin "hysteria2"%string eq_refl). by eapply hysteria_carried.
Qed.

(** ** Lines *)
Lemma userBytes_visible ui : (Forall userByte ui \/ exists s p, ui = s ++ 58 :: p /\ Forall userByte s /\ Forall userByte p) -> Forall visible ui.
Proof.
  assert (Hall : forall s, Forall userByte s -> Forall visible s).
  { intros s Hs. eapply Forall_impl; [exact Hs|]. intros c Hc. by apply (plain_visible encodeUserPassword). }
  intros [Hui|(s & p & -> & Hs & Hp)]; [by apply Hall|]. apply Forall_app. split; [by apply Hall|]. constructor; [unfold visible; lia|by apply Hall].
Qed.

Definition shareScheme (sch : string) : Prop := sch ∈ ["ss"; "vmess"; "vless"; "socks"; "trojan"; "hysteria2"]%string.

Lemma shareScheme_ok sch : shareScheme sch ->
  schemeOk (str sch) /\ (str sch ++ str "://") ∈ shareSchemes /\ str sch <> [] /\ head (str sch) <> Some 123.
Proof.
  intros Hs. unfold shareScheme in Hs. rewrite !elem_of_cons in Hs. unfold schemeOk.
  assert (Hb : forall s, forallb schemeByte s = true -> Forall (fun c => schemeByte c = true) s).
  { intros s Hf. rewrite forallb_forall in Hf. apply Forall_forall. intros c Hc%list_elem_of_In. by apply Hf. }
  destruct Hs as [->|[->|[->|[->|[->|[->|Hs]]]]]]; [..|by apply not_elem_of_nil in Hs];
    (split; [split; [done|by apply Hb]|split; [apply (bool_decide_unpack _); vm_compute; exact I|done]]).
Qed.

Lemma link_line ob : linkable ob -> exists text, urlString <$> shareLink ob = Some text /\ Forall visible text /\ text <> [] /\
  head text <> Some 123 /\ existsb (hasPrefix text) shareSchemes = true /\ parseLine text = Done (Some (carried ob)).
Proof.
  intros (cs & Hset & Hcs & Hname & Hu & Hs). destruct (protocol_carried ob cs Hset Hcs Hu Hs) as (sch & ui & user & kvs & (Hurl & Hui & Huser & Hk & Hparse) & Hsch).
  destruct (shareScheme_ok sch Hsch) as (Hso & Hin & Hne & Hhead). pose proof Hcs as [Hcs1 _].
  exists (linkText (str sch) ui cs kvs (getOutboundName ob)). split; [done|].
  assert (Hvis : Forall visible (linkText (str sch) ui cs kvs (getOutboundName ob))) by (apply linkText_visible; try done; by apply userBytes_visible).
  split; [done|]. split; [unfold linkText; by destruct (str sch)|]. split; [unfold linkText; by destruct (str sch)|]. split.
  - apply existsb_exists. exists (str sch ++ str "://"). split; [by apply list_elem_of_In|]. unfold hasPrefix. apply bool_decide_eq_true_2.
    unfold linkText. change (58 :: str "//" ++ ?x) with (str "://" ++ x). rewrite app_assoc. apply take_app_length.
  - unfold parseLine. rewrite trimSpace_id by (by apply visible_noSpace). rewrite bool_decide_eq_false_2 by (unfold linkText; by destruct (str sch)).
    rewrite (parse_link (str sch) ui user) by done. rewrite Hparse; [done|]. apply (decodeBase64Text_bad 64); [done|]. apply removeAll_in; [done|by apply (bool_decide_unpack _); vm_compute|].
    unfold linkText. apply elem_of_app. right. right. apply elem_of_app. right. apply elem_of_app. left. apply elem_of_app. right. by left.
Qed.

Lemma link_lines obs : Forall linkable obs -> exists texts, omap (fun ob => urlString <$> shareLink ob) obs = texts /\
  Forall (fun t => Forall visible t /\ t <> [] /\ head t <> Some 123 /\ existsb (hasPrefix t) shareSchemes = true) texts /\
  parseLines texts = Done (carried <$> obs).
Proof.
  intros Hobs. induction Hobs as [|ob obs Hob _ (texts & IH1 & IH2 & IH3)]; [by exists []|].
  destruct (link_line ob Hob) as (t & Ht & Hv & Hne & Hh & Hp & Hl). exists (t :: texts). split; [|split; [by constructor|]].
  - cbn [omap list_omap]. rewrite Ht. by rewrite IH1.
  - cbn [parseLines fmap list_fmap]. rewrite Hl. cbn [mbind outcome_bind]. by rewrite IH3.
Qed.

Lemma FixWindowsReturn_id s : 13 ∉ s -> FixWindowsReturn s = s.
Proof.
  induction s as [|c s IH]; [done|]. rewrite not_elem_of_cons. intros [Hc Hs]. cbn [FixWindowsReturn].
  destruct c as [|p|p]; try (by rewrite IH). repeat (destruct p as [p|p|]; try (by rewrite IH)).
Qed.

Lemma trimLeft_head s : head s <> None -> (forall c, head s = Some c -> isSpace c = false) -> trimLeftSpace s = s.
Proof. destruct s as [|c s]; [done|]. intros _ Hc. cbn. by rewrite (Hc c). Qed.

Lemma trimSpace_ends s : (forall c, head s = Some c -> isSpace c = false) -> (forall c, last s = Some c -> isSpace c = false) -> trimSpace s = s.
Proof.
  intros Hh Hl. destruct s as [|c s]; [done|]. unfold trimSpace. rewrite (trimLeft_head (c :: s)) by done.
  rewrite trimLeft_head; [by rewrite reverse_involutive|..].
  - rewrite head_reverse. intros E. apply last_None in E. done.
  - intros d Hd. rewrite head_reverse in Hd. by apply Hl.
Qed.

Lemma joinByte_ends texts : Forall (fun t => Forall visible t /\ t <> []) texts ->
  (forall c, head (joinByte 10 texts) = Some c -> isSpace c = false) /\ (forall c, last (joinByte 10 texts) = Some c -> isSpace c = false) /\
  13 ∉ joinByte 10 texts /\ head (joinByte 10 texts) = (t ← head texts; head t).
Proof.
  assert (Hvs : forall c t, Forall visible t -> c ∈ t -> isSpace c = false).
  { intros c t Ht Hin. eapply Forall_forall in Hin; [|exact Ht]. unfold visible in Hin. unfold isSpace. lia. }
  intros Ht. induction Ht as [|t texts [Hv Hne] Ht IH]; [split_and!; [done..|apply not_elem_of_nil|done]|].
  assert (Hh : head (joinByte 10 (t :: texts)) = head t) by (destruct t; done).
  assert (H13 : 13 ∉ t) by (intros Hin; eapply Forall_forall in Hin; [|exact Hv]; unfold visible in Hin; lia).
  split_and!; [| | |by rewrite Hh].
  - intros c. rewrite Hh. intros Hc. apply (Hvs c t Hv). destruct t as [|x t]; [done|]. injection Hc as ->. by left.
  - destruct IH as (_ & IH & _). destruct texts as [|t2 texts].
    + unfold joinByte. cbn. rewrite app_nil_r. intros c Hc. apply (Hvs c t Hv). apply last_Some in Hc as [l' ->]. apply elem_of_app. right. by left.
    + assert (E : joinByte 10 (t :: t2 :: texts) = t ++ 10 :: joinByte 10 (t2 :: texts)) by done. rewrite E. intros c Hc. apply IH.
      rewrite last_app in Hc. destruct (joinByte 10 (t2 :: texts)) as [|x l] eqn:el; [|rewrite last_cons_cons in Hc; by destruct (last (x :: l)) eqn:e2; [|apply last_None in e2]].
      apply Forall_inv in Ht as [_ Hne2]. by destruct t2.
  - destruct IH as (_ & _ & IH & _). destruct texts as [|t2 texts]; [unfold joinByte; cbn; by rewrite app_nil_r|].
    assert (E : joinByte 10 (t :: t2 :: texts) = t ++ 10 :: joinByte 10 (t2 :: texts)) by done. rewrite E, elem_of_app, elem_of_cons. intros [?|[?|?]]; done.
Qed.

(** C12: The links written for a list of outbounds, read again, are the outbounds the
    links stand for, in order, less those that Xray cannot build: no link is lost,
    taken for base64, JSON or Clash, or read as part of another, whatever the names,
    passwords, paths and lists hold within the stated bounds. *)
Theorem links_roundtrip obs : obs <> [] -> Forall linkable obs ->
  exists text, ConvertXrayJsonToShareLinks obs = Some text /\ ConvertShareLinksToXrayJson text = filterBuildableOutbounds (carried <$> obs).
Proof.
  intros Hne Hobs. destruct (link_lines obs Hobs) as (texts & Ht & Hv & Hp). exists (joinByte 10 texts).
  assert (Hnt : texts <> []) by (destruct obs as [|ob obs]; [done|]; apply Forall_inv in Hobs; intros ->; cbn in Hp; done).
  unfold ConvertXrayJsonToShareLinks. rewrite Ht.
  assert (Hf : List.filter nonEmpty texts = texts).
  { clear -Hv. induction Hv as [|t texts (_ & Hne & _) _ IH]; [done|]. cbn. by rewrite ne_false, IH. }
  rewrite Hf, bool_decide_eq_false_2 by done. split; [done|].
  destruct (joinByte_ends texts) as (He1 & He2 & H13 & Hhd); [eapply Forall_impl; [exact Hv|]; intros t (? & ? & _); done|].
  assert (Hsplit : splitByte 10 (joinByte 10 texts) = texts).
  { apply splitByte_joinByte; [done|]. eapply Forall_impl; [exact Hv|]. intros t (Hvt & _) Hin.
    eapply Forall_forall in Hin; [|exact Hvt]. unfold visible in Hin. lia. }
  destruct texts as [|t texts]; [done|]. apply Forall_cons in Hv as [(Hvt & Htne & Hbrace & Hsch) Hv].
  unfold ConvertShareLinksToXrayJson, convertShareLinksToXrayJson, convertText. rewrite FixWindowsReturn_id, trimSpace_ends by done.
  rewrite bool_decide_eq_false_2 by (intros E; rewrite E in Hsplit; by injection Hsplit as <-).
  assert (Hb : hasPrefix (joinByte 10 (t :: texts)) [123] = false).
  { unfold hasPrefix. apply bool_decide_eq_false_2. intros E. apply Hbrace. cbn [head mbind option_bind] in Hhd. rewrite <- Hhd.
    by destruct (joinByte 10 (t :: texts)) as [|x l]; [|injection E as ->]. }
  rewrite Hb. assert (Hs : hasShareSchemeLine (joinByte 10 (t :: texts)) = true).
  { unfold hasShareSchemeLine. rewrite Hsplit. cbn [existsb]. by rewrite trimSpace_id, Hsch by (by apply visible_noSpace). }
  rewrite Hs. unfold parsePlainShareLines. rewrite Hsplit, Hp. cbn [mbind outcome_bind].
  rewrite bool_decide_eq_false_2 by (by destruct obs). done.
Qed.

(** ** Which texts make the reader panic *)
Definition safe {A} (m : outcome A) : Prop := m <> Panicked.

Lemma safe_bind {A B} (m : outcome A) (k : A -> outcome B) : safe m -> (forall a, safe (k a)) -> safe (m ≫= k).
Proof. intros Hm Hk. destruct m; [apply Hk|done|by destruct Hm]. Qed.
Lemma safe_orFail {A} (o : option A) : safe (orFail o).
Proof. by destruct o. Qed.
Lemma safe_atoiPort s : safe (atoiPort s).
Proof. unfold atoiPort. by destruct (atoi s). Qed.
Lemma safe_fmap {A B} (f : A -> B) m : safe m -> safe (f <$> m).
Proof. by destruct m. Qed.

#[local] Ltac safe := repeat first
  [ apply safe_bind; [|intros ?] | apply safe_orFail | apply safe_atoiPort | apply safe_fmap | done | case_match ].

Lemma safe_build t : safe (buildStreamFromTransportFields t).
Proof. unfold buildStreamFromTransportFields, buildTransport, buildXhttp. safe. Qed.
Lemma safe_security link ss : safe (parseSecurityFromURL link ss).
Proof. unfold parseSecurityFromURL. safe. Qed.
Lemma safe_stream link : safe (streamSettings link).
Proof.
  unfold streamSettings. case_match; [done|]. apply safe_bind; [apply safe_build|]. intros ss. apply safe_fmap, safe_security.
Qed.
Lemma safe_qr p : safe (qrOutbound p).
Proof.
  unfold qrOutbound. apply safe_bind; [apply safe_atoiPort|]. intros port. apply safe_bind; [apply safe_build|]. intros ss.
  apply safe_bind; [unfold qrParseSecurity; safe|done].
Qed.

(** A link without user information whose port is read. *)
Definition userSchemes : list bytes := [str "vless"; str "socks"; str "trojan"; str "hysteria2"; str "hy2"].
Definition userless (link : URL) (line : bytes) : Prop :=
  uUser link = None /\ is_ok (atoi (Port link)) = true /\
  (uScheme link ∈ userSchemes \/ uScheme link = str "vmess" /\ decodeBase64Text (removeAll (str "vmess://") line 0) = None).

Lemma after_port {A} link (k : Z -> bytes -> outcome A) : (forall port user, safe (k port user)) ->
  (port ← atoiPort (Port link); user ← linkUserString link; k port user) = Panicked <-> uUser link = None /\ is_ok (atoi (Port link)) = true.
Proof.
  intros Hk. unfold atoiPort, linkUserString. destruct (atoi (Port link)) as [n|]; cbn; [|naive_solver].
  destruct (uUser link) as [u|]; cbn; [|done]. split; [|by intros [? _]]. intros E. by apply Hk in E.
Qed.

Lemma user_panics link m : uScheme link ∈ userSchemes -> linkOutbound link [] = m ->
  m = Panicked <-> uUser link = None /\ is_ok (atoi (Port link)) = true.
Proof.
  assert (Hst := safe_stream link). intros Hin <-. unfold linkOutbound.
  unfold userSchemes in Hin. rewrite !elem_of_cons in Hin. destruct Hin as [e|[e|[e|[e|[e|Hin]]]]]; [..|by apply not_elem_of_nil in Hin]; rewrite e.
  - apply (after_port link). intros port user. safe.
  - apply (after_port link). intros port user. safe.
  - apply (after_port link). intros port user. safe.
  - apply (after_port link). intros port user. pose proof safe_security. safe.
  - apply (after_port link). intros port user. pose proof safe_security. safe.
Qed.

Lemma linkOutbound_panics link line : linkOutbound link line = Panicked <-> userless link line.
Proof.
  assert (Hst := safe_stream link). unfold userless.
  assert (Hss : str "ss" ∉ userSchemes) by (apply (bool_decide_unpack _); vm_compute; exact I).
  assert (Hvm : str "vmess" ∉ userSchemes) by (apply (bool_decide_unpack _); vm_compute; exact I).
  destruct (decide (uScheme link ∈ userSchemes)) as [Hin|Hin].
  { rewrite (user_panics link (linkOutbound link line)); [naive_solver|done|]. unfold linkOutbound.
    rewrite (bool_decide_eq_false_2 (uScheme link = str "vmess")); [done|]. intros e. by rewrite e in Hin. }
  destruct (decide (uScheme link = str "vmess")) as [e|Hv].
  { transitivity (vmessOutbound link line = Panicked); [unfold linkOutbound; rewrite e; done|]. unfold vmessOutbound.
    destruct (decodeBase64Text (removeAll (str "vmess://") line 0)) as [b|] eqn:ed.
    - split; [|naive_solver]. intros E. exfalso. revert E. change (safe (parseVMessQrCode b)).
      unfold parseVMessQrCode. apply safe_bind; [apply safe_orFail|exact safe_qr].
    - rewrite (after_port link); [naive_solver|]. intros port user. safe. }
  split; [|naive_solver]. intros E. exfalso. revert E. change (safe (linkOutbound link line)). unfold linkOutbound.
  destruct (decide (uScheme link = str "ss")) as [e|Hs].
  { rewrite bool_decide_eq_true_2 by done. unfold shadowsocksOutbound, parseShadowsocksUserInfo. safe. }
  unfold userSchemes in Hin. rewrite !not_elem_of_cons in Hin. destruct Hin as (? & ? & ? & ? & ? & _).
  rewrite !bool_decide_eq_false_2; try done. rewrite !not_elem_of_cons. split_and!; try done. apply not_elem_of_nil.
Qed.

Definition userlessLine (raw : bytes) : Prop := exists link, Parse (trimSpace raw) = Some link /\ userless link (trimSpace raw).

Lemma parseLine_panics raw : parseLine raw = Panicked <-> userlessLine raw.
Proof.
  unfold parseLine, userlessLine. case_bool_decide as e.
  { split; [done|]. intros (link & Hl & _). by rewrite e in Hl. }
  destruct (Parse (trimSpace raw)) as [link|]; [|split; [done|by intros (? & ? & _)]].
  pose proof (linkOutbound_panics link (trimSpace raw)) as Hp. destruct (linkOutbound link (trimSpace raw)); naive_solver.
Qed.

Lemma parseLine_fails raw : parseLine raw <> Failed.
Proof. unfold parseLine. by repeat case_match. Qed.

(** C34: Reading share lines panics exactly when a line is a link of VLESS, SOCKS,
    Trojan, Hysteria or plain VMess with a port and without user information; any
    other text that cannot be read is an error or a skipped line. *)
Theorem share_lines_panic text : parsePlainShareLines text = Panicked <-> Exists userlessLine (splitByte 10 text).
Proof.
  unfold parsePlainShareLines. assert (Hl : parseLines (splitByte 10 text) = Panicked <-> Exists userlessLine (splitByte 10 text)).
  { induction (splitByte 10 text) as [|raw lines IH]; [split; [done|intros H0; by inversion H0]|].
    rewrite Exists_cons, <- parseLine_panics, <- IH. cbn [parseLines]. pose proof (parseLine_fails raw) as Hf.
    destruct (parseLine raw) as [ob| |]; cbn [mbind outcome_bind]; [|done|naive_solver].
    destruct (parseLines lines); cbn [mbind outcome_bind]; naive_solver. }
  rewrite <- Hl. destruct (parseLines (splitByte 10 text)) as [obs| |]; cbn [mbind outcome_bind]; [|done..]. by case_bool_decide.
Qed.
End protocols.

(** ** What links do not carry *)

(** A plus sign of an identifier, a Trojan password or a Hysteria key comes back as
    a space. *)
Theorem plus_becomes_space n : bytes_ok n ->
  QueryUnescape (userString (mkUser n None)) = Some (map (fun c => if c =? 43 then 32 else c) n).
Proof.
  intros Hn. unfold userString. cbn [uiUsername uiPassword]. rewrite app_nil_r. induction Hn as [|c n Hc Hn IH]; [done|].
  destruct (Z.eqb_spec c 43) as [->|Hne]; [by rewrite QueryUnescape_plus, IH|]. cbn [map]. rewrite (proj2 (Z.eqb_neq c 43)) by done.
  unfold QueryUnescape in *. rewrite escape_cons. unfold escapeByte. destruct (shouldEscape encodeUserPassword c) eqn:e.
  - rewrite andb_false_r. cbn [app]. by rewrite unescape_hex, IH by done.
  - cbn [app]. rewrite unescape_other, IH; [done|done| |by intros _]. by apply (plain_byte encodeUserPassword).
Qed.

(** A user name of base64 with a slash is written and printed again with an escape,
    which is no base64. *)
Theorem slash_refused p : bytes_ok p -> 47 ∈ b64Encode p ->
  decodeBase64Text (userString (mkUser (b64Encode p) None)) = None /\ parseShadowsocksUserInfo (Some (mkUser (b64Encode p) None)) = Failed.
Proof.
  intros Hp Hin. assert (H37 : 37 ∈ userString (mkUser (b64Encode p) None)).
  { unfold userString. cbn [uiUsername uiPassword]. rewrite app_nil_r. induction (b64Encode p) as [|c s IH]; [by apply not_elem_of_nil in Hin|].
    rewrite escape_cons, elem_of_app. apply elem_of_cons in Hin as [<-|Hin]; [left; by left|right; by apply IH]. }
  assert (Hd : decodeBase64Text (userString (mkUser (b64Encode p) None)) = None) by (by apply (decodeBase64Text_bad 37)).
  split; [done|]. unfold parseShadowsocksUserInfo. cbn [uiPassword]. by rewrite Hd.
Qed.

Section lost.
Context `{ShareJson}.

(** Under its other names a transport is written without settings, though the
    reader gives them settings. *)
Theorem alias_settings_dropped ss network : network ∈ [str "tcp"; str "mkcp"; str "websocket"; str "splithttp"] -> networkQuery network ss = id.
Proof. intros Hin. repeat (apply elem_of_cons in Hin as [->|Hin]; [done|]). by apply not_elem_of_nil in Hin. Qed.

(** Every KCP link, also one without header and seed, gives an outbound that Xray
    refuses; every link of type gun is an error. *)
Theorem kcp_refused t : kcpBuilds (buildKcp t) = false.
Proof. unfold kcpBuilds, buildKcp. cbn [kcpSeed]. rewrite (bool_decide_eq_true_2 (is_Some (Some (tfSeed t)))) by (by eexists). by rewrite orb_true_r. Qed.

Theorem gun_refused link ss : scNetwork ss = Some (str "gun") -> parseSecurityFromURL link ss = Failed.
Proof. intros Hn. unfold parseSecurityFromURL. by rewrite Hn. Qed.

(** Settings without address (servers listed under vnext or servers) are written with
    the host "<nil>". *)
Theorem nil_address_written ob cs : obSettings ob = Some cs -> csAddress cs = None -> obProtocol ob = str "vless" ->
  exists u, shareLink ob = Some u /\ uHost u = str "<nil>:" ++ itoa (csPort cs).
Proof.
  intros Hset Ha Hp. unfold shareLink. rewrite Hp.
  assert (Hh : forall u, uHost (streamSettingsQuery ob u) = uHost u).
  { intros u. unfold streamSettingsQuery. destruct (obStream ob); [|done]. by case_match. }
  eexists. split; [transitivity (link ← vlessLink ob; Some (streamSettingsQuery ob link)); [reflexivity|]; unfold vlessLink; rewrite Hset; reflexivity|].
  rewrite Hh. cbn -[str itoa]. by rewrite Ha.
Qed.
End lost.

(** ** Samples *)
Definition sampleJson : ShareJson := {|
  extraText := Some; marshalFinalMask := fun _ => str "{}"; unmarshalFinalMask := fun _ => None;
  marshalSalamander := fun p => p; unmarshalSalamander := Some; unmarshalQrCode := fun _ => None;
  unmarshalOutbounds := fun _ => None; readClash := fun _ => None; envFlag := fun _ => []; builds := fun _ => true
|}.

Definition sampleWs : outbound :=
  mkOutbound (str "vless") (Some (str "node #1 / x")) []
    (Some (emptySettings <| csAddress := Some (domainAddress (str "a.example")) |> <| csPort := 443 |> <| csId := str "user:1@x" |>))
    (Some (emptyStream <| scNetwork := Some (str "ws") |> <| scSecurity := str "tls" |>
      <| scWS := Some (mkHostPath (str "cdn.example") (str "/p?a=b&c")) |>
      <| scTLS := Some (mkTLS [] (Some [str "h2"; str "http/1.1"]) (str "chrome") [] [] [] true) |>)).
Definition sampleHysteria : outbound :=
  mkOutbound (str "hysteria") None (str "hop")
    (Some (emptySettings <| csAddress := Some (ipv4Address [1; 2; 3; 4]) |> <| csPort := 8443 |>))
    (Some (emptyStream <| scNetwork := Some (str "hysteria") |> <| scHysteria := Some (mkHysteria 2 (str "key")) |>
      <| scFinalMask := Some (mkFinalMask [] [mkMask (str "salamander") (Some (str "pw"))]
           (Some (mkQuic (str "brutal") (str "50 mbps") [] (mkHop [(20000, 40000); (443, 443)] (mkRange 30 30 30 30))))) |>)).

#[local] Existing Instance sampleJson.

Lemma bytes_check l : forallb (fun x => (0 <=? x) && (x <? 256)) l = true -> bytes_ok l.
Proof.
  intros Hf. rewrite forallb_forall in Hf. apply Forall_forall. intros x Hx%list_elem_of_In. apply Hf in Hx. unfold is_u8. lia.
Qed.
#[local] Ltac decide_it := apply (bool_decide_unpack _); vm_compute; exact I.
#[local] Ltac texts_ok := repeat first [apply bytes_check; reflexivity | apply Forall_nil_2 | apply Forall_cons; split].

Lemma sampleWs_linkable : linkable sampleWs.
Proof.
  eexists. split; [reflexivity|]. split; [|split; [apply bytes_check; reflexivity|split]].
  - split; [split; [split; [decide_it|reflexivity]|split; [by eexists|cbn; lia]]|texts_ok].
  - right. right. left. split; [reflexivity|decide_it].
  - right. unfold streamOk. split_and!; try done; try (apply bytes_check; reflexivity); try (by eexists).
    + unfold tlsOk. cbn [optOk]. split_and!; try (apply bytes_check; reflexivity). split; [|done].
      repeat first [apply Forall_nil_2 | apply Forall_cons; split]; (split; [apply bytes_check; reflexivity|decide_it]).
    + split; apply bytes_check; reflexivity.
Qed.

Lemma sampleHysteria_linkable : linkable sampleHysteria.
Proof.
  eexists. split; [reflexivity|]. split; [|split; [apply bytes_check; reflexivity|split]].
  - split; [split; [split; [apply bytes_check; reflexivity|reflexivity]|split; [by eexists|cbn; lia]]|texts_ok].
  - do 5 right. split; [reflexivity|]. eexists. split; [reflexivity|]. split; [done|]. split; [done|]. split.
    + split; [|split; [apply bytes_check; reflexivity|done]]. split; [apply bytes_check; reflexivity|]. split; [apply bytes_check; reflexivity|].
      split; [|cbn; lia]. repeat (apply Forall_cons; split); try apply Forall_nil_2; (split; unfold portNumber; cbn; lia).
    + eexists. split; [reflexivity|]. split; [apply bytes_check; reflexivity|decide_it].
  - by left.
Qed.

(** Two of them: a name with spaces and signs, a path with a query, masks and ports. *)
Theorem links_roundtrip_witness :
  [sampleWs; sampleHysteria] <> [] /\ Forall linkable [sampleWs; sampleHysteria] /\
  exists text, ConvertXrayJsonToShareLinks [sampleWs; sampleHysteria] = Some text /\
    ConvertShareLinksToXrayJson text = filterBuildableOutbounds (carried <$> [sampleWs; sampleHysteria]).
Proof.
  split; [done|]. assert (Hl : Forall linkable [sampleWs; sampleHysteria]).
  { apply Forall_cons. split; [exact sampleWs_linkable|]. apply Forall_cons. split; [exact sampleHysteria_linkable|constructor]. }
  split; [exact Hl|]. apply (links_roundtrip [sampleWs; sampleHysteria]); [done|exact Hl].
Defined.

(** What the two links are, and a line that panics. *)
Example sample_links : ConvertXrayJsonToShareLinks [sampleWs; sampleHysteria] =
  Some (str "vless://user%3A1%40x@a.example:443?alpn=h2%2Chttp%2F1.1&fp=chrome&host=cdn.example&insecure=1&path=%2Fp%3Fa%3Db%26c&security=tls&type=ws#node%20%231%20/%20x" ++
        10 :: str "hysteria2://key@1.2.3.4:8443?hop-interval=30&obfs=salamander&obfs-password=pw&ports=20000-40000%2C443&up=50+mbps#hop").
Proof. vm_compute. reflexivity. Qed.
Example sample_panic : ConvertShareLinksToXrayJson (str "vless://a.example:443") = Panicked.
Proof. vm_compute. reflexivity. Qed.
