(* ===== verification/PrEngine.v ===== *)
(** * The live tunnel
      ([src/awg-ios/cmd/persianray/engine.go], [hop.go], [export.go])

    The process holds devices and listeners; a tunnel owns an outer device, maybe
    an inner one whose datagrams go through the outer one's network stack, and the
    listener of its SOCKS5 server.  A device and its network stack share one
    number.  A call of the engine runs to its end before the devices' workers go
    on.  The network stack, the system's sockets and the look-up of the exit are
    the class [EngineEnv]. *)

From stdpp Require Import base numbers list gmap strings.
From Stdlib Require Import ZArith Lia.
From S2P Require Import Prelude GoStrings NoiseTypes Crypto Replay RateLimiter Tai64n AllowedIPs NetIP Obf DeviceTypes Messages Noise NoiseRun Timers Cookie Packet Send Receive Lifecycle GoNet PrConfig PrI1 Uapi.

Inductive engineError :=
  | EConfig (e : cfgError) | EAddr | ETun | EIpc (e : ipcError) | EUp (e : goErr) | EHop | ELookup | EListen
  | ENotRunning | ENotHop | EBadEndpoint.

Record awgTunnel := mkTunnel {
  outerDev : option nat;
  innerDev : option nat;
  outerNet : option nat;
  innerNet : option nat;
  outerLocal : ipAddr;
  innerLocal : ipAddr;
  ln : option nat;
  tcfg : socksConfig
}.
#[global] Instance rebuild_awgTunnel : Rebuild awgTunnel := fun t =>
  mkTunnel (outerDev t) (innerDev t) (outerNet t) (innerNet t) (outerLocal t) (innerLocal t) (ln t) (tcfg t).

(** The devices with their kind (inner or not), the open listeners, the variable
    [live], the tunnels that the probes of pings hold at the moment, the count of
    blocked ads, the clock and the random bytes drawn. *)
Record World := mkWorld {
  devs : gmap nat (bool * Device);
  listening : gset nat;
  live : option awgTunnel;
  probes : gmap nat awgTunnel;
  adBlockPending : Z;
  clock : Z;
  wdrawn : nat
}.
#[global] Instance rebuild_World : Rebuild World := fun w =>
  mkWorld (devs w) (listening w) (live w) (probes w) (adBlockPending w) (clock w) (wdrawn w).

Record hopEgress := mkEgress { egIP : list Z; egCountry : list Z }.
Definition noEgress : hopEgress := mkEgress [] [].

Class EngineEnv := {
  createNetTUN : World -> ipAddr -> ipAddr -> Z -> bool;
  listenTCP : World -> list Z -> bool;
  lookupEgress : World -> option nat -> option hopEgress
}.

(** [netip.ParseAddr] of what stands before the slash; the zone is left out. *)
Definition parseAddr (cidr : list Z) : option ipAddr :=
  let s := trimSpace cidr in
  let s := match indexByte s 47 with Some i => take i s | None => s end in
  fst <$> ParseAddr s.

Definition dnsAddr (c : socksConfig) : ipAddr :=
  match ParseAddr (cDNS c) with Some (a, _) => a | None => mkIP 4 0x01010101 end.

(** ** The exits of the two hops *)

Definition hopExitsDiffer (a b : hopEgress) : bool :=
  let ac := toUpper (trimSpace (egCountry a)) in
  let bc := toUpper (trimSpace (egCountry b)) in
  if negb (bool_decide (ac = [])) && negb (bool_decide (bc = [])) then negb (bool_decide (ac = bc))
  else negb (bool_decide (egIP a = [])) && negb (bool_decide (egIP b = [])) && negb (bool_decide (egIP a = egIP b)).

(** The loop over the lines of the trace: the first line that starts with [ip=]. *)
Fixpoint traceIP (lines : list (list Z)) : list Z :=
  match lines with
  | [] => []
  | line :: lines => let line := trimSpace line in if hasPrefix line (str "ip=") then trimPrefix line (str "ip=") else traceIP lines
  end.

(** [lookupTrace], from the body of the answer. *)
Definition lookupTrace (body : list Z) : option hopEgress :=
  let ip := traceIP (splitByte 10 body) in
  if bool_decide (ip = []) then None else Some (mkEgress ip []).

Section Engine.
Context `{C : Crypto} `{N : Entropy} (bindOf : bool -> Bind) `{E : EngineEnv}.

(** ** Devices of the process *)

(** [NewDevice] on a network stack of the given MTU. *)
Definition newDev (inner : bool) (tunMTU : Z) (w : World) : nat * World :=
  let id := base.fresh (dom (devs w)) in
  (id, w <| devs ::= <[id := (inner, NewDevice (Some tunMTU) (clock w) <| drawn := wdrawn w |>)]> |>).

(** A method of device [id]. *)
Definition runDev {Er A} (id : nat) (m : Bind -> ste Device Er A) (dflt : Er) : ste World Er A := fun w =>
  match devs w !! id with
  | None => (Err dflt, w)
  | Some (k, d) => let '(r, d) := m (bindOf k) d in (r, w <| devs ::= <[id := (k, d)]> |>)
  end.

Definition closeDev (id : nat) (w : World) : World :=
  w <| devs ::= alter (fun kd => (kd.1, Close (B := bindOf kd.1) kd.2)) id |>.

(** [dev.IpcSet] and [dev.Up]; on an error the device is closed. *)
Definition configureDev (id : nat) (conf : list Z) : ste World engineError unit := fun w =>
  match runDev id (fun B => IpcSet conf) IpcErrorInvalid w with
  | (Err e, w) => (Err (EIpc e), closeDev id w)
  | (Ok _, w) =>
      match runDev id (fun B => Up) ErrDeviceClosed w with
      | (Err e, w) => (Err (EUp e), closeDev id w)
      | (Ok _, w) => (Ok tt, w)
      end
  end.

(** ** The inner hop *)

Abbreviation TM := (ste (awgTunnel * World) engineError unit).

(** The inner device goes before its successor is made. *)
Definition dropInner (t : awgTunnel) (w : World) : awgTunnel * World :=
  match innerDev t with
  | Some id => (t <| innerDev := None |> <| innerNet := None |>, closeDev id w)
  | None => (t, w)
  end.

Definition replaceInner (cfg : socksConfig) (endpoint : list Z) : TM := fun '(t, w) =>
  let '(t, w) := dropInner t w in
  match parseAddr (cInnerAddress cfg) with
  | None => (Err EAddr, (t, w))
  | Some local =>
      if negb (createNetTUN w local (dnsAddr cfg) 1200) then (Err ETun, (t, w))
      else
        let '(id, w) := newDev true 1200 w in
        match innerUAPI cfg endpoint (wdrawn w) with
        | (Err e, pos) => (Err (EConfig e), (t, closeDev id (w <| wdrawn := pos |>)))
        | (Ok conf, pos) =>
            match configureDev id conf (w <| wdrawn := pos |>) with
            | (Err e, w) => (Err e, (t, w))
            | (Ok _, w) => (Ok tt, (t <| innerDev := Some id |> <| innerNet := Some id |> <| innerLocal := local |>, w))
            end
        end
  end.

(** The loop over the hosts: [first] is the exit of the outer tunnel. *)
Fixpoint hopLoop (cfg : socksConfig) (first : hopEgress) (hosts : list (list Z)) (lastErr : option engineError) : TM :=
  match hosts with
  | [] => fun '(t, w) =>
      match innerDev t with
      | None => (Err (default EHop lastErr), (t, w))
      | Some _ => (Ok tt, (t, w))
      end
  | ep :: hosts => fun s =>
      match replaceInner cfg ep s with
      | (Err e, s) => hopLoop cfg first hosts (Some e) s
      | (Ok _, s) =>
          if negb (cHopShield cfg) then (Ok tt, s)
          else
            let isLast := (length hosts =? 0)%nat in
            match lookupEgress s.2 (innerNet s.1) with
            | None => if isLast then (Ok tt, s) else hopLoop cfg first hosts (Some ELookup) s
            | Some second =>
                if hopExitsDiffer first second then (Ok tt, s)
                else if isLast then (Ok tt, s)
                else hopLoop cfg first hosts lastErr s
            end
      end
  end.

(** The hosts that are tried: one, or up to four with the shield. *)
Definition hopHosts (cfg : socksConfig) : list (list Z) :=
  let hosts := filterSame24 (hopInnerHosts cfg) (cEndpoint cfg) in
  let hosts := if (length hosts =? 0)%nat then [defaultHopEndpoint] else hosts in
  if negb (cHopShield cfg) then take 1 hosts
  else if (4 <? length hosts)%nat then take 4 hosts else hosts.

Definition startHop (cfg : socksConfig) : TM := fun s =>
  let first := if cHopShield cfg then default noEgress (lookupEgress s.2 (outerNet s.1)) else noEgress in
  hopLoop cfg first (hopHosts cfg) None s.

(** ** The tunnel *)

Definition socksTarget (t : awgTunnel) : option nat * ipAddr :=
  match innerNet t with
  | Some n => (Some n, innerLocal t)
  | None => (outerNet t, outerLocal t)
  end.

Definition closeTunnel (t : awgTunnel) (w : World) : World :=
  let w := match ln t with Some l => w <| listening ::= (fun s => s ∖ {[l]}) |> | None => w end in
  let w := match innerDev t with Some id => closeDev id w | None => w end in
  match outerDev t with Some id => closeDev id w | None => w end.

Definition newTunnel (dev : nat) (local : ipAddr) (cfg : socksConfig) : awgTunnel :=
  mkTunnel (Some dev) None (Some dev) None local (mkIP 0 0) None cfg.

(** The hop, then the listener; on an error the tunnel is closed. *)
Definition finishTunnel (cfg : socksConfig) (t : awgTunnel) (w : World) : result engineError awgTunnel * World :=
  match (if cHop cfg then startHop cfg (t, w) else (Ok tt, (t, w))) with
  | (Err e, (t, w)) => (Err e, closeTunnel t w)
  | (Ok _, (t, w)) =>
      if negb (listenTCP w (JoinHostPort (cBind cfg) (itoa (cSocksPort cfg)))) then (Err EListen, closeTunnel t w)
      else
        let l := base.fresh (listening w) in
        (Ok (t <| ln := Some l |>), w <| listening ::= (fun s => s ∪ {[l]}) |>)
  end.

Definition openTunnel (cfg : socksConfig) : ste World engineError awgTunnel := fun w =>
  match uapi cfg (wdrawn w) with
  | (Err e, pos) => (Err (EConfig e), w <| wdrawn := pos |>)
  | (Ok conf, pos) =>
      let w := w <| wdrawn := pos |> in
      match parseAddr (cAddress cfg) with
      | None => (Err EAddr, w)
      | Some local =>
          if negb (createNetTUN w local (dnsAddr cfg) 1280) then (Err ETun, w)
          else
            let '(id, w) := newDev false 1280 w in
            match configureDev id conf w with
            | (Err e, w) => (Err e, w)
            | (Ok _, w) => finishTunnel cfg (newTunnel id local cfg) w
            end
      end
  end.

Definition setHopInner (endpoint : list Z) : TM := fun '(t, w) =>
  if negb (cHop (tcfg t)) then (Err ENotHop, (t, w))
  else
    let ep := normalizeEndpoint endpoint in
    if bool_decide (ep = []) then (Err EBadEndpoint, (t, w))
    else replaceInner (tcfg t) ep (t, w).

(** ** The process *)

Definition dropLive (w : World) : World :=
  match live w with Some t => closeTunnel t w <| live := None |> | None => w end.

Definition startLive (cfg : socksConfig) : ste World engineError unit := fun w =>
  match openTunnel cfg (dropLive w) with
  | (Err e, w) => (Err e, w)
  | (Ok t, w) => (Ok tt, w <| live := Some t |>)
  end.

Definition stopLive (w : World) : World := dropLive w.

(** [live] points to the tunnel that is changed. *)
Definition setLiveHopInner (endpoint : list Z) : ste World engineError unit := fun w =>
  match live w with
  | None => (Err ENotRunning, w)
  | Some t => let '(r, (t, w)) := setHopInner endpoint (t, w) in (r, w <| live := Some t |>)
  end.

(** The exported functions; [c] is the decoded JSON. *)
Definition AwgStart (c : socksConfig) : ste World engineError unit := fun w =>
  match checkConfig c with
  | Err e => (Err (EConfig e), w)
  | Ok cfg => startLive cfg w
  end.
Definition AwgStop (w : World) : World := stopLive w.
Definition AwgSetHopInner (endpoint : list Z) : ste World engineError unit := setLiveHopInner endpoint.
Definition AwgAdBlockTake (w : World) : Z * World := (adBlockPending w, w <| adBlockPending := 0 |>).

(** The part of [pingOne] that touches the process: a probe opens a tunnel of its
    own, outside the lock of [live], holds it while it asks for its page, and
    closes it.  Probes of the same and of other pings, and every other call, may run in
    between. *)
Definition pingOpen (identity : socksConfig) (ep : list Z) (w : World) : result engineError unit * World :=
  if bool_decide (trimSpace ep = []) then (Err EBadEndpoint, w)
  else match openTunnel (cloneForPing identity ep) w with
  | (Err e, w) => (Err e, w)
  | (Ok t, w) => (Ok tt, w <| probes ::= <[base.fresh (dom (probes w)) := t]> |>)
  end.
Definition pingClose (n : nat) (w : World) : World :=
  match probes w !! n with Some t => closeTunnel t w <| probes ::= delete n |> | None => w end.

End Engine.

(** ** The text of an error in the answer of a ping ([jsonQuote]) *)

Definition jsonEscape (c : Z) : list Z :=
  if (c =? 92) || (c =? 34) then [92; c]
  else if c =? 10 then [92; 110]
  else if c =? 13 then [92; 114]
  else [c].
Definition jsonQuote (s : list Z) : list Z := 34 :: concat (map jsonEscape s) ++ [34].
