(* ===== verification/UapiThm.v ===== *)
(** * What a configuration operation preserves

    A "set" operation preserves every stable relation that does not look at the
    obfuscation settings, and the settings it leaves are consistent, whether the
    operation succeeds or stops at an error. *)

From stdpp Require Import base numbers list gmap strings.
From Stdlib Require Import ZArith Lia.
From S2P Require Import Prelude GoStrings NoiseTypes Crypto Replay RateLimiter Tai64n AllowedIPs NetIP Obf DeviceTypes Messages Noise Timers Cookie Packet PacketThm Send Receive Lifecycle Stable NoiseInv NoiseKeys KeysInv NonceInv Uapi.

(** The device's part of the state of a line handler. *)
Definition onSnd {X} (R : Device -> Device -> Prop) (s s' : X * Device) : Prop := R s.2 s'.2.

#[global] Instance onSnd_preorder {X} R : PreOrder R -> PreOrder (@onSnd X R).
Proof. intros [Hr Ht]. split; [intros s; apply Hr|]. intros s1 s2 s3. apply Ht. Qed.

Lemma switchKey_forall {A} (P : A -> Prop) key cases dflt :
  Forall (fun kc => P kc.2) cases -> P dflt -> P (switchKey key cases dflt).
Proof. induction 1 as [|[k a] cases Ha Hc IH]; intros Hd; cbn; [done|]. destruct (bool_decide _); auto. Qed.

Section Ipc.
Context `{C : Crypto} `{N : Entropy} `{B : Bind}.

(** ** Stability *)

Section Stability.
Context (R : Device -> Device -> Prop) `{!StableIO R}.

Lemma slift_keeps {S E A} (Q : S -> S -> Prop) `{!PreOrder Q} (m : result E A) : keeps Q (slift m).
Proof. by intros s. Qed.

Lemma uintLine_keeps bits set value : (forall n, keeps (onSnd R) (set n)) -> keeps (onSnd R) (uintLine bits set value).
Proof. intros H. apply keeps_bind; [apply _|by apply slift_keeps; apply _|done]. Qed.
Lemma rangeLine_keeps set value : (forall n, keeps (onSnd R) (set n)) -> keeps (onSnd R) (rangeLine set value).
Proof. intros H. apply keeps_bind; [apply _|by apply slift_keeps; apply _|done]. Qed.
Lemma boolLine_keeps set value : (forall n, keeps (onSnd R) (set n)) -> keeps (onSnd R) (boolLine set value).
Proof. intros H. apply keeps_bind; [apply _|by apply slift_keeps; apply _|done]. Qed.
Lemma onDevice_keeps f : (forall d, R d (f d)) -> keeps (onSnd R) (onDevice f).
Proof. intros H s. apply H. Qed.
Lemma onIpc_keeps f : keeps (onSnd R) (onIpc f).
Proof. intros s. unfold onSnd. cbn. reflexivity. Qed.
Lemma orPortInUse_keeps m : keeps R m -> keeps (onSnd R) (orPortInUse m).
Proof.
  intros H s. unfold orPortInUse, onSnd. specialize (H s.2). destruct (m s.2) as [[[]|e] d]; exact H.
Qed.
Lemma ipacketLine_keeps i value : keeps (onSnd R) (ipacketLine i value).
Proof.
  apply keeps_bind; [apply _|by apply slift_keeps; apply _|intros c]. apply onDevice_keeps. intros d. apply st_core. solve_core.
Qed.
Lemma must_keeps b : keeps (onSnd R) (must b).
Proof. intros s. unfold onSnd. destruct b; reflexivity. Qed.

Lemma handleDeviceLine_keeps key value : keeps (onSnd R) (handleDeviceLine key value).
Proof.
  unfold handleDeviceLine. apply (switchKey_forall (fun h => keeps (onSnd R) (h value))); [|intros s; unfold onSnd; reflexivity].
  repeat constructor; cbn [snd];
    try (apply uintLine_keeps || apply rangeLine_keeps || apply boolLine_keeps; intros n);
    try apply onIpc_keeps; try apply ipacketLine_keeps; try (apply onDevice_keeps; intros d; apply st_core; solve_core).
  - apply keeps_bind; [apply _|by apply slift_keeps; apply _|intros sk]. apply onDevice_keeps. by apply SetPrivateKey_stable.
  - apply keeps_bind; [apply _|apply onDevice_keeps; intros d; apply st_core; solve_core|intros _].
    apply orPortInUse_keeps, (keeps_core R), BindUpdate_core.
  - apply orPortInUse_keeps, (keeps_core R), BindSetMark_core.
  - apply keeps_bind; [apply _|apply must_keeps|intros _]. apply onDevice_keeps. by apply RemoveAllPeers_stable.
  - apply keeps_bind; [apply _|by apply slift_keeps; apply _|intros k]. apply onIpc_keeps.
Qed.

Lemma modTarget_core f s d :
  (forall P, keypairs (f P) = keypairs P /\ hsLocalIndex (handshake (f P)) = hsLocalIndex (handshake P) /\
             hsState (handshake (f P)) = hsState (handshake P) /\
             lastTimestamp (handshake (f P)) = lastTimestamp (handshake P)) -> sameCore d (modTarget f s d).2.
Proof. intros H. unfold modTarget. destruct (ipTarget s); [done|done|]. by apply sameCore_modPeer. Qed.

Lemma pmod_keeps f : (forall s d, R d (f s d).2) -> keeps (onSnd R) (pmod f).
Proof. intros H s. apply H. Qed.
Lemma pmust_keeps b : keeps (onSnd R) (pmust b).
Proof. intros s. unfold onSnd. destruct b; reflexivity. Qed.

Lemma RemovePeer_stable key d : R d (RemovePeer key d).
Proof. unfold RemovePeer. destruct (keyMap d !! key); [by apply removePeerLocked_stable|reflexivity]. Qed.

Lemma dropTarget_stable s d : R d (dropTarget s d).2.
Proof. unfold dropTarget. cbn [snd]. destruct (ipTarget s); [reflexivity..|apply RemovePeer_stable]. Qed.

Lemma allowedIpLine_keeps value : keeps (onSnd R) (allowedIpLine value).
Proof.
  unfold allowedIpLine. destruct (match value with 45 :: v => _ | _ => _ end) as [add v].
  apply keeps_bind; [apply _|by apply slift_keeps; apply _|intros prefix]. apply pmod_keeps. intros s d.
  destruct (ipTarget s); [reflexivity..|]. destruct add; apply si_routes.
Qed.

Lemma handlePeerLine_keeps key value : keeps (onSnd R) (handlePeerLine key value).
Proof.
  unfold handlePeerLine. apply (switchKey_forall (fun h => keeps (onSnd R) (h value))); [|intros s; unfold onSnd; reflexivity].
  repeat constructor; cbn [snd].
  - apply keeps_bind; [apply _|apply pmust_keeps|intros _]. apply pmod_keeps. intros s d.
    destruct (ipTarget s); [reflexivity..|]. destruct (ipCreated s); [apply dropTarget_stable|reflexivity].
  - apply keeps_bind; [apply _|apply pmust_keeps|intros _]. apply pmod_keeps, dropTarget_stable.
  - apply keeps_bind; [apply _|by apply slift_keeps; apply _|intros psk]. apply pmod_keeps. intros s d.
    apply st_core, modTarget_core. intros P; repeat split.
  - intros [s d]. unfold onSnd. cbn [snd]. destruct (parseEndpoint d value) as [ep|]; cbn [snd]; [|reflexivity].
    apply st_core, modTarget_core. intros P; repeat split.
  - apply keeps_bind; [apply _|by apply slift_keeps; apply _|intros r]. apply pmod_keeps. intros s d. apply st_core.
    pose proof (modTarget_core (fun P => P <| persistentKeepaliveInterval := r |>) s d ltac:(intros P; repeat split)) as H.
    by destruct (modTarget _ s d) as [s' d'].
  - apply keeps_bind; [apply _|apply pmust_keeps|intros _]. apply pmod_keeps. intros s d.
    destruct (ipTarget s); [reflexivity..|]. apply si_routes.
  - apply allowedIpLine_keeps.
  - apply pmust_keeps.
Qed.

Lemma handlePostConfig_stable s d : R d (handlePostConfig s d).
Proof.
  unfold handlePostConfig. destruct (ipTarget s) as [| |p]; [reflexivity..|].
  set (d1 := if ipCreated s then _ else _).
  assert (H1 : R d d1) by (apply st_core; unfold d1; destruct (ipCreated s); solve_core).
  etransitivity; [exact H1|]. destruct (isUp d1); [|reflexivity].
  etransitivity; [by apply (Start_stable _ p)|].
  etransitivity; [|apply (SendStagedPackets_stable R)]. destruct (pkaOn s); [apply (SendKeepalive_stable R)|reflexivity].
Qed.

Lemma handlePublicKeyLine_keeps value : keeps (onSnd R) (handlePublicKeyLine value).
Proof.
  intros [s d]. unfold handlePublicKeyLine, onSnd. cbn [snd]. destruct (keyFromHex value) as [pk|e]; cbn [snd]; [|reflexivity].
  destruct (bool_decide _); cbn [snd]; [reflexivity|]. destruct (LookupPeer d pk); cbn [snd]; [reflexivity|].
  pose proof (st_newPeer (R:=R) pk d) as H. destruct (NewPeer pk d) as [[p|e] d']; exact H.
Qed.

Lemma handleLine_keeps line : keeps (onSnd R) (handleLine line).
Proof.
  unfold handleLine. destruct (cutByte 61 line) as [[key value] ok]. destruct (negb ok); [intros s; unfold onSnd; reflexivity|].
  assert (Hp : forall m, keeps (onSnd R) m -> keeps (onSnd R) (onPeerState m)).
  { intros m H [st d]. unfold onPeerState, onSnd. specialize (H (ipcPeerS st, d)). destruct (m _) as [r [s d']]. exact H. }
  assert (Hd : forall m, keeps (onSnd R) m -> keeps (onSnd R) (onDeviceState m)).
  { intros m H [st d]. unfold onDeviceState, onSnd. specialize (H (ipcDev st, d)). destruct (m _) as [r [s d']]. exact H. }
  destruct (bool_decide _).
  - apply keeps_bind; [apply _| |intros _].
    + apply keeps_mod. intros [st d]. unfold onSnd. cbn [snd]. apply handlePostConfig_stable.
    + apply Hp, handlePublicKeyLine_keeps.
  - intros [st d]. destruct (deviceConfig st); [apply Hd, handleDeviceLine_keeps|apply Hp, handlePeerLine_keeps].
Qed.

Context (Rmerge : forall i d, R d (mergeWithDevice i d).2).

Lemma finishIpc_stable st d : R d (finishIpc st d).2.
Proof.
  unfold finishIpc. pose proof (Rmerge (ipcDev st) d) as H. destruct (mergeWithDevice _ d) as [[[]|e] d1]; [|exact H].
  etransitivity; [exact H|apply handlePostConfig_stable].
Qed.

Lemma IpcSet_stable conf d : R d (IpcSet conf d).2.
Proof.
  unfold IpcSet. destruct (scanLines conf) as [lines tooLong]. generalize (ipcStart d). revert d.
  induction lines as [|line lines IH]; intros d st; cbn [ipcLines].
  { pose proof (finishIpc_stable st d) as H. by destruct (finishIpc st d) as [[[]|e] d1]. }
  destruct line as [|b line]; [apply finishIpc_stable|].
  pose proof (handleLine_keeps (b :: line) (st, d)) as H. unfold onSnd in H.
  destruct (handleLine _ _) as [[[]|e] [st1 d1]]; cbn [snd] in *; [|exact H]. etransitivity; [exact H|apply IH].
Qed.
End Stability.

(** Merging touches the settings only. *)
Lemma merge_rest i d : let d' := (mergeWithDevice i d).2 in
  peerStore d' = peerStore d /\ indexTable d' = indexTable d /\ keypairStore d' = keypairStore d /\
  outStore d' = outStore d /\ encryptionQ d' = encryptionQ d /\ sealedLog d' = sealedLog d /\ spinning d' = spinning d.
Proof. unfold mergeWithDevice. destruct (negb _); [done|]. by destruct (_ && _). Qed.

Lemma merge_keys i d : keysStep d (mergeWithDevice i d).2.
Proof. destruct (merge_rest i d) as (H1 & H2 & H3 & H4 & H5 & H6 & H7). by apply keysStep_frame, rest_frame. Qed.

Lemma merge_nonce i d : nonceStep d (mergeWithDevice i d).2.
Proof.
  destruct (merge_rest i d) as (H1 & H2 & H3 & H4 & H5 & H6 & H7). unfold nonceStep. apply nonce_frame; try done.
  - intros k kp Hk. exists kp. rewrite H3. split; [done|lia].
  - intros HI k kp. rewrite H3. apply HI.
Qed.

(** ** The settings stay consistent *)

Record ipc_ok (i : ipcSetDevice) : Prop := {
  io_ranges : range_wf (tInit (idHeaders i)) /\ range_wf (tResponse (idHeaders i)) /\
              range_wf (tCookie (idHeaders i)) /\ range_wf (tTransport (idHeaders i));
  io_paddings : is_u32 (tInit (idPaddings i)) /\ is_u32 (tResponse (idPaddings i)) /\
                is_u32 (tCookie (idPaddings i)) /\ is_u32 (tTransport (idPaddings i))
}.

Definition okStep {X} (s s' : ipcSetDevice * X) : Prop := ipc_ok s.1 -> ipc_ok s'.1.
#[local] Instance okStep_preorder {X} : PreOrder (@okStep X).
Proof. split; [intros s H; exact H|]. unfold okStep. intros s1 s2 s3. auto. Qed.

Lemma rangeLine_ok set value : (forall r, range_wf r -> keeps okStep (set r)) -> keeps okStep (rangeLine set value).
Proof.
  intros H s. unfold rangeLine, sbind, invalid, slift. destruct (rangeFromString value) as [r|e] eqn:E; [|by intros ?].
  apply H. by eapply rangeFromString_wf.
Qed.
Lemma uintLine_ok bits set value : 0 <= bits <= 32 ->
  (forall n, is_u32 n -> keeps okStep (set n)) -> keeps okStep (uintLine bits set value).
Proof.
  intros Hb H s. unfold uintLine, sbind, invalid, slift. destruct (parseUint value bits) as [n|e] eqn:E; [|by intros ?].
  apply H. apply parseUint_bound in E; [|lia]. pose proof (Z.pow_le_mono_r 2 bits 32). unfold is_u32. lia.
Qed.
Lemma onDevice_ok f : keeps okStep (onDevice f).
Proof. intros s H. exact H. Qed.
Lemma orPortInUse_ok m : keeps okStep (orPortInUse m).
Proof. intros s. unfold orPortInUse, okStep. by destruct (m s.2) as [[[]|e] d]. Qed.

Lemma handleDeviceLine_ok key value : keeps okStep (handleDeviceLine key value).
Proof.
  unfold handleDeviceLine. apply (switchKey_forall (fun h => keeps okStep (h value))); [|intros s H; exact H].
  assert (Hi : forall f, (forall i, ipc_ok i -> ipc_ok (f i)) -> keeps okStep (onIpc f)) by (intros f Hf s H; apply Hf, H).
  assert (Hs : forall A (m : ste (ipcSetDevice * Device) ipcError A), (forall s, (m s).2 = s) -> keeps okStep m)
    by (intros A m Hm s; unfold okStep; by rewrite Hm).
  unfold deviceKeys, interfaceKeys, obfuscationKeys, tunableKeys. cbn [app]. repeat apply Forall_cons_2; cbn [snd];
    try lazymatch goal with
        | |- keeps _ (uintLine _ _ _) => apply uintLine_ok; [lia|intros n Hn]
        | |- keeps _ (rangeLine _ _) => apply rangeLine_ok; intros r Hr
        end;
    try lazymatch goal with
        | |- keeps _ (onDevice _) => apply onDevice_ok
        | |- keeps _ (orPortInUse _) => apply orPortInUse_ok
        | |- keeps _ (onIpc _) => apply Hi; intros i [(W1 & W2 & W3 & W4) (P1 & P2 & P3 & P4)]; by split
        end.
  - apply keeps_bind; [apply _|by apply Hs|intros sk]. apply onDevice_ok.
  - apply keeps_bind; [apply _|apply onDevice_ok|intros _]. apply orPortInUse_ok.
  - apply keeps_bind; [apply _|apply Hs; intros s; by destruct (bool_decide _)|intros _]. apply onDevice_ok.
  - apply keeps_bind; [apply _|by apply Hs|intros c]. apply onDevice_ok.
  - apply keeps_bind; [apply _|by apply Hs|intros c]. apply onDevice_ok.
  - apply keeps_bind; [apply _|by apply Hs|intros c]. apply onDevice_ok.
  - apply keeps_bind; [apply _|by apply Hs|intros c]. apply onDevice_ok.
  - apply keeps_bind; [apply _|by apply Hs|intros c]. apply onDevice_ok.
  - apply keeps_bind; [apply _|by apply Hs|intros k]. apply Hi. intros i [W P]. by split.
  - apply keeps_bind; [apply _|by apply Hs|intros b]. apply onDevice_ok.
  - apply keeps_bind; [apply _|by apply Hs|intros b]. apply onDevice_ok.
  - apply Forall_nil_2.
Qed.

Lemma config_ok_step d d' : configStep d d' -> config_ok d -> config_ok d'.
Proof. intros (Hh & Hp & Hk) []. split; rewrite ?Hh, ?Hp, ?Hk; done. Qed.

Lemma merge_config i d : ipc_ok i -> config_ok d -> config_ok (mergeWithDevice i d).2.
Proof.
  intros [W P] Hd. unfold mergeWithDevice. destruct (noOverlap (idHeaders i)) eqn:E; cbn [negb]; [|done].
  unfold noOverlap in E. repeat (apply andb_true_iff in E as [E ?%negb_true_iff]). apply negb_true_iff in E.
  destruct (keyIsZero (idHeaderKey i)) eqn:Ez; cbn [negb andb].
  - split; cbn; [done..|]. by rewrite Ez.
  - destruct (paddingsHoldSalt (idPaddings i)) eqn:Ep; cbn [negb snd].
    + unfold paddingsHoldSalt in Ep. repeat (apply andb_true_iff in Ep as [Ep ?%Z.leb_le]). apply Z.leb_le in Ep.
      split; cbn; try done. 
    + destruct Hd. split; cbn; try done.
Qed.

Lemma handleLine_config line st d :
  ipc_ok (ipcDev st) -> config_ok d ->
  let '(_, (st', d')) := handleLine line (st, d) in ipc_ok (ipcDev st') /\ config_ok d'.
Proof.
  intros Hi Hd. pose proof (handleLine_keeps configStep line (st, d)) as Hc. unfold onSnd in Hc.
  assert (Ho : okStep (ipcDev st, d) (ipcDev (handleLine line (st, d)).2.1, d)).
  { unfold handleLine. destruct (cutByte 61 line) as [[key value] ok]. destruct (negb ok); [by intros ?|].
    assert (Hp : forall m st d, ipcDev (onPeerState m (st, d)).2.1 = ipcDev st).
    { intros m st1 d1. unfold onPeerState. by destruct (m _) as [r [s d']]. }
    destruct (bool_decide _).
    - unfold okStep, smod, sbind. cbn [fst]. by rewrite Hp.
    - destruct (deviceConfig st); [|unfold okStep; cbn [fst]; by rewrite Hp].
      unfold onDeviceState. pose proof (handleDeviceLine_ok key value (ipcDev st, d)) as H.
      destruct (handleDeviceLine key value _) as [r [i d']]. exact H. }
  specialize (Ho Hi). destruct (handleLine line (st, d)) as [r [st' d']]. cbn [fst snd] in *.
  split; [exact Ho|by apply (config_ok_step d)].
Qed.

Lemma finishIpc_config st d : ipc_ok (ipcDev st) -> config_ok d -> config_ok (finishIpc st d).2.
Proof.
  intros Hi Hd. unfold finishIpc. pose proof (merge_config (ipcDev st) d Hi Hd) as H.
  destruct (mergeWithDevice _ d) as [[[]|e] d1]; [|exact H]. cbn [snd] in *.
  eapply config_ok_step; [|exact H]. by apply (handlePostConfig_stable configStep).
Qed.

Lemma IpcSet_config conf d : config_ok d -> config_ok (IpcSet conf d).2.
Proof.
  intros Hd. unfold IpcSet. assert (Hi : ipc_ok (ipcDev (ipcStart d))) by (destruct Hd; by split).
  destruct (scanLines conf) as [lines tooLong]. revert Hi Hd. generalize (ipcStart d). revert d.
  induction lines as [|line lines IH]; intros d st Hi Hd; cbn [ipcLines].
  { pose proof (finishIpc_config st d Hi Hd) as H. by destruct (finishIpc st d) as [[[]|e] d1]. }
  destruct line as [|b line]; [by apply finishIpc_config|].
  pose proof (handleLine_config (b :: line) st d Hi Hd) as H.
  destruct (handleLine _ _) as [[[]|e] [st1 d1]]; destruct H as [Hi1 Hd1]; [by apply IH|exact Hd1].
Qed.

(** ** What an operation that fails leaves *)

(** What the merge refused: overlapping headers, or, after the headers were
    stored, paddings too short for the salt of the header protection. *)
Definition mergeRefused (i : ipcSetDevice) (d d' : Device) : Prop :=
  noOverlap (idHeaders i) = false /\ headers d' = headers d \/
  noOverlap (idHeaders i) = true /\ headers d' = idHeaders i /\
  keyIsZero (idHeaderKey i) = false /\ paddingsHoldSalt (idPaddings i) = false.

Lemma merge_error i d e d' :
  mergeWithDevice i d = (Err e, d') ->
  e = IpcErrorInvalid /\ mergeRefused i d d' /\ paddings d' = paddings d /\ headerProtectionKey d' = headerProtectionKey d.
Proof.
  unfold mergeWithDevice, mergeRefused. destruct (noOverlap (idHeaders i)) eqn:E; cbn [negb].
  - destruct (keyIsZero (idHeaderKey i)) eqn:Ez, (paddingsHoldSalt (idPaddings i)) eqn:Ep; cbn [negb andb]; intros [= <- <-].
    by repeat split; [right|..].
  - intros [= <- <-]. by repeat split; [left|..].
Qed.

Definition settingsKept (d : Device) (e : ipcError) (d' : Device) : Prop :=
  paddings d' = paddings d /\ headerProtectionKey d' = headerProtectionKey d /\
  (headers d' = headers d \/ e = IpcErrorInvalid /\ exists i, noOverlap (idHeaders i) = true /\ headers d' = idHeaders i /\
     keyIsZero (idHeaderKey i) = false /\ paddingsHoldSalt (idPaddings i) = false).

Lemma finishIpc_error d st d1 e d' : configStep d d1 -> finishIpc st d1 = (Err e, d') -> settingsKept d e d'.
Proof.
  intros (Hh & Hp & Hk). unfold finishIpc, settingsKept. destruct (mergeWithDevice (ipcDev st) d1) as [[[]|e1] d2] eqn:Em; [done|].
  intros [= -> ->]. destruct (merge_error _ _ _ _ Em) as (-> & Hr & -> & ->). split; [done|]. split; [done|].
  destruct Hr as [[_ ->]|Hr]; [by left|right]. split; [done|]. by exists (ipcDev st).
Qed.

Lemma ipcLines_error d tooLong lines st d1 e d' :
  configStep d d1 -> ipcLines tooLong lines st d1 = (Err e, d') -> e = IpcErrorIO \/ settingsKept d e d'.
Proof.
  revert st d1. induction lines as [|line lines IH]; intros st d1 H1; cbn [ipcLines].
  { pose proof (finishIpc_error d st d1 e d' H1) as H. destruct (finishIpc st d1) as [[[]|e1] d2].
    - destruct tooLong; [|done]. intros [= <- _]. by left.
    - intros [= -> ->]. right. by apply H. }
  destruct line as [|b line]; [right; by eapply finishIpc_error|].
  pose proof (handleLine_keeps configStep (b :: line) (st, d1)) as H. unfold onSnd in H.
  destruct (handleLine _ _) as [[[]|e1] [st1 d2]]; cbn [snd] in H.
  - apply IH. by transitivity d1.
  - intros [= -> ->]. assert (H2 : configStep d d') by (by transitivity d1). destruct H2 as (? & ? & ?). unfold settingsKept. auto.
Qed.

(** A configuration that fails changes nothing of what tells messages apart.
    When [IpcSet] returns an error, the paddings and the header protection key
    are those from before it; so are the header ranges, unless all lines were
    accepted and the final merge refused the paddings, which it checks after it
    has stored the headers.  The exception is a line that does not fit the
    scanner: what stood before it is merged, and then an error is reported. *)
Theorem ipc_error_keeps_settings conf d e d' : IpcSet conf d = (Err e, d') -> e = IpcErrorIO \/ settingsKept d e d'.
Proof. unfold IpcSet. destruct (scanLines conf) as [lines tooLong]. by apply ipcLines_error. Qed.
End Ipc.
