(* ===== verification/Events.v ===== *)
(** * The device as a transition system

    A step is one run of a handler: a worker takes an element, a batch arrives, a
    timer fires, a method of the device is called, time passes.  Handlers run one
    at a time; their order is arbitrary.  The handler of a handshake worker is
    several steps: a message is checked under a read lock, the handshake updated
    under a write lock, and then answered, and other workers and handlers may
    come in between, also with the same message.  What holds in every reachable state
    follows from the stability of the invariants. *)

From stdpp Require Import base numbers list gmap strings.
From Stdlib Require Import ZArith Lia.
From S2P Require Import Prelude GoStrings NoiseTypes Crypto Replay RateLimiter Tai64n AllowedIPs NetIP Obf DeviceTypes Messages Noise NoiseRun NoiseInv NoiseKeys Timers Cookie Packet PacketThm Send Receive Lifecycle Stable KeysInv NonceInv Uapi UapiThm.

Section Events.
Context `{C : Crypto} `{N : Entropy} `{B : Bind}.

Inductive devStep : Device -> Device -> Prop :=
  (* the environment *)
  | stepTime d t : now d <= t -> devStep d (d <| now := t |>)
  | stepLimiterGC d : devStep d (d <| limiter ::= (fun l => gcTick l (now d)) |>)
  | stepTUN d packets d' : readFromTUN d packets d' -> devStep d d'
  | stepReceive d batch d' : receiveBatch d batch d' -> devStep d d'
  | stepTUNEvent d e : devStep d (handleTUNEvent e d)
  (* the workers *)
  | stepEncrypt d d' : encryptionStep d = Some d' -> devStep d d'
  | stepDecrypt d d' : decryptionStep d = Some d' -> devStep d d'
  (* a handshake worker takes a message and checks it, and then goes on with it *)
  | stepHandshake d d' : RoutineHandshake d = Some d' -> devStep d d'
  | stepContinue d i d' : continueHandshake i d = Some d' -> devStep d d'
  | stepSender d p d' : RoutineSequentialSender p d = Stepped d' -> devStep d d'
  | stepReceiver d p d' : RoutineSequentialReceiver p d = Stepped d' -> devStep d d'
  (* the timers of a peer *)
  | stepRetransmit d p d' : fireRetransmitHandshake p d = Some d' -> devStep d d'
  | stepKeepalive d p d' : fireSendKeepalive p d = Some d' -> devStep d d'
  | stepNewHandshake d p d' : fireNewHandshake p d = Some d' -> devStep d d'
  | stepZeroKeys d p d' : fireZeroKeyMaterial p d = Some d' -> devStep d d'
  | stepPersistent d p d' : firePersistentKeepalive p d = Some d' -> devStep d d'
  (* the methods of the device *)
  | stepIpcSet d conf : devStep d (IpcSet conf d).2
  | stepUp d : devStep d (Up d).2
  | stepDown d : devStep d (Down d).2
  | stepClose d : devStep d (Close d)
  | stepNewPeer d pk : devStep d (NewPeer pk d).2
  | stepRemovePeer d pk : devStep d (RemovePeer pk d)
  | stepRemoveAllPeers d : devStep d (RemoveAllPeers d)
  | stepSetPrivateKey d sk : devStep d (SetPrivateKey sk d)
  | stepSetMark d m : devStep d (BindSetMark m d).2
  | stepBindUpdate d : devStep d (BindUpdate d).2
  | stepKeepalives d : devStep d (SendKeepalivesToPeersWithCurrentKeypair d)
  | stepBrokenRoaming d : devStep d (DisableSomeRoamingForBrokenMobileSemantics d).

(** The states of a device over its life. *)
Inductive reachable (d0 : Device) : Device -> Prop :=
  | reachHere : reachable d0 d0
  | reachStep d d' : reachable d0 d -> devStep d d' -> reachable d0 d'.

(** A stable relation holds along every step but a configuration. *)
Lemma devStep_cases (R : Device -> Device -> Prop) `{!StableState R} d d' :
  devStep d d' -> (exists conf, d' = (IpcSet conf d).2) \/ R d d'.
Proof.
  pose proof (ss_io (R:=R)) as HS'. pose proof (si_stable (R:=R)) as HS. intros H. destruct H; try (by left; eexists); right.
  - apply st_core. solve_core.
  - apply st_core. solve_core.
  - by eapply readFromTUN_stable.
  - by eapply receiveBatch_stable.
  - by apply handleTUNEvent_stable.
  - by apply st_encrypt.
  - unfold decryptionStep in H. destruct (decryptionQ d) as [|c q]; [done|]. injection H as <-.
    apply st_core. transitivity (d <| decryptionQ := q |>); [solve_core|apply decryptContainer_core].
  - by apply RoutineHandshake_stable.
  - by eapply continueHandshake_stable.
  - pose proof (RoutineSequentialSender_stable R p d) as H1. by rewrite H in H1.
  - pose proof (RoutineSequentialReceiver_stable R p d) as H1. by rewrite H in H1.
  - by eapply (fire_stable R _ _ _ _ _ _ (expiredRetransmitHandshake_stable R)).
  - by eapply (fire_stable R _ _ _ _ _ _ (expiredSendKeepalive_stable R)).
  - by eapply (fire_stable R _ _ _ _ _ _ (expiredNewHandshake_stable R)).
  - by eapply (fire_stable R _ _ _ _ _ _ (ZeroAndFlushAll_stable R)).
  - by eapply (fire_stable R _ _ _ _ _ _ (expiredPersistentKeepalive_stable R)).
  - apply ss_change.
  - apply ss_change.
  - apply ss_close.
  - apply st_newPeer.
  - by apply RemovePeer_stable.
  - by apply RemoveAllPeers_stable.
  - by apply SetPrivateKey_stable.
  - apply st_core, BindSetMark_core.
  - apply st_core, BindUpdate_core.
  - by apply SendKeepalivesToPeers_stable.
  - apply st_core, DisableSomeRoaming_core.
Qed.

Lemma devStep_stable (R : Device -> Device -> Prop) `{!StableState R} d d' :
  (forall conf d, R d (IpcSet conf d).2) -> devStep d d' -> R d d'.
Proof. intros Hipc [[conf ->]|H]%(devStep_cases R); [apply Hipc|done]. Qed.

Lemma reachable_stable (R : Device -> Device -> Prop) `{!StableState R} d0 d :
  (forall conf d, R d (IpcSet conf d).2) -> reachable d0 d -> R d0 d.
Proof. intros Hipc. induction 1 as [|d d' _ IH Hs]; [reflexivity|]. etransitivity; [exact IH|by apply devStep_stable]. Qed.

(** ** The initial state *)

Lemma NewDevice_keys m t : keys_ok (NewDevice m t).
Proof.
  split.
  - split.
    + intros p k [H|[H|H]]; unfold slotsOf, peerOf in H; cbn in H; discriminate.
    + intros p q k [H|[H|H]]; unfold slotsOf, peerOf in H; cbn in H; discriminate.
    + intros p. unfold hsOf, peerOf. by cbn.
    + intros i e _. by cbn.
  - intros p k. unfold peerOf. by cbn.
Qed.

Lemma NewDevice_nonce m t : nonce_inv (NewDevice m t).
Proof.
  split; try done.
  - split; [apply NoDup_nil_2|]. intros c Hc. by apply not_elem_of_nil in Hc.
  - apply NoDup_nil_2.
  - intros k n Hin. by apply not_elem_of_nil in Hin.
Qed.

Lemma NewDevice_config m t : config_ok (NewDevice m t).
Proof.
  split; cbn [headers paddings headerProtectionKey NewDevice tInit tResponse tCookie tTransport].
  - assert (H : forall z, is_u32 z -> range_wf (rangeOne z)) by (intros z Hz; apply range_wf_from; [done..|lia]).
    repeat split; by apply H.
  - by vm_compute.
  - done.
  - by vm_compute.
Qed.

(** ** What holds in every reachable state *)

Lemma reachable_keys d0 d : keys_ok d0 -> reachable d0 d -> spinning d = false -> keys_ok d.
Proof.
  intros H0 Hr Hs. assert (H : keysStep d0 d).
  { apply reachable_stable; [apply _| |done]. intros conf d1. apply IpcSet_stable; [apply _|apply merge_keys]. }
  by apply (H Hs).
Qed.

(** C4: the index table of a device is consistent in every state it reaches, also
    while messages are between their check and their update and while several
    workers consume the same one: its entries are exactly the pending handshakes
    and the keypairs in a slot of some peer, each under its own index, and no
    keypair is in two slots or of two peers.  The index 0, which the code takes for
    none, is left out, and so are the states in which a worker that asks for an
    index has drawn nothing but used ones ([spinning]): it has then given up the
    old index of its handshake and not yet found a new one. *)
Theorem index_table_consistent m t d :
  reachable (NewDevice m t) d -> spinning d = false -> keys_ok d.
Proof.
  intros Hr Hs. by apply (reachable_keys (NewDevice m t)); [apply NewDevice_keys|..].
Qed.

(** C2: no nonce is used twice under one keypair, and none reaches
    [RejectAfterMessages]: in every reachable state the pairs of keypair and nonce
    that packets were sealed with are all different. *)
Theorem nonces_used_once m t d :
  reachable (NewDevice m t) d ->
  NoDup (sealedLog d) /\ forall k n, (k, n) ∈ sealedLog d -> 0 <= n < RejectAfterMessages.
Proof.
  intros Hr. assert (H : nonceStep (NewDevice m t) d).
  { apply reachable_stable; [apply _| |done]. intros conf d1. apply IpcSet_stable; [apply _|apply merge_nonce]. }
  specialize (H (NewDevice_nonce m t)). pose proof (ni_nodup _ H) as Hn. apply NoDup_app in Hn as (Hn & _ & _).
  split; [done|]. intros k n Hin. destruct (ni_used _ H k n) as (kp & Hkp & Hb); [apply elem_of_app; by left|].
  pose proof (ni_bound _ H k kp Hkp). lia.
Qed.

Lemma reachable_config m t d : reachable (NewDevice m t) d -> config_ok d.
Proof.
  induction 1 as [|d d' _ IH Hs]; [apply NewDevice_config|].
  apply (devStep_cases configStep) in Hs as [[conf ->]|H]; [by apply IpcSet_config|by apply (config_ok_step d)].
Qed.

(** C31: the obfuscation settings of a device are consistent in every state it
    reaches: the four headers are ranges that do not overlap, and with header
    protection every padding has room for the salt. *)
Theorem settings_consistent m t d : reachable (NewDevice m t) d -> config_ok d.
Proof. apply reachable_config. Qed.
End Events.
