(* ===== verification/NoiseThm.v ===== *)
(** * The handshake establishes a session

    Two devices that run the handshake with each other end up with keypairs that
    fit together, and a responder accepts an initiation of a peer only with a
    timestamp it has not seen. *)

From stdpp Require Import base numbers list gmap strings.
From Stdlib Require Import ZArith Lia.
From S2P Require Import Prelude GoStrings NoiseTypes Crypto Replay RateLimiter Tai64n DeviceTypes Messages Noise NoiseRun NoiseInv NoiseKeys.

Section Agreement.
Context `{C : Crypto} `{N : Entropy}.

(** ** A session begins *)

Lemma rotateKeypairs_store p k init d : keypairStore (rotateKeypairs p k init d) = keypairStore d.
Proof.
  unfold rotateKeypairs, DeleteKeypair. destruct init.
  - destruct (next _), (previous _), (current _); reflexivity.
  - destruct (next _), (previous _); reflexivity.
Qed.

Lemma BeginSymmetricSession_run d p sk rk init : let h := hsOf d p in
  sessionKeys h = Some (sk, rk, init) -> hsLocalIndex h <> 0 -> keys_ok d ->
  exists d' k, BeginSymmetricSession p d = (Ok tt, d') /\
    keypairOf d' k = mkKeypair 0 sk rk (filterReset zeroFilter) init (now d) (hsLocalIndex h) (hsRemoteIndex h) /\
    (if init then current else next) (keypairs (peerOf d' p)) = Some k /\
    indexTable d' !! hsLocalIndex h = Some (kpEntry p k).
Proof.
  intros h Es H0 Hok. pose proof (BeginSymmetricSession_keys p d Hok) as Hok'.
  unfold BeginSymmetricSession in *. fold h in Hok'. fold h. rewrite Es in *. cbv zeta in *. cbn [snd] in Hok'.
  match goal with |- context [rotateKeypairs p ?k0 init ?d0] => set (k := k0) in *; set (d4 := d0) in * end.
  exists (rotateKeypairs p k init d4), k. split; [done|].
  assert (Hkp : keypairOf (rotateKeypairs p k init d4) k =
    mkKeypair 0 sk rk (filterReset zeroFilter) init (now d) (hsLocalIndex h) (hsRemoteIndex h)).
  { unfold keypairOf. rewrite rotateKeypairs_store. subst d4. unfold SwapIndexForKeypair.
    destruct (indexTable _ !! _); cbn; by rewrite lookup_insert_eq. }
  assert (Hslot : (if init then current else next) (keypairs (peerOf (rotateKeypairs p k init d4) p)) = Some k).
  { rewrite rotateKeypairs_slots, decide_True by done. by destruct init. }
  split; [done|]. split; [done|].
  destruct Hok' as [HR _]. destruct (kr_own _ _ HR p k) as [_ Hi].
  - unfold slotsOf, slot. destruct init; auto.
  - set (d' := rotateKeypairs p k init d4) in *.
    assert (Hi' : kpLocalIndex (keypairOf d' k) <> 0 -> indexTable d' !! kpLocalIndex (keypairOf d' k) = Some (kpEntry p k))
      by exact Hi.
    rewrite Hkp in Hi'. by apply Hi'.
Qed.

Lemma ConsumeMessageInitiation_run d msg p ts hash ck :
  openInitiation d msg = Some (p, ts, hash, ck) -> tai64nAfter ts (lastTimestamp (hsOf d p)) = true ->
  HandshakeInitationRate < since d (lastInitiationConsumption (hsOf d p)) ->
  exists h, ConsumeMessageInitiation msg d = (Some p, modHandshake p (fun _ => h) d) /\
    hsState h = handshakeInitiationConsumed /\ hsHash h = hash /\ hsChainKey h = ck /\
    hsRemoteIndex h = miSender msg /\ remoteEphemeral h = miEphemeral msg /\
    remoteStatic h = remoteStatic (hsOf d p) /\ presharedKey h = presharedKey (hsOf d p) /\
    hsLocalIndex h = hsLocalIndex (hsOf d p) /\ lastTimestamp h = ts.
Proof.
  intros Ho Ha Hf. assert (E : checkInitiation msg d = Some (p, ts, hash, ck)).
  { unfold checkInitiation. rewrite Ho. cbn [mbind option_bind]. rewrite Ha. cbn [negb]. by rewrite (proj2 (Z.leb_gt _ _) Hf). }
  unfold ConsumeMessageInitiation, updateInitiation. rewrite E. eexists. split; [reflexivity|]. cbv zeta.
  match goal with |- context [tai64nAfter ts ?y] => replace (tai64nAfter ts y) with true by (symmetry; exact Ha) end.
  destruct (_ <? now d); do 8 (split; [reflexivity|]); reflexivity.
Qed.

(** ** The whole handshake *)

(** Device [dI], through its peer [pI], can shake hands with [dR], which knows it
    as [pR]: the two are configured with each other's public keys and the same
    preshared key, the responder's peer runs and has seen no initiation that is
    as new, and none within the last [HandshakeInitationRate], the index each draws is
    unused and not 0, and no exchange gives the zero secret. *)
Record handshake_ready (dI : Device) (pI : nat) (dR : Device) (pR : nat) : Prop := {
  rd_keysI : keys_ok dI;
  rd_keysR : keys_ok dR;
  rd_pubI : publicKeyOf dI = publicKey (privateKey dI);
  rd_pubR : publicKeyOf dR = publicKey (privateKey dR);
  rd_staticI : remoteStatic (hsOf dI pI) = publicKeyOf dR;
  rd_staticR : remoteStatic (hsOf dR pR) = publicKeyOf dI;
  rd_known : keyMap dR !! publicKeyOf dI = Some pR;
  rd_running : isRunning (peerOf dR pR) = true;
  rd_psk : presharedKey (hsOf dI pI) = presharedKey (hsOf dR pR);
  rd_ssI : Some (precomputedStaticStatic (hsOf dI pI)) = sharedSecret (privateKey dI) (publicKeyOf dR);
  rd_ssR : Some (precomputedStaticStatic (hsOf dR pR)) = sharedSecret (privateKey dR) (publicKeyOf dI);
  rd_newer : tai64nAfter (tai64nNow dI) (lastTimestamp (hsOf dR pR)) = true;
  rd_rate : HandshakeInitationRate < since dR (lastInitiationConsumption (hsOf dR pR));
  rd_indexI : delete (hsLocalIndex (hsOf dI pI)) (indexTable dI) !! wordAt (drawn dI + 36) = None;
  rd_indexR : delete (hsLocalIndex (hsOf dR pR)) (indexTable dR) !! wordAt (drawn dR) = None;
  rd_nonzeroI : wordAt (drawn dI + 36) <> 0;
  rd_nonzeroR : wordAt (drawn dR) <> 0;
  rd_es : is_Some (sharedSecret (ephOf dI) (publicKeyOf dR));
  rd_ee : is_Some (sharedSecret (respEph dR) (publicKey (ephOf dI)));
  rd_se : is_Some (sharedSecret (respEph dR) (publicKeyOf dI))
}.

(** The keypair [a] of an initiator and the keypair [b] of its responder fit: what
    one seals the other opens, each names the other by the other's index, and
    both start afresh. *)
Definition keypairs_fit (a b : Keypair) : Prop :=
  kpSend a = kpReceive b /\ kpReceive a = kpSend b /\
  kpRemoteIndex a = kpLocalIndex b /\ kpRemoteIndex b = kpLocalIndex a /\
  isInitiator a = true /\ isInitiator b = false /\ sendNonce a = 0 /\ sendNonce b = 0 /\
  replayFilter a = filterReset zeroFilter /\ replayFilter b = filterReset zeroFilter.

(** A packet for the local index of [k] goes to [p] and [k]. *)
Definition index_routes (d : Device) (p k : nat) : Prop :=
  indexTable d !! kpLocalIndex (keypairOf d k) = Some (kpEntry p k).

Context `{L : !CryptoLaws}.

Lemma isZero_shared sk pk ss : Some ss = sharedSecret sk pk -> isZero ss = false.
Proof. unfold sharedSecret. by destruct (isZero (scalarMult sk pk)) eqn:E; intros [= ->]. Qed.

(** What both sides hold once the initiation [init] is accepted: the same hash
    [hash] and chain key [ck], and what the other end needs to go on. *)
Record hello_done (dI : Device) (pI : nat) (dR : Device) (pR : nat) (init : MessageInitiation)
    (dI1 dR1 : Device) (hash ck : list Z) : Prop := {
  hd_create : CreateMessageInitiation pI dI = (Ok init, dI1);
  hd_consume : ConsumeMessageInitiation (init <| miType := MessageInitiationType |>) dR = (Some pR, dR1);
  hd_keysI : keys_ok dI1;
  hd_keysR : keys_ok dR1;
  hd_I : hsOf dI1 pI = hsOf dI pI <| hsHash := hash |> <| hsChainKey := ck |> <| localEphemeral := ephOf dI |>
    <| hsLocalIndex := wordAt (drawn dI + 36) |> <| hsState := handshakeInitiationCreated |>;
  hd_pending : indexLookup dI1 (wordAt (drawn dI + 36)) = hsEntry pI;
  hd_privI : privateKey dI1 = privateKey dI;
  hd_hash : hsHash (hsOf dR1 pR) = hash;
  hd_ck : hsChainKey (hsOf dR1 pR) = ck;
  hd_state : hsState (hsOf dR1 pR) = handshakeInitiationConsumed;
  hd_remote : hsRemoteIndex (hsOf dR1 pR) = wordAt (drawn dI + 36);
  hd_eph : remoteEphemeral (hsOf dR1 pR) = publicKey (ephOf dI);
  hd_static : remoteStatic (hsOf dR1 pR) = remoteStatic (hsOf dR pR);
  hd_psk : presharedKey (hsOf dR1 pR) = presharedKey (hsOf dR pR);
  hd_free : delete (hsLocalIndex (hsOf dR1 pR)) (indexTable dR1) !! wordAt (drawn dR) = None;
  hd_drawn : drawn dR1 = drawn dR
}.

Lemma handshake_hello dI pI dR pR :
  handshake_ready dI pI dR pR ->
  exists init dI1 dR1 hash ck, hello_done dI pI dR pR init dI1 dR1 hash ck.
Proof.
  intros []. destruct rd_es0 as [es Hes].
  assert (Hpss : precomputedStaticStatic (hsOf dR pR) = precomputedStaticStatic (hsOf dI pI)).
  { rewrite rd_pubI0, rd_pubR0 in *. rewrite sharedSecret_comm in rd_ssR0. congruence. }
  pose proof (CreateMessageInitiation_run dI pI es) as H1. cbv zeta in H1. rewrite rd_staticI0 in H1.
  specialize (H1 Hes (isZero_shared _ _ _ rd_ssI0) rd_indexI0).
  pose proof (openInitiation_seal dR (publicKeyOf dR) (publicKey (ephOf dI)) (publicKeyOf dI) es
    (precomputedStaticStatic (hsOf dI pI)) (tai64nNow dI) pR MessageInitiationType (wordAt (drawn dI + 36))
    (zeros 16) (zeros 16) eq_refl) as H2.
  specialize (H2 ltac:(rewrite <- Hes, rd_pubR0; apply sharedSecret_comm) rd_known0 rd_running0 Hpss
    (isZero_shared _ _ _ rd_ssI0) eq_refl).
  destruct (initTranscript _ _ _ _ _ _) as [[[static timestamp] hash] ck].
  set (init := mkInitiation (rangePickOne _ _) _ _ _ _ _ _) in H1. set (dI1 := upd pI _ _ _ _) in H1.
  change (mkInitiation MessageInitiationType _ _ _ _ _ _) with (init <| miType := MessageInitiationType |>) in H2.
  destruct (ConsumeMessageInitiation_run _ _ _ _ _ _ H2 rd_newer0 rd_rate0)
    as (hR & H3 & Hst & Hh & Hck & Hri & Hre & Hrs & Hpsk & Hli & _).
  exists init, dI1, (modHandshake pR (fun _ => hR) dR), hash, ck.
  split; rewrite ?hsOf_modHandshake, ?decide_True by done; try done.
  - eapply keys_ok_reindexed; [|exact rd_keysI0]. eexists _, _, _. split; [reflexivity|]. right.
    split; [done|exact rd_indexI0].
  - change (keys_ok (snd (Some pR, modHandshake pR (fun _ => hR) dR))). rewrite <- H3.
    by apply ConsumeMessageInitiation_keys.
  - unfold dI1. by rewrite hsOf_upd.
  - unfold indexLookup, dI1. by rewrite indexTable_upd, lookup_insert_eq.
  - rewrite Hli. exact rd_indexR0.
Qed.

(** What both sides hold once the response [resp] is accepted: the same chain key. *)
Record reply_done (dI1 : Device) (pI : nat) (dR1 : Device) (pR : nat) (resp : MessageResponse)
    (dI2 dR2 : Device) (ck : list Z) (iI iR : Z) : Prop := {
  rp_create : CreateMessageResponse pR dR1 = (Ok resp, dR2);
  rp_consume : ConsumeMessageResponse (resp <| mrType := MessageResponseType |>) dI1 = (Some pI, dI2);
  rp_keysI : keys_ok dI2;
  rp_keysR : keys_ok dR2;
  rp_stateI : hsState (hsOf dI2 pI) = handshakeResponseConsumed;
  rp_stateR : hsState (hsOf dR2 pR) = handshakeResponseCreated;
  rp_ckI : hsChainKey (hsOf dI2 pI) = ck;
  rp_ckR : hsChainKey (hsOf dR2 pR) = ck;
  rp_indexI : hsLocalIndex (hsOf dI2 pI) = iI /\ hsRemoteIndex (hsOf dI2 pI) = iR;
  rp_indexR : hsLocalIndex (hsOf dR2 pR) = iR /\ hsRemoteIndex (hsOf dR2 pR) = iI
}.

Lemma handshake_reply dI pI dR pR init dI1 dR1 hash ck :
  handshake_ready dI pI dR pR ->
  hello_done dI pI dR pR init dI1 dR1 hash ck ->
  exists resp dI2 dR2 ck', reply_done dI1 pI dR1 pR resp dI2 dR2 ck' (wordAt (drawn dI + 36)) (wordAt (drawn dR)).
Proof.
  intros [] []. destruct rd_ee0 as [ee Hee], rd_se0 as [se Hse].
  assert (Heph : respEph dR1 = respEph dR) by (unfold respEph; by rewrite hd_drawn0).
  pose proof (CreateMessageResponse_run dR1 pR ee se) as H4. cbv zeta in H4. rewrite Heph, hd_drawn0 in H4.
  specialize (H4 hd_state0 ltac:(by rewrite hd_eph0) ltac:(rewrite hd_static0, rd_staticR0; exact Hse) hd_free0).
  pose proof (openResponse_seal dI1 (hsOf dI1 pI) (publicKey (respEph dR)) ee se hash ck MessageResponseType
    (wordAt (drawn dR)) (wordAt (drawn dI + 36)) (zeros 16) (zeros 16)) as H5.
  specialize (H5 ltac:(by rewrite hd_I0) ltac:(by rewrite hd_I0) ltac:(by rewrite hd_I0)
    ltac:(rewrite hd_I0; rewrite <- Hee; apply sharedSecret_comm)
    ltac:(rewrite <- Hse, rd_pubI0, hd_privI0; apply sharedSecret_comm)).
  assert (Hpsk : presharedKey (hsOf dI1 pI) = presharedKey (hsOf dR1 pR))
    by (rewrite hd_I0, hd_psk0; exact rd_psk0).
  rewrite Hpsk in H5. rewrite hd_hash0, hd_ck0, hd_remote0 in H4.
  destruct (respTranscript _ _ _ _ _ _) as [[empty hash'] ck']. destruct H4 as (hR2 & H4 & HR2).
  set (resp := mkResponse (rangePickOne _ _) _ _ _ _ _ _) in H4. set (dR2 := upd pR _ _ _ _) in H4.
  set (dI2 := modHandshake pI (fun h => h <| hsHash := hash' |> <| hsChainKey := ck' |>
    <| hsRemoteIndex := wordAt (drawn dR) |> <| hsState := handshakeResponseConsumed |>) dI1).
  assert (H7 : ConsumeMessageResponse (resp <| mrType := MessageResponseType |>) dI1 = (Some pI, dI2)).
  { unfold ConsumeMessageResponse, checkResponse. rewrite Z.eqb_refl.
    change (mrReceiver (resp <| mrType := MessageResponseType |>)) with (wordAt (drawn dI + 36)).
    rewrite hd_pending0. cbn [ieHandshake hsEntry].
    change (resp <| mrType := MessageResponseType |>) with (mkResponse MessageResponseType (wordAt (drawn dR))
      (wordAt (drawn dI + 36)) (publicKey (respEph dR)) empty (zeros 16) (zeros 16)).
    cbn [mbind option_bind]. by rewrite H5. }
  exists resp, dI2, dR2, ck'.
  split; try done; unfold dR2, dI2; rewrite ?hsOf_upd, ?hsOf_modHandshake, ?decide_True by done;
    rewrite ?hd_I0, ?HR2; try done.
  - change (keys_ok (snd (Some pI, dI2))). rewrite <- H7. by apply ConsumeMessageResponse_keys.
  - eapply keys_ok_reindexed; [|exact hd_keysR0]. eexists _, _, _. split; [reflexivity|]. right.
    split; [done|exact hd_free0].
Qed.

(** C3: the handshake ends in agreement between devices that are ready for it
    ([handshake_ready]: besides each other's keys, a newer timestamp, the rate of
    initiations, unused indices other than 0, no zero secret).  The initiation of one device is accepted by
    the other, its response is accepted in turn, both sides begin a session, and
    the initiator's current keypair and the responder's next keypair fit: swapped
    keys, each other's indices, fresh counters; each side's index table leads
    from its index to its keypair. *)
Theorem handshake_agreement dI pI dR pR :
  handshake_ready dI pI dR pR ->
  exists init resp dI1 dI2 dI3 dR1 dR2 dR3 kI kR,
    CreateMessageInitiation pI dI = (Ok init, dI1) /\
    ConsumeMessageInitiation (init <| miType := MessageInitiationType |>) dR = (Some pR, dR1) /\
    CreateMessageResponse pR dR1 = (Ok resp, dR2) /\
    BeginSymmetricSession pR dR2 = (Ok tt, dR3) /\
    ConsumeMessageResponse (resp <| mrType := MessageResponseType |>) dI1 = (Some pI, dI2) /\
    BeginSymmetricSession pI dI2 = (Ok tt, dI3) /\
    current (keypairs (peerOf dI3 pI)) = Some kI /\ next (keypairs (peerOf dR3 pR)) = Some kR /\
    keypairs_fit (keypairOf dI3 kI) (keypairOf dR3 kR) /\
    index_routes dI3 pI kI /\ index_routes dR3 pR kR.
Proof.
  intros Hr. destruct (handshake_hello _ _ _ _ Hr) as (init & dI1 & dR1 & hash & ck & Hh).
  destruct (handshake_reply _ _ _ _ _ _ _ _ _ Hr Hh) as (resp & dI2 & dR2 & ck' & []).
  destruct rp_indexI0 as [EI1 EI2], rp_indexR0 as [ER1 ER2]. destruct (KDF2 ck' []) as [t0 t1] eqn:Ek.
  destruct (BeginSymmetricSession_run dR2 pR t1 t0 false) as (dR3 & kR & H6 & HkpR & HnR & HiR); [|by rewrite ER1; apply Hr|done|].
  { unfold sessionKeys. by rewrite rp_stateR0, rp_ckR0, Ek. }
  destruct (BeginSymmetricSession_run dI2 pI t0 t1 true) as (dI3 & kI & H8 & HkpI & HcI & HiI); [|by rewrite EI1; apply Hr|done|].
  { unfold sessionKeys. by rewrite rp_stateI0, rp_ckI0, Ek. }
  exists init, resp, dI1, dI2, dI3, dR1, dR2, dR3, kI, kR. pose proof (hd_create _ _ _ _ _ _ _ _ _ Hh).
  pose proof (hd_consume _ _ _ _ _ _ _ _ _ Hh). do 8 (split; [assumption|]).
  unfold index_routes. rewrite HkpI, HkpR. split; [|by split].
  unfold keypairs_fit. cbn [kpSend kpReceive kpRemoteIndex kpLocalIndex isInitiator sendNonce replayFilter].
  rewrite EI1, EI2, ER1, ER2. by repeat split.
Qed.

End Agreement.
