(* ===== verification/StampInv.v ===== *)
(** * Timestamps of initiations only grow

    A peer remembers the timestamp of the last initiation it accepted
    ([lastTimestamp]).  No handler of the device lowers it, so an initiation that
    was accepted once, or one that is older, is never accepted again. *)

From stdpp Require Import base numbers list gmap.
From Stdlib Require Import ZArith Lia.
From S2P Require Import Prelude GoStrings NoiseTypes Crypto Replay RateLimiter Tai64n AllowedIPs NetIP Obf DeviceTypes Messages Noise NoiseRun NoiseInv NoiseKeys Timers Cookie Packet PacketThm Send Receive Lifecycle Stable KeysInv NonceInv Uapi UapiThm Events.

(** ** The order of timestamps *)

Lemma bytesCompare_eq a b : bytesCompare a b = Eq -> a = b.
Proof.
  revert b. induction a as [|x a IH]; intros [|y b]; cbn; try done.
  destruct (Z.compare_spec x y) as [->|?|?]; try done. intros H. by rewrite (IH b).
Qed.

Lemma bytesCompare_trans a b c : bytesCompare a b = Gt -> bytesCompare b c = Gt -> bytesCompare a c = Gt.
Proof.
  revert b c. induction a as [|x a IH]; intros [|y b] [|z c]; cbn [bytesCompare]; try done.
  destruct (x ?= y) eqn:E1, (y ?= z) eqn:E2, (x ?= z) eqn:E3; try done;
    rewrite ?Z.compare_eq_iff, ?Z.compare_lt_iff, ?Z.compare_gt_iff in *; try lia; eauto.
Qed.

Lemma tai64nAfter_trans a b c : tai64nAfter a b = true -> tai64nAfter b c = true -> tai64nAfter a c = true.
Proof.
  unfold tai64nAfter. destruct (bytesCompare a b) eqn:E1; try done. destruct (bytesCompare b c) eqn:E2; try done.
  intros _ _. by rewrite (bytesCompare_trans a b c).
Qed.

Lemma tai64nAfter_irrefl a : tai64nAfter a a = false.
Proof. unfold tai64nAfter. by rewrite bytesCompare_refl. Qed.

Lemma bytesCompare_flip a b : bytesCompare a b = CompOpp (bytesCompare b a).
Proof.
  revert b. induction a as [|x a IH]; intros [|y b]; cbn; try done.
  rewrite (Z.compare_antisym y x). destruct (y ?= x) eqn:E; cbn; [apply IH|done..].
Qed.

(** [a] is [b] or before it. *)
Definition stampLe (a b : list Z) : Prop := a = b \/ tai64nAfter b a = true.

#[global] Instance stampLe_preorder : PreOrder stampLe.
Proof.
  split; [by left|]. intros a b c [->|H1] [->|H2]; [by left|by right|by right|]. right. by apply (tai64nAfter_trans c b a).
Qed.

Lemma stampLe_after a b c : stampLe a b -> tai64nAfter c b = true -> tai64nAfter c a = true.
Proof. intros [->|H] Hc; [done|by apply (tai64nAfter_trans c b a)]. Qed.

Lemma tai64nAfter_false a b : tai64nAfter a b = false -> stampLe a b.
Proof.
  unfold stampLe, tai64nAfter. rewrite (bytesCompare_flip b a).
  destruct (bytesCompare a b) eqn:E; cbn; [left; by apply bytesCompare_eq|by right|done].
Qed.

(** ** The relation *)

Definition stampStep (d d' : Device) : Prop :=
  forall p, stampLe (lastTimestamp (hsOf d p)) (lastTimestamp (hsOf d' p)).
Definition sameStamps (d d' : Device) : Prop := forall p, lastTimestamp (hsOf d' p) = lastTimestamp (hsOf d p).

#[global] Instance stampStep_preorder : PreOrder stampStep.
Proof. split; [by intros d p|]. intros d1 d2 d3 H1 H2 p. etransitivity; [apply H1|apply H2]. Qed.
#[global] Instance sameStamps_preorder : PreOrder sameStamps.
Proof. split; [by intros d p|]. intros d1 d2 d3 H1 H2 p. by rewrite H2, H1. Qed.

Lemma same_step d d' : sameStamps d d' -> stampStep d d'.
Proof. intros H p. by rewrite H. Qed.

Lemma same_frame d d' : peerStore d' = peerStore d -> sameStamps d d'.
Proof. intros H p. unfold hsOf, peerOf. by rewrite H. Qed.

Lemma same_modPeer p f d :
  (forall P, lastTimestamp (handshake (f P)) = lastTimestamp (handshake P)) -> sameStamps d (modPeer p f d).
Proof.
  intros H q. unfold hsOf. rewrite peerOf_modPeer. destruct (decide (q = p)) as [->|]; [apply H|done].
Qed.

Ltac solve_stamps :=
  first [ reflexivity | apply same_frame; reflexivity | apply same_modPeer; intros ?; reflexivity ].

(** Undoes the last change of the right side. *)
Ltac before_last :=
  match goal with
  | |- sameStamps _ (modHandshake _ _ ?x) => transitivity x; [|solve_stamps]
  | |- sameStamps _ (modPeer _ _ ?x) => transitivity x; [|solve_stamps]
  | |- sameStamps _ (update _ ?x) => transitivity x; [|solve_stamps]
  end.

Section Stamps.
Context `{C : Crypto} `{N : Entropy} `{B : Bind}.

Lemma newIndexLoop_stamps fuel p d : sameStamps d (newIndexLoop fuel p d).2.
Proof.
  apply same_frame. revert d. induction fuel as [|fuel IH]; intros d; cbn [newIndexLoop]; [done|].
  assert (H : peerStore (randWord d).2 = peerStore d) by done. destruct (randWord d) as [x d1]. cbn [snd] in H.
  destruct (indexTable d1 !! x); [by rewrite IH|done].
Qed.

Ltac kb := apply keeps_bind; [apply _| |intros ?].
Ltac ksimple := first [ apply keeps_mod; intros ?; solve_stamps
                      | by apply (gets_keeps sameStamps)
                      | apply liftD_keeps; intros ?; solve_stamps
                      | intros ?; apply newIndexLoop_stamps
                      | match goal with |- context [orErr ?o _] => destruct o; intros ?; reflexivity end
                      | intros ?; reflexivity ].

Lemma CreateMessageInitiation_stamps p : keeps sameStamps (CreateMessageInitiation p).
Proof.
  unfold CreateMessageInitiation. do 7 (kb; [ksimple|]). cbv zeta. do 4 (kb; [ksimple|]). destruct (KDF2 _ _) as [ck key].
  do 4 (kb; [ksimple|]). destruct (isZero _); [ksimple|]. destruct (KDF2 _ _) as [ck' key'].
  do 8 (kb; [ksimple|]). ksimple.
Qed.

Lemma CreateMessageResponse_stamps p : keeps sameStamps (CreateMessageResponse p).
Proof.
  unfold CreateMessageResponse. kb; [ksimple|]. destruct (negb _); [ksimple|].
  do 8 (kb; [ksimple|]). cbv zeta. do 7 (kb; [ksimple|]).
  destruct (KDF3 _ _) as [[ck tau] key]. do 5 (kb; [ksimple|]). ksimple.
Qed.

Lemma DeleteKeypair_stamps o d : sameStamps d (DeleteKeypair o d).
Proof. apply same_frame. by destruct o. Qed.

Lemma setKeypairs_stamps p f d : sameStamps d (setKeypairs p f d).
Proof. solve_stamps. Qed.

(** Peels deletions of indices and changes of slots off the right side. *)
Ltac peel_slots :=
  repeat (etransitivity; [|apply setKeypairs_stamps] || (etransitivity; [|apply DeleteKeypair_stamps])); try reflexivity.

Lemma rotateKeypairs_stamps p k init d : sameStamps d (rotateKeypairs p k init d).
Proof. unfold rotateKeypairs. destruct init; [destruct (next _)|]; peel_slots. Qed.

Lemma BeginSymmetricSession_stamps p : keeps sameStamps (BeginSymmetricSession p).
Proof.
  intros d. unfold BeginSymmetricSession. destruct (sessionKeys _) as [[[sk rk] init]|]; [|reflexivity]. cbn [snd].
  etransitivity; [|apply rotateKeypairs_stamps]. before_last.
  match goal with |- context [SwapIndexForKeypair ?i ?k ?x] => transitivity x;
    [|apply same_frame; unfold SwapIndexForKeypair; by destruct (indexTable _ !! _)] end.
  before_last. solve_stamps.
Qed.

(** The timestamp a peer remembers after the update of a handshake. *)
Lemma updateInitiation_stamp p ts hash ck sender eph d q :
  lastTimestamp (hsOf (updateInitiation p ts hash ck sender eph d) q) =
    if decide (q = p) then if tai64nAfter ts (lastTimestamp (hsOf d p)) then ts else lastTimestamp (hsOf d p)
    else lastTimestamp (hsOf d q).
Proof.
  unfold updateInitiation. rewrite hsOf_modHandshake. destruct (decide (q = p)) as [->|]; [|done]. cbv zeta.
  set (h := hsOf d p).
  match goal with |- context [tai64nAfter ts (lastTimestamp ?x)] =>
    replace (lastTimestamp x) with (lastTimestamp h) by (subst h; reflexivity) end.
  by destruct (tai64nAfter ts (lastTimestamp h)); destruct (_ <? now d).
Qed.

(** After its update no timestamp up to that of the message is new. *)
Lemma updateInitiation_after p ts hash ck sender eph d ts' :
  tai64nAfter ts' ts = false -> tai64nAfter ts' (lastTimestamp (hsOf (updateInitiation p ts hash ck sender eph d) p)) = false.
Proof.
  intros H. rewrite updateInitiation_stamp, decide_True by done. destruct (tai64nAfter ts _) eqn:E; [done|].
  apply not_true_is_false. intros E'. pose proof (stampLe_after _ _ _ (tai64nAfter_false _ _ E) E'). congruence.
Qed.

Lemma updateInitiation_stamps p ts hash ck sender eph d : stampStep d (updateInitiation p ts hash ck sender eph d).
Proof.
  intros q. rewrite updateInitiation_stamp. destruct (decide (q = p)) as [->|]; [|reflexivity].
  destruct (tai64nAfter ts _) eqn:E; [by right|reflexivity].
Qed.

Lemma NewPeer_stamps pk : keeps sameStamps (NewPeer pk).
Proof.
  intros d. unfold NewPeer. destruct (isClosed d); [reflexivity|]. destruct (_ <=? _)%nat; [reflexivity|].
  destruct (bool_decide _); [reflexivity|]. cbn [snd]. set (p := base.fresh _). set (P := _ <| handshake ::= _ |>).
  transitivity (setPeer p P d).
  - intros q. unfold hsOf. rewrite peerOf_setPeer. destruct (decide (q = p)) as [->|]; [|done].
    assert (E : peerOf d p = zeroPeer).
    { unfold peerOf. replace (peerStore d !! p) with (@None Peer); [done|]. symmetry. apply not_elem_of_dom, is_fresh. }
    by rewrite E.
  - transitivity (timersInit p (setPeer p P d)); solve_stamps.
Qed.

Lemma assignNonces_store p k es d : peerStore (assignNonces p k es d).2 = peerStore d.
Proof.
  revert d. induction es as [|e es IH]; intros d; cbn [assignNonces]; [done|].
  set (d1 := modKeypair k _ d). destruct (_ <=? _).
  - set (d2 := modKeypair k (fun kp => kp <| sendNonce := RejectAfterMessages |>) d1).
    specialize (IH d2). by destruct (assignNonces p k es d2) as [[kept ooo] d3].
  - specialize (IH d1). by destruct (assignNonces p k es d1) as [[kept ooo] d3].
Qed.

#[export] Instance stamp_stable : Stable stampStep.
Proof.
  split.
  - apply _.
  - intros d d' H. apply same_step. exact (sc_stamp _ _ H).
  - intros p d. apply same_step, CreateMessageInitiation_stamps.
  - intros p d. apply same_step, CreateMessageResponse_stamps.
  - apply updateInitiation_stamps.
  - intros hp hash ck sender d. apply same_step. unfold updateResponse. solve_stamps.
  - intros p d. apply same_step, BeginSymmetricSession_stamps.
  - intros p k d. apply same_step. unfold ReceivedWithKeypair. destruct (negb _); [reflexivity|]. cbn [snd]. peel_slots.
  - intros p d. apply same_step. unfold clearKeypairs. peel_slots.
  - intros p d. apply same_step. unfold clearHandshake. before_last. solve_stamps.
  - intros o d. apply same_step. destruct o; solve_stamps.
  - intros k c d. apply same_step. unfold validateCounter. destruct (ValidateCounter _ _ _) as [ok f]. solve_stamps.
  - intros p k es d kept ooo d1 d2 E Hc.
    assert (H : sameStamps d d2).
    { transitivity d1; [|exact (sc_stamp _ _ Hc)]. apply same_frame. pose proof (assignNonces_store p k es d) as H.
      by rewrite E in H. }
    split; [by apply same_step|]. apply same_step. etransitivity; [exact H|]. unfold enqueueOutbound.
    destruct (isRunning _); [|reflexivity]. before_last. solve_stamps.
  - intros d d'. unfold encryptionStep. destruct (encryptionQ d) as [|c q]; [done|]. set (d0 := d <| encryptionQ := q |>).
    pose proof (encryptAll_core (elems (outContainer d c)) d0) as H. destruct (encryptAll _ d0) as [es' d1].
    intros [= <-]. apply same_step. transitivity d0; [solve_stamps|]. etransitivity; [exact (sc_stamp _ _ H)|solve_stamps].
  - intros c d _. apply same_step. solve_stamps.
  - intros pk d. apply same_step, NewPeer_stamps.
Qed.

#[export] Instance stamp_stable_io : StableIO stampStep.
Proof. split; [apply _|..]; intros f d; by apply same_step, same_frame. Qed.

#[export] Instance stamp_stable_state : StableState stampStep.
Proof. apply StableState_set; [apply _|]. intros s d. by apply same_step, same_frame. Qed.

Lemma merge_stamps i d : stampStep d (mergeWithDevice i d).2.
Proof. apply same_step, same_frame. unfold mergeWithDevice. destruct (negb _); [done|]. by destruct (_ && _). Qed.

Lemma reachable_stamps d d' : reachable d d' -> stampStep d d'.
Proof. apply reachable_stable; [apply _|]. intros conf d1. apply IpcSet_stable; [apply _|apply merge_stamps]. Qed.

(** C8: the replay protection of handshakes.  A worker takes an initiation of a peer
    ([updateInitiation], the second section of [ConsumeMessageInitiation], run in any
    state [d]).  From then on every check of an initiation of that peer with a
    timestamp that is not later fails, in every state the device reaches: through
    handshakes, configurations, restarts of the peer, ups and downs, and whatever
    other workers are doing.  So one message is taken again only by workers that
    had checked it before, and the timestamp the peer remembers stays at least [ts].
    The peer is the object: removed and added again it is a new one. *)
Theorem initiations_not_replayed p ts hash ck sender eph d d' msg' ts' hash' ck' :
  reachable (updateInitiation p ts hash ck sender eph d) d' ->
  openInitiation d' msg' = Some (p, ts', hash', ck') -> tai64nAfter ts' ts = false ->
  checkInitiation msg' d' = None /\ ConsumeMessageInitiation msg' d' = (None, d') /\
  stampLe ts (lastTimestamp (hsOf d' p)).
Proof.
  intros Hr Ho Ha. pose proof (reachable_stamps _ _ Hr p) as H.
  assert (Hts : stampLe ts (lastTimestamp (hsOf d' p))).
  { etransitivity; [|exact H]. apply tai64nAfter_false, updateInitiation_after, tai64nAfter_irrefl. }
  assert (E : checkInitiation msg' d' = None); [|by unfold ConsumeMessageInitiation; rewrite E].
  unfold checkInitiation. rewrite Ho. cbn.
  destruct (tai64nAfter ts' (lastTimestamp (hsOf d' p))) eqn:E'; cbn [negb]; [|done]. exfalso.
  pose proof (stampLe_after _ _ _ Hts E'). congruence.
Qed.
End Stamps.
