(* ===== verification/StateInv.v ===== *)
(** * The life of a device, and what reaches its TUN device

    A device is down, up or closed.  Only [changeState] and [Close] write the
    state; a closed device stays closed, whatever is called on it.  Only the
    sequential receiver writes packets to the TUN device, and only packets whose
    source is routed to their peer. *)

From stdpp Require Import base numbers list gmap.
From Stdlib Require Import ZArith Lia.
From S2P Require Import Prelude GoStrings NoiseTypes Crypto Replay RateLimiter Tai64n AllowedIPs NetIP Obf DeviceTypes Messages Noise NoiseRun NoiseInv NoiseKeys Timers Cookie Packet PacketThm Send Receive Lifecycle Stable KeysInv NonceInv Uapi UapiThm Events StampInv.

(** What the handshake and the transport leave alone. *)
Definition sameOuter (d d' : Device) : Prop :=
  state d' = state d /\ allowedips d' = allowedips d /\ tunWritten d' = tunWritten d.
Definition sameState (d d' : Device) : Prop := state d' = state d.
Definition closedStep (d d' : Device) : Prop := isClosed d = true -> isClosed d' = true.

#[global] Instance sameOuter_preorder : PreOrder sameOuter.
Proof. unfold sameOuter. split; [by intros d|]. intros d1 d2 d3 (? & ? & ?) (? & ? & ?). repeat split; congruence. Qed.
#[global] Instance sameState_preorder : PreOrder sameState.
Proof. unfold sameState. split; [by intros d|]. intros d1 d2 d3. congruence. Qed.
#[global] Instance closedStep_preorder : PreOrder closedStep.
Proof. unfold closedStep. split; [by intros d|]. intros d1 d2 d3. auto. Qed.

Section State.
Context `{C : Crypto} `{N : Entropy} `{B : Bind}.

Lemma DeleteKeypair_outer o d : sameOuter d (DeleteKeypair o d).
Proof. by destruct o. Qed.

Lemma setKeypairs_outer q f d : sameOuter d (setKeypairs q f d).
Proof. done. Qed.

Lemma rotateKeypairs_outer p k init d : sameOuter d (rotateKeypairs p k init d).
Proof.
  unfold rotateKeypairs. destruct init; [destruct (next _)|];
    repeat first [etransitivity; [|apply DeleteKeypair_outer] | etransitivity; [|apply setKeypairs_outer]]; done.
Qed.

Ltac kb := apply keeps_bind; [apply _| |intros ?].
Ltac ksimple := first [ apply keeps_mod; intros ?; by repeat split
                      | by apply (gets_keeps sameOuter)
                      | apply liftD_keeps; intros ?; by repeat split
                      | match goal with |- context [orErr ?o _] => destruct o; intros ?; reflexivity end
                      | intros ?; reflexivity ].

Lemma newIndexLoop_outer fuel p : keeps sameOuter (newIndexLoop fuel p).
Proof.
  induction fuel as [|fuel IH]; intros d; cbn [newIndexLoop]; [done|].
  assert (H : sameOuter d (randWord d).2) by done. destruct (randWord d) as [x d1]. cbn [snd] in H.
  destruct (indexTable d1 !! x); [|etransitivity; [exact H|done]]. etransitivity; [exact H|apply IH].
Qed.

Lemma CreateMessageInitiation_outer p : keeps sameOuter (CreateMessageInitiation p).
Proof.
  unfold CreateMessageInitiation. do 7 (kb; [ksimple|]). cbv zeta. do 4 (kb; [ksimple|]). destruct (KDF2 _ _) as [ck key].
  do 4 (kb; [ksimple|]). destruct (isZero _); [ksimple|]. destruct (KDF2 _ _) as [ck' key'].
  do 4 (kb; [ksimple|]). kb; [apply newIndexLoop_outer|]. do 3 (kb; [ksimple|]). ksimple.
Qed.

Lemma CreateMessageResponse_outer p : keeps sameOuter (CreateMessageResponse p).
Proof.
  unfold CreateMessageResponse. kb; [ksimple|]. destruct (negb _); [ksimple|].
  kb; [ksimple|]. kb; [apply newIndexLoop_outer|]. do 6 (kb; [ksimple|]). cbv zeta. do 7 (kb; [ksimple|]).
  destruct (KDF3 _ _) as [[ck tau] key]. do 5 (kb; [ksimple|]). ksimple.
Qed.

Lemma assignNonces_outer p k es d : sameOuter d (assignNonces p k es d).2.
Proof.
  revert d. induction es as [|e es IH]; intros d; cbn [assignNonces]; [done|].
  set (d1 := modKeypair k _ d). destruct (_ <=? _).
  - set (d2 := modKeypair k (fun kp => kp <| sendNonce := RejectAfterMessages |>) d1).
    specialize (IH d2). by destruct (assignNonces p k es d2) as [[kept ooo] d3].
  - specialize (IH d1). by destruct (assignNonces p k es d1) as [[kept ooo] d3].
Qed.

Lemma core_outer d d' : sameCore d d' -> sameOuter d d'.
Proof. intros H. split; [apply H|apply (sc_io _ _ H)]. Qed.

Lemma ReceivedWithKeypair_outer p k d : sameOuter d (ReceivedWithKeypair p k d).2.
Proof.
  unfold ReceivedWithKeypair. destruct (negb _); [done|]. cbn [snd]. etransitivity; [|apply setKeypairs_outer].
  etransitivity; [|apply DeleteKeypair_outer]. done.
Qed.

#[export] Instance outer_stable : Stable sameOuter.
Proof.
  split.
  - apply _.
  - apply core_outer.
  - intros p d. apply CreateMessageInitiation_outer.
  - intros p d. apply CreateMessageResponse_outer.
  - done.
  - done.
  - intros p d. unfold BeginSymmetricSession. destruct (sessionKeys _) as [[[sk rk] init]|]; [|done]. cbn [snd].
    etransitivity; [|apply rotateKeypairs_outer]. unfold SwapIndexForKeypair. by destruct (indexTable _ !! _).
  - apply ReceivedWithKeypair_outer.
  - intros p d. unfold clearKeypairs. etransitivity; [|apply setKeypairs_outer].
    do 3 (etransitivity; [|apply DeleteKeypair_outer]). done.
  - by intros p d.
  - intros o d. by destruct o.
  - intros k c d. unfold validateCounter. by destruct (ValidateCounter _ _ _) as [ok f].
  - intros p k es d kept ooo d1 d2 E Hc. pose proof (assignNonces_outer p k es d) as H. rewrite E in H. cbn [snd] in H.
    assert (H3 : sameOuter d d2) by (etransitivity; [exact H|by apply core_outer]). split; [done|].
    etransitivity; [exact H3|]. unfold enqueueOutbound. by destruct (isRunning _).
  - intros d d'. unfold encryptionStep. destruct (encryptionQ d) as [|c q]; [done|]. set (d0 := d <| encryptionQ := q |>).
    pose proof (encryptAll_core (elems (outContainer d c)) d0) as H. destruct (encryptAll _ d0) as [es' d1].
    intros [= <-]. exact (core_outer _ _ H).
  - by intros c d _.
  - intros pk d. unfold NewPeer. destruct (isClosed d); [done|]. destruct (_ <=? _)%nat; [done|]. by destruct (bool_decide _).
Qed.

#[export] Instance state_stable : Stable sameState.
Proof. apply (Stable_weaken sameState sameOuter). by intros d d' []. Qed.

#[export] Instance state_stable_io : StableIO sameState.
Proof. split; [apply _|..]; by intros f d. Qed.

#[export] Instance closed_stable_io : StableIO closedStep.
Proof.
  split; [|by intros f d H..]. apply (Stable_weaken closedStep sameState). unfold sameState, closedStep, isClosed. by intros d d' ->.
Qed.

#[export] Instance closed_stable : StableState closedStep.
Proof.
  split.
  - apply _.
  - intros s d Hc. unfold changeState. unfold isClosed in Hc. by rewrite Hc.
  - intros d Hc. unfold Close. by rewrite Hc.
Qed.

Lemma merge_state i d : sameState d (mergeWithDevice i d).2.
Proof. unfold sameState, mergeWithDevice. destruct (negb _); [done|]. by destruct (_ && _). Qed.

Lemma Close_closes d : isClosed (Close d) = true.
Proof.
  unfold Close. destruct (isClosed d) eqn:E; [done|]. set (d0 := setState deviceStateClosed d).
  assert (H : sameState d0 (RemoveAllPeers (downLocked d0).2)).
  { apply (R_trans sameState d0 (downLocked d0).2); [apply (downLocked_stable sameState)|apply (RemoveAllPeers_stable sameState)]. }
  unfold isClosed. change (state (update _ ?x)) with (state x). rewrite H. done.
Qed.

Lemma IpcSet_state conf d : state (IpcSet conf d).2 = state d.
Proof. apply (IpcSet_stable sameState). intros i d1. apply merge_state. Qed.

Lemma IpcSet_closed conf d : closedStep d (IpcSet conf d).2.
Proof. unfold closedStep, isClosed. by rewrite IpcSet_state. Qed.

Lemma step_closed d d' : devStep d d' -> closedStep d d'.
Proof. apply (devStep_stable closedStep), IpcSet_closed. Qed.

Lemma reachable_closed d d' : reachable d d' -> closedStep d d'.
Proof. apply (reachable_stable closedStep), IpcSet_closed. Qed.

(** A device that is not closed is up once [Up] succeeded. *)
Lemma Up_isUp d d' : isClosed d = false -> Up d = (Ok tt, d') -> isUp d' = true.
Proof.
  unfold isClosed, Up, changeState, isUp. intros Hc%bool_decide_eq_false. destruct (bool_decide (state d = _)) eqn:E.
  { by apply bool_decide_eq_true in E. }
  cbn [orb]. destruct (bool_decide (deviceStateUp = state d)) eqn:Hu; [intros [= <-]; apply bool_decide_eq_true in Hu; by apply bool_decide_eq_true|]. cbv zeta.
  pose proof (upLocked_stable sameState (setState deviceStateUp d)) as H.
  destruct (upLocked _) as [[[]|e] d1]; [|by destruct (downLocked _)]. cbn [snd] in H. intros [= <-].
  apply bool_decide_eq_true. unfold sameState in H. by rewrite H.
Qed.

(** ** What is written to the TUN device *)

(** The total length of a packet as its header states it. *)
Definition totalLength4 (packet : list Z) : Z := be_val (slice packet 2 4).
Definition totalLength6 (packet : list Z) : Z := be_val (slice packet 4 6) + 40.

(** [w] is what may be written for a packet [packet] of peer [p]: its source is
    routed to [p] and [w] is the packet cut to the length its header states, which
    lies within it.  The one exception is an IPv6 packet whose stated length, with
    the header, is 65536 or more: then [w] is that many bytes less 65536 (at most 39). *)
Definition sourceRouted (d : Device) (p : nat) (packet w : list Z) : Prop :=
  let n := Z.of_nat (length packet) in
  (Z.shiftr (nth 0 packet 0) 4 = 4 /\ 20 <= totalLength4 packet <= n /\
   Lookup (allowedips d) (ipOf (slice packet 12 16)) = Some (Some p) /\
   w = take (Z.to_nat (totalLength4 packet)) packet) \/
  (Z.shiftr (nth 0 packet 0) 4 = 6 /\ 40 <= n /\
   Lookup (allowedips d) (ipOf (slice packet 8 24)) = Some (Some p) /\
   (0 <= totalLength6 packet < 65536 -> totalLength6 packet <= n /\ w = take (Z.to_nat (totalLength6 packet)) packet) /\
   (65536 <= totalLength6 packet < 65536 + 40 -> w = take (Z.to_nat (totalLength6 packet - 65536)) packet)).

Lemma mjoin_some {A} (o : option (option A)) x : mjoin o = Some x -> o = Some (Some x).
Proof. destruct o as [[y|]|]; cbn; congruence. Qed.

Lemma tunPacket_routed d p packet w : tunPacket d p packet = Some w -> sourceRouted d p packet w.
Proof.
  unfold tunPacket, sourceRouted. cbv zeta. fold (totalLength4 packet). fold (totalLength6 packet).
  destruct (Z.eqb_spec (Z.shiftr (nth 0 packet 0) 4) 4) as [E|_].
  - destruct (_ <? _)%nat; [done|]. destruct ((_ <? _) || _) eqn:El; [done|].
    apply orb_false_iff in El as [H1%Z.ltb_ge H2%Z.ltb_ge]. case_bool_decide as Ha; [|done]. intros [= <-].
    left. split; [done|]. split; [done|]. by apply mjoin_some in Ha.
  - destruct (Z.eqb_spec (Z.shiftr (nth 0 packet 0) 4) 6) as [E|_]; [|done].
    destruct (Nat.ltb_spec (length packet) 40); [done|]. destruct (Z.ltb_spec (Z.of_nat (length packet)) (u16 (totalLength6 packet))) as [?|Hl]; [done|].
    case_bool_decide as Ha; [|done]. intros [= <-]. right. split; [done|]. split; [lia|]. split; [by apply mjoin_some|].
    unfold u16 in *. change (2 ^ 16) with 65536 in *. split; intros Hb.
    + rewrite Z.mod_small in Hl |- * by done. done.
    + replace (totalLength6 packet mod 65536) with (totalLength6 packet - 65536); [done|].
      apply (Z.mod_unique_pos _ _ 1); lia.
Qed.

Lemma tunPacket_routes d d' p packet : allowedips d' = allowedips d -> tunPacket d' p packet = tunPacket d p packet.
Proof. intros H. unfold tunPacket. by rewrite H. Qed.

Lemma receiveElem_bufs d p rx dc e :
  sameOuter d dc -> bufs (receiveElem p (rx, dc) e).1 = bufs rx \/
  exists packet w, ielPacket e = Some packet /\ tunPacket d p packet = Some w /\ bufs (receiveElem p (rx, dc) e).1 = bufs rx ++ [w].
Proof.
  intros H0. pose proof (receiveElem_stable sameOuter p rx dc e) as H1. unfold receiveElem in *.
  destruct (ielPacket e) as [packet|]; [|by left]. destruct (validateCounter _ _ dc) as [ok d1]. destruct (negb ok); [by left|].
  destruct (ReceivedWithKeypair p _ d1) as [confirmed d2]. set (d3 := if confirmed : bool then _ else _) in *.
  destruct packet as [|b packet]; [by left|]. destruct (b =? 0); [by left|]. cbn [fst snd bufs] in *.
  rewrite (tunPacket_routes d) by (destruct H0 as (_ & <- & _), H1 as (_ & <- & _); done).
  destruct (tunPacket d p (b :: packet)) as [w|] eqn:Ew; [right; by eexists _, w|left; apply app_nil_r].
Qed.

Definition packetsOf (es : list InElem) : list (list Z) := omap ielPacket es.

Lemma receive_bufs d p es rx dc :
  sameOuter d dc ->
  exists ws, bufs (foldl (receiveElem p) (rx, dc) es).1 = bufs rx ++ ws /\ ws `sublist_of` omap (tunPacket d p) (packetsOf es).
Proof.
  revert rx dc. induction es as [|e es IH]; intros rx dc H; cbn [foldl].
  - exists []. rewrite app_nil_r. split; [done|constructor].
  - pose proof (receiveElem_bufs d p rx dc e H) as Hb. pose proof (receiveElem_stable sameOuter p rx dc e) as H1.
    destruct (receiveElem p (rx, dc) e) as [rx1 d1]. cbn [fst snd] in *.
    destruct (IH rx1 d1) as (ws & E & Hs); [by transitivity dc|]. unfold packetsOf in *.
    destruct Hb as [Eb|(packet & w & Ep & Ew & Eb)]; rewrite E, Eb.
    + exists ws. split; [done|]. cbn [omap list_omap]. destruct (ielPacket e); [|done]. cbn [omap list_omap].
      destruct (tunPacket d p l); [by apply sublist_cons|done].
    + exists (w :: ws). rewrite <- app_assoc. split; [done|]. cbn [omap list_omap]. rewrite Ep. cbn [omap list_omap]. rewrite Ew.
      by apply sublist_skip.
Qed.

(** C14: what a peer may inject.  The sequential receiver of peer [p] writes to the
    TUN device, in the order they arrived, only packets decrypted for [p] whose
    source address the routing table gives to [p], each cut to the length its
    header states, which lies within the decrypted bytes, except that a stated
    IPv6 length of 65536 to 65575 counts as 0 to 39 ([sourceRouted]); the routing
    table stays as it is. *)
Theorem tun_source_routed p d c q d' :
  inbound (peerOf d p) = Some c :: q -> RoutineSequentialReceiver p d = Stepped d' ->
  exists ws, tunWritten d' = tunWritten d ++ ws /\ allowedips d' = allowedips d /\
    ws `sublist_of` omap (tunPacket d p) (packetsOf (elems (inContainer d c))) /\
    Forall (fun w => exists packet, packet ∈ packetsOf (elems (inContainer d c)) /\ sourceRouted d p packet w) ws.
Proof.
  intros Ei. unfold RoutineSequentialReceiver. rewrite Ei. destruct (locked _); [done|]. intros [= <-].
  set (es := elems (inContainer d c)). set (d0 := _ <| inStore ::= _ |>). assert (H0 : sameOuter d d0) by done.
  destruct (receive_bufs d p es (mkRx None false 0 []) d0 H0) as (ws & E & Hs). cbn [app bufs] in E.
  destruct (receiveElems_written sameOuter p es d0) as (d3 & E3 & H3). rewrite E3, E.
  assert (H4 : sameOuter d d3) by (by transitivity d0). destruct H4 as (_ & Ha & Ht).
  exists ws. split; [exact (f_equal (fun l => l ++ ws) Ht)|]. split; [exact Ha|]. split; [exact Hs|].
  apply Forall_forall. intros w Hw.
  assert (Hw' : w ∈ omap (tunPacket d p) (packetsOf es)) by (apply (elem_of_submseteq _ _ _ Hw), sublist_submseteq, Hs).
  apply list_elem_of_omap in Hw' as (packet & Hp & Ew). exists packet. split; [done|by apply tunPacket_routed].
Qed.

(** Closing a device is final.  [Close] leaves it closed, and from then on
    every handler leaves it closed: it stays closed through configurations, [Up],
    [Down], timers and everything that was still queued; [Up] and [Down] then do
    nothing, no peer can be created, and nothing is sent to a peer. *)
Theorem close_is_final d d' :
  reachable (Close d) d' ->
  isClosed d' = true /\ Up d' = (Ok tt, d') /\ Down d' = (Ok tt, d') /\ Close d' = d' /\
  (forall pk, NewPeer pk d' = (Err ErrDeviceClosed, d')) /\
  (forall p bufs, SendBuffers p bufs d' = (Ok tt, d')).
Proof.
  intros Hr. assert (Hc : isClosed d' = true) by (apply (reachable_closed _ _ Hr), Close_closes).
  split; [done|]. unfold Up, Down, changeState, Close, NewPeer, SendBuffers. rewrite Hc. unfold isClosed in Hc. by rewrite Hc.
Qed.
End State.
