(* ===== verification/PrEngineThm.v ===== *)
(** * Who owns the devices of the process

    However the exported functions are called and the devices run, every device
    that is not closed belongs to the live tunnel or to the tunnel of a probe that
    runs, and so do the listeners; a start that succeeds leaves the tunnel's
    devices up. *)

From stdpp Require Import base numbers list gmap sets strings.
From Stdlib Require Import ZArith Lia.
From S2P Require Import Prelude GoStrings NoiseTypes Crypto Replay RateLimiter Tai64n AllowedIPs NetIP Obf DeviceTypes Messages Noise NoiseRun Timers Cookie Packet Send Receive Lifecycle GoNet PrConfig PrConfigThm PrI1 Uapi PrEngine Events StateInv.

Section Owners.
Context `{C : Crypto} `{N : Entropy} (bindOf : bool -> Bind) `{E : EngineEnv}.

(** ** Devices *)

Definition ownedBy (t : awgTunnel) (id : nat) : Prop := outerDev t = Some id \/ innerDev t = Some id.

(** Every device is closed but those in [P]. *)
Definition tidy (P : nat -> Prop) (w : World) : Prop :=
  forall id k d, devs w !! id = Some (k, d) -> isClosed d = true \/ P id.

(** Device [id] is there, of its kind, and up. *)
Definition upDev (w : World) (id : nat) (k : bool) : Prop := exists d, devs w !! id = Some (k, d) /\ isUp d = true.

(** The tunnels of the process. *)
Definition tunnels (w : World) : option awgTunnel * gmap nat awgTunnel := (live w, probes w).

(** Nothing but the devices, the clock's readers and the random bytes changed. *)
Definition sameRest (w w' : World) : Prop := listening w' = listening w /\ tunnels w' = tunnels w.

#[local] Instance sameRest_preorder : PreOrder sameRest.
Proof. split; [by intros w|]. intros w1 w2 w3 [] []. split; congruence. Qed.

Lemma tidy_weaken (P Q : nat -> Prop) w : (forall id, P id -> Q id) -> tidy P w -> tidy Q w.
Proof. intros H HT id k d Hd. destruct (HT id k d Hd); auto. Qed.

Lemma closeDev_lookup id w j :
  devs (closeDev bindOf id w) !! j =
  if decide (j = id) then (fun kd => (kd.1, Close (B := bindOf kd.1) kd.2)) <$> devs w !! j else devs w !! j.
Proof. unfold closeDev. cbn. rewrite lookup_alter. repeat case_decide; congruence. Qed.

Lemma closeDev_tidy (P Q : nat -> Prop) id w :
  tidy P w -> (forall j, P j -> j <> id -> Q j) -> tidy Q (closeDev bindOf id w) /\ sameRest w (closeDev bindOf id w).
Proof.
  intros HT HPQ. split; [|done]. intros j k d. rewrite closeDev_lookup. case_decide as Hj; subst.
  - destruct (devs w !! id) as [[k' d']|]; [|done]. cbn. intros [= <- <-]. left. apply Close_closes.
  - intros Hd. destruct (HT j k d Hd); [by left|right]. by apply HPQ.
Qed.

Lemma closeDev_up id w j k : j <> id -> upDev w j k -> upDev (closeDev bindOf id w) j k.
Proof. intros Hj (d & Hd & Hu). exists d. rewrite closeDev_lookup. by rewrite decide_False. Qed.

Lemma newDev_spec (P : nat -> Prop) k m w :
  tidy P w -> let '(id, w') := newDev k m w in
  devs w !! id = None /\ tidy (fun j => P j \/ j = id) w' /\ sameRest w w' /\
  (exists d, devs w' !! id = Some (k, d) /\ isClosed d = false) /\ (forall j, j <> id -> devs w' !! j = devs w !! j).
Proof.
  intros HT. unfold newDev. set (id := base.fresh _). assert (Hf : devs w !! id = None) by apply not_elem_of_dom, is_fresh.
  split; [done|]. split; [|split; [done|split]].
  - intros j k' d. cbn. rewrite lookup_insert. case_decide as Hj; [intros _; right; by right|].
    intros Hd. destruct (HT j k' d Hd); [by left|right; by left].
  - eexists. cbn. rewrite lookup_insert, decide_True by done. done.
  - intros j Hj. cbn. by rewrite lookup_insert_ne.
Qed.

(** A configuration that succeeds leaves the device up, one that fails closed. *)
Lemma configureDev_spec (P : nat -> Prop) id conf w k d :
  devs w !! id = Some (k, d) -> isClosed d = false -> tidy (fun j => P j \/ j = id) w -> ~ P id ->
  let '(r, w') := configureDev bindOf id conf w in
  sameRest w w' /\ (forall j, j <> id -> devs w' !! j = devs w !! j) /\
  match r with
  | Ok _ => tidy (fun j => P j \/ j = id) w' /\ upDev w' id k
  | Err _ => tidy P w'
  end.
Proof.
  intros Hd Hc HT HP. unfold configureDev, runDev. rewrite Hd.
  destruct (IpcSet conf d) as [r1 d1] eqn:E1.
  assert (Hc1 : isClosed d1 = false).
  { pose proof (IpcSet_state (B := bindOf k) conf d) as H. rewrite E1 in H. cbn [snd] in H. unfold isClosed in *. by rewrite H. }
  set (w1 := w <| devs ::= <[id := (k, d1)]> |>).
  assert (HT1 : tidy (fun j => P j \/ j = id) w1).
  { intros j k' d'. cbn. rewrite lookup_insert. case_decide as Hj; [intros _; right; by right|]. apply HT. }
  assert (Ho1 : forall j, j <> id -> devs w1 !! j = devs w !! j) by (intros j Hj; cbn; by rewrite lookup_insert_ne).
  assert (Hcl : forall w2, sameRest w w2 -> tidy (fun j => P j \/ j = id) w2 -> (forall j, j <> id -> devs w2 !! j = devs w !! j) ->
    sameRest w (closeDev bindOf id w2) /\ (forall j, j <> id -> devs (closeDev bindOf id w2) !! j = devs w !! j) /\ tidy P (closeDev bindOf id w2)).
  { intros w2 Hs2 HT2 Ho2. destruct (closeDev_tidy (fun j => P j \/ j = id) P id w2 HT2) as [H1 H2]; [naive_solver|].
    split; [by transitivity w2|]. split; [|done]. intros j Hj. rewrite closeDev_lookup, decide_False by done. by apply Ho2. }
  destruct r1 as [[]|e1]; [|by apply Hcl].
  replace (devs w1 !! id) with (Some (k, d1)) by (cbn; by rewrite lookup_insert, decide_True).
  destruct (Up d1) as [r2 d2] eqn:E2. set (w2 := w1 <| devs ::= <[id := (k, d2)]> |>).
  assert (HT2 : tidy (fun j => P j \/ j = id) w2).
  { intros j k' d'. cbn. rewrite lookup_insert. case_decide as Hj; [intros _; right; by right|]. apply HT1. }
  assert (Ho2 : forall j, j <> id -> devs w2 !! j = devs w !! j) by (intros j Hj; cbn; rewrite lookup_insert_ne by done; by apply Ho1).
  destruct r2 as [[]|e2]; [|by apply Hcl]. split; [done|]. split; [done|]. split; [done|]. exists d2.
  split; [cbn; by rewrite lookup_insert, decide_True|]. by eapply Up_isUp.
Qed.

(** ** Tunnels *)

(** The devices in [P] belong to others and are left as they are. *)
Definition othersKept (P : nat -> Prop) (w w' : World) : Prop := forall j, P j -> devs w' !! j = devs w !! j.

Record tunnel_ok (P : nat -> Prop) (t : awgTunnel) (w : World) : Prop := {
  tk_tidy : tidy (fun j => P j \/ ownedBy t j) w;
  tk_others j : P j -> is_Some (devs w !! j);
  tk_outer : exists o, outerDev t = Some o /\ outerNet t = Some o /\ is_Some (devs w !! o) /\ innerDev t <> Some o /\ ~ P o;
  tk_net : innerNet t = innerDev t;
  tk_inner i : innerDev t = Some i -> is_Some (devs w !! i) /\ ~ P i
}.

Definition tunnel_up (t : awgTunnel) (w : World) : Prop :=
  (forall o, outerDev t = Some o -> upDev w o false) /\ (forall i, innerDev t = Some i -> upDev w i true).

Definition sameOuterParts (t t' : awgTunnel) : Prop :=
  outerDev t' = outerDev t /\ outerNet t' = outerNet t /\ outerLocal t' = outerLocal t /\ ln t' = ln t /\ tcfg t' = tcfg t.

#[local] Instance sameOuterParts_preorder : PreOrder sameOuterParts.
Proof. split; [by intros t|]. intros t1 t2 t3 (? & ? & ? & ? & ?) (? & ? & ? & ? & ?). repeat split; congruence. Qed.

#[local] Instance othersKept_preorder P : PreOrder (othersKept P).
Proof. split; [by intros w|]. intros w1 w2 w3 H1 H2 j Hj. rewrite (H2 j Hj). by apply H1. Qed.

(** What an operation on a tunnel keeps. *)
Definition tunnelStep (P : nat -> Prop) (s s' : awgTunnel * World) : Prop :=
  tunnel_ok P s.1 s.2 ->
  tunnel_ok P s'.1 s'.2 /\ sameRest s.2 s'.2 /\ othersKept P s.2 s'.2 /\ sameOuterParts s.1 s'.1 /\ (tunnel_up s.1 s.2 -> tunnel_up s'.1 s'.2).

#[local] Instance tunnelStep_preorder P : PreOrder (tunnelStep P).
Proof.
  split; [by intros s|]. intros s1 s2 s3 H1 H2 H. destruct (H1 H) as (A1 & A2 & A3 & A4 & A5).
  destruct (H2 A1) as (B1 & B2 & B3 & B4 & B5). split; [done|]. split; [by transitivity s2.2|].
  split; [by transitivity s2.2|]. split; [by transitivity s2.1|auto].
Qed.

(** Nothing about the devices or the tunnel changed. *)
Lemma tunnelStep_draw P t w pos : tunnelStep P (t, w) (t, w <| wdrawn := pos |>).
Proof. intros HT. split; [by destruct HT|done]. Qed.

Lemma dropInner_step P t w :
  tunnelStep P (t, w) (dropInner bindOf t w) /\ (innerNet t = innerDev t -> innerDev (dropInner bindOf t w).1 = None /\ innerNet (dropInner bindOf t w).1 = None).
Proof.
  unfold dropInner. destruct (innerDev t) as [id|] eqn:Ei; [|split; [done|]; cbn; intros ->; done]. split; [|done]. intros [H1 H2 H3 H4 H5]. cbn [fst snd] in *.
  destruct H3 as (o & Ho & Hn & Hd & Hio & HPo). destruct (H5 id Ei) as [_ HPi].
  destruct (closeDev_tidy (fun j => P j \/ ownedBy t j) (fun j => P j \/ outerDev t = Some j) id w H1) as [HT Hs].
  { intros j [Hj|[Hj|Hj]] Hne; [by left|by right|]. congruence. }
  assert (Hsome : forall j, is_Some (devs w !! j) -> is_Some (devs (closeDev bindOf id w) !! j)).
  { intros j Hj. rewrite closeDev_lookup. case_decide; [by apply fmap_is_Some|done]. }
  split; [split; cbn [fst snd]|].
  - eapply tidy_weaken; [|exact HT]. intros j [Hj|Hj]; [by left|right; by left].
  - intros j Hj. by apply Hsome, H2.
  - exists o. by repeat split; [..|apply Hsome| |].
  - done.
  - done.
  - split; [done|]. split.
    { intros j Hj. rewrite closeDev_lookup, decide_False; [done|]. by intros ->. }
    split; [done|]. intros [U1 U2]. split; [|done]. cbn. intros o' Ho'. apply closeDev_up; [congruence|by apply U1].
Qed.

Lemma upDev_frame w w' j k : devs w' !! j = devs w !! j -> upDev w j k -> upDev w' j k.
Proof. intros H (d & Hd & Hu). exists d. by rewrite H. Qed.

(** A tunnel without inner device, and a world in which only a new device came. *)
Lemma tunnelStep_fresh P t w w' id :
  innerDev t = None -> devs w !! id = None -> (forall j, j <> id -> devs w' !! j = devs w !! j) -> sameRest w w' ->
  (tidy (fun j => P j \/ outerDev t = Some j) w' -> tunnelStep P (t, w) (t, w')) /\
  (forall local, tidy (fun j => (P j \/ outerDev t = Some j) \/ j = id) w' -> upDev w' id true ->
     tunnelStep P (t, w) (t <| innerDev := Some id |> <| innerNet := Some id |> <| innerLocal := local |>, w')).
Proof.
  intros Hi Hid Ho Hs.
  assert (Hne : forall j, is_Some (devs w !! j) -> j <> id) by (intros j [x Hx] ->; congruence).
  assert (Hk : forall j, is_Some (devs w !! j) -> is_Some (devs w' !! j)) by (intros j Hj; rewrite Ho; [done|by apply Hne]).
  split.
  - intros HT [H1 H2 (o & Eo & En & Ed & Ei & HP) H4 H5]. cbn [fst snd] in *. split; [split|].
    + eapply tidy_weaken; [|exact HT]. intros j [Hj|Hj]; [by left|right; by left].
    + auto.
    + exists o. repeat split; auto.
    + done.
    + rewrite Hi. done.
    + split; [done|]. split; [intros j Hj; auto|]. split; [done|]. intros [U1 U2]. split; [|by rewrite Hi]. cbn [fst snd] in *.
      intros o' Eo'. apply (upDev_frame w); [|by apply U1]. apply Ho, Hne. congruence.
  - intros local HT HU [H1 H2 (o & Eo & En & Ed & Ei & HP) H4 H5]. cbn [fst snd] in *. split; [split|].
    + eapply tidy_weaken; [|exact HT]. intros j [[Hj|Hj]|Hj]; [by left|right; by left|right; right; cbn; congruence].
    + auto.
    + exists o. cbn. repeat split; auto. intros [= ->]. by apply (Hne o).
    + done.
    + cbn. intros i [= <-]. split; [by destruct HU as (d & -> & _)|]. intros Hp. by apply (Hne id (H2 id Hp)).
    + split; [done|]. split; [intros j Hj; auto|]. split; [done|]. intros [U1 U2]. split; cbn [fst snd] in *.
      * intros o' Eo'. cbn in Eo'. apply (upDev_frame w); [|by apply U1]. apply Ho, Hne. congruence.
      * cbn. by intros i [= <-].
Qed.

(** What [replaceInner] does once the place of the inner device is empty. *)
Lemma freshInner_step P t w local conf pos :
  innerDev t = None ->
  let '(id, w2) := newDev true 1200 w in
  tunnelStep P (t, w) (t, closeDev bindOf id (w2 <| wdrawn := pos |>)) /\
  match configureDev bindOf id conf (w2 <| wdrawn := pos |>) with
  | (Err _, w3) => tunnelStep P (t, w) (t, w3)
  | (Ok _, w3) => tunnelStep P (t, w) (t <| innerDev := Some id |> <| innerNet := Some id |> <| innerLocal := local |>, w3)
  end.
Proof.
  intros Hi. pose proof (newDev_spec (fun j => P j \/ outerDev t = Some j) true 1200 w) as Hnew.
  destruct (newDev true 1200 w) as [id w2]. set (w2' := w2 <| wdrawn := pos |>).
  assert (Hpre : tunnel_ok P t w -> tidy (fun j => P j \/ outerDev t = Some j) w).
  { intros H. eapply tidy_weaken; [|apply (tk_tidy _ _ _ H)]. intros j [Hj|[Hj|Hj]]; [by left|by right|congruence]. }
  assert (Hnot : tunnel_ok P t w -> devs w !! id = None -> ~ (P id \/ outerDev t = Some id)).
  { intros H Hid [Hp|Hp].
    - apply (tk_others _ _ _ H) in Hp as [x Hx]. congruence.
    - destruct (tk_outer _ _ _ H) as (o & Eo & _ & [x Hx] & _). congruence. }
  split.
  - intros H. destruct (Hnew (Hpre H)) as (N1 & N2 & N3 & N4 & N5).
    destruct (closeDev_tidy (fun j => (P j \/ outerDev t = Some j) \/ j = id) (fun j => P j \/ outerDev t = Some j) id w2' N2) as [HT Hs]; [naive_solver|].
    apply (tunnelStep_fresh P t w _ id); [done|done| |exact (transitivity (y := w2') N3 Hs)|done|done].
    intros j Hj. rewrite closeDev_lookup, decide_False by done. by apply N5.
  - destruct (configureDev bindOf id conf w2') as [r w3] eqn:Ec.
    assert (Hall : tunnel_ok P t w -> devs w !! id = None /\ sameRest w w3 /\ (forall j, j <> id -> devs w3 !! j = devs w !! j) /\
      match r with Ok _ => tidy (fun j => (P j \/ outerDev t = Some j) \/ j = id) w3 /\ upDev w3 id true
                 | Err _ => tidy (fun j => P j \/ outerDev t = Some j) w3 end).
    { intros H. destruct (Hnew (Hpre H)) as (N1 & N2 & N3 & (d & N4 & N4') & N5).
      pose proof (configureDev_spec (fun j => P j \/ outerDev t = Some j) id conf w2' true d N4 N4' N2 (Hnot H N1)) as Hconf.
      rewrite Ec in Hconf. destruct Hconf as (C1 & C2 & C3). split; [done|]. split; [exact (transitivity (y := w2') N3 C1)|].
      split; [|done]. intros j Hj. rewrite C2 by done. by apply N5. }
    destruct r as [[]|e]; intros H; destruct (Hall H) as (B1 & B2 & B3 & B4);
      destruct (tunnelStep_fresh P t w w3 id Hi B1 B3 B2) as [F1 F2].
    + destruct B4 as [B4 B5]. by apply F2.
    + by apply F1.
Qed.

Lemma replaceInner_step P cfg ep t w : tunnelStep P (t, w) (replaceInner bindOf cfg ep (t, w)).2.
Proof.
  unfold replaceInner. destruct (dropInner_step P t w) as [Hd Hn]. destruct (dropInner bindOf t w) as [t1 w1] eqn:Ed. cbn [fst snd] in *.
  assert (Hi : innerDev t1 = None).
  { unfold dropInner in Ed. destruct (innerDev t) eqn:Ei; injection Ed as <- <-; done. }
  destruct (parseAddr _) as [local|]; [|done]. destruct (negb _); [done|].
  destruct (newDev true 1200 w1) as [id w2] eqn:En.
  destruct (innerUAPI cfg ep (wdrawn w2)) as [[conf|e] pos].
  - pose proof (freshInner_step P t1 w1 local conf pos Hi) as H. rewrite En in H. destruct H as [_ H].
    destruct (configureDev bindOf id conf _) as [[[]|e] w3]; cbn [fst snd]; etransitivity; [exact Hd|exact H|exact Hd|exact H].
  - pose proof (freshInner_step P t1 w1 local [] pos Hi) as H. rewrite En in H. destruct H as [H _]. etransitivity; [exact Hd|exact H].
Qed.

(** The inner device is there exactly when the replacement succeeded. *)
Lemma replaceInner_inner cfg ep t w :
  innerNet t = innerDev t ->
  let '(r, (t', _)) := replaceInner bindOf cfg ep (t, w) in
  match r with Ok _ => is_Some (innerDev t') /\ innerNet t' = innerDev t' | Err _ => innerDev t' = None /\ innerNet t' = None end.
Proof.
  intros Hn. unfold replaceInner. destruct (dropInner_step (fun _ => False) t w) as [_ Hi]. specialize (Hi Hn).
  destruct (dropInner bindOf t w) as [t1 w1]. cbn [fst] in Hi. destruct (parseAddr _); [|done]. destruct (negb _); [done|].
  destruct (newDev true 1200 w1) as [id w2]. destruct (innerUAPI _ _ _) as [[conf|e] pos]; [|done].
  destruct (configureDev _ _ _ _) as [[[]|e] w3]; [|done]. split; [by eexists|done].
Qed.
Lemma hopLoop_step P cfg first hosts lastErr s : tunnelStep P s (hopLoop bindOf cfg first hosts lastErr s).2.
Proof.
  revert s lastErr. induction hosts as [|ep hosts IH]; intros [t w] lastErr; cbn [hopLoop].
  { by destruct (innerDev t). }
  pose proof (replaceInner_step P cfg ep t w) as H. destruct (replaceInner bindOf cfg ep (t, w)) as [[[]|e] s1]; cbn [snd] in H.
  - destruct (negb _); [exact H|]. destruct (lookupEgress _ _) as [second|].
    + destruct (hopExitsDiffer _ _); [exact H|]. destruct (_ =? _)%nat; [exact H|]. etransitivity; [exact H|apply IH].
    + destruct (_ =? _)%nat; [exact H|]. etransitivity; [exact H|apply IH].
  - etransitivity; [exact H|apply IH].
Qed.

(** A hop that succeeds has its inner device. *)
Lemma hopLoop_inner cfg first hosts lastErr t w :
  innerNet t = innerDev t ->
  let '(r, (t', _)) := hopLoop bindOf cfg first hosts lastErr (t, w) in
  match r with Ok _ => is_Some (innerDev t') /\ innerNet t' = innerDev t' | Err _ => True end.
Proof.
  revert t w lastErr. induction hosts as [|ep hosts IH]; intros t w lastErr Hn; cbn [hopLoop].
  { destruct (innerDev t) eqn:Ei; [|done]. rewrite Ei. by split. }
  pose proof (replaceInner_inner cfg ep t w Hn) as H. destruct (replaceInner bindOf cfg ep (t, w)) as [[[]|e] [t1 w1]].
  - destruct H as [H1 H2]. cbn [fst snd]. destruct (negb _); [by split|]. destruct (lookupEgress _ _) as [second|].
    + destruct (hopExitsDiffer _ _); [by split|]. destruct (_ =? _)%nat; [by split|by apply IH].
    + destruct (_ =? _)%nat; [by split|by apply IH].
  - apply IH. destruct H as [-> ->]. done.
Qed.

Lemma closeTunnel_spec (P : nat -> Prop) t w :
  tidy (fun j => P j \/ ownedBy t j) w ->
  tidy P (closeTunnel bindOf t w) /\ tunnels (closeTunnel bindOf t w) = tunnels w /\
  listening (closeTunnel bindOf t w) = (match ln t with Some l => listening w ∖ {[l]} | None => listening w end) /\
  (tunnel_ok P t w -> othersKept P w (closeTunnel bindOf t w)).
Proof.
  intros HT. unfold closeTunnel. set (w1 := match ln t with Some l => _ | None => w end).
  assert (H1 : tidy (fun j => P j \/ ownedBy t j) w1 /\ tunnels w1 = tunnels w /\ devs w1 = devs w /\
    listening w1 = (match ln t with Some l => listening w ∖ {[l]} | None => listening w end)).
  { unfold w1. by destruct (ln t). }
  destruct H1 as (T1 & L1 & D1 & S1). clearbody w1. set (w2 := match innerDev t with Some id => _ | None => w1 end).
  assert (H2 : tidy (fun j => P j \/ outerDev t = Some j) w2 /\ sameRest w1 w2).
  { unfold w2. destruct (innerDev t) as [i|] eqn:Ei.
    - apply (closeDev_tidy (fun j => P j \/ ownedBy t j)); [done|]. unfold ownedBy. intros j [?|[?|?]] Hne; [by left|by right|congruence].
    - split; [|done]. eapply tidy_weaken; [|exact T1]. intros j [?|[?|?]]; [by left|by right|congruence]. }
  destruct H2 as [T2 R2].
  assert (H3 : tidy P (match outerDev t with Some id => closeDev bindOf id w2 | None => w2 end) /\
    sameRest w2 (match outerDev t with Some id => closeDev bindOf id w2 | None => w2 end)).
  { destruct (outerDev t) as [o|] eqn:Eo.
    - apply (closeDev_tidy (fun j => P j \/ Some o = Some j)); [done|]. intros j [?|[= ->]] Hne; done.
    - split; [|done]. eapply tidy_weaken; [|exact T2]. intros j [?|?]; [done|congruence]. }
  destruct H3 as [T3 R3]. split; [done|]. destruct R2 as [R2 R2'], R3 as [R3 R3']. split; [congruence|]. split; [congruence|].
  intros Hok j Hj. destruct (tk_outer _ _ _ Hok) as (o & Eo & _ & _ & _ & HPo). rewrite Eo.
  rewrite closeDev_lookup, decide_False by (by intros ->). unfold w2. destruct (innerDev t) as [i|] eqn:Ei; [|by rewrite D1].
  destruct (tk_inner _ _ _ Hok i Ei) as [_ HPi]. rewrite closeDev_lookup, decide_False by (by intros ->). by rewrite D1.
Qed.

(** ** Opening a tunnel *)

Lemma newTunnel_ok P id local cfg w :
  tidy (fun j => P j \/ j = id) w -> (forall j, P j -> is_Some (devs w !! j)) -> ~ P id -> upDev w id false ->
  tunnel_ok P (newTunnel id local cfg) w /\ tunnel_up (newTunnel id local cfg) w.
Proof.
  intros HT HP Hn HU. split; [split|split]; cbn.
  - eapply tidy_weaken; [|exact HT]. intros j [Hj| ->]; [by left|right; by left].
  - done.
  - exists id. repeat split; try done. by destruct HU as (d & -> & _).
  - done.
  - done.
  - by intros o [= <-].
  - done.
Qed.

(** What [openTunnel] promises, in a world whose devices in [P] belong to others. *)
Definition opened (P : nat -> Prop) (cfg : socksConfig) (w : World) (r : result engineError awgTunnel) (w' : World) : Prop :=
  tunnels w' = tunnels w /\ othersKept P w w' /\
  match r with
  | Err _ => tidy P w' /\ listening w' = listening w
  | Ok t => tunnel_ok P t w' /\ tunnel_up t w' /\ tcfg t = cfg /\ (cHop cfg = true -> is_Some (innerDev t)) /\
      exists l, ln t = Some l /\ l ∉ listening w /\ listening w' = listening w ∪ {[l]}
  end.

Lemma finishTunnel_spec P cfg t w :
  tunnel_ok P t w -> tunnel_up t w -> ln t = None -> tcfg t = cfg ->
  opened P cfg w (finishTunnel bindOf cfg t w).1 (finishTunnel bindOf cfg t w).2.
Proof.
  intros Hok Hup Hln Hcfg. unfold finishTunnel. set (o := if cHop cfg then _ else _).
  assert (Ho : tunnelStep P (t, w) o.2 /\ (match o.1 with Ok _ => cHop cfg = true -> is_Some (innerDev o.2.1) | Err _ => True end)).
  { unfold o. destruct (cHop cfg); [|by split]. split; [apply hopLoop_step|]. unfold startHop.
    pose proof (hopLoop_inner cfg (if cHopShield cfg then default noEgress (lookupEgress w (outerNet t)) else noEgress) (hopHosts cfg) None t w (tk_net _ _ _ Hok)) as H.
    cbn [fst snd]. destruct (hopLoop _ _ _ _ _ _) as [[[]|e] [t1 w1]]; [|done]. intros _. apply H. }
  destruct Ho as [Hs Hi]. destruct o as [r [t1 w1]]. destruct (Hs Hok) as (A1 & [A2 A2'] & A3 & (B1 & B2 & B3 & B4 & B5) & A5). cbn [fst snd] in *.
  destruct (closeTunnel_spec P t1 w1 (tk_tidy _ _ _ A1)) as (C1 & C2 & C3 & C4). rewrite B4, Hln in C3.
  assert (Hcl : opened P cfg w (Err EHop) (closeTunnel bindOf t1 w1)).
  { split; [congruence|]. split; [transitivity w1; [done|by apply C4]|]. split; [done|congruence]. }
  destruct r as [[]|e]; [|exact Hcl]. destruct (negb _); [exact Hcl|]. cbn [fst snd].
  split; [done|]. split; [done|]. destruct A1 as [T1 T2 T3 T4 T5]. destruct (A5 Hup) as [U1 U2].
  split; [by split|]. split; [by split|]. split; [cbn; congruence|]. split; [done|].
  exists (base.fresh (listening w1)). split; [done|]. rewrite <- A2. split; [apply is_fresh|done].
Qed.

Lemma openTunnel_spec P cfg w :
  tidy P w -> (forall j, P j -> is_Some (devs w !! j)) -> opened P cfg w (openTunnel bindOf cfg w).1 (openTunnel bindOf cfg w).2.
Proof.
  intros HT HP. unfold openTunnel. destruct (uapi cfg (wdrawn w)) as [[conf|e] pos]; [|by repeat split].
  destruct (parseAddr _) as [local|]; [|by repeat split]. destruct (negb _); [by repeat split|].
  set (w0 := w <| wdrawn := pos |>). assert (Ew : tunnels w0 = tunnels w) by done.
  pose proof (newDev_spec P false 1280 w0 HT) as Hnew. destruct (newDev false 1280 w0) as [id w1].
  destruct Hnew as (N1 & N2 & [N3 N3'] & (d & N4 & N4') & N5).
  assert (HPi : ~ P id) by (intros Hp; apply HP in Hp as [x Hx]; change (devs w0 !! id) with (devs w !! id) in N1; congruence).
  pose proof (configureDev_spec P id conf w1 false d N4 N4' N2 HPi) as Hc. destruct (configureDev bindOf id conf w1) as [r w2].
  destruct Hc as ([C1 C1'] & C2 & C3).
  assert (Hoth : othersKept P w w2).
  { intros j Hj. rewrite C2 by (by intros ->). rewrite N5 by (by intros ->). done. }
  destruct r as [[]|e].
  - destruct C3 as [C3 C4].
    assert (HP2 : forall j, P j -> is_Some (devs w2 !! j)) by (intros j Hj; rewrite Hoth by done; by apply HP).
    destruct (newTunnel_ok P id local cfg w2 C3 HP2 HPi C4) as [K1 K2].
    destruct (finishTunnel_spec P cfg (newTunnel id local cfg) w2 K1 K2 eq_refl eq_refl) as (F1 & F2 & F3).
    split; [rewrite F1; cbn in *; congruence|]. split; [by transitivity w2|].
    assert (Hl : listening w2 = listening w) by (cbn in *; congruence). by rewrite Hl in F3.
  - split; [cbn in *; congruence|]. split; [done|]. split; [done|]. cbn in *; congruence.
Qed.
(** ** The process *)

Inductive engineStep : World -> World -> Prop :=
  | stepStart w c : engineStep w (AwgStart bindOf c w).2
  | stepStop w : engineStep w (AwgStop bindOf w)
  | stepSetHop w ep : engineStep w (AwgSetHopInner bindOf ep w).2
  | stepPing w identity ep : engineStep w (pingOpen bindOf identity ep w).2
  | stepPingEnd w n : engineStep w (pingClose bindOf n w)
  | stepTakeAds w : engineStep w (AwgAdBlockTake w).2
  | stepAdBlocked w : engineStep w (w <| adBlockPending ::= Z.succ |>)
  | stepClock w t : engineStep w (w <| clock := t |>)
  (* the workers, the timers and the events of a device *)
  | stepDevice w id k d d' : devs w !! id = Some (k, d) -> devStep (B := bindOf k) d d' ->
      engineStep w (w <| devs ::= <[id := (k, d')]> |>).

Definition emptyWorld (t0 : Z) : World := mkWorld ∅ ∅ None ∅ 0 t0 0.

Inductive engineReachable (t0 : Z) : World -> Prop :=
  | engineInit : engineReachable t0 (emptyWorld t0)
  | engineNext w w' : engineReachable t0 w -> engineStep w w' -> engineReachable t0 w'.

(** The tunnels under one name: the live one, and those of the probes. *)
Definition tunnelAt (w : World) (k : option nat) : option awgTunnel :=
  match k with None => live w | Some n => probes w !! n end.
Definition putTunnel (k : option nat) (o : option awgTunnel) (w : World) : World :=
  match k with None => w <| live := o |> | Some n => w <| probes ::= partial_alter (fun _ => o) n |> end.

Lemma tunnelAt_put k o w k' : tunnelAt (putTunnel k o w) k' = if decide (k' = k) then o else tunnelAt w k'.
Proof.
  destruct k as [n|], k' as [n'|]; cbn; try done. case_decide as Ev.
  - injection Ev as ->. apply lookup_partial_alter_eq.
  - apply lookup_partial_alter_ne. congruence.
Qed.

Lemma tunnelAt_same w w' k : tunnels w' = tunnels w -> tunnelAt w' k = tunnelAt w k.
Proof. unfold tunnels. intros [= H1 H2]. destruct k; cbn; congruence. Qed.

(** The devices of all tunnels, and of all but the one at [k]. *)
Definition owned (w : World) (j : nat) : Prop := exists k t, tunnelAt w k = Some t /\ ownedBy t j.
Definition othersOf (w : World) (k : option nat) (j : nat) : Prop :=
  exists k' t, k' <> k /\ tunnelAt w k' = Some t /\ ownedBy t j.

(** A tunnel and the devices it names. *)
Definition tunnel_wf (t : awgTunnel) (w : World) : Prop :=
  (exists o, outerDev t = Some o /\ outerNet t = Some o /\ is_Some (devs w !! o) /\ innerDev t <> Some o) /\
  innerNet t = innerDev t /\ forall i, innerDev t = Some i -> is_Some (devs w !! i).

Record engine_ok (w : World) : Prop := {
  eo_tidy : tidy (owned w) w;
  eo_wf k t : tunnelAt w k = Some t -> tunnel_wf t w;
  eo_disjoint k k' t t' j : tunnelAt w k = Some t -> tunnelAt w k' = Some t' -> ownedBy t j -> ownedBy t' j -> k = k';
  eo_ln k t : tunnelAt w k = Some t -> is_Some (ln t);
  eo_lnInj k k' t t' : tunnelAt w k = Some t -> tunnelAt w k' = Some t' -> ln t = ln t' -> k = k';
  eo_listening l : l ∈ listening w <-> exists k t, tunnelAt w k = Some t /\ ln t = Some l
}.

Lemma tunnel_wf_owned t w j : tunnel_wf t w -> ownedBy t j -> is_Some (devs w !! j).
Proof. intros ((o & Eo & _ & Ed & _) & _ & H) [Hj|Hj]; [congruence|by apply H]. Qed.

Lemma tunnel_wf_kept t w w' : (forall j, ownedBy t j -> devs w' !! j = devs w !! j) -> tunnel_wf t w -> tunnel_wf t w'.
Proof.
  intros Hk ((o & Eo & En & Ed & Ei) & Hn & H). split; [|split; [done|]].
  - exists o. rewrite Hk by (by left). done.
  - intros i Hi. rewrite Hk by (by right). by apply H.
Qed.

Lemma tunnel_ok_wf P t w : tunnel_ok P t w -> tunnel_wf t w /\ forall j, ownedBy t j -> ~ P j.
Proof.
  intros [H1 H2 (o & Eo & En & Ed & Ei & HP) H4 H5]. split.
  - split; [by exists o|]. split; [done|]. intros i Hi. by apply H5.
  - intros j [Hj|Hj]; [congruence|]. by apply H5.
Qed.

Lemma engine_tunnel_ok w k t : engine_ok w -> tunnelAt w k = Some t -> tunnel_ok (othersOf w k) t w.
Proof.
  intros [H1 H2 H3 _ _ _] Ev. destruct (H2 k t Ev) as ((o & Eo & En & Ed & Ei) & Hn & Hi).
  assert (Hd : forall j, ownedBy t j -> ~ othersOf w k j).
  { intros j Hj (k' & t' & Hne & Ev' & Hj'). by destruct (H3 k k' t t' j Ev Ev' Hj Hj'). }
  split; [| | |done|].
  - eapply tidy_weaken; [|exact H1]. intros j (k' & t' & Ev' & Hj).
    destruct (decide (k' = k)) as [->|]; [right; congruence|left; by exists k', t'].
  - intros j (k' & t' & _ & Ev' & Hj). by apply (tunnel_wf_owned t'); [apply (H2 k')|].
  - exists o. repeat split; try done. apply Hd. by left.
  - intros i Hi'. split; [by apply Hi|]. apply Hd. by right.
Qed.

Lemma engine_ok_ext w w' :
  devs w' = devs w -> listening w' = listening w -> (forall k, tunnelAt w' k = tunnelAt w k) -> engine_ok w -> engine_ok w'.
Proof.
  intros Hd Hl Hv [H1 H2 H3 H4 H5 H6]. split.
  - intros id k d. rewrite Hd. intros Ev. destruct (H1 id k d Ev) as [?|(k' & t & ? & ?)]; [by left|right].
    exists k', t. by rewrite Hv.
  - intros k t. rewrite Hv. intros Ev. apply (tunnel_wf_kept t w); [by rewrite Hd|by apply (H2 k)].
  - intros k k' t t' j. rewrite !Hv. apply H3.
  - intros k t. rewrite Hv. apply H4.
  - intros k k' t t'. rewrite !Hv. apply H5.
  - intros l. rewrite Hl. setoid_rewrite Hv. apply H6.
Qed.

(** The tunnel at [k] becomes [o] while the devices of all others are kept. *)
Lemma engine_ok_change w w' k o :
  engine_ok w -> tunnels w' = tunnels w -> othersKept (othersOf w k) w w' ->
  (forall l, l ∈ listening w' <-> (exists k' t', k' <> k /\ tunnelAt w k' = Some t' /\ ln t' = Some l) \/ exists t, o = Some t /\ ln t = Some l) ->
  match o with
  | None => tidy (othersOf w k) w'
  | Some t => tunnel_ok (othersOf w k) t w' /\ exists l, ln t = Some l /\
      forall k' t', k' <> k -> tunnelAt w k' = Some t' -> ln t' <> Some l
  end -> engine_ok (putTunnel k o w').
Proof.
  intros [H1 H2 H3 H4 H5 H6] Ht Hk Hl Ho. set (w'' := putTunnel k o w').
  assert (Hat : forall k', tunnelAt w'' k' = if decide (k' = k) then o else tunnelAt w k').
  { intros k'. unfold w''. rewrite tunnelAt_put. by rewrite (tunnelAt_same w w'). }
  assert (Hd : devs w'' = devs w') by (unfold w''; by destruct k).
  assert (Hli : listening w'' = listening w') by (unfold w''; by destruct k).
  assert (Hmine : forall t, o = Some t -> tunnel_wf t w' /\ forall j, ownedBy t j -> ~ othersOf w k j).
  { intros t ->. apply (tunnel_ok_wf _ _ _ (proj1 Ho)). }
  assert (Hln : forall t, o = Some t -> exists l, ln t = Some l /\ forall k' t', k' <> k -> tunnelAt w k' = Some t' -> ln t' <> Some l).
  { intros t ->. apply Ho. }
  clearbody w''. split.
  - assert (HT : tidy (fun j => othersOf w k j \/ exists t, o = Some t /\ ownedBy t j) w').
    { destruct o as [t|].
      - eapply tidy_weaken; [|apply (tk_tidy _ _ _ (proj1 Ho))]. intros j [?|?]; [by left|right; by exists t].
      - eapply tidy_weaken; [|exact Ho]. intros j ?. by left. }
    intros id kd d. rewrite Hd. intros Ev. destruct (HT id kd d Ev) as [?|[(k' & t & Hne & Ev' & Hj)|(t & -> & Hj)]]; [by left|right..].
    + exists k', t. by rewrite Hat, decide_False.
    + exists k, t. by rewrite Hat, decide_True.
  - intros k' t. rewrite Hat. case_decide as Hc; intros Ev.
    + apply (tunnel_wf_kept t w'); [by rewrite Hd|by apply Hmine].
    + apply (tunnel_wf_kept t w); [|by apply (H2 k')]. intros j Hj. rewrite Hd. apply Hk. by exists k', t.
  - assert (Hx : forall k' t t' j, k' <> k -> o = Some t -> tunnelAt w k' = Some t' -> ownedBy t j -> ownedBy t' j -> False).
    { intros k' t t' j Hne Ev Ev' Hj Hj'. destruct (Hmine t Ev) as [_ Hn]. apply (Hn j Hj). by exists k', t'. }
    intros k1 k2 t1 t2 j. rewrite !Hat. repeat case_decide; subst; [done|..]; intros E1 E2 J1 J2.
    + by destruct (Hx k2 t1 t2 j).
    + by destruct (Hx k1 t2 t1 j).
    + by apply (H3 k1 k2 t1 t2 j).
  - intros k' t. rewrite Hat. case_decide; intros Ev; [destruct (Hln t Ev) as (l & -> & _); by eexists|by apply (H4 k')].
  - assert (Hx : forall k' t t', k' <> k -> o = Some t -> tunnelAt w k' = Some t' -> ln t = ln t' -> False).
    { intros k' t t' Hne Ev Ev' El. destruct (Hln t Ev) as (l & Hl1 & Hn). apply (Hn k' t' Hne Ev'). congruence. }
    intros k1 k2 t1 t2. rewrite !Hat. repeat case_decide; subst; [done|..]; intros E1 E2 El.
    + by destruct (Hx k2 t1 t2).
    + by destruct (Hx k1 t2 t1).
    + by apply (H5 k1 k2 t1 t2).
  - intros l. rewrite Hli, Hl. split.
    + intros [(k' & t' & Hne & Ev & Hl')|(t & -> & Hl')]; [exists k', t'; by rewrite Hat, decide_False|exists k, t; by rewrite Hat, decide_True].
    + intros (k' & t' & Ev & Hl'). rewrite Hat in Ev. case_decide; [right; by exists t'|left; by exists k', t'].
Qed.

(** A tunnel is closed. *)
Lemma engine_close w k t : engine_ok w -> tunnelAt w k = Some t -> engine_ok (putTunnel k None (closeTunnel bindOf t w)).
Proof.
  intros H Ev. pose proof (engine_tunnel_ok w k t H Ev) as Hok.
  destruct (closeTunnel_spec (othersOf w k) t w (tk_tidy _ _ _ Hok)) as (C1 & C2 & C3 & C4).
  apply (engine_ok_change w); [done|done|by apply C4| |done].
  destruct (eo_ln _ H k t Ev) as [l El]. rewrite El in C3. intros l'. rewrite C3, elem_of_difference, elem_of_singleton, (eo_listening _ H).
  split.
  - intros [(k' & t' & Ev' & Hl') Hne]. left. exists k', t'. split; [intros ->; congruence|done].
  - intros [(k' & t' & Hne & Ev' & Hl')|(? & ? & _)]; [|done]. split; [by exists k', t'|]. intros ->.
    apply Hne. apply (eo_lnInj _ H k' k t' t Ev' Ev). congruence.
Qed.

(** A tunnel is opened where none was. *)
Lemma engine_open w k cfg r w' :
  engine_ok w -> tunnelAt w k = None -> opened (owned w) cfg w r w' ->
  match r with Ok t => engine_ok (putTunnel k (Some t) w') | Err _ => engine_ok w' end.
Proof.
  intros H Ev (O1 & O2 & O3).
  assert (Ho : forall j, othersOf w k j <-> owned w j).
  { intros j. split; [intros (k' & t & _ & ? & ?); by exists k', t|]. intros (k' & t & Ev' & ?).
    exists k', t. split; [intros ->; congruence|done]. }
  assert (Hls : forall l, l ∈ listening w <-> exists k' t', k' <> k /\ tunnelAt w k' = Some t' /\ ln t' = Some l).
  { intros l. rewrite (eo_listening _ H). split; [intros (k' & t & Ev' & ?); exists k', t; split; [intros ->; congruence|done]|].
    intros (k' & t & _ & ? & ?). by exists k', t. }
  assert (Hk : othersKept (othersOf w k) w w') by (intros j Hj; by apply O2, Ho).
  destruct r as [t|e].
  - destruct O3 as (K & _ & _ & _ & l & El & Hnl & Hs). apply (engine_ok_change w); [done|done|done| |split].
    + intros l'. rewrite Hs, elem_of_union, elem_of_singleton, Hls. split; [intros [?| ->]; [by left|right; by exists t]|].
      intros [?|(t' & [= <-] & ?)]; [by left|right; congruence].
    + destruct K as [A1 A2 (o & B1 & B2 & B3 & B4 & B5) A4 A5]. split; [| | |done|].
      * eapply tidy_weaken; [|exact A1]. intros j [?|?]; [left; by apply Ho|by right].
      * intros j Hj. by apply A2, Ho.
      * exists o. repeat split; try done. by rewrite Ho.
      * intros i Hi. rewrite Ho. by apply A5.
    + exists l. split; [done|]. intros k' t' Hne Ev' El'. apply Hnl, Hls. by exists k', t'.
  - destruct O3 as [K Hs]. apply (engine_ok_ext (putTunnel k None w')); [by destruct k|by destruct k| |].
    + intros k'. rewrite tunnelAt_put. case_decide as Hc; [|done]. subst. by rewrite (tunnelAt_same w w').
    + apply (engine_ok_change w); [done|done|done| |].
      * intros l. rewrite Hs, Hls. split; [by left|]. intros [?|(? & ? & _)]; done.
      * eapply tidy_weaken; [|exact K]. intros j ?. by apply Ho.
Qed.

Lemma engine_openTunnel w k cfg :
  engine_ok w -> tunnelAt w k = None ->
  let '(r, w') := openTunnel bindOf cfg w in
  opened (owned w) cfg w r w' /\ match r with Ok t => engine_ok (putTunnel k (Some t) w') | Err _ => engine_ok w' end.
Proof.
  intros H Ev. pose proof (openTunnel_spec (owned w) cfg w (eo_tidy _ H)) as Hop.
  destruct (openTunnel bindOf cfg w) as [r w']. cbn [fst snd] in Hop.
  assert (Hd : opened (owned w) cfg w r w').
  { apply Hop. intros j (k' & t & Ev' & Hj). by apply (tunnel_wf_owned t); [apply (eo_wf _ H k')|]. }
  split; [done|]. by apply (engine_open w k cfg).
Qed.

(** An operation on a tunnel. *)
Lemma engine_step_tunnel w k t t' w' :
  engine_ok w -> tunnelAt w k = Some t -> tunnelStep (othersOf w k) (t, w) (t', w') -> engine_ok (putTunnel k (Some t') w').
Proof.
  intros H Ev Hs. destruct (Hs (engine_tunnel_ok w k t H Ev)) as (A1 & [A2 A2'] & A3 & (_ & _ & _ & B4 & _) & _). cbn [fst snd] in *.
  destruct (eo_ln _ H k t Ev) as [l El].
  apply (engine_ok_change w); [done|done|done| |split; [done|]].
  - intros l'. rewrite A2, (eo_listening _ H). split.
    + intros (k' & t1 & E1 & Hl). destruct (decide (k' = k)) as [->|]; [|left; by exists k', t1].
      right. exists t'. split; [done|congruence].
    + intros [(k' & t1 & _ & E1 & Hl)|(? & [= <-] & Hl)]; [by exists k', t1|]. exists k, t. split; [done|congruence].
  - exists l. split; [congruence|]. intros k' t1 Hne E1 Hl. apply Hne. apply (eo_lnInj _ H k' k t1 t E1 Ev). congruence.
Qed.

Lemma dropLive_ok w : engine_ok w ->
  engine_ok (dropLive bindOf w) /\ live (dropLive bindOf w) = None /\ probes (dropLive bindOf w) = probes w.
Proof.
  intros H. unfold dropLive. destruct (live w) as [t|] eqn:El; [|done].
  split; [exact (engine_close w None t H El)|]. split; [done|].
  destruct (closeTunnel_spec (othersOf w None) t w (tk_tidy _ _ _ (engine_tunnel_ok w None t H El))) as (_ & Ct & _).
  injection Ct. cbn. done.
Qed.

Lemma startLive_spec cfg w :
  engine_ok w ->
  let '(r, w') := startLive bindOf cfg w in
  engine_ok w' /\
  match r with
  | Err _ => live w' = None
  | Ok _ => exists t, live w' = Some t /\ tunnel_up t w' /\ tcfg t = cfg /\ (cHop cfg = true -> is_Some (innerDev t))
  end.
Proof.
  intros H. destruct (dropLive_ok w H) as (D1 & D2 & _). unfold startLive.
  pose proof (engine_openTunnel (dropLive bindOf w) None cfg D1 D2) as Hop.
  destruct (openTunnel bindOf cfg _) as [[t|e] w']; destruct Hop as [(O1 & _ & O3) Hok]; (split; [exact Hok|]).
  - destruct O3 as (_ & U & Ec & Hi & _). exists t. split; [done|]. split; [exact U|]. by split.
  - injection O1 as O1 _. congruence.
Qed.

Lemma setHopInner_step P ep t w : tunnelStep P (t, w) (setHopInner bindOf ep (t, w)).2.
Proof.
  unfold setHopInner. destruct (negb _); [done|]. case_bool_decide; [done|apply replaceInner_step].
Qed.

Lemma engine_step_ok w w' : engine_ok w -> engineStep w w' -> engine_ok w'.
Proof.
  intros H Hs. destruct Hs as [w c|w|w ep|w identity ep|w n|w|w|w t|w id k d d' Hd Hstep].
  - unfold AwgStart. destruct (checkConfig c) as [cfg|e]; [|done].
    pose proof (startLive_spec cfg w H) as Hst. destruct (startLive bindOf cfg w). apply Hst.
  - apply (dropLive_ok w H).
  - unfold AwgSetHopInner, setLiveHopInner. destruct (live w) as [t|] eqn:El; [|done].
    pose proof (setHopInner_step (othersOf w None) ep t w) as Hst.
    destruct (setHopInner bindOf ep (t, w)) as [r [t' w']]. exact (engine_step_tunnel w None t t' w' H El Hst).
  - unfold pingOpen. case_bool_decide; [done|]. set (cfg := cloneForPing identity ep).
    set (n := base.fresh (dom (probes w))).
    assert (Hn : tunnelAt w (Some n) = None) by apply not_elem_of_dom, is_fresh.
    pose proof (engine_openTunnel w (Some n) cfg H Hn) as Hop.
    destruct (openTunnel bindOf cfg w) as [[t|e] w1]; destruct Hop as [(O1 & _) Hok]; [|done].
    injection O1 as _ Op. cbn [snd]. rewrite Op. fold n. exact Hok.
  - unfold pingClose. destruct (probes w !! n) as [t|] eqn:En; [|done]. exact (engine_close w (Some n) t H En).
  - by apply (engine_ok_ext w); [..|intros []|].
  - by apply (engine_ok_ext w); [..|intros []|].
  - by apply (engine_ok_ext w); [..|intros []|].
  - destruct H as [H1 H2 H3 H4 H5 H6]. set (w' := w <| devs ::= _ |>).
    assert (Hv : forall k, tunnelAt w' k = tunnelAt w k) by (by intros []).
    assert (Hsome : forall j, is_Some (devs w !! j) -> is_Some (devs w' !! j)).
    { intros j Hj. cbn. rewrite lookup_insert. by case_decide. }
    split.
    + intros j k' dj. cbn. rewrite lookup_insert. case_decide as Hj.
      * subst. intros [= <- <-]. destruct (H1 _ k d Hd) as [Hc|(k2 & t & Ev & Ho)]; [left; by apply (step_closed (B := bindOf k) d)|].
        right. exists k2, t. by rewrite Hv.
      * intros Ed. destruct (H1 j k' dj Ed) as [?|(k2 & t & Ev & Ho)]; [by left|right]. exists k2, t. by rewrite Hv.
    + intros k2 t. rewrite Hv. intros Ev. destruct (H2 k2 t Ev) as ((o & Eo & En & Ed & Ei) & Hn & Hi). split; [exists o|split; [done|]]; auto.
    + intros k1 k2 t1 t2 j. rewrite !Hv. apply H3.
    + intros k1 t. rewrite Hv. apply H4.
    + intros k1 k2 t1 t2. rewrite !Hv. apply H5.
    + intros l. setoid_rewrite Hv. apply H6.
Qed.

Lemma reachable_engine_ok t0 w : engineReachable t0 w -> engine_ok w.
Proof.
  induction 1 as [|w w' _ IH Hs]; [|by eapply engine_step_ok].
  assert (Hv : forall k, tunnelAt (emptyWorld t0) k = None) by (intros []; [apply lookup_empty|done]).
  split; try (intros; rewrite Hv in *; done).
  - intros id k d Hd. cbn in Hd. by rewrite lookup_empty in Hd.
  - intros l. setoid_rewrite Hv. split; [cbn; set_solver|by intros (? & ? & ? & _)].
Qed.

(** C5: the process keeps hold of what it opens.  In every state the process
    reaches, however starts, stops, replacements of the inner hop, probes of pings
    (which run side by side with everything else) and the devices' own steps
    follow each other and whichever of them fail: every device that is not closed
    is the outer or the inner device of exactly one tunnel, the live one or that of
    a probe between its start and its end, and every open listener is the one of
    such a tunnel.  So after [AwgStop] only probes that still run have open devices
    or listeners; when none runs, everything is closed. *)
Theorem no_device_leaks t0 w :
  engineReachable t0 w ->
  (forall id k d, devs w !! id = Some (k, d) -> isClosed d = true \/ exists n t, tunnelAt w n = Some t /\ ownedBy t id) /\
  (forall n n' t t' id, tunnelAt w n = Some t -> tunnelAt w n' = Some t' -> ownedBy t id -> ownedBy t' id -> n = n') /\
  (forall l, l ∈ listening w <-> exists n t, tunnelAt w n = Some t /\ ln t = Some l) /\
  let w' := AwgStop bindOf w in
  live w' = None /\ probes w' = probes w /\
  (forall id k d, devs w' !! id = Some (k, d) -> isClosed d = true \/ exists n t, probes w !! n = Some t /\ ownedBy t id) /\
  (probes w = ∅ -> listening w' = ∅).
Proof.
  intros Hr. pose proof (reachable_engine_ok t0 w Hr) as H.
  destruct (dropLive_ok w H) as (D1 & D2 & D3). split; [apply (eo_tidy _ H)|]. split; [intros n n' t t' id; apply (eo_disjoint _ H)|].
  split; [apply (eo_listening _ H)|]. cbv zeta. split; [exact D2|]. split; [exact D3|]. split.
  - intros id k d Hd. destruct (eo_tidy _ D1 id k d Hd) as [?|([n|] & t & Ev & Ho)]; [by left| |cbn in Ev; congruence].
    right. exists n, t. cbn in Ev. rewrite D3 in Ev. done.
  - intros Hp. apply elem_of_equiv_empty_L. intros l (n & t & Ev & _)%(eo_listening _ D1).
    destruct n as [n|]; cbn in Ev; [rewrite D3, Hp, lookup_empty in Ev; done|congruence].
Qed.


(** C33: a replacement of the inner hop that fails leaves the tunnel without an
    inner hop.  Once [AwgSetHopInner] got past its checks, an error (an address
    that does not parse, a network stack, a configuration or a socket that
    fails) comes after the old inner device was closed: the live tunnel still is
    one with a hop by its configuration, but the SOCKS server from then on dials
    through the outer device alone. *)
Theorem failed_replacement_drops_hop t0 w ep e w' :
  engineReachable t0 w -> AwgSetHopInner bindOf ep w = (Err e, w') ->
  (e = ENotRunning /\ live w = None \/ e = ENotHop \/ e = EBadEndpoint) /\ w' = w \/
  exists t t', live w = Some t /\ live w' = Some t' /\ cHop (tcfg t') = true /\ sameOuterParts t t' /\
    innerDev t' = None /\ socksTarget t' = (outerNet t, outerLocal t).
Proof.
  intros Hr Hs. pose proof (reachable_engine_ok t0 w Hr) as H. unfold AwgSetHopInner, setLiveHopInner in Hs.
  destruct (live w) as [t|] eqn:El; [|injection Hs as <- <-; left; split; [by left|done]].
  pose proof (engine_tunnel_ok w None t H El) as Hok.
  assert (Hw : w <| live := Some t |> = w) by (destruct w; cbn in *; by rewrite El).
  unfold setHopInner in Hs. destruct (cHop (tcfg t)) eqn:Eh; cbn [negb] in Hs.
  2: { injection Hs as <- <-. left. split; [right; by left|exact Hw]. }
  case_bool_decide as Eb; [injection Hs as <- <-; left; split; [right; by right|exact Hw]|]. right.
  pose proof (replaceInner_step (othersOf w None) (tcfg t) (normalizeEndpoint ep) t w Hok) as (_ & _ & _ & B & _).
  pose proof (replaceInner_inner (tcfg t) (normalizeEndpoint ep) t w (tk_net _ _ _ Hok)) as Hi.
  destruct (replaceInner _ _ _ _) as [r [t' w1]]. cbn [fst snd] in *. injection Hs as -> <-. destruct Hi as [Hi Hn].
  exists t, t'. destruct B as (B1 & B2 & B3 & B4 & B5). split; [done|]. split; [done|]. split; [congruence|]. split; [done|]. split; [done|].
  unfold socksTarget. rewrite Hn. congruence.
Qed.
End Owners.
