(* ===== verification/Sample.v ===== *)
(** * A run of two devices

    Two devices are configured, brought up, and exchange a handshake and a packet,
    with the toy primitives and a fixed source of randomness.  The witnesses of
    the theorems about reachable states use the states of this run. *)

From stdpp Require Import base numbers list gmap strings.
From Stdlib Require Import ZArith Lia.
From S2P Require Import Prelude GoStrings NoiseTypes Crypto Replay RateLimiter Tai64n AllowedIPs NetIP Obf DeviceTypes Messages Noise NoiseRun NoiseInv NoiseKeys Timers Cookie Packet PacketThm Send SendThm Receive Lifecycle Stable TimersThm KeysInv NonceInv Uapi UapiThm Events NoiseThm StampInv StateInv.

Import Toy.

(** Bytes that are never zero, so that no index is. *)
#[export] Instance sampleEntropy : Entropy := fun i => Z.of_nat i * 37 mod 255 + 1.

(** A socket on which everything works; an endpoint is its text. *)
#[export] Instance sampleBind : Bind := {|
  sendResult _ _ _ := true;
  openResult _ p := Some (if p =? 0 then 51820 else p);
  closeResult _ := true;
  setMarkResult _ _ := true;
  parseEndpoint _ s := Some (mkEndpoint 0 s s)
|}.

Definition skA : list Z := clamp (replicate 32 11).
Definition skB : list Z := clamp (replicate 32 23).

Definition line (k : string) (v : list Z) : list Z := str k ++ [61] ++ v ++ [10].
Definition confOf (sk peer : list Z) (net : string) : list Z :=
  line "private_key" (hexEncode sk) ++ line "jc" (str "2") ++ line "jmin" (str "4") ++ line "jmax" (str "9") ++
  line "s1" (str "15") ++ line "s2" (str "15") ++ line "s3" (str "15") ++ line "s4" (str "15") ++
  line "h1" (str "100-200") ++ line "h4" (str "300-900") ++ line "header_protection_key" (hexEncode (replicate 32 77)) ++
  line "public_key" (hexEncode (publicKey peer)) ++ line "endpoint" (str "198.51.100.7:51820") ++
  line "allowed_ip" (str net).

Definition start : Z := 1700000000 * Second.
Definition newA : Device := NewDevice (Some 1420) start.
Definition newB : Device := NewDevice (Some 1420) start <| drawn := 1000%nat |>.

Definition setA : Device := (IpcSet (confOf skA skB "10.0.0.0/8") newA).2.
Definition upA : Device := (Up setA).2.
Definition setB : Device := (IpcSet (confOf skB skA "0.0.0.0/0") newB).2.
Definition upB : Device := (Up setB).2.

(** A packet for 10.0.0.9 makes A start a handshake. *)
Definition packetA : list Z := [0x45; 0; 0; 24; 0; 0; 0; 0; 64; 17; 0; 0; 192; 0; 2; 1; 10; 0; 0; 9; 1; 2; 3; 4].
Definition tunA : Device := foldl sendGroup upA (tunGroups upA [packetA]).

Definition lastOf {A} (l : list A) : option A := head (reverse l).
Definition lastSent (d : Device) : list Z := default [] (lastOf (default [] (snd <$> lastOf (sent d)))).
Definition from (d : Device) : Endpoint := mkEndpoint 1 (str "a") (str "a").

Definition receiveD (d : Device) (batch : list (list Z * Endpoint)) : Device :=
  let '(groups, d1) := foldl receiveOne ([], d) batch in foldl deliverGroup d1 groups.

Definition stepO (f : Device -> option Device) (d : Device) : Device := default d (f d).

Definition handshakeRun (d : Device) : Device :=
  stepO (continueHandshake 0) (stepO (continueHandshake 0) (stepO RoutineHandshake d)).
Definition handledB : Device := handshakeRun (receiveD upB [(lastSent tunA, from upA)]).
Definition rxA : Device := receiveD tunA [(lastSent handledB, from upB)].
Definition handledA : Device := handshakeRun rxA.
Definition sealedA : Device := stepO encryptionStep handledA.

Definition senderOf (p : nat) (d : Device) : option Device :=
  match RoutineSequentialSender p d with Stepped d' => Some d' | _ => None end.
Definition receiverOf (p : nat) (d : Device) : option Device :=
  match RoutineSequentialReceiver p d with Stepped d' => Some d' | _ => None end.
Definition sentA : Device := stepO (senderOf 0) sealedA.
Definition rxB : Device := stepO decryptionStep (receiveD handledB [(lastSent sentA, from upA)]).
Definition doneB : Device := stepO (receiverOf 0) rxB.

(** ** The states of A are reachable *)

Lemma stepO_some f d : is_Some (f d) -> f d = Some (stepO f d).
Proof. unfold stepO. by intros [d' ->]. Qed.

Lemma isSome_true {A} (o : option A) : match o with Some _ => true | None => false end = true -> is_Some o.
Proof. destruct o; [eauto|done]. Qed.

Lemma receiveBatch_D d batch : receiveBatch d batch (receiveD d batch).
Proof. unfold receiveBatch, receiveD. destruct (foldl receiveOne ([], d) batch) as [groups d1]. by exists groups. Qed.

Lemma readFromTUN_D d packets : readFromTUN d packets (foldl sendGroup d (tunGroups d packets)).
Proof. by exists (tunGroups d packets). Qed.

Lemma reach_upA : reachable newA upA.
Proof.
  unfold upA. apply reachStep with setA; [|apply stepUp]. unfold setA. apply reachStep with newA; [apply reachHere|apply stepIpcSet].
Qed.

Lemma reach_tunA : reachable newA tunA.
Proof. unfold tunA. apply reachStep with upA; [apply reach_upA|]. apply stepTUN with [packetA], readFromTUN_D. Qed.

Lemma reach_rxA : reachable newA rxA.
Proof. unfold rxA. apply reachStep with tunA; [apply reach_tunA|]. eapply stepReceive, receiveBatch_D. Qed.

(** A worker takes the first message of the queue through its three sections. *)
Lemma reach_handshakeRun d0 d :
  reachable d0 d -> is_Some (RoutineHandshake d) ->
  is_Some (continueHandshake 0 (stepO RoutineHandshake d)) ->
  is_Some (continueHandshake 0 (stepO (continueHandshake 0) (stepO RoutineHandshake d))) ->
  reachable d0 (handshakeRun d).
Proof.
  intros Hr H1 H2 H3. unfold handshakeRun. eapply reachStep; [eapply reachStep; [eapply reachStep; [exact Hr|]|]|].
  - by apply stepHandshake, stepO_some.
  - by apply stepContinue with 0%nat, stepO_some.
  - by apply stepContinue with 0%nat, stepO_some.
Qed.

Lemma reach_handledA : reachable newA handledA.
Proof. apply reach_handshakeRun; [apply reach_rxA|apply isSome_true; vm_compute; reflexivity..]. Qed.

Lemma reach_sealedA : reachable newA sealedA.
Proof.
  apply reachStep with handledA; [|apply stepEncrypt, stepO_some, isSome_true; vm_compute; reflexivity].
  apply reach_handledA.
Qed.

Lemma index_table_consistent_witness : keys_ok handledA /\ keys_ok sealedA /\ keypairs (peerOf sealedA 0) = mkKeypairs (Some 0%nat) None None.
Proof.
  split; [|split].
  - apply (index_table_consistent (Some 1420) start); [apply reach_handledA|vm_compute; reflexivity].
  - apply (index_table_consistent (Some 1420) start); [apply reach_sealedA|vm_compute; reflexivity].
  - vm_compute. reflexivity.
Defined.

Lemma nonces_used_once_witness : NoDup (sealedLog sealedA) /\ sealedLog sealedA = [(0%nat, 0)].
Proof.
  split; [|vm_compute; reflexivity]. apply (nonces_used_once (Some 1420) start), reach_sealedA.
Defined.

Lemma settings_consistent_witness : config_ok sealedA /\ tInit (headers sealedA) = rangeFromUint32 100 200.
Proof.
  split; [|vm_compute; reflexivity]. apply (settings_consistent (Some 1420) start), reach_sealedA.
Defined.

(** The packet A read from its TUN device is what B writes to its own. *)
Example packet_crosses : tunWritten doneB = [packetA] /\ spinning doneB = false.
Proof. vm_compute. split; reflexivity. Qed.

(** ** The handshake of the two devices *)

Lemma keys_upA : keys_ok upA.
Proof.
  apply (reachable_keys newA); [apply NewDevice_keys|apply reach_upA|vm_compute; reflexivity].
Qed.

Lemma keys_upB : keys_ok upB.
Proof.
  apply (reachable_keys newB); [| |vm_compute; reflexivity].
  { apply (keys_ok_frame newA); [apply sameCore_frame; solve_core|apply NewDevice_keys]. }
  unfold upB. apply reachStep with setB; [|apply stepUp]. unfold setB. apply reachStep with newB; [apply reachHere|apply stepIpcSet].
Qed.

Lemma sample_ready : handshake_ready upA 0 upB 0.
Proof.
  split; try (vm_compute; reflexivity); try (apply isSome_true; vm_compute; reflexivity); try (vm_compute; discriminate).
  - apply keys_upA.
  - apply keys_upB.
Qed.

Lemma handshake_agreement_witness :
  handshake_ready upA 0 upB 0 /\
  exists init resp dI1 dI2 dI3 dR1 dR2 dR3 kI kR,
    CreateMessageInitiation 0 upA = (Ok init, dI1) /\
    ConsumeMessageInitiation (init <| miType := MessageInitiationType |>) upB = (Some 0%nat, dR1) /\
    CreateMessageResponse 0 dR1 = (Ok resp, dR2) /\
    BeginSymmetricSession 0 dR2 = (Ok tt, dR3) /\
    ConsumeMessageResponse (resp <| mrType := MessageResponseType |>) dI1 = (Some 0%nat, dI2) /\
    BeginSymmetricSession 0 dI2 = (Ok tt, dI3) /\
    current (keypairs (peerOf dI3 0)) = Some kI /\ next (keypairs (peerOf dR3 0)) = Some kR /\
    keypairs_fit (keypairOf dI3 kI) (keypairOf dR3 kR) /\
    index_routes dI3 0 kI /\ index_routes dR3 0 kR.
Proof.
  split; [apply sample_ready|]. apply (handshake_agreement upA 0 upB 0), sample_ready.
Defined.

(** ** An initiation received twice *)

Definition queuedB : Device := receiveD upB [(lastSent tunA, from upA)].
Definition initMsg : option MessageInitiation :=
  e ← head (handshakeQ queuedB); m ← unmarshalInitiation (hePacket e); Some (m <| miType := heMsgType e |>).
Definition zeroInitiation : MessageInitiation := mkInitiation 0 0 [] [] [] [] [].
Definition sampleMsg : MessageInitiation := default zeroInitiation initMsg.
(** One of two workers has taken the message ([takenB]); a second later the other one
    meets it. *)
Definition sampleWork : nat * list Z * list Z * list Z := default (0%nat, [], [], []) (checkInitiation sampleMsg queuedB).
Definition takenB : Device :=
  let '(p, ts, hash, ck) := sampleWork in updateInitiation p ts hash ck (miSender sampleMsg) (miEphemeral sampleMsg) queuedB.
Definition laterB : Device := takenB <| now := now takenB + Second |>.

Lemma some_eta {A B} (o : option (nat * A * A * B)) (x : nat * A * A * B) p :
  match o with Some (q, _, _, _) => (q =? p)%nat | None => false end = true ->
  exists a b c, o = Some (p, a, b, c).
Proof. destruct o as [[[[q a] b] c]|]; [|done]. intros ->%Nat.eqb_eq. eauto. Qed.

Lemma initiations_not_replayed_witness :
  is_Some (checkInitiation sampleMsg queuedB) /\ ConsumeMessageInitiation sampleMsg laterB = (None, laterB).
Proof.
  split; [apply isSome_true; vm_compute; reflexivity|].
  destruct (some_eta (openInitiation laterB sampleMsg) (0%nat, [], [], []) 0) as (ts & hash & ck & Ho);
    [vm_compute; reflexivity|].
  assert (Hr : reachable (updateInitiation 0 ts hash ck (miSender sampleMsg) (miEphemeral sampleMsg) queuedB) laterB).
  { assert (E : openInitiation queuedB sampleMsg = Some (0%nat, ts, hash, ck)) by (rewrite <- Ho; vm_compute; reflexivity).
    assert (Ew : sampleWork = default (0%nat, [], [], []) (openInitiation queuedB sampleMsg)) by (vm_compute; reflexivity).
    rewrite E in Ew. unfold laterB, takenB. rewrite Ew. eapply reachStep; [apply reachHere|]. apply stepTime.
    unfold Second. cbn [now update]. lia. }
  destruct (initiations_not_replayed _ _ _ _ _ _ _ _ _ _ _ _ Hr Ho (tai64nAfter_irrefl ts)) as (_ & H & _). exact H.
Defined.

(** Two workers that check one message before either updates both take it: an
    initiation of B that came twice, and a response to A that came twice, from
    which A derives two keypairs with the same keys, and seals a packet with nonce 0
    under each. *)
Definition twiceQ (d : Device) : Device := d <| handshakeQ ::= (fun q => q ++ q) |>.
Definition bothChecked (d : Device) : Device := stepO RoutineHandshake (stepO RoutineHandshake (twiceQ d)).
Definition goOn (i : nat) : Device -> Device := stepO (continueHandshake i).

Example initiation_taken_twice :
  map (fun w => match w with initiationConsumed p _ _ => Some p | _ => None end)
    (consuming (goOn 0 (goOn 0 (bothChecked queuedB)))) = [Some 0%nat; Some 0%nat].
Proof. vm_compute. reflexivity. Qed.

Definition twiceA : Device := goOn 0 (goOn 0 (goOn 1 (goOn 0 (bothChecked rxA)))).

Example response_consumed_twice :
  keypairs (peerOf twiceA 0) = mkKeypairs (Some 1%nat) (Some 0%nat) None /\
  kpSend (keypairOf twiceA 0) = kpSend (keypairOf twiceA 1) /\ kpSend (keypairOf twiceA 0) <> [] /\
  kpLocalIndex (keypairOf twiceA 1) = 0 /\
  sealedLog (stepO encryptionStep (stepO encryptionStep twiceA)) = [(0%nat, 0); (1%nat, 0)].
Proof. vm_compute. split; [done|]. split; [done|]. split; [discriminate|]. done. Qed.

(** ** A device closed while packets are queued, and then brought up *)

Definition closedA : Device := (Up (Close sealedA)).2.

Lemma close_is_final_witness :
  isClosed closedA = true /\ Down closedA = (Ok tt, closedA) /\ SendBuffers 0 [[1]] closedA = (Ok tt, closedA).
Proof.
  assert (Hr : reachable (Close sealedA) closedA).
  { unfold closedA. apply reachStep with (Close sealedA); [apply reachHere|apply stepUp]. }
  destruct (close_is_final sealedA closedA Hr) as (Hc & _ & Hd & _ & _ & Hs). split; [exact Hc|]. split; [exact Hd|apply Hs].
Defined.

(** ** The packet B takes off its queue *)

Lemma receiver_stepped p d :
  match RoutineSequentialReceiver p d with Stepped _ => true | _ => false end = true ->
  RoutineSequentialReceiver p d = Stepped (stepO (receiverOf p) d).
Proof. unfold stepO, receiverOf. by destruct (RoutineSequentialReceiver p d). Qed.

Lemma tun_source_routed_witness :
  exists ws, tunWritten doneB = tunWritten rxB ++ ws /\ ws `sublist_of` [packetA].
Proof.
  assert (E2 : omap (tunPacket rxB 0) (packetsOf (elems (inContainer rxB 0))) = [packetA]) by (vm_compute; reflexivity).
  assert (Ei : inbound (peerOf rxB 0) = [Some 0%nat]) by (vm_compute; reflexivity).
  assert (Er : RoutineSequentialReceiver 0 rxB = Stepped doneB) by (apply receiver_stepped; vm_compute; reflexivity).
  destruct (tun_source_routed 0 rxB 0 [] doneB Ei Er) as (ws & E & _ & Hs & _).
  rewrite E2 in Hs. exists ws. exact (conj E Hs).
Defined.

(** ** A keypair with one nonce left, and two packets to send *)

Definition lastNonceA : Device :=
  StagePackets 0 [NewOutboundElement sealedA <| oePacket := Some packetA |>; NewOutboundElement sealedA <| oePacket := Some packetA |>]
    (modKeypair 0 (fun kp => kp <| sendNonce := RejectAfterMessages - 1 |>) sealedA).


(** ** Nobody answers the initiation of A *)

Definition waitingA : Device := modTimers 0 (fun t => t <| maxHandshakeAttempts := 0 |>) tunA.
Definition overdueA : Device := waitingA <| now := start + 100 * Second |>.
Definition retriedA : Device := stepO (fireRetransmitHandshake 0) overdueA.
Definition overdueA2 : Device := retriedA <| now := start + 200 * Second |>.
Definition resignedA : Device := stepO (fireRetransmitHandshake 0) overdueA2.

Lemma sameTries_now p d t : sameTries p d (d <| now := t |>).
Proof. done. Qed.

Lemma retransmission_ends_witness : attempts 0 retriedA = 1 /\ gaveUp 0 overdueA2 resignedA.
Proof.
  assert (H0 : attempts 0 waitingA = 0) by (vm_compute; reflexivity).
  assert (Hm : maxAttempts 0 waitingA = 0) by (vm_compute; reflexivity).
  assert (Hb : 0 <= maxAttempts 0 waitingA < 2 ^ 32 - 1) by (rewrite Hm; lia).
  assert (F1 : fireRetransmitHandshake 0 overdueA = Some retriedA) by (apply stepO_some, isSome_true; vm_compute; reflexivity).
  assert (F2 : fireRetransmitHandshake 0 overdueA2 = Some resignedA) by (apply stepO_some, isSome_true; vm_compute; reflexivity).
  assert (W1 : firings 0 0 waitingA overdueA) by (unfold overdueA; apply noFiring, sameTries_now).
  assert (N1 : duration (retransmitHandshake (timersOf overdueA 0)) <> 0) by (vm_compute; discriminate).
  assert (W2 : firings 0 1 waitingA overdueA2)
    by (apply nextFiring with overdueA retriedA; [exact W1|exact F1|exact N1|unfold overdueA2; apply sameTries_now]).
  assert (N2 : duration (retransmitHandshake (timersOf overdueA2 0)) <> 0) by (vm_compute; discriminate).
  destruct (retransmission_ends 0 0 waitingA overdueA retriedA H0 Hb W1 F1 N1) as [H1 _].
  destruct (retransmission_ends 0 1 waitingA overdueA2 resignedA H0 Hb W2 F2 N2) as [_ H2].
  rewrite Hm in H1, H2. exact (conj (H1 (Z.le_refl 0)) (H2 eq_refl)).
Defined.

(** ** A configuration refused at its end *)

Definition badConf : list Z :=
  line "h1" (str "100-200") ++ line "header_protection_key" (hexEncode (replicate 32 77)) ++ line "s1" (str "5").

Lemma ipc_error_keeps_settings_witness :
  settingsKept newA IpcErrorInvalid (IpcSet badConf newA).2 /\ tInit (headers (IpcSet badConf newA).2) = rangeFromUint32 100 200.
Proof.
  split; [|vm_compute; reflexivity].
  destruct (ipc_error_keeps_settings badConf newA IpcErrorInvalid (IpcSet badConf newA).2) as [H|H]; [|discriminate H|exact H].
  assert (E : fst (IpcSet badConf newA) = Err IpcErrorInvalid) by (vm_compute; reflexivity).
  rewrite <- E. apply surjective_pairing.
Defined.
