(* ===== verification/PrSample.v ===== *)
(** * A run of the process

    The configuration of a tunnel with an inner hop, with the toy primitives: the
    tunnel is started, and a replacement of its inner hop fails because no third
    network stack can be made.  The witnesses of the theorems about the process
    use the states of this run. *)

From stdpp Require Import base numbers list gmap sets strings.
From Stdlib Require Import ZArith Lia.
From S2P Require Import Prelude GoStrings NoiseTypes Crypto Replay RateLimiter Tai64n AllowedIPs NetIP Obf DeviceTypes Messages Noise NoiseRun Timers Cookie Packet PacketThm Send Receive Lifecycle GoNet PrConfig PrConfigThm PrI1 Uapi PrUapiThm UapiGet UapiGetThm PrEngine Events StateInv PrEngineThm Sample.

Import Toy.

(** Two network stacks at most; the exits are never known. *)
#[export] Instance sampleEnv : EngineEnv := {|
  createNetTUN w _ _ _ := (size (devs w) <? 2)%nat;
  listenTCP _ _ := true;
  lookupEgress _ _ := None
|}.

Definition keyA64 : list Z := str "CAsLCwsLCwsLCwsLCwsLCwsLCwsLCwsLCwsLCwsLC0s=".
Definition keyB64 : list Z := str "EBcXFxcXFxcXFxcXFxcXFxcXFxcXFxcXFxcXFxcXF1c=".

Definition sampleConfig : socksConfig := mkConfig
  keyA64 keyB64 [] (str "198.51.100.7:2408") [] 4 40 70 (str "quic") (str "example.org") [] 1080
  true false keyA64 keyB64 [] [] [] false false false false false false [] [] [] [] [] [] [] [] [].

(** ** The first packet and the text *)

Lemma i1_accepted_witness :
  exists pkt c, newObfChain (buildI1 (str "stun") [] 0).1 = Ok (Some c) /\
    (forall t p, obfuscated c [] t p = Some (pkt, p)) /\ bytes_ok pkt.
Proof.
  destruct (i1_accepted (str "stun") [] 0) as [E|(pkt & c & H1 & H2 & H3 & _)].
  - apply bytes_nil.
  - exfalso. vm_compute in E. discriminate E.
  - exists pkt, c. exact (conj H1 (conj H2 H3)).
Defined.

Definition bytes_okb (bs : list Z) : bool := forallb (fun x => (0 <=? x) && (x <? 256)) bs.
Lemma bytes_okb_spec bs : bytes_okb bs = true -> bytes_ok bs.
Proof.
  unfold bytes_okb. rewrite forallb_forall. intros H. apply Forall_forall. intros x Hx. apply list_elem_of_In, H in Hx. unfold is_u8. lia.
Qed.

Lemma sample_junk : junkFits sampleConfig.
Proof. intros _. unfold is_u32. cbn. lia. Qed.

Lemma sample_oneLine : oneLine (str "198.51.100.7:2408").
Proof. apply oneLine_chars. repeat constructor; discriminate. Qed.


(** ** The dump of a configured device *)

Definition dumpConf : list Z := concat (map kvLine [
  ("private_key", hexEncode skA); ("jc", str "2"); ("jmin", str "4"); ("jmax", str "9");
  ("s1", str "15"); ("s2", str "16"); ("s3", str "17"); ("s4", str "18");
  ("h1", str "100-200"); ("h4", str "300-900"); ("i2", str "<b 0x0aff><r 7>");
  ("header_protection_key", hexEncode (replicate 32 77)); ("fwmark", str "7");
  ("rekey_timeout", str "5-9"); ("random_trailers", str "1")]%string).
Definition dumpedD : Device := (IpcSet dumpConf (NewDevice (Some 1420) start)).2.

Definition dumpedChain : obfChain :=
  match newObfChain (str "<b 0x0aff><r 7>") with Ok (Some c) => c | _ => mkChain [] [] end.

Definition range_wfb (r : Z) : bool := (0 <=? r) && (r <? 2 ^ 64) && (rangeLo r <=? rangeHi r).
Lemma range_wfb_spec r : range_wfb r = true -> range_wf r.
Proof. unfold range_wfb, range_wf, is_u64. intros H. lia. Qed.

Lemma dumped_printable : printable dumpedD.
Proof.
  split.
  - split; [apply bytes_okb_spec; vm_compute; reflexivity|]. split; vm_compute; reflexivity.
  - vm_compute. reflexivity.
  - vm_compute. split; [discriminate|reflexivity].
  - vm_compute. split; [discriminate|reflexivity].
  - repeat split; vm_compute; (discriminate || reflexivity).
  - repeat (apply Forall_cons; split; [vm_compute; split; [discriminate|reflexivity]|]). constructor.
  - repeat (apply Forall_cons; split; [split; [apply range_wfb_spec; vm_compute; reflexivity|vm_compute; discriminate]|]). constructor.
  - exists None, (Some dumpedChain), None, None, None. split; [vm_compute; reflexivity|].
    apply Forall_cons; split; [exact I|]. apply Forall_cons; split; [|repeat (apply Forall_cons; split; [exact I|]); constructor].
    split; [vm_compute; reflexivity|]. split; [apply oneLine_chars; repeat constructor; discriminate|vm_compute; reflexivity].
  - split; [apply bytes_okb_spec|]; vm_compute; reflexivity.
  - apply range_wfb_spec. vm_compute. reflexivity.
  - repeat (apply Forall_cons; split; [apply range_wfb_spec; vm_compute; reflexivity|]). constructor.
Qed.

Lemma dumped_config : config_ok dumpedD.
Proof.
  apply (reachable_config (Some 1420) start). apply reachStep with (NewDevice (Some 1420) start); [apply reachHere|apply stepIpcSet].
Qed.

Lemma settings_fields d' d : settingsOf d' = settingsOf d ->
  privateKey d' = privateKey d /\ fwmark (net d') = fwmark (net d) /\ headers d' = headers d /\ ipackets d' = ipackets d.
Proof. intros [= ? ? ? ? ? ? ? ? ? ? ? ? ?]. auto. Qed.

Lemma dump_roundtrip_witness :
  exists d', IpcSet (concat (map sendf (getDevice dumpedD))) (NewDevice (Some 1280) start) = (Ok tt, d') /\
    privateKey d' = privateKey dumpedD /\ fwmark (net d') = fwmark (net dumpedD) /\ headers d' = headers dumpedD /\ ipackets d' = ipackets dumpedD.
Proof.
  assert (Hc : forall d, @closeResult sampleBind d = true) by (intros; reflexivity).
  destruct (dump_roundtrip Hc dumpedD (Some 1280) start dumped_printable dumped_config) as (d' & E & Hs & _).
  exists d'. exact (conj E (settings_fields d' dumpedD Hs)).
Defined.

(** ** The process *)

Definition sampleBindOf (inner : bool) : Bind := sampleBind.

Definition idleW : World := emptyWorld start.
Definition startedW : World := (AwgStart sampleBindOf sampleConfig idleW).2.
Definition failedW : World := (AwgSetHopInner sampleBindOf (str "188.114.97.1") startedW).2.

Lemma start_succeeds : (AwgStart sampleBindOf sampleConfig idleW).1 = Ok tt.
Proof. vm_compute. reflexivity. Qed.

Lemma replacement_fails : (AwgSetHopInner sampleBindOf (str "188.114.97.1") startedW).1 = Err ETun.
Proof. vm_compute. reflexivity. Qed.

Lemma reach_startedW : engineReachable sampleBindOf start startedW.
Proof. apply engineNext with idleW; [apply engineInit|apply stepStart]. Qed.

Lemma reach_failedW : engineReachable sampleBindOf start failedW.
Proof. apply engineNext with startedW; [apply reach_startedW|apply stepSetHop]. Qed.

(** A probe of a ping, before anything was started, and its end. *)
Definition probingW : World := (pingOpen sampleBindOf (sampleConfig <| cAddress := str "172.16.0.2" |> <| cHop := false |>) (str "198.51.100.9:2408") idleW).2.

Definition openDevs (w : World) : nat := length (filter (fun kd => isClosed kd.2 = false) (snd <$> map_to_list (devs w))).

Lemma reach_probingW : engineReachable sampleBindOf start probingW.
Proof. apply engineNext with idleW; [apply engineInit|apply stepPing]. Qed.

Lemma no_device_leaks_witness :
  (forall id k d, devs failedW !! id = Some (k, d) -> isClosed d = true \/ exists n t, tunnelAt failedW n = Some t /\ ownedBy t id) /\
  (openDevs failedW, size (devs failedW)) = (1%nat, 2%nat) /\ listening (AwgStop sampleBindOf failedW) = ∅ /\
  (forall id k d, devs (AwgStop sampleBindOf probingW) !! id = Some (k, d) ->
     isClosed d = true \/ exists n t, probes probingW !! n = Some t /\ ownedBy t id) /\
  (openDevs (AwgStop sampleBindOf probingW), openDevs (pingClose sampleBindOf 0 probingW)) = (1%nat, 0%nat).
Proof.
  destruct (no_device_leaks sampleBindOf start failedW reach_failedW) as (H1 & _ & _ & _ & _ & _ & H7).
  destruct (no_device_leaks sampleBindOf start probingW reach_probingW) as (_ & _ & _ & _ & _ & G6 & _).
  assert (Hp : probes failedW = ∅) by (vm_compute; reflexivity).
  split; [exact H1|]. split; [vm_compute; reflexivity|]. split; [exact (H7 Hp)|]. split; [exact G6|vm_compute; reflexivity].
Defined.


Lemma failed_replacement_drops_hop_witness :
  exists t t', live startedW = Some t /\ live failedW = Some t' /\ cHop (tcfg t') = true /\ innerDev t' = None /\
    socksTarget t' = (outerNet t, outerLocal t).
Proof.
  assert (E : AwgSetHopInner sampleBindOf (str "188.114.97.1") startedW = (Err ETun, failedW)).
  { unfold failedW. rewrite <- replacement_fails. apply surjective_pairing. }
  destruct (failed_replacement_drops_hop sampleBindOf start startedW _ _ _ reach_startedW E) as [[[[H _]|[H|H]] _]|H]; [discriminate H..|].
  destruct H as (t & t' & H1 & H2 & H3 & _ & H5 & H6). exists t, t'. exact (conj H1 (conj H2 (conj H3 (conj H5 H6)))).
Defined.
